(* ===== verification/_CoqProject ===== *)
-Q . S2P
Prelude.v
Text.v
Broker.v
BrokerFacts.v
AgentBridge.v
BrokerInvariants.v
BrokerProps.v
Framing.v
Credential.v
Server.v
ServerFacts.v
WorkerLoop.v
Civil.v
Scheduler.v
SchedulerFacts.v
EventRouter.v
Envelope.v
EnvelopeFacts.v
Timestamps.v
Browser.v
BrowserFacts.v
Negotiate.v
NegotiateFacts.v
Environment.v
Runtime.v
RuntimeOps.v
RuntimeFacts.v
RuntimeProps.v
ManagedProcess.v
WebSocket.v
Http.v
Json.v
Adapter.v
Usage.v
AdapterClient.v
AdapterFacts.v
Conformance.v
Terminal.v
TerminalFacts.v
UnixPty.v
DaemonState.v
TerminalCapability.v
TerminalCapFacts.v
HostCapabilities.v
Dispatch.v
Bootstrap.v
DaemonServer.v
DaemonServerFacts.v
ConnectionLife.v
DaemonMain.v
ReplyFacts.v
ShellEnvironment.v
CatalogStore.v
CatalogFacts.v
CatalogSpec.v
SurfacePolicy.v
Surface.v
SurfaceFacts.v
FileManager.v
FileManagerFacts.v
Trail.v
Notification.v
DaemonClient.v
DaemonClientFacts.v
Reconnect.v
ShellStartup.v
UsageLedger.v
GitPanel.v
GitFacts.v
ShellBrowser.v
ShellBrowserFacts.v
CommandErrors.v
ShellTerminal.v
Relay.v
Discovery.v
Diagnostics.v
Commands.v
Workbench.v
AgentRegisters.v
ExampleApi.v
