(* ===== verification/Prelude.v ===== *)
(** * DSH Desktop Shell: a verification library

    The DSH Desktop Shell is a desktop application around a local daemon.  The
    daemon brokers capabilities between agents and providers (browser,
    terminal, scheduler), talks to its clients over a framed local transport
    with one-time credentials, and supervises the DSH process it manages.  This
    library models the Rust crates that carry that logic as executable
    definitions and proves what they promise.

    ** Files and what they model

    - [Prelude]: results, the state-and-error monad, [u64] arithmetic, text,
      the lemmas and the hint database the other files share.
    - [Broker], [AgentBridge]: [crates/supervisor/src/broker.rs] and
      [broker/agent.rs].  The record [Broker] is the struct; [grant], [lease],
      [revoke], [enforce_dispatch], [dispatch], [broker_grant_from_negotiation]
      and [revoke_agent_grants] are the methods of those names.  The clock is the
      interface [Clock], with the system clock and a fixed one as instances.
      [BrokerFacts] specifies the dispatch gate by predicates on the stored
      grants and leases and proves the code refines it; [BrokerInvariants] has
      the step relation of all operations and its invariants; [BrokerProps]
      the theorems about negotiation, takeover and revocation.
    - [Framing], [Credential], [Server], [WorkerLoop]: [crates/local-transport].
      A carrier is the list of what its reads return ([reader]).  [Credential]
      has the registry of one-time credentials and both sides of the handshake,
      with the JSON codec as a parameter.  [Server] is the shared state and one
      program counter per connection thread; threads interleave freely, and the
      connection limiter is its compare-exchange loop, one attempt per step.
      [ServerFacts] has the invariants and the theorems.
      [WorkerLoop] is the read/write loop of an authenticated connection.
    - [Civil], [Scheduler]: the calendar code of [crates/daemon/src/envelope.rs],
      [scheduler.rs] and [crates/adapter-dsh-std/src/time.rs], and the wake
      scheduler of the daemon; [SchedulerFacts] has its theorems.
    - [EventRouter]: [crates/daemon/src/events.rs], its operations as steps of
      any thread, with a publication as two steps.
    - [Envelope]: the wire types and the frame-level validation of
      [crates/daemon/src/envelope.rs], with [serde_json] as the interface
      [Serde]; [EnvelopeFacts] has the rules and patterns that validation decides
      and compares them with [specs/protocol/envelope.schema.json]; [Timestamps] relates the envelope's timestamp
      check to the printer and the parser of [Civil].
    - [Browser]: [crates/browser-provider] (URL policy, session registry, audit
      events); theorems in [BrowserFacts].
    - [Negotiate]: [crates/adapter-dsh-std/src/negotiate.rs]; theorems in
      [NegotiateFacts].
    - [Environment], [Runtime], [RuntimeOps]: [crates/managed-runtime].
      [Environment] is validation, the catalog and the launch recipe, with the
      file system as the interface [Fs].  [Runtime] has the supervisor's state
      and one definition per critical section of its lock; [RuntimeOps] composes
      them into the operations as calls that stop where the code releases the
      lock, with the rounds of every loop between them (readiness, stopping a
      process, waiting for its endpoint), and lets any number of calls interleave.  [RuntimeFacts] has the
      invariants, [RuntimeProps] the theorems and the schedules.
      [ManagedProcess] is the side of the process: the threads that read its
      output, the channel of their status lines, and its process group.
    - [Text]: bytes, UTF-8 and the [str] methods the adapter uses.
    - [Json], [WebSocket], [Http], [Adapter], [AdapterClient], [Usage]:
      [crates/adapter-dsh].  The frame codec, the HTTP/1.1 codec, one Module of
      [Adapter] per file of message codecs ([auth.rs], [mux.rs], [events.rs],
      [notify.rs], [jsonrpc.rs]), the client over the transports as interfaces,
      usage accounting; [AdapterFacts] has the theorems of the composition.
    - [Conformance]: [conformance.rs], [degrade.rs] and [facets.rs] of
      [crates/adapter-dsh-std].
    - [Terminal], [UnixPty]: [crates/terminal-provider].  The session registry
      over the interface [PtyPlatform], with shared sessions in a heap and the
      reader threads as steps; the Unix platform with the answers of the kernel as
      arguments.  [TerminalFacts] has the theorems of the registry.
    - [DaemonState], [TerminalCapability], [HostCapabilities], [Dispatch]: the
      capability handlers of [crates/daemon] ([terminal.rs], [browser.rs],
      [runtime.rs], [capabilities.rs]) on the record [Daemon] they share; theorems
      in [TerminalCapFacts].
    - [Bootstrap]: [credential.rs], [singleton.rs] and the issue and maintenance
      of the bootstrap credential; the file system is a directory and a list of
      calls of which any prefix may succeed.
    - [DaemonServer]: [server.rs], one connection at a time over the shared
      [Server].  [DaemonServerFacts] has what a connection can make the daemon
      do, [ConnectionLife] what it leaves behind, [ReplyFacts] what it is
      answered.
    - [DaemonMain]: [main.rs], from the arguments over the start-up sequence to
      the loop that gives each connection a thread.
    - [ExampleApi]: [crates/external-api-example], the example provider and its
      client as two programs joined by a link that carries whole envelopes.

    - The Shell, [apps/desktop/src-tauri/src].  [ShellEnvironment]: the
      environments and launch preview of [commands.rs].  [CatalogStore]: the
      environment store, each file call one step on a disk that may fail or stop
      there; [CatalogFacts] has a crash logic and what survives, [CatalogSpec] the
      refinement to a map and the agreement with the daemon's loader.
      [SurfacePolicy], [Surface], [SurfaceFacts]: the embedded web surface, with
      the URL parser as the interface [UrlLib].  [FileManager],
      [FileManagerFacts]: the file panel over a tree with links.  [Trail],
      [Notification]: the record trails and the
      notification registry.  [DaemonClient], [DaemonClientFacts]: the client of
      the daemon, its worker thread and callers interleaved, with what both sides
      agree on; [Reconnect]: automatic reconnection; [ShellStartup]: how the Shell
      finds and authenticates to the daemon.  [UsageLedger]: the
      usage ledger over [Trail], its sessions and snapshots.  [GitPanel],
      [GitFacts]: the git panel, with git as a function from a command line and a
      repository to its output.  [ShellBrowser], [ShellBrowserFacts]: the browser
      bridge, agents and takeovers interleaved.  [ShellTerminal]: the terminal
      proxy.  [CommandErrors]: the errors the front end sees and the runtime proxy;
      [Relay]: the two proxies against the daemon's handlers.  [Commands]:
      the runtime and surface commands.  [Workbench]: the commands of the panels,
      the catalog and the set-up wizard, over one state.  [Discovery]: finding a
      harness, against the launch recipe it ends in; profiles, ports and attached
      endpoints.  [Diagnostics]: the redacted report.  [AgentRegisters]: the registers beside the broker.

    How they compose: [Server] and [WorkerLoop] deliver frames to
    [DaemonServer.serve_loop]; an envelope that [Envelope] accepts is negotiated
    through [AgentBridge] or gated by [Broker] and dispatched to the handlers,
    which drive [Terminal], [Browser], the managed runtime and [Scheduler];
    events come back through [EventRouter].

    ** What the theorems show

    - C1, C3-C5, C15 (broker): the gate lets a request through exactly when
      its specification says so; live leases are backed by the current grant
      and exclusive; revocation is durable under every later operation;
      takeover closes the gate.
    - C2, C6, C7, C20, C35 (request server): nothing but an authorized
      invocation changes a resource; the grants of a connection die with it,
      except after a reply that could not be sent; replies pass the daemon's
      own validation; a message id is acted on once.
    - C8, C27, C28 (terminals): only its creator changes a session, and an
      agent only while the broker accepts it; output events have no gaps;
      closing a session ends and never touches a reused descriptor.
    - C23-C25 (transport): a credential authenticates at most once; the
      connection limit holds under every interleaving and spurious failure;
      frame reading refines the decoder of the byte stream.
    - C26 (event router): events never cross connections, arrive at most once
      per publication, and queues stay within their capacity.
    - C29 (envelopes): validation decides its own rules, and those of the
      published envelope schema except where the two are shown to differ.
    - C30-C34 (managed runtime): a surface binding is handed out only for the
      live, healthy, current generation and is a loopback URL; process, state
      and endpoint line up under every interleaving and no tree is owned
      twice; crashes are counted exactly and the third in a window latches
      Safe Stop; every loop of a call ends at its deadline; recipes stay on
      loopback.
    - C9, C36 (environment store): wherever a write of the catalog ends, the
      old or the new catalog is still on the disk; the store is a map with an
      active entry.
    - C13, C17 (embedded surface): the web view holds only documents of the
      verified origin; it is mounted only on the endpoint the daemon verified
      for the requested generation of a managed environment.
    - C14, C37 (files): requests stay inside their root whatever links there
      are; a save replaces its one file with the whole content or leaves it,
      and is reported done only after replacing it; what is saved reads back.
    - C10, C11, C21, C22 (daemon client): the negotiation of the Shell
      succeeds with this daemon and yields its grants; a caller gets the
      answer to its own request or an error; a failed call is retried at most
      once and reconnects one at a time; the Shell reads the credential file
      the daemon wrote and authenticates with it.
    - C12 (external API example): a client of the example server gets exactly
      what the grant policy says, call by call.
    - C16 (browser bridge): once a session is under human control no further
      interaction of an agent runs in it.
    - C18, C38 (git panel): git runs only in the repository and in fixed
      forms, with at most one command that changes something and only on
      request; the status parser inverts the porcelain format.
    - C19 (terminal proxy): nothing the Shell lets through is refused as
      malformed by the daemon behind it.
    - C39 (diagnostics): what must not be shown does not influence the report.
    - C40 (adapter): the frame decoder decides its format.

    Many further theorems stand beside these in the files of their components
    (negotiation, the browser registry, the calendar, the other codecs, the Unix
    platform, conformance).

    ** Fuel and bounds

    Loops over data are structural.  [Framing.read_frame] and the worker loop
    recurse on the list of read events; the scheduler's worker pass uses the
    number of entries as fuel, which its theorem shows is enough; the
    rounds of the supervisor's loops are steps of a call that carries their
    deadlines, and [calls_end_after_deadline] bounds the steps of a whole call by
    [MAX_ROUNDS], 22 phases of at most ten seconds in rounds of 20 ms, provided
    that a child it has killed can be waited for.
    Path resolution follows at most forty links, as the kernel does.  The adapter's
    receive loops take fuel, and its theorems show that one more than the number
    of frames is enough; the Unix write and reap loops recurse on the answers of
    the kernel, and the theorems bound how many they need.  [u64] values are [N] with wrap-around,
    saturation or checking written out where the code has them.

    ** What is not modelled

    Operating-system code (named pipes, Unix sockets, the Windows Job Object and
    pseudo-console), the third-party JSON, URL and WebSocket libraries, which are
    parameters, poisoned locks, and the web front end.  The browser commands
    that pass a request on unchecked, the folder picker and the registration with
    the application framework have no behaviour of their own. *)
From stdpp Require Import base gmap strings list fin_maps option countable.
From Stdlib Require Import NArith ZArith Lia.

(** ** Results and the state-and-error monad

    A Rust [Result<A, E>] is [result E A].  A Rust method on [&mut self] that
    returns a [Result] is a computation [M S E A]: it threads the receiver's
    state and, as in Rust, a mutation made before an early return of an error
    stays visible to the caller. *)

Inductive result (E A : Type) : Type :=
| Ok (a : A)
| Err (e : E).
Arguments Ok {E A} a.
Arguments Err {E A} e.

#[export] Instance result_eq_dec {E A} `{EqDecision E} `{EqDecision A} :
  EqDecision (result E A).
Proof. solve_decision. Defined.

#[export] Instance result_ret E : MRet (result E) := fun A a => Ok a.
#[export] Instance result_bind E : MBind (result E) := fun A B k r =>
  match r with Ok a => k a | Err e => Err e end.

Definition ok_or {E A : Type} (e : E) (o : option A) : result E A :=
  match o with Some a => Ok a | None => Err e end.

Definition map_err {E F A : Type} (f : E -> F) (r : result E A) : result F A :=
  match r with Ok a => Ok a | Err e => Err (f e) end.

Definition is_ok {E A : Type} (r : result E A) : bool :=
  match r with Ok _ => true | Err _ => false end.

Definition M (S E A : Type) : Type := S -> result E A * S.

#[export] Instance M_ret S E : MRet (M S E) := fun A a s => (Ok a, s).
#[export] Instance M_bind S E : MBind (M S E) := fun A B k m s =>
  match m s with
  | (Ok a, s') => k a s'
  | (Err e, s') => (Err e, s')
  end.

Definition throw {S E A : Type} (e : E) : M S E A := fun s => (Err e, s).
Definition gets {S E A : Type} (f : S -> A) : M S E A := fun s => (Ok (f s), s).
Definition modify {S E : Type} (f : S -> S) : M S E unit := fun s => (Ok tt, f s).
Definition update {S E A : Type} (f : S -> A * S) : M S E A :=
  fun s => let '(a, s') := f s in (Ok a, s').
Definition lift {S E A : Type} (r : result E A) : M S E A := fun s => (r, s).
Definition map_err_m {S E F A : Type} (f : E -> F) (m : M S E A) : M S F A :=
  fun s => let '(r, s') := m s in (map_err f r, s').

(** A method of a field: the computation [m] on the part of the state that
    [get] reads and [set] writes back. *)
Definition zoom {S T E A : Type} (get : S -> T) (set : T -> S -> S) (m : M T E A) : M S E A :=
  fun s => let '(a, t) := m (get s) in (a, set t s).

(** [if c { return Err(e) }] *)
Definition throw_if {S E : Type} (c : bool) (e : E) : M S E unit :=
  fun s => if c then (Err e, s) else (Ok tt, s).

(** A Rust [for x in l { body?; }] loop. *)
Fixpoint for_each {S E A : Type} (body : A -> M S E unit) (l : list A) : M S E unit :=
  match l with
  | [] => mret tt
  | x :: l' => body x ≫= fun _ => for_each body l'
  end.

(** ** Fixed-width unsigned integers

    [u64] values are [N]; the operators below are the ones the sources use.
    A plain [+] is [u64_add]: the release profile does not enable overflow
    checks, so it wraps. *)

Definition U64_MAX : N := 18446744073709551615.
Definition u64_add (a b : N) : N := ((a + b) mod (U64_MAX + 1))%N.
Definition u64_saturating_add (a b : N) : N := N.min (a + b) U64_MAX.
Definition u64_saturating_mul (a b : N) : N := N.min (a * b) U64_MAX.
Definition u64_saturating_sub (a b : N) : N := (a - b)%N.
Definition u64_checked_add (a b : N) : option N :=
  if (a + b <=? U64_MAX)%N then Some (a + b)%N else None.

Lemma u64_add_small a b : (a + b <= U64_MAX)%N -> u64_add a b = (a + b)%N.
Proof. intros Hs. unfold u64_add. apply N.mod_small. lia. Qed.

Lemma u64_add_le a b : (u64_add a b <= a + b)%N.
Proof. unfold u64_add. apply N.Div0.mod_le. Qed.

Lemma u64_add_max a b : (u64_add a b <= U64_MAX)%N.
Proof. unfold u64_add, U64_MAX. apply N.lt_succ_r, N.mod_lt. lia. Qed.

(** ** Text

    A Rust [str] that the code walks by [char] is the list of its Unicode
    scalar values; [txt] is a literal. *)

Definition text := list N.
Definition txt (s : string) : text := map Ascii.N_of_ascii (String.list_ascii_of_string s).
Arguments txt : simpl never.

(** [char::is_whitespace]: the Unicode [White_Space] property. *)
Definition is_whitespace (c : N) : bool :=
  ((9 <=? c) && (c <=? 13) || (c =? 32) || (c =? 133) || (c =? 160) || (c =? 5760)
   || (8192 <=? c) && (c <=? 8202) || (c =? 8232) || (c =? 8233) || (c =? 8239)
   || (c =? 8287) || (c =? 12288))%N.

(** [s.trim().is_empty()] *)
Definition is_blank (s : text) : bool := forallb is_whitespace s.

(** Bytes of the UTF-8 encoding: [str::len]. *)
Definition utf8_len (s : text) : N :=
  foldr (fun c n => ((if c <? 128 then 1 else if c <? 2048 then 2 else if c <? 65536 then 3 else 4)
                     + n)%N) 0%N s.

(** [str::find] of a pattern, as the parts before and after its first match
    ([str::split_once]). *)
Fixpoint split_at_first (pat s : text) : option (text * text) :=
  if bool_decide (take (length pat) s = pat) then Some ([], drop (length pat) s)
  else
    match s with
    | [] => None
    | c :: s => '(a, b) ← split_at_first pat s; Some (c :: a, b)
    end.

(** ** Automation *)

Create HintDb dsh.

(** One branch of a monadic operation: reduce the monad and split on the
    first condition the operation tests. *)
Ltac unfold_monad :=
  cbv [mret mbind M_ret M_bind result_ret result_bind throw gets modify lift
       throw_if map_err_m] in *; cbn beta iota in *.

Ltac split_branch :=
  match goal with
  | H : (_, _) = (_, _) |- _ => injection H; clear H; intros; subst
  | H : Ok _ = Ok _ |- _ => injection H; clear H; intros; subst
  | H : Err _ = Err _ |- _ => injection H; clear H; intros; subst
  | H : Some _ = Some _ |- _ => injection H; clear H; intros; subst
  | H : Ok _ = Err _ |- _ => discriminate H
  | H : Err _ = Ok _ |- _ => discriminate H
  | H : context [match ?x with _ => _ end] |- _ =>
      lazymatch x with
      | context [match _ with _ => _ end] => fail
      | _ => let E := fresh "E" in destruct x eqn:E
      end
  end.

Ltac split_branches := repeat (split_branch; cbn beta iota zeta in *); try done.

(** ** Transitions of a computation

    [steps_in R m]: whatever state [m] starts from and however it returns, the
    state it leaves is related to the first one by [R].  For a preorder [R] the
    relation composes along the monad, so that an invariant or a monotonicity
    property of a whole operation follows from its primitive mutations. *)

Definition steps_in {S E A : Type} (R : relation S) (m : M S E A) : Prop :=
  forall s, R s (m s).2.

(** The preorder "[P] is preserved". *)
Definition keeps {S : Type} (P : S -> Prop) : relation S := fun s s' => P s -> P s'.

#[export] Instance keeps_preorder {S} (P : S -> Prop) : PreOrder (keeps P).
Proof. split; unfold keeps; [intros ?; tauto | intros ???; tauto]. Qed.

Section StepsIn.
Context {S : Type} (R : relation S) `{!PreOrder R}.

Lemma steps_in_ret {E A} (a : A) : steps_in R (mret a : M S E A).
Proof. intros s. reflexivity. Qed.

Lemma steps_in_throw {E A} (e : E) : steps_in R (throw e : M S E A).
Proof. intros s. reflexivity. Qed.

Lemma steps_in_gets {E A} (f : S -> A) : steps_in R (gets f : M S E A).
Proof. intros s. reflexivity. Qed.

Lemma steps_in_lift {E A} (r : result E A) : steps_in R (lift r : M S E A).
Proof. intros s. reflexivity. Qed.

Lemma steps_in_throw_if {E} (c : bool) (e : E) : steps_in R (throw_if c e : M S E unit).
Proof. intros s. unfold throw_if. by destruct c. Qed.

Lemma steps_in_modify {E} (f : S -> S) :
  (forall s, R s (f s)) -> steps_in R (modify f : M S E unit).
Proof. intros H s. apply H. Qed.

Lemma steps_in_update {E A} (f : S -> A * S) :
  (forall s, R s (f s).2) -> steps_in R (update f : M S E A).
Proof. intros H s. unfold update. specialize (H s). by destruct (f s). Qed.

Lemma steps_in_bind {E A B} (m : M S E A) (k : A -> M S E B) :
  steps_in R m -> (forall a, steps_in R (k a)) -> steps_in R (m ≫= k).
Proof.
  intros Hm Hk s. specialize (Hm s). unfold mbind, M_bind.
  destruct (m s) as [[a | e] s']; cbn in *; [| done].
  etrans; [exact Hm | apply Hk].
Qed.

Lemma steps_in_map_err {E F A} (f : E -> F) (m : M S E A) :
  steps_in R m -> steps_in R (map_err_m f m).
Proof. intros Hm s. unfold map_err_m. specialize (Hm s). by destruct (m s). Qed.

Lemma steps_in_zoom {E A T} (get : S -> T) (set : T -> S -> S) (m : M T E A) :
  (forall s, R s (set (m (get s)).2 s)) -> steps_in R (zoom get set m).
Proof. intros Hm s. unfold zoom. specialize (Hm s). by destruct (m (get s)). Qed.

Lemma steps_in_for_each {E A} (body : A -> M S E unit) (l : list A) :
  (forall a, steps_in R (body a)) -> steps_in R (for_each body l).
Proof.
  intros Hb. induction l as [|a l IH]; cbn [for_each].
  - apply steps_in_ret.
  - apply steps_in_bind; [apply Hb | done].
Qed.
End StepsIn.

#[export] Hint Resolve steps_in_ret steps_in_throw steps_in_gets steps_in_lift
  steps_in_throw_if steps_in_modify steps_in_update steps_in_bind steps_in_map_err
  steps_in_for_each : dsh.

(** ** Outcomes of a computation

    [yields I P Q m]: from a state with [I], [m] returns a value with [P] or an
    error with [Q], in a state with [I] again. *)

Definition yields {S E A : Type} (I : S -> Prop) (P : A -> Prop) (Q : E -> Prop) (m : M S E A) : Prop :=
  forall s, I s -> I (m s).2 /\ match (m s).1 with Ok a => P a | Err e => Q e end.

Section Yields.
Context {S : Type} (I : S -> Prop).

Lemma yields_ret {E A} (P : A -> Prop) (Q : E -> Prop) a : P a -> yields I P Q (mret a).
Proof. by intros ? s. Qed.

Lemma yields_throw {E A} (P : A -> Prop) (Q : E -> Prop) e : Q e -> yields I P Q (throw e).
Proof. by intros ? s. Qed.

Lemma yields_gets {E A} (P : A -> Prop) (Q : E -> Prop) f :
  (forall s, I s -> P (f s)) -> yields I P Q (gets f).
Proof. intros Hf s Hs. by split; [| apply Hf]. Qed.

Lemma yields_lift {E A} (P : A -> Prop) (Q : E -> Prop) r :
  match r with Ok a => P a | Err e => Q e end -> yields I P Q (lift r).
Proof. by intros ? s. Qed.

Lemma yields_throw_if {E} (P : unit -> Prop) (Q : E -> Prop) c e : P tt -> Q e -> yields I P Q (throw_if c e).
Proof. intros ? ? s. unfold throw_if. by destruct c. Qed.

Lemma yields_modify {E} (P : unit -> Prop) (Q : E -> Prop) f :
  (forall s, I s -> I (f s)) -> P tt -> yields I P Q (modify f).
Proof. intros Hf ? s Hs. by split; [apply Hf |]. Qed.

Lemma yields_bind {E A B} (P1 : A -> Prop) (P : B -> Prop) (Q : E -> Prop) m k :
  yields I P1 Q m -> (forall a, P1 a -> yields I P Q (k a)) -> yields I P Q (m ≫= k).
Proof.
  intros Hm Hk s Hs. destruct (Hm s Hs) as [Hs' Hr]. unfold mbind, M_bind.
  destruct (m s) as [[a | e] s']; [| done]. by apply Hk.
Qed.

Lemma yields_map_err {E F A} (P : A -> Prop) (Q : F -> Prop) (f : E -> F) m :
  yields I P (fun e => Q (f e)) m -> yields I P Q (map_err_m f m).
Proof.
  intros Hm s Hs. destruct (Hm s Hs) as [Hs' Hr]. unfold map_err_m. by destruct (m s) as [[]].
Qed.

Lemma yields_weaken {E A} (P P' : A -> Prop) (Q : E -> Prop) m :
  (forall a, P a -> P' a) -> yields I P Q m -> yields I P' Q m.
Proof.
  intros HP Hm s Hs. destruct (Hm s Hs) as [Hs' Hr]. split; [done |]. destruct (m s).1; auto.
Qed.
End Yields.

(** Nothing to say of the states, nor of the outcomes. *)
Lemma yields_any {S E A} (P : A -> Prop) (Q : E -> Prop) (m : M S E A) :
  (forall a, P a) -> (forall e, Q e) -> yields (fun _ => True) P Q m.
Proof. intros HP HQ s _. split; [done |]. destruct (m s).1; auto. Qed.

(** ** Successful runs *)

Lemma bind_ok {S E A B} (m : M S E A) (k : A -> M S E B) s y s' :
  (m ≫= k) s = (Ok y, s') <->
  exists x s1, m s = (Ok x, s1) /\ k x s1 = (Ok y, s').
Proof.
  unfold mbind, M_bind. destruct (m s) as [[x|e] s1]; naive_solver.
Qed.

Lemma throw_if_ok {S E} (c : bool) (e : E) (s s' : S) u :
  throw_if c e s = (Ok u, s') <-> c = false /\ s' = s.
Proof. unfold throw_if. destruct c, u; naive_solver. Qed.

Lemma lift_ok {S E A} (r : result E A) (s s' : S) a :
  lift r s = (Ok a, s') <-> r = Ok a /\ s' = s.
Proof. unfold lift. naive_solver. Qed.

Lemma gets_ok {S E A} (f : S -> A) (s s' : S) a :
  (gets f : M S E A) s = (Ok a, s') <-> a = f s /\ s' = s.
Proof. unfold gets. naive_solver. Qed.

Lemma modify_ok {S E} (f : S -> S) (s s' : S) u :
  (modify f : M S E unit) s = (Ok u, s') <-> s' = f s.
Proof. unfold modify. destruct u. naive_solver. Qed.

Lemma ret_ok {S E A} (a b : A) (s s' : S) :
  (mret a : M S E A) s = (Ok b, s') <-> b = a /\ s' = s.
Proof. unfold mret, M_ret. naive_solver. Qed.

Lemma Ok_inj {E A} (a b : A) : @Ok E A a = Ok b -> a = b.
Proof. by intros [= ->]. Qed.

Lemma ok_or_ok {E A} (e : E) (o : option A) a : ok_or e o = Ok a <-> o = Some a.
Proof. destruct o; naive_solver. Qed.

Lemma map_err_m_ok {S E F A} (f : E -> F) (m : M S E A) s a s' :
  map_err_m f m s = (Ok a, s') <-> m s = (Ok a, s').
Proof. unfold map_err_m. destruct (m s) as [[] ?]; naive_solver. Qed.

Lemma zoom_ok {S T E A} (get : S -> T) (set : T -> S -> S) (m : M T E A) s a s' :
  zoom get set m s = (Ok a, s') <-> exists t, m (get s) = (Ok a, t) /\ s' = set t s.
Proof. unfold zoom. destruct (m (get s)) as [r t]. naive_solver. Qed.

Lemma map_err_m_err {S E F A} (f : E -> F) (m : M S E A) s e s' :
  m s = (Err e, s') -> map_err_m f m s = (Err (f e), s').
Proof. unfold map_err_m. by intros ->. Qed.

(** A loop whose body establishes [P] for its element, and never undoes it,
    ends with [P] for all of them. *)
Lemma for_each_ok {S E A} (I : S -> Prop) (P : A -> S -> Prop) (body : A -> M S E unit) :
  (forall a s s', I s -> body a s = (Ok tt, s') -> I s' /\ P a s') ->
  (forall a a' s s', I s -> P a s -> body a' s = (Ok tt, s') -> P a s') ->
  forall l s s', I s -> for_each body l s = (Ok tt, s') ->
    I s' /\ forall a, a ∈ l -> P a s'.
Proof.
  intros Hest Hkeep.
  assert (Hgen : forall l s s' (done : A -> Prop), I s -> (forall a, done a -> P a s) ->
            for_each body l s = (Ok tt, s') -> I s' /\ forall a, done a \/ a ∈ l -> P a s').
  { induction l as [|x l IH]; intros s s' dn HI Hdn; cbn [for_each].
    - intros [= <-]. split; [done |]. intros a [? | []%elem_of_nil]; auto.
    - intros ([] & s1 & Hx & Hl)%bind_ok. destruct (Hest x s s1 HI Hx) as [HI1 HP1].
      destruct (IH s1 s' (fun a => dn a \/ a = x) HI1) as [HI' HP']; [| done |].
      + intros a [Ha | ->]; [eauto | done].
      + split; [done |]. intros a. rewrite elem_of_cons. naive_solver. }
  intros l s s' HI Hl. destruct (Hgen l s s' (fun _ => False) HI) as [? HP]; [done.. |].
  split; [done |]. intros a Ha. by apply HP; right.
Qed.

Lemma for_each_noop {S E A} (body : A -> M S E unit) l s :
  (forall a, a ∈ l -> body a s = (Ok tt, s)) -> for_each body l s = (Ok tt, s).
Proof.
  induction l as [|a l IH]; intros H; [done |]. cbn [for_each]. cbv [mbind M_bind].
  rewrite (H a) by (by left). apply IH. intros x Hx. apply H. by right.
Qed.

(** ** Lists *)

(** Existence tests do not depend on the order of the list. *)
#[export] Instance existsb_perm_proper {A} (p : A -> bool) :
  Proper ((≡ₚ) ==> (=)) (existsb p).
Proof.
  intros l1 l2 HP. induction HP; cbn; try congruence.
  by rewrite !orb_assoc, (orb_comm (p y)).
Qed.

Lemma existsb_elem {A} (p : A -> bool) (l : list A) :
  existsb p l = true <-> exists x, x ∈ l /\ p x = true.
Proof.
  rewrite existsb_exists. by setoid_rewrite <- list_elem_of_In.
Qed.

Lemma existsb_not_elem {A} (p : A -> bool) (l : list A) :
  existsb p l = false <-> forall x, x ∈ l -> p x = false.
Proof.
  rewrite <- not_true_iff_false, existsb_elem. split.
  - intros H x Hx. destruct (p x) eqn:E; [exfalso; eauto | done].
  - intros H (x & Hx & E). specialize (H x Hx). congruence.
Qed.

(** ** Text *)

Lemma split_at_first_some pat s a b : split_at_first pat s = Some (a, b) -> s = a ++ pat ++ b.
Proof.
  revert a b. induction s as [|c s IH]; intros a b; cbn [split_at_first]; case_bool_decide as H.
  - intros [= <- <-]. rewrite <- H at 1. by rewrite take_nil, drop_nil.
  - done.
  - intros [= <- <-]. rewrite <- H at 1. by rewrite take_drop.
  - destruct (split_at_first pat s) as [[a' b']|]; [| done]. cbn. intros [= <- <-].
    cbn. f_equal. by apply IH.
Qed.
