(* ===== verification/Text.v ===== *)
(** * Bytes, UTF-8 and text

    What the sources use of [u8], [str] and [String] beyond the prelude.  A
    Rust string that the code takes apart by [char] is a [text], the list of its
    Unicode scalar values; [utf8_encode] gives its bytes and [from_utf8] and
    [from_utf8_lossy] go back.  The string methods follow the standard library. *)
From S2P Require Import Prelude.
From stdpp Require Import base list option strings pretty.
From Stdlib Require Import NArith ZArith Lia Strings.Byte ZifyBool.

(** ** Bytes *)

(** [as u8]: truncation to eight bits. *)
Definition byte_of (n : N) : byte := default x00 (Byte.of_N (n mod 256)).

Lemma to_N_byte_of n : Byte.to_N (byte_of n) = (n mod 256)%N.
Proof.
  unfold byte_of. pose proof (N.mod_lt n 256 ltac:(done)) as H.
  destruct (Byte.of_N (n mod 256)) as [b|] eqn:E; cbn.
  - by apply Byte.to_of_N.
  - apply Byte.of_N_None_iff in E. lia.
Qed.

Lemma byte_of_to_N b : byte_of (Byte.to_N b) = b.
Proof. by destruct b. Qed.

Lemma to_N_inj a b : Byte.to_N a = Byte.to_N b -> a = b.
Proof. intros H. by rewrite <- (byte_of_to_N a), H, byte_of_to_N. Qed.

Lemma to_N_lt b : (Byte.to_N b < 256)%N.
Proof. by destruct b. Qed.

#[export] Instance byte_eq_dec : EqDecision byte.
Proof. intros a b. destruct (Byte.byte_eq_dec a b); [by left | by right]. Defined.

(** [haystack.windows(n).position(|w| w == needle)], as the bytes before and
    after the first occurrence. *)
Fixpoint find_bytes (needle haystack : list byte) : option nat :=
  if bool_decide (take (length needle) haystack = needle) then Some O
  else match haystack with
       | [] => None
       | _ :: rest => S <$> find_bytes needle rest
       end.

(** ** UTF-8 *)

Definition byte_in (lo hi : N) (b : byte) : bool :=
  ((lo <=? Byte.to_N b) && (Byte.to_N b <=? hi))%N.

(** A continuation byte. *)
Definition is_cont (b : byte) : bool := byte_in 128 191 b.
Definition cont_bits (b : byte) : N := (Byte.to_N b - 128)%N.

(** The bytes allowed after the first byte of a three- or four-byte sequence:
    no overlong form, no surrogate, nothing above U+10FFFF. *)
Definition second_ok (b0 b1 : byte) : bool :=
  let n := Byte.to_N b0 in
  if (n =? 224)%N then byte_in 160 191 b1
  else if (n =? 237)%N then byte_in 128 159 b1
  else if (n =? 240)%N then byte_in 144 191 b1
  else if (n =? 244)%N then byte_in 128 143 b1
  else is_cont b1.

(** The scalar values of a byte string, with [None] for each maximal ill-formed
    sequence. *)
Fixpoint utf8_chars (bs : list byte) : list (option N) :=
  match bs with
  | [] => []
  | b0 :: r0 =>
      let n := Byte.to_N b0 in
      if (n <? 128)%N then Some n :: utf8_chars r0
      else if byte_in 194 223 b0 then
        match r0 with
        | b1 :: r1 =>
            if is_cont b1 then Some ((n - 192) * 64 + cont_bits b1)%N :: utf8_chars r1
            else None :: utf8_chars r0
        | [] => [None]
        end
      else if byte_in 224 239 b0 then
        match r0 with
        | b1 :: r1 =>
            if second_ok b0 b1 then
              match r1 with
              | b2 :: r2 =>
                  if is_cont b2
                  then Some ((n - 224) * 4096 + cont_bits b1 * 64 + cont_bits b2)%N :: utf8_chars r2
                  else None :: utf8_chars r1
              | [] => [None]
              end
            else None :: utf8_chars r0
        | [] => [None]
        end
      else if byte_in 240 244 b0 then
        match r0 with
        | b1 :: r1 =>
            if second_ok b0 b1 then
              match r1 with
              | b2 :: r2 =>
                  if is_cont b2 then
                    match r2 with
                    | b3 :: r3 =>
                        if is_cont b3
                        then Some ((n - 240) * 262144 + cont_bits b1 * 4096 + cont_bits b2 * 64
                                   + cont_bits b3)%N :: utf8_chars r3
                        else None :: utf8_chars r2
                    | [] => [None]
                    end
                  else None :: utf8_chars r1
              | [] => [None]
              end
            else None :: utf8_chars r0
        | [] => [None]
        end
      else None :: utf8_chars r0
  end.

(** [std::str::from_utf8] *)
Definition from_utf8 (bs : list byte) : option text := mapM id (utf8_chars bs).

(** [String::from_utf8_lossy] *)
Definition from_utf8_lossy (bs : list byte) : text := map (default 65533%N) (utf8_chars bs).

(** A Unicode scalar value, what a Rust [char] holds. *)
Definition scalar (c : N) : bool := ((c <? 55296) || (57343 <? c) && (c <? 1114112))%N.

Definition utf8_char (c : N) : list byte :=
  (if c <? 128 then [byte_of c]
   else if c <? 2048 then [byte_of (192 + c / 64); byte_of (128 + c mod 64)]
   else if c <? 65536 then
     [byte_of (224 + c / 4096); byte_of (128 + (c / 64) mod 64); byte_of (128 + c mod 64)]
   else [byte_of (240 + c / 262144); byte_of (128 + (c / 4096) mod 64);
         byte_of (128 + (c / 64) mod 64); byte_of (128 + c mod 64)])%N.

(** [str::as_bytes] *)
Definition utf8_encode (s : text) : list byte := flat_map utf8_char s.

(** ** Methods of [str] *)

Definition starts_with (pre s : text) : bool := bool_decide (take (length pre) s = pre).

Definition strip_prefix (pre s : text) : option text :=
  if starts_with pre s then Some (drop (length pre) s) else None.

(** [split_once(c)] *)
Definition split_once (c : N) (s : text) : option (text * text) := split_at_first [c] s.

(** [split(c)] on a character: never empty. *)
Fixpoint split_char (c : N) (s : text) : list text :=
  match s with
  | [] => [[]]
  | x :: s =>
      if (x =? c)%N then [] :: split_char c s
      else match split_char c s with
           | [] => [[x]]
           | p :: ps => (x :: p) :: ps
           end
  end.

(** [split(pat)] on a non-empty string, with [skip] characters of a match still
    to be passed. *)
Fixpoint split_from (pat : text) (skip : nat) (s : text) : list text :=
  match s with
  | [] => [[]]
  | x :: s' =>
      match skip with
      | S k => split_from pat k s'
      | O =>
          if starts_with pat s then [] :: split_from pat (length pat - 1) s'
          else match split_from pat 0 s' with
               | [] => [[x]]
               | p :: ps => (x :: p) :: ps
               end
      end
  end.
Definition split_str (pat s : text) : list text := split_from pat 0 s.

Fixpoint drop_while {A} (p : A -> bool) (l : list A) : list A :=
  match l with
  | [] => []
  | x :: l' => if p x then drop_while p l' else l
  end.

Definition trim_start (s : text) : text := drop_while is_whitespace s.
Definition trim_end (s : text) : text := rev (trim_start (rev s)).
Definition trim (s : text) : text := trim_end (trim_start s).

(** [trim_end_matches(c)] *)
Definition trim_end_matches (c : N) (s : text) : text :=
  rev (drop_while (N.eqb c) (rev s)).

Definition to_ascii_lower (c : N) : N := if ((65 <=? c) && (c <=? 90))%N then (c + 32)%N else c.
Definition to_ascii_lowercase (s : text) : text := map to_ascii_lower s.
Definition eq_ignore_ascii_case (a b : text) : bool :=
  bool_decide (to_ascii_lowercase a = to_ascii_lowercase b).

(** [str::contains] *)
Definition contains (pat s : text) : bool :=
  if split_at_first pat s is Some _ then true else false.

(** [char::to_digit] *)
Definition to_digit (radix c : N) : option N :=
  let d := if ((48 <=? c) && (c <=? 57))%N then Some (c - 48)%N
           else if ((97 <=? c) && (c <=? 122))%N then Some (c - 87)%N
           else if ((65 <=? c) && (c <=? 90))%N then Some (c - 55)%N
           else None in
  d ≫= fun d => if (d <? radix)%N then Some d else None.

Fixpoint digits_value (radix max acc : N) (s : text) : option N :=
  match s with
  | [] => Some acc
  | c :: s =>
      d ← to_digit radix c;
      let acc := (acc * radix + d)%N in
      if (acc <=? max)%N then digits_value radix max acc s else None
  end.

(** [from_str_radix] and [parse] of an unsigned integer type whose largest value
    is [max]: one sign [+] is allowed, an empty number and an overflow are not. *)
Definition parse_unsigned (radix max : N) (s : text) : option N :=
  match s with
  | 43%N :: (_ :: _ as rest) => digits_value radix max 0 rest
  | [] => None
  | _ => digits_value radix max 0 s
  end.

(** ** Lemmas *)

Lemma find_bytes_some needle haystack n :
  find_bytes needle haystack = Some n ->
  haystack = take n haystack ++ needle ++ drop (n + length needle) haystack.
Proof.
  revert n. induction haystack as [|b l IH]; intros n; cbn [find_bytes]; case_bool_decide as H.
  - intros [= <-]. cbn [take app Nat.add]. rewrite <- H at 1. by rewrite take_drop.
  - done.
  - intros [= <-]. cbn [take app Nat.add]. rewrite <- H at 1. by rewrite take_drop.
  - destruct (find_bytes needle l) as [m|]; [| done]. cbn. intros [= <-].
    cbn. f_equal. by apply IH.
Qed.

(** A needle whose first byte does not occur earlier is found where it is. *)
Lemma find_bytes_app x needle pre rest :
  x ∉ pre -> find_bytes (x :: needle) (pre ++ (x :: needle) ++ rest) = Some (length pre).
Proof.
  intros Hx. induction pre as [|b pre IH].
  - cbn [app]. unfold find_bytes. rewrite bool_decide_true; [done |].
    cbn [length take]. f_equal. rewrite take_app_length. done.
  - apply not_elem_of_cons in Hx as [Hb Hx]. cbn [app find_bytes].
    rewrite bool_decide_false by (cbn [length take]; intros [= ? _]; congruence).
    cbn [app] in IH. by rewrite IH.
Qed.

(** A literal does not hold a character. *)
Ltac absent_in H :=
  vm_compute in H; repeat (apply elem_of_cons in H as [H | H]; [discriminate H |]);
  by apply elem_of_nil in H.
Ltac absent := let H := fresh in intros H; absent_in H.

(** *** UTF-8 *)

(** Settle the byte ranges [utf8_chars] tests, from the values of the bytes. *)
Ltac settle_ranges :=
  repeat match goal with
         | |- context [if ?c then _ else _] =>
             first [replace c with true by (repeat case_match; lia)
                   | replace c with false by (repeat case_match; lia)]
         end.

Lemma utf8_chars_char c rest :
  scalar c = true -> utf8_chars (utf8_char c ++ rest) = Some c :: utf8_chars rest.
Proof.
  unfold scalar, utf8_char. intros Hc.
  pose proof (N.div_mod c 64 ltac:(done)) as D1. pose proof (N.mod_lt c 64 ltac:(done)) as M1.
  assert (D2 : (c / 64 = 64 * (c / 4096) + (c / 64) mod 64)%N).
  { change 4096%N with (64 * 64)%N. rewrite <- N.Div0.div_div. apply N.div_mod. done. }
  assert (D3 : (c / 4096 = 64 * (c / 262144) + (c / 4096) mod 64)%N).
  { change 262144%N with (4096 * 64)%N. rewrite <- N.Div0.div_div. apply N.div_mod. done. }
  pose proof (N.mod_lt (c / 64) 64 ltac:(done)) as M2.
  pose proof (N.mod_lt (c / 4096) 64 ltac:(done)) as M3.
  generalize dependent (c mod 64)%N. intros x1 D1 M1.
  generalize dependent ((c / 64) mod 64)%N. intros x2 D2 M2.
  generalize dependent ((c / 4096) mod 64)%N. intros x3 D3 M3.
  generalize dependent (c / 262144)%N. intros y3 D3.
  generalize dependent (c / 4096)%N. intros y2 D2 D3.
  generalize dependent (c / 64)%N. intros y1 D1 D2.
  destruct (N.ltb_spec c 128); [| destruct (N.ltb_spec c 2048); [| destruct (N.ltb_spec c 65536)]];
    cbn [app utf8_chars]; unfold second_ok, is_cont, byte_in, cont_bits;
    rewrite ?to_N_byte_of, ?(N.mod_small _ 256) by lia; settle_ranges; do 2 f_equal; lia.
Qed.

Lemma utf8_chars_encode s rest :
  forallb scalar s = true -> utf8_chars (utf8_encode s ++ rest) = map Some s ++ utf8_chars rest.
Proof.
  induction s as [|c s IH]; [done |]. cbn [forallb]. intros [Hc Hs]%andb_prop.
  cbn [utf8_encode flat_map map]. rewrite <- (assoc (++)), utf8_chars_char by done.
  cbn. f_equal. by apply IH.
Qed.

Lemma mapM_id_some {A} (l : list A) : mapM id (map Some l) = Some l.
Proof. induction l as [|x l IH]; [done |]. cbn. by rewrite IH. Qed.

(** Decoding inverts encoding. *)
Lemma from_utf8_encode s : forallb scalar s = true -> from_utf8 (utf8_encode s) = Some s.
Proof.
  intros H. unfold from_utf8. rewrite <- (app_nil_r (utf8_encode s)), utf8_chars_encode by done.
  by rewrite app_nil_r, mapM_id_some.
Qed.

Lemma from_utf8_lossy_encode s : forallb scalar s = true -> from_utf8_lossy (utf8_encode s) = s.
Proof.
  intros H. unfold from_utf8_lossy. rewrite <- (app_nil_r (utf8_encode s)), utf8_chars_encode by done.
  rewrite app_nil_r, map_map. cbn. apply map_id.
Qed.

(** Text below U+0080 is its own encoding. *)
Definition ascii_text (s : text) : bool := forallb (fun c => c <? 128)%N s.

Lemma utf8_encode_ascii s : ascii_text s = true -> utf8_encode s = map byte_of s.
Proof.
  induction s as [|c s IH]; [done |]. cbn [ascii_text forallb]. intros [Hc Hs]%andb_prop.
  cbn [utf8_encode flat_map map]. unfold utf8_char at 1. rewrite Hc. cbn. f_equal. by apply IH.
Qed.

Lemma ascii_scalar s : ascii_text s = true -> forallb scalar s = true.
Proof.
  unfold ascii_text, scalar. rewrite !forallb_forall. intros H x Hx. specialize (H x Hx). lia.
Qed.

Lemma utf8_encode_app s t : utf8_encode (s ++ t) = utf8_encode s ++ utf8_encode t.
Proof. apply flat_map_app. Qed.

(** Bytes from U+0080 up are never below 128, so an ASCII byte of an encoding is
    an ASCII character. *)
Lemma utf8_encode_byte s b :
  forallb scalar s = true -> (Byte.to_N b < 128)%N -> b ∈ utf8_encode s -> Byte.to_N b ∈ s.
Proof.
  intros Hs Hb. induction s as [|c s IH]; cbn [utf8_encode flat_map]; [by intros ?%elem_of_nil |].
  cbn [forallb] in Hs. apply andb_prop in Hs as [Hc Hs].
  rewrite elem_of_app. intros [H | H]; [| right; by apply IH].
  enough (c = Byte.to_N b) as -> by left. revert H. unfold utf8_char, scalar in *.
  repeat case_match; rewrite ?elem_of_cons, elem_of_nil; intros Hin; destruct_or?; try done; subst;
    rewrite to_N_byte_of in *; clear IH Hs; zify; Z.to_euclidean_division_equations; lia.
Qed.

(** *** Numbers *)

Lemma digits_value_step radix max x c (s : text) :
  (x <= max)%N -> to_digit radix c = Some (x mod radix)%N -> radix <> 0%N ->
  digits_value radix max (x / radix) (c :: s) = digits_value radix max x s.
Proof.
  intros Hx Hc Hr. cbn [digits_value]. rewrite Hc. cbn.
  rewrite (N.mul_comm _ radix), <- N.div_mod by done. by rewrite (proj2 (N.leb_le x max) Hx).
Qed.

Lemma txt_cons c s : txt (String.String c s) = Ascii.N_of_ascii c :: txt s.
Proof. done. Qed.

Lemma pretty_char_digit n :
  (n < 10)%N ->
  let c := Ascii.N_of_ascii (pretty_N_char n) in to_digit 10 c = Some n /\ (48 <= c <= 57)%N.
Proof.
  intros H. destruct n as [|p]; [done |].
  do 4 (destruct p as [p|p|]; try done; try lia).
Qed.

Lemma digits_value_pretty_go max x s :
  (x <= max)%N ->
  digits_value 10 max 0 (txt (pretty_N_go x s)) = digits_value 10 max x (txt s).
Proof.
  revert s. induction (N.lt_wf_0 x) as [x _ IH]. intros s Hx.
  destruct (decide (0 < x)%N) as [Hpos | Hz].
  - rewrite pretty_N_go_step by done.
    assert (x / 10 < x)%N by (apply N.div_lt; lia).
    rewrite IH by lia. rewrite txt_cons. apply digits_value_step; [done | | done].
    apply pretty_char_digit, N.mod_lt. done.
  - by replace x with 0%N by lia.
Qed.

Lemma pretty_go_digits x s :
  Forall (fun c => 48 <= c <= 57)%N (txt s) -> Forall (fun c => 48 <= c <= 57)%N (txt (pretty_N_go x s)).
Proof.
  revert s. induction (N.lt_wf_0 x) as [x _ IH]. intros s Hs.
  destruct (decide (0 < x)%N) as [Hpos | Hz]; [| by replace x with 0%N by lia].
  rewrite pretty_N_go_step by done. apply IH; [apply N.div_lt; lia |]. rewrite txt_cons.
  constructor; [| done]. apply pretty_char_digit, N.mod_lt. done.
Qed.

Lemma pretty_digits (n : N) : Forall (fun c => 48 <= c <= 57)%N (txt (pretty n)).
Proof.
  unfold pretty, pretty_N. case_decide; [by repeat constructor |].
  apply pretty_go_digits. constructor.
Qed.

Lemma pretty_ascii (n : N) : ascii_text (txt (pretty n)) = true.
Proof.
  apply forallb_forall. intros c Hc%list_elem_of_In.
  pose proof (proj1 (Forall_forall _ _) (pretty_digits n) c Hc). cbv beta in *. lia.
Qed.

(** Reading a printed number. *)
Lemma parse_unsigned_pretty (max n : N) :
  (n <= max)%N -> parse_unsigned 10 max (txt (pretty n)) = Some n.
Proof.
  intros H. unfold parse_unsigned. pose proof (pretty_digits n) as Hd.
  destruct (txt (pretty n)) as [|c s] eqn:Hp.
  { unfold pretty, pretty_N in Hp. case_decide; [done |].
    assert (Hz : digits_value 10 n 0 (txt (pretty_N_go n EmptyString)) = Some n)
      by by rewrite digits_value_pretty_go.
    rewrite Hp in Hz. injection Hz as <-. done. }
  apply Forall_cons in Hd as [Hc _].
  assert (Hne : match c :: s with 43%N :: (_ :: _ as rest) => digits_value 10 max 0 rest
                | [] => None | _ => digits_value 10 max 0 (c :: s) end
                = digits_value 10 max 0 (c :: s)).
  { destruct (decide (c = 43%N)) as [-> | Hne]; [lia |].
    destruct c as [|p]; [done |]. repeat (destruct p as [p|p|]; try done). }
  rewrite Hne, <- Hp. unfold pretty, pretty_N. case_decide as Hn.
  - subst n. apply (digits_value_step 10 max 0 48 []); done.
  - by rewrite digits_value_pretty_go.
Qed.
