(* ===== verification/Broker.v ===== *)
(** * The P0 Capability Broker

    Model of [crates/supervisor/src/broker.rs]: grants, leases, providers and
    the dispatch gate.  The agent bridge's register maps live in the same
    record, as in the source; the operations on them are in [AgentBridge].

    - [Broker] is the struct; the three [HashMap]s are [gmap]s.
    - the [Clock] trait is the class [Clock]: a reading may advance the source.
    - every [&mut self] method is a computation of the monad [M].  The [&self]
      methods that read the clock are too, since the clock advances. *)
From S2P Require Import Prelude.
From stdpp Require Import base gmap strings list fin_maps option countable.
From Stdlib Require Import NArith ZArith Lia.

(** ** Time *)

(** [trait Clock]: one reading of the source, in unix milliseconds. *)
Class Clock (C : Type) : Type := clock_read : C -> N * C.

(** [SystemClock]: the operating system's successive readings relative to the
    epoch (negative before it), truncated as the implementation does. *)
Record SystemClock := { os_ms : nat -> Z; os_tick : nat }.

Definition system_now_unix_ms (os : Z) : N :=
  if (os <? 0)%Z then 0%N else (Z.to_N os mod (U64_MAX + 1))%N.

#[export] Instance SystemClock_Clock : Clock SystemClock := fun c =>
  (system_now_unix_ms (os_ms c (os_tick c)),
   {| os_ms := os_ms c; os_tick := S (os_tick c) |}).

(** A clock that stands still, the one of the unit tests. *)
#[export] Instance FixedClock_Clock : Clock N := fun t => (t, t).

(** ** Data *)

Record CapabilityId := { api_version : string; kind : string }.

#[export] Instance CapabilityId_eq_dec : EqDecision CapabilityId.
Proof. solve_decision. Defined.
#[export] Instance CapabilityId_countable : Countable CapabilityId.
Proof.
  apply (inj_countable' (fun c => (api_version c, kind c))
           (fun p => {| api_version := p.1; kind := p.2 |})).
  by intros [].
Defined.

(** [Display] of a coordinate. *)
Definition capability_display (c : CapabilityId) : string :=
  (api_version c +:+ "/" +:+ kind c)%string.

Record Scope := {
  session_id : option string;
  workspace : option string;
  domains : list string;
  resources : list string
}.

#[export] Instance Scope_eq_dec : EqDecision Scope.
Proof. solve_decision. Defined.

(** [impl Default for Scope] (derived). *)
Definition default_scope : Scope :=
  {| session_id := None; workspace := None; domains := []; resources := [] |}.

(** The three kinds of test [Scope::covers] makes on one dimension. *)
Definition pin_covers (pin requested : option string) : bool :=
  match pin with
  | None => true
  | Some v => bool_decide (requested = Some v)
  end.

Definition list_covers (allowed requested : list string) : bool :=
  match allowed with
  | [] => true
  | _ => forallb (fun r => bool_decide (r ∈ allowed)) requested
  end.

(** [Scope::covers] *)
Definition covers (self requested : Scope) : bool :=
  if negb (pin_covers (session_id self) (session_id requested)) then false
  else if negb (pin_covers (workspace self) (workspace requested)) then false
  else if negb (list_covers (domains self) (domains requested)) then false
  else if negb (list_covers (resources self) (resources requested)) then false
  else true.

Inductive LeaseRevocationReason :=
| Disconnect | Unload | Expiry | HumanTakeover | GenerationChange.

#[export] Instance LeaseRevocationReason_eq_dec : EqDecision LeaseRevocationReason.
Proof. solve_decision. Defined.

Record LeaseRevocation := { reason : LeaseRevocationReason; at_unix_ms : N }.

#[export] Instance LeaseRevocation_eq_dec : EqDecision LeaseRevocation.
Proof. solve_decision. Defined.

Record CapabilityGrant := {
  grant_capability : CapabilityId;
  grant_version : string;
  grant_scope : Scope;
  grant_owner : string;
  grant_generation : N;
  grant_created_at : N
}.

#[export] Instance CapabilityGrant_eq_dec : EqDecision CapabilityGrant.
Proof. solve_decision. Defined.

Record Lease := {
  lease_id : string;
  lease_capability : CapabilityId;
  lease_owner : string;
  lease_generation : N;
  lease_scope : Scope;
  lease_expires_at : N;
  lease_revoked : option LeaseRevocation
}.

#[export] Instance Lease_eq_dec : EqDecision Lease.
Proof. solve_decision. Defined.

Definition is_revoked (l : Lease) : bool := bool_decide (is_Some (lease_revoked l)).
Definition is_expired (l : Lease) (now : N) : bool := (lease_expires_at l <=? now)%N.

(** [lease.revoked = Some(LeaseRevocation { reason, at_unix_ms })] *)
Definition set_revoked (r : LeaseRevocation) (l : Lease) : Lease :=
  {| lease_id := lease_id l; lease_capability := lease_capability l;
     lease_owner := lease_owner l; lease_generation := lease_generation l;
     lease_scope := lease_scope l; lease_expires_at := lease_expires_at l;
     lease_revoked := Some r |}.

(** The guarded assignment every revocation path makes: the first record
    wins. *)
Definition revoke_if (p : Lease -> bool) (r : LeaseRevocation) (l : Lease) : Lease :=
  if p l && negb (is_revoked l) then set_revoked r l else l.

Inductive BrokerError :=
| UnknownCapability | UnknownProvider | NotGranted | LeaseExpired
| LeaseRevoked | ScopeMismatch | GenerationMismatch | Conflict.

#[export] Instance BrokerError_eq_dec : EqDecision BrokerError.
Proof. solve_decision. Defined.

(** [BrokerError::protocol_code] *)
Definition protocol_code (e : BrokerError) : string :=
  match e with
  | UnknownCapability | UnknownProvider => "UNAVAILABLE"
  | NotGranted | LeaseExpired | LeaseRevoked | ScopeMismatch => "UNAUTHORIZED"
  | GenerationMismatch => "STALE_GENERATION"
  | Conflict => "CONFLICT"
  end.

(** [BrokerError::retryable] *)
Definition retryable (e : BrokerError) : bool :=
  match e with UnknownCapability | UnknownProvider => true | _ => false end.

(** [impl Display for BrokerError] *)
Definition broker_error_display (e : BrokerError) : string :=
  let message :=
    match e with
    | UnknownCapability => "capability is not granted"
    | UnknownProvider => "provider is not registered"
    | NotGranted => "not granted for this owner"
    | LeaseExpired => "lease expired"
    | LeaseRevoked => "lease revoked"
    | ScopeMismatch => "scope not covered"
    | GenerationMismatch => "stale generation"
    | Conflict => "state conflict"
    end in
  (message +:+ " (" +:+ protocol_code e +:+ ")")%string.

(** [AgentActivationState] of [broker/agent.rs], part of the broker's state. *)
Record AgentActivationState := { act_generation : N; act_revoked : bool }.

#[export] Instance AgentActivationState_eq_dec : EqDecision AgentActivationState.
Proof. solve_decision. Defined.

Section Model.
Context {Value C : Type} `{!Clock C}.

(** [Invocation] and [InvocationResult]; [Value] is [serde_json::Value]. *)
Record Invocation := {
  inv_capability : CapabilityId;
  inv_method : string;
  inv_owner : string;
  inv_generation : N;
  inv_scope : Scope;
  inv_payload : Value
}.

Record InvocationResult := { result_payload : Value }.

(** [Provider]: a handler for one capability. *)
Record Provider := {
  provider_id : string;
  provider_capability : CapabilityId;
  provider_handler : Invocation -> InvocationResult
}.

Record Broker := {
  grants : gmap CapabilityId CapabilityGrant;
  leases : gmap string Lease;
  providers : gmap string Provider;
  agent_activations : gmap string (gmap string AgentActivationState);
  current_activation : gmap string string;
  next_generation : gmap string N;
  clock : C
}.

Definition set_grants (x : gmap CapabilityId CapabilityGrant) (b : Broker) : Broker :=
  {| grants := x; leases := leases b; providers := providers b;
     agent_activations := agent_activations b;
     current_activation := current_activation b;
     next_generation := next_generation b; clock := clock b |}.
Definition set_leases (x : gmap string Lease) (b : Broker) : Broker :=
  {| grants := grants b; leases := x; providers := providers b;
     agent_activations := agent_activations b;
     current_activation := current_activation b;
     next_generation := next_generation b; clock := clock b |}.
Definition set_providers (x : gmap string Provider) (b : Broker) : Broker :=
  {| grants := grants b; leases := leases b; providers := x;
     agent_activations := agent_activations b;
     current_activation := current_activation b;
     next_generation := next_generation b; clock := clock b |}.
Definition set_clock (x : C) (b : Broker) : Broker :=
  {| grants := grants b; leases := leases b; providers := providers b;
     agent_activations := agent_activations b;
     current_activation := current_activation b;
     next_generation := next_generation b; clock := x |}.

(** [Broker::with_clock] *)
Definition with_clock (c : C) : Broker :=
  {| grants := ∅; leases := ∅; providers := ∅; agent_activations := ∅;
     current_activation := ∅; next_generation := ∅; clock := c |}.

(** ** Operations *)

(** [Broker::now_unix_ms] *)
Definition now_unix_ms {E : Type} : M Broker E N := fun b =>
  let '(t, c') := clock_read (clock b) in (Ok t, set_clock c' b).

(** [Broker::register_provider] *)
Definition register_provider (p : Provider) : M Broker BrokerError unit :=
  known ← gets (fun b => providers b !! provider_id p);
  match known with
  | Some _ => throw Conflict
  | None => modify (fun b => set_providers (<[provider_id p := p]> (providers b)) b)
  end.

(** [Broker::revoke_all_for_capability] *)
Definition revoke_all_for_capability {E : Type} (cap : CapabilityId)
    (r : LeaseRevocationReason) : M Broker E unit :=
  now ← now_unix_ms;
  modify (fun b =>
    set_leases
      (revoke_if (fun l => bool_decide (lease_capability l = cap))
         {| reason := r; at_unix_ms := now |} <$> leases b) b).

Definition insert_grant {E : Type} (g : CapabilityGrant) : M Broker E unit :=
  modify (fun b => set_grants (<[grant_capability g := g]> (grants b)) b).

(** [Broker::grant] *)
Definition grant (g : CapabilityGrant) : M Broker BrokerError unit :=
  existing ← gets (fun b => grants b !! grant_capability g);
  match existing with
  | Some e =>
      if bool_decide (e = g) then mret tt
      else if negb (grant_generation e =? grant_generation g)%N then
        revoke_all_for_capability (grant_capability g) GenerationChange;;
        insert_grant g
      else throw Conflict
  | None => insert_grant g
  end.

(** [Broker::lease] *)
Definition lease (l : Lease) : M Broker BrokerError unit :=
  found ← gets (fun b => grants b !! lease_capability l);
  g ← lift (ok_or UnknownCapability found);
  throw_if (negb (bool_decide (grant_owner g = lease_owner l))) NotGranted;;
  throw_if (negb (grant_generation g =? lease_generation l)%N) GenerationMismatch;;
  throw_if (negb (covers (grant_scope g) (lease_scope l))) ScopeMismatch;;
  now ← now_unix_ms;
  throw_if (lease_expires_at l <=? now)%N LeaseExpired;;
  existing ← gets (fun b => leases b !! lease_id l);
  match existing with
  | Some e => if bool_decide (e = l) then mret tt else throw Conflict
  | None => modify (fun b => set_leases (<[lease_id l := l]> (leases b)) b)
  end.

(** [Broker::revoke] *)
Definition revoke (id : string) (r : LeaseRevocationReason) : M Broker BrokerError unit :=
  now ← now_unix_ms;
  modify (fun b =>
    set_leases
      (alter (revoke_if (fun _ => true) {| reason := r; at_unix_ms := now |}) id
         (leases b)) b).

(** The four flags of the loop in [Broker::enforce_valid_lease]. *)
Record LeaseScan := {
  scan_matched : bool; scan_covering : bool; scan_revoked : bool; scan_expired : bool
}.
Definition scan_start : LeaseScan :=
  {| scan_matched := false; scan_covering := false;
     scan_revoked := false; scan_expired := false |}.

(** The loop over [self.leases.values()]: [inl] is the early [return Ok(())]. *)
Fixpoint scan_leases (cap : CapabilityId) (owner : string) (gen : N) (sc : Scope)
    (now : N) (ls : list Lease) (s : LeaseScan) : unit + LeaseScan :=
  match ls with
  | [] => inr s
  | l :: rest =>
      if negb (bool_decide (lease_capability l = cap))
         || negb (bool_decide (lease_owner l = owner))
         || negb (lease_generation l =? gen)%N
      then scan_leases cap owner gen sc now rest s
      else
        let s := {| scan_matched := true; scan_covering := scan_covering s;
                    scan_revoked := scan_revoked s; scan_expired := scan_expired s |} in
        if negb (covers (lease_scope l) sc) then scan_leases cap owner gen sc now rest s
        else
          let s := {| scan_matched := scan_matched s; scan_covering := true;
                      scan_revoked := scan_revoked s; scan_expired := scan_expired s |} in
          if is_revoked l then
            scan_leases cap owner gen sc now rest
              {| scan_matched := scan_matched s; scan_covering := scan_covering s;
                 scan_revoked := true; scan_expired := scan_expired s |}
          else if is_expired l now then
            scan_leases cap owner gen sc now rest
              {| scan_matched := scan_matched s; scan_covering := scan_covering s;
                 scan_revoked := scan_revoked s; scan_expired := true |}
          else inl tt
  end.

(** [Broker::enforce_valid_lease] on the leases in the order the hash map
    yields them. *)
Definition valid_lease_verdict (cap : CapabilityId) (owner : string) (gen : N)
    (sc : Scope) (now : N) (ls : list Lease) : result BrokerError unit :=
  match scan_leases cap owner gen sc now ls scan_start with
  | inl _ => Ok tt
  | inr s =>
      if scan_revoked s then Err LeaseRevoked
      else if scan_expired s then Err LeaseExpired
      else if scan_covering s then Err ScopeMismatch
      else if scan_matched s then Err ScopeMismatch
      else Err NotGranted
  end.

(** [self.leases.values()], in the map's own order. *)
Definition lease_values (b : Broker) : list Lease := (map_to_list (leases b)).*2.

Definition enforce_valid_lease (cap : CapabilityId) (owner : string) (gen : N)
    (sc : Scope) : M Broker BrokerError unit :=
  now ← now_unix_ms;
  ls ← gets lease_values;
  lift (valid_lease_verdict cap owner gen sc now ls).

(** [Broker::enforce_dispatch] *)
Definition enforce_dispatch (cap : CapabilityId) (owner : string) (gen : N)
    (sc : Scope) : M Broker BrokerError unit :=
  found ← gets (fun b => grants b !! cap);
  g ← lift (ok_or UnknownCapability found);
  throw_if (negb (bool_decide (grant_owner g = owner))) NotGranted;;
  throw_if (negb (grant_generation g =? gen)%N) GenerationMismatch;;
  throw_if (negb (covers (grant_scope g) sc)) ScopeMismatch;;
  enforce_valid_lease cap owner gen sc.

(** [Broker::dispatch] *)
Definition dispatch (pid : string) (inv : Invocation) :
    M Broker BrokerError InvocationResult :=
  found ← gets (fun b => providers b !! pid);
  p ← lift (ok_or UnknownProvider found);
  throw_if (negb (bool_decide (provider_capability p = inv_capability inv)))
    UnknownCapability;;
  enforce_dispatch (inv_capability inv) (inv_owner inv) (inv_generation inv)
    (inv_scope inv);;
  mret (provider_handler p inv).

(** ** Observability *)

Definition grant_for (b : Broker) (cap : CapabilityId) : option CapabilityGrant :=
  grants b !! cap.
Definition get_lease (b : Broker) (id : string) : option Lease := leases b !! id.
Definition leases_for (b : Broker) (cap : CapabilityId) : list Lease :=
  filter (fun l => lease_capability l = cap) (lease_values b).
Definition provider (b : Broker) (pid : string) : option Provider := providers b !! pid.
Definition grant_count (b : Broker) : nat := size (grants b).
Definition lease_count (b : Broker) : nat := size (leases b).
Definition provider_count (b : Broker) : nat := size (providers b).

End Model.

Arguments Invocation : clear implicits.
Arguments InvocationResult : clear implicits.
Arguments Provider : clear implicits.
Arguments Broker : clear implicits.
