(* ===== verification/BrokerFacts.v ===== *)
(** * The dispatch gate: specification and refinement

    The abstract contract of [broker.rs] (ADR-0014): a verdict is described by
    quantifying over the stored leases, not by a scan.  The theorems show that
    the scan computes that verdict, for every iteration order of the hash map,
    and give the functional behaviour of [grant], [lease] and [revoke]. *)
From S2P Require Import Prelude Broker.
From stdpp Require Import base gmap strings list fin_maps option countable.
From Stdlib Require Import NArith ZArith Lia.

Section Spec.
Context {Value C : Type} `{!Clock C}.
Implicit Types (b : Broker Value C) (l : Lease).

(** ** The abstract gate *)

(** The lease names this capability, owner and generation. *)
Definition addresses (cap : CapabilityId) (owner : string) (gen : N) (l : Lease) : Prop :=
  lease_capability l = cap /\ lease_owner l = owner /\ lease_generation l = gen.

Definition applies (cap : CapabilityId) (owner : string) (gen : N) (sc : Scope)
    (l : Lease) : Prop :=
  addresses cap owner gen l /\ covers (lease_scope l) sc = true.

(** A lease that authorizes the request at time [now]. *)
Definition usable (cap : CapabilityId) (owner : string) (gen : N) (sc : Scope)
    (now : N) (l : Lease) : Prop :=
  applies cap owner gen sc l /\ lease_revoked l = None /\ (now < lease_expires_at l)%N.

(** The verdict on the leases of a collection. *)
Inductive lease_verdict (has : Lease -> Prop) (cap : CapabilityId) (owner : string)
    (gen : N) (sc : Scope) (now : N) : result BrokerError unit -> Prop :=
| verdict_usable l : has l -> usable cap owner gen sc now l ->
    lease_verdict has cap owner gen sc now (Ok tt)
| verdict_revoked l :
    (forall l', has l' -> ~ usable cap owner gen sc now l') ->
    has l -> applies cap owner gen sc l -> is_Some (lease_revoked l) ->
    lease_verdict has cap owner gen sc now (Err LeaseRevoked)
| verdict_expired l :
    (forall l', has l' -> applies cap owner gen sc l' ->
       lease_revoked l' = None /\ (lease_expires_at l' <= now)%N) ->
    has l -> applies cap owner gen sc l ->
    lease_verdict has cap owner gen sc now (Err LeaseExpired)
| verdict_scope l :
    (forall l', has l' -> ~ applies cap owner gen sc l') ->
    has l -> addresses cap owner gen l ->
    lease_verdict has cap owner gen sc now (Err ScopeMismatch)
| verdict_none :
    (forall l', has l' -> ~ addresses cap owner gen l') ->
    lease_verdict has cap owner gen sc now (Err NotGranted).

(** The gate of ADR-0014: grant, owner, generation, grant scope, lease. *)
Inductive gate_verdict (b : Broker Value C) (now : N) (cap : CapabilityId)
    (owner : string) (gen : N) (sc : Scope) : result BrokerError unit -> Prop :=
| gate_unknown : grants b !! cap = None ->
    gate_verdict b now cap owner gen sc (Err UnknownCapability)
| gate_owner g : grants b !! cap = Some g -> grant_owner g <> owner ->
    gate_verdict b now cap owner gen sc (Err NotGranted)
| gate_generation g : grants b !! cap = Some g -> grant_owner g = owner ->
    grant_generation g <> gen ->
    gate_verdict b now cap owner gen sc (Err GenerationMismatch)
| gate_scope g : grants b !! cap = Some g -> grant_owner g = owner ->
    grant_generation g = gen -> covers (grant_scope g) sc = false ->
    gate_verdict b now cap owner gen sc (Err ScopeMismatch)
| gate_lease g v : grants b !! cap = Some g -> grant_owner g = owner ->
    grant_generation g = gen -> covers (grant_scope g) sc = true ->
    lease_verdict (fun l => exists id, leases b !! id = Some l) cap owner gen sc now v ->
    gate_verdict b now cap owner gen sc v.

(** Two brokers that differ at most in what their clock will read. *)
Definition same_but_clock (b b' : Broker Value C) : Prop := exists c, b' = set_clock c b.

End Spec.

#[export] Hint Unfold addresses applies usable : dsh.

(** ** Scope coverage *)

Lemma forallb_elem {A} (p : A -> bool) (l : list A) :
  forallb p l = true <-> forall x, x ∈ l -> p x = true.
Proof. rewrite forallb_forall. by setoid_rewrite <- list_elem_of_In. Qed.

Lemma list_covers_spec allowed requested :
  list_covers allowed requested = true <->
  allowed = [] \/ forall r, r ∈ requested -> r ∈ allowed.
Proof.
  destruct allowed as [|a al]; cbn [list_covers]; [tauto |]. rewrite forallb_elem.
  setoid_rewrite bool_decide_eq_true. naive_solver.
Qed.

Lemma pin_covers_spec pin requested :
  pin_covers pin requested = true <-> pin = None \/ requested = pin.
Proof. destruct pin; cbn; rewrite ?bool_decide_eq_true; naive_solver. Qed.

Lemma covers_spec self requested :
  covers self requested = true <->
  (session_id self = None \/ session_id requested = session_id self) /\
  (workspace self = None \/ workspace requested = workspace self) /\
  (domains self = [] \/ forall d, d ∈ domains requested -> d ∈ domains self) /\
  (resources self = [] \/ forall d, d ∈ resources requested -> d ∈ resources self).
Proof.
  unfold covers. rewrite <- !pin_covers_spec, <- !list_covers_spec.
  destruct (pin_covers _ _), (pin_covers _ _), (list_covers _ _), (list_covers _ _); naive_solver.
Qed.

Lemma covers_refl sc : covers sc sc = true.
Proof. rewrite covers_spec. naive_solver. Qed.

#[export] Hint Resolve covers_refl : dsh.

(** ** The scan *)

Definition b_addresses (cap : CapabilityId) (owner : string) (gen : N) (l : Lease) : bool :=
  bool_decide (lease_capability l = cap) && bool_decide (lease_owner l = owner)
  && (lease_generation l =? gen)%N.
Definition b_applies cap owner gen (sc : Scope) (l : Lease) : bool :=
  b_addresses cap owner gen l && covers (lease_scope l) sc.
Definition b_usable cap owner gen sc now (l : Lease) : bool :=
  b_applies cap owner gen sc l && negb (is_revoked l) && negb (is_expired l now).

Lemma b_addresses_spec cap owner gen l :
  b_addresses cap owner gen l = true <-> addresses cap owner gen l.
Proof.
  unfold b_addresses, addresses.
  rewrite !andb_true_iff, !bool_decide_eq_true, N.eqb_eq. tauto.
Qed.

Lemma b_applies_spec cap owner gen sc l :
  b_applies cap owner gen sc l = true <-> applies cap owner gen sc l.
Proof. unfold b_applies, applies. by rewrite andb_true_iff, b_addresses_spec. Qed.

Lemma is_revoked_false l : is_revoked l = false <-> lease_revoked l = None.
Proof.
  unfold is_revoked. by rewrite bool_decide_eq_false, eq_None_not_Some.
Qed.

Lemma is_revoked_true l : is_revoked l = true <-> is_Some (lease_revoked l).
Proof. unfold is_revoked. apply bool_decide_eq_true. Qed.

Lemma b_usable_spec cap owner gen sc now l :
  b_usable cap owner gen sc now l = true <-> usable cap owner gen sc now l.
Proof.
  unfold b_usable, usable, is_expired.
  rewrite !andb_true_iff, b_applies_spec, !negb_true_iff, is_revoked_false, N.leb_gt.
  tauto.
Qed.

(** The loop computes four existence tests. *)
Lemma scan_leases_exists cap owner gen sc now ls s :
  scan_leases cap owner gen sc now ls s =
  if existsb (b_usable cap owner gen sc now) ls then inl tt
  else inr
    {| scan_matched := scan_matched s || existsb (b_addresses cap owner gen) ls;
       scan_covering := scan_covering s || existsb (b_applies cap owner gen sc) ls;
       scan_revoked := scan_revoked s ||
         existsb (fun l => b_applies cap owner gen sc l && is_revoked l) ls;
       scan_expired := scan_expired s ||
         existsb (fun l => b_applies cap owner gen sc l && negb (is_revoked l)
                           && is_expired l now) ls |}.
Proof.
  revert s. induction ls as [|l ls IH]; intros s; cbn [scan_leases existsb].
  { destruct s; cbn. by rewrite !orb_false_r. }
  change (b_usable cap owner gen sc now l) with
    (b_applies cap owner gen sc l && negb (is_revoked l) && negb (is_expired l now)).
  change (b_applies cap owner gen sc l) with
    (b_addresses cap owner gen l && covers (lease_scope l) sc).
  change (b_addresses cap owner gen l) with
    (bool_decide (lease_capability l = cap) && bool_decide (lease_owner l = owner)
     && (lease_generation l =? gen)%N).
  destruct (bool_decide (lease_capability l = cap)), (bool_decide (lease_owner l = owner)),
    (lease_generation l =? gen)%N, (covers (lease_scope l) sc), (is_revoked l),
    (is_expired l now);
    cbn [negb orb andb]; try reflexivity; rewrite IH;
    destruct (existsb (b_usable cap owner gen sc now) ls);
    cbn; rewrite ?orb_true_r, ?orb_false_r; reflexivity.
Qed.

(** The whole verdict as a cascade of existence tests. *)
Lemma valid_lease_verdict_exists cap owner gen sc now ls :
  valid_lease_verdict cap owner gen sc now ls =
  if existsb (b_usable cap owner gen sc now) ls then Ok tt
  else if existsb (fun l => b_applies cap owner gen sc l && is_revoked l) ls
  then Err LeaseRevoked
  else if existsb (fun l => b_applies cap owner gen sc l && negb (is_revoked l)
                            && is_expired l now) ls
  then Err LeaseExpired
  else if existsb (b_applies cap owner gen sc) ls then Err ScopeMismatch
  else if existsb (b_addresses cap owner gen) ls then Err ScopeMismatch
  else Err NotGranted.
Proof.
  unfold valid_lease_verdict. rewrite scan_leases_exists.
  by destruct (existsb (b_usable cap owner gen sc now) ls).
Qed.

(** The verdict on the leases does not depend on their order. *)
#[export] Instance valid_lease_verdict_perm cap owner gen sc now :
  Proper ((≡ₚ) ==> (=)) (valid_lease_verdict cap owner gen sc now).
Proof.
  intros l1 l2 HP. rewrite !valid_lease_verdict_exists.
  by rewrite !(existsb_perm_proper _ l1 l2 HP).
Qed.

(** Without a usable lease and without a revoked one, what applies is live
    and expired. *)
Lemma applies_expired cap owner gen sc now l :
  b_usable cap owner gen sc now l = false ->
  b_applies cap owner gen sc l && is_revoked l = false ->
  applies cap owner gen sc l ->
  lease_revoked l = None /\ (lease_expires_at l <= now)%N.
Proof.
  unfold b_usable, is_expired. intros Hu Hr Ha%b_applies_spec. rewrite Ha in *. cbn in *.
  rewrite Hr in Hu. cbn in Hu. apply is_revoked_false in Hr.
  rewrite negb_false_iff, N.leb_le in Hu. done.
Qed.

(** The scan's verdict is the abstract one. *)
Lemma valid_lease_verdict_sound cap owner gen sc now ls :
  lease_verdict (fun l => l ∈ ls) cap owner gen sc now
    (valid_lease_verdict cap owner gen sc now ls).
Proof.
  rewrite valid_lease_verdict_exists.
  destruct (existsb (b_usable _ _ _ _ _) ls) eqn:Eu.
  { apply existsb_elem in Eu as (l & Hl & Hu%b_usable_spec). by econstructor. }
  rewrite existsb_not_elem in Eu.
  destruct (existsb (fun l => _ && is_revoked l) ls) eqn:Er.
  { apply existsb_elem in Er as (l & Hl & [Ha%b_applies_spec Hr%is_revoked_true]%andb_true_iff).
    eapply verdict_revoked; [| done..].
    intros l' Hl' Hu%b_usable_spec. rewrite (Eu l' Hl') in Hu. done. }
  rewrite existsb_not_elem in Er.
  assert (Hx := fun l' (Hl' : l' ∈ ls) => applies_expired _ _ _ _ _ _ (Eu l' Hl') (Er l' Hl')).
  destruct (existsb (fun l => _ && is_expired l now) ls) eqn:Ee.
  { apply existsb_elem in Ee as (l & Hl & [[Ha%b_applies_spec _]%andb_true_iff _]%andb_true_iff).
    by eapply verdict_expired. }
  rewrite existsb_not_elem in Ee.
  assert (Hna : forall l', l' ∈ ls -> b_applies cap owner gen sc l' = false).
  { intros l' Hl'. apply not_true_is_false. intros Ha.
    destruct (Hx l' Hl' (proj1 (b_applies_spec _ _ _ _ _) Ha)) as [Hr%is_revoked_false He%N.leb_le].
    specialize (Ee l' Hl'). unfold is_expired in Ee. by rewrite Ha, Hr, He in Ee. }
  rewrite (proj2 (existsb_not_elem _ _) Hna).
  destruct (existsb (b_addresses cap owner gen) ls) eqn:Em.
  - apply existsb_elem in Em as (l & Hl & Ha%b_addresses_spec).
    eapply verdict_scope; [| done..].
    intros l' Hl' Ha'%b_applies_spec. by rewrite (Hna l' Hl') in Ha'.
  - rewrite existsb_not_elem in Em. apply verdict_none.
    intros l' Hl' Ha%b_addresses_spec. by rewrite (Em l' Hl') in Ha.
Qed.

Lemma usable_applies cap owner gen sc now l :
  usable cap owner gen sc now l -> applies cap owner gen sc l.
Proof. by intros []. Qed.

Lemma applies_addresses cap owner gen sc l :
  applies cap owner gen sc l -> addresses cap owner gen l.
Proof. by intros []. Qed.

#[export] Hint Resolve usable_applies applies_addresses : dsh.

(** At most one verdict holds. *)
Lemma lease_verdict_functional has cap owner gen sc now v v' :
  lease_verdict has cap owner gen sc now v ->
  lease_verdict has cap owner gen sc now v' -> v = v'.
Proof.
  destruct 1 as [l Hl Hu | l Hn Hl Ha Hr | l Hx Hl Ha | l Hn Hl Ha | Hn];
    destruct 1 as [l' Hl' Hu' | l' Hn' Hl' Ha' Hr' | l' Hx' Hl' Ha' | l' Hn' Hl' Ha' | Hn'];
    try done; exfalso;
    try solve [eapply Hn; [| solve [eauto with dsh]]; done
              | eapply Hn'; [| solve [eauto with dsh]]; done].
  - destruct (Hx' l Hl (usable_applies _ _ _ _ _ _ Hu)). destruct Hu as (_ & _ & ?). lia.
  - destruct (Hx' l Hl Ha) as [Hn0 _]. rewrite Hn0 in Hr. by destruct Hr.
  - destruct (Hx l' Hl' (usable_applies _ _ _ _ _ _ Hu')). destruct Hu' as (_ & _ & ?). lia.
  - destruct (Hx l' Hl' Ha') as [Hn0 _]. rewrite Hn0 in Hr'. by destruct Hr'.
Qed.

(** The verdict only depends on which leases there are. *)
Lemma lease_verdict_ext (has has' : Lease -> Prop) cap owner gen sc now v :
  (forall l, has l <-> has' l) ->
  lease_verdict has cap owner gen sc now v -> lease_verdict has' cap owner gen sc now v.
Proof.
  intros He. destruct 1; econstructor; try done; try (by apply He); intros ? ?%He; eauto.
Qed.

Section Gate.
Context {Value C : Type} `{!Clock C}.
Implicit Types (b : Broker Value C) (l : Lease).

Lemma elem_of_lease_values b l : l ∈ lease_values b <-> exists id, leases b !! id = Some l.
Proof.
  unfold lease_values. rewrite list_elem_of_fmap. split.
  - intros ([id l'] & -> & H%elem_of_map_to_list). by exists id.
  - intros [id H%elem_of_map_to_list]. by exists (id, l).
Qed.

(** What [enforce_dispatch] returns, in one equation. *)
Lemma enforce_dispatch_value b cap owner gen sc :
  (enforce_dispatch cap owner gen sc b).1 =
  match grants b !! cap with
  | None => Err UnknownCapability
  | Some g =>
      if negb (bool_decide (grant_owner g = owner)) then Err NotGranted
      else if negb (grant_generation g =? gen)%N then Err GenerationMismatch
      else if negb (covers (grant_scope g) sc) then Err ScopeMismatch
      else valid_lease_verdict cap owner gen sc (clock_read (clock b)).1 (lease_values b)
  end.
Proof.
  unfold enforce_dispatch, enforce_valid_lease, now_unix_ms.
  cbv [mret mbind M_ret M_bind throw gets modify lift throw_if ok_or].
  destruct (grants b !! cap) as [g|]; [| done].
  destruct (negb _); [done |]. destruct (negb _); [done |]. destruct (negb _); [done |].
  by destruct (clock_read (clock b)).
Qed.

Lemma gate_verdict_of_dispatch b cap owner gen sc :
  gate_verdict b (clock_read (clock b)).1 cap owner gen sc
    (enforce_dispatch cap owner gen sc b).1.
Proof.
  rewrite enforce_dispatch_value. destruct (grants b !! cap) as [g|] eqn:Hg.
  2: by apply gate_unknown.
  case_bool_decide as Ho; cbn [negb]; [| by eapply gate_owner].
  destruct (N.eqb_spec (grant_generation g) gen); cbn [negb]; [| by eapply gate_generation].
  destruct (covers (grant_scope g) sc) eqn:Hc; cbn [negb]; [| by eapply gate_scope].
  eapply gate_lease; [done..|].
  eapply lease_verdict_ext; [apply elem_of_lease_values | apply valid_lease_verdict_sound].
Qed.

Lemma gate_verdict_functional b now cap owner gen sc v v' :
  gate_verdict b now cap owner gen sc v -> gate_verdict b now cap owner gen sc v' -> v = v'.
Proof.
  destruct 1; destruct 1; simplify_eq; try congruence.
  by eapply lease_verdict_functional.
Qed.

Lemma gate_open_iff b cap owner gen sc :
  gate_verdict b (clock_read (clock b)).1 cap owner gen sc (Ok tt) <->
  (enforce_dispatch cap owner gen sc b).1 = Ok tt.
Proof.
  pose proof (gate_verdict_of_dispatch b cap owner gen sc) as H.
  split; [intros; by eapply gate_verdict_functional | by intros <-].
Qed.

(** An open verdict, spelled out. *)
Lemma gate_open_inv b now cap owner gen sc :
  gate_verdict b now cap owner gen sc (Ok tt) ->
  exists g id l, grants b !! cap = Some g /\ grant_owner g = owner /\
    grant_generation g = gen /\ covers (grant_scope g) sc = true /\
    leases b !! id = Some l /\ usable cap owner gen sc now l.
Proof.
  remember (Ok tt) as v eqn:E. destruct 1 as [| | | |g v Hg Ho Hgen Hc Hv]; try done.
  subst. inversion Hv. naive_solver.
Qed.

Lemma same_but_clock_refl b : same_but_clock b b.
Proof. exists (clock b). by destruct b. Qed.

#[export] Instance same_but_clock_preorder : PreOrder (@same_but_clock Value C).
Proof.
  split; [exact same_but_clock_refl |].
  intros b1 b2 b3 [c ->] [c' ->]. by exists c'.
Qed.

Lemma now_frame {E} : steps_in same_but_clock (now_unix_ms : M (Broker Value C) E N).
Proof. intros b. unfold now_unix_ms. destruct (clock_read _) as [t c]. by exists c. Qed.

Lemma enforce_dispatch_frame b cap owner gen sc :
  same_but_clock b (enforce_dispatch cap owner gen sc b).2.
Proof.
  revert b. change (steps_in same_but_clock (@enforce_dispatch Value C _ cap owner gen sc)).
  unfold enforce_dispatch, enforce_valid_lease. auto 20 using now_frame with dsh typeclass_instances.
Qed.

(** C1.  The dispatch gate implements its specification on every branch: the
    outcome of [Broker::enforce_dispatch] is exactly the verdict that
    ADR-0014 describes in terms of the stored grant and of which leases exist
    (granted, owner, generation, grant scope, then a covering lease that is
    neither revoked nor expired), including which error is reported. *)
Theorem enforce_dispatch_refines_gate b cap owner gen sc v :
  (enforce_dispatch cap owner gen sc b).1 = v <->
  gate_verdict b (clock_read (clock b)).1 cap owner gen sc v.
Proof.
  split.
  - intros <-. apply gate_verdict_of_dispatch.
  - intros Hv. eapply gate_verdict_functional; [apply gate_verdict_of_dispatch | done].
Qed.

(** A provider's handler runs exactly when the provider is registered for
    the invoked capability and the gate's verdict is open; the outcome is then
    the handler's own answer.  Whatever the outcome, dispatching changes nothing
    but the clock. *)
Theorem dispatch_runs_handler_iff_authorized b pid inv r :
  ((dispatch pid inv b).1 = Ok r <->
   exists p, providers b !! pid = Some p /\
     provider_capability p = inv_capability inv /\
     gate_verdict b (clock_read (clock b)).1 (inv_capability inv) (inv_owner inv)
       (inv_generation inv) (inv_scope inv) (Ok tt) /\
     r = provider_handler p inv) /\
  same_but_clock b (dispatch pid inv b).2.
Proof.
  setoid_rewrite gate_open_iff. unfold dispatch.
  cbv [mret mbind M_ret M_bind throw gets modify lift throw_if ok_or].
  destruct (providers b !! pid) as [p|]; [| split; [naive_solver | apply same_but_clock_refl]].
  case_bool_decide as Hcap; cbn [negb]; [| split; [naive_solver | apply same_but_clock_refl]].
  pose proof (enforce_dispatch_frame b (inv_capability inv) (inv_owner inv)
                (inv_generation inv) (inv_scope inv)) as Hf.
  destruct (enforce_dispatch _ _ _ _ b) as [[[]|e] b'] eqn:He; cbn in *;
    (split; [naive_solver | done]).
Qed.
End Gate.
