(* ===== verification/AgentBridge.v ===== *)
(** * The agent authorization bridge

    Model of [crates/supervisor/src/broker/agent.rs]: one negotiated activation
    of an agent becomes broker grants and leases, and an activation is revoked
    for good on takeover or disconnect.  The register maps are fields of
    [Broker]; a failure after the first mutation leaves its effect in place, as
    in the source. *)
From S2P Require Import Prelude Broker.
From stdpp Require Import base gmap strings list fin_maps option countable.
From Stdlib Require Import NArith ZArith Lia Ascii String.

Inductive AgentConformanceState := Known | Absent | Unknown.

#[export] Instance AgentConformanceState_eq_dec : EqDecision AgentConformanceState.
Proof. solve_decision. Defined.

Definition conformance_as_str (s : AgentConformanceState) : string :=
  match s with Known => "known" | Absent => "absent" | Unknown => "unknown" end.

Definition is_l2 (s : AgentConformanceState) : bool := bool_decide (s = Known).

Record AgentLeaseConstraints := { max_seconds : N; approval_required : option bool }.

Record AgentNegotiationResult := {
  neg_activation_id : string;
  neg_agreed : bool;
  neg_granted : list CapabilityId;
  neg_conformance : AgentConformanceState;
  neg_lease_constraints : option AgentLeaseConstraints;
  neg_scope : Scope
}.

Record AgentGrant := {
  ag_agent_id : string;
  ag_activation_id : string;
  ag_generation : N;
  ag_capabilities : list CapabilityId;
  ag_scope : Scope;
  ag_lease_constraints : option AgentLeaseConstraints;
  ag_expires_at : N;
  ag_granted_at : N
}.

Inductive AgentBridgeError :=
| NotNegotiated | NothingGranted | NoLeasePolicy | ConformanceNotKnown
| ActivationRevoked | StaleActivation | BridgeBroker (e : BrokerError).

#[export] Instance AgentBridgeError_eq_dec : EqDecision AgentBridgeError.
Proof. solve_decision. Defined.

(** [AgentBridgeError::protocol_code] *)
Definition bridge_protocol_code (e : AgentBridgeError) : string :=
  match e with
  | BridgeBroker error => protocol_code error
  | StaleActivation => "STALE_GENERATION"
  | ConformanceNotKnown => "UNAVAILABLE"
  | NotNegotiated | NothingGranted | NoLeasePolicy | ActivationRevoked => "UNAUTHORIZED"
  end.

(** [AgentBridgeError::retryable] *)
Definition bridge_retryable (e : AgentBridgeError) : bool :=
  match e with
  | BridgeBroker error => retryable error
  | ConformanceNotKnown => true
  | _ => false
  end.

(** [impl Display for AgentBridgeError] *)
Definition bridge_error_display (e : AgentBridgeError) : string :=
  let tail m := (m +:+ " (" +:+ bridge_protocol_code e +:+ ")")%string in
  match e with
  | NotNegotiated => tail "negotiation did not reach agreement"
  | NothingGranted => tail "agreement granted no capabilities"
  | NoLeasePolicy => tail "lease constraints missing max seconds"
  | ConformanceNotKnown => tail "dsh-std conformance is not known"
  | ActivationRevoked => tail "activation revoked by human takeover"
  | StaleActivation => tail "activation is not current"
  | BridgeBroker error =>
      (broker_error_display error +:+ " (" +:+ protocol_code error +:+ ")")%string
  end.

Fixpoint str_has (c : ascii) (s : string) : bool :=
  match s with
  | EmptyString => false
  | String a s' => bool_decide (a = c) || str_has c s'
  end.

(** [s.rsplit(c).next()]: what follows the last [c], all of [s] without one. *)
Fixpoint rsplit_next (c : ascii) (s : string) : string :=
  match s with
  | EmptyString => EmptyString
  | String a s' =>
      if str_has c s' then rsplit_next c s'
      else if bool_decide (a = c) then s' else s
  end.

(** [contract_version] *)
Definition contract_version (api : string) : string := rsplit_next "/"%char api.

(** [agent_lease_id] *)
Definition agent_lease_id (agent activation : string) (cap : CapabilityId) : string :=
  ("agent-" +:+ agent +:+ "-" +:+ activation +:+ "-" +:+ api_version cap +:+ "-"
   +:+ kind cap)%string.

Section Model.
Context {Value C : Type} `{!Clock C}.
Abbreviation Broker := (Broker Value C).

Definition set_agent_activations (x : gmap string (gmap string AgentActivationState))
    (b : Broker) : Broker :=
  {| grants := grants b; leases := leases b; providers := providers b;
     agent_activations := x; current_activation := current_activation b;
     next_generation := next_generation b; clock := clock b |}.
Definition set_current_activation (x : gmap string string) (b : Broker) : Broker :=
  {| grants := grants b; leases := leases b; providers := providers b;
     agent_activations := agent_activations b; current_activation := x;
     next_generation := next_generation b; clock := clock b |}.
Definition set_next_generation (x : gmap string N) (b : Broker) : Broker :=
  {| grants := grants b; leases := leases b; providers := providers b;
     agent_activations := agent_activations b;
     current_activation := current_activation b; next_generation := x;
     clock := clock b |}.

(** [self.agent_activations.entry(agent).or_default()] *)
Definition activations_of (b : Broker) (agent : string) : gmap string AgentActivationState :=
  default ∅ (agent_activations b !! agent).

(** The [None] arm: a fresh activation at the agent's next generation. *)
Definition register_activation (agent aid : string) (b : Broker) : N * Broker :=
  let counter := u64_add (default 0%N (next_generation b !! agent)) 1 in
  let b := set_next_generation (<[agent := counter]> (next_generation b)) b in
  let state := {| act_generation := counter; act_revoked := false |} in
  let b := set_agent_activations
             (<[agent := <[aid := state]> (activations_of b agent)]> (agent_activations b)) b in
  (counter, set_current_activation (<[agent := aid]> (current_activation b)) b).

(** The generation of this activation: [match states.get(&activation_id)]. *)
Definition resolve_generation (agent aid : string) : M Broker AgentBridgeError N := fun b =>
  let states := activations_of b agent in
  let b := set_agent_activations (<[agent := states]> (agent_activations b)) b in
  match states !! aid with
  | Some state =>
      if act_revoked state then (Err ActivationRevoked, b)
      else if bool_decide (current_activation b !! agent = Some aid)
      then (Ok (act_generation state), b)
      else (Err StaleActivation, b)
  | None => let '(g, b') := register_activation agent aid b in (Ok g, b')
  end.

Definition agent_capability_grant (agent : string) (gen now : N) (sc : Scope)
    (cap : CapabilityId) : CapabilityGrant :=
  {| grant_capability := cap; grant_version := contract_version (api_version cap);
     grant_scope := sc; grant_owner := agent; grant_generation := gen;
     grant_created_at := now |}.

Definition agent_lease (agent aid : string) (gen expires : N) (sc : Scope)
    (cap : CapabilityId) : Lease :=
  {| lease_id := agent_lease_id agent aid cap; lease_capability := cap;
     lease_owner := agent; lease_generation := gen; lease_scope := sc;
     lease_expires_at := expires; lease_revoked := None |}.

Definition agent_expiry (now : N) (c : AgentLeaseConstraints) : N :=
  u64_saturating_add now (u64_saturating_mul (max_seconds c) 1000).

(** [Broker::broker_grant_from_negotiation] *)
Definition broker_grant_from_negotiation (agent : string) (r : AgentNegotiationResult) :
    M Broker AgentBridgeError AgentGrant :=
  throw_if (negb (neg_agreed r)) NotNegotiated;;
  throw_if (negb (bool_decide (neg_conformance r = Known))) ConformanceNotKnown;;
  throw_if (bool_decide (neg_granted r = [])) NothingGranted;;
  constraints ← lift (ok_or NoLeasePolicy (neg_lease_constraints r));
  throw_if (max_seconds constraints =? 0)%N NoLeasePolicy;;
  now ← now_unix_ms;
  generation ← resolve_generation agent (neg_activation_id r);
  for_each (fun cap =>
    map_err_m BridgeBroker
      (grant (agent_capability_grant agent generation now (neg_scope r) cap)))
    (neg_granted r);;
  let expires_at := agent_expiry now constraints in
  for_each (fun cap =>
    map_err_m BridgeBroker
      (lease (agent_lease agent (neg_activation_id r) generation expires_at
                (neg_scope r) cap)))
    (neg_granted r);;
  mret {| ag_agent_id := agent; ag_activation_id := neg_activation_id r;
          ag_generation := generation; ag_capabilities := neg_granted r;
          ag_scope := neg_scope r; ag_lease_constraints := Some constraints;
          ag_expires_at := expires_at; ag_granted_at := now |}.

(** The leases one target of [revoke_agent_grants] still revokes. *)
Definition target_lease (agent : string) (gen : N) (l : Lease) : bool :=
  bool_decide (lease_owner l = agent) && (lease_generation l =? gen)%N.

Definition mark_revoked (s : AgentActivationState) : AgentActivationState :=
  {| act_generation := act_generation s; act_revoked := true |}.

(** One iteration of the loop over [targets]. *)
Definition revoke_target (aid : string) (rec : LeaseRevocation) (b : Broker)
    (target : string * N) : nat * Broker :=
  let '(agent, gen) := target in
  let revoked := size (filter (fun kv : string * Lease =>
                   target_lease agent gen kv.2 && negb (is_revoked kv.2) = true) (leases b)) in
  let b := set_leases (revoke_if (target_lease agent gen) rec <$> leases b) b in
  let b := set_agent_activations
             (alter (alter mark_revoked aid) agent (agent_activations b)) b in
  let b := if bool_decide (current_activation b !! agent = Some aid)
           then set_current_activation (delete agent (current_activation b)) b else b in
  (revoked, b).

(** [for (agent, generation) in &targets], adding up the leases revoked. *)
Fixpoint revoke_targets (aid : string) (rec : LeaseRevocation)
    (targets : list (string * N)) (b : Broker) : nat * Broker :=
  match targets with
  | [] => (0%nat, b)
  | t :: targets =>
      let '(n, b1) := revoke_target aid rec b t in
      let '(m, b2) := revoke_targets aid rec targets b1 in
      ((n + m)%nat, b2)
  end.

(** The agents that registered this activation, with its generation. *)
Definition activation_targets (b : Broker) (aid : string) : list (string * N) :=
  omap (fun kv : string * gmap string AgentActivationState =>
          s ← kv.2 !! aid; Some (kv.1, act_generation s))
    (map_to_list (agent_activations b)).

(** [Broker::revoke_agent_grants] *)
Definition revoke_agent_grants {E : Type} (aid : string) (r : LeaseRevocationReason) :
    M Broker E nat :=
  now ← now_unix_ms;
  targets ← gets (fun b => activation_targets b aid);
  update (revoke_targets aid {| reason := r; at_unix_ms := now |} targets).

(** Observability. *)
Definition agent_generation (b : Broker) (agent aid : string) : option N :=
  states ← agent_activations b !! agent; act_generation <$> states !! aid.
Definition agent_activation_revoked (b : Broker) (agent aid : string) : bool :=
  match agent_activations b !! agent ≫= (.!! aid) with
  | Some s => act_revoked s
  | None => false
  end.
Definition agent_activation_count (b : Broker) : nat :=
  sum_list_with (fun kv : string * gmap string AgentActivationState => size kv.2)
    (map_to_list (agent_activations b)).
End Model.
