(* ===== verification/BrokerInvariants.v ===== *)
(** * Invariants of the broker over every sequence of operations

    [broker_op] lists the public mutators and the dispatch entry points of
    [broker.rs] and [broker/agent.rs]; [step] runs one of them in any state, an
    error included, and [reachable] closes it from [Broker::with_clock]. *)
From S2P Require Import Prelude Broker BrokerFacts AgentBridge.
From stdpp Require Import base gmap strings list fin_maps option countable relations.
From Stdlib Require Import NArith ZArith Lia.

Section Invariants.
Context {Value C : Type} `{!Clock C}.
Implicit Types (b : Broker Value C) (l : Lease).

Inductive broker_op :=
| OpRegister (p : Provider Value)
| OpGrant (g : CapabilityGrant)
| OpLease (l : Lease)
| OpRevoke (id : string) (r : LeaseRevocationReason)
| OpEnforce (cap : CapabilityId) (owner : string) (gen : N) (sc : Scope)
| OpDispatch (pid : string) (inv : Invocation Value)
| OpNegotiate (agent : string) (r : AgentNegotiationResult)
| OpRevokeAgent (aid : string) (r : LeaseRevocationReason).

Definition run_op (op : broker_op) (b : Broker Value C) : Broker Value C :=
  match op with
  | OpRegister p => (register_provider p b).2
  | OpGrant g => (grant g b).2
  | OpLease l => (lease l b).2
  | OpRevoke id r => (revoke id r b).2
  | OpEnforce cap owner gen sc => (enforce_dispatch cap owner gen sc b).2
  | OpDispatch pid inv => (dispatch pid inv b).2
  | OpNegotiate agent r => (broker_grant_from_negotiation agent r b).2
  | OpRevokeAgent aid r => (revoke_agent_grants (E := Empty_set) aid r b).2
  end.

Definition step (b b' : Broker Value C) : Prop := exists op, b' = run_op op b.
Definition reachable (b : Broker Value C) : Prop := exists c, rtc step (with_clock c) b.

(** ** Leases only evolve by being revoked once *)

Definition lease_le (l l' : Lease) : Prop :=
  l' = l \/ (lease_revoked l = None /\ exists r, l' = set_revoked r l).

Definition leases_le (b b' : Broker Value C) : Prop :=
  forall id l, leases b !! id = Some l ->
    exists l', leases b' !! id = Some l' /\ lease_le l l'.

(** A live lease is backed by the current grant of its capability. *)
Definition backed (b : Broker Value C) (l : Lease) : Prop :=
  exists g, grants b !! lease_capability l = Some g /\
    grant_owner g = lease_owner l /\ grant_generation g = lease_generation l /\
    covers (grant_scope g) (lease_scope l) = true.

(** Map keys are the values' own ids, and live leases are backed. *)
Record wf (b : Broker Value C) : Prop := {
  wf_grants : forall cap g, grants b !! cap = Some g -> grant_capability g = cap;
  wf_leases : forall id l, leases b !! id = Some l -> lease_id l = id;
  wf_providers : forall pid p, providers b !! pid = Some p -> provider_id p = pid;
  wf_backed : forall id l, leases b !! id = Some l -> lease_revoked l = None -> backed b l
}.

(** The agent register of one agent, as long as its 64-bit counter has not
    wrapped: the counter is the number of activations registered, each has its
    own generation in [1..counter], and the current one is live and newest. *)
Record register_ok (b : Broker Value C) (agent : string) : Prop := {
  reg_counter : default 0%N (next_generation b !! agent)
                = N.of_nat (size (activations_of b agent));
  reg_range : forall aid s, activations_of b agent !! aid = Some s ->
    (1 <= act_generation s <= N.of_nat (size (activations_of b agent)))%N;
  reg_inj : forall aid aid' s s', activations_of b agent !! aid = Some s ->
    activations_of b agent !! aid' = Some s' ->
    act_generation s = act_generation s' -> aid = aid';
  reg_current : forall aid, current_activation b !! agent = Some aid ->
    exists s, activations_of b agent !! aid = Some s /\ act_revoked s = false /\
      act_generation s = N.of_nat (size (activations_of b agent))
}.

Definition register_wf (b : Broker Value C) : Prop :=
  forall agent, (N.of_nat (size (activations_of b agent)) <= U64_MAX)%N -> register_ok b agent.

(** The register is append-only, generations are fixed, and a revocation is
    never undone. *)
Definition register_le (b b' : Broker Value C) : Prop :=
  forall agent aid s, activations_of b agent !! aid = Some s ->
    exists s', activations_of b' agent !! aid = Some s' /\
      act_generation s' = act_generation s /\ (act_revoked s = true -> act_revoked s' = true).

Definition same_register (b b' : Broker Value C) : Prop :=
  agent_activations b' = agent_activations b /\
  current_activation b' = current_activation b /\
  next_generation b' = next_generation b.

(** ** Preorders *)

#[export] Instance lease_le_preorder : PreOrder lease_le.
Proof.
  split; [by left |]. intros l1 l2 l3 [-> | (H1 & r & ->)] [-> | (H2 & r' & ->)].
  - by left.
  - right; eauto.
  - right; eauto.
  - done.
Qed.

#[export] Instance leases_le_preorder : PreOrder leases_le.
Proof.
  split; [intros b id l Hl; by exists l |].
  intros b1 b2 b3 H12 H23 id l Hl.
  destruct (H12 id l Hl) as (l2 & Hl2 & Hle). destruct (H23 id l2 Hl2) as (l3 & Hl3 & Hle').
  exists l3. split; [done | by etrans].
Qed.

#[export] Instance register_le_preorder : PreOrder register_le.
Proof.
  split; [intros b a aid s Hs; by exists s |].
  intros b1 b2 b3 H12 H23 a aid s Hs.
  destruct (H12 a aid s Hs) as (s2 & Hs2 & Hg & Hr).
  destruct (H23 a aid s2 Hs2) as (s3 & Hs3 & Hg' & Hr').
  exists s3. split_and!; [done | congruence | auto].
Qed.

#[export] Instance same_register_preorder : PreOrder same_register.
Proof. split; [done |]. unfold same_register. intros b1 b2 b3; naive_solver congruence. Qed.

(** ** Revocation of leases *)

Lemma revoke_if_le p r l : lease_le l (revoke_if p r l).
Proof.
  unfold revoke_if. destruct (p l); [| by left]. cbn.
  destruct (is_revoked l) eqn:E; [by left |].
  apply is_revoked_false in E. right. eauto.
Qed.

Lemma revoke_if_id p r l : lease_id (revoke_if p r l) = lease_id l.
Proof. unfold revoke_if. by destruct (_ && _). Qed.

(** A lease that is live after a revocation pass was live and not targeted. *)
Lemma revoke_if_live p r l :
  lease_revoked (revoke_if p r l) = None ->
  revoke_if p r l = l /\ lease_revoked l = None /\ p l = false.
Proof.
  unfold revoke_if. destruct (p l) eqn:Ep; cbn; [| done].
  destruct (is_revoked l) eqn:E; cbn; [| done].
  intros H. apply is_revoked_true in E as [? E]. congruence.
Qed.

Lemma lease_le_revoked l l' r :
  lease_le l l' -> lease_revoked l = Some r -> l' = l.
Proof. intros [-> | (H & _)]; [done | congruence]. Qed.

(** Revoking some of the leases in place keeps the invariant. *)
Lemma wf_revoking b b' :
  grants b' = grants b -> providers b' = providers b ->
  (forall id l', leases b' !! id = Some l' ->
     exists l, leases b !! id = Some l /\ lease_le l l') ->
  wf b -> wf b'.
Proof.
  intros Hg Hp Hl [W1 W2 W3 W4]. split.
  - by rewrite Hg.
  - intros id l' (l & H & Hle)%Hl. apply W2 in H.
    destruct Hle as [-> | (_ & r & ->)]; done.
  - by rewrite Hp.
  - intros id l' (l & H & Hle)%Hl Hn. unfold backed. rewrite Hg.
    destruct Hle as [-> | (_ & r & ->)]; [by eapply W4 | done].
Qed.

Lemma fmap_revoke_inv (m : gmap string Lease) p r id l' :
  (revoke_if p r <$> m) !! id = Some l' ->
  exists l, m !! id = Some l /\ l' = revoke_if p r l.
Proof. rewrite lookup_fmap, fmap_Some. naive_solver. Qed.

Lemma set_clock_wf c b : wf b -> wf (set_clock c b).
Proof. intros [? ? ? ?]. by split. Qed.

Lemma same_but_clock_le b b' : same_but_clock b b' ->
  leases_le b b' /\ register_le b b' /\ same_register b b' /\ (wf b -> wf b').
Proof.
  intros [c ->]. split_and!; try done.
  - intros id l Hl. by exists l.
  - intros a aid s Hs. by exists s.
  - apply set_clock_wf.
Qed.

(** ** [grant] *)

(** What [grant] returns and leaves, branch by branch. *)
Lemma grant_run g b :
  grant g b =
  match grants b !! grant_capability g with
  | None => (Ok tt, set_grants (<[grant_capability g := g]> (grants b)) b)
  | Some e =>
      if bool_decide (e = g) then (Ok tt, b)
      else if (grant_generation e =? grant_generation g)%N then (Err Conflict, b)
      else
        let '(t, c) := clock_read (clock b) in
        (Ok tt,
         set_clock c
           (set_leases
              (revoke_if (fun l => bool_decide (lease_capability l = grant_capability g))
                 {| reason := GenerationChange; at_unix_ms := t |} <$> leases b)
              (set_grants (<[grant_capability g := g]> (grants b)) b)))
  end.
Proof.
  unfold grant, revoke_all_for_capability, insert_grant, now_unix_ms.
  cbv [mret mbind M_ret M_bind throw gets modify lift throw_if].
  destruct (grants b !! grant_capability g) as [e|]; [| done].
  case_bool_decide; [done |]. destruct (grant_generation e =? _)%N; cbn; [done |].
  by destruct (clock_read (clock b)).
Qed.

Lemma insert_grant_wf g b :
  wf b ->
  (forall id l, leases b !! id = Some l -> lease_capability l = grant_capability g ->
     is_Some (lease_revoked l)) ->
  wf (set_grants (<[grant_capability g := g]> (grants b)) b).
Proof.
  intros [W1 W2 W3 W4] Hr. split; cbn; [| done | done |].
  - intros cap g' [[<- <-] | [_ ?]]%lookup_insert_Some; auto.
  - intros id l Hl Hn. destruct (decide (lease_capability l = grant_capability g)) as [E|E].
    + destruct (Hr id l Hl E) as [? H]. congruence.
    + destruct (W4 id l Hl Hn) as (g' & Hg' & H). exists g'. cbn.
      by rewrite lookup_insert_ne.
Qed.

Lemma grant_wf g b : wf b -> wf (grant g b).2.
Proof.
  intros W. rewrite grant_run. destruct (grants b !! grant_capability g) as [e|] eqn:E.
  - case_bool_decide; [done |]. destruct (_ =? _)%N; [done |].
    destruct (clock_read (clock b)) as [t c]. cbn [snd]. apply set_clock_wf.
    apply (insert_grant_wf g (set_leases _ b)).
    + eapply (wf_revoking b); try done. cbn.
      intros id l' (l & Hl & ->)%fmap_revoke_inv. eauto using revoke_if_le.
    + cbn. intros id l' (l & Hl & ->)%fmap_revoke_inv Hcap.
      destruct (lease_revoked (revoke_if _ _ l)) eqn:Hn; [done |].
      apply revoke_if_live in Hn as (Heq & _ & Hp). rewrite Heq in Hcap.
      by rewrite bool_decide_eq_false in Hp.
  - apply insert_grant_wf; [done |]. intros id l Hl Hcap.
    destruct (lease_revoked l) eqn:Hn; [done |].
    destruct (wf_backed b W id l Hl Hn) as (g' & Hg' & _). rewrite Hcap in Hg'. congruence.
Qed.

Lemma grant_leases_le g : steps_in leases_le (grant g : M (Broker Value C) _ _).
Proof.
  intros b id l Hl. rewrite grant_run.
  destruct (grants b !! grant_capability g) as [e|]; [| by exists l].
  case_bool_decide; [by exists l |]. destruct (_ =? _)%N; [by exists l |].
  destruct (clock_read (clock b)) as [t c]. cbn. rewrite lookup_fmap, Hl. cbn.
  eauto using revoke_if_le.
Qed.

Lemma grant_same_register g : steps_in same_register (grant g : M (Broker Value C) _ _).
Proof.
  intros b. rewrite grant_run. destruct (grants b !! _); [| done].
  case_bool_decide; [done |]. destruct (_ =? _)%N; [done |]. by destruct (clock_read _).
Qed.

(** ** [lease] *)

(** A lease that is accepted is stored, backed by the grant, and either was
    there already or is new; the rest of the broker does not change. *)
Lemma lease_run l b :
  let '(t, c) := clock_read (clock b) in
  (exists e, (lease l b).1 = Err e /\ same_but_clock b (lease l b).2 /\
     (clock (lease l b).2 = clock b \/ clock (lease l b).2 = c)) \/
  lease l b = (Ok tt, set_clock c (set_leases (<[lease_id l := l]> (leases b)) b)) /\
  backed b l /\ (t < lease_expires_at l)%N /\
  (leases b !! lease_id l = None \/ leases b !! lease_id l = Some l).
Proof.
  unfold lease, now_unix_ms.
  cbv [mret mbind M_ret M_bind throw gets modify lift throw_if ok_or].
  destruct (clock_read (clock b)) as [t c] eqn:Hc.
  destruct (grants b !! lease_capability l) as [g|] eqn:Hg;
    [| left; eauto 6 using same_but_clock_refl].
  case_bool_decide as Ho; cbn [negb]; [| left; eauto 6 using same_but_clock_refl].
  destruct (N.eqb_spec (grant_generation g) (lease_generation l)) as [Hgen|];
    cbn [negb]; [| left; eauto 6 using same_but_clock_refl].
  destruct (covers (grant_scope g) (lease_scope l)) eqn:Hcov; cbn [negb];
    [| left; eauto 6 using same_but_clock_refl].
  rewrite Hc. destruct (N.leb_spec (lease_expires_at l) t) as [|Hexp]; [left; eexists; split_and!; [reflexivity | by exists c | by right] |].
  cbn. assert (Hb : backed b l) by (exists g; done).
  destruct (leases b !! lease_id l) as [l0|] eqn:Hl0; [| right; by auto].
  case_bool_decide; subst; [| left; eexists; split_and!; [reflexivity | by exists c | by right]].
  right. split; [| by auto]. by rewrite insert_id.
Qed.

Lemma lease_wf l b : wf b -> wf (lease l b).2.
Proof.
  intros W. pose proof (lease_run l b) as H. destruct (clock_read (clock b)) as [t c].
  destruct H as [(e & _ & Hs & _) | (-> & Hb & _ & _)]; [by apply same_but_clock_le in Hs as (_ & _ & _ & ?); auto |].
  cbn [snd]. apply set_clock_wf. destruct W as [W1 W2 W3 W4]. split; cbn; [done | | done |].
  - intros id l' [[<- <-] | [_ ?]]%lookup_insert_Some; auto.
  - intros id l' [[<- <-] | [_ ?]]%lookup_insert_Some Hn; [done | by eapply W4].
Qed.

Lemma lease_leases_le l : steps_in leases_le (lease l : M (Broker Value C) _ _).
Proof.
  intros b id l0 Hl0. pose proof (lease_run l b) as H. destruct (clock_read (clock b)) as [t c].
  destruct H as [(e & _ & Hs & _) | (-> & Hb & _ & Hin)]; [by apply same_but_clock_le in Hs as [Hs _]; apply Hs |].
  cbn. destruct (decide (lease_id l = id)) as [<- | Hne].
  - rewrite lookup_insert_eq. exists l. split; [done |]. left. naive_solver congruence.
  - rewrite lookup_insert_ne by done. by exists l0.
Qed.

Lemma lease_same_register l : steps_in same_register (lease l : M (Broker Value C) _ _).
Proof.
  intros b. pose proof (lease_run l b) as H. destruct (clock_read (clock b)) as [t c].
  destruct H as [(e & _ & Hs & _) | (-> & _)]; [| done].
  by apply same_but_clock_le in Hs as (_ & _ & ? & _).
Qed.

(** ** The other primitive operations *)

Lemma revoke_run id r b :
  exists t c, revoke id r b =
    (Ok tt, set_clock c
       (set_leases (alter (revoke_if (fun _ => true) {| reason := r; at_unix_ms := t |}) id
          (leases b)) b)).
Proof.
  unfold revoke, now_unix_ms. cbv [mret mbind M_ret M_bind modify].
  destruct (clock_read (clock b)) as [t c]. by exists t, c.
Qed.

Lemma alter_revoke_inv (m : gmap string Lease) p r id id' l' :
  alter (revoke_if p r) id m !! id' = Some l' ->
  exists l, m !! id' = Some l /\ lease_le l l'.
Proof.
  rewrite lookup_alter_Some.
  intros [(<- & l & Hl & ->) | [_ Hl]]; eauto using revoke_if_le.
  exists l'. split; [done | by left].
Qed.

Lemma revoke_wf id r b : wf b -> wf (revoke id r b).2.
Proof.
  destruct (revoke_run id r b) as (t & c & ->). cbn [snd]. intros W. apply set_clock_wf.
  eapply (wf_revoking b); try done. cbn. intros id' l'. apply alter_revoke_inv.
Qed.

Lemma revoke_leases_le id r : steps_in leases_le (revoke id r : M (Broker Value C) _ _).
Proof.
  intros b id' l Hl. destruct (revoke_run id r b) as (t & c & ->). cbn.
  rewrite lookup_alter. case_decide as E; [rewrite E, Hl; cbn; eauto using revoke_if_le |].
  exists l. split; [done | by left].
Qed.

Lemma revoke_same_register id r : steps_in same_register (revoke id r : M (Broker Value C) _ _).
Proof. intros b. by destruct (revoke_run id r b) as (t & c & ->). Qed.

Lemma register_provider_run p b :
  register_provider p b =
  match providers b !! provider_id p with
  | Some _ => (Err Conflict, b)
  | None => (Ok tt, set_providers (<[provider_id p := p]> (providers b)) b)
  end.
Proof.
  unfold register_provider. cbv [mret mbind M_ret M_bind throw gets modify].
  by destruct (providers b !! provider_id p).
Qed.

Lemma register_provider_wf p b : wf b -> wf (register_provider p b).2.
Proof.
  intros W. rewrite register_provider_run. destruct (providers b !! _); [done |].
  destruct W as [W1 W2 W3 W4]. split; cbn; try done.
  intros pid p' [[<- <-] | [_ ?]]%lookup_insert_Some; auto.
Qed.

Lemma register_provider_frame p : steps_in same_register (register_provider p : M (Broker Value C) _ _)
  /\ steps_in leases_le (register_provider p : M (Broker Value C) _ _).
Proof.
  split; intros b; rewrite register_provider_run; destruct (providers b !! _); try done;
    intros id l Hl; exists l; split; try done; by left.
Qed.

(** ** The agent bridge *)

Lemma now_same_but_clock {E} : steps_in same_but_clock (now_unix_ms : M (Broker Value C) E N).
Proof. apply now_frame. Qed.

(** Resolving a generation only touches the register. *)
Lemma resolve_generation_frame agent aid b :
  grants (resolve_generation agent aid b).2 = grants b /\
  leases (resolve_generation agent aid b).2 = leases b /\
  providers (resolve_generation agent aid b).2 = providers b /\
  clock (resolve_generation agent aid b).2 = clock b.
Proof.
  unfold resolve_generation, register_activation. cbn.
  destruct (activations_of b agent !! aid) as [s|]; [| done].
  destruct (act_revoked s); [done |]. by case_bool_decide.
Qed.

Lemma frame_wf b b' :
  grants b' = grants b -> leases b' = leases b -> providers b' = providers b -> wf b -> wf b'.
Proof.
  intros Hg Hl Hp. apply wf_revoking; [done | done |].
  rewrite Hl. intros id l H. exists l. split; [done | by left].
Qed.

Lemma keeps_wf_now {E} : steps_in (keeps wf) (now_unix_ms : M (Broker Value C) E N).
Proof. intros b. exact (proj2 (proj2 (proj2 (same_but_clock_le _ _ (now_same_but_clock b))))). Qed.

Lemma keeps_wf_resolve agent aid :
  steps_in (keeps wf) (resolve_generation agent aid : M (Broker Value C) _ _).
Proof.
  intros b. destruct (resolve_generation_frame agent aid b) as (? & ? & ? & _).
  intros W. by apply (frame_wf b).
Qed.

(** A transition property of the whole negotiation follows from that of the
    operations it is made of. *)
Lemma negotiate_steps_in (R : relation (Broker Value C)) `{!PreOrder R} agent r :
  steps_in R (now_unix_ms : M (Broker Value C) AgentBridgeError N) ->
  (forall aid, steps_in R (resolve_generation agent aid : M (Broker Value C) _ _)) ->
  (forall g, steps_in R (grant g : M (Broker Value C) _ _)) ->
  (forall l, steps_in R (lease l : M (Broker Value C) _ _)) ->
  steps_in R (broker_grant_from_negotiation agent r : M (Broker Value C) _ _).
Proof.
  intros Hn Hr Hg Hl. unfold broker_grant_from_negotiation.
  do 5 (apply steps_in_bind; [done | eauto with dsh | intros ?]).
  apply steps_in_bind; [done | done | intros now].
  apply steps_in_bind; [done | done | intros gen].
  apply steps_in_bind; [done | | intros _].
  { apply steps_in_for_each; [done |]. intros cap. apply steps_in_map_err, Hg. }
  apply steps_in_bind; [done | | intros _].
  { apply steps_in_for_each; [done |]. intros cap. apply steps_in_map_err, Hl. }
  by apply steps_in_ret.
Qed.

Lemma negotiate_wf agent r b : wf b -> wf (broker_grant_from_negotiation agent r b).2.
Proof.
  revert b. apply (negotiate_steps_in (keeps wf) agent r).
  - apply keeps_wf_now.
  - intros aid. apply keeps_wf_resolve.
  - intros g b. exact (grant_wf g b).
  - intros l b. exact (lease_wf l b).
Qed.

Lemma leases_le_now {E} : steps_in leases_le (now_unix_ms : M (Broker Value C) E N).
Proof. intros b. apply same_but_clock_le, now_same_but_clock. Qed.

Lemma leases_le_resolve agent aid :
  steps_in leases_le (resolve_generation agent aid : M (Broker Value C) _ _).
Proof.
  intros b id l Hl. destruct (resolve_generation_frame agent aid b) as (_ & -> & _).
  exists l. split; [done | by left].
Qed.

Lemma negotiate_leases_le agent r :
  steps_in leases_le (broker_grant_from_negotiation agent r : M (Broker Value C) _ _).
Proof.
  apply negotiate_steps_in; [typeclasses eauto | apply leases_le_now
    | apply leases_le_resolve | apply grant_leases_le | apply lease_leases_le].
Qed.

(** One target of a revocation: its leases are revoked in place. *)
Lemma revoke_target_frame aid rec b t :
  grants (revoke_target aid rec b t).2 = grants b /\
  providers (revoke_target aid rec b t).2 = providers b /\
  next_generation (revoke_target aid rec b t).2 = next_generation b /\
  clock (revoke_target aid rec b t).2 = clock b /\
  leases (revoke_target aid rec b t).2 = (revoke_if (target_lease t.1 t.2) rec <$> leases b).
Proof. destruct t as [agent gen]. cbn. by case_bool_decide. Qed.

Lemma revoke_targets_cons aid rec t ts b :
  (revoke_targets aid rec (t :: ts) b).2
  = (revoke_targets aid rec ts (revoke_target aid rec b t).2).2.
Proof.
  cbn [revoke_targets]. destruct (revoke_target aid rec b t) as [n b1]. cbn.
  by destruct (revoke_targets aid rec ts b1).
Qed.

Lemma revoke_targets_steps_in (R : relation (Broker Value C)) `{!PreOrder R} aid rec ts b :
  (forall b t, R b (revoke_target aid rec b t).2) -> R b (revoke_targets aid rec ts b).2.
Proof.
  intros HR. revert b. induction ts as [|t ts IH]; intros b; [done |].
  rewrite revoke_targets_cons. etrans; [apply HR | apply IH].
Qed.

Lemma revoke_agent_steps_in (R : relation (Broker Value C)) `{!PreOrder R} {E} aid r :
  steps_in R (now_unix_ms : M (Broker Value C) E N) ->
  (forall rec b t, R b (revoke_target aid rec b t).2) ->
  steps_in R (revoke_agent_grants aid r : M (Broker Value C) E nat).
Proof.
  intros Hn Ht. unfold revoke_agent_grants.
  apply steps_in_bind; [done | done | intros now].
  apply steps_in_bind; [done | by apply steps_in_gets | intros ts].
  apply steps_in_update. intros b. by apply revoke_targets_steps_in.
Qed.

Lemma revoke_target_wf aid rec b t : wf b -> wf (revoke_target aid rec b t).2.
Proof.
  destruct (revoke_target_frame aid rec b t) as (Hg & Hp & _ & _ & Hl).
  apply wf_revoking; [done | done |]. rewrite Hl.
  intros id l' (l & H & ->)%fmap_revoke_inv. eauto using revoke_if_le.
Qed.

Lemma revoke_target_leases_le aid rec b t : leases_le b (revoke_target aid rec b t).2.
Proof.
  intros id l Hl. destruct (revoke_target_frame aid rec b t) as (_ & _ & _ & _ & ->).
  rewrite lookup_fmap, Hl. cbn. eauto using revoke_if_le.
Qed.

(** ** All operations *)

Lemma dispatch_same_but_clock pid inv b : same_but_clock b (dispatch pid inv b).2.
Proof.
  revert b. change (steps_in same_but_clock (dispatch pid inv : M (Broker Value C) _ _)).
  unfold dispatch.
  do 3 (apply steps_in_bind; [typeclasses eauto | eauto with dsh typeclass_instances | intros ?]).
  apply steps_in_bind; [typeclasses eauto | intros b; apply enforce_dispatch_frame |].
  intros _. apply steps_in_ret. typeclasses eauto.
Qed.

Lemma run_op_wf op b : wf b -> wf (run_op op b).
Proof.
  destruct op; cbn [run_op].
  - apply register_provider_wf.
  - apply grant_wf.
  - apply lease_wf.
  - apply revoke_wf.
  - apply (same_but_clock_le _ _ (enforce_dispatch_frame b cap owner gen sc)).
  - apply (same_but_clock_le _ _ (dispatch_same_but_clock pid inv b)).
  - apply negotiate_wf.
  - apply (revoke_agent_steps_in (keeps wf)); [apply keeps_wf_now |].
    intros rec b' t. exact (revoke_target_wf aid rec b' t).
Qed.

Lemma run_op_leases_le op b : leases_le b (run_op op b).
Proof.
  destruct op; cbn [run_op].
  - apply register_provider_frame.
  - apply grant_leases_le.
  - apply lease_leases_le.
  - apply revoke_leases_le.
  - apply (same_but_clock_le _ _ (enforce_dispatch_frame b cap owner gen sc)).
  - apply (same_but_clock_le _ _ (dispatch_same_but_clock pid inv b)).
  - apply negotiate_leases_le.
  - apply revoke_agent_steps_in; [typeclasses eauto | apply leases_le_now |].
    intros; apply revoke_target_leases_le.
Qed.

Lemma rtc_step_in (R : relation (Broker Value C)) `{!PreOrder R} b b' :
  (forall op b, R b (run_op op b)) -> rtc step b b' -> R b b'.
Proof.
  intros HR. induction 1 as [b | b1 b2 b3 [op ->] _ IH]; [done |].
  etrans; [apply HR | done].
Qed.

Lemma with_clock_wf c : wf (with_clock (Value := Value) (c : C)).
Proof. split; cbn; intros *; rewrite lookup_empty; done. Qed.

Lemma reachable_wf b : reachable b -> wf b.
Proof.
  intros [c Hr]. assert (keeps wf (with_clock c) b) as H; [| apply H, with_clock_wf].
  apply rtc_step_in; [typeclasses eauto | intros; intros ?; by apply run_op_wf | done].
Qed.

(** ** The agent register *)

(** All that [register_ok] depends on, for one agent. *)
Definition register_view (b : Broker Value C) (agent : string) :
    gmap string AgentActivationState * option string * N :=
  (activations_of b agent, current_activation b !! agent,
   default 0%N (next_generation b !! agent)).

Lemma register_ok_view b b' agent :
  register_view b' agent = register_view b agent -> register_ok b agent -> register_ok b' agent.
Proof.
  unfold register_view. intros [= Ha Hc Hn] [H1 H2 H3 H4].
  split; rewrite Ha; rewrite ?Hc, ?Hn; done.
Qed.

Lemma register_view_activations b b' agent :
  register_view b' agent = register_view b agent ->
  activations_of b' agent = activations_of b agent.
Proof. by intros [= ? _ _]. Qed.

Lemma register_view_inv b agent m c n :
  register_view b agent = (m, c, n) -> activations_of b agent = m.
Proof. by intros [= ? _ _]. Qed.

Lemma same_register_view b b' agent :
  same_register b b' -> register_view b' agent = register_view b agent.
Proof. intros (H1 & H2 & H3). unfold register_view, activations_of. by rewrite H1, H2, H3. Qed.

(** Resolving leaves the views as they are, or adds one activation. *)
Lemma resolve_generation_view agent aid b agent' :
  let b' := (resolve_generation agent aid b).2 in
  let gen := u64_add (default 0%N (next_generation b !! agent)) 1 in
  register_view b' agent' = register_view b agent' \/
  agent' = agent /\ activations_of b agent !! aid = None /\
  register_view b' agent =
    (<[aid := {| act_generation := gen; act_revoked := false |}]> (activations_of b agent),
     Some aid, gen).
Proof.
  unfold resolve_generation, register_activation, register_view, activations_of. cbn.
  destruct (decide (agent' = agent)) as [-> | Hne].
  - destruct (default ∅ (agent_activations b !! agent) !! aid) as [s|] eqn:Ha.
    + left. destruct (act_revoked s); [| case_bool_decide]; cbn; by rewrite lookup_insert_eq.
    + right. cbn. by rewrite !lookup_insert_eq.
  - left. destruct (default ∅ (agent_activations b !! agent) !! aid) as [s|];
      [destruct (act_revoked s); [| case_bool_decide] |]; cbn;
      by rewrite ?lookup_insert_ne by done.
Qed.

(** Revoking one target marks the activation and clears it when current. *)
Lemma revoke_target_view aid rec b t agent :
  register_view (revoke_target aid rec b t).2 agent =
  if decide (agent = t.1) then
    (alter mark_revoked aid (activations_of b agent),
     if bool_decide (current_activation b !! agent = Some aid) then None
     else current_activation b !! agent,
     default 0%N (next_generation b !! agent))
  else register_view b agent.
Proof.
  destruct t as [a g]. unfold register_view, revoke_target, activations_of. cbn.
  case_decide as E; subst.
  - case_bool_decide as Ec; cbn; rewrite lookup_alter_eq, ?lookup_delete_eq;
      destruct (agent_activations b !! a); cbn; by rewrite ?alter_empty.
  - case_bool_decide as Ec; cbn; by rewrite lookup_alter_ne, ?lookup_delete_ne by done.
Qed.

Lemma size_alter_act (m : gmap string AgentActivationState) aid :
  size (alter mark_revoked aid m) = size m.
Proof. by rewrite <- !size_dom, dom_alter_L. Qed.

Lemma register_ok_insert b b' agent aid :
  let m := activations_of b agent in
  let gen := u64_add (default 0%N (next_generation b !! agent)) 1 in
  m !! aid = None ->
  register_view b' agent =
    (<[aid := {| act_generation := gen; act_revoked := false |}]> m, Some aid, gen) ->
  (N.of_nat (size (activations_of b' agent)) <= U64_MAX)%N ->
  register_ok b agent -> register_ok b' agent.
Proof.
  cbv zeta. unfold register_view. intros Ha [= Hact Hcur Hnext] Hsz [H1 H2 H3 _].
  rewrite Hact, map_size_insert_None in Hsz by done.
  assert (Hgen : u64_add (default 0%N (next_generation b !! agent)) 1
                 = N.of_nat (S (size (activations_of b agent)))).
  { rewrite H1. unfold u64_add. rewrite N.mod_small; lia. }
  split; rewrite Hact, ?map_size_insert_None, ?Hnext by done.
  - by rewrite Hgen.
  - intros aid' s [[<- <-] | [_ Hs]]%lookup_insert_Some; cbn; [lia |].
    specialize (H2 aid' s Hs). lia.
  - intros a1 a2 s1 s2 [[<- <-] | [Hn1 Hs1]]%lookup_insert_Some
      [[<- <-] | [Hn2 Hs2]]%lookup_insert_Some; cbn; [done | | |].
    + specialize (H2 _ _ Hs2). lia.
    + specialize (H2 _ _ Hs1). lia.
    + by eapply H3.
  - rewrite Hcur. intros aid' [= <-]. eexists. by rewrite lookup_insert_eq.
Qed.

Lemma resolve_register_wf agent aid :
  steps_in (keeps register_wf) (resolve_generation agent aid : M (Broker Value C) _ _).
Proof.
  intros b W agent' Hsz.
  destruct (resolve_generation_view agent aid b agent') as [Hv | (-> & Ha & Hv)].
  - eapply register_ok_view; [done |]. apply W.
    by rewrite (register_view_activations _ _ _ Hv) in Hsz.
  - eapply register_ok_insert; [done.. |]. apply W.
    apply (f_equal (fun v => size v.1.1)) in Hv. cbn in Hv.
    rewrite map_size_insert_None in Hv by done. lia.
Qed.

Lemma revoke_target_register_wf aid rec b t :
  register_wf b -> register_wf (revoke_target aid rec b t).2.
Proof.
  intros W agent. pose proof (revoke_target_view aid rec b t agent) as Hv.
  case_decide as E.
  2: { rewrite (register_view_activations _ _ _ Hv). intros Hsz.
       eapply register_ok_view; [exact Hv | auto]. }
  unfold register_view in Hv. injection Hv as Hact Hcur Hnext.
  rewrite Hact, size_alter_act. intros Hsz. destruct (W agent Hsz) as [H1 H2 H3 H4].
  split; rewrite Hact, ?size_alter_act, ?Hnext; [done | | |].
  - intros a s [(<- & s0 & Hs & ->) | [_ Hs]]%lookup_alter_Some; [| eauto].
    exact (H2 _ _ Hs).
  - assert (Hg : forall a s, alter mark_revoked aid (activations_of b agent) !! a = Some s ->
             exists s0, activations_of b agent !! a = Some s0 /\ act_generation s0 = act_generation s).
    { intros a s [(<- & s0 & Hs & ->) | [_ Hs]]%lookup_alter_Some; eauto. }
    intros a1 a2 s1 s2 (s1' & Hs1 & <-)%Hg (s2' & Hs2 & <-)%Hg. by eapply H3.
  - rewrite Hcur. case_bool_decide as Hc; [done |]. intros a Ha.
    destruct (H4 a Ha) as (s & Hs & Hr & Hgen). exists s.
    rewrite lookup_alter_ne by congruence. done.
Qed.

Lemma view_register_le b b' :
  (forall agent, register_view b' agent = register_view b agent) -> register_le b b'.
Proof.
  intros Hv agent aid s Hs. exists s. by rewrite (register_view_activations _ _ _ (Hv agent)).
Qed.

Lemma resolve_register_le agent aid :
  steps_in register_le (resolve_generation agent aid : M (Broker Value C) _ _).
Proof.
  intros b a aid' s Hs.
  destruct (resolve_generation_view agent aid b a) as [Hv | (-> & Ha & Hv)].
  - exists s. by rewrite (register_view_activations _ _ _ Hv).
  - apply register_view_inv in Hv. exists s. rewrite Hv.
    rewrite lookup_insert_ne by congruence. done.
Qed.

Lemma revoke_target_register_le aid rec b t : register_le b (revoke_target aid rec b t).2.
Proof.
  intros a aid' s Hs. pose proof (revoke_target_view aid rec b t a) as Hv. case_decide.
  - apply register_view_inv in Hv. rewrite Hv.
    destruct (decide (aid = aid')) as [<- | ?].
    + rewrite lookup_alter_eq, Hs. by exists (mark_revoked s).
    + rewrite lookup_alter_ne by done. by exists s.
  - exists s. by rewrite (register_view_activations _ _ _ Hv).
Qed.

Lemma same_register_keeps b b' :
  same_register b b' -> register_le b b' /\ (register_wf b -> register_wf b').
Proof.
  intros H. assert (Hv := fun agent => same_register_view _ _ agent H). split.
  - by apply view_register_le.
  - intros W agent. rewrite (register_view_activations _ _ _ (Hv agent)).
    intros Hsz. by eapply register_ok_view, W.
Qed.

Lemma run_op_same_register op b :
  match op with
  | OpNegotiate _ _ | OpRevokeAgent _ _ => True
  | _ => same_register b (run_op op b)
  end.
Proof.
  destruct op; cbn [run_op]; try done.
  - apply register_provider_frame.
  - apply grant_same_register.
  - apply lease_same_register.
  - apply revoke_same_register.
  - apply (same_but_clock_le _ _ (enforce_dispatch_frame b cap owner gen sc)).
  - apply (same_but_clock_le _ _ (dispatch_same_but_clock pid inv b)).
Qed.

(** A register property that single operations preserve is preserved by every
    operation. *)
Lemma run_op_register (R : relation (Broker Value C)) `{!PreOrder R} :
  (forall b b', same_register b b' -> R b b') ->
  (forall agent aid, steps_in R (resolve_generation agent aid : M (Broker Value C) _ _)) ->
  (forall aid rec b t, R b (revoke_target aid rec b t).2) ->
  forall op b, R b (run_op op b).
Proof.
  intros Hs Hr Ht op b.
  assert (Hn : forall E, steps_in R (now_unix_ms : M (Broker Value C) E N)).
  { intros E b'. apply Hs, (same_but_clock_le _ _ (now_same_but_clock b')). }
  pose proof (run_op_same_register op b) as H. destruct op; try (by apply Hs); clear H.
  - revert b. apply (negotiate_steps_in R agent r); [apply Hn | apply Hr | |].
    + intros g b'. apply Hs, grant_same_register.
    + intros l b'. apply Hs, lease_same_register.
  - apply (revoke_agent_steps_in R); [apply Hn | intros; apply Ht].
Qed.

Lemma run_op_register_le op b : register_le b (run_op op b).
Proof.
  apply run_op_register; [typeclasses eauto | | apply resolve_register_le
    | apply revoke_target_register_le].
  intros b1 b2 H. by apply same_register_keeps.
Qed.

Lemma run_op_register_wf op b : register_wf b -> register_wf (run_op op b).
Proof.
  apply (run_op_register (keeps register_wf)).
  - intros b1 b2 H. exact (proj2 (same_register_keeps _ _ H)).
  - apply resolve_register_wf.
  - intros aid rec b' t. exact (revoke_target_register_wf aid rec b' t).
Qed.

Lemma with_clock_register_wf c : register_wf (with_clock (Value := Value) (c : C)).
Proof.
  intros agent _. unfold with_clock.
  split; unfold activations_of; cbn; rewrite ?lookup_empty; cbn; done.
Qed.

Lemma reachable_register_wf b : reachable b -> register_wf b.
Proof.
  intros [c Hr].
  assert (keeps register_wf (with_clock c) b) as H; [| apply H, with_clock_register_wf].
  apply rtc_step_in; [typeclasses eauto | | done].
  intros op b'. exact (run_op_register_wf op b').
Qed.
End Invariants.

Arguments broker_op : clear implicits.
