(* ===== verification/BrokerProps.v ===== *)
(** * The broker's guarantees

    The postcondition of a negotiation first: every granted capability has the
    activation's grant and lease, and the activation is the agent's current, live
    one.  Then safety over every sequence of operations (backing, exclusivity,
    durable revocation), what a negotiated activation allows and what a takeover
    forbids, and the behaviour of a replayed activation. *)
From S2P Require Import Prelude Broker BrokerFacts AgentBridge BrokerInvariants.
From stdpp Require Import base gmap strings list fin_maps option countable relations.
From Stdlib Require Import NArith ZArith Lia.

Section Facts.
Context {Value C : Type} `{!Clock C}.
Implicit Types (b : Broker Value C) (l : Lease).

(** A successful [grant] stores the grant and keeps those of other
    capabilities. *)
Lemma grant_ok g b b' :
  grant g b = (Ok tt, b') ->
  grants b' !! grant_capability g = Some g /\
  forall cap, cap <> grant_capability g -> grants b' !! cap = grants b !! cap.
Proof.
  rewrite grant_run. destruct (grants b !! grant_capability g) as [e|] eqn:E.
  - case_bool_decide; subst; [by intros [= <-] |]. destruct (_ =? _)%N; [done |].
    destruct (clock_read (clock b)) as [t c]. intros [= <-]. cbn.
    split; [apply lookup_insert_eq | intros; by rewrite lookup_insert_ne].
  - intros [= <-]. cbn.
    split; [apply lookup_insert_eq | intros; by rewrite lookup_insert_ne].
Qed.

(** A successful [lease] stores the lease, keeps the others and the grants. *)
Lemma lease_ok l b b' :
  lease l b = (Ok tt, b') ->
  leases b' !! lease_id l = Some l /\ grants b' = grants b /\
  ((clock_read (clock b)).1 < lease_expires_at l)%N /\
  (forall id l0, leases b !! id = Some l0 -> leases b' !! id = Some l0).
Proof.
  intros H. pose proof (lease_run l b) as Hr. destruct (clock_read (clock b)) as [t c].
  destruct Hr as [(e & He & _) | (Heq & _ & Hx & Hin)]; [by rewrite H in He |].
  rewrite Heq in H. injection H as <-. cbn. split_and!; [apply lookup_insert_eq | done | done |].
  intros id l0 Hl0. destruct (decide (lease_id l = id)) as [<- | ?].
  - rewrite lookup_insert_eq. naive_solver congruence.
  - by rewrite lookup_insert_ne.
Qed.

(** Granting what is already granted, and leasing what is already leased. *)
Lemma grant_again g b : grants b !! grant_capability g = Some g -> grant g b = (Ok tt, b).
Proof. intros H. rewrite grant_run, H. by rewrite bool_decide_eq_true_2. Qed.

Lemma lease_again l b :
  backed b l -> leases b !! lease_id l = Some l ->
  ((clock_read (clock b)).1 < lease_expires_at l)%N ->
  lease l b = (Ok tt, set_clock (clock_read (clock b)).2 b).
Proof.
  intros (g & Hg & Ho & Hgen & Hc) Hl Ht. unfold lease, now_unix_ms.
  cbv [mret mbind M_ret M_bind throw gets modify lift throw_if ok_or].
  rewrite Hg, bool_decide_eq_true_2 by done. cbn [negb]. rewrite Hgen, N.eqb_refl, Hc. cbn [negb].
  destruct (clock_read (clock b)) as [t c]. cbn in *.
  replace (lease_expires_at l <=? t)%N with false by (symmetry; by apply N.leb_gt).
  cbn. by rewrite Hl, bool_decide_eq_true_2.
Qed.

(** [resolve_generation] when it succeeds: the activation is registered, live
    and current. *)
Lemma resolve_generation_ok agent aid b gen b' :
  resolve_generation agent aid b = (Ok gen, b') ->
  activations_of b' agent !! aid = Some {| act_generation := gen; act_revoked := false |} /\
  current_activation b' !! agent = Some aid.
Proof.
  unfold resolve_generation, register_activation. cbn.
  destruct (activations_of b agent !! aid) as [[g rv]|] eqn:Ha; cbn.
  - destruct rv; [done |]. case_bool_decide as Hc; [| done].
    intros [= <- <-]. cbn. unfold activations_of in *. cbn. by rewrite lookup_insert_eq.
  - intros [= <- <-]. unfold activations_of. cbn. rewrite !lookup_insert_eq. cbn.
    by rewrite lookup_insert_eq.
Qed.

(** Resolving the current live activation again is a no-op. *)
Lemma resolve_generation_current agent aid b gen :
  activations_of b agent !! aid = Some {| act_generation := gen; act_revoked := false |} ->
  current_activation b !! agent = Some aid ->
  resolve_generation agent aid b = (Ok gen, b).
Proof.
  intros Ha Hc. unfold resolve_generation. rewrite Ha. cbn.
  rewrite bool_decide_eq_true_2 by done. f_equal.
  destruct b; unfold set_agent_activations, activations_of in *; cbn in *. f_equal.
  apply insert_id. destruct (agent_activations !! agent); [done |].
  cbn in Ha. by rewrite lookup_empty in Ha.
Qed.

Lemma grants_loop agent gen now sc caps b b' :
  for_each (fun cap => map_err_m BridgeBroker
              (grant (agent_capability_grant agent gen now sc cap))) caps b = (Ok tt, b') ->
  same_register b b' /\
  forall cap, cap ∈ caps ->
    grants b' !! cap = Some (agent_capability_grant agent gen now sc cap).
Proof.
  intros H. eapply (for_each_ok (fun s => same_register b s)
    (fun cap s => grants s !! cap = Some (agent_capability_grant agent gen now sc cap)));
    [| | | exact H]; [| | done].
  - intros cap s s' HI Hg%map_err_m_ok. split.
    + etrans; [exact HI |]. change s' with ((Ok (E := BrokerError) tt, s').2).
      rewrite <- Hg. apply grant_same_register.
    + by apply grant_ok in Hg as [? _].
  - intros cap cap' s s' HI HP Hg%map_err_m_ok. apply grant_ok in Hg as [Hnew Hold].
    destruct (decide (cap = cap')) as [-> | Hne]; [done |]. by rewrite Hold.
Qed.

Lemma leases_loop agent aid gen expires sc caps b b' :
  for_each (fun cap => map_err_m BridgeBroker
              (lease (agent_lease agent aid gen expires sc cap))) caps b = (Ok tt, b') ->
  (same_register b b' /\ grants b' = grants b) /\
  forall cap, cap ∈ caps ->
    leases b' !! agent_lease_id agent aid cap = Some (agent_lease agent aid gen expires sc cap).
Proof.
  intros H. eapply (for_each_ok (fun s => same_register b s /\ grants s = grants b)
    (fun cap s => leases s !! agent_lease_id agent aid cap
                  = Some (agent_lease agent aid gen expires sc cap)));
    [| | | exact H]; [| | done].
  - intros cap s s' [HI Hgr] Hl%map_err_m_ok.
    assert (Hs : same_register s s').
    { change s' with ((Ok (E := BrokerError) tt, s').2). rewrite <- Hl.
      apply lease_same_register. }
    apply lease_ok in Hl as (Hnew & Hg & _ & _).
    split_and!; [by etrans | congruence | done].
  - intros cap cap' s s' _ HP Hl%map_err_m_ok. apply lease_ok in Hl as (_ & _ & _ & Hold). eauto.
Qed.

(** The activation the bridge has established. *)
Record established (agent : string) (r : AgentNegotiationResult) (ag : AgentGrant)
    (b : Broker Value C) : Prop := {
  est_agreed : neg_agreed r = true;
  est_known : neg_conformance r = Known;
  est_granted : neg_granted r <> [];
  est_constraints : exists c, neg_lease_constraints r = Some c /\ (0 < max_seconds c)%N /\
    ag = {| ag_agent_id := agent; ag_activation_id := neg_activation_id r;
            ag_generation := ag_generation ag; ag_capabilities := neg_granted r;
            ag_scope := neg_scope r; ag_lease_constraints := Some c;
            ag_expires_at := agent_expiry (ag_granted_at ag) c;
            ag_granted_at := ag_granted_at ag |};
  est_grant : forall cap, cap ∈ neg_granted r -> grants b !! cap =
    Some (agent_capability_grant agent (ag_generation ag) (ag_granted_at ag) (neg_scope r) cap);
  est_lease : forall cap, cap ∈ neg_granted r ->
    leases b !! agent_lease_id agent (neg_activation_id r) cap =
    Some (agent_lease agent (neg_activation_id r) (ag_generation ag) (ag_expires_at ag)
            (neg_scope r) cap);
  est_register : activations_of b agent !! neg_activation_id r =
    Some {| act_generation := ag_generation ag; act_revoked := false |};
  est_current : current_activation b !! agent = Some (neg_activation_id r)
}.

Lemma negotiate_established agent r b ag b' :
  broker_grant_from_negotiation agent r b = (Ok ag, b') ->
  established agent r ag b' /\ ag_granted_at ag = (clock_read (clock b)).1.
Proof.
  unfold broker_grant_from_negotiation.
  intros (u1 & s1 & [Hagr%negb_false_iff ->]%throw_if_ok & H)%bind_ok.
  apply bind_ok in H as (u2 & s2 & [Hk%negb_false_iff ->]%throw_if_ok & H).
  apply bind_ok in H as (u3 & s3 & [Hne ->]%throw_if_ok & H).
  apply bind_ok in H as (c & s4 & [Hc%ok_or_ok ->]%lift_ok & H).
  apply bind_ok in H as (u5 & s5 & [Hmax ->]%throw_if_ok & H).
  apply bind_ok in H as (now & s6 & Hnow & H).
  apply bind_ok in H as (gen & s7 & Hgen & H).
  apply bind_ok in H as ([] & s8 & Hgs & H).
  apply bind_ok in H as ([] & s9 & Hls & H). injection H as <- <-.
  apply resolve_generation_ok in Hgen as [Ha Hcur].
  apply grants_loop in Hgs as [Hsr8 Hg8]. apply leases_loop in Hls as [[Hsr9 Hg9] Hl9].
  assert (Hsr : same_register s7 s9).
  { destruct Hsr8 as (E1 & E2 & E3), Hsr9 as (E4 & E5 & E6). split_and!; congruence. }
  destruct Hsr as (E1 & E2 & E3).
  rewrite bool_decide_eq_true in Hk. rewrite bool_decide_eq_false in Hne.
  apply N.eqb_neq in Hmax. unfold activations_of in *.
  split.
  2: { unfold now_unix_ms in Hnow. destruct (clock_read (clock b)).
       injection Hnow as <- _. done. }
  split; cbn; try done.
  - exists c. split_and!; [done | lia | done].
  - intros cap Hcap. rewrite Hg9. auto.
  - unfold activations_of. by rewrite E1.
  - by rewrite E2.
Qed.
End Facts.

(** ** Guarantees *)

Section Props.
Context {Value C : Type} `{!Clock C}.
Implicit Types (b : Broker Value C) (l : Lease).

(** The verdict of the lease scan does not depend on the order in which the
    hash map yields its values: any permutation of the stored leases gives the
    same outcome, the reported error included. *)
Theorem lease_scan_order_irrelevant b cap owner gen sc now ls :
  ls ≡ₚ lease_values b ->
  valid_lease_verdict cap owner gen sc now ls =
  valid_lease_verdict cap owner gen sc now (lease_values b).
Proof. intros HP. by apply valid_lease_verdict_perm. Qed.

(** C3.  In every reachable state a lease that is not revoked agrees with the
    current grant of its capability in owner and generation, and its scope was
    covered by the grant's. *)
Theorem live_lease_backed_by_grant b id l :
  reachable b -> leases b !! id = Some l -> lease_revoked l = None ->
  lease_id l = id /\
  exists g, grants b !! lease_capability l = Some g /\
    grant_capability g = lease_capability l /\
    grant_owner g = lease_owner l /\ grant_generation g = lease_generation l /\
    covers (grant_scope g) (lease_scope l) = true.
Proof.
  intros W%reachable_wf Hl Hn. destruct (wf_backed b W id l Hl Hn) as (g & Hg & H).
  split; [by apply (wf_leases b W) |]. exists g. split; [done |].
  split; [by apply (wf_grants b W) | done].
Qed.

(** C4.  A capability is held by one participant at a time: in every reachable
    state all live leases of a capability have the same owner and the same
    generation. *)
Theorem live_leases_exclusive b id l id' l' :
  reachable b -> leases b !! id = Some l -> leases b !! id' = Some l' ->
  lease_revoked l = None -> lease_revoked l' = None ->
  lease_capability l = lease_capability l' ->
  lease_owner l = lease_owner l' /\ lease_generation l = lease_generation l'.
Proof.
  intros W%reachable_wf Hl Hl' Hn Hn' Hcap.
  destruct (wf_backed b W id l Hl Hn) as (g & Hg & Ho & Hgen & _).
  destruct (wf_backed b W id' l' Hl' Hn') as (g' & Hg' & Ho' & Hgen' & _).
  rewrite Hcap in Hg. simplify_eq. split; congruence.
Qed.

(** C5.  Revocation is durable: whatever operations follow, successful or not, a
    revoked lease keeps its record (the first reason and time) and its id. *)
Theorem revocation_is_durable b b' id l r :
  rtc step b b' -> leases b !! id = Some l -> lease_revoked l = Some r ->
  leases b' !! id = Some l.
Proof.
  intros Hr Hl Hrev.
  assert (H : leases_le b b').
  { apply rtc_step_in; [typeclasses eauto | apply run_op_leases_le | done]. }
  destruct (H id l Hl) as (l' & Hl' & Hle). by rewrite (lease_le_revoked _ _ _ Hle Hrev) in Hl'.
Qed.

(** A revoked activation is never issued again: whatever operations follow,
    presenting it is refused and changes neither grants nor leases; when the
    presented result is well formed the refusal is [ActivationRevoked]. *)
Theorem revoked_activation_refused_forever b b' agent r s :
  rtc step b b' ->
  activations_of b agent !! neg_activation_id r = Some s -> act_revoked s = true ->
  let '(res, b'') := broker_grant_from_negotiation agent r b' in
  is_ok res = false /\ grants b'' = grants b' /\ leases b'' = leases b' /\
  (neg_agreed r = true -> neg_conformance r = Known -> neg_granted r <> [] ->
   (exists c, neg_lease_constraints r = Some c /\ (0 < max_seconds c)%N) ->
   res = Err ActivationRevoked).
Proof.
  intros Hr Ha Hs.
  assert (H : register_le b b').
  { apply rtc_step_in; [typeclasses eauto | apply run_op_register_le | done]. }
  destruct (H agent _ s Ha) as (s' & Ha' & _ & Hs'). specialize (Hs' Hs).
  unfold broker_grant_from_negotiation, now_unix_ms, resolve_generation.
  cbv [mret mbind M_ret M_bind throw gets modify lift throw_if ok_or].
  destruct (neg_agreed r); cbn [negb]; [| naive_solver].
  case_bool_decide; cbn [negb]; [| naive_solver].
  case_bool_decide; [naive_solver |].
  destruct (neg_lease_constraints r) as [c|]; [| naive_solver].
  destruct (N.eqb_spec (max_seconds c) 0); [naive_solver lia |].
  destruct (clock_read (clock b')) as [t c'].
  change (activations_of (set_clock c' b') agent) with (activations_of b' agent).
  by rewrite Ha', Hs'.
Qed.

(** A successful negotiation opens the gate: after it, every granted
    capability is authorized for the agent at the returned generation, for any
    scope the negotiated scope covers, until the returned expiry. *)
Theorem negotiation_opens_gate agent r b ag b' cap sc :
  broker_grant_from_negotiation agent r b = (Ok ag, b') ->
  cap ∈ neg_granted r -> covers (neg_scope r) sc = true ->
  ((clock_read (clock b')).1 < ag_expires_at ag)%N ->
  (enforce_dispatch cap agent (ag_generation ag) sc b').1 = Ok tt.
Proof.
  intros [E _]%negotiate_established Hcap Hsc Ht. apply gate_open_iff.
  eapply gate_lease; [by apply (est_grant _ _ _ _ E) | done | done | done |].
  eapply verdict_usable; [eexists; by apply (est_lease _ _ _ _ E) |].
  by repeat split.
Qed.

(** ** Takeover *)

Lemma revoke_target_revokes aid rec b t id l :
  leases (revoke_target aid rec b t).2 !! id = Some l ->
  lease_owner l = t.1 -> lease_generation l = t.2 -> is_Some (lease_revoked l).
Proof.
  destruct (revoke_target_frame aid rec b t) as (_ & _ & _ & _ & ->).
  intros (l0 & Hl0 & ->)%fmap_revoke_inv Ho Hg.
  destruct (lease_revoked (revoke_if _ _ l0)) eqn:Hn; [done |].
  apply revoke_if_live in Hn as (Heq & _ & Hp). rewrite Heq in Ho, Hg.
  unfold target_lease in Hp. rewrite Ho, Hg, N.eqb_refl in Hp.
  by rewrite bool_decide_eq_true_2 in Hp.
Qed.

Lemma revoke_targets_keys aid rec ts b id l :
  leases (revoke_targets aid rec ts b).2 !! id = Some l ->
  exists l0, leases b !! id = Some l0 /\ lease_le l0 l.
Proof.
  revert b. induction ts as [|t ts IH]; intros b; [cbn; intros ?; exists l; split; [done | by left] |].
  rewrite revoke_targets_cons. intros (l1 & Hl1 & Hle)%IH.
  destruct (revoke_target_frame aid rec b t) as (_ & _ & _ & _ & Hl). rewrite Hl in Hl1.
  apply fmap_revoke_inv in Hl1 as (l0 & Hl0 & ->). exists l0. split; [done |].
  etrans; [apply revoke_if_le | done].
Qed.

Lemma revoke_targets_revokes aid rec ts b t id l :
  t ∈ ts -> leases (revoke_targets aid rec ts b).2 !! id = Some l ->
  lease_owner l = t.1 -> lease_generation l = t.2 -> is_Some (lease_revoked l).
Proof.
  revert b. induction ts as [|t0 ts IH]; intros b; [by intros []%elem_of_nil |].
  rewrite revoke_targets_cons. intros [<- | Ht]%elem_of_cons; [| by apply IH].
  intros (l0 & Hl0 & [-> | (_ & r & ->)])%revoke_targets_keys Ho Hg; [| done].
  by eapply revoke_target_revokes.
Qed.

Lemma activation_targets_elem b agent aid s :
  activations_of b agent !! aid = Some s -> (agent, act_generation s) ∈ activation_targets b aid.
Proof.
  intros Ha. unfold activation_targets. apply list_elem_of_omap.
  exists (agent, activations_of b agent). split.
  - apply elem_of_map_to_list. unfold activations_of in *.
    destruct (agent_activations b !! agent); [done |]. cbn in Ha. by rewrite lookup_empty in Ha.
  - cbn. by rewrite Ha.
Qed.

Lemma revoke_agent_grants_run {E} aid r b :
  exists t c, revoke_agent_grants (E := E) aid r b =
    (Ok (revoke_targets aid {| reason := r; at_unix_ms := t |} (activation_targets b aid)
           (set_clock c b)).1,
     (revoke_targets aid {| reason := r; at_unix_ms := t |} (activation_targets b aid)
        (set_clock c b)).2).
Proof.
  unfold revoke_agent_grants, now_unix_ms, update. cbv [mbind M_bind gets].
  destruct (clock_read (clock b)) as [t c]. exists t, c.
  change (activation_targets (set_clock c b) aid) with (activation_targets b aid).
  by destruct (revoke_targets _ _ _ _).
Qed.

Lemma revoke_targets_marks aid rec ts b agent gen s :
  (agent, gen) ∈ ts -> activations_of b agent !! aid = Some s ->
  exists s', activations_of (revoke_targets aid rec ts b).2 agent !! aid = Some s' /\
    act_generation s' = act_generation s /\ act_revoked s' = true.
Proof.
  intros Ht Ha. revert b s Ha.
  induction ts as [|t ts IH]; intros b s Ha; [by apply elem_of_nil in Ht |].
  rewrite revoke_targets_cons. apply elem_of_cons in Ht as [<- | Ht].
  - pose proof (revoke_target_view aid rec b (agent, gen) agent) as Hv.
    rewrite decide_True in Hv by done. apply register_view_inv in Hv.
    assert (Hle : register_le (revoke_target aid rec b (agent, gen)).2
                    (revoke_targets aid rec ts (revoke_target aid rec b (agent, gen)).2).2).
    { apply revoke_targets_steps_in; [typeclasses eauto | apply revoke_target_register_le]. }
    destruct (Hle agent aid (mark_revoked s)) as (s' & Hs' & Hg & Hr).
    { by rewrite Hv, lookup_alter_eq, Ha. }
    exists s'. auto.
  - destruct (revoke_target_register_le aid rec b t agent aid s Ha) as (s1 & Ha1 & Hg1 & _).
    destruct (IH Ht _ s1 Ha1) as (s' & ? & ? & ?). exists s'. split_and!; [done | congruence | done].
Qed.

(** The gate is closed right after a revocation. *)
Lemma revoked_gate_closed b agent aid s r cap sc c :
  activations_of b agent !! aid = Some s ->
  let b' := set_clock c (revoke_agent_grants (E := Empty_set) aid r b).2 in
  is_ok (enforce_dispatch cap agent (act_generation s) sc b').1 = false.
Proof.
  intros Ha b'. pose proof (activation_targets_elem b agent aid s Ha) as Ht.
  destruct (revoke_agent_grants_run (E := Empty_set) aid r b) as (t & c1 & Hrun).
  destruct (enforce_dispatch cap agent (act_generation s) sc b').1 as [[]|] eqn:He; [| done].
  apply gate_open_iff, gate_open_inv in He
    as (g & id & l & _ & _ & _ & _ & Hl & ((Hcap & Ho & Hg) & _) & Hn & _).
  subst b'. rewrite Hrun in Hl. cbn in Hl.
  eapply revoke_targets_revokes in Hl; [| exact Ht | done | done].
  destruct Hl as [? Hl]. congruence.
Qed.

(** ** What may happen later *)

(** One later event: an operation of the broker that [ok] allows, or a change of
    what the clock reads. *)
Inductive evolves (ok : broker_op Value -> Prop) : relation (Broker Value C) :=
| evolves_op op b : ok op -> evolves ok b (run_op op b)
| evolves_clock c b : evolves ok b (set_clock c b).

(** Every operation, but for a lease handed out by hand to the agent at that
    generation. *)
Definition no_manual_lease (agent : string) (gen : N) (op : broker_op Value) : Prop :=
  match op with OpLease l => lease_owner l = agent -> lease_generation l <> gen | _ => True end.

(** Every lease of the later state is an earlier one or of the agent at [gen]. *)
Definition leases_from (agent : string) (gen : N) (b b' : Broker Value C) : Prop :=
  forall id l', leases b' !! id = Some l' ->
    (exists l, leases b !! id = Some l /\ lease_le l l') \/
    (lease_owner l' = agent /\ lease_generation l' = gen).

Lemma lease_le_owner l l' :
  lease_le l l' -> lease_owner l' = lease_owner l /\ lease_generation l' = lease_generation l.
Proof. by intros [-> | (_ & r & ->)]. Qed.

#[local] Instance leases_from_preorder agent gen : PreOrder (leases_from agent gen).
Proof.
  split; [intros b id l' Hl'; left; by exists l' |].
  intros b1 b2 b3 H12 H23 id l3 [(l2 & Hl2 & Hle) | ?]%H23; [| by right].
  destruct (H12 id l2 Hl2) as [(l1 & Hl1 & Hle1) | [Ho Hg]].
  - left. exists l1. split; [done | by etrans].
  - right. destruct (lease_le_owner _ _ Hle). split; congruence.
Qed.

Lemma same_leases_from agent gen b b' : leases b' = leases b -> leases_from agent gen b b'.
Proof. intros Heq id l'. rewrite Heq. intros Hl'. left. by exists l'. Qed.

Lemma grant_leases_from agent gen g : steps_in (leases_from agent gen) (grant g : M (Broker Value C) _ _).
Proof.
  intros b. rewrite grant_run. destruct (grants b !! _) as [e|]; [| by apply same_leases_from].
  case_bool_decide; [by apply same_leases_from |]. destruct (_ =? _)%N; [by apply same_leases_from |].
  destruct (clock_read (clock b)) as [t c]. intros id l' (l & Hl & ->)%fmap_revoke_inv.
  left. eauto using revoke_if_le.
Qed.

Lemma lease_leases_from l b : leases_from (lease_owner l) (lease_generation l) b (lease l b).2.
Proof.
  pose proof (lease_run l b) as H. destruct (clock_read (clock b)) as [t c].
  destruct H as [(e & _ & [c' ->] & _) | (-> & _)]; [by apply same_leases_from |].
  intros id l' Hl'. cbn in Hl'. apply lookup_insert_Some in Hl' as [[<- <-] | [_ Hl']]; [by right |]. left. by exists l'.
Qed.

(** A negotiation, refused half way or not, adds no lease but those of the
    activation it was asked for. *)
Lemma negotiate_leases_from agent r b :
  let b' := (broker_grant_from_negotiation agent r b).2 in
  leases b' = leases b \/
  exists gen, leases_from agent gen b b' /\
    activations_of b' agent !! neg_activation_id r = Some {| act_generation := gen; act_revoked := false |}.
Proof.
  unfold broker_grant_from_negotiation, now_unix_ms.
  cbv [mbind M_bind throw_if lift ok_or throw mret M_ret].
  destruct (neg_agreed r); cbn [negb]; [| by left]. destruct (bool_decide (neg_conformance r = Known)); cbn [negb]; [| by left].
  destruct (bool_decide (neg_granted r = [])); [by left |].
  destruct (neg_lease_constraints r) as [k|]; [| by left]. destruct (_ =? 0)%N; [by left |].
  destruct (clock_read (clock b)) as [t c].
  destruct (resolve_generation_frame agent (neg_activation_id r) (set_clock c b)) as (_ & Hl & _).
  destruct (resolve_generation agent (neg_activation_id r) (set_clock c b)) as [[gen|e] b2] eqn:Hres; [| by left].
  apply resolve_generation_ok in Hres as [Ha _]. cbn [snd] in Hl. right. exists gen.
  match goal with |- context [for_each ?f ?xs b2] => pose (gs := for_each f xs); pose proof (eq_refl : gs = for_each f xs) as Hgs end.
  assert (Hg : leases_from agent gen b2 (gs b2).2 /\ same_register b2 (gs b2).2).
  { split; subst gs.
    - apply (steps_in_for_each (leases_from agent gen)). intros cap. apply steps_in_map_err, grant_leases_from.
    - apply (steps_in_for_each same_register). intros cap. apply steps_in_map_err, grant_same_register. }
  rewrite <- Hgs. clear Hgs. destruct (gs b2) as [[[]|] b3]; cbn [snd] in Hg.
  2:{ destruct Hg as [Hf (Hr & _)]. split; [etrans; [by apply same_leases_from | exact Hf] |]. by unfold activations_of in *; cbn [snd]; rewrite Hr. }
  match goal with |- context [for_each ?f ?xs b3] =>
    assert (Hk : leases_from agent gen b3 (for_each f xs b3).2 /\ same_register b3 (for_each f xs b3).2) end.
  { split.
    - apply (steps_in_for_each (leases_from agent gen)). intros cap. apply steps_in_map_err. intros b4.
      exact (lease_leases_from (agent_lease agent (neg_activation_id r) gen (agent_expiry t k) (neg_scope r) cap) b4).
    - apply (steps_in_for_each same_register). intros cap. apply steps_in_map_err, lease_same_register. }
  destruct (for_each _ _ b3) as [[[]|] b4]; cbn [snd] in *; destruct Hg as [Hf (Hr & _)], Hk as [Hf' (Hr' & _)];
    (split; [etrans; [by apply same_leases_from | by etrans] |]; unfold activations_of in *; by rewrite Hr', Hr).
Qed.

(** The activation is marked revoked and none of its leases is live. *)
Definition closed_off (agent aid : string) (gen : N) (b : Broker Value C) : Prop :=
  (exists s, activations_of b agent !! aid = Some s /\ act_generation s = gen /\ act_revoked s = true) /\
  (forall id l, leases b !! id = Some l -> lease_owner l = agent -> lease_generation l = gen ->
     is_Some (lease_revoked l)).

Lemma closed_off_gate agent aid gen b cap sc :
  closed_off agent aid gen b ->
  is_ok (enforce_dispatch cap agent gen sc b).1 = false /\ agent_activation_revoked b agent aid = true.
Proof.
  intros [(s & Hs & _ & Hr) Hrev]. split.
  - destruct (enforce_dispatch cap agent gen sc b).1 as [[]|] eqn:He; [| done].
    apply gate_open_iff, gate_open_inv in He
      as (g & id & l & _ & _ & _ & _ & Hl & ((Hcap & Ho & Hg) & _) & Hn & _).
    destruct (Hrev id l Hl Ho Hg) as [? Hx]. congruence.
  - unfold agent_activation_revoked, activations_of in *.
    destruct (agent_activations b !! agent) as [m|]; cbn in *; [by rewrite Hs | by rewrite lookup_empty in Hs].
Qed.

(** A revocation closes the activation off. *)
Lemma revoke_closes_off b agent aid s r :
  activations_of b agent !! aid = Some s ->
  closed_off agent aid (act_generation s) (revoke_agent_grants (E := Empty_set) aid r b).2.
Proof.
  intros Ha. pose proof (activation_targets_elem b agent aid s Ha) as Ht.
  destruct (revoke_agent_grants_run (E := Empty_set) aid r b) as (t & c & ->). cbn [snd]. split.
  - destruct (revoke_targets_marks aid {| reason := r; at_unix_ms := t |}
                (activation_targets b aid) (set_clock c b) agent _ s Ht Ha) as (s' & Hs' & Hg & Hr). eauto.
  - intros id l Hl Ho Hg. by eapply (revoke_targets_revokes _ _ _ _ (agent, act_generation s)) in Hl.
Qed.

Lemma closed_off_leases agent aid gen b b' :
  register_le b b' ->
  (forall id l', leases b' !! id = Some l' -> lease_owner l' = agent -> lease_generation l' = gen ->
     exists l, leases b !! id = Some l /\ lease_le l l') ->
  closed_off agent aid gen b -> closed_off agent aid gen b'.
Proof.
  intros Hle Hold [(s & Hs & Hg & Hr) Hrev]. split.
  - destruct (Hle agent aid s Hs) as (s' & Hs' & Hg' & Hr'). exists s'. split_and!; [done | congruence | auto].
  - intros id l' Hl' Ho Hgl. destruct (Hold id l' Hl' Ho Hgl) as (l & Hl & Hle'). destruct (lease_le_owner _ _ Hle') as [Eo Eg].
    destruct (Hrev id l Hl) as [x Hx]; [congruence.. |]. by rewrite (lease_le_revoked _ _ _ Hle' Hx), Hx.
Qed.

(** No later operation undoes it. *)
Lemma closed_off_step agent aid gen op b :
  no_manual_lease agent gen op -> register_ok (run_op op b) agent ->
  closed_off agent aid gen b -> closed_off agent aid gen (run_op op b).
Proof.
  intros Hok Hreg Hc. pose proof (run_op_register_le op b) as Hle.
  eapply closed_off_leases; [exact Hle | | exact Hc]. intros id l' Hl' Ho Hg.
  assert (Hold : leases b !! id = Some l' -> exists l, leases b !! id = Some l /\ lease_le l l')
    by (intros ?; exists l'; split; [done | by left]).
  assert (Hsame : forall b1, same_but_clock b b1 -> leases b1 !! id = Some l' ->
    exists l, leases b !! id = Some l /\ lease_le l l') by (intros b1 [c ->] H; by apply Hold).
  destruct op as [p | g | l | i r | cap owner g sc | pid inv | agent' r | aid' r]; cbn [run_op no_manual_lease] in *.
  - rewrite register_provider_run in Hl'. apply Hold. destruct (providers b !! _); exact Hl'.
  - destruct (grant_leases_from agent (N.succ gen) g b id l' Hl') as [? | [_ Eg]]; [done |]. lia.
  - destruct (lease_leases_from l b id l' Hl') as [? | [Eo Eg]]; [done |]. exfalso. by apply Hok; [rewrite <- Eo | rewrite <- Eg].
  - destruct (revoke_run i r b) as (t & c & Hrun). rewrite Hrun in Hl'. exact (alter_revoke_inv _ _ _ _ _ _ Hl').
  - by eapply Hsame; [apply (enforce_dispatch_frame b cap owner g sc) |].
  - by eapply Hsame; [apply (dispatch_same_but_clock pid inv b) |].
  - destruct (negotiate_leases_from agent' r b) as [Heq | (gen' & Hf & Ha)]; [rewrite Heq in Hl'; by apply Hold |].
    destruct (Hf id l' Hl') as [? | [Eo Eg]]; [done |]. exfalso.
    assert (agent' = agent) as -> by congruence. assert (gen' = gen) as -> by congruence. clear Eo.
    destruct Hc as [(s & Hs & Hgs & Hr) _]. destruct (Hle agent aid s Hs) as (s' & Hs' & Hgs' & Hr').
    assert (aid = neg_activation_id r) as -> by (apply (reg_inj _ _ Hreg _ _ _ _ Hs' Ha); cbn; congruence).
    rewrite Ha in Hs'. injection Hs' as <-. by specialize (Hr' Hr).
  - destruct (revoke_agent_grants_run (E := Empty_set) aid' r b) as (t & c & Hrun). rewrite Hrun in Hl'.
    exact (revoke_targets_keys _ _ _ _ _ _ Hl').
Qed.

Lemma evolves_register ok b b' : evolves ok b b' -> register_le b b' /\ (register_wf b -> register_wf b').
Proof.
  intros [op b0 _ | c b0].
  - split; [apply run_op_register_le | apply run_op_register_wf].
  - apply same_register_keeps. done.
Qed.

Lemma evolved_register ok b b' : rtc (evolves ok) b b' -> register_le b b' /\ (register_wf b -> register_wf b').
Proof.
  induction 1 as [b | b1 b2 b3 H12 _ [IHle IHwf]]; [done |].
  apply evolves_register in H12 as [Hle Hwf]. split; [by etrans | auto].
Qed.

Lemma register_le_size b b' agent :
  register_le b b' -> (size (activations_of b agent) <= size (activations_of b' agent))%nat.
Proof.
  intros Hle. rewrite <- !size_dom. apply subseteq_size. intros aid [s Hs]%elem_of_dom.
  destruct (Hle agent aid s Hs) as (s' & Hs' & _). by apply elem_of_dom.
Qed.

(** Closed off once, closed off for good. *)
Lemma closed_off_stays agent aid gen b b' :
  register_wf b -> rtc (evolves (no_manual_lease agent gen)) b b' ->
  (N.of_nat (size (activations_of b' agent)) <= U64_MAX)%N ->
  closed_off agent aid gen b -> closed_off agent aid gen b'.
Proof.
  intros W Hr Hsz. revert W. induction Hr as [b | b1 b2 b3 H12 Hr IH]; intros W Hc; [done |].
  pose proof (evolves_register _ _ _ H12) as [_ Hw]. apply IH; [done | auto |].
  assert (Hreg : register_ok b2 agent).
  { apply Hw; [done |]. pose proof (register_le_size b2 b3 agent (proj1 (evolved_register _ _ _ Hr))). lia. }
  destruct H12 as [op b0 Hok | c b0]; [by apply closed_off_step | exact Hc].
Qed.

Lemma evolved_wf ok c b : rtc (evolves ok) (with_clock c) b -> register_wf b.
Proof. intros [_ Hw]%evolved_register. apply Hw, with_clock_register_wf. Qed.

(** C15.  A takeover or a disconnect closes the gate for good.  Right after the
    activation of an agent is revoked it is marked revoked and no dispatch of that
    agent at that activation's generation is authorized, for any capability, any
    scope and whatever the clock reads.  Both stay so in every later state of the
    broker, whatever negotiations, grants, registrations, dispatches and
    revocations follow and however the clock moves; the two conditions are that no
    lease is handed out by hand to the agent at that generation (the daemon never
    does) and that its 64-bit count of activations has not wrapped. *)
Theorem takeover_closes_gate b agent aid s r cap sc :
  activations_of b agent !! aid = Some s ->
  let b1 := (revoke_agent_grants (E := Empty_set) aid r b).2 in
  let shut b' := is_ok (enforce_dispatch cap agent (act_generation s) sc b').1 = false /\
                 agent_activation_revoked b' agent aid = true in
  (forall c, shut (set_clock c b1)) /\
  (forall c b', rtc (evolves (fun _ => True)) (with_clock c) b ->
     rtc (evolves (no_manual_lease agent (act_generation s))) b1 b' ->
     (N.of_nat (size (activations_of b' agent)) <= U64_MAX)%N -> shut b').
Proof.
  intros Ha b1 shut. pose proof (revoke_closes_off b agent aid s r Ha) as Hc. split.
  - intros c. by apply closed_off_gate.
  - intros c b' Hb Hb' Hsz. apply closed_off_gate. eapply closed_off_stays; [| done | done | exact Hc].
    apply (run_op_register_wf (OpRevokeAgent aid r)). by eapply evolved_wf.
Qed.

(** ** Revoking again *)

Lemma revoke_targets_zero aid rec ts b :
  (forall t id l, t ∈ ts -> leases b !! id = Some l -> lease_owner l = t.1 ->
     lease_generation l = t.2 -> is_Some (lease_revoked l)) ->
  (revoke_targets aid rec ts b).1 = 0%nat.
Proof.
  revert b. induction ts as [|t ts IH]; intros b H; [done |]. cbn [revoke_targets].
  destruct (revoke_target_frame aid rec b t) as (_ & _ & _ & _ & Hl).
  assert (Hz : (revoke_target aid rec b t).1 = 0%nat).
  { destruct t as [agent gen]. cbn [revoke_target fst]. apply map_size_empty_iff.
    apply map_empty. intros id. apply eq_None_not_Some. intros [l [Hid Hb]%map_lookup_filter_Some].
    apply andb_true_iff in Hb as [Ht Hn]. cbn in *.
    unfold target_lease in Ht. rewrite andb_true_iff, bool_decide_eq_true, N.eqb_eq in Ht.
    apply negb_true_iff, is_revoked_false in Hn.
    destruct (H (agent, gen) id l) as [? Hx]; [by left | done | tauto | tauto | congruence]. }
  destruct (revoke_target aid rec b t) as [n b1]. cbn in *. subst n.
  specialize (IH b1). destruct (revoke_targets aid rec ts b1). cbn in *. rewrite IH; [done |].
  intros t' id l' Ht'. rewrite Hl. intros (l & Hid & ->)%fmap_revoke_inv Ho Hg.
  destruct (revoke_if_le (target_lease t.1 t.2) rec l) as [Heq | (_ & r & ->)]; [| done].
  rewrite Heq in *. eapply H; [by right | done..].
Qed.

Lemma revoke_targets_generations aid rec ts b agent aid' s' :
  activations_of (revoke_targets aid rec ts b).2 agent !! aid' = Some s' ->
  exists s, activations_of b agent !! aid' = Some s /\ act_generation s = act_generation s'.
Proof.
  revert b. induction ts as [|t ts IH]; intros b; [cbn; eauto |].
  rewrite revoke_targets_cons. intros (s1 & Hs1 & <-)%IH.
  pose proof (revoke_target_view aid rec b t agent) as Hv. case_decide.
  - apply register_view_inv in Hv. rewrite Hv in Hs1.
    apply lookup_alter_Some in Hs1 as [(<- & s0 & ? & ->) | [_ ?]]; eauto.
  - rewrite (register_view_activations _ _ _ Hv) in Hs1. eauto.
Qed.

Lemma activation_targets_inv b aid t :
  t ∈ activation_targets b aid ->
  exists s, activations_of b t.1 !! aid = Some s /\ t.2 = act_generation s.
Proof.
  unfold activation_targets. intros ([agent m] & Hin & Hs)%list_elem_of_omap.
  apply elem_of_map_to_list in Hin. cbn in Hs.
  destruct (m !! aid) as [s|] eqn:E; [| done]. injection Hs as <-. cbn.
  exists s. unfold activations_of. by rewrite Hin.
Qed.

(** Revoking an activation twice revokes nothing more: the second call
    reports zero leases, whatever the reasons given. *)
Theorem revoke_agent_grants_idempotent b aid r r' :
  (revoke_agent_grants (E := Empty_set) aid r'
     (revoke_agent_grants (E := Empty_set) aid r b).2).1 = Ok 0%nat.
Proof.
  destruct (revoke_agent_grants_run (E := Empty_set) aid r b) as (t & c & ->).
  cbn [snd]. set (b1 := (revoke_targets _ _ _ _).2).
  destruct (revoke_agent_grants_run (E := Empty_set) aid r' b1) as (t' & c' & ->). cbn [fst].
  f_equal. apply revoke_targets_zero. intros tg id l Htg Hl Ho Hg.
  apply activation_targets_inv in Htg as (s' & Hs' & Hgen).
  subst b1. apply revoke_targets_generations in Hs' as (s & Hs & Hg').
  eapply (revoke_targets_revokes _ _ _ _ (tg.1, act_generation s)); [| exact Hl | done |].
  - exact (activation_targets_elem b tg.1 aid s Hs).
  - cbn. congruence.
Qed.

(** ** Replay of the current activation *)

(** The bridge up to the loops, on a result that passes its first checks. *)
Lemma negotiate_unfold agent r b c t cl :
  neg_agreed r = true -> neg_conformance r = Known -> neg_granted r <> [] ->
  neg_lease_constraints r = Some c -> (0 < max_seconds c)%N ->
  clock_read (clock b) = (t, cl) ->
  broker_grant_from_negotiation agent r b =
  (gen ← resolve_generation agent (neg_activation_id r);
   for_each (fun cap => map_err_m BridgeBroker
     (grant (agent_capability_grant agent gen t (neg_scope r) cap))) (neg_granted r);;
   for_each (fun cap => map_err_m BridgeBroker
     (lease (agent_lease agent (neg_activation_id r) gen (agent_expiry t c)
               (neg_scope r) cap))) (neg_granted r);;
   mret {| ag_agent_id := agent; ag_activation_id := neg_activation_id r;
           ag_generation := gen; ag_capabilities := neg_granted r;
           ag_scope := neg_scope r; ag_lease_constraints := Some c;
           ag_expires_at := agent_expiry t c; ag_granted_at := t |}) (set_clock cl b).
Proof.
  intros Ha Hk Hne Hc Hmax Ht. unfold broker_grant_from_negotiation, now_unix_ms.
  rewrite Ha, Hc, Hk. cbn [negb ok_or]. rewrite (bool_decide_eq_true_2 (Known = Known)) by done.
  rewrite (bool_decide_eq_false_2 (neg_granted r = [])) by done.
  cbv [mbind M_bind throw_if lift negb].
  replace (max_seconds c =? 0)%N with false by (symmetry; apply N.eqb_neq; lia).
  by rewrite Ht.
Qed.

(** Replaying the current activation is not an idempotent retry once time
    has passed: if the clock no longer reads the millisecond of the first call,
    the replay fails with a broker [Conflict], because the rebuilt grant differs
    from the stored one in its creation time only. *)
Theorem replay_conflicts_when_clock_moved agent r b ag b' :
  broker_grant_from_negotiation agent r b = (Ok ag, b') ->
  (clock_read (clock b')).1 <> ag_granted_at ag ->
  (broker_grant_from_negotiation agent r b').1 = Err (BridgeBroker Conflict).
Proof.
  intros [E _]%negotiate_established Ht. destruct E as [E1 E2 E3 (c & Ec & Em & _) E4 _ E5 E6].
  destruct (clock_read (clock b')) as [t cl] eqn:Hcl. cbn in Ht.
  rewrite (negotiate_unfold agent r b' c t cl) by done.
  cbv [mbind M_bind].
  rewrite (resolve_generation_current agent _ (set_clock cl b') (ag_generation ag)) by done.
  destruct (neg_granted r) as [|cap caps]; [done |]. cbn [for_each]. cbv [mbind M_bind].
  unfold map_err_m. rewrite grant_run. cbn [set_clock grants grant_capability agent_capability_grant].
  rewrite (E4 cap) by (by left). rewrite bool_decide_eq_false_2 by (intros [= ?]; congruence).
  cbn. by rewrite N.eqb_refl.
Qed.

(** A new generation of a grant takes effect at once: the old grant is
    replaced, every lease of the capability is revoked, and the gate refuses
    every request of the previous generation as stale for the new owner. *)
Theorem generation_change_supersedes g e b sc c :
  grants b !! grant_capability g = Some e -> grant_generation e <> grant_generation g ->
  let '(res, b') := grant g b in
  res = Ok tt /\ grants b' !! grant_capability g = Some g /\
  (forall id l, leases b' !! id = Some l -> lease_capability l = grant_capability g ->
     is_Some (lease_revoked l)) /\
  (enforce_dispatch (grant_capability g) (grant_owner g) (grant_generation e) sc
     (set_clock c b')).1 = Err GenerationMismatch.
Proof.
  intros Hg Hne. rewrite grant_run, Hg. rewrite bool_decide_eq_false_2 by congruence.
  replace (grant_generation e =? grant_generation g)%N with false
    by (symmetry; by apply N.eqb_neq).
  destruct (clock_read (clock b)) as [t cl]. rewrite !enforce_dispatch_value.
  cbn [set_clock set_leases set_grants grants leases clock].
  rewrite lookup_insert_eq, bool_decide_eq_true_2 by done. cbn [negb].
  replace (grant_generation g =? grant_generation e)%N with false
    by (symmetry; apply N.eqb_neq; congruence).
  split_and!; try done.
  intros id l' (l & Hl & ->)%fmap_revoke_inv Hcap.
  destruct (lease_revoked (revoke_if _ _ l)) eqn:Hn; [done |].
  apply revoke_if_live in Hn as (Heq & _ & Hp). rewrite Heq in Hcap.
  by rewrite bool_decide_eq_false in Hp.
Qed.

(** Generations identify activations: in every reachable state two
    activations of one agent have different generations, all between 1 and the
    agent's counter, and the current one is live and has the newest generation
    (while the agent has registered at most [2^64 - 1] activations). *)
Theorem agent_generations_unique b agent :
  reachable b -> (N.of_nat (size (activations_of b agent)) <= U64_MAX)%N ->
  (forall aid aid' s s', activations_of b agent !! aid = Some s ->
     activations_of b agent !! aid' = Some s' ->
     act_generation s = act_generation s' -> aid = aid') /\
  (forall aid s, activations_of b agent !! aid = Some s ->
     (1 <= act_generation s <= default 0 (next_generation b !! agent))%N) /\
  (forall aid, current_activation b !! agent = Some aid ->
     exists s, activations_of b agent !! aid = Some s /\ act_revoked s = false /\
       act_generation s = default 0%N (next_generation b !! agent)).
Proof.
  intros Hr Hsz. destruct (reachable_register_wf b Hr agent Hsz) as [H1 H2 H3 H4].
  rewrite H1. auto.
Qed.
End Props.

(** ** A clock that stands still *)

Section Still.
Context {Value : Type}.
Implicit Types b : Broker Value N.

Definition same_clock (b b' : Broker Value N) : Prop := clock b' = clock b.

#[export] Instance same_clock_preorder : PreOrder same_clock.
Proof. split; [done |]. unfold same_clock. intros ???; congruence. Qed.

Lemma set_clock_self b : set_clock (clock b) b = b.
Proof. by destruct b. Qed.

Lemma negotiate_same_clock agent r b :
  same_clock b (broker_grant_from_negotiation agent r b).2.
Proof.
  revert b. apply (negotiate_steps_in same_clock agent r).
  - done.
  - intros aid b. apply resolve_generation_frame.
  - intros g b. rewrite grant_run. destruct (grants b !! _); [| done].
    case_bool_decide; [done |]. by destruct (_ =? _)%N.
  - intros l b. pose proof (lease_run l b) as H. cbn in H.
    destruct H as [(e & _ & _ & [Hs | Hs]) | (-> & _)]; done.
Qed.

Lemma agent_expiry_future t c :
  (t < U64_MAX)%N -> (0 < max_seconds c)%N -> (t < agent_expiry t c)%N.
Proof. unfold agent_expiry, u64_saturating_add, u64_saturating_mul, U64_MAX. lia. Qed.

(** Under a clock that stands still (the one of the unit tests) replaying
    the current activation is a no-op: the same answer and the same broker. *)
Theorem replay_idempotent_when_clock_still agent r b ag b' :
  broker_grant_from_negotiation agent r b = (Ok ag, b') -> (clock b < U64_MAX)%N ->
  broker_grant_from_negotiation agent r b' = (Ok ag, b').
Proof.
  intros H Hmax. pose proof (negotiate_same_clock agent r b) as Hclk. rewrite H in Hclk.
  pose proof (negotiate_established _ _ _ _ _ H) as [E Hat].
  destruct E as [E1 E2 E3 (c & Ec & Em & Eag) E4 El E5 E6]. cbn in Hat, Hclk.
  rewrite (negotiate_unfold agent r b' c (clock b') (clock b')) by done.
  rewrite set_clock_self. cbv [mbind M_bind].
  rewrite (resolve_generation_current agent _ b' (ag_generation ag)) by done.
  replace (clock b') with (ag_granted_at ag) by (unfold same_clock in Hclk; congruence).
  assert (Hx : ag_expires_at ag = agent_expiry (ag_granted_at ag) c).
  { by rewrite Eag at 1. }
  rewrite <- Hx, for_each_noop.
  2: { intros cap Hcap. apply map_err_m_ok, grant_again. exact (E4 cap Hcap). }
  rewrite for_each_noop.
  2: { intros cap Hcap. apply map_err_m_ok. rewrite lease_again; cbn.
       - by rewrite set_clock_self.
       - eexists. split; [exact (E4 cap Hcap) |]. cbn. auto with dsh.
       - exact (El cap Hcap).
       - rewrite Hx, Hclk, Hat. by apply agent_expiry_future. }
  cbv [mret M_ret]. rewrite Hx. by rewrite <- Eag.
Qed.
End Still.

(** ** Worked instances *)

Definition ex_cap : CapabilityId :=
  {| api_version := "terminal.dsh-desktop.local/v1alpha1"; kind := "Terminal" |}.
Definition ex_scope : Scope :=
  {| session_id := Some "session-1"; workspace := None; domains := []; resources := [] |}.
Definition ex_result (aid : string) : AgentNegotiationResult :=
  {| neg_activation_id := aid; neg_agreed := true; neg_granted := [ex_cap];
     neg_conformance := Known;
     neg_lease_constraints := Some {| max_seconds := 60; approval_required := None |};
     neg_scope := ex_scope |}.
Definition ex_start : Broker unit N := with_clock 1000%N.
Definition ex_issued : Broker unit N :=
  (broker_grant_from_negotiation "agent-1" (ex_result "act-0001") ex_start).2.
Definition ex_taken : Broker unit N :=
  (revoke_agent_grants (E := Empty_set) "act-0001" HumanTakeover ex_issued).2.
Definition ex_lease_id : string := agent_lease_id "agent-1" "act-0001" ex_cap.
Definition ex_live : Lease :=
  agent_lease "agent-1" "act-0001" 1 61000 ex_scope ex_cap.
Definition ex_grant : AgentGrant :=
  {| ag_agent_id := "agent-1"; ag_activation_id := "act-0001"; ag_generation := 1;
     ag_capabilities := [ex_cap]; ag_scope := ex_scope;
     ag_lease_constraints := Some {| max_seconds := 60; approval_required := None |};
     ag_expires_at := 61000; ag_granted_at := 1000 |}.

Lemma ex_issued_reachable : reachable ex_issued.
Proof. exists 1000%N. apply rtc_once. by exists (OpNegotiate "agent-1" (ex_result "act-0001")). Qed.

Lemma lease_scan_order_irrelevant_witness :
  [ex_live; set_revoked {| reason := Expiry; at_unix_ms := 5 |} ex_live]
  ≡ₚ [set_revoked {| reason := Expiry; at_unix_ms := 5 |} ex_live; ex_live] /\
  valid_lease_verdict ex_cap "agent-1" 1 ex_scope 2000 (rev (lease_values ex_issued)) =
  valid_lease_verdict ex_cap "agent-1" 1 ex_scope 2000 (lease_values ex_issued).
Proof.
  split; [apply Permutation_swap |].
  apply (lease_scan_order_irrelevant ex_issued). symmetry. apply Permutation_rev.
Defined.

Lemma live_lease_backed_by_grant_witness :
  lease_id ex_live = ex_lease_id /\
  exists g, grants ex_issued !! lease_capability ex_live = Some g /\
    grant_capability g = lease_capability ex_live /\
    grant_owner g = lease_owner ex_live /\ grant_generation g = lease_generation ex_live /\
    covers (grant_scope g) (lease_scope ex_live) = true.
Proof.
  apply (live_lease_backed_by_grant ex_issued ex_lease_id ex_live);
    [exact ex_issued_reachable | vm_compute; reflexivity | reflexivity].
Defined.

(** A second lease of the same activation. *)
Definition ex_second : Lease :=
  {| lease_id := "second"; lease_capability := ex_cap; lease_owner := "agent-1";
     lease_generation := 1; lease_scope := ex_scope; lease_expires_at := 5000;
     lease_revoked := None |}.
Definition ex_two : Broker unit N := (lease ex_second ex_issued).2.

Lemma live_leases_exclusive_witness :
  lease_owner ex_live = lease_owner ex_second /\ lease_generation ex_live = lease_generation ex_second.
Proof.
  apply (live_leases_exclusive ex_two ex_lease_id ex_live "second" ex_second).
  - destruct ex_issued_reachable as [c Hr]. exists c. eapply rtc_r; [exact Hr |].
    by exists (OpLease ex_second).
  - vm_compute; reflexivity.
  - vm_compute; reflexivity.
  - reflexivity.
  - reflexivity.
  - reflexivity.
Defined.

Lemma revocation_is_durable_witness :
  leases (revoke ex_lease_id Expiry ex_taken).2 !! ex_lease_id =
  Some (set_revoked {| reason := HumanTakeover; at_unix_ms := 1000 |} ex_live).
Proof.
  apply (revocation_is_durable ex_taken _ ex_lease_id _ {| reason := HumanTakeover; at_unix_ms := 1000 |}).
  - apply rtc_once. by exists (OpRevoke ex_lease_id Expiry).
  - vm_compute. reflexivity.
  - reflexivity.
Defined.

Lemma revoked_activation_refused_forever_witness :
  let '(res, b'') := broker_grant_from_negotiation "agent-1" (ex_result "act-0001") ex_taken in
  is_ok res = false /\ grants b'' = grants ex_taken /\ leases b'' = leases ex_taken /\
  (neg_agreed (ex_result "act-0001") = true -> neg_conformance (ex_result "act-0001") = Known ->
   neg_granted (ex_result "act-0001") <> [] ->
   (exists c, neg_lease_constraints (ex_result "act-0001") = Some c /\ (0 < max_seconds c)%N) ->
   res = Err ActivationRevoked).
Proof.
  apply (revoked_activation_refused_forever ex_taken ex_taken "agent-1" (ex_result "act-0001")
           {| act_generation := 1; act_revoked := true |}).
  - apply rtc_refl.
  - vm_compute. reflexivity.
  - reflexivity.
Defined.

Lemma ex_issued_run :
  broker_grant_from_negotiation "agent-1" (ex_result "act-0001") ex_start = (Ok ex_grant, ex_issued).
Proof. vm_compute. reflexivity. Qed.

Lemma negotiation_opens_gate_witness :
  (enforce_dispatch ex_cap "agent-1" 1 ex_scope ex_issued).1 = Ok tt.
Proof.
  apply (negotiation_opens_gate "agent-1" (ex_result "act-0001") ex_start ex_grant ex_issued).
  - exact ex_issued_run.
  - by left.
  - vm_compute. reflexivity.
  - vm_compute. reflexivity.
Defined.

(** After the takeover the agent negotiates the revoked activation again, and is
    refused, then a fresh one. *)
Definition ex_later : Broker unit N :=
  run_op (OpNegotiate "agent-1" (ex_result "act-0002"))
    (set_clock 1500%N (run_op (OpNegotiate "agent-1" (ex_result "act-0001")) ex_taken)).

Lemma takeover_closes_gate_witness :
  is_ok (enforce_dispatch ex_cap "agent-1" 1 ex_scope ex_later).1 = false /\
  agent_activation_revoked ex_later "agent-1" "act-0001" = true.
Proof.
  apply (proj2 (takeover_closes_gate ex_issued "agent-1" "act-0001"
           {| act_generation := 1; act_revoked := false |} HumanTakeover ex_cap ex_scope
           ltac:(vm_compute; reflexivity)) 1000%N).
  - change ex_issued with (run_op (OpNegotiate "agent-1" (ex_result "act-0001")) ex_start).
    apply rtc_once. by constructor.
  - do 2 (eapply rtc_l; [by constructor |]). apply rtc_once. by constructor.
  - apply (bool_decide_unpack _). vm_compute. exact I.
Defined.

(** The system clock one millisecond later: the replay is a conflict. *)
Definition ex_sys_start : Broker unit SystemClock :=
  with_clock {| os_ms := fun i => (1000 + Z.of_nat i)%Z; os_tick := 0 |}.
Definition ex_sys_issued : Broker unit SystemClock :=
  (broker_grant_from_negotiation "agent-1" (ex_result "act-0001") ex_sys_start).2.

Lemma replay_conflicts_when_clock_moved_witness :
  (broker_grant_from_negotiation "agent-1" (ex_result "act-0001") ex_sys_issued).1
  = Err (BridgeBroker Conflict).
Proof.
  apply (replay_conflicts_when_clock_moved "agent-1" (ex_result "act-0001") ex_sys_start ex_grant).
  - vm_compute. reflexivity.
  - vm_compute. discriminate.
Defined.

Definition ex_new_grant : CapabilityGrant :=
  agent_capability_grant "agent-1" 2 1000 ex_scope ex_cap.

Lemma generation_change_supersedes_witness :
  let '(res, b') := grant ex_new_grant ex_issued in
  res = Ok tt /\ grants b' !! grant_capability ex_new_grant = Some ex_new_grant /\
  (forall id l, leases b' !! id = Some l -> lease_capability l = grant_capability ex_new_grant ->
     is_Some (lease_revoked l)) /\
  (enforce_dispatch (grant_capability ex_new_grant) (grant_owner ex_new_grant) 1 ex_scope
     (set_clock 2000%N b')).1 = Err GenerationMismatch.
Proof.
  apply (generation_change_supersedes ex_new_grant
           (agent_capability_grant "agent-1" 1 1000 ex_scope ex_cap) ex_issued ex_scope 2000%N).
  - vm_compute. reflexivity.
  - discriminate.
Defined.

Lemma agent_generations_unique_witness :
  exists s, activations_of ex_issued "agent-1" !! "act-0001" = Some s /\ act_revoked s = false.
Proof.
  destruct (agent_generations_unique ex_issued "agent-1") as (_ & _ & Hcur).
  - exact ex_issued_reachable.
  - vm_compute. discriminate.
  - destruct (Hcur "act-0001") as (s & Hs & Hlive & _); [vm_compute; reflexivity |].
    exists s. split; [exact Hs | exact Hlive].
Defined.

Lemma replay_idempotent_when_clock_still_witness :
  broker_grant_from_negotiation "agent-1" (ex_result "act-0001") ex_issued = (Ok ex_grant, ex_issued).
Proof.
  apply (replay_idempotent_when_clock_still "agent-1" (ex_result "act-0001") ex_start ex_grant).
  - exact ex_issued_run.
  - vm_compute. reflexivity.
Defined.
