(* ===== verification/Framing.v ===== *)
(** * Length-prefixed framing

    Model of [crates/local-transport/src/framing.rs] and [limits.rs].  A reader
    is the script of what its successive [read] calls will deliver: a chunk of
    bytes of any size, an interruption, an error; the end of the script is the
    peer's EOF.  The theorems hold for every fragmentation of the stream. *)
From S2P Require Import Prelude Text.
From stdpp Require Import base list option.
From Stdlib Require Import NArith ZArith Lia Strings.Byte.

(** ** Constants and errors *)

(** [usize] and [u64] lengths are [N]. *)
Definition MAX_FRAME_BYTES : N := 64 * 1024.
Definition LENGTH_PREFIX_BYTES : nat := 4.

Inductive FrameError :=
| Oversized (declared max : N)
| Truncated (expected got : N).

(** The kinds of [io::ErrorKind] the transport distinguishes. *)
Inductive ErrorKind := Interrupted | WouldBlock | TimedOut | OtherKind.

Inductive FrameReadError :=
| Frame (e : FrameError)
| Io (k : ErrorKind).

#[export] Instance FrameError_eq_dec : EqDecision FrameError.
Proof. solve_decision. Defined.
#[export] Instance ErrorKind_eq_dec : EqDecision ErrorKind.
Proof. solve_decision. Defined.
#[export] Instance FrameReadError_eq_dec : EqDecision FrameReadError.
Proof. solve_decision. Defined.

(** [Limits]; durations are in milliseconds. *)
Record Limits := {
  max_frame_bytes : N;
  handshake_deadline : N;
  read_deadline : N;
  write_deadline : N;
  max_connections : N
}.

(** [impl Default for Limits] *)
Definition default_limits : Limits :=
  {| max_frame_bytes := MAX_FRAME_BYTES; handshake_deadline := 10000;
     read_deadline := 30000; write_deadline := 30000; max_connections := 8 |}.

(** ** Little-endian lengths *)

Fixpoint le_bytes (k : nat) (n : N) : list byte :=
  match k with
  | O => []
  | S k => byte_of n :: le_bytes k (n / 256)
  end.

Fixpoint le_value (bs : list byte) : N :=
  match bs with
  | [] => 0
  | b :: bs => Byte.to_N b + 256 * le_value bs
  end.

(** [as u32]: truncation to 32 bits. *)
Definition as_u32 (n : N) : N := n mod 2 ^ 32.
Definition u32_to_le_bytes (n : N) : list byte := le_bytes 4 n.
Definition u32_from_le_bytes (bs : list byte) : N := le_value bs.

Definition len (bs : list byte) : N := N.of_nat (length bs).

(** ** Encoding *)

(** [encode_frame] *)
Definition encode_frame (payload : list byte) : list byte :=
  u32_to_le_bytes (as_u32 (len payload)) ++ payload.

(** [encode_frame_checked] *)
Definition encode_frame_checked (payload : list byte) (max : N) :
    result FrameError (list byte) :=
  if (max <? len payload)%N then Err (Oversized (len payload) max)
  else Ok (encode_frame payload).

(** ** Decoding *)

(** What one [read] call delivers. *)
Inductive read_event :=
| Chunk (bs : list byte)
| Fails (k : ErrorKind).

Definition reader := list read_event.

(** [read_some]: fill a buffer of [n] bytes as far as possible.  An empty chunk
    is [Ok(0)], the end of the stream; a chunk longer than the rest of the
    buffer leaves its tail for the next call. *)
Fixpoint read_some (r : reader) (n : nat) {struct r} : result ErrorKind (list byte) * reader :=
  match n with
  | O => (Ok [], r)
  | _ =>
      match r with
      | [] => (Ok [], [])
      | Chunk [] :: r' => (Ok [], r')
      | Chunk bs :: r' =>
          if (length bs <=? n)%nat then
            let '(res, r'') := read_some r' (n - length bs) in
            (match res with Ok rest => Ok (bs ++ rest) | Err k => Err k end, r'')
          else (Ok (take n bs), Chunk (drop n bs) :: r')
      | Fails Interrupted :: r' => read_some r' n
      | Fails k :: r' => (Err k, r')
      end
  end.

(** [read_frame] *)
Definition read_frame (max : N) : M reader FrameReadError (option (list byte)) := fun r =>
  match read_some r LENGTH_PREFIX_BYTES with
  | (Err k, r) => (Err (Io k), r)
  | (Ok prefix, r) =>
      let got := len prefix in
      if (got =? 0)%N then (Ok None, r)
      else if (got <? 4)%N then (Err (Frame (Truncated 4 got)), r)
      else
        let declared := u32_from_le_bytes prefix in
        if (max <? declared)%N then (Err (Frame (Oversized declared max)), r)
        else
          match read_some r (N.to_nat declared) with
          | (Err k, r) => (Err (Io k), r)
          | (Ok payload, r) =>
              if (len payload <? declared)%N
              then (Err (Frame (Truncated declared (len payload))), r)
              else (Ok (Some payload), r)
          end
  end.

(** Reading frames until the first outcome that is not a frame, as the
    connection loops do. *)
Fixpoint read_frames (fuel : nat) (max : N) (r : reader) :
    list (list byte) * result FrameReadError unit :=
  match fuel with
  | O => ([], Ok tt)
  | S fuel =>
      match read_frame max r with
      | (Ok (Some p), r') => let '(ps, e) := read_frames fuel max r' in (p :: ps, e)
      | (Ok None, _) => ([], Ok tt)
      | (Err e, _) => ([], Err e)
      end
  end.

(** ** Streams without errors *)

(** All bytes a reader will deliver. *)
Fixpoint bytes_of (r : reader) : list byte :=
  match r with
  | [] => []
  | Chunk bs :: r => bs ++ bytes_of r
  | Fails _ :: r => bytes_of r
  end.

(** Only non-empty chunks and interruptions. *)
Definition clean (r : reader) : Prop :=
  Forall (fun e => match e with Chunk bs => bs <> [] | Fails k => k = Interrupted end) r.

(** ** Lemmas *)

Lemma le_value_bytes k n : le_value (le_bytes k n) = (n mod 256 ^ N.of_nat k)%N.
Proof.
  revert n. induction k as [|k IH]; intros n; cbn [le_bytes le_value].
  { by rewrite N.mod_1_r. }
  rewrite to_N_byte_of, IH, Nat2N.inj_succ, N.pow_succ_r'.
  rewrite N.Div0.mod_mul_r. lia.
Qed.

Lemma length_le_bytes k n : length (le_bytes k n) = k.
Proof. revert n. induction k; intros n; cbn; auto. Qed.

Lemma u32_round_trip n : (n < 2 ^ 32)%N -> u32_from_le_bytes (u32_to_le_bytes n) = n.
Proof.
  intros H. unfold u32_from_le_bytes, u32_to_le_bytes. rewrite le_value_bytes.
  apply N.mod_small. done.
Qed.

Lemma clean_cons e r :
  clean (e :: r) ->
  match e with Chunk bs => bs <> [] | Fails k => k = Interrupted end /\ clean r.
Proof. by inversion 1. Qed.

(** [read_some] on a stream without errors takes a prefix of its bytes. *)
Lemma read_some_clean r n :
  clean r ->
  exists r', read_some r n = (Ok (take n (bytes_of r)), r') /\
    clean r' /\ bytes_of r' = drop n (bytes_of r).
Proof.
  revert n. induction r as [|[bs|k] r IH]; intros n Hc.
  - destruct n; cbn; [by exists [] |]. exists []. split_and!; done.
  - destruct (clean_cons _ _ Hc) as [Hne Hc']. destruct n as [|n].
    { exists (Chunk bs :: r). cbn [read_some]. split_and!; [by rewrite take_0 | by constructor | by rewrite drop_0]. }
    destruct bs as [|b bs]; [done |]. cbn [read_some bytes_of].
    destruct (Nat.leb_spec (length (b :: bs)) (S n)) as [Hle | Hgt].
    + destruct (IH (S n - length (b :: bs))%nat Hc') as (r' & -> & Hc1 & Hd).
      exists r'. rewrite take_app_ge, drop_app_ge by done. done.
    + exists (Chunk (drop (S n) (b :: bs)) :: r). split_and!.
      * by rewrite take_app_le by lia.
      * constructor; [| done]. intros Hd%(f_equal length). rewrite length_drop in Hd. cbn in *. lia.
      * cbn [bytes_of]. by rewrite drop_app_le by lia.
  - destruct (clean_cons _ _ Hc) as [-> Hc']. destruct n as [|n]; cbn.
    { exists (Fails Interrupted :: r). split_and!; [done | by constructor | done]. }
    destruct (IH (S n) Hc') as (r' & Heq & Hc1 & Hd). by exists r'.
Qed.

Lemma len_app a b : len (a ++ b) = (len a + len b)%N.
Proof. unfold len. rewrite length_app. lia. Qed.

Lemma len_take n bs : len (take n bs) = N.min (N.of_nat n) (len bs).
Proof. unfold len. rewrite length_take. lia. Qed.

Lemma take_drop_encoded p rest :
  take 4 (encode_frame p ++ rest) = u32_to_le_bytes (as_u32 (len p)) /\
  drop 4 (encode_frame p ++ rest) = p ++ rest.
Proof.
  unfold encode_frame, u32_to_le_bytes. rewrite <- app_assoc. split.
  - by rewrite take_app_length' by (by rewrite length_le_bytes).
  - by rewrite drop_app_length' by (by rewrite length_le_bytes).
Qed.

(** ** The reference decoder

    What [read_frame] promises of the bytes alone: the outcome and the bytes
    that remain on the connection. *)
Definition decode (max : N) (bs : list byte) :
    result FrameReadError (option (list byte)) * list byte :=
  let head := take 4 bs in
  let tail := drop 4 bs in
  if (len bs =? 0)%N then (Ok None, [])
  else if (len bs <? 4)%N then (Err (Frame (Truncated 4 (len bs))), [])
  else if (max <? le_value head)%N then (Err (Frame (Oversized (le_value head) max)), tail)
  else if (len tail <? le_value head)%N
  then (Err (Frame (Truncated (le_value head) (len tail))), [])
  else (Ok (Some (take (N.to_nat (le_value head)) tail)), drop (N.to_nat (le_value head)) tail).

Lemma len_0 bs : len bs = 0%N -> bs = [].
Proof. destruct bs; [done |]. unfold len. cbn. lia. Qed.

Lemma drop_all_short n (bs : list byte) : (len bs <= N.of_nat n)%N -> drop n bs = [].
Proof. unfold len. intros. apply drop_ge. lia. Qed.

Lemma read_frame_decode max r :
  clean r ->
  exists r', read_frame max r = ((decode max (bytes_of r)).1, r') /\
    clean r' /\ bytes_of r' = (decode max (bytes_of r)).2.
Proof.
  intros Hc. unfold read_frame, decode, LENGTH_PREFIX_BYTES, u32_from_le_bytes.
  destruct (read_some_clean r 4 Hc) as (r1 & -> & Hc1 & Hb1).
  rewrite len_take. set (bs := bytes_of r) in *.
  replace (N.min (N.of_nat 4) (len bs) =? 0)%N with (len bs =? 0)%N
    by (apply eq_true_iff_eq; rewrite !N.eqb_eq; lia).
  destruct (N.eqb_spec (len bs) 0) as [H0 | H0].
  { exists r1. split_and!; [done.. |]. rewrite Hb1. apply drop_all_short. lia. }
  replace (N.min (N.of_nat 4) (len bs) <? 4)%N with (len bs <? 4)%N
    by (apply eq_true_iff_eq; rewrite !N.ltb_lt; lia).
  destruct (N.ltb_spec (len bs) 4) as [H4 | H4].
  { exists r1. split_and!; [| done |].
    - cbn. do 4 f_equal. lia.
    - rewrite Hb1. apply drop_all_short. lia. }
  destruct (_ <? _)%N; [by exists r1 |].
  destruct (read_some_clean r1 (N.to_nat (le_value (take 4 bs))) Hc1) as (r2 & -> & Hc2 & Hb2).
  rewrite Hb1 in Hb2 |- *. rewrite len_take, N2Nat.id.
  set (d := le_value (take 4 bs)) in *. set (tl := drop 4 bs) in *.
  replace (N.min d (len tl) <? d)%N with (len tl <? d)%N
    by (apply eq_true_iff_eq; rewrite !N.ltb_lt; lia).
  exists r2. destruct (N.ltb_spec (len tl) d) as [Hd | Hd]; cbn [fst snd].
  - split_and!; [do 4 f_equal; lia | done |]. rewrite Hb2. apply drop_all_short. lia.
  - done.
Qed.

Lemma decode_encoded max p rest :
  (len p <= max)%N -> (len p < 2 ^ 32)%N ->
  decode max (encode_frame p ++ rest) = (Ok (Some p), rest).
Proof.
  intros Hmax H32. unfold decode.
  destruct (take_drop_encoded p rest) as [-> ->].
  assert (Hv : le_value (u32_to_le_bytes (as_u32 (len p))) = len p).
  { unfold as_u32. rewrite N.mod_small by done. by apply u32_round_trip. }
  rewrite Hv. clear Hv.
  assert (Hl : (4 <= len (encode_frame p ++ rest))%N).
  { unfold encode_frame, u32_to_le_bytes, len. rewrite !length_app, length_le_bytes. lia. }
  destruct (N.eqb_spec (len (encode_frame p ++ rest)) 0); [lia |].
  destruct (N.ltb_spec (len (encode_frame p ++ rest)) 4); [lia |].
  destruct (N.ltb_spec max (len p)); [lia |].
  rewrite len_app. destruct (N.ltb_spec (len p + len rest) (len p)); [lia |].
  unfold len. rewrite Nat2N.id. by rewrite take_app_length, drop_app_length.
Qed.

Lemma decode_oversized max p rest :
  (max < len p)%N -> (len p < 2 ^ 32)%N ->
  decode max (encode_frame p ++ rest) = (Err (Frame (Oversized (len p) max)), p ++ rest).
Proof.
  intros Hmax H32. unfold decode.
  destruct (take_drop_encoded p rest) as [-> ->].
  assert (Hv : le_value (u32_to_le_bytes (as_u32 (len p))) = len p).
  { unfold as_u32. rewrite N.mod_small by done. by apply u32_round_trip. }
  rewrite Hv. clear Hv.
  assert (Hl : (4 <= len (encode_frame p ++ rest))%N).
  { unfold encode_frame, u32_to_le_bytes, len. rewrite !length_app, length_le_bytes. lia. }
  destruct (N.eqb_spec (len (encode_frame p ++ rest)) 0); [lia |].
  destruct (N.ltb_spec (len (encode_frame p ++ rest)) 4); [lia |].
  by destruct (N.ltb_spec max (len p)); [| lia].
Qed.

Lemma read_frames_cons fuel max r p r' :
  read_frame max r = (Ok (Some p), r') ->
  read_frames (S fuel) max r = (p :: (read_frames fuel max r').1, (read_frames fuel max r').2).
Proof. intros H. cbn [read_frames]. rewrite H. by destruct (read_frames fuel max r'). Qed.

(** ** Properties *)

(** C25.  On every stream of non-empty chunks and interruptions, however it is
    cut, [read_frame] returns exactly what the reference decoder says of the
    concatenated bytes: no frame on a clean EOF, [Truncated] with the counts of
    bytes wanted and got, [Oversized] with no payload byte consumed, or the
    payload; and it leaves exactly the undecoded bytes on the connection. *)
Theorem read_frame_refines_decode max r :
  clean r ->
  exists r', read_frame max r = ((decode max (bytes_of r)).1, r') /\
    clean r' /\ bytes_of r' = (decode max (bytes_of r)).2.
Proof. apply read_frame_decode. Qed.

(** Any sequence of payloads within the limit, framed by [encode_frame]
    and delivered in any fragmentation, is read back in order, and the
    connection then ends cleanly. *)
Theorem frames_round_trip max ps r :
  (max < 2 ^ 32)%N -> Forall (fun p => len p <= max)%N ps ->
  clean r -> bytes_of r = concat (encode_frame <$> ps) ->
  read_frames (S (length ps)) max r = (ps, Ok tt).
Proof.
  intros H32 Hps. revert r. induction Hps as [|p ps Hp Hps IH]; intros r Hc Hb.
  - destruct (read_frame_decode max r Hc) as (r' & Hr & _ & _).
    rewrite Hb in Hr. cbn in *. by rewrite Hr.
  - destruct (read_frame_decode max r Hc) as (r' & Hr & Hc' & Hb').
    rewrite Hb in Hr, Hb'. cbn [fmap list_fmap concat] in Hr, Hb'.
    rewrite decode_encoded in Hr, Hb' by lia. cbn [fst snd] in Hr, Hb'.
    cbn [length]. by rewrite (read_frames_cons _ _ _ _ _ Hr), (IH r' Hc' Hb').
Qed.

(** Writer and reader agree on the limit: with the same [max], a payload
    is accepted by [encode_frame_checked] exactly when the reader accepts its
    frame, and both sides report the same [Oversized] otherwise. *)
Theorem writer_reader_agree_on_limit max p r :
  (len p < 2 ^ 32)%N -> clean r -> bytes_of r = encode_frame p ->
  match encode_frame_checked p max with
  | Ok f => f = bytes_of r /\ exists r', read_frame max r = (Ok (Some p), r')
  | Err e => exists r', read_frame max r = (Err (Frame e), r') /\ bytes_of r' = p
  end.
Proof.
  intros H32 Hc Hb. destruct (read_frame_decode max r Hc) as (r' & Hr & _ & Hb').
  rewrite Hb, <- (app_nil_r (encode_frame p)) in Hr, Hb'. unfold encode_frame_checked.
  destruct (N.ltb_spec max (len p)) as [Hlt | Hge].
  - rewrite decode_oversized in Hr, Hb' by done. exists r'. by rewrite app_nil_r in Hb'.
  - rewrite decode_encoded in Hr by done. split; [done | by exists r'].
Qed.

(** ** Witnesses *)

Definition sample_reader : reader :=
  [Chunk [x02]; Fails Interrupted; Chunk [x00; x00; x00; x68]; Chunk [x69; x00; x00];
   Chunk [x00; x00]].

Lemma sample_clean : clean sample_reader.
Proof. repeat constructor; discriminate. Qed.

Lemma read_frame_refines_decode_witness :
  exists r', read_frame 64 sample_reader = (Ok (Some [x68; x69]), r').
Proof.
  destruct (read_frame_refines_decode 64 sample_reader sample_clean) as (r' & H & _).
  exists r'. exact H.
Defined.

Lemma frames_round_trip_witness :
  read_frames 3 64 sample_reader = ([[x68; x69]; []], Ok tt).
Proof.
  apply (frames_round_trip 64 [[x68; x69]; []] sample_reader);
    [done | repeat constructor; done | exact sample_clean | reflexivity].
Defined.

Lemma writer_reader_agree_on_limit_witness :
  exists r', read_frame 1 [Chunk [x02; x00; x00; x00; x68; x69]]
    = (Err (Frame (Oversized 2 1)), r') /\ bytes_of r' = [x68; x69].
Proof.
  apply (writer_reader_agree_on_limit 1 [x68; x69] [Chunk [x02; x00; x00; x00; x68; x69]]);
    [done | repeat constructor; discriminate | reflexivity].
Defined.
