(* ===== verification/Credential.v ===== *)
(** * Ephemeral credentials and the connection handshake

    Model of [crates/local-transport/src/credential.rs], [handshake.rs],
    [error.rs], [client.rs] and the handshake half of [server.rs].  Time is an
    argument of every operation that reads the clock; the random bytes of a
    token are an argument of [issue].  [serde_json] is a parameter: [to_vec] of
    the two hello messages and [from_slice] back. *)
From S2P Require Import Prelude Framing.
From stdpp Require Import base gmap strings list option.
From Stdlib Require Import NArith ZArith Lia Strings.Byte Ascii.

(** ** Tokens *)

Definition TOKEN_PREFIX : string := "lt_".
Definition TOKEN_HEX_CHARS : nat := 32.

(** A credential; [SystemTime] values are instants on a line of ticks. *)
Record Credential := { token : string; expires_at : N }.

Definition is_expired_at (c : Credential) (now : N) : bool := (expires_at c <=? now)%N.

(** One digit of [{:x}]. *)
Definition hex_digit (n : N) : ascii :=
  ascii_of_N (if (n <? 10)%N then 48 + n else 87 + n).

(** [hex]: two digits per byte. *)
Fixpoint hex (bytes : list byte) : string :=
  match bytes with
  | [] => EmptyString
  | b :: bs =>
      String (hex_digit (Byte.to_N b / 16)) (String (hex_digit (Byte.to_N b mod 16)) (hex bs))
  end.

(** [CredentialIssuer::issue] with the bytes [getrandom] filled in. *)
Definition issue (bytes : list byte) (now ttl : N) : Credential :=
  {| token := TOKEN_PREFIX +:+ hex bytes; expires_at := now + ttl |}.

(** [u8::is_ascii_hexdigit] *)
Definition is_ascii_hexdigit (c : ascii) : bool :=
  let n := N_of_ascii c in
  ((48 <=? n) && (n <=? 57) || (65 <=? n) && (n <=? 70) || (97 <=? n) && (n <=? 102))%N.

(** [str::strip_prefix] *)
Fixpoint strip_prefix (p s : string) : option string :=
  match p, s with
  | EmptyString, s => Some s
  | String a p, String b s => if Ascii.eqb a b then strip_prefix p s else None
  | String _ _, EmptyString => None
  end.

Fixpoint string_forallb (f : ascii -> bool) (s : string) : bool :=
  match s with EmptyString => true | String c s => f c && string_forallb f s end.

(** [CredentialIssuer::is_valid_format] *)
Definition is_valid_format (tok : string) : bool :=
  match strip_prefix TOKEN_PREFIX tok with
  | None => false
  | Some rest => (String.length rest =? TOKEN_HEX_CHARS)%nat && string_forallb is_ascii_hexdigit rest
  end.

Inductive AuthError := Invalid | Replay | Stale | Malformed.

#[export] Instance AuthError_eq_dec : EqDecision AuthError.
Proof. solve_decision. Defined.

(** ** The credential registry of the server *)

Record IssuedCredential := { ic_expires_at : N; used : bool }.

#[export] Instance IssuedCredential_eq_dec : EqDecision IssuedCredential.
Proof. solve_decision. Defined.

(** The part of [ServerState] behind the credential lock, with the two
    counters of [ServerStats] it drives. *)
Record Registry := {
  credentials : gmap string IssuedCredential;
  credentials_issued : N;
  credentials_consumed : N
}.

Definition empty_registry : Registry :=
  {| credentials := ∅; credentials_issued := 0; credentials_consumed := 0 |}.

Definition sweep (now : N) (m : gmap string IssuedCredential) : gmap string IssuedCredential :=
  filter (fun kv => used kv.2 = false /\ (now < ic_expires_at kv.2)%N) m.

(** [LocalServer::issue_credential]: [now0] is the clock the issuer read,
    [now] the one read under the lock. *)
Definition issue_credential (bytes : list byte) (now0 now ttl : N) (s : Registry) :
    Credential * Registry :=
  let credential := issue bytes now0 ttl in
  (credential,
   {| credentials :=
        <[token credential := {| ic_expires_at := expires_at credential; used := false |}]>
          (sweep now (credentials s));
      credentials_issued := u64_add (credentials_issued s) 1;
      credentials_consumed := credentials_consumed s |}).

(** [authenticate] *)
Definition authenticate (now : N) (tok : string) : M Registry AuthError unit := fun s =>
  if negb (is_valid_format tok) then (Err Malformed, s) else
  match credentials s !! tok with
  | None => (Err Invalid, s)
  | Some entry =>
      if (ic_expires_at entry <=? now)%N then
        (Err Stale,
         {| credentials := delete tok (credentials s);
            credentials_issued := credentials_issued s;
            credentials_consumed := credentials_consumed s |})
      else if used entry then (Err Replay, s)
      else
        (Ok tt,
         {| credentials :=
              <[tok := {| ic_expires_at := ic_expires_at entry; used := true |}]> (credentials s);
            credentials_issued := credentials_issued s;
            credentials_consumed := u64_add (credentials_consumed s) 1 |})
  end.

(** ** Transport errors and handshake messages *)

Inductive TransportError :=
| TIo (k : ErrorKind)
| TAuth (e : AuthError)
| TBusy
| TClosed
| TOversized (declared max : N)
| TProtocol (e : FrameError)
| TSerialization.

(** [is_timeout_kind] *)
Definition is_timeout_kind (k : ErrorKind) : bool :=
  match k with WouldBlock | TimedOut => true | _ => false end.

(** [TransportError::is_timeout] *)
Definition is_timeout (e : TransportError) : bool :=
  match e with TIo k => is_timeout_kind k | _ => false end.

(** [TransportError::from_reason] *)
Definition from_reason (reason : option string) : TransportError :=
  match reason with
  | Some r =>
      if String.eqb r "invalid" then TAuth Invalid
      else if String.eqb r "replay" then TAuth Replay
      else if String.eqb r "stale" then TAuth Stale
      else if String.eqb r "malformed" then TAuth Malformed
      else if String.eqb r "busy" then TBusy
      else TAuth Malformed
  | None => TAuth Malformed
  end.

(** [reason_str] *)
Definition reason_str (e : AuthError) : string :=
  match e with
  | Invalid => "invalid" | Replay => "replay" | Stale => "stale" | Malformed => "malformed"
  end.

(** [impl From<FrameReadError> for TransportError] *)
Definition from_frame_read_error (e : FrameReadError) : TransportError :=
  match e with Io k => TIo k | Frame f => TProtocol f end.

Record ClientHello := { ch_token : string }.
Record ServerHello := { accepted : bool; reason : option string }.

Inductive HandshakeResult :=
| HAuthenticated
| HRejected (e : AuthError)
| HClosed
| HTimedOut
| HProtocol
| HIo.

Section Handshake.
(** [serde_json::to_vec] and [from_slice] at the two hello types. *)
Context (hello_to_vec : ClientHello -> option (list byte))
        (hello_from_slice : list byte -> option ClientHello)
        (ack_to_vec : ServerHello -> option (list byte))
        (ack_from_slice : list byte -> option ServerHello).

(** [perform_handshake] *)
Definition perform_handshake (limits : Limits) (now : N) (r : reader) (s : Registry) :
    HandshakeResult * reader * Registry :=
  match read_frame (max_frame_bytes limits) r with
  | (Ok (Some bytes), r) =>
      match hello_from_slice bytes with
      | Some hello =>
          match authenticate now (ch_token hello) s with
          | (Ok tt, s) => (HAuthenticated, r, s)
          | (Err e, s) => (HRejected e, r, s)
          end
      | None => (HRejected Malformed, r, s)
      end
  | (Ok None, r) => (HClosed, r, s)
  | (Err (Io k), r) => ((if is_timeout_kind k then HTimedOut else HIo), r, s)
  | (Err (Frame _), r) => (HProtocol, r, s)
  end.

(** [write_handshake_reply] on a stream that accepts writes: the bytes sent,
    [None] when serialization fails and nothing is written. *)
Definition write_handshake_reply (acc : bool) (why : option string) : option (list byte) :=
  match ack_to_vec {| accepted := acc; reason := why |} with
  | Some bytes => Some (encode_frame bytes)
  | None => None
  end.

(** The reply [connection_worker] and [reject_busy] send for each outcome. *)
Definition handshake_reply (h : HandshakeResult) : option (list byte) :=
  match h with
  | HAuthenticated => write_handshake_reply true None
  | HRejected e => write_handshake_reply false (Some (reason_str e))
  | HProtocol => write_handshake_reply false (Some "malformed")
  | HClosed | HTimedOut | HIo => None
  end.

(** [LocalClient::connect_stream] up to the write of the hello. *)
Definition client_hello_frame (credential : Credential) (limits : Limits) :
    result TransportError (list byte) :=
  match hello_to_vec {| ch_token := token credential |} with
  | None => Err TSerialization
  | Some payload =>
      match encode_frame_checked payload (max_frame_bytes limits) with
      | Err e => Err (TProtocol e)
      | Ok frame => Ok frame
      end
  end.

(** [LocalClient::connect_stream] from the read of the ack on. *)
Definition client_read_ack (limits : Limits) (r : reader) : result TransportError unit * reader :=
  match read_frame (max_frame_bytes limits) r with
  | (Err e, r) => (Err (from_frame_read_error e), r)
  | (Ok None, r) => (Err TClosed, r)
  | (Ok (Some bytes), r) =>
      match ack_from_slice bytes with
      | None => (Err TSerialization, r)
      | Some ack => ((if accepted ack then Ok tt else Err (from_reason (reason ack))), r)
      end
  end.
End Handshake.

(** [LocalClient::send] (and, with the connection's [max_frame], the local
    check of [ServerConn::send]): the bytes handed to the carrier. *)
Definition client_send (limits : Limits) (payload : list byte) : result TransportError (list byte) :=
  if (max_frame_bytes limits <? len payload)%N
  then Err (TOversized (len payload) (max_frame_bytes limits))
  else Ok (encode_frame payload).

(** [LocalClient::recv] *)
Definition client_recv (limits : Limits) : M reader TransportError (option (list byte)) := fun r =>
  match read_frame (max_frame_bytes limits) r with
  | (Ok o, r) => (Ok o, r)
  | (Err e, r) => (Err (from_frame_read_error e), r)
  end.

(** [LocalClient::recv_timeout]: a deadline expiry is not an error. *)
Definition client_recv_timeout (limits : Limits) : M reader TransportError (option (list byte)) :=
  fun r =>
  match read_frame (max_frame_bytes limits) r with
  | (Ok o, r) => (Ok o, r)
  | (Err (Io k), r) => ((if is_timeout_kind k then Ok None else Err (TIo k)), r)
  | (Err e, r) => (Err (from_frame_read_error e), r)
  end.

(** ** Lemmas on tokens *)

Lemma strip_prefix_app p s : strip_prefix p (p +:+ s) = Some s.
Proof.
  induction p as [|a p IH]; [done |]. change (String a p +:+ s) with (String a (p +:+ s)).
  cbn [strip_prefix]. by rewrite Ascii.eqb_refl.
Qed.

Lemma nibble_below b : (Byte.to_N b / 16 < 16 /\ Byte.to_N b mod 16 < 16)%N.
Proof.
  pose proof (Byte.to_N_bounded b).
  split; [apply N.Div0.div_lt_upper_bound; lia | by apply N.mod_lt].
Qed.

Lemma below_16_cases n : (n < 16)%N -> In n (map N.of_nat (seq 0 16)).
Proof. intros H. apply in_map_iff. exists (N.to_nat n). rewrite in_seq. lia. Qed.

Lemma hex_digit_ok n : (n < 16)%N -> is_ascii_hexdigit (hex_digit n) = true.
Proof.
  intros H%below_16_cases. revert n H.
  apply (proj1 (Forall_forall (fun n => is_ascii_hexdigit (hex_digit n) = true) _)).
  repeat constructor.
Qed.

Lemma hex_digit_inj n m : (n < 16)%N -> (m < 16)%N -> hex_digit n = hex_digit m -> n = m.
Proof.
  intros Hn%below_16_cases Hm%below_16_cases.
  assert (H : forallb (fun x => forallb (fun y =>
              negb (Ascii.eqb (hex_digit x) (hex_digit y)) || (x =? y)%N)
              (map N.of_nat (seq 0 16))) (map N.of_nat (seq 0 16)) = true) by reflexivity.
  rewrite forallb_forall in H.
  specialize (H n Hn). rewrite forallb_forall in H. specialize (H m Hm).
  intros Heq. rewrite Heq, Ascii.eqb_refl in H. by apply N.eqb_eq.
Qed.

Lemma length_hex bs : String.length (hex bs) = (2 * length bs)%nat.
Proof. induction bs as [|b bs IH]; cbn; lia. Qed.

Lemma hex_digits bs : string_forallb is_ascii_hexdigit (hex bs) = true.
Proof.
  induction bs as [|b bs IH]; cbn; [done |].
  destruct (nibble_below b). by rewrite !hex_digit_ok by done.
Qed.

Lemma hex_inj bs bs' : hex bs = hex bs' -> bs = bs'.
Proof.
  revert bs'. induction bs as [|b bs IH]; intros [|b' bs']; cbn; try done.
  intros [= Hh Hl Hrest]. f_equal; [| by apply IH].
  destruct (nibble_below b), (nibble_below b').
  apply hex_digit_inj in Hh; [| done..]. apply hex_digit_inj in Hl; [| done..].
  assert (Heq : Byte.to_N b = Byte.to_N b').
  { rewrite (N.div_mod' (Byte.to_N b) 16), (N.div_mod' (Byte.to_N b') 16). congruence. }
  pose proof (Byte.of_to_N b) as Hb. rewrite Heq, Byte.of_to_N in Hb. congruence.
Qed.

Lemma issued_token_valid bytes now ttl :
  length bytes = 16%nat -> is_valid_format (token (issue bytes now ttl)) = true.
Proof.
  intros Hl. unfold is_valid_format, issue. cbn [token].
  rewrite strip_prefix_app, length_hex, Hl. apply hex_digits.
Qed.

(** ** The registry over time *)

(** The operations on the registry, in the order the lock serialises them. *)
Inductive registry_op :=
| OpIssue (bytes : list byte) (now0 now ttl : N)
| OpAuthenticate (now : N) (tok : string).

Definition run_registry_op (o : registry_op) (s : Registry) : Registry :=
  match o with
  | OpIssue bytes now0 now ttl => (issue_credential bytes now0 now ttl s).2
  | OpAuthenticate now tok => (authenticate now tok s).2
  end.

(** How often [tok] was issued, and how often it opened a connection. *)
Fixpoint issues (tok : string) (ops : list registry_op) : nat :=
  match ops with
  | [] => 0
  | OpIssue bytes now0 _ ttl :: ops =>
      (if decide (token (issue bytes now0 ttl) = tok) then 1 else 0) + issues tok ops
  | OpAuthenticate _ _ :: ops => issues tok ops
  end.

Fixpoint admissions (tok : string) (ops : list registry_op) (s : Registry) : nat :=
  match ops with
  | [] => 0
  | o :: ops =>
      (match o with
       | OpAuthenticate now t =>
           if decide (t = tok) then if is_ok (authenticate now t s).1 then 1 else 0 else 0
       | _ => 0
       end + admissions tok ops (run_registry_op o s))%nat
  end.

(** One admission is left for an entry that has not been consumed. *)
Definition budget (tok : string) (s : Registry) : nat :=
  match credentials s !! tok with Some e => if used e then 0 else 1 | None => 0 end.

Lemma budget_issue tok bytes now0 now ttl s :
  budget tok (issue_credential bytes now0 now ttl s).2 <=
    (if decide (token (issue bytes now0 ttl) = tok) then 1 else 0) + budget tok s.
Proof.
  unfold budget, issue_credential. cbn [snd credentials].
  destruct (decide (token (issue bytes now0 ttl) = tok)) as [-> | Hne].
  - rewrite lookup_insert_eq. cbn. lia.
  - rewrite lookup_insert_ne by done. unfold sweep.
    destruct (filter _ _ !! tok) as [e|] eqn:E; [| lia].
    apply map_lookup_filter_Some in E as [-> [Hu _]]. cbn in Hu. rewrite Hu. lia.
Qed.

Lemma budget_authenticate tok now t s :
  (if decide (t = tok) then if is_ok (authenticate now t s).1 then 1 else 0 else 0)
    + budget tok (authenticate now t s).2 <= budget tok s.
Proof.
  unfold authenticate. destruct (negb (is_valid_format t)); cbn; [case_decide; lia |].
  destruct (credentials s !! t) as [e|] eqn:E; cbn; [| case_decide; lia].
  destruct (ic_expires_at e <=? now)%N; cbn.
  { unfold budget. cbn. case_decide as Ht; subst.
    - rewrite lookup_delete_eq. lia.
    - rewrite lookup_delete_ne by done. lia. }
  destruct (used e) eqn:Hu; cbn; [case_decide; lia |].
  unfold budget. cbn. case_decide as Ht; subst.
  - rewrite lookup_insert_eq, E. cbn. rewrite Hu. lia.
  - rewrite lookup_insert_ne by done. lia.
Qed.

Lemma admissions_bounded tok ops s :
  admissions tok ops s <= issues tok ops + budget tok s.
Proof.
  revert s. induction ops as [|[bytes now0 now ttl | now t] ops IH]; intros s;
    cbn [admissions issues run_registry_op]; [lia | |].
  - etrans; [apply IH |]. pose proof (budget_issue tok bytes now0 now ttl s). lia.
  - specialize (IH (authenticate now t s).2). pose proof (budget_authenticate tok now t s). lia.
Qed.

(** ** Lemmas on the registry and the handshake *)

Lemma authenticate_issued bytes now0 now ttl now' s :
  length bytes = 16%nat -> (now' < now0 + ttl)%N ->
  let '(c, s1) := issue_credential bytes now0 now ttl s in
  exists s2, authenticate now' (token c) s1 = (Ok tt, s2) /\
    credentials s2 !! token c = Some {| ic_expires_at := expires_at c; used := true |}.
Proof.
  intros Hl Hlt. cbn [issue_credential]. unfold authenticate.
  rewrite issued_token_valid by done. cbn [negb credentials].
  rewrite lookup_insert_eq. cbn [ic_expires_at used].
  destruct (N.leb_spec (expires_at (issue bytes now0 ttl)) now') as [Hle |]; [cbn in Hle; lia |].
  eexists. split; [reflexivity |]. cbn. by rewrite lookup_insert_eq.
Qed.

Lemma from_reason_str e : from_reason (Some (reason_str e)) = TAuth e.
Proof. by destruct e. Qed.

Lemma read_frame_encoded max p r :
  clean r -> bytes_of r = encode_frame p -> (len p <= max)%N -> (max < 2 ^ 32)%N ->
  exists r', read_frame max r = (Ok (Some p), r').
Proof.
  intros Hc Hb Hle Hmax. destruct (read_frame_decode max r Hc) as (r' & Hr & _).
  exists r'. rewrite Hr, Hb, <- (app_nil_r (encode_frame p)), decode_encoded by lia. done.
Qed.

(** ** Properties *)

(** C23.  Over any history of issues and authentications, in any order and at
    any times, a token opens at most as many connections as it was issued:
    credentials are single use, and neither the sweep of consumed entries nor
    the removal of stale ones ever revives one. *)
Theorem credential_single_use tok ops :
  admissions tok ops empty_registry <= issues tok ops.
Proof.
  etrans; [apply admissions_bounded |]. unfold budget. cbn. rewrite lookup_empty. lia.
Qed.

(** The life of one credential: distinct random bytes give distinct
    tokens; a fresh credential authenticates before its expiry, whatever else
    the registry holds; the second attempt is a replay until the expiry, stale
    from then on, and unknown after that. *)
Theorem credential_life bytes now0 now ttl s t1 t2 t3 :
  length bytes = 16%nat -> (t1 < now0 + ttl)%N -> (t2 < now0 + ttl)%N -> (now0 + ttl <= t3)%N ->
  (forall bytes' now' ttl', token (issue bytes' now' ttl') = token (issue bytes now0 ttl) ->
     bytes' = bytes) /\
  let '(c, s1) := issue_credential bytes now0 now ttl s in
  exists s2, authenticate t1 (token c) s1 = (Ok tt, s2) /\
    authenticate t2 (token c) s2 = (Err Replay, s2) /\
    exists s3, authenticate t3 (token c) s2 = (Err Stale, s3) /\
      authenticate t3 (token c) s3 = (Err Invalid, s3).
Proof.
  intros Hl H1 H2 H3. split.
  { intros bytes' now' ttl' Heq. unfold issue in Heq. cbn [token] in Heq.
    apply (f_equal (strip_prefix TOKEN_PREFIX)) in Heq. rewrite !strip_prefix_app in Heq.
    injection Heq as Heq. by apply hex_inj. }
  pose proof (authenticate_issued bytes now0 now ttl t1 s Hl H1) as Hauth.
  destruct (issue_credential bytes now0 now ttl s) as [c s1] eqn:Hc.
  injection Hc as <- _. set (c := issue bytes now0 ttl) in *.
  destruct Hauth as (s2 & Ha & Hl2). exists s2. split; [done |].
  assert (Hv : is_valid_format (token c) = true) by by apply issued_token_valid.
  unfold authenticate. rewrite Hv, Hl2. cbn [negb ic_expires_at used]. split.
  - by destruct (N.leb_spec (expires_at c) t2); [cbn in *; lia |].
  - destruct (N.leb_spec (expires_at c) t3); [| cbn in *; lia].
    eexists. split; [reflexivity |]. cbn [credentials]. by rewrite lookup_delete_eq.
Qed.

(** End to end: when [serde_json] decodes what it encodes and the hello
    and its reply fit a frame, a client that presents any credential learns
    exactly the verdict of [authenticate], whatever the fragmentation in both
    directions, and the registry changes as [authenticate] says. *)
Theorem handshake_reports_verdict hello_to_vec hello_from_slice ack_to_vec ack_from_slice
    limits now s c frame r reply r_ack :
  (forall h b, hello_to_vec h = Some b -> hello_from_slice b = Some h) ->
  (forall a b, ack_to_vec a = Some b ->
     ack_from_slice b = Some a /\ (len b <= max_frame_bytes limits)%N) ->
  (max_frame_bytes limits < 2 ^ 32)%N ->
  client_hello_frame hello_to_vec c limits = Ok frame ->
  clean r -> bytes_of r = frame ->
  let '(h, _, s') := perform_handshake hello_from_slice limits now r s in
  handshake_reply ack_to_vec h = Some reply -> clean r_ack -> bytes_of r_ack = reply ->
  (authenticate now (token c) s).2 = s' /\
  (client_read_ack ack_from_slice limits r_ack).1 =
    map_err TAuth (authenticate now (token c) s).1.
Proof.
  intros Hhello Hack Hmax Hframe Hc Hb. unfold perform_handshake.
  unfold client_hello_frame in Hframe.
  destruct (hello_to_vec _) as [payload|] eqn:Hser; [| done].
  unfold encode_frame_checked in Hframe.
  destruct (N.ltb_spec (max_frame_bytes limits) (len payload)) as [|Hle]; [done |].
  injection Hframe as <-.
  destruct (read_frame_encoded _ _ _ Hc Hb Hle Hmax) as [r' ->].
  rewrite (Hhello _ _ Hser). cbn [ch_token].
  assert (Hread : forall acc why, write_handshake_reply ack_to_vec acc why = Some reply ->
            clean r_ack -> bytes_of r_ack = reply ->
            (client_read_ack ack_from_slice limits r_ack).1 =
              if acc then Ok tt else Err (from_reason why)).
  { intros acc why Hw Hca Hba. unfold write_handshake_reply in Hw.
    destruct (ack_to_vec _) as [b|] eqn:Hb2; [| done]. injection Hw as <-.
    apply Hack in Hb2 as [Hdec Hlen].
    destruct (read_frame_encoded _ _ _ Hca Hba Hlen Hmax) as [r2 Hr2].
    unfold client_read_ack. rewrite Hr2, Hdec. done. }
  destruct (authenticate now (token c) s) as [[[]|e] s'] eqn:Ha;
    cbn [handshake_reply fst snd map_err]; intros Hrep Hca Hba; split; try done.
  - by rewrite (Hread _ _ Hrep Hca Hba).
  - by rewrite (Hread _ _ Hrep Hca Hba), from_reason_str.
Qed.

(** ** Witnesses *)

Definition sample_random : list byte :=
  [x00; x11; x22; x33; x44; x55; x66; x77; x88; x99; xaa; xbb; xcc; xdd; xee; xff].

Lemma credential_life_witness :
  let '(c, s1) := issue_credential sample_random 100 100 50 empty_registry in
  token c = "lt_00112233445566778899aabbccddeeff" /\
  exists s2, authenticate 120 (token c) s1 = (Ok tt, s2).
Proof.
  split; [reflexivity |].
  destruct (credential_life sample_random 100 100 50 empty_registry 120 130 150) as [_ H];
    [reflexivity | reflexivity | reflexivity | discriminate |].
  destruct H as (s2 & H & _). exists s2. exact H.
Defined.

(** A toy encoding that round-trips. *)
Definition toy_bytes (s : string) : list byte := String.list_byte_of_string s.
Definition toy_hello_to_vec (h : ClientHello) : option (list byte) := Some (toy_bytes (ch_token h)).
Definition toy_hello_from_slice (b : list byte) : option ClientHello :=
  Some {| ch_token := String.string_of_list_byte b |}.
Definition toy_ack_to_vec (a : ServerHello) : option (list byte) :=
  match accepted a, reason a with
  | true, None => Some [x01]
  | false, Some "replay" => Some [x02]
  | _, _ => None
  end.
Definition toy_ack_from_slice (b : list byte) : option ServerHello :=
  match b with
  | [x01] => Some {| accepted := true; reason := None |}
  | [x02] => Some {| accepted := false; reason := Some "replay" |}
  | _ => None
  end.

Lemma toy_hello_round_trip h b :
  toy_hello_to_vec h = Some b -> toy_hello_from_slice b = Some h.
Proof.
  destruct h. intros [= <-]. unfold toy_hello_from_slice, toy_bytes. cbn.
  by rewrite String.string_of_list_byte_of_string.
Qed.

Lemma toy_ack_round_trip a b :
  toy_ack_to_vec a = Some b -> toy_ack_from_slice b = Some a /\ (len b <= 65536)%N.
Proof.
  destruct a as [[] [why|]]; cbn; try done.
  - intros [= <-]. done.
  - repeat (let c := fresh "c" in destruct why as [|[[] [] [] [] [] [] [] []] why]; try done).
    intros [= <-]. done.
Qed.

Definition used_registry : Registry :=
  (authenticate 120 "lt_00112233445566778899aabbccddeeff"
     (issue_credential sample_random 100 100 50 empty_registry).2).2.

Lemma handshake_reports_verdict_witness :
  let c := issue sample_random 100 50 in
  (client_read_ack toy_ack_from_slice default_limits [Chunk (encode_frame [x02])]).1
    = Err (TAuth Replay) /\
  (perform_handshake toy_hello_from_slice default_limits 130
     [Chunk (encode_frame (toy_bytes (token c)))] used_registry).1.1 = HRejected Replay.
Proof.
  intros c. split; [| vm_compute; reflexivity].
  pose proof (handshake_reports_verdict toy_hello_to_vec toy_hello_from_slice
    toy_ack_to_vec toy_ack_from_slice default_limits 130 used_registry c
    (encode_frame (toy_bytes (token c))) [Chunk (encode_frame (toy_bytes (token c)))]
    (encode_frame [x02]) [Chunk (encode_frame [x02])]
    toy_hello_round_trip toy_ack_round_trip eq_refl eq_refl
    ltac:(repeat constructor; discriminate) eq_refl) as H.
  destruct (H eq_refl ltac:(repeat constructor; discriminate) eq_refl) as [_ Hv].
  exact Hv.
Defined.
