(* ===== verification/Server.v ===== *)
(** * The supervised server: concurrent connections

    Model of the connection lifecycle of [crates/local-transport/src/server.rs]:
    [accept_loop], [ConnLimiter], [connection_worker] and [reject_busy] as a
    machine of interleaved connections.  Every access to shared state (the
    atomic counter, a lock held for one expression) is one step; between two
    steps of a connection any steps of the others may happen.  A connection
    carries the program point it has reached ([phase]); the environment
    (what the peer sends, whether a write succeeds, a spurious failure of the
    weak compare-and-exchange) is an argument of each step. *)
From S2P Require Import Prelude Framing Credential.
From stdpp Require Import base gmap strings list option.
From Stdlib Require Import NArith ZArith Lia.

(** ** Data *)

Inductive PeerDesc :=
| PTcp (addr : string)
| PNamedPipe (name : string)
| PUnixSocket (path : string).

Record PeerIdentity := { pid : N; image_path : option string }.

Definition eq_ignore_ascii_case (a b : string) : bool :=
  let lower c := let n := Ascii.N_of_ascii c in
    if ((65 <=? n) && (n <=? 90))%N then Ascii.ascii_of_N (n + 32) else c in
  let fix fold s := match s with EmptyString => EmptyString | String c s => String (lower c) (fold s) end in
  String.eqb (fold a) (fold b).

(** [PeerIdentity::image_matches]; [fold_case] is [cfg!(any(windows, macos))]. *)
Definition image_matches (fold_case : bool) (p : PeerIdentity) (expected : string) : bool :=
  match image_path p with
  | None => false
  | Some image => if fold_case then eq_ignore_ascii_case image expected else String.eqb image expected
  end.

(** [ServerConn] without its channel ends. *)
Record ServerConn := {
  conn_id : N;
  peer : PeerDesc;
  identity : option PeerIdentity;
  max_frame : N
}.

Inductive EndReason := PeerClosed | EndProtocol | EndTimeout | EndIo.

(** The outcome counter a connection ends on. *)
Inductive outcome := OBusy | OAuth | OPeer | OProtocol | OTimeout | OIo.

#[export] Instance outcome_eq_dec : EqDecision outcome.
Proof. solve_decision. Defined.

Definition outcome_of_end (e : EndReason) : outcome :=
  match e with
  | PeerClosed => OPeer | EndProtocol => OProtocol | EndTimeout => OTimeout | EndIo => OIo
  end.

Record ServerStats := {
  st_accepted : N;
  st_authenticated : N;
  st_rejected_auth : N;
  st_rejected_busy : N;
  st_closed_peer : N;
  st_closed_protocol : N;
  st_closed_timeout : N;
  st_closed_io : N
}.

Definition no_stats : ServerStats := Build_ServerStats 0 0 0 0 0 0 0 0.

Definition stat (k : outcome) (t : ServerStats) : N :=
  match k with
  | OBusy => st_rejected_busy t | OAuth => st_rejected_auth t | OPeer => st_closed_peer t
  | OProtocol => st_closed_protocol t | OTimeout => st_closed_timeout t | OIo => st_closed_io t
  end.

Definition bump_accepted (t : ServerStats) : ServerStats :=
  let '(Build_ServerStats a b c d e f g h) := t in Build_ServerStats (u64_add a 1) b c d e f g h.
Definition bump_authenticated (t : ServerStats) : ServerStats :=
  let '(Build_ServerStats a b c d e f g h) := t in Build_ServerStats a (u64_add b 1) c d e f g h.
Definition bump (k : outcome) (t : ServerStats) : ServerStats :=
  let '(Build_ServerStats a b c d e f g h) := t in
  match k with
  | OAuth => Build_ServerStats a b (u64_add c 1) d e f g h
  | OBusy => Build_ServerStats a b c (u64_add d 1) e f g h
  | OPeer => Build_ServerStats a b c d (u64_add e 1) f g h
  | OProtocol => Build_ServerStats a b c d e (u64_add f 1) g h
  | OTimeout => Build_ServerStats a b c d e f (u64_add g 1) h
  | OIo => Build_ServerStats a b c d e f g (u64_add h 1)
  end.

(** [ServerState] without the list of connections. *)
Record Shared := {
  limits : Limits;
  next_conn_id : N;
  registry : Registry;
  conns : gmap N ServerConn;
  current : N;
  stats : ServerStats
}.

Definition set_next_conn_id (n : N) (s : Shared) : Shared :=
  {| limits := limits s; next_conn_id := n; registry := registry s; conns := conns s;
     current := current s; stats := stats s |}.
Definition set_registry (r : Registry) (s : Shared) : Shared :=
  {| limits := limits s; next_conn_id := next_conn_id s; registry := r; conns := conns s;
     current := current s; stats := stats s |}.
Definition set_conns (c : gmap N ServerConn) (s : Shared) : Shared :=
  {| limits := limits s; next_conn_id := next_conn_id s; registry := registry s; conns := c;
     current := current s; stats := stats s |}.
Definition set_current (n : N) (s : Shared) : Shared :=
  {| limits := limits s; next_conn_id := next_conn_id s; registry := registry s; conns := conns s;
     current := n; stats := stats s |}.
Definition set_stats (t : ServerStats) (s : Shared) : Shared :=
  {| limits := limits s; next_conn_id := next_conn_id s; registry := registry s; conns := conns s;
     current := current s; stats := t |}.

(** The state [LocalServer::bind_on] builds. *)
Definition new_shared (l : Limits) : Shared :=
  {| limits := l; next_conn_id := 1; registry := empty_registry; conns := ∅; current := 0;
     stats := no_stats |}.

(** ** Program points *)

Inductive phase :=
| Accepted                            (* counted; before the limiter *)
| Trying (observed : N)               (* in the loop of [try_acquire] *)
| Refused                             (* [try_acquire] returned false *)
| Acquired                            (* worker spawned; before its id *)
| Numbered (id : N)                   (* before [prepare_accepted] *)
| Handshaking (id : N)                (* before [perform_handshake] *)
| Counting (k : outcome)              (* before the outcome counter, slot held *)
| Releasing (k : outcome)             (* counted; before [limiter.release] *)
| Authed (id : N)                     (* before [authenticated += 1] *)
| Registering (id : N)                (* before [conns.insert] *)
| Replying (id : N)                   (* before the accepting reply *)
| ReplyFailed (id : N)                (* reply failed; before [conns.remove] *)
| ReleasingUncounted                  (* removed; before [limiter.release] *)
| CountingReleased                    (* released; before [closed_io += 1] *)
| Serving (id : N)                    (* in [worker_loop] *)
| Unregistering (id : N) (e : EndReason) (* loop ended; before [conns.remove] *)
| Finished (k : outcome).

Record Thread := {
  t_peer : PeerDesc;
  t_identity : option PeerIdentity;
  t_auth : bool;  (* ghost: the handshake authenticated *)
  t_phase : phase
}.

(** What the environment decides at one step. *)
Record Env := {
  spurious : bool;       (* [compare_exchange_weak] fails although it could succeed *)
  prepare_ok : bool;     (* [prepare_accepted] succeeds *)
  hello_stream : reader; (* what the peer sends during the handshake *)
  now : N;               (* the clock [authenticate] reads *)
  reply_ok : bool;       (* [write_handshake_reply] succeeds *)
  loop_end : EndReason   (* how [worker_loop] returns *)
}.

(** [ConnLimiter::try_acquire]: one iteration of its loop. *)
Definition try_acquire_step (spur : bool) (observed : N) (s : Shared) : phase * Shared :=
  if (max_connections (limits s) <=? observed)%N then (Refused, s)
  else if negb spur && (current s =? observed)%N then (Acquired, set_current (observed + 1) s)
  else (Trying (current s), s).

(** [ConnLimiter::release]: [fetch_sub] wraps. *)
Definition release (s : Shared) : Shared :=
  set_current ((current s + U64_MAX) mod (U64_MAX + 1)) s.

Definition outcome_of_handshake (h : HandshakeResult) : option outcome :=
  match h with
  | HAuthenticated => None
  | HRejected _ => Some OAuth
  | HClosed => Some OPeer
  | HTimedOut => Some OTimeout
  | HProtocol => Some OProtocol
  | HIo => Some OIo
  end.

Section Machine.
Context (hello_from_slice : list Byte.byte -> option ClientHello).

(** One step of a connection: [accept_loop] up to [Acquired] and [Refused],
    [connection_worker] after. *)
Definition advance (e : Env) (t : Thread) (s : Shared) : Thread * Shared :=
  let go p := {| t_peer := t_peer t; t_identity := t_identity t; t_auth := t_auth t;
                 t_phase := p |} in
  match t_phase t with
  | Accepted => (go (Trying (current s)), s)
  | Trying observed => let '(p, s) := try_acquire_step (spurious e) observed s in (go p, s)
  | Refused => (go (Finished OBusy), set_stats (bump OBusy (stats s)) s)
  | Acquired =>
      (go (Numbered (next_conn_id s)), set_next_conn_id (u64_add (next_conn_id s) 1) s)
  | Numbered id => (go (if prepare_ok e then Handshaking id else Counting OIo), s)
  | Handshaking id =>
      let '(h, _, reg) :=
        perform_handshake hello_from_slice (limits s) (now e) (hello_stream e) (registry s) in
      (match outcome_of_handshake h with
       | None => {| t_peer := t_peer t; t_identity := t_identity t; t_auth := true;
                    t_phase := Authed id |}
       | Some k => go (Counting k)
       end, set_registry reg s)
  | Counting k => (go (Releasing k), set_stats (bump k (stats s)) s)
  | Releasing k => (go (Finished k), release s)
  | Authed id => (go (Registering id), set_stats (bump_authenticated (stats s)) s)
  | Registering id =>
      (go (Replying id),
       set_conns (<[id := {| conn_id := id; peer := t_peer t; identity := t_identity t;
                             max_frame := max_frame_bytes (limits s) |}]> (conns s)) s)
  | Replying id => (go (if reply_ok e then Serving id else ReplyFailed id), s)
  | ReplyFailed id => (go ReleasingUncounted, set_conns (delete id (conns s)) s)
  | ReleasingUncounted => (go CountingReleased, release s)
  | CountingReleased => (go (Finished OIo), set_stats (bump OIo (stats s)) s)
  | Serving id => (go (Unregistering id (loop_end e)), s)
  | Unregistering id r =>
      (go (Counting (outcome_of_end r)), set_conns (delete id (conns s)) s)
  | Finished k => (t, s)
  end.

(** The server: shared state and every connection accepted so far. *)
Record Server := { shared : Shared; threads : list Thread }.

Definition new_server (l : Limits) : Server := {| shared := new_shared l; threads := [] |}.

(** [listener.accept()] returned a connection: it is counted and probed. *)
Definition accept (p : PeerDesc) (i : option PeerIdentity) (sv : Server) : Server :=
  {| shared := set_stats (bump_accepted (stats (shared sv))) (shared sv);
     threads := threads sv ++ [{| t_peer := p; t_identity := i; t_auth := false;
                                  t_phase := Accepted |}] |}.

Definition server_issue (bytes : list Byte.byte) (now0 now ttl : N) (sv : Server) : Server :=
  {| shared := set_registry (issue_credential bytes now0 now ttl (registry (shared sv))).2
                 (shared sv);
     threads := threads sv |}.

Inductive server_step : Server -> Server -> Prop :=
| step_accept sv p i : server_step sv (accept p i sv)
| step_issue sv bytes now0 now ttl : server_step sv (server_issue bytes now0 now ttl sv)
| step_thread sv i t e t' s' :
    threads sv !! i = Some t -> advance e t (shared sv) = (t', s') ->
    server_step sv {| shared := s'; threads := <[i := t']> (threads sv) |}.

Definition server_reachable (l : Limits) : Server -> Prop := rtc server_step (new_server l).
End Machine.
