(* ===== verification/ServerFacts.v ===== *)
(** * Invariants of the supervised server

    Slot accounting of the limiter, outcome counters, connection ids and the
    connection table, for every interleaving of [Server.server_step]. *)
From S2P Require Import Prelude Framing Credential Server.
From stdpp Require Import base gmap strings list option.
From Stdlib Require Import NArith ZArith Lia Strings.Byte.

(** ** Counting connections *)

Definition cnt (p : Thread -> bool) (ts : list Thread) : nat := length (List.filter p ts).

Arguments cnt : simpl never.

Lemma cnt_snoc p ts t : cnt p (ts ++ [t]) = (cnt p ts + Nat.b2n (p t))%nat.
Proof. unfold cnt. rewrite List.filter_app, length_app. cbn. by destruct (p t). Qed.

Lemma cnt_insert p ts i t t' :
  ts !! i = Some t ->
  (cnt p (<[i := t']> ts) + Nat.b2n (p t) = cnt p ts + Nat.b2n (p t'))%nat.
Proof.
  unfold cnt. revert i. induction ts as [|x ts IH]; intros [|i] H; try done.
  - cbn in H. injection H as ->. cbn. destruct (p t), (p t'); cbn; lia.
  - specialize (IH i H). change (<[S i := t']> (x :: ts)) with (x :: <[i := t']> ts).
    cbn [List.filter]. destruct (p x); cbn [length]; lia.
Qed.

Lemma cnt_pos p ts i t : ts !! i = Some t -> p t = true -> (1 <= cnt p ts)%nat.
Proof.
  intros H Hp. unfold cnt. apply list_elem_of_split_length in H as (l1 & l2 & -> & _).
  rewrite List.filter_app, length_app. cbn. rewrite Hp. cbn. lia.
Qed.

Lemma cnt_le_length p ts : (cnt p ts <= length ts)%nat.
Proof. unfold cnt. induction ts as [|t ts IH]; cbn; [done |]. destruct (p t); cbn; lia. Qed.

Lemma cnt_le p q ts : (forall t, p t = true -> q t = true) -> (cnt p ts <= cnt q ts)%nat.
Proof.
  intros H. unfold cnt. induction ts as [|t ts IH]; cbn; [done |].
  destruct (p t) eqn:Hp; [rewrite (H t Hp); cbn; lia |]. destruct (q t); cbn; lia.
Qed.

(** ** Views of a program point *)

(** The connection occupies a slot of the limiter. *)
Definition holds_slot (t : Thread) : bool :=
  match t_phase t with
  | Accepted | Trying _ | Refused | CountingReleased | Finished _ => false
  | _ => true
  end.

(** The connection's outcome has been counted. *)
Definition counted_as (t : Thread) : option outcome :=
  match t_phase t with Releasing k | Finished k => Some k | _ => None end.

Definition counted (k : outcome) (t : Thread) : bool := bool_decide (counted_as t = Some k).
Definition pending (t : Thread) : bool := bool_decide (counted_as t = None).

(** The id of a connection that has one and may still use it. *)
Definition live_id (t : Thread) : option N :=
  match t_phase t with
  | Numbered id | Handshaking id | Authed id | Registering id | Replying id | ReplyFailed id
  | Serving id | Unregistering id _ => Some id
  | _ => None
  end.

(** The connection is in the table. *)
Definition registered (t : Thread) : option N :=
  match t_phase t with
  | Replying id | ReplyFailed id | Serving id | Unregistering id _ => Some id
  | _ => None
  end.

Definition auth_counted (t : Thread) : bool :=
  t_auth t && match t_phase t with Authed _ => false | _ => true end.

(** Where the ghost flag must be down, and where it must be up. *)
Definition auth_ok (t : Thread) : Prop :=
  match t_phase t with
  | Accepted | Trying _ | Refused | Acquired | Numbered _ | Handshaking _ => t_auth t = false
  | Authed _ | Registering _ | Replying _ | ReplyFailed _ | ReleasingUncounted
  | CountingReleased | Serving _ | Unregistering _ _ => t_auth t = true
  | Counting _ | Releasing _ | Finished _ => True
  end.

(** The connection is past the assignment of its id. *)
Definition started (t : Thread) : bool :=
  match t_phase t with Accepted | Trying _ | Refused | Acquired => false | _ => true end.

(** The table entry of a registered connection. *)
Definition conn_of (l : Limits) (id : N) (t : Thread) : ServerConn :=
  {| conn_id := id; peer := t_peer t; identity := t_identity t; max_frame := max_frame_bytes l |}.

Definition WRAP : N := U64_MAX + 1.

Lemma wrap_add n d : ((n mod WRAP + d) mod WRAP = (n + d) mod WRAP)%N.
Proof. apply N.Div0.add_mod_idemp_l. Qed.

(** ** What one step of a connection does *)

Section Steps.
Context (hello_from_slice : list Byte.byte -> option ClientHello).
Abbreviation advance := (advance hello_from_slice).

(** Case split on the program point and the environment's choice. *)
Ltac step_cases H :=
  lazymatch type of H with
  | Server.advance _ ?e ?t ?s = _ =>
      destruct t as [tp ti ta ph]; destruct ph; cbn in H;
      try match type of H with
          | context [perform_handshake ?f ?l ?n ?r ?g] =>
              let h := fresh "h" in let reg := fresh "reg" in let E := fresh "E" in
              destruct (perform_handshake f l n r g) as [[h ?] reg] eqn:E;
              destruct h; cbn in H
          | context [try_acquire_step ?sp ?o ?s] =>
              let E := fresh "E" in
              destruct (try_acquire_step sp o s) as [? ?] eqn:E
          | context [if ?c then _ else _] => destruct c eqn:?
          end;
      injection H as <- <-
  end.

Lemma try_acquire_cases spur o s p s' :
  try_acquire_step spur o s = (p, s') ->
  (p = Refused /\ s' = s /\ (max_connections (limits s) <= o)%N) \/
  (p = Acquired /\ s' = set_current (current s + 1) s /\ (current s < max_connections (limits s))%N) \/
  (p = Trying (current s) /\ s' = s).
Proof.
  unfold try_acquire_step. intros H.
  destruct (N.leb_spec (max_connections (limits s)) o); [by injection H as <- <-; left |].
  destruct (negb spur && _) eqn:E; injection H as <- <-; [right; left | by right; right].
  apply andb_true_iff in E as [_ ->%N.eqb_eq]. done.
Qed.

Lemma stat_bump k k' st :
  stat k (bump k' st) = if decide (k = k') then u64_add (stat k st) 1 else stat k st.
Proof. by destruct st, k, k'. Qed.

Lemma advance_limits e t s t' s' : advance e t s = (t', s') -> limits s' = limits s.
Proof.
  intros H. step_cases H; try done.
  apply try_acquire_cases in E as [(-> & -> & _) | [(-> & -> & _) | (-> & ->)]]; done.
Qed.

Lemma advance_slot e t s t' s' :
  advance e t s = (t', s') ->
  (current s <= max_connections (limits s))%N -> (max_connections (limits s) <= U64_MAX)%N ->
  (holds_slot t = true -> 1 <= current s)%N ->
  (current s' + N.b2n (holds_slot t) = current s + N.b2n (holds_slot t'))%N /\
  (current s' <= max_connections (limits s))%N.
Proof.
  intros H Hmax Hw Hpos. step_cases H; cbn in *; try lia.
  all: try (apply try_acquire_cases in E as [(-> & -> & _) | [(-> & -> & ?) | (-> & ->)]];
            cbn in *; lia).
  all: specialize (Hpos eq_refl);
    replace (current s + U64_MAX)%N with (current s - 1 + 1 * (U64_MAX + 1))%N by lia;
    rewrite N.Div0.mod_add, N.mod_small by lia; lia.
Qed.

Lemma advance_stat k e t s t' s' :
  advance e t s = (t', s') ->
  exists d, Nat.b2n (counted k t') = (Nat.b2n (counted k t) + d)%nat /\
    stat k (stats s') = (if decide (d = 0%nat) then stat k (stats s)
                         else u64_add (stat k (stats s)) 1) /\ (d <= 1)%nat.
Proof.
  intros H. unfold counted.
  step_cases H; cbn [counted_as t_phase stats set_stats set_conns set_current set_registry
                     set_next_conn_id release];
    try (exists 0%nat; split_and!; [unfold counted_as; cbn; lia | done | lia]).
  - apply try_acquire_cases in E as [(-> & -> & _) | [(-> & -> & ?) | (-> & ->)]];
      (exists 0%nat; split_and!; [unfold counted_as; cbn; lia | done | lia]).
  - rewrite stat_bump. exists (if decide (k = OBusy) then 1 else 0)%nat.
    destruct k; split_and!; (reflexivity || (vm_compute; lia)).
  - rewrite stat_bump. exists (if decide (k = k0) then 1 else 0)%nat.
    destruct k, k0; split_and!; (reflexivity || (vm_compute; lia)).
  - exists 0%nat. split_and!; [lia | | lia]. by destruct (stats s), k.
  - rewrite stat_bump. exists (if decide (k = OIo) then 1 else 0)%nat.
    destruct k; split_and!; (reflexivity || (vm_compute; lia)).
Qed.

Ltac acquire_cases :=
  try match goal with
      | E : try_acquire_step _ _ _ = _ |- _ =>
          apply try_acquire_cases in E as [(-> & -> & _) | [(-> & -> & _) | (-> & ->)]]
      end.

Lemma authenticate_consumed now tok g :
  credentials_consumed (authenticate now tok g).2 =
    if is_ok (authenticate now tok g).1 then u64_add (credentials_consumed g) 1
    else credentials_consumed g.
Proof. unfold authenticate. by repeat case_match. Qed.

Lemma handshake_consumed l now r g h r' g' :
  perform_handshake hello_from_slice l now r g = (h, r', g') ->
  credentials_consumed g' =
    match h with HAuthenticated => u64_add (credentials_consumed g) 1
               | _ => credentials_consumed g end.
Proof.
  unfold perform_handshake. intros H.
  destruct (read_frame _ r) as [[[bs|]|[]] r1]; [| by simplify_eq.. | by case_match; simplify_eq].
  destruct (hello_from_slice bs) as [hello|]; [| by simplify_eq].
  pose proof (authenticate_consumed now (ch_token hello) g) as Hc.
  destruct (authenticate now (ch_token hello) g) as [[[]|e] g1]; by simplify_eq.
Qed.

(** The ghost flag is raised by a successful handshake only, together with
    [credentials_consumed]; [authenticated] follows it one step later. *)
Lemma advance_auth e t s t' s' :
  advance e t s = (t', s') -> auth_ok t ->
  auth_ok t' /\
  (exists d, Nat.b2n (t_auth t') = (Nat.b2n (t_auth t) + d)%nat /\ (d <= 1)%nat /\
     credentials_consumed (registry s') =
       if decide (d = 0%nat) then credentials_consumed (registry s)
       else u64_add (credentials_consumed (registry s)) 1) /\
  (exists d, Nat.b2n (auth_counted t') = (Nat.b2n (auth_counted t) + d)%nat /\ (d <= 1)%nat /\
     st_authenticated (stats s') =
       if decide (d = 0%nat) then st_authenticated (stats s)
       else u64_add (st_authenticated (stats s)) 1).
Proof.
  intros H Hok. unfold auth_ok, auth_counted in *.
  step_cases H; acquire_cases; try match goal with
    E : perform_handshake _ _ _ _ _ = _ |- _ => apply handshake_consumed in E end;
    cbn in Hok |- *; subst; split; try done;
    (split; [first [exists 0%nat; split_and!; [lia | lia | done]
                   | exists 1%nat; split_and!; [cbn; lia | lia | done]] |]);
    first [exists 0%nat; split_and!; [cbn; lia | lia | by destruct (stats s)]
          | exists 0%nat; split_and!; [lia | lia | by destruct (stats s), k]
          | exists 1%nat; split_and!; [cbn; lia | lia | by destruct (stats s)]].
Qed.

Lemma advance_accepted e t s t' s' :
  advance e t s = (t', s') -> st_accepted (stats s') = st_accepted (stats s).
Proof.
  intros H. step_cases H; acquire_cases; cbn; try done; destruct (stats s); try done;
    by destruct k.
Qed.

Lemma advance_live e t s t' s' :
  advance e t s = (t', s') ->
  ((live_id t' = None \/ live_id t' = live_id t) /\ next_conn_id s' = next_conn_id s /\
     (started t = true -> started t' = true)) \/
  (started t = false /\ started t' = true /\ live_id t' = Some (next_conn_id s) /\
     next_conn_id s' = u64_add (next_conn_id s) 1).
Proof. intros H. step_cases H; acquire_cases; cbn; auto 6. Qed.

Lemma advance_table e t s t' s' :
  advance e t s = (t', s') ->
  t_peer t' = t_peer t /\ t_identity t' = t_identity t /\
  ((registered t' = registered t /\ conns s' = conns s) \/
   (exists id, registered t = None /\ live_id t = Some id /\ registered t' = Some id /\
      conns s' = <[id := conn_of (limits s) id t']> (conns s)) \/
   (exists id, registered t = Some id /\ registered t' = None /\
      conns s' = delete id (conns s))).
Proof.
  intros H. step_cases H; acquire_cases; cbn; split_and!; try done;
    try (left; done); right; [left | right | right]; by eexists.
Qed.

Lemma registered_live t id : registered t = Some id -> live_id t = Some id.
Proof. unfold registered, live_id. by destruct (t_phase t). Qed.

Lemma registered_holds t id : registered t = Some id -> holds_slot t = true.
Proof. unfold registered, holds_slot. by destruct (t_phase t). Qed.

(** ** The invariants *)

(** Slots: the limiter counts exactly the connections that hold one. *)
Definition slots_ok (l : Limits) (sv : Server) : Prop :=
  limits (shared sv) = l /\
  current (shared sv) = N.of_nat (cnt holds_slot (threads sv)) /\
  (current (shared sv) <= max_connections l)%N.

(** Counters are the number of connections they count, modulo their width. *)
Definition counters_ok (sv : Server) : Prop :=
  st_accepted (stats (shared sv)) = (N.of_nat (length (threads sv)) mod WRAP)%N /\
  (forall k, stat k (stats (shared sv)) = (N.of_nat (cnt (counted k) (threads sv)) mod WRAP)%N) /\
  Forall auth_ok (threads sv) /\
  credentials_consumed (registry (shared sv)) = (N.of_nat (cnt t_auth (threads sv)) mod WRAP)%N /\
  st_authenticated (stats (shared sv)) = (N.of_nat (cnt auth_counted (threads sv)) mod WRAP)%N.

(** Ids are unique while fewer than [U64_MAX] connections were accepted, and
    the table holds exactly the registered connections. *)
Definition table_ok (l : Limits) (sv : Server) : Prop :=
  (N.of_nat (length (threads sv)) < U64_MAX)%N ->
  (next_conn_id (shared sv) <= 1 + N.of_nat (cnt started (threads sv)))%N /\
  (forall i t id, threads sv !! i = Some t -> live_id t = Some id ->
     (id < next_conn_id (shared sv))%N) /\
  (forall i j t u id, threads sv !! i = Some t -> threads sv !! j = Some u ->
     live_id t = Some id -> live_id u = Some id -> i = j) /\
  (forall id c, conns (shared sv) !! id = Some c <->
     exists i t, threads sv !! i = Some t /\ registered t = Some id /\ c = conn_of l id t).

Lemma slots_step l sv sv' :
  (max_connections l <= U64_MAX)%N ->
  server_step hello_from_slice sv sv' -> slots_ok l sv -> slots_ok l sv'.
Proof.
  intros Hw [sv0 p i | sv0 bytes now0 nw ttl | sv0 i t e t' s' Ht Ha] (<- & Hc & Hmax).
  - split_and!; [done | | done]. cbn. rewrite cnt_snoc. cbn. rewrite Nat.add_0_r. done.
  - by split_and!.
  - unfold slots_ok. cbn. rewrite (advance_limits _ _ _ _ _ Ha). split; [done |].
    destruct (advance_slot _ _ _ _ _ Ha Hmax Hw) as [Heq Hle].
    { intros Hh. pose proof (cnt_pos _ _ _ _ Ht Hh). lia. }
    split; [| done]. pose proof (cnt_insert holds_slot _ _ _ t' Ht) as Hcnt.
    destruct (holds_slot t), (holds_slot t'); cbn in *; lia.
Qed.

Lemma counter_follows (n n' : nat) (b b' d : nat) (x x' : N) :
  (n' + b = n + b')%nat -> b' = (b + d)%nat -> (d <= 1)%nat ->
  x = (N.of_nat n mod WRAP)%N -> x' = (if decide (d = 0%nat) then x else u64_add x 1) ->
  x' = (N.of_nat n' mod WRAP)%N.
Proof.
  intros Hn Hb Hd -> ->. case_decide.
  - f_equal. lia.
  - unfold u64_add. change (U64_MAX + 1)%N with WRAP. rewrite wrap_add. f_equal. lia.
Qed.

Lemma counters_step sv sv' :
  server_step hello_from_slice sv sv' -> counters_ok sv -> counters_ok sv'.
Proof.
  intros [sv0 p i | sv0 bytes now0 nw ttl | sv0 i t e t' s' Ht Ha]
    (Hacc & Hst & Hok & Hcons & Hauth).
  - unfold counters_ok. cbn. split_and!.
    + rewrite length_app. cbn. destruct (stats (shared sv0)). cbn in *. rewrite Hacc.
      unfold u64_add. change (U64_MAX + 1)%N with WRAP. rewrite wrap_add. f_equal. lia.
    + intros k. rewrite cnt_snoc. replace (stat k _) with (stat k (stats (shared sv0)))
        by by destruct (stats (shared sv0)), k.
      rewrite Hst. cbn. by rewrite Nat.add_0_r.
    + apply Forall_app. split; [done |]. by repeat constructor.
    + rewrite cnt_snoc. cbn. by rewrite Nat.add_0_r.
    + rewrite cnt_snoc. cbn. rewrite Nat.add_0_r, <- Hauth. by destruct (stats (shared sv0)).
  - by split_and!.
  - assert (Hokt : auth_ok t) by (eapply Forall_lookup_1; eauto).
    destruct (advance_auth _ _ _ _ _ Ha Hokt)
      as (Hok' & (d1 & Hb1 & Hd1 & Hc1) & (d2 & Hb2 & Hd2 & Hc2)).
    unfold counters_ok. cbn. split_and!.
    + rewrite length_insert, <- Hacc. by rewrite (advance_accepted _ _ _ _ _ Ha).
    + intros k. destruct (advance_stat k _ _ _ _ _ Ha) as (d & Hb & Heq & Hd).
      eapply counter_follows; [apply (cnt_insert _ _ _ _ t' Ht) | exact Hb | done | apply Hst | done].
    + by apply Forall_insert.
    + eapply counter_follows; [apply (cnt_insert _ _ _ _ t' Ht) | exact Hb1 | done | exact Hcons | done].
    + eapply counter_follows; [apply (cnt_insert _ _ _ _ t' Ht) | exact Hb2 | done | exact Hauth | done].
Qed.

Lemma lookup_step (ts : list Thread) i t t' j u :
  ts !! i = Some t ->
  <[i := t']> ts !! j = Some u <-> (j = i /\ u = t') \/ (j <> i /\ ts !! j = Some u).
Proof.
  intros Ht. destruct (decide (j = i)) as [-> | Hne].
  - rewrite list_lookup_insert_eq by (by eapply lookup_lt_Some). naive_solver.
  - rewrite list_lookup_insert_ne by done. naive_solver.
Qed.

(** Ids of the connections after a step of connection [i]. *)
Lemma ids_step i t t' e (s s' : Shared) (ts : list Thread) :
  (N.of_nat (length ts) < U64_MAX)%N -> ts !! i = Some t -> advance e t s = (t', s') ->
  (next_conn_id s <= 1 + N.of_nat (cnt started ts))%N ->
  (forall j u id, ts !! j = Some u -> live_id u = Some id -> (id < next_conn_id s)%N) ->
  (forall j k u v id, ts !! j = Some u -> ts !! k = Some v ->
     live_id u = Some id -> live_id v = Some id -> j = k) ->
  (next_conn_id s' <= 1 + N.of_nat (cnt started (<[i := t']> ts)))%N /\
  (forall j u id, <[i := t']> ts !! j = Some u -> live_id u = Some id ->
     (id < next_conn_id s')%N) /\
  (forall j k u v id, <[i := t']> ts !! j = Some u -> <[i := t']> ts !! k = Some v ->
     live_id u = Some id -> live_id v = Some id -> j = k).
Proof.
  intros Hlen Ht Ha Hnext Hlt Huniq.
  pose proof (cnt_insert started _ _ _ t' Ht) as Hcnt.
  pose proof (cnt_le_length started (<[i := t']> ts)) as Hle. rewrite length_insert in Hle.
  destruct (advance_live _ _ _ _ _ Ha) as [(Hid & Hn & Hmono) | (Hs & Hs' & Hid & Hn)].
  - rewrite Hn. split_and!.
    + destruct (started t), (started t'); cbn in *; try specialize (Hmono eq_refl); try done; lia.
    + intros j u id [[-> ->] | [_ Hu]]%(lookup_step _ _ _ _ _ _ Ht) Hl; [| by eapply Hlt].
      destruct Hid as [Hid | Hid]; [congruence |]. rewrite Hid in Hl. by eapply Hlt.
    + intros j k u v id [[-> ->] | [? Hu]]%(lookup_step _ _ _ _ _ _ Ht)
        [[-> ->] | [? Hv]]%(lookup_step _ _ _ _ _ _ Ht) Hlu Hlv; [done | | | by eapply Huniq].
      all: destruct Hid as [Hid | Hid]; [congruence |]; rewrite Hid in *; by eapply Huniq.
  - rewrite Hs, Hs' in Hcnt. cbn in Hcnt.
    assert (Hadd : next_conn_id s' = (next_conn_id s + 1)%N).
    { rewrite Hn. unfold u64_add. apply N.mod_small. lia. }
    rewrite Hadd. split_and!; [lia | |].
    + intros j u id [[-> ->] | [_ Hu]]%(lookup_step _ _ _ _ _ _ Ht) Hl.
      * rewrite Hid in Hl. injection Hl as <-. lia.
      * specialize (Hlt _ _ _ Hu Hl). lia.
    + intros j k u v id [[-> ->] | [? Hu]]%(lookup_step _ _ _ _ _ _ Ht)
        [[-> ->] | [? Hv]]%(lookup_step _ _ _ _ _ _ Ht) Hlu Hlv; [done | | | by eapply Huniq].
      * rewrite Hid in Hlu. injection Hlu as <-. specialize (Hlt _ _ _ Hv Hlv). lia.
      * rewrite Hid in Hlv. injection Hlv as <-. specialize (Hlt _ _ _ Hu Hlu). lia.
Qed.

(** The table after a step of connection [i]. *)
Lemma conns_step l i t t' e (s s' : Shared) (ts : list Thread) :
  limits s = l -> ts !! i = Some t -> advance e t s = (t', s') ->
  (forall j k u v id, ts !! j = Some u -> ts !! k = Some v ->
     live_id u = Some id -> live_id v = Some id -> j = k) ->
  (forall id c, conns s !! id = Some c <->
     exists j u, ts !! j = Some u /\ registered u = Some id /\ c = conn_of l id u) ->
  forall id c, conns s' !! id = Some c <->
     exists j u, <[i := t']> ts !! j = Some u /\ registered u = Some id /\ c = conn_of l id u.
Proof.
  intros Hl Ht Ha Huniq Htab id c.
  setoid_rewrite (lookup_step _ _ _ _ _ _ Ht).
  destruct (advance_table _ _ _ _ _ Ha)
    as (Hp & Hi & [[Hr ->] | [(n & Hr & Hlive & Hr' & ->) | (n & Hr & Hr' & ->)]]).
  - rewrite Htab. split.
    + intros (j & u & Hu & Hru & ->). destruct (decide (j = i)) as [-> | Hne]; [| by eauto 8].
      rewrite Ht in Hu. injection Hu as <-. exists i, t'. split_and!; [by left | congruence |].
      unfold conn_of. congruence.
    + intros (j & u & [[-> ->] | [Hne Hu]] & Hru & ->); [| by eauto].
      exists i, t. split_and!; [done | congruence |]. unfold conn_of. congruence.
  - rewrite lookup_insert_Some, Htab, Hl. split.
    + intros [[-> <-] | [Hne (j & u & Hu & Hru & ->)]]; [by eauto 8 |].
      exists j, u. split_and!; [right; split; [congruence | done] | done | done].
    + intros (j & u & [[-> ->] | [Hne Hu]] & Hru & ->); [left; split; congruence |].
      right. split; [| by eauto]. intros ->. apply Hne.
      eapply Huniq; [exact Hu | exact Ht | by apply registered_live | done].
  - rewrite lookup_delete_Some, Htab. split.
    + intros [Hne (j & u & Hu & Hru & ->)].
      exists j, u. split_and!; [right; split; [congruence | done] | done | done].
    + intros (j & u & [[-> ->] | [Hne Hu]] & Hru & ->); [congruence |].
      split; [| by eauto]. intros ->. apply Hne.
      eapply Huniq; [exact Hu | exact Ht | by apply registered_live | by apply registered_live].
Qed.

Lemma table_step l sv sv' :
  server_step hello_from_slice sv sv' -> slots_ok l sv -> table_ok l sv -> table_ok l sv'.
Proof.
  intros [sv0 p i | sv0 bytes now0 nw ttl | sv0 i t e t' s' Ht Ha] (Hlim & _) Htab Hlen.
  - cbn in Hlen. rewrite length_app in Hlen. cbn in Hlen.
    destruct Htab as (Hn & Hlt & Hu & Ht); [lia |]. cbn.
    assert (Hsnoc : forall j (u : Thread) (q : Thread -> option N) id,
              q (Build_Thread p i false Accepted) = None ->
              (threads sv0 ++ [Build_Thread p i false Accepted]) !! j = Some u ->
              q u = Some id -> threads sv0 !! j = Some u).
    { intros j u q id Hq [Hj | [_ Hj]]%lookup_app_Some Hqu; [done |].
      apply list_lookup_singleton_Some in Hj as [_ <-]. congruence. }
    split_and!.
    + rewrite cnt_snoc. lia.
    + intros j u id Hj Hl. exact (Hlt _ _ _ (Hsnoc j u live_id id eq_refl Hj Hl) Hl).
    + intros j k u v id Hj Hk Hlu Hlv. 
      exact (Hu _ _ _ _ _ (Hsnoc j u live_id id eq_refl Hj Hlu)
               (Hsnoc k v live_id id eq_refl Hk Hlv) Hlu Hlv).
    + intros id c. rewrite Ht. split.
      * intros (j & u & Hj & Hr & ->). exists j, u. split_and!; [| done..].
        by apply lookup_app_l_Some.
      * intros (j & u & Hj & Hr & ->). exists j, u. split_and!; [| done..].
        exact (Hsnoc j u registered id eq_refl Hj Hr).
  - by apply Htab.
  - cbn in Hlen. rewrite length_insert in Hlen.
    destruct (Htab Hlen) as (Hn & Hlt & Hu & Hc). cbn.
    destruct (ids_step _ _ _ _ _ _ _ Hlen Ht Ha Hn Hlt Hu) as (? & ? & ?).
    split_and!; [done.. |]. by eapply conns_step.
Qed.

Definition server_ok (l : Limits) (sv : Server) : Prop :=
  slots_ok l sv /\ counters_ok sv /\ table_ok l sv.

Lemma new_server_ok l : server_ok l (new_server l).
Proof.
  split_and!.
  - split_and!; [done | done | cbn; lia].
  - split_and!; try done. by intros [].
  - intros _. split_and!; [cbn; lia | done | done |]. intros id c. cbn.
    rewrite lookup_empty. split; [done | by intros (? & ? & ? & _)].
Qed.

Lemma reachable_ok l sv :
  (max_connections l <= U64_MAX)%N ->
  server_reachable hello_from_slice l sv -> server_ok l sv.
Proof.
  intros Hw. unfold server_reachable. generalize (new_server_ok l).
  generalize (new_server l) as sv0. intros sv0 H0 Hr. induction Hr as [|x y z Hs _ IH]; [done |].
  apply IH. destruct H0 as (H1 & H2 & H3).
  split_and!; [by eapply slots_step | by eapply counters_step | by eapply table_step].
Qed.
End Steps.

(** ** Properties of the supervised server

    The concurrency cap, the accounting of connections and the contents of the
    connection table, for every reachable state of [Server.server_step]. *)

(** ** Lemmas *)

(** Every connection is counted once, or not yet. *)
Lemma length_by_outcome ts :
  length ts =
    (cnt (counted OBusy) ts + cnt (counted OAuth) ts + cnt (counted OPeer) ts
     + cnt (counted OProtocol) ts + cnt (counted OTimeout) ts + cnt (counted OIo) ts
     + cnt pending ts)%nat.
Proof.
  unfold cnt. induction ts as [|t ts IH]; [done |]. cbn [length List.filter].
  rewrite IH. unfold counted, pending.
  destruct (counted_as t) as [[]|]; repeat (case_bool_decide; simplify_eq); cbn [length]; lia.
Qed.

Lemma cnt_omap (q : Thread -> option N) p ts :
  (forall t id, q t = Some id -> p t = true) -> (length (omap q ts) <= cnt p ts)%nat.
Proof.
  intros H. unfold cnt. induction ts as [|t ts IH]; [done |]. cbn.
  destruct (q t) as [id|] eqn:Hq.
  - rewrite (H t id Hq). cbn. lia.
  - destruct (p t); cbn; lia.
Qed.

Lemma table_size l sv :
  table_ok l sv -> (N.of_nat (length (threads sv)) < U64_MAX)%N ->
  (size (conns (shared sv)) <= cnt holds_slot (threads sv))%nat.
Proof.
  intros Htab Hlen. destruct (Htab Hlen) as (_ & _ & _ & Hc).
  rewrite <- length_map_to_list, <- (length_fmap fst).
  etrans; [| by apply (cnt_omap registered), registered_holds].
  apply submseteq_length, NoDup_submseteq; [apply NoDup_fst_map_to_list |].
  intros id (x & -> & Hx)%list_elem_of_fmap. destruct x as [id c].
  apply elem_of_map_to_list, Hc in Hx as (i & t & Ht & Hr & _).
  apply list_elem_of_omap. exists t. split; [by eapply list_elem_of_lookup_2 | done].
Qed.

Lemma cnt_none p ts : Forall (fun t => p t = false) ts -> cnt p ts = 0%nat.
Proof. unfold cnt. induction 1 as [|t ts Ht _ IH]; cbn; [done |]. by rewrite Ht. Qed.

Definition finished (t : Thread) : bool := match t_phase t with Finished _ => true | _ => false end.

(** ** Schedules, for concrete runs *)

Inductive action :=
| AAccept (p : PeerDesc) (i : option PeerIdentity)
| AIssue (bytes : list byte) (now0 now ttl : N)
| AThread (i : nat) (e : Env).

Definition run_action f (a : action) (sv : Server) : Server :=
  match a with
  | AAccept p i => accept p i sv
  | AIssue bytes now0 now ttl => server_issue bytes now0 now ttl sv
  | AThread i e =>
      match threads sv !! i with
      | Some t => let '(t', s') := advance f e t (shared sv) in
                  {| shared := s'; threads := <[i := t']> (threads sv) |}
      | None => sv
      end
  end.

Lemma run_actions_reachable f l acts sv :
  server_reachable f l sv -> server_reachable f l (foldl (fun s a => run_action f a s) sv acts).
Proof.
  revert sv. induction acts as [|a acts IH]; intros sv H; [done |]. cbn. apply IH.
  unfold server_reachable in *. destruct a as [p i | bytes now0 nw ttl | i e]; cbn.
  - eapply rtc_r; [exact H | constructor].
  - eapply rtc_r; [exact H | constructor].
  - destruct (threads sv !! i) as [t|] eqn:Ht; [| done].
    destruct (advance f e t (shared sv)) as [t' s'] eqn:Ha.
    eapply rtc_r; [exact H | by econstructor].
Qed.

(** ** Properties *)

Section Properties.
Context (hello_from_slice : list byte -> option ClientHello) (l : Limits) (sv : Server).
Hypothesis max_is_usize : (max_connections l <= U64_MAX)%N.
Hypothesis reachable : server_reachable hello_from_slice l sv.

(** C24.  Whatever the interleaving and the spurious failures of the weak
    compare-and-exchange, the limiter's counter is the number of connections
    between their acquisition and their release, it never exceeds
    [max_connections] and [release] never wraps it; the table never holds
    more connections than that. *)
Theorem connection_limit_respected :
  current (shared sv) = N.of_nat (cnt holds_slot (threads sv)) /\
  (current (shared sv) <= max_connections l)%N /\
  ((N.of_nat (length (threads sv)) < U64_MAX)%N ->
     (N.of_nat (size (conns (shared sv))) <= max_connections l)%N).
Proof.
  destruct (reachable_ok _ _ _ max_is_usize reachable) as ((_ & Hc & Hm) & _ & Ht).
  split_and!; [done | done |]. intros Hlen. pose proof (table_size _ _ Ht Hlen). lia.
Qed.

(** Every accepted connection is counted under exactly one outcome when
    it ends: the [accepted] counter is the sum of the six outcome counters
    and the connections still in progress; once none is in progress no slot
    is taken and the table is empty. *)
Theorem connections_accounted :
  (N.of_nat (length (threads sv)) < U64_MAX)%N ->
  let st := stats (shared sv) in
  st_accepted st =
    (st_rejected_busy st + st_rejected_auth st + st_closed_peer st + st_closed_protocol st
     + st_closed_timeout st + st_closed_io st + N.of_nat (cnt pending (threads sv)))%N /\
  (Forall (fun t => finished t = true) (threads sv) ->
     cnt pending (threads sv) = 0%nat /\ current (shared sv) = 0%N /\ conns (shared sv) = ∅).
Proof.
  intros Hlen.
  destruct (reachable_ok _ _ _ max_is_usize reachable) as ((_ & Hc & Hm) & (Ha & Hs & _) & Ht).
  split.
  - pose proof (length_by_outcome (threads sv)) as Hsum.
    assert (Hk : forall k, stat k (stats (shared sv)) = N.of_nat (cnt (counted k) (threads sv))).
    { intros k. rewrite Hs. apply N.mod_small.
      pose proof (cnt_le_length (counted k) (threads sv)). unfold WRAP. lia. }
    pose proof (Hk OBusy). pose proof (Hk OAuth). pose proof (Hk OPeer).
    pose proof (Hk OProtocol). pose proof (Hk OTimeout). pose proof (Hk OIo). cbn [stat] in *.
    rewrite Ha, N.mod_small by (unfold WRAP; lia). lia.
  - intros Hfin.
    assert (H0 : cnt holds_slot (threads sv) = 0%nat).
    { apply cnt_none. eapply Forall_impl; [| exact Hfin].
      intros t. unfold finished, holds_slot. by destruct (t_phase t). }
    split_and!.
    + apply cnt_none. eapply Forall_impl; [| exact Hfin].
      intros t. unfold finished, pending, counted_as. by destruct (t_phase t).
    + rewrite Hc, H0. done.
    + pose proof (table_size _ _ Ht Hlen) as Hsz. rewrite H0 in Hsz.
      apply map_size_empty_inv. lia.
Qed.

(** The connection table is sound and complete: an entry is there
    exactly while its connection is between registration and removal, that
    connection has authenticated, the entry carries its own id and the peer
    and kernel identity the carrier reported, and no two live connections
    share an id. *)
Theorem table_holds_authenticated id c :
  (N.of_nat (length (threads sv)) < U64_MAX)%N ->
  (conns (shared sv) !! id = Some c <->
     exists i t, threads sv !! i = Some t /\ registered t = Some id /\ c = conn_of l id t) /\
  (forall i t, threads sv !! i = Some t -> registered t = Some id -> t_auth t = true) /\
  (forall i j t u, threads sv !! i = Some t -> threads sv !! j = Some u ->
     live_id t = Some id -> live_id u = Some id -> i = j).
Proof.
  intros Hlen.
  destruct (reachable_ok _ _ _ max_is_usize reachable) as (_ & (_ & _ & Hok & _) & Ht).
  destruct (Ht Hlen) as (_ & _ & Hu & Hc). split_and!; [apply Hc | | by intros; eapply Hu].
  intros i t Hi Hr. eapply Forall_lookup_1 in Hok; [| done].
  unfold auth_ok, registered in *. by destruct (t_phase t).
Qed.
End Properties.

(** ** Witnesses *)

Definition sample_env (stream : reader) : Env :=
  {| spurious := false; prepare_ok := true; hello_stream := stream; now := 110;
     reply_ok := true; loop_end := PeerClosed |}.

Definition sample_hello : reader :=
  [Chunk (encode_frame (toy_bytes "lt_00112233445566778899aabbccddeeff"))].

Definition one_slot : Limits :=
  {| max_frame_bytes := 65536; handshake_deadline := 10000; read_deadline := 30000;
     write_deadline := 30000; max_connections := 1 |}.

(** Two connections race for one slot: both observe zero, the first wins, is
    authenticated and registered, and the second is refused. *)
Definition sample_schedule : list action :=
  AIssue sample_random 100 100 50 :: AAccept (PTcp "a") None :: AAccept (PTcp "b") None ::
  AThread 0 (sample_env []) :: AThread 1 (sample_env []) ::
  AThread 0 (sample_env []) :: AThread 1 (sample_env []) ::
  AThread 0 (sample_env []) :: AThread 0 (sample_env []) ::
  AThread 0 (sample_env sample_hello) :: AThread 0 (sample_env []) :: AThread 0 (sample_env []) ::
  AThread 1 (sample_env []) :: AThread 1 (sample_env []) :: AThread 0 (sample_env []) :: [].

Definition sample_server : Server :=
  foldl (fun s a => run_action toy_hello_from_slice a s) (new_server one_slot) sample_schedule.

Lemma sample_server_reachable : server_reachable toy_hello_from_slice one_slot sample_server.
Proof. apply run_actions_reachable. unfold server_reachable. reflexivity. Qed.

Lemma connection_limit_respected_witness :
  map t_phase (threads sample_server) = [Serving 1; Finished OBusy] /\
  current (shared sample_server) = 1%N /\ (current (shared sample_server) <= 1)%N.
Proof.
  split; [vm_compute; reflexivity |]. split; [vm_compute; reflexivity |].
  destruct (connection_limit_respected toy_hello_from_slice one_slot sample_server
    ltac:(discriminate) sample_server_reachable) as (_ & H & _).
  exact H.
Defined.

Lemma connections_accounted_witness :
  st_accepted (stats (shared sample_server)) = 2%N /\
  st_rejected_busy (stats (shared sample_server)) = 1%N /\
  cnt pending (threads sample_server) = 1%nat /\
  (st_accepted (stats (shared sample_server)) =
    let st := stats (shared sample_server) in
    st_rejected_busy st + st_rejected_auth st + st_closed_peer st + st_closed_protocol st
    + st_closed_timeout st + st_closed_io st + N.of_nat (cnt pending (threads sample_server)))%N.
Proof.
  do 3 (split; [vm_compute; reflexivity |]).
  destruct (connections_accounted toy_hello_from_slice one_slot sample_server
    ltac:(discriminate) sample_server_reachable ltac:(vm_compute; reflexivity)) as [H _].
  exact H.
Defined.

Lemma table_holds_authenticated_witness :
  exists i t, threads sample_server !! i = Some t /\ registered t = Some 1%N /\
    conn_of one_slot 1 (Build_Thread (PTcp "a") None true (Serving 1)) = conn_of one_slot 1 t.
Proof.
  destruct (table_holds_authenticated toy_hello_from_slice one_slot sample_server
    ltac:(discriminate) sample_server_reachable 1
    (conn_of one_slot 1 (Build_Thread (PTcp "a") None true (Serving 1)))
    ltac:(vm_compute; reflexivity)) as [[H _] _].
  apply H. vm_compute. reflexivity.
Defined.
