(* ===== verification/WorkerLoop.v ===== *)
(** * The message loop of an established connection

    Model of [worker_loop] and [write_frame_all] of
    [crates/local-transport/src/server.rs].  One element of the script of
    [Tick]s is one iteration of the outer loop: the instants it reads, what the
    application does with its end of the queues and how each queued write ends.
    The carrier's [set_read_timeout] is a parameter. *)
From S2P Require Import Prelude Framing Credential Server.
From stdpp Require Import base list option.
From Stdlib Require Import NArith ZArith Lia Strings.Byte.

(** Durations are in milliseconds. *)
Definition WORKER_POLL_INTERVAL : N := 20.
Definition QUEUED_FRAMES : nat := 16.

Record Tick := {
  at_head : N;                             (* [Instant] read at the loop head *)
  at_read : N;                             (* [Instant] read after [read_frame] *)
  app_drains : nat;                        (* frames the application has received meanwhile *)
  app_alive : bool;                        (* the receiving end still exists *)
  writes : list (list byte * option ErrorKind) (* queued requests and how their write ends *)
}.

(** The loop's locals and channels.  [delivered] is every frame ever enqueued. *)
Record Worker := {
  stream : reader;
  last_activity : N;
  queue : list (list byte);
  delivered : list (list byte);
  sent : list byte;
  acks : list (result ErrorKind unit)
}.

Definition start_worker (r : reader) (now : N) : Worker :=
  {| stream := r; last_activity := now; queue := []; delivered := []; sent := []; acks := [] |}.

Definition elapsed (now since : N) : N := (now - since)%N.

(** The inner loop: drain the pending write queue. *)
Fixpoint drain_writes (ws : list (list byte * option ErrorKind)) (w : Worker) :
    option EndReason * Worker :=
  match ws with
  | [] => (None, w)
  | (payload, None) :: ws =>
      drain_writes ws
        {| stream := stream w; last_activity := last_activity w; queue := queue w;
           delivered := delivered w; sent := sent w ++ encode_frame payload;
           acks := acks w ++ [Ok tt] |}
  | (_, Some k) :: _ =>
      (Some (if is_timeout_kind k then EndTimeout else EndIo),
       {| stream := stream w; last_activity := last_activity w; queue := queue w;
          delivered := delivered w; sent := sent w; acks := acks w ++ [Err k] |})
  end.

(** [read_tx.try_send]: fails when the queue is full or the receiver is gone. *)
Definition try_send (t : Tick) (frame : list byte) (w : Worker) : option Worker :=
  let q := drop (app_drains t) (queue w) in
  if app_alive t && (length q <? QUEUED_FRAMES)%nat then
    Some {| stream := stream w; last_activity := last_activity w; queue := q ++ [frame];
            delivered := delivered w ++ [frame]; sent := sent w; acks := acks w |}
  else None.

Definition set_stream (r : reader) (w : Worker) : Worker :=
  {| stream := r; last_activity := last_activity w; queue := queue w; delivered := delivered w;
     sent := sent w; acks := acks w |}.
Definition touch (now : N) (w : Worker) : Worker :=
  {| stream := stream w; last_activity := now; queue := queue w; delivered := delivered w;
     sent := sent w; acks := acks w |}.

Section Loop.
(** Whether the carrier accepts a read timeout of that many milliseconds. *)
Context (set_read_timeout : N -> bool) (limits : Limits).

(** One iteration: the end reason, or [None] to go round again. *)
Definition iteration (t : Tick) (w : Worker) : option EndReason * Worker :=
  let remaining := (read_deadline limits - elapsed (at_head t) (last_activity w))%N in
  let tick := N.min remaining WORKER_POLL_INTERVAL in
  if negb (set_read_timeout tick) then (Some EndIo, w) else
  match read_frame (max_frame_bytes limits) (stream w) with
  | (Ok (Some frame), r) =>
      match try_send t frame (touch (at_read t) (set_stream r w)) with
      | Some w => drain_writes (writes t) w
      | None => (Some EndTimeout, touch (at_read t) (set_stream r w))
      end
  | (Ok None, r) => (Some PeerClosed, set_stream r w)
  | (Err (Io k), r) =>
      if is_timeout_kind k then
        if (read_deadline limits <=? elapsed (at_read t) (last_activity w))%N
        then (Some EndTimeout, set_stream r w)
        else drain_writes (writes t) (set_stream r w)
      else (Some EndIo, set_stream r w)
  | (Err (Frame _), r) => (Some EndProtocol, set_stream r w)
  end.

(** [worker_loop]; [None] when the script ends before the loop does. *)
Fixpoint worker_loop (ts : list Tick) (w : Worker) : option EndReason * Worker :=
  match ts with
  | [] => (None, w)
  | t :: ts =>
      match iteration t w with
      | (Some e, w) => (Some e, w)
      | (None, w) => worker_loop ts w
      end
  end.
End Loop.

(** ** Lemmas *)

Lemma drain_writes_frame ws w e w' :
  drain_writes ws w = (e, w') ->
  stream w' = stream w /\ last_activity w' = last_activity w /\ queue w' = queue w /\
  delivered w' = delivered w.
Proof.
  revert w. induction ws as [|[p [k|]] ws IH]; intros w H; cbn in H.
  - by simplify_eq.
  - by simplify_eq.
  - by apply IH in H.
Qed.

(** When every queued write succeeds the drain ends with nothing pending. *)
Lemma drain_writes_ok ws w :
  Forall (fun x => x.2 = None) ws ->
  exists w', drain_writes ws w = (None, w') /\
    sent w' = sent w ++ concat (map (fun x => encode_frame x.1) ws).
Proof.
  intros H. revert w. induction H as [|[p k] ws Hk _ IH]; intros w.
  - exists w. by rewrite app_nil_r.
  - cbn in Hk. subst k. cbn. edestruct IH as (w' & Hd & Hs). exists w'. split; [exact Hd |].
    rewrite Hs. cbn. by rewrite <- app_assoc.
Qed.

(** A read that times out inside a frame throws away the bytes it took. *)

Lemma read_some_fails k r n : k <> Interrupted -> n <> 0%nat ->
  read_some (Fails k :: r) n = (Err k, r).
Proof. intros Hk Hn. destruct n; [done |]. cbn. by destruct k. Qed.

Lemma read_some_short a k r n :
  a <> [] -> (length a < n)%nat -> k <> Interrupted ->
  read_some (Chunk a :: Fails k :: r) n = (Err k, r).
Proof.
  intros Ha Hn Hk. destruct n as [|n]; [lia |]. destruct a as [|x a]; [done |].
  change (read_some (Chunk (x :: a) :: Fails k :: r) (S n)) with
    (if (length (x :: a) <=? S n)%nat then
       let '(res, r'') := read_some (Fails k :: r) (S n - length (x :: a)) in
       (match res with Ok rest => Ok ((x :: a) ++ rest) | Err k => Err k end, r'')
     else (Ok (take (S n) (x :: a)), Chunk (drop (S n) (x :: a)) :: Fails k :: r)).
  destruct (Nat.leb_spec (length (x :: a)) (S n)); [| lia].
  by rewrite read_some_fails by (done || lia).
Qed.

Lemma read_some_enough a r n :
  (n <= length a)%nat -> n <> 0%nat ->
  read_some (Chunk a :: r) n =
    (Ok (take n a), if (length a =? n)%nat then r else Chunk (drop n a) :: r).
Proof.
  intros Hn H0. destruct n as [|n]; [done |]. destruct a as [|x a]; [cbn in Hn; lia |].
  change (read_some (Chunk (x :: a) :: r) (S n)) with
    (if (length (x :: a) <=? S n)%nat then
       let '(res, r'') := read_some r (S n - length (x :: a)) in
       (match res with Ok rest => Ok ((x :: a) ++ rest) | Err k => Err k end, r'')
     else (Ok (take (S n) (x :: a)), Chunk (drop (S n) (x :: a)) :: r)).
  destruct (Nat.leb_spec (length (x :: a)) (S n)) as [Hle |].
  - assert (Heq : length (x :: a) = S n) by lia. rewrite Heq, Nat.sub_diag, Nat.eqb_refl.
    replace (read_some r 0) with (@Ok ErrorKind (list byte) [], r) by by destruct r.
    by rewrite app_nil_r, take_ge by lia.
  - destruct (Nat.eqb_spec (length (x :: a)) (S n)); [lia | done].
Qed.

Lemma read_frame_partial max p a b r k :
  encode_frame p = a ++ b -> a <> [] -> b <> [] -> (len p <= max)%N -> (len p < 2 ^ 32)%N ->
  k <> Interrupted ->
  read_frame max (Chunk a :: Fails k :: r) = (Err (Io k), r).
Proof.
  intros Hsplit Ha Hb Hmax H32 Hk. unfold read_frame, LENGTH_PREFIX_BYTES.
  assert (Hlen : (length a + length b = 4 + length p)%nat).
  { rewrite <- length_app, <- Hsplit. unfold encode_frame, u32_to_le_bytes.
    by rewrite length_app, length_le_bytes. }
  assert (Hbl : (1 <= length b)%nat) by (destruct b; [done | cbn; lia]).
  destruct (decide (length a < 4)%nat) as [Hlt | Hge]; [by rewrite read_some_short |].
  rewrite read_some_enough by lia.
  assert (Hval : u32_from_le_bytes (take 4 a) = len p).
  { rewrite <- (take_app_le a b) by lia. rewrite <- Hsplit.
    destruct (take_drop_encoded p []) as [Htake _]. rewrite app_nil_r in Htake.
    rewrite Htake. unfold as_u32. rewrite N.mod_small by done. by apply u32_round_trip. }
  rewrite Hval. replace (len (take 4 a)) with 4%N by (rewrite len_take; unfold len; lia).
  cbn [N.eqb N.ltb N.compare Pos.compare Pos.compare_cont Pos.eqb].
  destruct (N.ltb_spec max (len p)); [lia |].
  destruct (Nat.eqb_spec (length a) 4).
  - rewrite read_some_fails by (done || (unfold len; lia)). done.
  - rewrite read_some_short; [done | | | done].
    + intros Hd%(f_equal length). rewrite length_drop in Hd. cbn in Hd. lia.
    + rewrite length_drop. unfold len. lia.
Qed.

(** What every iteration preserves: the receive queue stays within its bound
    and is made of delivered frames; those respect the frame limit. *)
Definition worker_ok (max : N) (w : Worker) : Prop :=
  (length (queue w) <= QUEUED_FRAMES)%nat /\ queue w `suffix_of` delivered w /\
  Forall (fun f => (len f <= max)%N) (delivered w).

Lemma read_some_length r n bs r' : read_some r n = (Ok bs, r') -> (length bs <= n)%nat.
Proof.
  revert n bs r'. induction r as [|[c|k] r IH]; intros n bs r' H.
  - destruct n; cbn in H; simplify_eq; cbn; lia.
  - destruct n as [|n]; [cbn in H; simplify_eq; cbn; lia |].
    destruct c as [|x c]; [cbn in H; simplify_eq; cbn; lia |].
    destruct (decide (length (x :: c) <= S n)%nat) as [Hle | Hgt].
    + change (read_some (Chunk (x :: c) :: r) (S n)) with
        (if (length (x :: c) <=? S n)%nat then
           let '(res, r'') := read_some r (S n - length (x :: c)) in
           (match res with Ok rest => Ok ((x :: c) ++ rest) | Err k => Err k end, r'')
         else (Ok (take (S n) (x :: c)), Chunk (drop (S n) (x :: c)) :: r)) in H.
      destruct (Nat.leb_spec (length (x :: c)) (S n)); [| lia].
      destruct (read_some r _) as [[rest|] r1] eqn:E; simplify_eq.
      apply IH in E. cbn in *. rewrite length_app. lia.
    + rewrite read_some_enough in H by lia. injection H as <- <-. cbn. rewrite length_take. lia.
  - destruct n as [|n]; [cbn in H; simplify_eq; cbn; lia |].
    destruct k; [by apply (IH (S n) bs r') | done..].
Qed.

Lemma read_frame_length max r p r' : read_frame max r = (Ok (Some p), r') -> (len p <= max)%N.
Proof.
  unfold read_frame. destruct (read_some r _) as [[hd|k] r1]; [| done].
  destruct (len hd =? 0)%N; [done |]. destruct (len hd <? 4)%N; [done |].
  destruct (N.ltb_spec max (u32_from_le_bytes hd)) as [|Hle]; [done |].
  destruct (read_some r1 _) as [[bs|] r2] eqn:E; [| done]. apply read_some_length in E.
  destruct (_ <? _)%N; [done |]. intros [= <- <-]. unfold len. lia.
Qed.

Lemma try_send_ok max t f w w' :
  worker_ok max w -> (len f <= max)%N -> try_send t f w = Some w' ->
  worker_ok max w' /\ delivered w' = delivered w ++ [f] /\ stream w' = stream w /\
  sent w' = sent w /\ (length (queue w') <= S (length (queue w) - app_drains t))%nat.
Proof.
  intros (Hq & Hsuf & Hall) Hf. unfold try_send.
  destruct (app_alive t && _) eqn:E; [| done]. intros [= <-]. cbn.
  apply andb_true_iff in E as [_ E%Nat.ltb_lt]. rewrite length_app, length_drop. cbn.
  split_and!; [| done..| lia]. unfold worker_ok. cbn. split_and!.
  - rewrite length_app. cbn. lia.
  - destruct Hsuf as [k ->]. exists (k ++ take (app_drains t) (queue w)).
    by rewrite <- !app_assoc, (app_assoc (take _ _)), take_drop.
  - apply Forall_app. split; [done |]. by repeat constructor.
Qed.

Lemma worker_ok_same max w w' :
  queue w' = queue w -> delivered w' = delivered w -> worker_ok max w -> worker_ok max w'.
Proof. unfold worker_ok. by intros -> ->. Qed.

Lemma iteration_ok srt limits t w e w' :
  iteration srt limits t w = (e, w') ->
  worker_ok (max_frame_bytes limits) w -> worker_ok (max_frame_bytes limits) w'.
Proof.
  unfold iteration. intros H Hok. destruct (negb _); [by simplify_eq |].
  destruct (read_frame _ (stream w)) as [[[f|]|[fe|k]] r] eqn:E.
  - destruct (try_send t f _) as [w1|] eqn:Es; [| by simplify_eq].
    apply try_send_ok with (max := max_frame_bytes limits) in Es as [Hok1 _];
      [| done | by eapply read_frame_length].
    apply drain_writes_frame in H as (_ & _ & Hq & Hd). by eapply worker_ok_same.
  - by simplify_eq.
  - by simplify_eq.
  - destruct (is_timeout_kind k); [| by simplify_eq].
    destruct (_ <=? _)%N; [by simplify_eq |].
    apply drain_writes_frame in H as (_ & _ & Hq & Hd). by eapply worker_ok_same.
Qed.

(** ** Properties *)

(** Any fragmentation of any frames within the limit, followed by the
    peer's EOF, is delivered in order and completely, and the loop ends with
    [PeerClosed], as long as the carrier accepts its timeouts, the application
    keeps receiving and the queued writes succeed. *)
Theorem worker_delivers_in_order srt limits ts r t0 ps :
  (max_frame_bytes limits < 2 ^ 32)%N -> (forall n, srt n = true) ->
  Forall (fun t => app_alive t = true /\ (1 <= app_drains t)%nat /\
                   Forall (fun x => x.2 = None) (writes t)) ts ->
  (length ps < length ts)%nat -> Forall (fun p => (len p <= max_frame_bytes limits)%N) ps ->
  clean r -> bytes_of r = concat (encode_frame <$> ps) ->
  exists w, worker_loop srt limits ts (start_worker r t0) = (Some PeerClosed, w) /\
    delivered w = ps.
Proof.
  intros H32 Hsrt Hts Hlen Hps Hc Hb.
  enough (Hgen : forall w, stream w = r -> (length (queue w) <= 1)%nat ->
            worker_ok (max_frame_bytes limits) w ->
            exists w', worker_loop srt limits ts w = (Some PeerClosed, w') /\
              delivered w' = delivered w ++ ps).
  { apply (Hgen (start_worker r t0)); [done | cbn; lia |].
    split_and!; [cbn; lia | done | by constructor]. }
  revert ts r Hts Hlen Hc Hb. induction Hps as [|p ps Hp Hps IH];
    intros [|t ts] r Hts Hlen Hc Hb w Hs Hq Hok; cbn in Hlen; try lia;
    inversion_clear Hts as [|?? (Halive & Hdr & Hw) Hts'];
    destruct (read_frame_decode (max_frame_bytes limits) r Hc) as (r' & Hr & Hc' & Hb');
    cbn [worker_loop]; unfold iteration; rewrite Hsrt, Hs, Hr, Hb; cbn [negb].
  - cbn. eexists. split; [reflexivity |]. cbn. by rewrite app_nil_r.
  - rewrite Hb in Hb'. cbn [fmap list_fmap concat] in Hb' |- *.
    rewrite decode_encoded in Hb' |- * by lia. cbn [fst snd] in Hb' |- *.
    destruct (try_send t p (touch (at_read t) (set_stream r' w))) as [w1|] eqn:Es.
    2: { unfold try_send in Es. rewrite Halive in Es. cbn in Es.
         destruct (Nat.leb_spec (length (drop (app_drains t) (queue w))) 15) as [|Hbad]; [done |].
         rewrite length_drop in Hbad. lia. }
    apply try_send_ok with (max := max_frame_bytes limits) in Es
      as (Hok1 & Hd1 & Hs1 & _ & Hq1); [| done | done]. cbn in Hd1, Hs1, Hq1.
    destruct (drain_writes_ok (writes t) w1 Hw) as (w2 & Hdw & _). rewrite Hdw.
    apply drain_writes_frame in Hdw as (Hs2 & _ & Hq2 & Hd2).
    destruct (IH ts r' Hts' ltac:(lia) Hc' Hb' w2) as (w' & Hloop & Hdel).
    + by rewrite Hs2.
    + rewrite Hq2. lia.
    + by eapply worker_ok_same.
    + exists w'. split; [done |]. rewrite Hdel, Hd2, Hd1, <- app_assoc. done.
Qed.

(** Whatever the peer, the application and the carrier do, the receive
    queue never holds more than [QUEUED_FRAMES] frames, what it holds is the
    end of the sequence of delivered frames, and no delivered frame exceeds
    the limit. *)
Theorem worker_memory_bounded srt limits ts r t0 e w :
  worker_loop srt limits ts (start_worker r t0) = (e, w) ->
  worker_ok (max_frame_bytes limits) w.
Proof.
  intros H. assert (H0 : worker_ok (max_frame_bytes limits) (start_worker r t0)).
  { split_and!; [cbn; lia | done | by constructor]. }
  revert H H0. generalize (start_worker r t0) as w0.
  induction ts as [|t ts IH]; intros w0 H H0; cbn in H; [by simplify_eq |].
  destruct (iteration srt limits t w0) as [[e1|] w1] eqn:E.
  - simplify_eq. by eapply iteration_ok.
  - eapply IH; [exact H |]. by eapply iteration_ok.
Qed.

(** A frame that arrives in two pieces with a pause longer than the poll
    tick between them is corrupted: the tick's timeout surfaces in the middle
    of [read_frame], the loop goes round, and the bytes already taken are
    gone, so that the rest of the frame is parsed as the start of a new one. *)
Theorem partial_frame_lost srt limits t ts w p a b r :
  encode_frame p = a ++ b -> a <> [] -> b <> [] ->
  (len p <= max_frame_bytes limits)%N -> (len p < 2 ^ 32)%N ->
  stream w = Chunk a :: Fails TimedOut :: Chunk b :: r ->
  (forall n, srt n = true) -> writes t = [] ->
  (elapsed (at_read t) (last_activity w) < read_deadline limits)%N ->
  worker_loop srt limits (t :: ts) w =
    worker_loop srt limits ts (set_stream (Chunk b :: r) w).
Proof.
  intros Hsplit Ha Hb Hmax H32 Hs Hsrt Hw Hel. cbn [worker_loop]. unfold iteration.
  rewrite Hsrt, Hs, (read_frame_partial _ p a b) by done. cbn [negb is_timeout_kind].
  destruct (N.leb_spec (read_deadline limits) (elapsed (at_read t) (last_activity w))); [lia |].
  by rewrite Hw.
Qed.

(** ** Witnesses *)

Definition sample_tick (now : N) : Tick :=
  {| at_head := now; at_read := now; app_drains := 1; app_alive := true; writes := [] |}.

Lemma worker_delivers_in_order_witness :
  exists w, worker_loop (fun _ => true) default_limits [sample_tick 1; sample_tick 2; sample_tick 3]
      (start_worker sample_reader 0) = (Some PeerClosed, w) /\ delivered w = [[x68; x69]; []].
Proof.
  apply (worker_delivers_in_order (fun _ => true) default_limits
    [sample_tick 1; sample_tick 2; sample_tick 3] sample_reader 0 [[x68; x69]; []]).
  - reflexivity.
  - reflexivity.
  - repeat constructor; done.
  - cbn. lia.
  - repeat constructor; discriminate.
  - exact sample_clean.
  - reflexivity.
Defined.

Lemma worker_memory_bounded_witness :
  worker_ok 65536
    (worker_loop (fun _ => true) default_limits [sample_tick 1] (start_worker sample_reader 0)).2.
Proof.
  apply (worker_memory_bounded (fun _ => true) default_limits [sample_tick 1] sample_reader 0
    (worker_loop (fun _ => true) default_limits [sample_tick 1] (start_worker sample_reader 0)).1).
  vm_compute. reflexivity.
Defined.

(** ["hello"] in two pieces ends in a protocol violation with nothing delivered;
    without the pause it is delivered. *)
Lemma partial_frame_lost_witness :
  let w := start_worker [Chunk [x05; x00; x00]; Fails TimedOut;
                         Chunk [x00; x68; x65; x6c; x6c; x6f]] 0 in
  (worker_loop (fun _ => true) default_limits [sample_tick 20; sample_tick 30] w).1
    = Some EndProtocol /\
  delivered (worker_loop (fun _ => true) default_limits [sample_tick 20; sample_tick 30] w).2 = [].
Proof.
  intros w.
  rewrite (partial_frame_lost (fun _ => true) default_limits (sample_tick 20) [sample_tick 30] w
    [x68; x65; x6c; x6c; x6f] [x05; x00; x00] [x00; x68; x65; x6c; x6c; x6f] []
    eq_refl ltac:(discriminate) ltac:(discriminate) ltac:(discriminate) eq_refl eq_refl
    (fun _ => eq_refl) eq_refl eq_refl).
  split; vm_compute; reflexivity.
Defined.
