(* ===== verification/Civil.v ===== *)
(** * Calendar and RFC 3339 timestamps

    Model of [civil_from_days] and [now_timestamp_like] of
    [crates/daemon/src/envelope.rs], of [rfc3339_at] and its own
    [civil_from_days] in [crates/adapter-dsh-std/src/time.rs], and of
    [parse_rfc3339], [Cursor] and [days_from_civil] of
    [crates/daemon/src/scheduler.rs].  [i64] arithmetic is [Z] with truncating
    division ([Z.quot], [Z.rem]) where the source divides signed values; a
    [SystemTime] is its distance from the epoch in milliseconds, the finest
    grain the code uses. *)
From S2P Require Import Prelude.
From stdpp Require Import base list option strings.
From Stdlib Require Import NArith ZArith Lia Ascii.
#[local] Open Scope Z_scope.

(** ** Days and dates *)

(** [envelope::civil_from_days] *)
Definition civil_from_days (days : Z) : Z * Z * Z :=
  let z := days + 719468 in
  let era := Z.quot (if 0 <=? z then z else z - 146096) 146097 in
  let doe := z - era * 146097 in
  let yoe := (doe - doe / 1460 + doe / 36524 - doe / 146096) / 365 in
  let year := yoe + era * 400 in
  let doy := doe - (365 * yoe + yoe / 4 - yoe / 100) in
  let mp := (5 * doy + 2) / 153 in
  let day := doy - (153 * mp + 2) / 5 + 1 in
  let month := if mp <? 10 then mp + 3 else mp - 9 in
  (if month <=? 2 then year + 1 else year, month, day).

(** [time::civil_from_days]: the same algorithm with Euclidean division. *)
Definition civil_from_days_euclid (days : Z) : Z * Z * Z :=
  let z := days + 719468 in
  let era := z / 146097 in
  let doe := z mod 146097 in
  let yoe := Z.quot (doe - Z.quot doe 1460 + Z.quot doe 36524 - Z.quot doe 146096) 365 in
  let year := yoe + era * 400 in
  let doy := doe - (365 * yoe + Z.quot yoe 4 - Z.quot yoe 100) in
  let mp := Z.quot (5 * doy + 2) 153 in
  let day := doy - Z.quot (153 * mp + 2) 5 + 1 in
  let month := if mp <? 10 then mp + 3 else mp - 9 in
  (if month <=? 2 then year + 1 else year, month, day).

(** [scheduler::days_from_civil] *)
Definition days_from_civil (year month day : Z) : Z :=
  let year := if month <=? 2 then year - 1 else year in
  let era := Z.quot (if 0 <=? year then year else year - 399) 400 in
  let year_of_era := year - era * 400 in
  let month_prime := Z.rem (month + 9) 12 in
  let day_of_year := Z.quot (153 * month_prime + 2) 5 + day - 1 in
  let day_of_era :=
    year_of_era * 365 + Z.quot year_of_era 4 - Z.quot year_of_era 100 + day_of_year in
  era * 146097 + day_of_era - 719468.

(** ** Printing *)

Definition digit_char (d : Z) : ascii := ascii_of_N (Z.to_N (48 + d)).

(** Decimal digits of a non-negative number, most significant first. *)
Fixpoint decimal (fuel : nat) (n : Z) : list ascii :=
  match fuel with
  | O => []
  | S fuel => if n <? 10 then [digit_char n] else decimal fuel (n / 10) ++ [digit_char (n mod 10)]
  end.

(** [{n:0w}] *)
Definition zero_padded (w : nat) (n : Z) : list ascii :=
  let body := decimal (S (Z.to_nat (Z.log2 (Z.abs n)))) (Z.abs n) in
  let sign := if n <? 0 then ["-"%char] else [] in
  sign ++ repeat "0"%char (w - length sign - length body) ++ body.

Definition timestamp (year month day hour minute second millis : Z) : list ascii :=
  zero_padded 4 year ++ ["-"%char] ++ zero_padded 2 month ++ ["-"%char] ++ zero_padded 2 day
  ++ ["T"%char] ++ zero_padded 2 hour ++ [":"%char] ++ zero_padded 2 minute ++ [":"%char]
  ++ zero_padded 2 second ++ ["."%char] ++ zero_padded 3 millis ++ ["Z"%char].

(** [now_timestamp_like]; a time before the epoch prints as the epoch. *)
Definition now_timestamp_like (time : Z) : list ascii :=
  let now := Z.max 0 time in
  let secs := now / 1000 in
  let days := secs / 86400 in
  let rem := secs mod 86400 in
  let '(year, month, day) := civil_from_days days in
  timestamp year month day (rem / 3600) (rem mod 3600 / 60) (rem mod 60) (now mod 1000).

(** [rfc3339_at] *)
Definition rfc3339_at (secs millis : Z) : list ascii :=
  let days := secs / 86400 in
  let secs_of_day := secs mod 86400 in
  let '(year, month, day) := civil_from_days_euclid days in
  timestamp year month day (secs_of_day / 3600) (secs_of_day mod 3600 / 60) (secs_of_day mod 60)
    millis.

(** ** Parsing *)

(** [Cursor], as the bytes from [pos] on: [pos += 1] drops one, [done] is
    emptiness. *)
Definition Cursor := list ascii.

Definition byte_val (c : ascii) : Z := Z.of_N (N_of_ascii c).
Definition U32_MAX : Z := 4294967295.
Definition I64_MIN : Z := -9223372036854775808.
Definition I64_MAX : Z := 9223372036854775807.

(** [Cursor::peek] *)
Definition peek (c : Cursor) : option ascii := head c.

(** [Cursor::eat] *)
Definition eat (expected : ascii) (c : Cursor) : option Cursor :=
  match c with
  | b :: c => if Ascii.eqb b expected then Some c else None
  | [] => None
  end.

(** The digit value of a byte: [byte.checked_sub(b'0')] and [digit > 9]. *)
Definition digit_val (b : ascii) : option Z :=
  if (byte_val b <? 48) || (9 <? byte_val b - 48) then None else Some (byte_val b - 48).

(** [Cursor::digits], accumulating in [value]. *)
Fixpoint digits_from (value : Z) (count : nat) (c : Cursor) : option (Z * Cursor) :=
  match count with
  | O => Some (value, c)
  | S count =>
      match c with
      | [] => None
      | b :: c =>
          match digit_val b with
          | None => None
          | Some d =>
              if U32_MAX <? value * 10 then None
              else if U32_MAX <? value * 10 + d then None
              else digits_from (value * 10 + d) count c
          end
      end
  end.
Definition digits (count : nat) (c : Cursor) : option (Z * Cursor) := digits_from 0 count c.

(** The first loop over the fraction: at most three digits are kept. *)
Fixpoint fraction (more : nat) (scale millis : Z) (c : Cursor) : Z * Cursor :=
  match more, c with
  | S more, b :: c' =>
      match digit_val b with
      | Some d => fraction more (scale / 10) (millis + d * scale) c'
      | None => (millis, c)
      end
  | _, _ => (millis, c)
  end.

(** The second loop: further digits are skipped. *)
Fixpoint skip_digits (c : Cursor) : Cursor :=
  match c with
  | b :: c' => match digit_val b with Some _ => skip_digits c' | None => c end
  | [] => []
  end.

(** The zone designator: offset in seconds. *)
Definition zone (c : Cursor) : option (Z * Cursor) :=
  match c with
  | [] => None
  | b :: c =>
      if Ascii.eqb b "Z" || Ascii.eqb b "z" then Some (0, c)
      else if Ascii.eqb b "+" || Ascii.eqb b "-" then
        let sign := if Ascii.eqb b "-" then -1 else 1 in
        '(offset_hour, c) ← digits 2 c;
        c ← eat ":" c;
        '(offset_minute, c) ← digits 2 c;
        if (23 <? offset_hour) || (59 <? offset_minute) then None
        else Some (sign * (offset_hour * 3600 + offset_minute * 60), c)
      else None
  end.

(** [i64::checked_mul] and [checked_add]. *)
Definition checked_i64 (z : Z) : option Z :=
  if (I64_MIN <=? z) && (z <=? I64_MAX) then Some z else None.

(** [parse_rfc3339] *)
Definition parse_rfc3339 (input : list ascii) : option Z :=
  '(year, c) ← digits 4 input;
  c ← eat "-" c;
  '(month, c) ← digits 2 c;
  c ← eat "-" c;
  '(day, c) ← digits 2 c;
  c ← eat "T" c;
  '(hour, c) ← digits 2 c;
  c ← eat ":" c;
  '(minute, c) ← digits 2 c;
  c ← eat ":" c;
  '(second, c) ← digits 2 c;
  let '(millis, c) :=
    match peek c with
    | Some b =>
        if Ascii.eqb b "." then
          let '(m, c) := fraction 3 100 0 (tail c) in (m, skip_digits c)
        else (0, c)
    | None => (0, c)
    end in
  '(offset_secs, c) ← zone c;
  if negb (length c =? 0)%nat then None
  else if negb ((1 <=? month) && (month <=? 12)) || negb ((1 <=? day) && (day <=? 31))
          || (23 <? hour) || (59 <? minute) || (60 <? second) then None
  else
    let days := days_from_civil year month day in
    let unix_secs := days * 86400 + hour * 3600 + minute * 60 + second - offset_secs in
    ms ← checked_i64 (unix_secs * 1000);
    millis_total ← checked_i64 (ms + millis);
    if millis_total <? 0 then None else Some millis_total.

(** ** Lemmas on dates *)

(** Year and day of the year within a 400-year era. *)
Lemma era_bounds doe :
  0 <= doe < 146097 ->
  let yoe := (doe - doe / 1460 + doe / 36524 - doe / 146096) / 365 in
  0 <= yoe <= 399 /\ 0 <= doe - (365 * yoe + yoe / 4 - yoe / 100) <= 365.
Proof.
  intros H yoe. subst yoe.
  Z.to_euclidean_division_equations. lia.
Qed.

(** Month and day within a year that starts in March. *)
Lemma month_bounds doy :
  0 <= doy <= 365 ->
  let mp := (5 * doy + 2) / 153 in
  0 <= mp <= 11 /\ 1 <= doy - (153 * mp + 2) / 5 + 1 <= 31.
Proof. intros H mp. subst mp. Z.to_euclidean_division_equations. lia. Qed.

Lemma quot_floor a b c :
  0 < b -> c = b - 1 -> Z.quot (if 0 <=? a then a else a - c) b = a / b.
Proof.
  intros Hb ->. destruct (Z.leb_spec 0 a); Z.to_euclidean_division_equations; nia.
Qed.

Lemma quot_div_nonneg a b : 0 <= a -> 0 < b -> Z.quot a b = a / b.
Proof. intros. by apply Z.quot_div_nonneg. Qed.

(** The date of a day, in terms of its era, year and day of the year. *)
Lemma civil_from_days_parts days :
  exists era yoe doy,
    days = era * 146097 + (365 * yoe + yoe / 4 - yoe / 100) + doy - 719468 /\
    0 <= yoe <= 399 /\ 0 <= doy <= 365 /\
    civil_from_days days =
      (let mp := (5 * doy + 2) / 153 in
       let month := if mp <? 10 then mp + 3 else mp - 9 in
       (if month <=? 2 then yoe + era * 400 + 1 else yoe + era * 400, month,
        doy - (153 * mp + 2) / 5 + 1)).
Proof.
  unfold civil_from_days. rewrite (quot_floor (days + 719468) 146097 146096) by done.
  set (era := (days + 719468) / 146097).
  set (doe := days + 719468 - era * 146097).
  assert (Hdoe : 0 <= doe < 146097).
  { subst doe era. Z.to_euclidean_division_equations. lia. }
  destruct (era_bounds doe Hdoe) as [Hy Hd].
  eexists era, _, _. split_and!; [| exact (proj1 Hy) | exact (proj2 Hy) | exact (proj1 Hd)
    | exact (proj2 Hd) | reflexivity].
  subst doe. lia.
Qed.

Lemma days_from_civil_from_days days :
  let '(y, m, d) := civil_from_days days in days_from_civil y m d = days.
Proof.
  destruct (civil_from_days_parts days) as (era & yoe & doy & Hdays & Hy & Hd & ->).
  destruct (month_bounds doy Hd) as [Hmp Hday].
  set (mp := (5 * doy + 2) / 153) in *. cbv zeta. unfold days_from_civil.
  assert (Hyear : forall m : Z,
    (if m <=? 2 then (if m <=? 2 then yoe + era * 400 + 1 else yoe + era * 400) - 1
     else (if m <=? 2 then yoe + era * 400 + 1 else yoe + era * 400)) = yoe + era * 400).
  { intros m. destruct (m <=? 2); lia. }
  rewrite Hyear, (quot_floor _ 400 399) by done.
  replace ((yoe + era * 400) / 400) with era
    by (rewrite Z.div_add, Z.div_small by lia; lia).
  replace (yoe + era * 400 - era * 400) with yoe by lia.
  assert (Hprime : Z.rem ((if mp <? 10 then mp + 3 else mp - 9) + 9) 12 = mp).
  { rewrite Z.rem_mod_nonneg by (destruct (mp <? 10) eqn:?; lia).
    destruct (Z.ltb_spec mp 10).
    - replace (mp + 3 + 9) with (mp + 1 * 12) by lia. rewrite Z.mod_add, Z.mod_small by lia. done.
    - replace (mp - 9 + 9) with mp by lia. rewrite Z.mod_small by lia. done. }
  rewrite Hprime, !quot_div_nonneg by lia. lia.
Qed.

Lemma civil_ranges days :
  let '(y, m, d) := civil_from_days days in
  1 <= m <= 12 /\ 1 <= d <= 31 /\ (0 <= days < 2932897 -> 1970 <= y <= 9999).
Proof.
  destruct (civil_from_days_parts days) as (era & yoe & doy & Hdays & Hy & Hd & ->).
  destruct (month_bounds doy Hd) as [Hmp Hday]. cbv zeta.
  assert (Hlate : (5 * doy + 2) / 153 < 10 -> doy <= 305)
    by (Z.to_euclidean_division_equations; lia).
  assert (Hearly : 10 <= (5 * doy + 2) / 153 -> 306 <= doy)
    by (Z.to_euclidean_division_equations; lia).
  set (mp := (5 * doy + 2) / 153) in *.
  assert (Hyr : 0 <= days < 2932897 -> 4 <= era <= 24 /\
            (era = 24 -> yoe = 399 -> doy < 306) /\ (era = 4 -> 369 <= yoe) /\
            (era = 4 -> yoe = 369 -> 306 <= doy)).
  { intros H. clearbody mp. clear Hlate Hearly Hmp Hday.
    assert (yoe / 4 <= 99 /\ 0 <= yoe / 4 /\ 0 <= yoe / 100 <= 3)
      by (Z.to_euclidean_division_equations; lia).
    split; [lia |]. split; [| split].
    - intros -> ->. change (399 / 4) with 99 in *. change (399 / 100) with 3 in *. lia.
    - intros ->. Z.to_euclidean_division_equations. lia.
    - intros -> ->. change (369 / 4) with 92 in *. change (369 / 100) with 3 in *. lia. }
  clearbody mp.
  destruct (Z.ltb_spec mp 10) as [Hlt | Hge];
    [destruct (Z.leb_spec (mp + 3) 2) | destruct (Z.leb_spec (mp - 9) 2)]; try lia;
    (split_and!; [lia | lia | lia | lia |]); intros H; specialize (Hyr H); lia.
Qed.

Lemma civil_from_days_euclid_eq days : civil_from_days_euclid days = civil_from_days days.
Proof.
  unfold civil_from_days_euclid, civil_from_days.
  rewrite (quot_floor (days + 719468) 146097 146096) by done.
  rewrite Z.mod_eq by done.
  replace (days + 719468 - 146097 * ((days + 719468) / 146097))
    with (days + 719468 - (days + 719468) / 146097 * 146097) by lia.
  set (doe := days + 719468 - (days + 719468) / 146097 * 146097).
  assert (Hdoe : 0 <= doe < 146097).
  { subst doe. Z.to_euclidean_division_equations. lia. }
  destruct (era_bounds doe Hdoe) as [Hy Hd].
  rewrite !(quot_div_nonneg doe) by lia.
  assert (0 <= doe - doe / 1460 + doe / 36524 - doe / 146096)
    by (clear - Hdoe; Z.to_euclidean_division_equations; lia).
  rewrite (quot_div_nonneg (doe - _ + _ - _)) by lia.
  set (yoe := (doe - doe / 1460 + doe / 36524 - doe / 146096) / 365) in *.
  rewrite !(quot_div_nonneg yoe) by lia.
  set (doy := doe - (365 * yoe + yoe / 4 - yoe / 100)) in *.
  destruct (month_bounds doy Hd) as [Hmp _].
  rewrite (quot_div_nonneg (5 * doy + 2)) by lia.
  by rewrite quot_div_nonneg by lia.
Qed.

(** ** Lemmas on printing and parsing *)

(** Fixed-width decimal. *)
Fixpoint fixed (w : nat) (n : Z) : list ascii :=
  match w with O => [] | S w => fixed w (n / 10) ++ [digit_char (n mod 10)] end.

Definition pad (w : nat) (l : list ascii) : list ascii := repeat "0"%char (w - length l) ++ l.

Lemma pad_snoc w l c : pad (S w) (l ++ [c]) = pad w l ++ [c].
Proof.
  unfold pad. rewrite length_app. cbn [length].
  replace (S w - (length l + 1))%nat with (w - length l)%nat by lia. by rewrite app_assoc.
Qed.

Lemma fixed_zero w : fixed w 0 = repeat "0"%char w.
Proof.
  induction w as [|w IH]; [done |]. cbn [fixed]. change (0 / 10) with 0. rewrite IH.
  change (digit_char (0 mod 10)) with "0"%char. by rewrite <- repeat_cons.
Qed.

Lemma pad_decimal fuel w n :
  0 <= n < 10 ^ Z.of_nat (S w) -> n < 10 ^ Z.of_nat fuel -> pad (S w) (decimal fuel n) = fixed (S w) n.
Proof.
  revert w n. induction fuel as [|fuel IH]; intros w n Hw Hf.
  { cbn in Hf. replace n with 0 by lia. rewrite fixed_zero. unfold pad. by rewrite app_nil_r. }
  cbn [decimal fixed]. destruct (Z.ltb_spec n 10) as [Hlt | Hge].
  - rewrite (Z.div_small n 10), (Z.mod_small n 10), fixed_zero by lia.
    change [digit_char n] with ([] ++ [digit_char n]). rewrite pad_snoc. unfold pad.
    rewrite app_nil_r. cbn [length]. by rewrite Nat.sub_0_r.
  - rewrite pad_snoc. f_equal.
    rewrite Nat2Z.inj_succ, Z.pow_succ_r in Hf, Hw by lia.
    destruct w as [|w]; [cbn in Hw; lia |].
    apply IH; Z.to_euclidean_division_equations; lia.
Qed.

Lemma zero_padded_fixed w n :
  0 <= n < 10 ^ Z.of_nat (S w) -> zero_padded (S w) n = fixed (S w) n.
Proof.
  intros H. unfold zero_padded. rewrite (Z.abs_eq n) by lia.
  destruct (Z.ltb_spec n 0); [lia |]. cbn [app length]. rewrite Nat.sub_0_r.
  rewrite <- (pad_decimal (S (Z.to_nat (Z.log2 n))) w n H); [done |].
  destruct (decide (n = 0)) as [-> | Hn]; [cbn; lia |].
  pose proof (Z.log2_nonneg n). rewrite Nat2Z.inj_succ, Z2Nat.id by lia.
  eapply Z.lt_le_trans; [by apply Z.log2_spec; lia |]. apply Z.pow_le_mono_l. lia.
Qed.

Lemma digit_val_char d : 0 <= d <= 9 -> digit_val (digit_char d) = Some d.
Proof.
  intros H. unfold digit_val, byte_val, digit_char.
  rewrite N_ascii_embedding by lia. rewrite Z2N.id by lia.
  destruct (Z.ltb_spec (48 + d) 48); [lia |].
  destruct (Z.ltb_spec 9 (48 + d - 48)); [lia |]. cbn. f_equal. lia.
Qed.

Lemma digits_from_app v w1 w2 c :
  digits_from v (w1 + w2) c =
    match digits_from v w1 c with Some (v, c) => digits_from v w2 c | None => None end.
Proof.
  revert v c. induction w1 as [|w1 IH]; intros v c; cbn; [done |].
  destruct c as [|b c]; [done |]. destruct (digit_val b); [| done].
  destruct (_ <? _); [done |]. destruct (_ <? _); [done |]. apply IH.
Qed.

Lemma digits_fixed w n rest :
  0 <= n < 10 ^ Z.of_nat w -> n <= U32_MAX -> digits w (fixed w n ++ rest) = Some (n, rest).
Proof.
  unfold digits. revert n rest. induction w as [|w IH]; intros n rest Hn Hu.
  { cbn in *. do 2 f_equal. lia. }
  cbn [fixed]. rewrite <- app_assoc. replace (S w) with (w + 1)%nat by lia.
  rewrite digits_from_app. rewrite Nat2Z.inj_succ, Z.pow_succ_r in Hn by lia.
  rewrite IH by (Z.to_euclidean_division_equations; lia). cbn [app digits_from].
  assert (Hm : 0 <= n mod 10 <= 9) by (Z.to_euclidean_division_equations; lia).
  rewrite digit_val_char by done.
  assert (Hd : n / 10 * 10 + n mod 10 = n) by (pose proof (Z.div_mod n 10); lia).
  destruct (Z.ltb_spec U32_MAX (n / 10 * 10)); [lia |]. rewrite Hd.
  by destruct (Z.ltb_spec U32_MAX n); [lia |].
Qed.

Lemma digits_padded w n rest :
  0 <= n < 10 ^ Z.of_nat (S w) -> n <= U32_MAX ->
  digits (S w) (zero_padded (S w) n ++ rest) = Some (n, rest).
Proof. intros. rewrite zero_padded_fixed by done. by apply digits_fixed. Qed.

Lemma fraction_padded n rest :
  0 <= n < 1000 -> fraction 3 100 0 (zero_padded 3 n ++ rest) = (n, rest).
Proof.
  intros H. rewrite zero_padded_fixed by (cbn; lia).
  cbn [fixed app fraction].
  rewrite !digit_val_char by (Z.to_euclidean_division_equations; lia).
  change (100 / 10) with 10. change (10 / 10) with 1. cbn [fraction].
  f_equal. Z.to_euclidean_division_equations. lia.
Qed.

Lemma eat_head b c : eat b (b :: c) = Some c.
Proof. unfold eat. by rewrite Ascii.eqb_refl. Qed.

(** Step the parser over a separator and a two-digit field. *)
Ltac parse_two :=
  rewrite eat_head; cbn [mbind option_bind];
  rewrite (digits_padded 1) by (unfold U32_MAX; cbn; lia); cbn [mbind option_bind app].

(** Parsing a printed timestamp. *)
Lemma parse_timestamp y mo d h mi s ms :
  0 <= y <= 9999 -> 1 <= mo <= 12 -> 1 <= d <= 31 -> 0 <= h <= 23 -> 0 <= mi <= 59 ->
  0 <= s <= 60 -> 0 <= ms < 1000 ->
  let total := (days_from_civil y mo d * 86400 + h * 3600 + mi * 60 + s) * 1000 + ms in
  0 <= total <= I64_MAX ->
  parse_rfc3339 (timestamp y mo d h mi s ms) = Some total.
Proof.
  intros Hy Hmo Hd Hh Hmi Hs Hms total Htot. unfold parse_rfc3339, timestamp, U32_MAX, I64_MAX in *.
  rewrite (digits_padded 3) by (unfold U32_MAX; cbn; lia). cbn [mbind option_bind app].
  do 5 parse_two. cbn [peek head tail].
  rewrite Ascii.eqb_refl, fraction_padded by lia.
  change (skip_digits ["Z"%char]) with ["Z"%char]. change (zone ["Z"%char]) with (Some (0, @nil ascii)).
  cbn [mbind option_bind length Nat.eqb negb].
  destruct (Z.leb_spec 1 mo), (Z.leb_spec mo 12), (Z.leb_spec 1 d), (Z.leb_spec d 31),
    (Z.ltb_spec 23 h), (Z.ltb_spec 59 mi), (Z.ltb_spec 60 s); try lia. cbn [andb orb negb].
  rewrite Z.sub_0_r. unfold checked_i64, I64_MIN, I64_MAX.
  set (secs := days_from_civil y mo d * 86400 + h * 3600 + mi * 60 + s) in *.
  destruct (Z.leb_spec (-9223372036854775808) (secs * 1000)),
    (Z.leb_spec (secs * 1000) 9223372036854775807); try lia. cbn [andb mbind option_bind].
  destruct (Z.leb_spec (-9223372036854775808) (secs * 1000 + ms)),
    (Z.leb_spec (secs * 1000 + ms) 9223372036854775807); try lia. cbn [andb mbind option_bind].
  by destruct (Z.ltb_spec (secs * 1000 + ms) 0); [lia |].
Qed.

(** ** Properties *)

(** Every instant from the epoch to the end of the year 9999, printed by
    [now_timestamp_like], is parsed back to the same millisecond by
    [parse_rfc3339]. *)
Theorem timestamp_round_trip t :
  0 <= t < 253402300800000 -> parse_rfc3339 (now_timestamp_like t) = Some t.
Proof.
  intros Ht. unfold now_timestamp_like. rewrite Z.max_r by lia.
  pose proof (days_from_civil_from_days (t / 1000 / 86400)) as Hdays.
  pose proof (civil_ranges (t / 1000 / 86400)) as Hr.
  destruct (civil_from_days (t / 1000 / 86400)) as [[y m] d].
  destruct Hr as (Hm & Hd & Hy).
  assert (Hy' : 1970 <= y <= 9999) by (apply Hy; clear - Ht; Z.to_euclidean_division_equations; lia).
  rewrite parse_timestamp; rewrite ?Hdays; unfold I64_MAX; try lia;
    try (clear - Ht; Z.to_euclidean_division_equations; lia).
  f_equal. clear - Ht. Z.to_euclidean_division_equations. lia.
Qed.

(** The two implementations of the calendar agree on every day, before
    the epoch too, and so do the two timestamp printers; converting a day to a
    date and back with the scheduler's inverse is the identity. *)
Theorem calendars_agree days secs ms :
  civil_from_days_euclid days = civil_from_days days /\
  (0 <= secs -> 0 <= ms < 1000 -> rfc3339_at secs ms = now_timestamp_like (secs * 1000 + ms)) /\
  let '(y, m, d) := civil_from_days days in days_from_civil y m d = days.
Proof.
  split; [apply civil_from_days_euclid_eq |]. split; [| apply days_from_civil_from_days].
  intros Hs Hm. unfold rfc3339_at, now_timestamp_like. rewrite Z.max_r by lia.
  rewrite Z.div_add_l, (Z.div_small ms), Z.add_0_r by lia.
  rewrite (Z.add_comm (secs * 1000)), Z.mod_add, (Z.mod_small ms) by lia.
  by rewrite civil_from_days_euclid_eq.
Qed.

(** ** Witnesses *)

Lemma timestamp_round_trip_witness :
  now_timestamp_like 1705314645123 = String.list_ascii_of_string "2024-01-15T10:30:45.123Z" /\
  parse_rfc3339 (String.list_ascii_of_string "2024-01-15T10:30:45.123Z") = Some 1705314645123.
Proof.
  split; [vm_compute; reflexivity |].
  apply (timestamp_round_trip 1705314645123). split; [discriminate | reflexivity].
Defined.

Lemma calendars_agree_witness :
  rfc3339_at 1705314645 123 = now_timestamp_like 1705314645123.
Proof.
  apply (calendars_agree 0 1705314645 123); [discriminate |]. split; [discriminate | reflexivity].
Defined.

(** The day is checked against [1..=31] only: a date that does not exist is
    accepted and read as a day of the next month. *)
Example impossible_date_rolls_over :
  parse_rfc3339 (String.list_ascii_of_string "2024-02-31T00:00:00Z") =
  parse_rfc3339 (String.list_ascii_of_string "2024-03-02T00:00:00Z") /\
  parse_rfc3339 (String.list_ascii_of_string "2024-03-02T00:00:00Z") <> None.
Proof. split; [vm_compute; reflexivity | vm_compute; discriminate]. Qed.
