(* ===== verification/Scheduler.v ===== *)
(** * The wake scheduler

    Model of [crates/daemon/src/scheduler.rs].  [Instant]s are milliseconds on
    the monotonic clock ([N]); [SystemTime]s are milliseconds from the epoch
    ([Z], as in [Civil]).  Every clock the code reads is an argument.  The
    deserialisation of a request ([serde_json]) is a parameter. *)
From S2P Require Import Prelude Civil.
From stdpp Require Import base list option strings pretty.
From Stdlib Require Import NArith ZArith Lia Ascii.

(** ** Constants and data *)

Definition WAKE_ID_MIN_LEN : nat := 8.
Definition WAKE_ID_MAX_LEN : nat := 128.
Definition MIN_INTERVAL_MS : N := 50.
Definition MAX_INTERVAL_MS : N := 86400000.
Definition IDLE_POLL : N := 50.

Inductive WakeReason := ScheduledDue | RecoveryRetry | UserRequested.

Record WakeRepeat := { interval_ms : N; count : option N }.

Record WakeRequestPayload := {
  req_wake_id : string;
  req_requested_at : string;
  req_deadline : option string;
  req_reason : WakeReason;
  req_repeat : option WakeRepeat
}.

Record CancelRequestPayload := { cancel_wake_id : string }.

Record Entry := {
  seq : N;
  wake_id : string;
  fire_at : N;
  reason : WakeReason;
  requested_at : string;
  deadline : option string;
  e_repeat : option WakeRepeat;
  fires_left : option N
}.

Record FiredWake := {
  fw_wake_id : string;
  fw_reason : WakeReason;
  fw_requested_at : string;
  fw_deadline : option string;
  fw_fired_at : list ascii
}.

Record Inner := {
  entries : list Entry;
  next_seq : N;
  shutdown : bool;
  registered : N;
  cancelled : N;
  fired : N;
  last_fired : option FiredWake
}.

(** [Inner::default()] *)
Definition new_inner : Inner :=
  {| entries := []; next_seq := 0; shutdown := false; registered := 0; cancelled := 0;
     fired := 0; last_fired := None |}.

Inductive SchedulerError :=
| InvalidPayload (msg : string)
| Conflict (msg : string).

(** The JSON answers of [register] and [cancel]. *)
Record Registered := {
  r_wake_id : string;
  r_scheduled_for : list ascii;
  r_repeat : option WakeRepeat;
  r_pending : nat
}.
Record Cancelled := { c_wake_id : string; c_cancelled : bool; c_pending : nat }.

(** ** Validation *)

Definition length_outside (n : nat) : string :=
  "wakeId length " +:+ pretty n +:+ " outside 8..=128".

Definition wake_id_in_bounds (id : string) : bool :=
  (WAKE_ID_MIN_LEN <=? String.length id)%nat && (String.length id <=? WAKE_ID_MAX_LEN)%nat.

(** [validate_wake_request] *)
Definition validate_wake_request (r : WakeRequestPayload) : result SchedulerError unit :=
  if negb (wake_id_in_bounds (req_wake_id r))
  then Err (InvalidPayload (length_outside (String.length (req_wake_id r))))
  else
    match req_repeat r with
    | None => Ok tt
    | Some rep =>
        if negb ((MIN_INTERVAL_MS <=? interval_ms rep)%N && (interval_ms rep <=? MAX_INTERVAL_MS)%N)
        then Err (InvalidPayload ("repeat.intervalMs " +:+ pretty (interval_ms rep)
                                  +:+ " outside 50..=86400000"))
        else if bool_decide (count rep = Some 0%N)
        then Err (InvalidPayload "repeat.count must be >= 1")
        else Ok tt
    end.

Definition parse_time (s : string) : option Z := parse_rfc3339 (String.list_ascii_of_string s).

(** Double quotes of the source's messages are written as [']. *)
Definition not_a_timestamp (field s : string) : string :=
  field +:+ " '" +:+ s +:+ "' is not a valid RFC 3339 timestamp".

(** [fire_time] *)
Definition fire_time (r : WakeRequestPayload) : result SchedulerError Z :=
  match parse_time (req_requested_at r) with
  | None => Err (InvalidPayload (not_a_timestamp "requestedAt" (req_requested_at r)))
  | Some requested =>
      match req_deadline r with
      | Some d => ok_or (InvalidPayload (not_a_timestamp "deadline" d)) (parse_time d)
      | None => Ok requested
      end
  end.

(** ** Operations *)

Section Model.
Context {Value : Type} (wake_from_value : Value -> result string WakeRequestPayload)
        (cancel_from_value : Value -> result string CancelRequestPayload).

(** [Scheduler::register]; [inst] and [sys] are the two clocks it reads. *)
Definition register (payload : Value) (inst : N) (sys : Z) :
    M Inner SchedulerError Registered := fun i =>
  match wake_from_value payload with
  | Err e => (Err (InvalidPayload ("wake params do not match the schedule-wake contract: " +:+ e)), i)
  | Ok request =>
      match validate_wake_request request with
      | Err e => (Err e, i)
      | Ok tt =>
          match fire_time request with
          | Err e => (Err e, i)
          | Ok ft =>
              let at' := (inst + Z.to_N (ft - sys))%N in
              if existsb (fun e => String.eqb (wake_id e) (req_wake_id request)) (entries i)
              then (Err (Conflict ("wakeId '" +:+ req_wake_id request +:+ "' is already scheduled")), i)
              else
                let entry :=
                  {| seq := next_seq i; wake_id := req_wake_id request; fire_at := at';
                     reason := req_reason request; requested_at := req_requested_at request;
                     deadline := req_deadline request; e_repeat := req_repeat request;
                     fires_left := req_repeat request ≫= count |} in
                let es := entries i ++ [entry] in
                (Ok {| r_wake_id := req_wake_id request; r_scheduled_for := now_timestamp_like ft;
                       r_repeat := req_repeat request; r_pending := length es |},
                 {| entries := es; next_seq := u64_add (next_seq i) 1; shutdown := shutdown i;
                    registered := u64_add (registered i) 1; cancelled := cancelled i;
                    fired := fired i; last_fired := last_fired i |})
          end
      end
  end.

(** [Scheduler::cancel] *)
Definition cancel (payload : Value) : M Inner SchedulerError Cancelled := fun i =>
  match cancel_from_value payload with
  | Err e => (Err (InvalidPayload ("cancel params invalid: " +:+ e)), i)
  | Ok request =>
      if negb (wake_id_in_bounds (cancel_wake_id request))
      then (Err (InvalidPayload (length_outside (String.length (cancel_wake_id request)))), i)
      else
        let es := List.filter (fun e => negb (String.eqb (wake_id e) (cancel_wake_id request)))
                    (entries i) in
        let removed := (length (entries i) - length es)%nat in
        (Ok {| c_wake_id := cancel_wake_id request; c_cancelled := (0 <? removed)%nat;
               c_pending := length es |},
         {| entries := es; next_seq := next_seq i; shutdown := shutdown i;
            registered := registered i;
            cancelled := if (0 <? removed)%nat then u64_add (cancelled i) 1 else cancelled i;
            fired := fired i; last_fired := last_fired i |})
  end.
End Model.

(** [left - 1] on [u64]. *)
Definition u64_pred (n : N) : N := ((n + U64_MAX) mod (U64_MAX + 1))%N.

(** What [fire] pushes back, at the instant [inst] it reads. *)
Definition reschedule (inst : N) (e : Entry) : option Entry :=
  match e_repeat e with
  | None => None
  | Some rep =>
      let left' := u64_pred <$> fires_left e in
      if bool_decide (left' = Some 0%N) then None
      else Some {| seq := seq e; wake_id := wake_id e; fire_at := (inst + interval_ms rep)%N;
                   reason := reason e; requested_at := requested_at e; deadline := deadline e;
                   e_repeat := Some rep; fires_left := left' |}
  end.

(** [fire]; [sys] is the clock of [now_timestamp], [inst] the one that
    reschedules. *)
Definition fire (sys : Z) (inst : N) (e : Entry) (i : Inner) : Inner :=
  {| entries := entries i ++ option_list (reschedule inst e);
     next_seq := next_seq i; shutdown := shutdown i; registered := registered i;
     cancelled := cancelled i; fired := u64_add (fired i) 1;
     last_fired := Some {| fw_wake_id := wake_id e; fw_reason := reason e;
                           fw_requested_at := requested_at e; fw_deadline := deadline e;
                           fw_fired_at := now_timestamp_like sys |} |}.

(** [entries.iter().position(|e| e.fire_at <= now)] with [entries.remove(index)] *)
Fixpoint take_due (now : N) (es : list Entry) : option (Entry * list Entry) :=
  match es with
  | [] => None
  | e :: es =>
      if (fire_at e <=? now)%N then Some (e, es)
      else '(d, rest) ← take_due now es; Some (d, e :: rest)
  end.

Definition set_entries (es : list Entry) (i : Inner) : Inner :=
  {| entries := es; next_seq := next_seq i; shutdown := shutdown i; registered := registered i;
     cancelled := cancelled i; fired := fired i; last_fired := last_fired i |}.

(** The [while let] loop of [worker_loop]: the state after it and the wakes it
    fired, in order; [None] when the fuel runs out first.  The [k]-th firing
    reads the clocks [clk k]. *)
Fixpoint fire_due (fuel : nat) (now : N) (clk : nat -> Z * N) (k : nat) (i : Inner) :
    option (Inner * list Entry) :=
  match take_due now (entries i) with
  | None => Some (i, [])
  | Some (e, rest) =>
      match fuel with
      | O => None
      | S fuel =>
          let '(sys, inst) := clk k in
          '(i', es) ← fire_due fuel now clk (S k) (fire sys inst e (set_entries rest i));
          Some (i', e :: es)
      end
  end.

(** The wait of [worker_loop]: [None] when it returns on shutdown. *)
Definition wait_timeout (inst : N) (i : Inner) : option N :=
  if shutdown i then None
  else
    match entries i with
    | [] => Some IDLE_POLL
    | e :: es => Some (foldr N.min (fire_at e) (map fire_at es) - inst)%N
    end.

(** [Scheduler::shutdown] *)
Definition set_shutdown (i : Inner) : Inner :=
  {| entries := entries i; next_seq := next_seq i; shutdown := true; registered := registered i;
     cancelled := cancelled i; fired := fired i; last_fired := last_fired i |}.

(** [Scheduler::stats] *)
Record SchedulerStats := {
  ss_registered : N; ss_cancelled : N; ss_fired : N; ss_pending : nat;
  ss_last_fired : option FiredWake
}.
Definition stats (i : Inner) : SchedulerStats :=
  {| ss_registered := registered i; ss_cancelled := cancelled i; ss_fired := fired i;
     ss_pending := length (entries i); ss_last_fired := last_fired i |}.
