(* ===== verification/SchedulerFacts.v ===== *)
(** * Properties of the wake scheduler

    The worker's pass over due wakes terminates and fires each exactly once;
    the entry list keeps its invariant under every operation; bounded wakes
    fire at most as often as they were registered for. *)
From stdpp Require Import base list option strings pretty.
From Stdlib Require Import NArith ZArith Lia Ascii.
From S2P Require Import Prelude Civil Scheduler.

(** ** The invariant *)

Definition due (now : N) (e : Entry) : bool := (fire_at e <=? now)%N.

Definition entry_ok (e : Entry) : Prop :=
  wake_id_in_bounds (wake_id e) = true /\
  (forall rep, e_repeat e = Some rep -> (MIN_INTERVAL_MS <= interval_ms rep <= MAX_INTERVAL_MS)%N) /\
  (e_repeat e = None -> fires_left e = None) /\
  (forall n, fires_left e = Some n -> (1 <= n)%N).

Definition inner_ok (i : Inner) : Prop :=
  Forall entry_ok (entries i) /\ NoDup (map wake_id (entries i)).

(** [u64] payload fields are within their type. *)
Definition widths_ok (i : Inner) : Prop :=
  Forall (fun e => forall n, fires_left e = Some n -> (n <= U64_MAX)%N) (entries i).

(** ** Lemmas *)

Lemma take_due_none now es : take_due now es = None -> List.filter (due now) es = [].
Proof.
  induction es as [|e es IH]; [done |]. cbn. unfold due.
  destruct (fire_at e <=? now)%N; [done |].
  destruct (take_due now es) as [[d rest]|]; [done |]. auto.
Qed.

Lemma take_due_some now es d rest :
  take_due now es = Some (d, rest) ->
  due now d = true /\ exists l1 l2, es = l1 ++ d :: l2 /\ rest = l1 ++ l2 /\
    List.filter (due now) l1 = [].
Proof.
  revert rest. induction es as [|e es IH]; intros rest; [done |]. cbn.
  destruct (fire_at e <=? now)%N eqn:E.
  - intros [= <- <-]. split; [exact E |]. by exists [], es.
  - destruct (take_due now es) as [[d' r']|] eqn:Et; [| done]. cbn. intros [= <- <-].
    destruct (IH r' eq_refl) as (Hd & l1 & l2 & -> & -> & Hf).
    split; [done |]. exists (e :: l1), l2. split_and!; [done.. |]. cbn. unfold due. by rewrite E.
Qed.

(** The wakes pushed back by a pass whose firings start at clock [k]. *)
Fixpoint reschedule_all (clk : nat -> Z * N) (k : nat) (ds : list Entry) : list Entry :=
  match ds with
  | [] => []
  | d :: ds => option_list (reschedule (clk k).2 d) ++ reschedule_all clk (S k) ds
  end.

Lemma reschedule_not_due now inst e :
  entry_ok e -> (now <= inst)%N ->
  List.filter (due now) (option_list (reschedule inst e)) = [] /\
  List.filter (fun e => negb (due now e)) (option_list (reschedule inst e)) =
    option_list (reschedule inst e).
Proof.
  intros (_ & Hint & _) Hle. unfold reschedule. destruct (e_repeat e) as [rep|]; [| done].
  case_bool_decide; [done |]. specialize (Hint rep eq_refl). cbn. unfold due. cbn.
  destruct (N.leb_spec (inst + interval_ms rep) now); [unfold MIN_INTERVAL_MS in Hint; lia | done].
Qed.

Lemma reschedule_ok inst e e' : entry_ok e -> reschedule inst e = Some e' -> entry_ok e'.
Proof.
  intros (Hid & Hint & Hnone & Hpos). unfold reschedule.
  destruct (e_repeat e) as [rep|] eqn:Er; [| done]. case_bool_decide as Hz; [done |].
  intros [= <-]. split_and!; cbn; [done | by intros ? [= <-]; apply Hint | done |].
  intros n Hn. destruct (fires_left e) as [m|]; [| done]. cbn in *. injection Hn as <-.
  destruct (decide (u64_pred m = 0%N)) as [E | E]; [by rewrite E in Hz | lia].
Qed.

(** The whole pass. *)
Lemma fire_due_spec fuel now clk k i :
  Forall entry_ok (entries i) -> (forall j, now <= (clk j).2)%N ->
  let ds := List.filter (due now) (entries i) in
  (length ds <= fuel)%nat ->
  exists i', fire_due fuel now clk k i = Some (i', ds) /\
    entries i' = List.filter (fun e => negb (due now e)) (entries i) ++ reschedule_all clk k ds /\
    fired i' = (if decide (ds = []) then fired i
                else (fired i + N.of_nat (length ds)) mod (U64_MAX + 1))%N /\
    registered i' = registered i /\ cancelled i' = cancelled i /\ shutdown i' = shutdown i /\
    next_seq i' = next_seq i.
Proof.
  revert k i. induction fuel as [|fuel IH]; intros k i Hok Hclk ds Hlen; subst ds.
  all: cbn [fire_due]; destruct (take_due now (entries i)) as [[d rest]|] eqn:Et.
  2, 4: apply take_due_none in Et as Hds; rewrite Hds; exists i;
      split_and!; try done; cbn; rewrite app_nil_r;
      clear - Hds; induction (entries i) as [|e es IHe]; [done |]; cbn in *;
      destruct (due now e); [done |]; cbn; f_equal; auto.
  - apply take_due_some in Et as (Hd & l1 & l2 & Heq & -> & Hf1).
    rewrite Heq, List.filter_app in Hlen. cbn in Hlen. rewrite Hd, length_app in Hlen.
    cbn in Hlen. lia.
  - apply take_due_some in Et as (Hd & l1 & l2 & Heq & -> & Hf1). rewrite Heq in *.
    rewrite List.filter_app in Hlen |- *. cbn [List.filter] in *. rewrite Hd, Hf1 in *.
    cbn [app length negb] in *.
    apply Forall_app in Hok as [Hok1 Hok2]. inversion Hok2 as [|?? Hokd Hok2']; subst.
    destruct (clk k) as [sys inst] eqn:Hk.
    pose proof (Hclk k) as Hle. rewrite Hk in Hle. cbn in Hle.
    destruct (reschedule_not_due now inst d Hokd Hle) as [Hnd Hkeep].
    assert (Hdue : List.filter (due now) ((l1 ++ l2) ++ option_list (reschedule inst d)) =
              List.filter (due now) l2)
      by (rewrite !List.filter_app, Hf1, Hnd; apply app_nil_r).
    destruct (IH (S k) (fire sys inst d (set_entries (l1 ++ l2) i)))
      as (i' & Hfd & Hent & Hfired & Hrest); [| done | |]; cbn [entries fire set_entries] in *.
    + rewrite !Forall_app. split_and!; [done | done |].
      destruct (reschedule inst d) as [e'|] eqn:Er; [| by constructor].
      constructor; [| by constructor]. by eapply reschedule_ok.
    + rewrite Hdue. lia.
    + exists i'. rewrite Hdue in Hfd, Hent, Hfired. rewrite Hfd. cbn in Hfired, Hrest.
      split_and!; [done | | | apply Hrest..].
      * rewrite Hent, !List.filter_app, Hkeep. cbn. rewrite Hk. cbn. by rewrite Hd, <- !app_assoc.
      * rewrite Hfired. unfold u64_add. cbn [length].
        destruct (decide (List.filter (due now) l2 = [])) as [-> | _]; [done |].
        cbn. rewrite N.Div0.add_mod_idemp_l. f_equal. lia.
Qed.

(** A pass with the fuel of its entry list. *)
Definition worker_pass (now : N) (clk : nat -> Z * N) (i : Inner) : Inner * list Entry :=
  default (i, []) (fire_due (length (entries i)) now clk 0 i).

Lemma length_filter_le {A} (p : A -> bool) l : (length (List.filter p l) <= length l)%nat.
Proof. induction l as [|a l IH]; cbn; [done |]. destruct (p a); cbn; lia. Qed.

Lemma reschedule_id inst e e' : reschedule inst e = Some e' -> wake_id e' = wake_id e.
Proof.
  unfold reschedule. destruct (e_repeat e); [| done]. case_bool_decide; [done |]. by intros [= <-].
Qed.

Lemma reschedule_all_ids clk k ds id :
  id ∈ map wake_id (reschedule_all clk k ds) -> id ∈ map wake_id ds.
Proof.
  revert k. induction ds as [|d ds IH]; intros k; [done |]. cbn. rewrite map_app, elem_of_app, elem_of_cons.
  intros [Hin | Hin]; [| by right; eapply IH].
  left. destruct (reschedule _ d) as [e'|] eqn:E; cbn in Hin; [| by apply elem_of_nil in Hin].
  apply list_elem_of_singleton in Hin as ->. by eapply reschedule_id.
Qed.

Lemma reschedule_all_nodup clk k ds :
  NoDup (map wake_id ds) -> NoDup (map wake_id (reschedule_all clk k ds)).
Proof.
  revert k. induction ds as [|d ds IH]; intros k Hnd; [by constructor |].
  cbn in *. inversion_clear Hnd as [|?? Hnin Hnd']. rewrite map_app.
  destruct (reschedule (clk k).2 d) as [e'|] eqn:E; [| by apply IH].
  cbn. constructor; [| by apply IH]. rewrite (reschedule_id _ _ _ E).
  intros Hin. by eapply Hnin, reschedule_all_ids.
Qed.

Lemma reschedule_all_ok clk k ds : Forall entry_ok ds -> Forall entry_ok (reschedule_all clk k ds).
Proof.
  intros H. revert k. induction H as [|d ds Hd _ IH]; intros k; [by constructor |].
  cbn. apply Forall_app. split; [| apply IH].
  destruct (reschedule (clk k).2 d) as [e'|] eqn:E; [| by constructor].
  constructor; [by eapply reschedule_ok | by constructor].
Qed.

Lemma filter_ids_sub (p : Entry -> bool) es id :
  id ∈ map wake_id (List.filter p es) -> id ∈ map wake_id es.
Proof.
  rewrite !list_elem_of_In, !in_map_iff. intros (e & He & Hin%filter_In). exists e. tauto.
Qed.

Lemma filter_nodup (p : Entry -> bool) es :
  NoDup (map wake_id es) -> NoDup (map wake_id (List.filter p es)).
Proof.
  induction es as [|e es IH]; [done |]. cbn. intros H. inversion_clear H as [|?? Hnin Hnd].
  destruct (p e); [| by apply IH]. cbn. constructor; [| by apply IH].
  intros Hin. by eapply Hnin, filter_ids_sub.
Qed.

Lemma filter_forall (P : Entry -> Prop) p es : Forall P es -> Forall P (List.filter p es).
Proof. induction 1; cbn; [constructor |]. destruct (p x); [by constructor | done]. Qed.

(** The due and the other wakes of a list with distinct ids share none. *)
Lemma filter_ids_disjoint (p : Entry -> bool) es id :
  NoDup (map wake_id es) ->
  id ∈ map wake_id (List.filter p es) -> id ∈ map wake_id (List.filter (fun e => negb (p e)) es) ->
  False.
Proof.
  induction es as [|e es IH]; cbn; [by intros _ ?%elem_of_nil |].
  intros H. inversion_clear H as [|?? Hnin Hnd]. destruct (p e); cbn.
  - rewrite elem_of_cons. intros [-> | Hin] Hn; [| by apply IH].
    by eapply Hnin, filter_ids_sub.
  - rewrite elem_of_cons. intros Hin [-> | Hn]; [| by apply IH].
    by eapply Hnin, filter_ids_sub.
Qed.

Lemma worker_pass_spec now clk i :
  inner_ok i -> (forall j, now <= (clk j).2)%N ->
  let ds := List.filter (due now) (entries i) in
  exists i', worker_pass now clk i = (i', ds) /\
    fire_due (length (entries i)) now clk 0 i = Some (i', ds) /\
    entries i' = List.filter (fun e => negb (due now e)) (entries i) ++ reschedule_all clk 0 ds /\
    fired i' = (if decide (ds = []) then fired i
                else (fired i + N.of_nat (length ds)) mod (U64_MAX + 1))%N /\ inner_ok i'.
Proof.
  intros [Hok Hnd] Hclk ds.
  destruct (fire_due_spec (length (entries i)) now clk 0 i Hok Hclk) as (i' & Hfd & Hent & Hf & _).
  { apply length_filter_le. }
  exists i'. unfold worker_pass. rewrite Hfd. split_and!; [done | done | done | done |].
  unfold inner_ok. rewrite Hent. split.
  - apply Forall_app. split; [by apply filter_forall |].
    by apply reschedule_all_ok, filter_forall.
  - rewrite map_app. apply NoDup_app. split_and!.
    + by apply filter_nodup.
    + intros id Hn Hd%reschedule_all_ids. by eapply filter_ids_disjoint.
    + by apply reschedule_all_nodup, filter_nodup.
Qed.

Lemma validate_ok r :
  validate_wake_request r = Ok tt ->
  wake_id_in_bounds (req_wake_id r) = true /\
  (forall rep, req_repeat r = Some rep ->
     (MIN_INTERVAL_MS <= interval_ms rep <= MAX_INTERVAL_MS)%N /\ count rep <> Some 0%N).
Proof.
  unfold validate_wake_request. destruct (wake_id_in_bounds _); [| done]. cbn [negb].
  destruct (req_repeat r) as [rep|]; [| done].
  destruct (_ && _) eqn:E; [| done]. cbn [negb]. case_bool_decide; [done |]. intros _.
  apply andb_true_iff in E as [?%N.leb_le ?%N.leb_le].
  split; [done |]. by intros ? [= <-].
Qed.

Section Ops.
Context {Value : Type} (wake_from_value : Value -> result string WakeRequestPayload)
        (cancel_from_value : Value -> result string CancelRequestPayload).

Inductive sched_op :=
| ORegister (v : Value) (inst : N) (sys : Z)
| OCancel (v : Value)
| OPass (now : N) (clk : nat -> Z * N)
| OShutdown.

(** The entry of an accepted request. *)
Definition new_entry (n at' : N) (req : WakeRequestPayload) : Entry :=
  {| seq := n; wake_id := req_wake_id req; fire_at := at'; reason := req_reason req;
     requested_at := req_requested_at req; deadline := req_deadline req;
     e_repeat := req_repeat req; fires_left := req_repeat req ≫= count |}.

(** The clocks a pass reads while it fires are not before the one it
    compared with: [Instant] is monotonic. *)
Definition op_ok (o : sched_op) : Prop :=
  match o with OPass now clk => forall j, (now <= (clk j).2)%N | _ => True end.

(** One operation under the lock: the state after it and the wakes fired. *)
Definition run_sched (o : sched_op) (i : Inner) : Inner * list Entry :=
  match o with
  | ORegister v inst sys => ((register wake_from_value v inst sys i).2, [])
  | OCancel v => ((cancel cancel_from_value v i).2, [])
  | OPass now clk => worker_pass now clk i
  | OShutdown => (set_shutdown i, [])
  end.

(** What an accepted registration adds. *)
Lemma register_ok v inst sys i a i' :
  register wake_from_value v inst sys i = (Ok a, i') ->
  exists req ft, wake_from_value v = Ok req /\ validate_wake_request req = Ok tt /\
    fire_time req = Ok ft /\ (req_wake_id req ∉ map wake_id (entries i)) /\
    entries i' = entries i ++ [new_entry (next_seq i) (inst + Z.to_N (ft - sys)) req].
Proof.
  unfold register. destruct (wake_from_value v) as [req|]; [| done].
  destruct (validate_wake_request req) as [[]|] eqn:Hv; [| done].
  destruct (fire_time req) as [ft|] eqn:Hft; [| done].
  destruct (existsb _ _) eqn:Hex; [done |]. intros [= <- <-].
  exists req, ft. split_and!; try done.
  rewrite list_elem_of_In, in_map_iff. intros (e & He & Hin).
  rewrite existsb_not_elem in Hex. specialize (Hex e). rewrite list_elem_of_In in Hex.
  specialize (Hex Hin). rewrite He in Hex. by rewrite String.eqb_refl in Hex.
Qed.

Lemma register_err v inst sys i e i' :
  register wake_from_value v inst sys i = (Err e, i') -> i' = i.
Proof.
  unfold register. destruct (wake_from_value v) as [req|]; [| by intros [= _ <-]].
  destruct (validate_wake_request req) as [[]|]; [| by intros [= _ <-]].
  destruct (fire_time req) as [ft|]; [| by intros [= _ <-]].
  destruct (existsb _ _); [by intros [= _ <-] | done].
Qed.

Lemma cancel_entries v i :
  entries (cancel cancel_from_value v i).2 = entries i \/
  exists id, entries (cancel cancel_from_value v i).2 =
    List.filter (fun e => negb (String.eqb (wake_id e) id)) (entries i).
Proof.
  unfold cancel. destruct (cancel_from_value v) as [req|]; [| by left].
  destruct (negb _); [by left |]. right. by eexists.
Qed.

Lemma run_sched_ok o i : op_ok o -> inner_ok i -> inner_ok (run_sched o i).1.
Proof.
  intros Ho [Hok Hnd]. destruct o as [v inst sys | v | now clk |]; cbn.
  - destruct (register wake_from_value v inst sys i) as [[a|e] i'] eqn:E; cbn.
    + apply register_ok in E as (req & ft & _ & Hv & _ & Hnin & Hent).
      apply validate_ok in Hv as [Hid Hrep]. unfold inner_ok. rewrite Hent. split.
      * apply Forall_app. split; [done |]. constructor; [| by constructor].
        split_and!; cbn; [done | | |].
        -- intros rep Hr. by apply (Hrep rep).
        -- by intros ->.
        -- intros n. destruct (req_repeat req) as [rep|]; [| done]. cbn. intros Hc.
           destruct (Hrep rep eq_refl) as [_ Hne].
           destruct (decide (n = 0%N)) as [-> | ?]; [done | lia].
      * rewrite map_app. apply NoDup_app. split_and!; [done | | by apply NoDup_singleton].
        intros id Hin ->%list_elem_of_singleton. done.
    + by apply register_err in E as ->.
  - unfold inner_ok. destruct (cancel_entries v i) as [-> | [id ->]]; [done |].
    split; [by apply filter_forall | by apply filter_nodup].
  - destruct (worker_pass_spec now clk i) as (i' & -> & _ & _ & _ & H); [done.. |]. done.
  - done.
Qed.

(** ** Bounded wakes *)

(** How many more fires an entry is good for ([0] when unlimited). *)
Definition entry_budget (e : Entry) : N :=
  match e_repeat e with None => 1 | Some _ => default 0%N (fires_left e) end.

Definition entry_bounded (e : Entry) : Prop := e_repeat e = None \/ is_Some (fires_left e).

Definition is_id (id : string) (e : Entry) : bool := String.eqb (wake_id e) id.

Fixpoint total (id : string) (es : list Entry) : N :=
  match es with
  | [] => 0
  | e :: es => (if is_id id e then entry_budget e else 0) + total id es
  end.

Definition bounded_for (id : string) (es : list Entry) : Prop :=
  Forall (fun e => wake_id e = id -> entry_bounded e) es.

Lemma total_app id l1 l2 : total id (l1 ++ l2) = (total id l1 + total id l2)%N.
Proof. induction l1 as [|e l1 IH]; cbn; [done |]. rewrite IH. lia. Qed.

Lemma total_filter_split id p es :
  (total id (List.filter p es) + total id (List.filter (fun e => negb (p e)) es) = total id es)%N.
Proof. induction es as [|e es IH]; [done |]. cbn. destruct (p e); cbn; lia. Qed.

Lemma reschedule_budget inst e :
  entry_ok e -> entry_bounded e ->
  (1 + match reschedule inst e with Some e' => entry_budget e' | None => 0 end
     <= entry_budget e)%N /\
  (forall e', reschedule inst e = Some e' -> entry_bounded e').
Proof.
  intros (_ & _ & Hnone & Hpos) Hb. unfold reschedule, entry_budget, entry_bounded in *.
  destruct (e_repeat e) as [rep|] eqn:Er; [| done].
  destruct Hb as [Hb | [n Hn]]; [done |]. rewrite Hn in *. specialize (Hpos n eq_refl).
  assert (Hpred : (u64_pred n <= n - 1)%N).
  { unfold u64_pred. replace (n + U64_MAX)%N with (n - 1 + 1 * (U64_MAX + 1))%N by lia.
    rewrite N.Div0.mod_add. apply N.Div0.mod_le. }
  cbn. case_bool_decide; cbn; [split; [lia | done] |]. split; [lia |].
  intros e' [= <-]. cbn. right. by eexists.
Qed.

Lemma reschedule_all_budget id clk k ds :
  Forall entry_ok ds -> bounded_for id ds ->
  (N.of_nat (length (List.filter (is_id id) ds)) + total id (reschedule_all clk k ds)
     <= total id ds)%N /\ bounded_for id (reschedule_all clk k ds).
Proof.
  intros Hok. revert k. induction Hok as [|d ds Hd _ IH]; intros k Hb.
  { split; [cbn; lia | constructor]. }
  inversion_clear Hb as [|?? Hbd Hb']. destruct (IH (S k) Hb') as [Hle Hb2].
  cbn [reschedule_all List.filter total]. rewrite total_app.
  destruct (is_id id d) eqn:Eid.
  - apply String.eqb_eq in Eid. destruct (reschedule_budget (clk k).2 d Hd (Hbd Eid)) as [H1 H2].
    destruct (reschedule (clk k).2 d) as [e'|] eqn:Er;
      cbn [option_list option_rect total length app].
    + assert (Eid' : is_id id e' = true)
        by (apply String.eqb_eq; rewrite (reschedule_id _ _ _ Er); done).
      rewrite Eid'. split; [lia |]. constructor; [by intros _; apply H2 | done].
    + split; [lia | done].
  - destruct (reschedule (clk k).2 d) as [e'|] eqn:Er;
      cbn [option_list option_rect total length app].
    + assert (Hne : wake_id e' <> id).
      { rewrite (reschedule_id _ _ _ Er). by apply String.eqb_neq in Eid. }
      unfold is_id at 2. apply String.eqb_neq in Hne as Hneq. rewrite Hneq.
      split; [lia |]. constructor; [done | done].
    + split; [lia | done].
Qed.

(** Requests for [id] in the history are one-shot or counted. *)
Definition op_bounded (id : string) (o : sched_op) : Prop :=
  match o with
  | ORegister v _ _ => forall req, wake_from_value v = Ok req -> req_wake_id req = id ->
      req_repeat req = None \/ is_Some (req_repeat req ≫= count)
  | _ => True
  end.

(** The fires an operation allows: its count when it is an accepted
    registration of [id]. *)
Definition allows (id : string) (o : sched_op) (i : Inner) : N :=
  match o with
  | ORegister v inst sys =>
      match register wake_from_value v inst sys i, wake_from_value v with
      | (Ok _, _), Ok req =>
          if String.eqb (req_wake_id req) id then
            match req_repeat req with None => 1%N | Some rep => default 0%N (count rep) end
          else 0
      | _, _ => 0
      end
  | _ => 0
  end.

Fixpoint allowance (id : string) (ops : list sched_op) (i : Inner) : N :=
  match ops with
  | [] => 0
  | o :: ops => allows id o i + allowance id ops (run_sched o i).1
  end.

Fixpoint fires (id : string) (ops : list sched_op) (i : Inner) : N :=
  match ops with
  | [] => 0
  | o :: ops =>
      N.of_nat (length (List.filter (is_id id) (run_sched o i).2))
        + fires id ops (run_sched o i).1
  end.

Lemma total_filter_le id p es : (total id (List.filter p es) <= total id es)%N.
Proof. pose proof (total_filter_split id p es). lia. Qed.

Lemma step_budget id o i :
  op_ok o -> op_bounded id o -> inner_ok i -> bounded_for id (entries i) ->
  (N.of_nat (length (List.filter (is_id id) (run_sched o i).2))
     + total id (entries (run_sched o i).1) <= total id (entries i) + allows id o i)%N /\
  bounded_for id (entries (run_sched o i).1).
Proof.
  intros Ho Hb Hok Hbd. destruct o as [v inst sys | v | now clk |]; cbn [run_sched allows fst snd].
  - destruct (register wake_from_value v inst sys i) as [[a|e] i'] eqn:E; cbn [fst snd].
    + apply register_ok in E as (req & ft & Hreq & _ & _ & _ & ->). rewrite Hreq, total_app.
      specialize (Hb req Hreq). cbn [total List.filter length]. unfold is_id. cbn [wake_id new_entry].
      destruct (String.eqb_spec (req_wake_id req) id) as [Heq | Hne].
      * specialize (Hb Heq). unfold entry_budget. cbn [e_repeat fires_left new_entry].
        split; [destruct (req_repeat req); cbn; lia |].
        apply Forall_app. split; [done |]. constructor; [by intros _ | by constructor].
      * split; [cbn; lia |]. apply Forall_app. split; [done |]. constructor; [done | by constructor].
    + apply register_err in E as ->. cbn. split; [lia | done].
  - cbn [List.filter length]. destruct (cancel_entries v i) as [-> | [x ->]]; [split; [lia | done] |].
    pose proof (total_filter_le id (fun e => negb (String.eqb (wake_id e) x)) (entries i)).
    split; [lia | by apply filter_forall].
  - destruct (worker_pass_spec now clk i Hok Ho) as (i' & Hp & _ & Hent & _).
    rewrite Hp. cbn [fst snd]. rewrite Hent.
    destruct Hok as [Hfo _].
    destruct (reschedule_all_budget id clk 0 (List.filter (due now) (entries i)))
      as [Hle Hb']; [by apply filter_forall.. |].
    rewrite total_app. pose proof (total_filter_split id (due now) (entries i)).
    split; [lia |]. apply Forall_app. split; [by apply filter_forall | done].
  - cbn. split; [lia | done].
Qed.

Lemma fires_bounded id ops i :
  Forall op_ok ops -> Forall (op_bounded id) ops -> inner_ok i -> bounded_for id (entries i) ->
  (fires id ops i <= total id (entries i) + allowance id ops i)%N.
Proof.
  intros Ho. revert i. induction Ho as [|o ops Ho _ IH]; intros i Hb Hok Hbd; cbn [fires allowance].
  { lia. }
  inversion_clear Hb as [|?? Hb1 Hb2].
  destruct (step_budget id o i Ho Hb1 Hok Hbd) as [Hle Hbd'].
  specialize (IH (run_sched o i).1 Hb2 (run_sched_ok o i Ho Hok) Hbd'). lia.
Qed.
End Ops.

(** ** Lemmas on the wait and on cancellation *)

Lemma foldr_min_le x l y : y = x \/ y ∈ l -> (foldr N.min x l <= y)%N.
Proof.
  induction l as [|z l IH]; cbn.
  - intros [-> | []%elem_of_nil]. lia.
  - rewrite elem_of_cons. intros [-> | [-> | Hin]]; [specialize (IH (or_introl eq_refl)) | |
      specialize (IH (or_intror Hin))]; lia.
Qed.

Lemma wait_not_after inst i t e :
  wait_timeout inst i = Some t -> e ∈ entries i -> (inst + t <= N.max inst (fire_at e))%N.
Proof.
  unfold wait_timeout. destruct (shutdown i); [done |]. destruct (entries i) as [|x es]; [by intros _ ?%elem_of_nil |].
  intros [= <-] Hin.
  assert (Hle : (foldr N.min (fire_at x) (map fire_at es) <= fire_at e)%N).
  { apply foldr_min_le. apply elem_of_cons in Hin as [-> | Hin]; [by left | right].
    apply list_elem_of_In. apply list_elem_of_In in Hin. by apply in_map. }
  lia.
Qed.

Lemma filter_all {A} (p : A -> bool) l : (forall x, x ∈ l -> p x = true) -> List.filter p l = l.
Proof.
  induction l as [|x l IH]; intros H; [done |]. cbn. rewrite (H x) by (by left).
  f_equal. apply IH. intros y Hy. apply H. by right.
Qed.

Lemma take_due_filter now es : List.filter (due now) es = [] -> take_due now es = None.
Proof.
  induction es as [|e es IH]; [done |]. cbn. unfold due.
  destruct (fire_at e <=? now)%N; [done |]. intros H. by rewrite (IH H).
Qed.

Lemma reschedule_all_not_due now clk k ds :
  Forall entry_ok ds -> (forall j, now <= (clk j).2)%N ->
  List.filter (due now) (reschedule_all clk k ds) = [].
Proof.
  intros Hok Hclk. revert k. induction Hok as [|d ds Hd _ IH]; intros k; [done |]. cbn.
  rewrite List.filter_app, IH. by rewrite (proj1 (reschedule_not_due now (clk k).2 d Hd (Hclk k))).
Qed.

Lemma settled now clk i i' :
  inner_ok i -> (forall j, now <= (clk j).2)%N ->
  entries i' = List.filter (fun e => negb (due now e)) (entries i)
               ++ reschedule_all clk 0 (List.filter (due now) (entries i)) ->
  take_due now (entries i') = None.
Proof.
  intros [Hok _] Hclk ->. apply take_due_filter. rewrite List.filter_app.
  rewrite reschedule_all_not_due by (done || by apply filter_forall). rewrite app_nil_r.
  induction (entries i) as [|e es IH]; [done |]. inversion_clear Hok. cbn.
  destruct (due now e) eqn:E; cbn; [by apply IH |]. rewrite E. by apply IH.
Qed.

(** ** Properties *)

(** One pass of the worker terminates and fires exactly the wakes that
    are due, each once, in list order: the fuel of one iteration per entry is
    enough, because a repeating wake comes back at least [MIN_INTERVAL_MS]
    later.  The list after it is the wakes that were not due, then the
    repeating ones that were; the counter grows by their number; none is still
    due, and the wait that follows ends no later than the next one. *)
Theorem worker_pass_fires_each_due_once now clk i :
  inner_ok i -> (forall j, now <= (clk j).2)%N ->
  let ds := List.filter (due now) (entries i) in
  exists i', fire_due (length (entries i)) now clk 0 i = Some (i', ds) /\
    entries i' = List.filter (fun e => negb (due now e)) (entries i) ++ reschedule_all clk 0 ds /\
    fired i' = (if decide (ds = []) then fired i
                else (fired i + N.of_nat (length ds)) mod (U64_MAX + 1))%N /\
    take_due now (entries i') = None /\
    (forall inst t e, wait_timeout inst i' = Some t -> e ∈ entries i' ->
       (inst + t <= N.max inst (fire_at e))%N).
Proof.
  intros Hok Hclk ds. destruct (worker_pass_spec now clk i Hok Hclk) as (i' & _ & Hfd & Hent & Hf & _).
  exists i'. split_and!; [done | done | done | | by intros; eapply wait_not_after].
  by eapply settled.
Qed.

(** Over any history of registrations, cancellations and passes, wakeIds
    are pairwise distinct and within their length bounds, every repeat interval
    is within [MIN_INTERVAL_MS..=MAX_INTERVAL_MS], and the remaining count of a
    bounded wake is at least one, so that [left - 1] never underflows. *)
Theorem scheduler_invariant {Value} (wake_from_value : Value -> result string WakeRequestPayload)
    (cancel_from_value : Value -> result string CancelRequestPayload) ops :
  Forall op_ok ops ->
  inner_ok (foldl (fun i o => (run_sched wake_from_value cancel_from_value o i).1) new_inner ops).
Proof.
  intros Hops. assert (H0 : inner_ok new_inner) by (split; constructor).
  revert H0. generalize new_inner as i. induction Hops as [|o ops Ho _ IH]; intros i Hi; [done |].
  cbn. apply IH. by apply run_sched_ok.
Qed.

(** A wake that is always registered one-shot or with a count fires at
    most as often as its accepted registrations allow, whatever the clocks,
    cancellations and re-registrations in between. *)
Theorem bounded_wake_fires_at_most_count {Value} (wake_from_value : Value -> result string WakeRequestPayload)
    (cancel_from_value : Value -> result string CancelRequestPayload)
    id ops :
  Forall op_ok ops -> Forall (op_bounded wake_from_value id) ops ->
  (fires wake_from_value cancel_from_value id ops new_inner
     <= allowance wake_from_value cancel_from_value id ops new_inner)%N.
Proof.
  intros Ho Hb.
  pose proof (fires_bounded wake_from_value cancel_from_value id ops new_inner Ho Hb) as H.
  apply H; [split; constructor | constructor].
Qed.

(** Registering and then cancelling a wake restores the entry list and
    answers [cancelled: true]; while it is scheduled a second registration of
    its id is a conflict that changes nothing; cancelling again is an
    idempotent success with [cancelled: false] that changes nothing. *)
Theorem register_then_cancel {Value} (wake_from_value : Value -> result string WakeRequestPayload)
    (cancel_from_value : Value -> result string CancelRequestPayload)
    v inst sys i a i1 c req :
  register wake_from_value v inst sys i = (Ok a, i1) ->
  wake_from_value v = Ok req -> cancel_from_value c = Ok {| cancel_wake_id := req_wake_id req |} ->
  (forall inst' sys', exists msg,
     register wake_from_value v inst' sys' i1 = (Err (Conflict msg), i1)) /\
  exists i2, cancel cancel_from_value c i1 =
      (Ok {| c_wake_id := req_wake_id req; c_cancelled := true; c_pending := length (entries i) |}, i2) /\
    entries i2 = entries i /\
    cancel cancel_from_value c i2 =
      (Ok {| c_wake_id := req_wake_id req; c_cancelled := false; c_pending := length (entries i) |}, i2).
Proof.
  intros Hr Hreq Hc. apply register_ok in Hr as (req' & ft & Hreq' & Hv & Hft & Hnin & Hent).
  rewrite Hreq in Hreq'. injection Hreq' as <-. pose proof (proj1 (validate_ok req Hv)) as Hid. split.
  - intros inst' sys'. unfold register. rewrite Hreq, Hv, Hft, Hent, existsb_app. cbn.
    rewrite String.eqb_refl, orb_true_r. by eexists.
  - assert (Hkeep : List.filter (fun e => negb (String.eqb (wake_id e) (req_wake_id req))) (entries i)
              = entries i).
    { apply filter_all. intros e He. apply negb_true_iff, String.eqb_neq. intros Heq. apply Hnin.
      rewrite <- Heq. apply list_elem_of_In. apply list_elem_of_In in He. by apply in_map. }
    unfold cancel. rewrite Hc. cbn [cancel_wake_id]. rewrite Hid, Hent, List.filter_app, Hkeep. cbn.
    rewrite String.eqb_refl. cbn. rewrite app_nil_r, length_app. cbn.
    replace (length (entries i) + 1 - length (entries i))%nat with 1%nat by lia. cbn.
    eexists. split; [reflexivity |]. split; [done |]. cbn. rewrite Hkeep, Nat.sub_diag. done.
Qed.

(** ** Witnesses *)

Definition sample_value : Type := WakeRequestPayload + CancelRequestPayload.
Definition sample_wake (v : sample_value) : result string WakeRequestPayload :=
  match v with inl r => Ok r | inr _ => Err "missing field" end.
Definition sample_cancel (v : sample_value) : result string CancelRequestPayload :=
  match v with inr r => Ok r | inl _ => Err "unknown field" end.

(** Two fires, 100 ms apart, first due at the Unix time 1000 s. *)
Definition sample_request : WakeRequestPayload :=
  {| req_wake_id := "wake-0001"; req_requested_at := "1970-01-01T00:16:40Z";
     req_deadline := None; req_reason := ScheduledDue;
     req_repeat := Some {| interval_ms := 100; count := Some 2%N |} |}.

Definition sample_pass (now : N) : sched_op := @OPass sample_value now (fun _ => (0%Z, now)).

Definition sample_history : list sched_op :=
  [ORegister (inl sample_request : sample_value) 0 999990%Z; sample_pass 5; sample_pass 10;
   sample_pass 60; sample_pass 110; sample_pass 500].

Definition sample_inner : Inner :=
  (register sample_wake (inl sample_request) 0 999990%Z new_inner).2.

Lemma sample_inner_ok : inner_ok sample_inner.
Proof.
  apply (run_sched_ok sample_wake sample_cancel (ORegister (inl sample_request) 0 999990%Z)); [done |].
  split; constructor.
Qed.

Lemma sample_history_ok : Forall op_ok sample_history.
Proof. repeat constructor; intros; cbn; lia. Qed.

Lemma worker_pass_fires_each_due_once_witness :
  exists i', fire_due 1 10 (fun _ => (0%Z, 12%N)) 0 sample_inner = Some (i', entries sample_inner) /\
    map fire_at (entries i') = [112%N] /\ fired i' = 1%N.
Proof.
  destruct (worker_pass_fires_each_due_once 10 (fun _ => (0%Z, 12%N)) sample_inner
    sample_inner_ok (fun _ => ltac:(cbn; lia))) as (i' & Hfd & Hent & Hf & _).
  exists i'. split_and!; [exact Hfd | rewrite Hent; vm_compute; reflexivity |
                          rewrite Hf; vm_compute; reflexivity].
Defined.

Lemma scheduler_invariant_witness :
  inner_ok (foldl (fun i o => (run_sched sample_wake sample_cancel o i).1) new_inner sample_history).
Proof. exact (scheduler_invariant sample_wake sample_cancel sample_history sample_history_ok). Defined.

Lemma bounded_wake_fires_at_most_count_witness :
  fires sample_wake sample_cancel "wake-0001" sample_history new_inner = 2%N /\
  allowance sample_wake sample_cancel "wake-0001" sample_history new_inner = 2%N /\
  (fires sample_wake sample_cancel "wake-0001" sample_history new_inner
     <= allowance sample_wake sample_cancel "wake-0001" sample_history new_inner)%N.
Proof.
  do 2 (split; [vm_compute; reflexivity |]).
  apply (bounded_wake_fires_at_most_count sample_wake sample_cancel "wake-0001" sample_history
    sample_history_ok).
  constructor; [intros req [= <-] _; right; by eexists | repeat constructor].
Defined.

Lemma register_then_cancel_witness :
  exists i2, cancel sample_cancel (inr {| cancel_wake_id := "wake-0001" |}) sample_inner =
    (Ok {| c_wake_id := "wake-0001"; c_cancelled := true; c_pending := 0 |}, i2) /\
    entries i2 = [].
Proof.
  destruct (register sample_wake (inl sample_request) 0 999990%Z new_inner) as [[a|e] i1] eqn:E;
    [| exfalso; vm_compute in E; discriminate].
  destruct (register_then_cancel sample_wake sample_cancel (inl sample_request) 0 999990%Z new_inner
    a i1 (inr {| cancel_wake_id := "wake-0001" |}) sample_request E eq_refl eq_refl)
    as (_ & i2 & H & Hent & _).
  exists i2. unfold sample_inner. rewrite E. split; [exact H | exact Hent].
Defined.
