(* ===== verification/EventRouter.v ===== *)
(** * The daemon's event router

    Model of [crates/daemon/src/events.rs].  The routing state is behind a lock;
    a publication looks the subscriber up under it and sends after releasing it,
    so it is two steps, with the senders looked up and not used yet in
    [in_flight].  A connection's bounded channel lives in [channels] from its
    registration until its receiver is dropped.  Every operation is a step of
    any thread, in any order. *)
From Stdlib Require Import NArith ZArith Lia.
From stdpp Require Import base strings gmap list option.
From S2P Require Import Prelude.

(** ** Data *)

Definition EVENT_QUEUE_CAPACITY : nat := 256.

Record OutputEvent := { out_session_id : string; seq : N; data : string }.

Inductive BrowserLifecycleKind := LifeCreated | LifeClosed.

Record BrowserLifecycleEvent := {
  life_session_id : string; life_kind : BrowserLifecycleKind; occurred_at : N;
  life_url : option string
}.

Inductive RouterEvent := Terminal (e : OutputEvent) | Browser (e : BrowserLifecycleEvent).

#[export] Instance OutputEvent_eq_dec : EqDecision OutputEvent.
Proof. solve_decision. Defined.
#[export] Instance BrowserLifecycleKind_eq_dec : EqDecision BrowserLifecycleKind.
Proof. solve_decision. Defined.
#[export] Instance BrowserLifecycleEvent_eq_dec : EqDecision BrowserLifecycleEvent.
Proof. solve_decision. Defined.
#[export] Instance RouterEvent_eq_dec : EqDecision RouterEvent.
Proof. solve_decision. Defined.

(** [RouterEvent::session_id] *)
Definition session_id (e : RouterEvent) : string :=
  match e with Terminal e => out_session_id e | Browser e => life_session_id e end.

(** [EventRouter] with its [RouterState], the channels, and the publications
    under way.  [received] records what the subscribers took, newest last. *)
Record EventRouter := {
  next_connection : N;
  router_sessions : gmap string N;
  router_connections : gset N;
  channels : gmap N (list RouterEvent);
  in_flight : list (RouterEvent * N);
  received : list (N * RouterEvent)
}.

(** ** Operations *)

(** [EventRouter::spawn] *)
Definition spawn : EventRouter :=
  {| next_connection := 0; router_sessions := ∅; router_connections := ∅; channels := ∅;
     in_flight := []; received := [] |}.

(** [EventRouter::register]: the new connection's key and the router. *)
Definition register (r : EventRouter) : N * EventRouter :=
  let key := u64_add (next_connection r) 1 in
  (key,
   {| next_connection := key; router_sessions := router_sessions r;
      router_connections := {[key]} ∪ router_connections r;
      channels := <[key := []]> (channels r);
      in_flight := in_flight r; received := received r |}).

Definition set_sessions (x : gmap string N) (r : EventRouter) : EventRouter :=
  {| next_connection := next_connection r; router_sessions := x;
     router_connections := router_connections r; channels := channels r;
     in_flight := in_flight r; received := received r |}.

(** [EventRouter::subscribe] *)
Definition subscribe (key : N) (sid : string) (r : EventRouter) : EventRouter :=
  set_sessions (<[sid := key]> (router_sessions r)) r.

(** [EventRouter::unsubscribe] *)
Definition unsubscribe (key : N) (sid : string) (r : EventRouter) : EventRouter :=
  if bool_decide (router_sessions r !! sid = Some key)
  then set_sessions (delete sid (router_sessions r)) r else r.

(** [EventRouter::publish], under the lock: which sender to use. *)
Definition publish_lookup (e : RouterEvent) (r : EventRouter) : EventRouter :=
  match router_sessions r !! session_id e with
  | None => r
  | Some key =>
      if bool_decide (key ∈ router_connections r) then
        {| next_connection := next_connection r; router_sessions := router_sessions r;
           router_connections := router_connections r; channels := channels r;
           in_flight := in_flight r ++ [(e, key)]; received := received r |}
      else r
  end.

(** [sender.try_send] on a bounded channel: a full or closed one drops. *)
Definition try_send (key : N) (e : RouterEvent) (chs : gmap N (list RouterEvent)) :
    gmap N (list RouterEvent) :=
  alter (fun q => if (length q <? EVENT_QUEUE_CAPACITY)%nat then q ++ [e] else q) key chs.

(** [EventRouter::publish], after the lock: the [i]-th publication sends. *)
Definition publish_send (i : nat) (r : EventRouter) : EventRouter :=
  match in_flight r !! i with
  | None => r
  | Some (e, key) =>
      {| next_connection := next_connection r; router_sessions := router_sessions r;
         router_connections := router_connections r;
         channels := try_send key e (channels r);
         in_flight := delete i (in_flight r); received := received r |}
  end.

(** [EventSubscriber::recv_timeout] *)
Definition recv (key : N) (r : EventRouter) : option RouterEvent * EventRouter :=
  match channels r !! key with
  | Some (e :: q) =>
      (Some e,
       {| next_connection := next_connection r; router_sessions := router_sessions r;
          router_connections := router_connections r; channels := <[key := q]> (channels r);
          in_flight := in_flight r; received := received r ++ [(key, e)] |})
  | _ => (None, r)
  end.

(** [EventSubscriber::unsubscribe_all] *)
Definition unsubscribe_all (key : N) (r : EventRouter) : EventRouter :=
  {| next_connection := next_connection r;
     router_sessions := filter (fun kv => kv.2 <> key) (router_sessions r);
     router_connections := router_connections r ∖ {[key]}; channels := channels r;
     in_flight := in_flight r; received := received r |}.

(** The subscriber is dropped, and its receiver with it. *)
Definition drop_subscriber (key : N) (r : EventRouter) : EventRouter :=
  {| next_connection := next_connection r; router_sessions := router_sessions r;
     router_connections := router_connections r; channels := delete key (channels r);
     in_flight := in_flight r; received := received r |}.

(** ** Histories *)

Inductive router_op :=
| ORegister
| OSubscribe (key : N) (sid : string)
| OUnsubscribe (key : N) (sid : string)
| OLookup (e : RouterEvent)
| OSend (i : nat)
| ORecv (key : N)
| OUnsubscribeAll (key : N)
| ODrop (key : N).

Definition run_op (r : EventRouter) (o : router_op) : EventRouter :=
  match o with
  | ORegister => (register r).2
  | OSubscribe key sid => subscribe key sid r
  | OUnsubscribe key sid => unsubscribe key sid r
  | OLookup e => publish_lookup e r
  | OSend i => publish_send i r
  | ORecv key => (recv key r).2
  | OUnsubscribeAll key => unsubscribe_all key r
  | ODrop key => drop_subscriber key r
  end.

Definition run_router (os : list router_op) : EventRouter := foldl run_op spawn os.

(** ** Isolation *)

(** Everything on its way to a connection satisfies [P]. *)
Record routed (P : RouterEvent -> N -> Prop) (r : EventRouter) : Prop := {
  routed_flight : forall e k, (e, k) ∈ in_flight r -> P e k;
  routed_queue : forall e k q, channels r !! k = Some q -> e ∈ q -> P e k;
  routed_received : forall e k, (k, e) ∈ received r -> P e k
}.

(** What a publication finds when it looks its subscriber up. *)
Definition op_routes (P : RouterEvent -> N -> Prop) (r : EventRouter) (o : router_op) : Prop :=
  match o with
  | OLookup e => forall k, router_sessions r !! session_id e = Some k -> P e k
  | _ => True
  end.

Lemma run_op_routed P r o : op_routes P r o -> routed P r -> routed P (run_op r o).
Proof.
  intros Ho [Hf Hq Hr]. destruct o as [|k sid|k sid|e|i|k|k|k]; cbn in *.
  - split; cbn; [done | | done]. intros e k q.
    destruct (decide (k = u64_add (next_connection r) 1)) as [->|];
      [rewrite lookup_insert_eq | rewrite lookup_insert_ne by done; apply Hq].
    intros [= <-] ?%elem_of_nil. done.
  - by split.
  - unfold unsubscribe. case_bool_decide; by split.
  - unfold publish_lookup. destruct (router_sessions r !! session_id e) as [k|]; [| by split].
    case_bool_decide; split; cbn; try done.
    intros e' k'. rewrite elem_of_app, list_elem_of_singleton. intros [? | [= -> ->]]; auto.
  - unfold publish_send. destruct (in_flight r !! i) as [[e k]|] eqn:Hi; [| by split].
    split; cbn; [| | done].
    + intros e' k' Hin. apply Hf. by eapply list_elem_of_delete_inv.
    + intros e' k' q. unfold try_send. destruct (decide (k' = k)) as [->|];
        [| rewrite lookup_alter_ne by done; apply Hq].
      rewrite lookup_alter_eq. destruct (channels r !! k) as [q0|] eqn:Hk; [| done]. cbn.
      intros [= <-]. case_match; [| by apply Hq]. rewrite elem_of_app, list_elem_of_singleton.
      intros [Hin | ->]; [by eapply Hq | apply Hf; by eapply list_elem_of_lookup_2].
  - unfold recv. destruct (channels r !! k) as [[|e q]|] eqn:Hk; [by split | | by split].
    split; cbn; [done | |].
    + intros e' k' q'. destruct (decide (k' = k)) as [->|];
        [rewrite lookup_insert_eq | rewrite lookup_insert_ne by done; apply Hq].
      intros [= <-] Hin. eapply Hq; [exact Hk | by right].
    + intros e' k'. rewrite elem_of_app, list_elem_of_singleton. intros [? | [= -> ->]]; [auto |].
      eapply Hq; [exact Hk | by left].
  - by split.
  - split; cbn; [done | | done]. intros e' k' q' Hl. apply lookup_delete_Some in Hl as [_ Hl].
    by apply Hq.
Qed.

(** ** Accounting *)

Definition occ {A} `{EqDecision A} (x : A) (l : list A) : nat := length (filter (.= x) l).
#[global] Arguments occ : simpl never.

Lemma occ_nil {A} `{EqDecision A} (x : A) : occ x [] = 0.
Proof. done. Qed.

(** The copies of [e] that are, or have been, on their way to connection [k]. *)
Definition copies (k : N) (e : RouterEvent) (r : EventRouter) : nat :=
  occ (e, k) (in_flight r) + occ e (default [] (channels r !! k)) + occ (k, e) (received r).

Lemma occ_app {A} `{EqDecision A} (x : A) l1 l2 : occ x (l1 ++ l2) = occ x l1 + occ x l2.
Proof. unfold occ. by rewrite list.filter_app, length_app. Qed.

Lemma occ_cons {A} `{EqDecision A} (x y : A) l : occ x (y :: l) = (if decide (y = x) then 1 else 0) + occ x l.
Proof. unfold occ. rewrite list.filter_cons. by destruct (decide (y = x)). Qed.

Lemma occ_delete {A} `{EqDecision A} (x y : A) l i :
  l !! i = Some y -> occ x l = (if decide (y = x) then 1 else 0) + occ x (delete i l).
Proof.
  intros Hi. apply delete_Permutation in Hi. rewrite <- occ_cons. unfold occ. by rewrite <- Hi.
Qed.

Definition looks_up (e : RouterEvent) (o : router_op) : nat :=
  match o with OLookup e' => if decide (e' = e) then 1 else 0 | _ => 0 end.

Lemma run_op_copies k e r o : copies k e (run_op r o) <= looks_up e o + copies k e r.
Proof.
  unfold copies. destruct o as [|k' sid|k' sid|e'|i|k'|k'|k']; cbn [run_op looks_up].
  - cbn. destruct (decide (k = u64_add (next_connection r) 1)) as [->|];
      [rewrite lookup_insert_eq | by rewrite lookup_insert_ne].
    change (occ e (default [] (Some []))) with 0. lia.
  - done.
  - unfold unsubscribe. by case_bool_decide.
  - unfold publish_lookup. destruct (router_sessions r !! _) as [k0|]; [| case_match; lia].
    case_bool_decide; cbn; [| case_match; lia]. rewrite occ_app, occ_cons.
    destruct (decide (e' = e)), (decide ((e', k0) = (e, k))); simplify_eq; rewrite ?occ_nil; lia.
  - unfold publish_send. destruct (in_flight r !! i) as [[e0 k0]|] eqn:Hi; [| lia]. cbn.
    rewrite (occ_delete _ _ _ _ Hi). unfold try_send. destruct (decide (k = k0)) as [->|].
    + rewrite lookup_alter_eq. destruct (channels r !! k0) as [q|]; cbn; [| case_decide; lia].
      case_match; [rewrite occ_app, occ_cons |].
      all: destruct (decide (e0 = e)), (decide ((e0, k0) = (e, k0))); simplify_eq; rewrite ?occ_nil; lia.
    + rewrite lookup_alter_ne by done. case_decide; lia.
  - unfold recv. destruct (channels r !! k') as [[|e0 q]|] eqn:Hk; cbn; [done | | done].
    rewrite occ_app, occ_cons. destruct (decide (k = k')) as [->|].
    + rewrite lookup_insert_eq, Hk. cbn. rewrite occ_cons.
      destruct (decide (e0 = e)), (decide ((k', e0) = (k', e))); simplify_eq; rewrite ?occ_nil; lia.
    + rewrite lookup_insert_ne by done. destruct (decide ((k', e0) = (k, e))); simplify_eq; rewrite ?occ_nil; lia.
  - done.
  - cbn. destruct (decide (k = k')) as [->|];
      [rewrite lookup_delete_eq | by rewrite lookup_delete_ne].
    change (occ e (default [] None)) with 0. lia.
Qed.

(** ** Bounds *)

Definition queues_bounded (r : EventRouter) : Prop :=
  map_Forall (fun _ q => length q <= EVENT_QUEUE_CAPACITY) (channels r).

Lemma run_op_bounded r o : queues_bounded r -> queues_bounded (run_op r o).
Proof.
  intros Hb. destruct o as [|k sid|k sid|e|i|k|k|k]; cbn [run_op]; try done.
  - apply map_Forall_insert_2; [cbn; lia | done].
  - unfold unsubscribe. by case_bool_decide.
  - unfold publish_lookup. case_match; [| done]. by case_bool_decide.
  - unfold publish_send. destruct (in_flight r !! i) as [[e k]|]; [| done].
    intros k' q. cbn. unfold try_send. destruct (decide (k' = k)) as [->|];
      [| rewrite lookup_alter_ne by done; apply Hb].
    rewrite lookup_alter_eq. destruct (channels r !! k) as [q0|] eqn:Hk; [| done].
    cbn [fmap option_fmap option_map]. intros [= <-]. destruct (Nat.ltb_spec (length q0) EVENT_QUEUE_CAPACITY); [| by eapply Hb].
    rewrite length_app. cbn. lia.
  - unfold recv. destruct (channels r !! k) as [[|e q]|] eqn:Hk; try done.
    apply map_Forall_insert_2; [| done]. specialize (Hb k _ Hk). cbn in Hb. lia.
  - intros k' q Hl. cbn in Hl. apply lookup_delete_Some in Hl as [_ Hl]. by apply (Hb k').
Qed.

(** ** Histories *)

Lemma run_router_snoc os o : run_router (os ++ [o]) = run_op (run_router os) o.
Proof. unfold run_router. by rewrite foldl_app. Qed.

Lemma run_router_bounded os : queues_bounded (run_router os).
Proof.
  induction os as [|o os IH] using rev_ind; [by intros k q |].
  rewrite run_router_snoc. by apply run_op_bounded.
Qed.

Lemma run_router_copies k e os : copies k e (run_router os) <= sum_list_with (looks_up e) os.
Proof.
  induction os as [|o os IH] using rev_ind; [done |].
  rewrite run_router_snoc, sum_list_with_app. cbn.
  pose proof (run_op_copies k e (run_router os) o). lia.
Qed.

(** Where a session can be routed: only to connections it was subscribed to. *)
Lemma sessions_subscribed os sid k :
  router_sessions (run_router os) !! sid = Some k -> OSubscribe k sid ∈ os.
Proof.
  induction os as [|o os IH] using rev_ind; [done |]. rewrite run_router_snoc, elem_of_app.
  set (r := run_router os) in *. destruct o as [|k' sid'|k' sid'|e|i|k'|k'|k']; cbn; auto.
  - destruct (decide (sid = sid')) as [->|]; [rewrite lookup_insert_eq | rewrite lookup_insert_ne by done; auto].
    intros [= <-]. right. by apply list_elem_of_singleton.
  - unfold unsubscribe. case_bool_decide; cbn; [| auto]. intros [_ ?]%lookup_delete_Some. auto.
  - unfold publish_lookup. case_match; [case_bool_decide |]; cbn; auto.
  - unfold publish_send. repeat case_match; cbn; auto.
  - unfold recv. repeat case_match; cbn; auto.
  - intros [? _]%map_lookup_filter_Some. auto.
Qed.

Lemma run_router_routed os :
  routed (fun e k => OSubscribe k (session_id e) ∈ os /\ OLookup e ∈ os) (run_router os).
Proof.
  induction os as [|o os IH] using rev_ind.
  { split; cbn; [by intros ?? ?%elem_of_nil | done | by intros ?? ?%elem_of_nil]. }
  rewrite run_router_snoc. apply run_op_routed.
  - destruct o as [| | |e| | | |]; cbn; try done. intros k Hk%sessions_subscribed.
    rewrite !elem_of_app, !list_elem_of_singleton. auto.
  - destruct IH as [Hf Hq Hr]. split.
    + intros e k [? ?]%Hf. rewrite !elem_of_app. auto.
    + intros e k q Hl [? ?]%(Hq _ _ _ Hl). rewrite !elem_of_app. auto.
    + intros e k [? ?]%Hr. rewrite !elem_of_app. auto.
Qed.

(** C26.  Events never cross connections: over any interleaving of
    registrations, subscriptions, publications (each its lookup and its send),
    receptions and teardowns, a connection receives only events that were
    published, of sessions it was itself subscribed to, and at most once per
    publication; so a session subscribed by one connection only reaches no
    other.  No queue ever exceeds its capacity. *)
Theorem events_never_cross os :
  let r := run_router os in
  (forall k e, (k, e) ∈ received r -> OSubscribe k (session_id e) ∈ os /\ OLookup e ∈ os) /\
  (forall k e, occ (k, e) (received r) <= sum_list_with (looks_up e) os) /\
  (forall k k' e, (forall x, OSubscribe x (session_id e) ∈ os -> x = k) ->
     (k', e) ∈ received r -> k' = k) /\
  (forall k q, channels r !! k = Some q -> length q <= EVENT_QUEUE_CAPACITY).
Proof.
  cbn. split_and!.
  - intros k e. apply (routed_received _ _ (run_router_routed os)).
  - intros k e. pose proof (run_router_copies k e os). unfold copies in *. lia.
  - intros k k' e Hall Hin. apply Hall.
    by destruct (routed_received _ _ (run_router_routed os) e k' Hin).
  - intros k q. apply (run_router_bounded os).
Qed.

(** The two-step publication does deliver: an event of a subscribed session
    reaches the subscriber's queue when there is room. *)
Lemma publish_delivers e k q r :
  router_sessions r !! session_id e = Some k -> k ∈ router_connections r ->
  channels r !! k = Some q -> length q < EVENT_QUEUE_CAPACITY ->
  channels (publish_send (length (in_flight r)) (publish_lookup e r)) !! k = Some (q ++ [e]).
Proof.
  intros Hs Hk Hq Hl. unfold publish_lookup. rewrite Hs, bool_decide_eq_true_2 by done.
  unfold publish_send. cbn [in_flight]. rewrite lookup_app_r, Nat.sub_diag by lia. cbn.
  unfold try_send. rewrite lookup_alter_eq, Hq. cbn [fmap option_fmap option_map].
  by destruct (Nat.ltb_spec (length q) EVENT_QUEUE_CAPACITY); [| lia].
Qed.

(** A teardown does not reach a publication that has already looked its
    connection up: the event still lands in the queue afterwards. *)
Example teardown_misses_in_flight :
  let e := Terminal {| out_session_id := "pty-a"; seq := 1; data := "x" |} in
  channels (run_router [ORegister; OSubscribe 1 "pty-a"; OLookup e; OUnsubscribeAll 1; OSend 0]) !! 1%N
  = Some [e].
Proof. vm_compute. reflexivity. Qed.
