(* ===== verification/Envelope.v ===== *)
(** * Interop envelopes

    Model of the wire types and the frame-level validation of
    [crates/daemon/src/envelope.rs].  A Rust [String] is the [string] of its
    UTF-8 bytes, so [len] is [String.length] and [chars().count()] counts the
    bytes that start a character.  [serde_json] is the interface [Serde].  A
    validation function returns the issues it pushes, in order. *)
From Stdlib Require Import NArith Ascii Lia.
From stdpp Require Import base strings list option pretty.
From S2P Require Import Prelude.

(** ** Wire types *)

Definition PROTOCOL : string := "interop.dsh-desktop.local/v1alpha1".
Definition ID_MIN_LEN : nat := 8.
Definition ID_MAX_LEN : nat := 128.
Definition ERROR_MESSAGE_MAX_LEN : nat := 512.

Inductive EnvelopeKind := Hello | Agreement | Invocation | Result | Event.

Inductive ErrorCode :=
| Unavailable | Unauthorized | UnsupportedVersion | NotProcessOwner | UserGestureRequired
| UserDenied | StaleGeneration | MalformedMessage | Conflict | Timeout | SafeStop.

(** [impl Display for ErrorCode] *)
Definition error_code_display (c : ErrorCode) : string :=
  match c with
  | Unavailable => "UNAVAILABLE"
  | Unauthorized => "UNAUTHORIZED"
  | UnsupportedVersion => "UNSUPPORTED_VERSION"
  | NotProcessOwner => "NOT_PROCESS_OWNER"
  | UserGestureRequired => "USER_GESTURE_REQUIRED"
  | UserDenied => "USER_DENIED"
  | StaleGeneration => "STALE_GENERATION"
  | MalformedMessage => "MALFORMED_MESSAGE"
  | Conflict => "CONFLICT"
  | Timeout => "TIMEOUT"
  | SafeStop => "SAFE_STOP"
  end.

Inductive UnavailableReason :=
| ReasonUnavailable | ReasonUnsupportedVersion | ReasonPolicyDenied | ReasonProviderFailed.

Record ProtocolCoordinate := { api_version : string; coordinate_kind : string }.

Record Participant := { component : string; facet : string; participant_activation : option string }.

Record ProtocolError := {
  error_code : ErrorCode; error_message : string; error_retryable : bool; correlation_id : string
}.

Record Requirement := { requirement_coordinate : ProtocolCoordinate; required : bool }.

Record HelloPayload := {
  instance_id : string; supports : list ProtocolCoordinate; requires : list Requirement
}.

Record UnavailableCapability := {
  unavailable_coordinate : ProtocolCoordinate; unavailable_reason : UnavailableReason
}.

Record LeaseConstraints := { max_seconds : option N; approval_required : option bool }.

Record AgreementPayload := {
  activation_id : string; granted : list ProtocolCoordinate;
  unavailable : list UnavailableCapability; lease_constraints : option LeaseConstraints
}.

(** What the code asks of [serde_json]: whether a value is an object, the typed
    decoders with their error texts, and the serializers used for uniqueness. *)
Class Serde (Value : Type) := {
  is_object : Value -> bool;
  hello_from_value : Value -> result string HelloPayload;
  agreement_from_value : Value -> result string AgreementPayload;
  coordinate_to_string : ProtocolCoordinate -> string;
  requirement_to_string : Requirement -> string;
  unavailable_to_string : UnavailableCapability -> string
}.

Record Envelope (Value : Type) := {
  protocol : string;
  env_id : string;
  kind : EnvelopeKind;
  reply_to : option string;
  participant : Participant;
  timestamp : string;
  generation : N;
  capability : option ProtocolCoordinate;
  method : option string;
  payload : option Value;
  error : option ProtocolError
}.
Arguments protocol {Value} _.
Arguments env_id {Value} _.
Arguments kind {Value} _.
Arguments reply_to {Value} _.
Arguments participant {Value} _.
Arguments timestamp {Value} _.
Arguments generation {Value} _.
Arguments capability {Value} _.
Arguments method {Value} _.
Arguments payload {Value} _.
Arguments error {Value} _.

Record ValidationIssue := { issue_path : string; issue_message : string }.

Definition issue (path message : string) : list ValidationIssue :=
  [{| issue_path := path; issue_message := message |}].

(** ** Characters *)

Definition code (c : ascii) : N := N_of_ascii c.
Definition is_lower (c : ascii) : bool := ((97 <=? code c) && (code c <=? 122))%N.
Definition is_upper (c : ascii) : bool := ((65 <=? code c) && (code c <=? 90))%N.
Definition is_digit (c : ascii) : bool := ((48 <=? code c) && (code c <=? 57))%N.
Definition is_alphanumeric (c : ascii) : bool := is_lower c || is_upper c || is_digit c.

(** [chars().count()]: bytes that are not UTF-8 continuation bytes. *)
Definition chars_count (s : string) : nat :=
  length (List.filter (fun c => negb ((128 <=? code c) && (code c <? 192))%N)
            (String.list_ascii_of_string s)).

(** A double quote, for the messages that contain one. *)
Definition dq : string := String.String (ascii_of_nat 34) String.EmptyString.

(** [(lo..=hi).contains(&s.len())] *)
Definition len_within (lo hi : nat) (s : string) : bool :=
  (lo <=? String.length s)%nat && (String.length s <=? hi)%nat.

(** ** Patterns *)

(** [valid_method] *)
Definition valid_method (s : string) : bool :=
  match String.list_ascii_of_string s with
  | first :: rest =>
      is_lower first && (2 <=? String.length s)%nat &&
      forallb (fun c => is_lower c || is_digit c || Ascii.eqb c "." || Ascii.eqb c "_" || Ascii.eqb c "-") rest
  | [] => false
  end.

(** [str::rsplit_once] *)
Fixpoint rsplit_once (sep : ascii) (s : list ascii) : option (list ascii * list ascii) :=
  match s with
  | [] => None
  | a :: s =>
      match rsplit_once sep s with
      | Some (x, y) => Some (a :: x, y)
      | None => if Ascii.eqb a sep then Some ([], s) else None
      end
  end.

(** [while i < bytes.len() && bytes[i].is_ascii_digit()] *)
Fixpoint skip_digits (s : list ascii) : list ascii :=
  match s with
  | a :: s' => if is_digit a then skip_digits s' else s
  | [] => []
  end.

(** [str::strip_prefix] *)
Fixpoint strip_prefix (pre s : list ascii) : option (list ascii) :=
  match pre, s with
  | [], _ => Some s
  | a :: pre, b :: s => if Ascii.eqb a b then strip_prefix pre s else None
  | _ :: _, [] => None
  end.

Definition is_namespace_char (c : ascii) : bool :=
  is_lower c || is_digit c || Ascii.eqb c "." || Ascii.eqb c "-".

(** What may follow the major version. *)
Definition valid_stage (suffix : list ascii) : bool :=
  match suffix with
  | [] => true
  | _ =>
      match match strip_prefix (String.list_ascii_of_string "alpha") suffix with
            | Some rest => Some rest
            | None => strip_prefix (String.list_ascii_of_string "beta") suffix
            end with
      | Some rest => negb (length rest =? 0)%nat && forallb is_digit rest
      | None => false
      end
  end.

(** [valid_api_version] *)
Definition valid_api_version (value : string) : bool :=
  match rsplit_once "/" (String.list_ascii_of_string value) with
  | None => false
  | Some (namespace, version) =>
      if (length namespace =? 0)%nat || negb (forallb is_namespace_char namespace) then false
      else
        match version with
        | v :: rest =>
            if negb (Ascii.eqb v "v") then false
            else if (length (skip_digits rest) =? length rest)%nat then false
            else valid_stage (skip_digits rest)
        | [] => false
        end
  end.

(** [valid_coordinate_kind] *)
Definition valid_coordinate_kind (s : string) : bool :=
  match String.list_ascii_of_string s with
  | first :: rest => is_upper first && (2 <=? String.length s)%nat && forallb is_alphanumeric rest
  | [] => false
  end.

(** ** Timestamps *)

(** [(b - b'0') * 10 + (b' - b'0')] *)
Definition two (a b : ascii) : N := ((code a - 48) * 10 + (code b - 48))%N.

(** The zone designator, which ends the text. *)
Definition zone_ok (s : list ascii) : bool :=
  match s with
  | z :: rest =>
      if Ascii.eqb z "Z" || Ascii.eqb z "z" then (length rest =? 0)%nat
      else if Ascii.eqb z "+" || Ascii.eqb z "-" then
        match rest with
        | [h1; h2; c; m1; m2] =>
            is_digit h1 && is_digit h2 && Ascii.eqb c ":" && is_digit m1 && is_digit m2 &&
            ((two h1 h2 <=? 23) && (two m1 m2 <=? 59))%N
        | _ => false
        end
      else false
  | [] => false
  end.

(** The optional fraction and the zone. *)
Definition fraction_ok (s : list ascii) : bool :=
  match s with
  | a :: rest =>
      if Ascii.eqb a "." then
        if (length (skip_digits rest) =? length rest)%nat then false else zone_ok (skip_digits rest)
      else zone_ok s
  | [] => zone_ok s
  end.

(** [is_rfc3339_timestamp]; a text of fewer than 20 bytes does not match. *)
Definition is_rfc3339_timestamp (value : string) : bool :=
  match String.list_ascii_of_string value with
  | y1 :: y2 :: y3 :: y4 :: s1 :: m1 :: m2 :: s2 :: d1 :: d2 :: t ::
    h1 :: h2 :: c1 :: n1 :: n2 :: c2 :: e1 :: e2 :: rest =>
      forallb is_digit [y1; y2; y3; y4] && Ascii.eqb s1 "-" && is_digit m1 && is_digit m2 &&
      Ascii.eqb s2 "-" && is_digit d1 && is_digit d2 &&
      ((1 <=? two m1 m2) && (two m1 m2 <=? 12) && (1 <=? two d1 d2) && (two d1 d2 <=? 31))%N &&
      (Ascii.eqb t "T" || Ascii.eqb t "t") && is_digit h1 && is_digit h2 && Ascii.eqb c1 ":" &&
      is_digit n1 && is_digit n2 && Ascii.eqb c2 ":" && is_digit e1 && is_digit e2 &&
      ((two h1 h2 <=? 23) && (two n1 n2 <=? 59) && (two e1 e2 <=? 59))%N && fraction_ok rest
  | _ => false
  end.

(** ** Validation *)

(** [forbid] *)
Definition forbid (condition : bool) (path message : string) : list ValidationIssue :=
  if condition then issue path message else [].

Definition some {A} (o : option A) : bool := if o is Some _ then true else false.

Definition length_outside (s : string) : string :=
  "length " +:+ pretty (String.length s) +:+ " outside $" +:+ pretty ID_MIN_LEN +:+ "..=$"
    +:+ pretty ID_MAX_LEN.

(** [validate_coordinate] *)
Definition validate_coordinate (c : ProtocolCoordinate) (path : string) : list ValidationIssue :=
  (if valid_api_version (api_version c) then []
   else issue path (dq +:+ api_version c +:+ dq +:+
          " does not match ^[a-z0-9.-]+/v[0-9]+(alpha[0-9]+|beta[0-9]+)?$")) ++
  (if valid_coordinate_kind (coordinate_kind c) then []
   else issue path (dq +:+ coordinate_kind c +:+ dq +:+ " does not match ^[A-Z][A-Za-z0-9]+$")).

(** [validate_coordinates] *)
Definition validate_coordinates (l : list ProtocolCoordinate) (path : string) : list ValidationIssue :=
  l ≫= fun c => validate_coordinate c path.

(** The loop of [unique_serialized], with the texts seen so far. *)
Fixpoint unique_from (seen : list string) (l : list string) : bool :=
  match l with
  | [] => true
  | x :: l => if bool_decide (x ∈ seen) then false else unique_from (x :: seen) l
  end.

(** [unique_serialized] *)
Definition unique_serialized {T} (to_string : T -> string) (items : list T) : bool :=
  unique_from [] (map to_string items).

Section Validation.
Context {Value : Type} `{Serde Value}.
Implicit Types env : Envelope Value.

(** [parse_payload] *)
Definition parse_payload {T} (from_value : Value -> result string T) (env : Envelope Value)
    (path : string) : list ValidationIssue + T :=
  match payload env with
  | None => inl (issue path ("missing required " +:+ dq +:+ "payload" +:+ dq))
  | Some v =>
      match from_value v with
      | Ok p => inr p
      | Err e => inl (issue path ("payload does not match shape: " +:+ e))
      end
  end.

(** [validate_reply_to] *)
Definition validate_reply_to (env : Envelope Value) : list ValidationIssue :=
  match reply_to env with
  | Some r => if len_within ID_MIN_LEN ID_MAX_LEN r then [] else issue "envelope.replyTo" (length_outside r)
  | None => issue "envelope.replyTo" ("missing required " +:+ dq +:+ "replyTo" +:+ dq)
  end.

(** [validate_capability] *)
Definition validate_capability (env : Envelope Value) : list ValidationIssue :=
  match capability env with
  | Some c => validate_coordinate c "envelope.capability"
  | None => issue "envelope.capability" ("missing required " +:+ dq +:+ "capability" +:+ dq)
  end.

(** [validate_method] *)
Definition validate_method (env : Envelope Value) : list ValidationIssue :=
  match method env with
  | Some m => if valid_method m then []
              else issue "envelope.method" (dq +:+ m +:+ dq +:+ " does not match ^[a-z][a-z0-9._-]+$")
  | None => issue "envelope.method" ("missing required " +:+ dq +:+ "method" +:+ dq)
  end.

(** [validate_payload_object] *)
Definition validate_payload_object (env : Envelope Value) : list ValidationIssue :=
  match payload env with
  | Some p => if is_object p then [] else issue "envelope.payload" "payload must be an object"
  | None => issue "envelope.payload" ("missing required " +:+ dq +:+ "payload" +:+ dq)
  end.

(** [validate_hello] *)
Definition validate_hello (env : Envelope Value) : list ValidationIssue :=
  forbid (some (reply_to env)) "envelope.replyTo" "Hello must not carry replyTo" ++
  forbid (some (capability env)) "envelope.capability" "Hello must not carry capability" ++
  forbid (some (method env)) "envelope.method" "Hello must not carry method" ++
  forbid (some (error env)) "envelope.error" "Hello must not carry error" ++
  match parse_payload hello_from_value env "envelope.payload" with
  | inl issues => issues
  | inr p =>
      (if len_within 8 128 (instance_id p) then []
       else issue "envelope.payload.instanceId"
              ("length " +:+ pretty (String.length (instance_id p)) +:+ " outside 8..=128")) ++
      validate_coordinates (supports p) "envelope.payload.supports" ++
      (if unique_serialized coordinate_to_string (supports p) then []
       else issue "envelope.payload.supports" "items must be unique") ++
      mjoin (imap (fun i r => validate_coordinate (requirement_coordinate r)
               ("envelope.payload.requires[" +:+ pretty i +:+ "].coordinate")) (requires p)) ++
      (if unique_serialized requirement_to_string (requires p) then []
       else issue "envelope.payload.requires" "items must be unique")
  end.

(** [validate_agreement] *)
Definition validate_agreement (env : Envelope Value) : list ValidationIssue :=
  forbid (some (capability env)) "envelope.capability" "Agreement must not carry capability" ++
  forbid (some (method env)) "envelope.method" "Agreement must not carry method" ++
  forbid (some (error env)) "envelope.error" "Agreement must not carry error" ++
  validate_reply_to env ++
  match parse_payload agreement_from_value env "envelope.payload" with
  | inl issues => issues
  | inr p =>
      (if len_within 1 128 (activation_id p) then []
       else issue "envelope.payload.activationId" "length outside 1..=128") ++
      validate_coordinates (granted p) "envelope.payload.granted" ++
      (if unique_serialized coordinate_to_string (granted p) then []
       else issue "envelope.payload.granted" "items must be unique") ++
      mjoin (imap (fun i u => validate_coordinate (unavailable_coordinate u)
               ("envelope.payload.unavailable[" +:+ pretty i +:+ "].coordinate")) (unavailable p)) ++
      (if unique_serialized unavailable_to_string (unavailable p) then []
       else issue "envelope.payload.unavailable" "items must be unique") ++
      match c ← lease_constraints p; max_seconds c with
      | Some m => forbid (m <? 1)%N "envelope.payload.leaseConstraints.maxSeconds" "minimum 1"
      | None => []
      end
  end.

(** [validate_invocation] *)
Definition validate_invocation (env : Envelope Value) : list ValidationIssue :=
  forbid (some (reply_to env)) "envelope.replyTo" "Invocation must not carry replyTo" ++
  forbid (some (error env)) "envelope.error" "Invocation must not carry error" ++
  validate_capability env ++ validate_method env ++ validate_payload_object env.

(** [validate_event] *)
Definition validate_event (env : Envelope Value) : list ValidationIssue :=
  forbid (some (error env)) "envelope.error" "Event must not carry error" ++
  validate_capability env ++ validate_method env ++ validate_payload_object env.

(** [validate_result] *)
Definition validate_result (env : Envelope Value) : list ValidationIssue :=
  validate_reply_to env ++ validate_capability env ++ validate_method env ++
  match payload env, error env with
  | Some _, Some _ => issue "envelope"
      "oneOf matched 2 branches (expected exactly 1): payload and error are mutually exclusive"
  | None, None => issue "envelope"
      "oneOf matched 0 branches (expected exactly 1): Result requires payload or error"
  | Some p, None => if is_object p then [] else issue "envelope.payload" "payload must be an object"
  | None, Some e =>
      forbid (ERROR_MESSAGE_MAX_LEN <? chars_count (error_message e))%nat "envelope.error.message"
        ("longer than maxLength $" +:+ pretty ERROR_MESSAGE_MAX_LEN) ++
      (if len_within ID_MIN_LEN ID_MAX_LEN (correlation_id e) then []
       else issue "envelope.error.correlationId" (length_outside (correlation_id e)))
  end.

(** The issues [validate_envelope] collects. *)
Definition envelope_issues (env : Envelope Value) : list ValidationIssue :=
  (if bool_decide (protocol env = PROTOCOL) then []
   else issue "envelope.protocol" ("expected const " +:+ dq +:+ "$" +:+ PROTOCOL +:+ dq +:+ ", got "
          +:+ dq +:+ protocol env +:+ dq)) ++
  (if len_within ID_MIN_LEN ID_MAX_LEN (env_id env) then []
   else issue "envelope.id" ("id " +:+ length_outside (env_id env))) ++
  forbid (bool_decide (component (participant env) = "")) "envelope.participant.component" "minLength 1" ++
  forbid (bool_decide (facet (participant env) = "")) "envelope.participant.facet" "minLength 1" ++
  match participant_activation (participant env) with
  | Some a => if len_within 1 128 a then []
              else issue "envelope.participant.activationId" "length outside 1..=128"
  | None => []
  end ++
  (if is_rfc3339_timestamp (timestamp env) then []
   else issue "envelope.timestamp" (dq +:+ timestamp env +:+ dq +:+ " is not a valid date-time")) ++
  match kind env with
  | Hello => validate_hello env
  | Agreement => validate_agreement env
  | Invocation => validate_invocation env
  | Result => validate_result env
  | Event => validate_event env
  end.

(** [validate_envelope] *)
Definition validate_envelope (env : Envelope Value) : result (list ValidationIssue) unit :=
  match envelope_issues env with [] => Ok tt | issues => Err issues end.
End Validation.
