(* ===== verification/EnvelopeFacts.v ===== *)
(** * What an accepted envelope satisfies

    The schema's patterns as regular expressions with their usual meaning, the
    hand-written matchers of [Envelope] proved to decide them, what
    [validate_envelope] checks as one predicate that it decides, and the rules of
    [specs/protocol/envelope.schema.json] as another, with where the two differ.  The timestamp check is compared with the printer and the parser
    of [Civil]. *)
From Stdlib Require Import NArith ZArith Ascii Lia.
From stdpp Require Import base strings list option pretty.
From S2P Require Import Prelude Envelope.

(** ** Regular expressions *)

Inductive re :=
| Eps
| Chr (p : ascii -> bool)
| Cat (a b : re)
| Alt (a b : re)
| Plus (a : re).

Inductive matches : re -> list ascii -> Prop :=
| m_eps : matches Eps []
| m_chr p c : p c = true -> matches (Chr p) [c]
| m_cat a b s t : matches a s -> matches b t -> matches (Cat a b) (s ++ t)
| m_alt_l a b s : matches a s -> matches (Alt a b) s
| m_alt_r a b s : matches b s -> matches (Alt a b) s
| m_plus_one a s : matches a s -> matches (Plus a) s
| m_plus_more a s t : matches a s -> matches (Plus a) t -> matches (Plus a) (s ++ t).

Definition lit (c : ascii) : re := Chr (Ascii.eqb c).
Fixpoint word (s : list ascii) : re :=
  match s with [] => Eps | c :: s => Cat (lit c) (word s) end.
Definition text_matches (r : re) (s : string) : Prop := matches r (String.list_ascii_of_string s).

(** [^[a-z][a-z0-9._-]+$] *)
Definition is_method_char (c : ascii) : bool :=
  is_lower c || is_digit c || Ascii.eqb c "." || Ascii.eqb c "_" || Ascii.eqb c "-".
Definition METHOD : re := Cat (Chr is_lower) (Plus (Chr is_method_char)).

(** [^[A-Z][A-Za-z0-9]+$] *)
Definition KIND : re := Cat (Chr is_upper) (Plus (Chr is_alphanumeric)).

(** [^[a-z0-9.-]+/v[0-9]+(alpha[0-9]+|beta[0-9]+)?$] *)
Definition DIGITS : re := Plus (Chr is_digit).
Definition STAGE : re :=
  Alt Eps (Alt (Cat (word (String.list_ascii_of_string "alpha")) DIGITS)
               (Cat (word (String.list_ascii_of_string "beta")) DIGITS)).
Definition API_VERSION : re :=
  Cat (Plus (Chr is_namespace_char)) (Cat (lit "/") (Cat (lit "v") (Cat DIGITS STAGE))).

(** *** Inversion *)

Lemma matches_eps s : matches Eps s <-> s = [].
Proof. split; [by inversion 1 | intros ->; constructor]. Qed.

Lemma matches_chr p s : matches (Chr p) s <-> exists c, s = [c] /\ p c = true.
Proof. split; [inversion 1; eauto | intros (c & -> & ?); by constructor]. Qed.

Lemma matches_cat a b s : matches (Cat a b) s <-> exists x y, s = x ++ y /\ matches a x /\ matches b y.
Proof. split; [inversion 1; eauto 6 | intros (x & y & -> & ? & ?); by constructor]. Qed.

Lemma matches_alt a b s : matches (Alt a b) s <-> matches a s \/ matches b s.
Proof. split; [inversion 1; auto | intros [?|?]; by constructor]. Qed.

Lemma matches_plus_chr p s : matches (Plus (Chr p)) s <-> s <> [] /\ forallb p s = true.
Proof.
  split.
  - intros Hm. remember (Plus (Chr p)) as r eqn:Hr. induction Hm; simplify_eq.
    + apply matches_chr in Hm as (c & -> & Hc). cbn. by rewrite Hc.
    + apply matches_chr in Hm1 as (c & -> & Hc). destruct (IHHm2 eq_refl) as [_ Ht].
      cbn. by rewrite Hc, Ht.
  - intros [Hne Hall]. induction s as [|c s IH]; [done |]. cbn in Hall.
    apply andb_true_iff in Hall as [Hc Hall]. destruct s as [|d s].
    + apply m_plus_one. by constructor.
    + apply (m_plus_more (Chr p) [c] (d :: s)); [by constructor | by apply IH].
Qed.

Lemma matches_lit c s : matches (lit c) s <-> s = [c].
Proof.
  unfold lit. rewrite matches_chr. split; [intros (d & -> & <-%Ascii.eqb_eq); done |].
  intros ->. exists c. by rewrite Ascii.eqb_refl.
Qed.

Lemma matches_word w s : matches (word w) s <-> s = w.
Proof.
  revert s. induction w as [|c w IH]; intros s; cbn; [apply matches_eps |].
  rewrite matches_cat. split.
  - intros (x & y & -> & ->%matches_lit & ->%IH). done.
  - intros ->. exists [c], w. by rewrite matches_lit, IH.
Qed.

Lemma matches_word_cat w r s : matches (Cat (word w) r) s <-> exists t, s = w ++ t /\ matches r t.
Proof.
  rewrite matches_cat. split.
  - intros (x & y & -> & ->%matches_word & ?). eauto.
  - intros (t & -> & ?). exists w, t. by rewrite matches_word.
Qed.

Lemma matches_lit_cat c r s : matches (Cat (lit c) r) s <-> exists t, s = c :: t /\ matches r t.
Proof.
  rewrite matches_cat. split.
  - intros (x & y & -> & ->%matches_lit & ?). eauto.
  - intros (t & -> & ?). exists [c], t. by rewrite matches_lit.
Qed.

(** ** The matchers *)

Lemma length_list_ascii s : String.length s = length (String.list_ascii_of_string s).
Proof. induction s; cbn; auto. Qed.

(** One leading class and at least one character of another. *)
Lemma head_tail_matches p q s :
  matches (Cat (Chr p) (Plus (Chr q))) s <->
  exists c t, s = c :: t /\ p c = true /\ t <> [] /\ forallb q t = true.
Proof.
  rewrite matches_cat. split.
  - intros (x & y & -> & (c & -> & Hc)%matches_chr & [Hn Hq]%matches_plus_chr). exists c, y. done.
  - intros (c & t & -> & Hc & Hn & Hq). exists [c], t. rewrite matches_chr, matches_plus_chr. split_and!; eauto.
Qed.

Lemma head_tail_decides p q s l :
  String.list_ascii_of_string s = l ->
  match l with c :: t => p c && (2 <=? String.length s)%nat && forallb q t | [] => false end = true <->
  matches (Cat (Chr p) (Plus (Chr q))) l.
Proof.
  intros Hl. rewrite head_tail_matches, length_list_ascii, Hl. destruct l as [|c t].
  { split; [done |]. by intros (? & ? & ? & _). }
  rewrite !andb_true_iff, Nat.leb_le. cbn [length]. split.
  - intros [[Hc Hlen] Hq]. exists c, t. split_and!; try done. intros ->. cbn in Hlen. lia.
  - intros (c' & t' & [= <- <-] & Hc & Hn & Hq). split_and!; try done.
    destruct t; [done |]. cbn. lia.
Qed.

Lemma valid_method_spec s : valid_method s = true <-> text_matches METHOD s.
Proof. apply (head_tail_decides is_lower is_method_char s _ eq_refl). Qed.

Lemma valid_coordinate_kind_spec s : valid_coordinate_kind s = true <-> text_matches KIND s.
Proof. apply (head_tail_decides is_upper is_alphanumeric s _ eq_refl). Qed.

Lemma rsplit_once_none sep s : rsplit_once sep s = None <-> sep ∉ s.
Proof.
  induction s as [|a s IH]; cbn; [split; [by intros _ ?%elem_of_nil | done] |].
  rewrite not_elem_of_cons. destruct (rsplit_once sep s) as [[x y]|].
  - split; [done |]. intros [_ Hn]. by apply IH in Hn.
  - destruct (Ascii.eqb_spec a sep) as [->|Hne]; [split; [done | by intros [? _]] |].
    split; [| done]. intros _. split; [congruence | by apply IH].
Qed.

Lemma rsplit_once_some sep s x y :
  rsplit_once sep s = Some (x, y) <-> s = x ++ sep :: y /\ sep ∉ y.
Proof.
  split.
  - revert x. induction s as [|a s IH]; intros x; cbn; [done |].
    destruct (rsplit_once sep s) as [[x' y']|] eqn:Hr.
    + intros [= <- ->]. destruct (IH x' eq_refl) as [-> Hn]. done.
    + destruct (Ascii.eqb_spec a sep) as [->|]; [| done]. intros [= <- <-].
      split; [done | by apply rsplit_once_none].
  - intros [-> Hn]. induction x as [|b x IH]; cbn; [| by rewrite IH].
    apply rsplit_once_none in Hn. by rewrite Hn, Ascii.eqb_refl.
Qed.

Lemma skip_digits_spec s : exists d,
  s = d ++ skip_digits s /\ forallb is_digit d = true /\
  match skip_digits s with c :: _ => is_digit c = false | [] => True end.
Proof.
  induction s as [|a s (d & Hs & Hd & Hh)]; cbn; [by exists [] |].
  destruct (is_digit a) eqn:Ha.
  - exists (a :: d). cbn. rewrite Ha, Hd. split_and!; [by rewrite <- Hs | done | done].
  - by exists [].
Qed.

(** Skipping digits cuts exactly the digits in front of a text that starts
    with none. *)
Lemma skip_digits_app d s :
  forallb is_digit d = true -> match s with c :: _ => is_digit c = false | [] => True end ->
  skip_digits (d ++ s) = s.
Proof.
  intros Hd Hs. induction d as [|a d IH]; cbn in *.
  - destruct s as [|c s]; [done |]. cbn. by rewrite Hs.
  - apply andb_true_iff in Hd as [-> Hd]. by apply IH.
Qed.

Lemma strip_prefix_some pre s t : strip_prefix pre s = Some t <-> s = pre ++ t.
Proof.
  revert s. induction pre as [|a pre IH]; intros s; cbn; [split; congruence |].
  destruct s as [|b s]; [split; done |]. destruct (Ascii.eqb_spec a b) as [->|Hne].
  - rewrite IH. split; congruence.
  - split; [done |]. intros [= -> _]. done.
Qed.

Lemma digits_decides s :
  negb (length s =? 0)%nat && forallb is_digit s = true <-> matches DIGITS s.
Proof.
  unfold DIGITS. rewrite matches_plus_chr, andb_true_iff. destruct s; cbn; naive_solver.
Qed.

Lemma valid_stage_spec s : valid_stage s = true <-> matches STAGE s.
Proof.
  unfold STAGE. rewrite !matches_alt, matches_eps, !matches_word_cat.
  destruct s as [|c s]; [cbn; naive_solver |]. cbn [valid_stage]. set (t := c :: s).
  destruct (strip_prefix (String.list_ascii_of_string "alpha") t) as [r|] eqn:Ha.
  - apply strip_prefix_some in Ha. rewrite digits_decides. split; [eauto |].
    intros [? | [(x & Hx & ?) | (x & Hx & ?)]]; [done | |]; rewrite Ha in Hx; [by simplify_list_eq |].
    discriminate.
  - assert (Hna : forall x, t <> String.list_ascii_of_string "alpha" ++ x).
    { intros x Hx%strip_prefix_some. congruence. }
    destruct (strip_prefix (String.list_ascii_of_string "beta") t) as [r|] eqn:Hb.
    + apply strip_prefix_some in Hb. rewrite digits_decides. split; [eauto |].
      intros [? | [(x & Hx & ?) | (x & Hx & ?)]]; [done | by edestruct Hna |].
      rewrite Hb in Hx. by simplify_list_eq.
    + split; [done |]. intros [? | [(x & Hx & ?) | (x & Hx & ?)]]; [done | by edestruct Hna |].
      apply strip_prefix_some in Hx. congruence.
Qed.

Lemma digits_no_slash d : forallb is_digit d = true -> ("/"%char ∉ d).
Proof.
  intros Hd Hin. rewrite forallb_forall in Hd. apply list_elem_of_In, Hd in Hin. done.
Qed.

Lemma stage_head s :
  matches STAGE s -> ("/"%char ∉ s) /\ match s with c :: _ => is_digit c = false | [] => True end.
Proof.
  unfold STAGE, DIGITS. rewrite !matches_alt, matches_eps, !matches_word_cat.
  intros [-> | [(t & -> & [_ Ht]%matches_plus_chr) | (t & -> & [_ Ht]%matches_plus_chr)]].
  - split; [by intros ?%elem_of_nil | done].
  - split; [| done]. rewrite elem_of_app. intros [Hin | ?%(digits_no_slash _ Ht)]; [| done].
    refine (proj1 (bool_decide_eq_false _) _ Hin). by vm_compute.
  - split; [| done]. rewrite elem_of_app. intros [Hin | ?%(digits_no_slash _ Ht)]; [| done].
    refine (proj1 (bool_decide_eq_false _) _ Hin). by vm_compute.
Qed.

Lemma valid_api_version_spec s : valid_api_version s = true <-> text_matches API_VERSION s.
Proof.
  unfold valid_api_version, text_matches, API_VERSION. set (l := String.list_ascii_of_string s).
  rewrite matches_cat. setoid_rewrite matches_plus_chr. setoid_rewrite matches_lit_cat.
  setoid_rewrite matches_lit_cat. setoid_rewrite matches_cat. split.
  - destruct (rsplit_once "/" l) as [[ns v]|] eqn:Hs; [| done].
    apply rsplit_once_some in Hs as [-> _]. destruct (_ || _) eqn:Hns; [done |].
    apply orb_false_iff in Hns as [Hne Hns%negb_false_iff]. apply Nat.eqb_neq in Hne.
    destruct v as [|c rest]; [done |]. destruct (Ascii.eqb_spec c "v") as [->|]; cbn [negb]; [| done].
    destruct (skip_digits_spec rest) as (d & Hr & Hd & _).
    destruct (Nat.eqb_spec (length (skip_digits rest)) (length rest)) as [|Hl]; [done |].
    intros Hst%valid_stage_spec. exists ns, ("/"%char :: "v"%char :: rest).
    split_and!; [done | by intros -> | done |]. eexists. split; [done |]. eexists. split; [done |].
    exists d, (skip_digits rest). split_and!; [done | | done].
    apply digits_decides, andb_true_iff. split; [| done]. apply negb_true_iff, Nat.eqb_neq.
    intros H0. apply (f_equal length) in Hr. rewrite length_app in Hr. lia.
  - intros (ns & y & Hl & [Hne Hns] & t & -> & t' & -> & d & st & -> & Hd & Hst).
    destruct (stage_head _ Hst) as [Hslash Hhead].
    apply digits_decides, andb_true_iff in Hd as [Hdn Hd]. apply negb_true_iff, Nat.eqb_neq in Hdn.
    assert (Hr : rsplit_once "/" l = Some (ns, "v"%char :: d ++ st)).
    { apply rsplit_once_some. split; [done |]. rewrite not_elem_of_cons, not_elem_of_app.
      split_and!; [done | by apply digits_no_slash | done]. }
    rewrite Hr, Hns. destruct ns as [|n ns]; [done |]. cbn [length Nat.eqb orb negb].
    rewrite Ascii.eqb_refl. cbn [negb]. rewrite skip_digits_app by done.
    destruct (Nat.eqb_spec (length st) (length (d ++ st))) as [He|];
      [rewrite length_app in He; lia | by apply valid_stage_spec].
Qed.

(** ** What the validation checks *)

Definition len_ok (lo hi : nat) (s : string) : Prop := lo <= String.length s <= hi.

Definition coordinate_ok (c : ProtocolCoordinate) : Prop :=
  text_matches API_VERSION (api_version c) /\ text_matches KIND (coordinate_kind c).

Section Rules.
Context {Value : Type} `{Serde Value}.

Definition capability_ok (env : Envelope Value) : Prop :=
  exists c, capability env = Some c /\ coordinate_ok c.
Definition method_ok (env : Envelope Value) : Prop :=
  exists m, method env = Some m /\ text_matches METHOD m.
Definition reply_to_ok (env : Envelope Value) : Prop :=
  exists r, reply_to env = Some r /\ len_ok ID_MIN_LEN ID_MAX_LEN r.
Definition object_ok (env : Envelope Value) : Prop :=
  exists v, payload env = Some v /\ is_object v = true.

Definition hello_payload_ok (p : HelloPayload) : Prop :=
  len_ok 8 128 (instance_id p) /\
  Forall coordinate_ok (supports p) /\ NoDup (map coordinate_to_string (supports p)) /\
  Forall (fun r => coordinate_ok (requirement_coordinate r)) (requires p) /\
  NoDup (map requirement_to_string (requires p)).

Definition hello_ok (env : Envelope Value) : Prop :=
  reply_to env = None /\ capability env = None /\ method env = None /\ error env = None /\
  exists v p, payload env = Some v /\ hello_from_value v = Ok p /\ hello_payload_ok p.

Definition agreement_payload_ok (p : AgreementPayload) : Prop :=
  len_ok 1 128 (activation_id p) /\
  Forall coordinate_ok (granted p) /\ NoDup (map coordinate_to_string (granted p)) /\
  Forall (fun u => coordinate_ok (unavailable_coordinate u)) (unavailable p) /\
  NoDup (map unavailable_to_string (unavailable p)) /\
  forall c m, lease_constraints p = Some c -> max_seconds c = Some m -> (1 <= m)%N.

Definition agreement_ok (env : Envelope Value) : Prop :=
  capability env = None /\ method env = None /\ error env = None /\ reply_to_ok env /\
  exists v p, payload env = Some v /\ agreement_from_value v = Ok p /\ agreement_payload_ok p.

Definition invocation_ok (env : Envelope Value) : Prop :=
  reply_to env = None /\ error env = None /\ capability_ok env /\ method_ok env /\ object_ok env.

Definition event_ok (env : Envelope Value) : Prop :=
  error env = None /\ capability_ok env /\ method_ok env /\ object_ok env.

(** Exactly one of an object payload and a bounded error. *)
Definition result_ok (env : Envelope Value) : Prop :=
  reply_to_ok env /\ capability_ok env /\ method_ok env /\
  ((error env = None /\ object_ok env) \/
   (payload env = None /\ exists e, error env = Some e /\
      chars_count (error_message e) <= ERROR_MESSAGE_MAX_LEN /\
      len_ok ID_MIN_LEN ID_MAX_LEN (correlation_id e))).

Definition envelope_ok (env : Envelope Value) : Prop :=
  protocol env = PROTOCOL /\ len_ok ID_MIN_LEN ID_MAX_LEN (env_id env) /\
  component (participant env) <> "" /\ facet (participant env) <> "" /\
  (forall a, participant_activation (participant env) = Some a -> len_ok 1 128 a) /\
  is_rfc3339_timestamp (timestamp env) = true /\
  match kind env with
  | Hello => hello_ok env
  | Agreement => agreement_ok env
  | Invocation => invocation_ok env
  | Result => result_ok env
  | Event => event_ok env
  end.

(** ** No issue means the rule holds *)

Lemma app_nil_iff {A} (l k : list A) : l ++ k = [] <-> l = [] /\ k = [].
Proof. split; [apply app_eq_nil | by intros [-> ->]]. Qed.

Lemma if_nil (b : bool) p m : (if b then [] else issue p m) = [] <-> b = true.
Proof. by destruct b. Qed.

Lemma forbid_nil b p m : forbid b p m = [] <-> b = false.
Proof. by destruct b. Qed.

Lemma some_false {A} (o : option A) : some o = false <-> o = None.
Proof. by destruct o. Qed.

Lemma len_within_spec lo hi s : len_within lo hi s = true <-> len_ok lo hi s.
Proof. unfold len_within, len_ok. rewrite andb_true_iff, !Nat.leb_le. done. Qed.

Lemma unique_texts_spec seen l :
  unique_from seen l = true <-> NoDup l /\ forall x, x ∈ l -> x ∉ seen.
Proof.
  revert seen. induction l as [|x l IH]; intros seen; cbn.
  { split; [| done]. intros _. split; [constructor | by intros ? ?%elem_of_nil]. }
  rewrite NoDup_cons. case_bool_decide as Hx.
  - split; [done |]. intros [_ Hn]. destruct (Hn x); [by left | done].
  - rewrite IH. split.
    + intros [Hnd Hn]. split_and!; [| done |].
      * intros Hin. apply (Hn x Hin). by left.
      * intros y [-> | Hy]%elem_of_cons; [done |]. intros Hs. apply (Hn y Hy). by right.
    + intros [[Hxl Hnd] Hn]. split; [done |]. intros y Hy. rewrite not_elem_of_cons.
      split; [by intros -> | apply Hn; by right].
Qed.

Lemma unique_serialized_spec {T} (f : T -> string) l : unique_serialized f l = true <-> NoDup (map f l).
Proof.
  unfold unique_serialized. rewrite unique_texts_spec. split; [by intros [? _] |].
  intros. split; [done |]. by intros ? _ ?%elem_of_nil.
Qed.

Lemma validate_coordinate_nil c path : validate_coordinate c path = [] <-> coordinate_ok c.
Proof.
  unfold validate_coordinate, coordinate_ok.
  by rewrite app_nil_iff, !if_nil, valid_api_version_spec, valid_coordinate_kind_spec.
Qed.

Lemma validate_coordinates_nil l path : validate_coordinates l path = [] <-> Forall coordinate_ok l.
Proof.
  unfold validate_coordinates. induction l as [|c l IH]; cbn; [by rewrite Forall_nil |].
  by rewrite app_nil_iff, validate_coordinate_nil, Forall_cons, IH.
Qed.

Lemma mjoin_nil {T} (f : T -> ProtocolCoordinate) (path : nat -> string) l :
  mjoin (imap (fun i x => validate_coordinate (f x) (path i)) l) = [] <->
  Forall (fun x => coordinate_ok (f x)) l.
Proof.
  revert path. induction l as [|x l IH]; intros path; cbn; [by rewrite Forall_nil |].
  rewrite app_nil_iff, validate_coordinate_nil, Forall_cons.
  by rewrite (IH (fun i => path (S i))).
Qed.

Lemma validate_reply_to_nil env : validate_reply_to env = [] <-> reply_to_ok env.
Proof.
  unfold validate_reply_to, reply_to_ok. destruct (reply_to env) as [r|]; [| naive_solver].
  rewrite if_nil, len_within_spec. naive_solver.
Qed.

Lemma validate_capability_nil env : validate_capability env = [] <-> capability_ok env.
Proof.
  unfold validate_capability, capability_ok. destruct (capability env) as [c|]; [| naive_solver].
  rewrite validate_coordinate_nil. naive_solver.
Qed.

Lemma validate_method_nil env : validate_method env = [] <-> method_ok env.
Proof.
  unfold validate_method, method_ok. destruct (method env) as [m|]; [| naive_solver].
  rewrite if_nil, valid_method_spec. naive_solver.
Qed.

Lemma validate_payload_object_nil env : validate_payload_object env = [] <-> object_ok env.
Proof.
  unfold validate_payload_object, object_ok. destruct (payload env) as [v|]; [| naive_solver].
  rewrite if_nil. naive_solver.
Qed.

(** A typed payload: the issues after decoding are those of the decoded value. *)
Lemma parsed_nil {T} (from_value : Value -> result string T) env path
    (rest : T -> list ValidationIssue) (P : T -> Prop) :
  (forall p, rest p = [] <-> P p) ->
  match parse_payload from_value env path with inl i => i | inr p => rest p end = [] <->
  exists v p, payload env = Some v /\ from_value v = Ok p /\ P p.
Proof.
  intros HP. unfold parse_payload. destruct (payload env) as [v|].
  - destruct (from_value v) as [p|e] eqn:Hv.
    + rewrite HP. split; [eauto |]. intros (v' & p' & [= <-] & Hp & ?). congruence.
    + split; [done |]. intros (v' & p' & [= <-] & Hp & ?). congruence.
  - split; [done |]. by intros (v' & p' & ? & _).
Qed.

Lemma validate_hello_nil env : validate_hello env = [] <-> hello_ok env.
Proof.
  unfold validate_hello, hello_ok. rewrite !app_nil_iff, !forbid_nil, !some_false.
  rewrite (parsed_nil _ _ _ _ hello_payload_ok); [reflexivity |]. intros p. unfold hello_payload_ok.
  by rewrite !app_nil_iff, !if_nil, len_within_spec, validate_coordinates_nil,
    !unique_serialized_spec, (mjoin_nil requirement_coordinate).
Qed.

Lemma constraints_nil (o : option LeaseConstraints) path m :
  match c ← o; max_seconds c with Some x => forbid (x <? 1)%N path m | None => [] end = [] <->
  forall c x, o = Some c -> max_seconds c = Some x -> (1 <= x)%N.
Proof.
  destruct o as [c|]; cbn; [| naive_solver]. destruct (max_seconds c) as [x|] eqn:Hx; [| naive_solver].
  rewrite forbid_nil, N.ltb_ge. split; [intros ? c' x' [= <-]; congruence | eauto].
Qed.

Lemma validate_agreement_nil env : validate_agreement env = [] <-> agreement_ok env.
Proof.
  unfold validate_agreement, agreement_ok.
  rewrite !app_nil_iff, !forbid_nil, !some_false, validate_reply_to_nil.
  rewrite (parsed_nil _ _ _ _ agreement_payload_ok); [reflexivity |]. intros p.
  unfold agreement_payload_ok. by rewrite !app_nil_iff, !if_nil, len_within_spec, validate_coordinates_nil,
    !unique_serialized_spec, (mjoin_nil unavailable_coordinate), constraints_nil.
Qed.

Lemma validate_invocation_nil env : validate_invocation env = [] <-> invocation_ok env.
Proof.
  unfold validate_invocation, invocation_ok. by rewrite !app_nil_iff, !forbid_nil, !some_false,
    validate_capability_nil, validate_method_nil, validate_payload_object_nil.
Qed.

Lemma validate_event_nil env : validate_event env = [] <-> event_ok env.
Proof.
  unfold validate_event, event_ok. by rewrite !app_nil_iff, !forbid_nil, !some_false,
    validate_capability_nil, validate_method_nil, validate_payload_object_nil.
Qed.

Lemma validate_result_nil env : validate_result env = [] <-> result_ok env.
Proof.
  unfold validate_result, result_ok. rewrite !app_nil_iff, validate_reply_to_nil,
    validate_capability_nil, validate_method_nil. unfold object_ok.
  destruct (payload env) as [v|], (error env) as [e|]; [naive_solver | | | naive_solver].
  - rewrite if_nil. naive_solver.
  - rewrite app_nil_iff, forbid_nil, if_nil, Nat.ltb_ge, len_within_spec. naive_solver.
Qed.

Lemma envelope_issues_nil env : envelope_issues env = [] <-> envelope_ok env.
Proof.
  unfold envelope_issues, envelope_ok.
  rewrite !app_nil_iff, !if_nil, !forbid_nil, bool_decide_eq_true, !bool_decide_eq_false,
    len_within_spec.
  assert (Ha : match participant_activation (participant env) with
               | Some a => if len_within 1 128 a then []
                           else issue "envelope.participant.activationId" "length outside 1..=128"
               | None => [] end = [] <->
               forall a, participant_activation (participant env) = Some a -> len_ok 1 128 a).
  { destruct (participant_activation _) as [a|]; [| naive_solver].
    rewrite if_nil, len_within_spec. naive_solver. }
  rewrite Ha. destruct (kind env); by rewrite ?validate_hello_nil, ?validate_agreement_nil,
    ?validate_invocation_nil, ?validate_result_nil, ?validate_event_nil.
Qed.

Lemma validate_envelope_ok env : validate_envelope env = Ok tt <-> envelope_ok env.
Proof.
  rewrite <- envelope_issues_nil. unfold validate_envelope. by destruct (envelope_issues env).
Qed.

(** ** The schema *)

(** [minLength] and [maxLength] count characters. *)
Definition chars_within (lo hi : nat) (s : string) : Prop := lo <= chars_count s <= hi.

Definition opt_all {A} (Q : A -> Prop) (o : option A) : Prop := match o with Some x => Q x | None => True end.

(** [$defs/helloPayload], [$defs/agreementPayload] and [properties/error] *)
Definition hello_schema (p : HelloPayload) : Prop :=
  chars_within 8 128 (instance_id p) /\ Forall coordinate_ok (supports p) /\ NoDup (supports p) /\
  Forall (fun r => coordinate_ok (requirement_coordinate r)) (requires p) /\ NoDup (requires p).
Definition agreement_schema (p : AgreementPayload) : Prop :=
  chars_within 1 128 (activation_id p) /\ Forall coordinate_ok (granted p) /\ NoDup (granted p) /\
  Forall (fun u => coordinate_ok (unavailable_coordinate u)) (unavailable p) /\ NoDup (unavailable p) /\
  opt_all (fun c => opt_all (fun m => (1 <= m)%N) (max_seconds c)) (lease_constraints p).
Definition error_schema (e : ProtocolError) : Prop :=
  chars_count (error_message e) <= 512 /\ chars_within 8 128 (correlation_id e).

(** The rules of [envelope.schema.json] on an envelope of the wire types: its
    properties, then the branch of its kind.  The format of the timestamp is an
    annotation. *)
Definition schema_ok (env : Envelope Value) : Prop :=
  (protocol env = PROTOCOL /\ chars_within 8 128 (env_id env) /\ opt_all (chars_within 8 128) (reply_to env) /\
   component (participant env) <> "" /\ facet (participant env) <> "" /\
   opt_all (chars_within 1 128) (participant_activation (participant env)) /\
   opt_all coordinate_ok (capability env) /\ opt_all (text_matches METHOD) (method env) /\
   opt_all (fun v => is_object v = true) (payload env) /\ opt_all error_schema (error env)) /\
  match kind env with
  | Hello =>
      reply_to env = None /\ capability env = None /\ method env = None /\ error env = None /\
      exists v p, payload env = Some v /\ hello_from_value v = Ok p /\ hello_schema p
  | Agreement =>
      is_Some (reply_to env) /\ capability env = None /\ method env = None /\ error env = None /\
      exists v p, payload env = Some v /\ agreement_from_value v = Ok p /\ agreement_schema p
  | Invocation =>
      is_Some (capability env) /\ is_Some (method env) /\ is_Some (payload env) /\ reply_to env = None /\ error env = None
  | Result =>
      is_Some (reply_to env) /\ is_Some (capability env) /\ is_Some (method env) /\
      (is_Some (payload env) /\ error env = None \/ is_Some (error env) /\ payload env = None)
  | Event => is_Some (capability env) /\ is_Some (method env) /\ is_Some (payload env) /\ error env = None
  end.

(** The two rules of the schema that the validation does not check. *)
Definition unchecked_rules (env : Envelope Value) : Prop :=
  match kind env with
  | Event => opt_all (len_ok 8 128) (reply_to env)
  | Hello | Agreement => opt_all (fun v => is_object v = true) (payload env)
  | _ => True
  end.

(** The texts whose length the schema bounds on both sides. *)
Definition bounded_texts (env : Envelope Value) : list string :=
  env_id env :: option_list (reply_to env) ++ option_list (participant_activation (participant env)) ++
  option_list (correlation_id <$> error env) ++
  match kind env, payload env with
  | Hello, Some v => if hello_from_value v is Ok p then [instance_id p] else []
  | Agreement, Some v => if agreement_from_value v is Ok p then [activation_id p] else []
  | _, _ => []
  end.

Definition single_byte (s : string) : Prop := chars_count s = String.length s.

(** [serde_json] prints different values differently. *)
Class SerdeInjective : Prop := {
  coordinate_text_inj :: Inj (=) (=) (coordinate_to_string (Value := Value));
  requirement_text_inj :: Inj (=) (=) (requirement_to_string (Value := Value));
  unavailable_text_inj :: Inj (=) (=) (unavailable_to_string (Value := Value))
}.

Lemma chars_len lo hi s : single_byte s -> chars_within lo hi s <-> len_ok lo hi s.
Proof. unfold single_byte, chars_within, len_ok. by intros ->. Qed.

Lemma nodup_texts {A} (f : A -> string) `{!Inj (=) (=) f} (l : list A) : NoDup (map f l) <-> NoDup l.
Proof. apply (NoDup_fmap f). Qed.

Lemma hello_schema_iff `{!SerdeInjective} p : single_byte (instance_id p) -> hello_schema p <-> hello_payload_ok p.
Proof.
  intros Hs. unfold hello_schema, hello_payload_ok. rewrite (chars_len 8 128 _ Hs).
  by rewrite (nodup_texts coordinate_to_string), (nodup_texts requirement_to_string).
Qed.

Lemma agreement_schema_iff `{!SerdeInjective} p :
  single_byte (activation_id p) -> agreement_schema p <-> agreement_payload_ok p.
Proof.
  intros Hs. unfold agreement_schema, agreement_payload_ok. rewrite (chars_len 1 128 _ Hs).
  rewrite (nodup_texts coordinate_to_string), (nodup_texts unavailable_to_string).
  assert (Hl : opt_all (fun c => opt_all (fun m => (1 <= m)%N) (max_seconds c)) (lease_constraints p) <->
    forall c m, lease_constraints p = Some c -> max_seconds c = Some m -> (1 <= m)%N).
  { split.
    - intros Ho c m Hc Hm. rewrite Hc in Ho. cbn in Ho. by rewrite Hm in Ho.
    - intros Ho. destruct (lease_constraints p) as [c|]; [| done]. cbn.
      destruct (max_seconds c) as [m|] eqn:Hm; [| done]. by apply (Ho c m). }
  by rewrite Hl.
Qed.

(** The branch of the kind, on both sides. *)
Lemma schema_kind_iff `{!SerdeInjective} (env : Envelope Value) :
  Forall single_byte (bounded_texts env) ->
  (match kind env with
   | Hello => hello_ok env | Agreement => agreement_ok env | Invocation => invocation_ok env
   | Result => result_ok env | Event => event_ok env
   end /\ unchecked_rules env <->
   (opt_all (chars_within 8 128) (reply_to env) /\ opt_all coordinate_ok (capability env) /\
    opt_all (text_matches METHOD) (method env) /\ opt_all (fun v => is_object v = true) (payload env) /\
    opt_all error_schema (error env)) /\
   match kind env with
   | Hello =>
       reply_to env = None /\ capability env = None /\ method env = None /\ error env = None /\
       exists v p, payload env = Some v /\ hello_from_value v = Ok p /\ hello_schema p
   | Agreement =>
       is_Some (reply_to env) /\ capability env = None /\ method env = None /\ error env = None /\
       exists v p, payload env = Some v /\ agreement_from_value v = Ok p /\ agreement_schema p
   | Invocation =>
       is_Some (capability env) /\ is_Some (method env) /\ is_Some (payload env) /\ reply_to env = None /\ error env = None
   | Result =>
       is_Some (reply_to env) /\ is_Some (capability env) /\ is_Some (method env) /\
       (is_Some (payload env) /\ error env = None \/ is_Some (error env) /\ payload env = None)
   | Event => is_Some (capability env) /\ is_Some (method env) /\ is_Some (payload env) /\ error env = None
   end).
Proof.
  destruct env as [pr i k rt pa ts g cap m pay err]. unfold bounded_texts, unchecked_rules, hello_ok, agreement_ok,
    invocation_ok, result_ok, event_ok, capability_ok, method_ok, reply_to_ok, object_ok, error_schema. cbn.
  intros [_ Ht]%Forall_cons. rewrite !Forall_app in Ht. destruct Ht as (Hrt & _ & Herr & Hpay).
  assert (Hr : opt_all (chars_within 8 128) rt <-> opt_all (len_ok 8 128) rt).
  { destruct rt as [r|]; [| done]. apply Forall_cons in Hrt as [Hrt _]. by apply chars_len. }
  assert (He : opt_all (fun e => chars_count (error_message e) <= 512 /\ chars_within 8 128 (correlation_id e)) err <->
               opt_all (fun e => chars_count (error_message e) <= 512 /\ len_ok 8 128 (correlation_id e)) err).
  { destruct err as [e|]; [| done]. apply Forall_cons in Herr as [Herr _]. cbn. by rewrite chars_len. }
  rewrite Hr, He. clear Hr He Hrt Herr. destruct k.
  - destruct pay as [v|]; [| split; [by intros [(_ & _ & _ & _ & v & p & [=] & _) _] | by intros [_ (_ & _ & _ & _ & v & p & [=] & _)]]].
    cbn. assert (Hp : (exists v0 p, Some v = Some v0 /\ hello_from_value v0 = Ok p /\ hello_schema p) <->
                 (exists v0 p, Some v = Some v0 /\ hello_from_value v0 = Ok p /\ hello_payload_ok p)).
    { split; intros (v0 & p & [= <-] & Hv & Hp); rewrite Hv in Hpay; apply Forall_cons in Hpay as [Hs _];
        exists v, p; (split_and!; [done | done |]); by apply hello_schema_iff. }
    rewrite Hp. destruct rt, cap, m, err; cbn; naive_solver.
  - destruct pay as [v|]; [| split; [by intros [(_ & _ & _ & _ & v & p & [=] & _) _] | by intros [_ (_ & _ & _ & _ & v & p & [=] & _)]]].
    cbn. assert (Hp : (exists v0 p, Some v = Some v0 /\ agreement_from_value v0 = Ok p /\ agreement_schema p) <->
                 (exists v0 p, Some v = Some v0 /\ agreement_from_value v0 = Ok p /\ agreement_payload_ok p)).
    { split; intros (v0 & p & [= <-] & Hv & Hp); rewrite Hv in Hpay; apply Forall_cons in Hpay as [Hs _];
        exists v, p; (split_and!; [done | done |]); by apply agreement_schema_iff. }
    rewrite Hp. destruct rt, cap, m, err; cbn; unfold is_Some; naive_solver.
  - clear. unfold is_Some. destruct rt, cap, m, pay, err; cbn; naive_solver.
  - clear. unfold is_Some. destruct rt, cap, m, pay, err; cbn; naive_solver.
  - clear. unfold is_Some. destruct rt, cap, m, pay, err; cbn; naive_solver.
Qed.

Lemma schema_iff `{!SerdeInjective} (env : Envelope Value) :
  Forall single_byte (bounded_texts env) ->
  (envelope_ok env /\ unchecked_rules env <-> schema_ok env /\ is_rfc3339_timestamp (timestamp env) = true).
Proof.
  intros Hs. pose proof (schema_kind_iff env Hs) as Hk. unfold bounded_texts in Hs.
  apply Forall_cons in Hs as [Hid Hs]. rewrite !Forall_app in Hs. destruct Hs as (_ & Hact & _ & _).
  assert (Ha : opt_all (chars_within 1 128) (participant_activation (participant env)) <->
    forall a, participant_activation (participant env) = Some a -> len_ok 1 128 a).
  { destruct (participant_activation _) as [a|]; cbn; [| by split]. apply Forall_cons in Hact as [Hact _].
    rewrite chars_len by done. split; [by intros ? a' [= <-] | intros Ho; by apply Ho]. }
  unfold envelope_ok, schema_ok. rewrite (chars_len 8 128 (env_id env) Hid), Ha.
  change ID_MIN_LEN with 8. change ID_MAX_LEN with 128. tauto.
Qed.

(** C29.  Frame-level validation: an envelope is accepted exactly when it carries
    the protocol constant, an id of 8 to 128 bytes, a named participant and a
    date-time, and the fields of its kind, with every coordinate and method
    matching its pattern, items unique, and a Result carrying exactly one of an
    object and a bounded error; a rejection names at least one issue.  Against
    [envelope.schema.json]: on envelopes whose bounded texts have one byte per
    character, what the code accepts and the schema allows differ by three rules
    only.  The code does not bound the replyTo of an Event, it leaves to the
    decoder whether the payload of a Hello or an Agreement is an object, and it
    checks the timestamp, whose format is an annotation in the schema.  On other
    envelopes they differ too, since the schema counts characters and the code
    bytes. *)
Theorem validate_envelope_iff (env : Envelope Value) :
  (validate_envelope env = Ok tt <-> envelope_ok env) /\
  (forall issues, validate_envelope env = Err issues -> issues <> [] /\ ~ envelope_ok env) /\
  (SerdeInjective -> Forall single_byte (bounded_texts env) ->
     (validate_envelope env = Ok tt /\ unchecked_rules env <->
      schema_ok env /\ is_rfc3339_timestamp (timestamp env) = true)).
Proof.
  pose proof (envelope_issues_nil env) as Hnil. split; [apply validate_envelope_ok |]. split.
  - unfold validate_envelope. destruct (envelope_issues env) as [|i l]; [done |].
    intros issues [= <-]. split; [done |]. by intros ?%Hnil.
  - intros Hi Hs. rewrite validate_envelope_ok. by apply schema_iff.
Qed.
End Rules.

(** ** Where the schema and the code differ *)

From stdpp Require Import countable.

Module SchemaSamples.

(** Values that are an object or not, and no payload of a negotiation; items are
    printed as numbers. *)
Definition number {A} `{Countable A} (x : A) : string := pretty (N.pos (encode x)).
Definition coordinate_key (c : ProtocolCoordinate) : string * string := (api_version c, coordinate_kind c).
Definition reason_key (r : UnavailableReason) : nat :=
  match r with ReasonUnavailable => 0 | ReasonUnsupportedVersion => 1 | ReasonPolicyDenied => 2 | ReasonProviderFailed => 3 end.

#[export] Instance serde : Serde bool := {|
  is_object := fun v => v;
  hello_from_value := fun _ => Err "not a hello"%string;
  agreement_from_value := fun _ => Err "not an agreement"%string;
  coordinate_to_string := fun c => number (coordinate_key c);
  requirement_to_string := fun r => number (coordinate_key (requirement_coordinate r), required r);
  unavailable_to_string := fun u => number (coordinate_key (unavailable_coordinate u), reason_key (unavailable_reason u))
|}.

#[local] Instance number_inj {A} `{Countable A} : Inj (=) (=) (number (A := A)).
Proof.
  intros x y Hn. unfold number in Hn. apply (inj (pretty (A := N))) in Hn. apply (inj encode). congruence.
Qed.

#[export] Instance prints : SerdeInjective (Value := bool).
Proof.
  split.
  - intros [] [] Hx%(inj number). cbn in Hx. by simplify_eq.
  - intros [[] ?] [[] ?] Hx%(inj number). cbn in Hx. by simplify_eq.
  - intros [[] r] [[] r'] Hx%(inj number). cbn in Hx. injection Hx as -> -> Hr. by destruct r, r'.
Qed.

Definition event (id : string) (reply : option string) : Envelope bool :=
  {| protocol := PROTOCOL; env_id := id; kind := Event; reply_to := reply;
     participant := {| component := "daemon"; facet := "core"; participant_activation := None |};
     timestamp := "2026-01-01T00:00:00Z"; generation := 0;
     capability := Some {| api_version := "runtime.dsh-desktop.local/v1alpha1"; coordinate_kind := "Runtime" |};
     method := Some "runtime.status"%string; payload := Some true; error := None |}.

Lemma validate_envelope_iff_witness : schema_ok (event "evt-0001" (Some "evt-0000"%string)).
Proof.
  apply (validate_envelope_iff (event "evt-0001" (Some "evt-0000"%string))).
  - exact prints.
  - by repeat constructor.
  - split; [vm_compute; reflexivity |]. cbn. unfold len_ok. cbn. lia.
Defined.

(** Characters of two bytes each. *)
Definition wide (n : nat) : string :=
  String.string_of_list_ascii (mjoin (repeat [ascii_of_nat 195; ascii_of_nat 169] n)).

(** An Event that answers a one-letter id is accepted; the schema wants 8 to 128. *)
Example short_reply_accepted :
  validate_envelope (event "evt-0001" (Some "x"%string)) = Ok tt /\ ~ schema_ok (event "evt-0001" (Some "x"%string)).
Proof. split; [vm_compute; reflexivity |]. intros [(_ & _ & [H _] & _) _]. vm_compute in H. lia. Qed.

(** Four characters of two bytes are accepted as an id of 8; sixty-five, which the
    schema allows, are refused. *)
Example lengths_in_bytes :
  validate_envelope (event (wide 4) None) = Ok tt /\ ~ schema_ok (event (wide 4) None) /\
  is_ok (validate_envelope (event (wide 65) None)) = false /\ chars_within 8 128 (wide 65).
Proof.
  split; [vm_compute; reflexivity |]. split; [intros [(_ & [H _] & _) _]; vm_compute in H; lia |].
  split; [vm_compute; reflexivity |]. split; apply (bool_decide_unpack _); vm_compute; exact I.
Qed.
End SchemaSamples.
