(* ===== verification/Timestamps.v ===== *)
(** * Two readings of RFC 3339

    The daemon checks timestamps twice: envelopes with [is_rfc3339_timestamp]
    ([crates/daemon/src/envelope.rs], file [Envelope]) and wake requests with
    [parse_rfc3339] ([crates/daemon/src/scheduler.rs], file [Civil]).  This file
    relates the two, and both to the printer. *)
From Stdlib Require Import NArith ZArith Ascii Lia.
From stdpp Require Import base strings list option.
From S2P Require Import Prelude Civil Envelope.
#[local] Open Scope Z_scope.

Definition of_bytes (l : list ascii) : string := String.string_of_list_ascii l.

Lemma of_bytes_list l : String.list_ascii_of_string (of_bytes l) = l.
Proof. apply String.list_ascii_of_string_of_list_ascii. Qed.

(** ** The same digits *)

Lemma digit_val_spec a : digit_val a = if is_digit a then Some (Z.of_N (code a - 48)) else None.
Proof.
  unfold digit_val, is_digit, byte_val, code.
  destruct (Z.ltb_spec (Z.of_N (N_of_ascii a)) 48), (Z.ltb_spec 9 (Z.of_N (N_of_ascii a) - 48)),
    (N.leb_spec 48 (N_of_ascii a)), (N.leb_spec (N_of_ascii a) 57); cbn; try lia; try done.
  f_equal. lia.
Qed.

Lemma is_digit_bound a : is_digit a = true -> (code a - 48 <= 9)%N.
Proof. unfold is_digit. rewrite andb_true_iff, !N.leb_le. lia. Qed.

Lemma digits_step v n a c :
  is_digit a = true -> 0 <= v <= 999 ->
  digits_from v (S n) (a :: c) = digits_from (v * 10 + Z.of_N (code a - 48)) n c.
Proof.
  intros Ha Hv. cbn [digits_from]. rewrite digit_val_spec, Ha. pose proof (is_digit_bound a Ha).
  unfold U32_MAX. destruct (Z.ltb_spec 4294967295 (v * 10)); [lia |].
  by destruct (Z.ltb_spec 4294967295 (v * 10 + Z.of_N (code a - 48))); [lia |].
Qed.

Lemma digits_two a b c :
  is_digit a = true -> is_digit b = true -> digits 2 (a :: b :: c) = Some (Z.of_N (two a b), c).
Proof.
  intros Ha Hb. unfold digits. pose proof (is_digit_bound a Ha).
  rewrite !digits_step by (try done; lia). cbn [digits_from]. unfold two. do 2 f_equal. lia.
Qed.

Lemma digits_four a b c d r :
  forallb is_digit [a; b; c; d] = true -> exists y, digits 4 (a :: b :: c :: d :: r) = Some (y, r) /\ 0 <= y <= 9999.
Proof.
  cbn [forallb]. rewrite !andb_true_iff. intros (Ha & Hb & Hc & Hd & _).
  pose proof (is_digit_bound a Ha). pose proof (is_digit_bound b Hb).
  pose proof (is_digit_bound c Hc). pose proof (is_digit_bound d Hd).
  unfold digits. rewrite !digits_step by (try done; lia). cbn [digits_from]. eexists. split; [done | lia].
Qed.

Lemma skip_digits_eq c : Civil.skip_digits c = skip_digits c.
Proof.
  induction c as [|b c IH]; cbn; [done |]. rewrite digit_val_spec. by destruct (is_digit b).
Qed.

Lemma fraction_skips n scale m c :
  Civil.skip_digits (fraction n scale m c).2 = skip_digits c.
Proof.
  rewrite skip_digits_eq. revert scale m c. induction n as [|n IH]; intros scale m c; [done |].
  destruct c as [|b c]; [done |]. cbn. rewrite digit_val_spec.
  destruct (is_digit b) eqn:Hb; [apply IH | cbn; by rewrite Hb].
Qed.

Lemma fraction_millis c : 0 <= (fraction 3 100 0 c).1 <= 999.
Proof.
  assert (Hd : forall b z, digit_val b = Some z -> 0 <= z <= 9).
  { intros b z. rewrite digit_val_spec. destruct (is_digit b) eqn:Hb; [| done]. intros [= <-].
    pose proof (is_digit_bound b Hb). lia. }
  destruct c as [|b1 c]; cbn [fraction fst]; [lia |].
  destruct (digit_val b1) eqn:H1; [apply Hd in H1 | cbn [fst]; lia].
  destruct c as [|b2 c]; cbn [fraction fst]; [lia |].
  destruct (digit_val b2) eqn:H2; [apply Hd in H2 | cbn [fst]; lia].
  destruct c as [|b3 c]; cbn [fraction fst];
    change (100 / 10 / 10) with 1; change (100 / 10) with 10; [lia |].
  destruct (digit_val b3) eqn:H3; [apply Hd in H3 | cbn [fst]; lia]. cbn [fraction fst].
  lia.
Qed.

(** ** The same zones *)

Lemma zone_ok_parses s : zone_ok s = true -> exists off, zone s = Some (off, []) /\ -86340 <= off <= 86340.
Proof.
  destruct s as [|z rest]; [done |]. cbn [zone_ok zone].
  destruct (Ascii.eqb z "Z" || Ascii.eqb z "z") eqn:Hz.
  { intros Hl%Nat.eqb_eq. destruct rest; [| done]. exists 0. split; [done | lia]. }
  destruct (Ascii.eqb z "+" || Ascii.eqb z "-"); [| done].
  destruct rest as [|h1 [|h2 [|c [|m1 [|m2 [|? ?]]]]]]; try done.
  rewrite !andb_true_iff, !N.leb_le, Ascii.eqb_eq. intros (((((H1 & H2) & ->) & H3) & H4) & Hh & Hm).
  rewrite digits_two by done. cbn [mbind option_bind]. rewrite eat_head. cbn [mbind option_bind].
  rewrite digits_two by done. cbn [mbind option_bind].
  destruct (Z.ltb_spec 23 (Z.of_N (two h1 h2))); [lia |].
  destruct (Z.ltb_spec 59 (Z.of_N (two m1 m2))); [lia |]. cbn [orb].
  eexists. split; [done |]. destruct (Ascii.eqb z "-"); lia.
Qed.

(** The fraction and the zone, as [parse_rfc3339] reads them. *)
Definition tail_of (c : list ascii) : Z * list ascii :=
  match peek c with
  | Some b =>
      if Ascii.eqb b "." then let '(m, c) := fraction 3 100 0 (tail c) in (m, Civil.skip_digits c)
      else (0, c)
  | None => (0, c)
  end.

Lemma fraction_ok_parses s :
  fraction_ok s = true ->
  exists ms c off, tail_of s = (ms, c) /\ 0 <= ms <= 999 /\ zone c = Some (off, []) /\
    -86340 <= off <= 86340.
Proof.
  unfold tail_of. destruct s as [|a rest]; [done |]. cbn [fraction_ok peek head tail].
  destruct (Ascii.eqb a ".").
  - destruct (_ =? _)%nat; [done |]. intros (off & Hz & Hoff)%zone_ok_parses.
    pose proof (fraction_millis rest) as Hms. pose proof (fraction_skips 3 100 0 rest) as Hsk.
    destruct (fraction 3 100 0 rest) as [m c]. cbn in *.
    exists m, (Civil.skip_digits c), off. by rewrite Hsk.
  - intros (off & Hz & Hoff)%zone_ok_parses. exists 0, (a :: rest), off. split_and!; try done; lia.
Qed.

Lemma days_in_range y m d :
  0 <= y <= 9999 -> 1 <= m <= 12 -> 1 <= d <= 31 -> -1000000 <= days_from_civil y m d <= 4000000.
Proof.
  intros Hy Hm Hd. unfold days_from_civil. set (y' := if m <=? 2 then y - 1 else y).
  assert (Hy' : -1 <= y' <= 9999) by (subst y'; destruct (m <=? 2); lia).
  set (era := Z.quot _ 400). set (mp := Z.rem (m + 9) 12).
  assert (He : -1 <= era <= 24 /\ 0 <= y' - era * 400 <= 399).
  { subst era. destruct (Z.leb_spec 0 y'); Z.to_euclidean_division_equations; lia. }
  assert (Hmp : 0 <= mp <= 11) by (subst mp; Z.to_euclidean_division_equations; lia).
  assert (Hdoy : 0 <= Z.quot (153 * mp + 2) 5 <= 400) by (Z.to_euclidean_division_equations; lia).
  assert (H4 : 0 <= Z.quot (y' - era * 400) 4 <= 100) by (Z.to_euclidean_division_equations; lia).
  assert (H100 : 0 <= Z.quot (y' - era * 400) 100 <= 4) by (Z.to_euclidean_division_equations; lia).
  lia.
Qed.

(** Everything [parse_rfc3339] does once the fields have been read. *)
Lemma checked_total secs ms :
  -100000000000 * 10000 <= secs <= 100000000000 * 10000 -> 0 <= ms <= 999 ->
  (x ← checked_i64 (secs * 1000); t ← checked_i64 (x + ms); if t <? 0 then None else Some t) =
  if secs * 1000 + ms <? 0 then None else Some (secs * 1000 + ms).
Proof.
  intros Hs Hm. unfold checked_i64, I64_MIN, I64_MAX.
  destruct (Z.leb_spec (-9223372036854775808) (secs * 1000)),
    (Z.leb_spec (secs * 1000) 9223372036854775807); try lia. cbn [andb mbind option_bind].
  by destruct (Z.leb_spec (-9223372036854775808) (secs * 1000 + ms)),
    (Z.leb_spec (secs * 1000 + ms) 9223372036854775807); try lia.
Qed.

(** A timestamp the envelope check accepts, written with a capital T, is read by
    the scheduler's parser; the only reason to refuse it is an instant before
    the epoch. *)
Lemma accepted_timestamp_parses l :
  is_rfc3339_timestamp (of_bytes l) = true -> l !! 10%nat = Some "T"%char ->
  exists ms, parse_rfc3339 l = if ms <? 0 then None else Some ms.
Proof.
  unfold is_rfc3339_timestamp. rewrite of_bytes_list.
  destruct l as [|y1 [|y2 [|y3 [|y4 [|s1 [|m1 [|m2 [|s2 [|d1 [|d2 [|t [|h1 [|h2 [|c1 [|n1 [|n2
    [|c2 [|e1 [|e2 l]]]]]]]]]]]]]]]]]]]; try done.
  rewrite !andb_true_iff, !Ascii.eqb_eq, !N.leb_le. cbn [lookup list_lookup]. intros Hall [= ->].
  destruct Hall as ((((((((((((((((((Hy & ->) & Hm1) & Hm2) & ->) & Hd1) & Hd2) & ((Hm & Hm') & Hd) & Hd') & _)
    & Hh1) & Hh2) & ->) & Hn1) & Hn2) & ->) & He1) & He2) & (Hh & Hn) & He) & Hf).
  destruct (digits_four _ _ _ _ ("-"%char :: m1 :: m2 :: "-"%char :: d1 :: d2 :: "T"%char :: h1 :: h2
    :: ":"%char :: n1 :: n2 :: ":"%char :: e1 :: e2 :: l) Hy) as (y & Hyd & Hyr).
  destruct (fraction_ok_parses l Hf) as (ms & c & off & Htail & Hms & Hzone & Hoff).
  assert (Hdays := days_in_range y (Z.of_N (two m1 m2)) (Z.of_N (two d1 d2)) Hyr ltac:(lia) ltac:(lia)).
  eexists. unfold parse_rfc3339. rewrite Hyd. cbn [mbind option_bind].
  do 5 (rewrite eat_head; cbn [mbind option_bind]; rewrite digits_two by done; cbn [mbind option_bind]).
  match goal with |- (let '(_, _) := ?X in _) = _ => change X with (tail_of l) end.
  rewrite Htail, Hzone. cbn [mbind option_bind length Nat.eqb negb].
  destruct (Z.leb_spec 1 (Z.of_N (two m1 m2))), (Z.leb_spec (Z.of_N (two m1 m2)) 12),
    (Z.leb_spec 1 (Z.of_N (two d1 d2))), (Z.leb_spec (Z.of_N (two d1 d2)) 31),
    (Z.ltb_spec 23 (Z.of_N (two h1 h2))), (Z.ltb_spec 59 (Z.of_N (two n1 n2))),
    (Z.ltb_spec 60 (Z.of_N (two e1 e2))); try lia. cbn [andb orb negb].
  apply checked_total; [lia | done].
Qed.

(** ** What the daemon prints *)

Lemma code_digit d : 0 <= d <= 9 -> code (digit_char d) = Z.to_N (48 + d).
Proof. intros Hd. unfold code, digit_char. apply N_ascii_embedding. lia. Qed.

Lemma is_digit_char d : 0 <= d <= 9 -> is_digit (digit_char d) = true.
Proof.
  intros Hd. unfold is_digit. rewrite code_digit by done. apply andb_true_iff. rewrite !N.leb_le. lia.
Qed.

Lemma two_digits a b : 0 <= a <= 9 -> 0 <= b <= 9 -> two (digit_char a) (digit_char b) = Z.to_N (a * 10 + b).
Proof. intros Ha Hb. unfold two. rewrite !code_digit by done. lia. Qed.

Lemma padded_two n : 0 <= n <= 99 -> zero_padded 2 n = [digit_char (n / 10); digit_char (n mod 10)].
Proof.
  intros Hn. rewrite (zero_padded_fixed 1) by (cbn; lia). cbn [fixed app].
  by rewrite (Z.mod_small (n / 10)) by (Z.to_euclidean_division_equations; lia).
Qed.

Lemma mod10 n : 0 <= n mod 10 <= 9.
Proof. Z.to_euclidean_division_equations; lia. Qed.

Lemma printed_accepted y mo d h mi s ms :
  0 <= y <= 9999 -> 1 <= mo <= 12 -> 1 <= d <= 31 -> 0 <= h <= 23 -> 0 <= mi <= 59 -> 0 <= s <= 59 ->
  0 <= ms <= 999 ->
  is_rfc3339_timestamp (of_bytes (Civil.timestamp y mo d h mi s ms)) = true /\
  Civil.timestamp y mo d h mi s ms !! 10%nat = Some "T"%char.
Proof.
  intros Hy Hmo Hd Hh Hmi Hs Hms. unfold is_rfc3339_timestamp. rewrite of_bytes_list.
  unfold Civil.timestamp. rewrite !padded_two by lia.
  rewrite (zero_padded_fixed 3), (zero_padded_fixed 2) by (cbn; lia). cbn [fixed app]. split; [| done].
  pose proof mod10. assert (Hdiv : forall n, 0 <= n <= 99 -> 0 <= n / 10 <= 9)
    by (intros; Z.to_euclidean_division_equations; lia).
  assert (Hback : forall n, n / 10 * 10 + n mod 10 = n) by (intros; Z.to_euclidean_division_equations; lia).
  cbn [forallb]. rewrite !is_digit_char by (try apply mod10; apply Hdiv; lia).
  rewrite !two_digits by (try apply mod10; apply Hdiv; lia). rewrite !Hback, !Ascii.eqb_refl.
  cbn [andb orb fraction_ok]. rewrite Ascii.eqb_refl. cbn [skip_digits].
  rewrite !is_digit_char by apply mod10. cbn [skip_digits].
  rewrite !andb_true_iff, !N.leb_le. split_and!; try lia. done.
Qed.

Lemma stamped_accepted t :
  0 <= t < 253402300800000 -> is_rfc3339_timestamp (of_bytes (now_timestamp_like t)) = true.
Proof.
  intros Ht. unfold now_timestamp_like.
  rewrite Z.max_r by lia. pose proof (civil_ranges (t / 1000 / 86400)) as Hr.
  destruct (civil_from_days (t / 1000 / 86400)) as [[y m] d]. destruct Hr as (Hm & Hd & Hy).
  assert (Hy' : 1970 <= y <= 9999) by (apply Hy; clear - Ht; Z.to_euclidean_division_equations; lia).
  apply printed_accepted; try lia; clear - Ht; Z.to_euclidean_division_equations; lia.
Qed.

(** The daemon's notions of a timestamp fit together: what it prints for
    any instant up to the year 9999 passes the envelope check, and whatever
    passes that check with a capital T is read by the scheduler's parser,
    unless it lies before the epoch. *)
Theorem timestamp_checks_agree :
  (forall t, 0 <= t < 253402300800000 ->
     is_rfc3339_timestamp (of_bytes (now_timestamp_like t)) = true) /\
  (forall l, is_rfc3339_timestamp (of_bytes l) = true -> l !! 10%nat = Some "T"%char ->
     exists ms, parse_rfc3339 l = if ms <? 0 then None else Some ms).
Proof. split; [exact stamped_accepted | apply accepted_timestamp_parses]. Qed.

(** Where the two checks differ: a lower-case t is accepted in an envelope and
    refused in a wake request; a leap second and an empty fraction the other
    way round. *)
Example timestamp_checks_differ :
  let lower := String.list_ascii_of_string "2026-08-31t09:30:00Z" in
  let leap := String.list_ascii_of_string "2026-08-31T09:30:60Z" in
  let empty := String.list_ascii_of_string "2026-08-31T09:30:00.Z" in
  (is_rfc3339_timestamp (of_bytes lower) = true /\ parse_rfc3339 lower = None) /\
  (is_rfc3339_timestamp (of_bytes leap) = false /\ parse_rfc3339 leap <> None) /\
  (is_rfc3339_timestamp (of_bytes empty) = false /\ parse_rfc3339 empty <> None).
Proof. vm_compute. done. Qed.
