(* ===== verification/Browser.v ===== *)
(** * The shared browser surface

    Model of [crates/browser-provider/src/url_policy.rs], [session.rs] and
    [event.rs].  Text that the code walks by [char] (URLs, messages, titles) is
    the list of its Unicode scalar values; session ids are byte strings.  The
    registry's locks are not poisoned (no code panics while it holds one), so
    [BrowserError::Other] remains only for refused attachments. *)
From stdpp Require Import base gmap strings list option pretty sorting.
From Stdlib Require Import NArith ZArith Lia Ascii.
From S2P Require Import Prelude.

(** ** [UrlPolicy] *)

Definition MAX_URL_LEN : nat := 2048.

Inductive UrlError := Empty | UnsupportedScheme | UserinfoNotAllowed | TooLong.

#[export] Instance UrlError_eq_dec : EqDecision UrlError.
Proof. solve_decision. Defined.

Definition url_error_display (e : UrlError) : string :=
  match e with
  | Empty => "url must not be empty"
  | UnsupportedScheme => "url scheme must be http or https"
  | UserinfoNotAllowed => "url must not contain userinfo (credentials)"
  | TooLong => "url exceeds the 2048 character limit"
  end.

(** [u8::to_ascii_lowercase] on a scalar value. *)
Definition lower (c : N) : N := if ((65 <=? c) && (c <=? 90))%N then c + 32 else c.

Definition eq_ignore_ascii_case (a b : text) : bool := bool_decide (map lower a = map lower b).

(** [strip_http_scheme] *)
Definition strip_http_scheme (url : text) : option text :=
  '(scheme, rest) ← split_at_first (txt "://") url;
  if eq_ignore_ascii_case scheme (txt "http") || eq_ignore_ascii_case scheme (txt "https")
  then Some rest else None.

Definition is_authority_end (c : N) : bool := ((c =? 47) || (c =? 63) || (c =? 35))%N.

(** [rest.split(['/', '?', '#']).next()] *)
Fixpoint authority (rest : text) : text :=
  match rest with
  | [] => []
  | c :: rest => if is_authority_end c then [] else c :: authority rest
  end.

(** [authority_has_userinfo] *)
Definition authority_has_userinfo (rest : text) : bool := existsb (fun c => c =? 64)%N (authority rest).

(** [UrlPolicy::validate] *)
Definition validate (url : text) : result UrlError text :=
  if bool_decide (url = []) then Err Empty
  else if (MAX_URL_LEN <? length url)%nat then Err TooLong
  else
    match strip_http_scheme url with
    | None => Err UnsupportedScheme
    | Some rest => if authority_has_userinfo rest then Err UserinfoNotAllowed else Ok url
    end.

(** ** Events *)

Inductive BrowserEventKind := NavigationChanged | LoadFailed | ClosedEvent | TitleChanged.

Definition kind_as_str (k : BrowserEventKind) : string :=
  match k with
  | NavigationChanged => "navigation_changed"
  | LoadFailed => "load_failed"
  | ClosedEvent => "closed"
  | TitleChanged => "title_changed"
  end.

Record BrowserEvent := {
  ev_session_id : string;
  ev_kind : BrowserEventKind;
  ev_at : N;
  ev_url : option text;
  ev_title : option text
}.

(** [{:04x}] of a value below [0x20]. *)
Definition hex_char (d : N) : N := if (d <? 10)%N then 48 + d else 87 + d.

(** [json_escape] *)
Definition escape_char (c : N) : text :=
  (if c =? 34 then [92; 34]
   else if c =? 92 then [92; 92]
   else if c =? 10 then [92; 110]
   else if c =? 13 then [92; 114]
   else if c =? 9 then [92; 116]
   else if c <? 32 then [92; 117; 48; 48; hex_char (c / 16); hex_char (c mod 16)]
   else [c])%N.
Definition json_escape (value : text) : text := concat (map escape_char value).

Definition quoted (t : text) : text := [34%N] ++ json_escape t ++ [34%N].
Definition json_opt (o : option text) : text := match o with Some t => quoted t | None => txt "null" end.
Definition json_key (k : string) : text := quoted (txt k) ++ txt ":".

(** [BrowserEvent::to_json] *)
Definition to_json (e : BrowserEvent) : text :=
  txt "{" ++ json_key "sessionId" ++ quoted (txt (ev_session_id e))
  ++ txt "," ++ json_key "kind" ++ quoted (txt (kind_as_str (ev_kind e)))
  ++ txt "," ++ json_key "occurredAtUnixMs" ++ txt (pretty (ev_at e))
  ++ txt "," ++ json_key "url" ++ json_opt (ev_url e)
  ++ txt "," ++ json_key "title" ++ json_opt (ev_title e) ++ txt "}".

(** ** Sessions *)

Definition MAX_ERROR_LEN : nat := 256.

Inductive SessionState := Created | Loading | Ready | Closed | ErrorState.

#[export] Instance SessionState_eq_dec : EqDecision SessionState.
Proof. solve_decision. Defined.

Definition state_as_str (s : SessionState) : string :=
  match s with
  | Created => "created" | Loading => "loading" | Ready => "ready" | Closed => "closed"
  | ErrorState => "error"
  end.

Record BrowserSession := {
  b_session_id : string;
  b_state : SessionState;
  b_current_url : option text;
  b_created_at : N;
  b_last_activity : option N;
  b_error : option text
}.

Inductive BrowserError := NotFound | InvalidUrl (e : UrlError) | ClosedError | Other.

Definition browser_error_display (e : BrowserError) : string :=
  match e with
  | NotFound => "unknown browser session"
  | InvalidUrl cause => "url rejected by navigation policy: " +:+ url_error_display cause
  | ClosedError => "browser session is closed"
  | Other => "browser provider state unavailable"
  end.

Record Session := {
  id : string;
  state : SessionState;
  current_url : option text;
  created_at : N;
  last_activity : option N;
  error : option text;
  snapshot : option text;
  title : option text
}.

(** [Session::report] *)
Definition report (s : Session) : BrowserSession :=
  {| b_session_id := id s; b_state := state s; b_current_url := current_url s;
     b_created_at := created_at s; b_last_activity := last_activity s; b_error := error s |}.

Record SessionRegistry := {
  next_seq : N;
  sessions : gmap string Session;
  events : list BrowserEvent
}.

(** [SessionRegistry::new] *)
Definition new_registry : SessionRegistry := {| next_seq := 1; sessions := ∅; events := [] |}.

Definition put (k : string) (s : Session) (r : SessionRegistry) : SessionRegistry :=
  {| next_seq := next_seq r; sessions := <[k := s]> (sessions r); events := events r |}.

(** [push_event] *)
Definition push_event (e : BrowserEvent) (r : SessionRegistry) : SessionRegistry :=
  {| next_seq := next_seq r; sessions := sessions r; events := events r ++ [e] |}.

Abbreviation Op A := (M SessionRegistry BrowserError A).

(** [live_session] *)
Definition live_session (k : string) : Op Session := fun r =>
  match sessions r !! k with
  | None => (Err NotFound, r)
  | Some s => if decide (state s = Closed) then (Err ClosedError, r) else (Ok s, r)
  end.

Definition session_id (now seq : N) : string := "brw-" +:+ pretty now +:+ "-" +:+ pretty seq.

(** [SessionRegistry::create] *)
Definition create (now : N) : Op BrowserSession := fun r =>
  let k := session_id now (next_seq r) in
  let s := {| id := k; state := Created; current_url := None; created_at := now;
              last_activity := None; error := None; snapshot := None; title := None |} in
  (Ok (report s),
   {| next_seq := u64_add (next_seq r) 1; sessions := <[k := s]> (sessions r); events := events r |}).

Definition id_char_ok (c : ascii) : bool :=
  let n := N_of_ascii c in
  ((97 <=? n) && (n <=? 122) || (48 <=? n) && (n <=? 57) || (n =? 45))%N.

Definition attachable (k : string) : bool :=
  String.prefix "brw-" k && (String.length k <=? 64)%nat &&
  forallb id_char_ok (String.list_ascii_of_string k).

(** [SessionRegistry::attach] *)
Definition attach (k : string) (st : SessionState) (url : option text) (at' : N)
    (activity : option N) (err : option text) : Op BrowserSession := fun r =>
  if negb (attachable k) then (Err Other, r)
  else if bool_decide (is_Some (sessions r !! k)) then (Err Other, r)
  else
    let s := {| id := k; state := st; current_url := url; created_at := at';
                last_activity := activity; error := err; snapshot := None; title := None |} in
    (Ok (report s), put k s r).

(** The body [navigate] and [record_navigation] share; they differ in the state
    they move to. *)
Definition navigated (st : SessionState) (url : text) (now : N) (s : Session) : Session :=
  {| id := id s; state := st; current_url := Some url; created_at := created_at s;
     last_activity := Some now; error := None; snapshot := None; title := title s |}.

Definition navigate_to (st : SessionState) (now now' : N) (k : string) (url : text) :
    Op BrowserSession :=
  url ← map_err_m InvalidUrl (lift (validate url));
  s ← live_session k;
  let s := navigated st url now s in
  modify (put k s);;
  modify (push_event {| ev_session_id := k; ev_kind := NavigationChanged; ev_at := now';
                        ev_url := Some url; ev_title := None |});;
  mret (report s).

(** [SessionRegistry::navigate]: [now] stamps the session, [now'] the event. *)
Definition navigate : N -> N -> string -> text -> Op BrowserSession := navigate_to Loading.

(** [SessionRegistry::record_navigation] *)
Definition record_navigation : N -> N -> string -> text -> Op BrowserSession := navigate_to Ready.

Definition readied (now : N) (s : Session) : Session :=
  {| id := id s; state := Ready; current_url := current_url s; created_at := created_at s;
     last_activity := Some now; error := None; snapshot := snapshot s; title := title s |}.

(** [SessionRegistry::mark_ready] *)
Definition mark_ready (now : N) (k : string) : Op BrowserSession :=
  s ← live_session k;
  let s := if bool_decide (state s = Loading) || bool_decide (state s = ErrorState)
           then readied now s else s in
  modify (put k s);;
  mret (report s).

Definition titled (now : N) (t : text) (s : Session) : Session :=
  {| id := id s; state := state s; current_url := current_url s; created_at := created_at s;
     last_activity := Some now; error := error s; snapshot := snapshot s; title := Some t |}.

(** [SessionRegistry::set_title] *)
Definition set_title (now now' : N) (k : string) (t : text) : Op BrowserSession :=
  s ← live_session k;
  let s := if bool_decide (title s = Some t) then s else titled now t s in
  modify (put k s);;
  modify (push_event {| ev_session_id := k; ev_kind := TitleChanged; ev_at := now';
                        ev_url := None; ev_title := Some t |});;
  mret (report s).

(** [SessionRegistry::get] *)
Definition get (k : string) : Op BrowserSession := fun r =>
  match sessions r !! k with
  | None => (Err NotFound, r)
  | Some s => (Ok (report s), r)
  end.

Definition failed (now : N) (msg : text) (s : Session) : Session :=
  {| id := id s; state := ErrorState; current_url := current_url s; created_at := created_at s;
     last_activity := Some now; error := Some msg; snapshot := snapshot s; title := title s |}.

(** [SessionRegistry::mark_load_failed] *)
Definition mark_load_failed (now now' : N) (k : string) (message : text) : Op BrowserSession :=
  let truncated := take MAX_ERROR_LEN message in
  s ← live_session k;
  let s := failed now truncated s in
  modify (put k s);;
  modify (push_event {| ev_session_id := k; ev_kind := LoadFailed; ev_at := now';
                        ev_url := current_url s; ev_title := None |});;
  get k.

Definition snapped (now : N) (t : text) (s : Session) : Session :=
  {| id := id s; state := state s; current_url := current_url s; created_at := created_at s;
     last_activity := Some now; error := error s; snapshot := Some t; title := title s |}.

(** [SessionRegistry::set_snapshot] *)
Definition set_snapshot (now : N) (k : string) (t : text) : Op BrowserSession :=
  s ← live_session k;
  let s := snapped now t s in
  modify (put k s);;
  mret (report s).

(** [SessionRegistry::snapshot_text] *)
Definition snapshot_text (k : string) : Op text :=
  s ← live_session k;
  mret (default [] (snapshot s)).

Definition closed (now : N) (s : Session) : Session :=
  {| id := id s; state := Closed; current_url := current_url s; created_at := created_at s;
     last_activity := Some now; error := error s; snapshot := snapshot s; title := title s |}.

(** [SessionRegistry::close] *)
Definition close (now now' : N) (k : string) : Op BrowserSession :=
  s ← live_session k;
  let s := closed now s in
  modify (put k s);;
  modify (push_event {| ev_session_id := k; ev_kind := ClosedEvent; ev_at := now';
                        ev_url := None; ev_title := None |});;
  mret (report s).

(** [SessionRegistry::drain_events] *)
Definition drain_events : Op (list BrowserEvent) := fun r =>
  (Ok (events r), {| next_seq := next_seq r; sessions := sessions r; events := [] |}).

(** [out.sort_by(|a, b| a.session_id.cmp(&b.session_id))] *)
Definition by_session_id (a b : BrowserSession) : Prop :=
  String.leb (b_session_id a) (b_session_id b) = true.
#[export] Instance by_session_id_dec : RelDecision by_session_id.
Proof. intros a b. unfold by_session_id. apply _. Defined.

(** [SessionRegistry::list] *)
Definition list_sessions (r : SessionRegistry) : list BrowserSession :=
  merge_sort by_session_id
    ((fun kv : string * Session => report kv.2) <$> map_to_list (sessions r)).
