(* ===== verification/BrowserFacts.v ===== *)
(** * Properties of the shared browser surface

    The URL policy against a declarative specification, the session state
    machine and its audit log, and the JSON escaping of events. *)
From stdpp Require Import base gmap strings list option pretty.
From Stdlib Require Import NArith ZArith Lia Ascii.
From S2P Require Import Prelude Browser.

(** ** The URL policy, declaratively *)

(** A URL split as the policy means it. *)
Record url_parts := { u_scheme : text; u_authority : text; u_tail : text }.

Definition unsplit (p : url_parts) : text := u_scheme p ++ txt "://" ++ u_authority p ++ u_tail p.

Definition parts_ok (p : url_parts) : Prop :=
  (map lower (u_scheme p) = txt "http" \/ map lower (u_scheme p) = txt "https") /\
  Forall (fun c => is_authority_end c = false /\ c <> 64%N) (u_authority p) /\
  (u_tail p = [] \/ exists c t, u_tail p = c :: t /\ is_authority_end c = true).

Lemma split_at_first_scheme scheme rest :
  58%N ∉ scheme -> split_at_first (txt "://") (scheme ++ txt "://" ++ rest) = Some (scheme, rest).
Proof.
  induction scheme as [|c scheme IH]; intros Hn; [done |].
  rewrite not_elem_of_cons in Hn. destruct Hn as [Hc Hn]. cbn [app split_at_first].
  case_bool_decide as H; [by injection H as H _ |]. by rewrite IH.
Qed.

Lemma lower_idem_http : map lower (txt "http") = txt "http" /\ map lower (txt "https") = txt "https".
Proof. done. Qed.

Lemma scheme_no_colon scheme :
  map lower scheme = txt "http" \/ map lower scheme = txt "https" -> 58%N ∉ scheme.
Proof.
  intros H Hin. assert (Hl : In 58%N (map lower scheme)).
  { apply in_map_iff. exists 58%N. split; [done | by apply list_elem_of_In]. }
  destruct H as [H | H]; rewrite H in Hl; vm_compute in Hl; intuition discriminate.
Qed.

Lemma authority_spec rest :
  exists tail, rest = authority rest ++ tail /\
    Forall (fun c => is_authority_end c = false) (authority rest) /\
    (tail = [] \/ exists c t, tail = c :: t /\ is_authority_end c = true).
Proof.
  induction rest as [|c rest (tail & Heq & Hf & Ht)]; cbn.
  - exists []. split_and!; [done | constructor | by left].
  - destruct (is_authority_end c) eqn:E.
    + exists (c :: rest). split_and!; [done | constructor | right; by eexists _, _].
    + exists tail. split_and!; [cbn; by f_equal | by constructor | done].
Qed.

Lemma authority_app a tail :
  Forall (fun c => is_authority_end c = false) a ->
  (tail = [] \/ exists c t, tail = c :: t /\ is_authority_end c = true) ->
  authority (a ++ tail) = a.
Proof.
  intros Ha Ht. induction Ha as [|c a Hc _ IH]; cbn.
  - destruct Ht as [-> | (c & t & -> & E)]; [done |]. cbn. by rewrite E.
  - rewrite Hc. by f_equal.
Qed.

Lemma strip_scheme_spec u rest :
  strip_http_scheme u = Some rest <->
  exists scheme, u = scheme ++ txt "://" ++ rest /\
    (map lower scheme = txt "http" \/ map lower scheme = txt "https").
Proof.
  unfold strip_http_scheme, eq_ignore_ascii_case. destruct lower_idem_http as [-> ->]. split.
  - destruct (split_at_first (txt "://") u) as [[sc r]|] eqn:E; [| done]. cbn.
    destruct (_ || _) eqn:Eo; [| done]. intros [= ->]. exists sc.
    split; [by apply split_at_first_some |].
    apply orb_true_iff in Eo as [H | H]; apply bool_decide_eq_true in H; auto.
  - intros (sc & -> & Hs). rewrite split_at_first_scheme by by apply scheme_no_colon. cbn.
    by destruct Hs as [-> | ->].
Qed.

(** ** JSON escaping *)

(** A decoder for the escapes [json_escape] emits. *)
Definition unhex (c : N) : option N :=
  if ((48 <=? c) && (c <=? 57))%N then Some (c - 48)%N
  else if ((97 <=? c) && (c <=? 102))%N then Some (c - 87)%N else None.

Definition unescape_char (e : N) : option N :=
  if (e =? 34)%N then Some 34%N else if (e =? 92)%N then Some 92%N
  else if (e =? 110)%N then Some 10%N else if (e =? 114)%N then Some 13%N
  else if (e =? 116)%N then Some 9%N else None.

Fixpoint json_unescape (fuel : nat) (t : text) : option text :=
  match fuel, t with
  | O, _ => None
  | S _, [] => Some []
  | S fuel, c :: t =>
      if (c =? 92)%N then
        match t with
        | e :: t =>
            if (e =? 117)%N then
              match t with
              | h1 :: h2 :: h3 :: h4 :: t =>
                  h1 ← unhex h1; h2 ← unhex h2; h3 ← unhex h3; h4 ← unhex h4;
                  r ← json_unescape fuel t;
                  Some (((h1 * 16 + h2) * 16 + h3) * 16 + h4 :: r)%N
              | _ => None
              end
            else x ← unescape_char e; r ← json_unescape fuel t; Some (x :: r)
        | [] => None
        end
      else if (c =? 34)%N || (c <? 32)%N then None
      else r ← json_unescape fuel t; Some (c :: r)
  end.

Lemma unhex_hex d : (d < 16)%N -> unhex (hex_char d) = Some d.
Proof.
  intros H. unfold unhex, hex_char. destruct (N.ltb_spec d 10).
  - destruct (N.leb_spec 48 (48 + d)), (N.leb_spec (48 + d) 57); try lia. cbn. f_equal. lia.
  - destruct (N.leb_spec 48 (87 + d)), (N.leb_spec (87 + d) 57); try lia. cbn.
    destruct (N.leb_spec 97 (87 + d)), (N.leb_spec (87 + d) 102); try lia. cbn. f_equal. lia.
Qed.

(** Escaping is reversible, and what it emits holds no bare quote, control
    character or backslash (the decoder refuses them). *)
Lemma json_escape_round_trip t fuel :
  (length t < fuel)%nat -> json_unescape fuel (json_escape t) = Some t.
Proof.
  revert fuel. induction t as [|c t IH]; intros [|fuel] Hf; cbn in Hf; try lia; [done |].
  change (json_escape (c :: t)) with (escape_char c ++ json_escape t).
  assert (Hrec : json_unescape fuel (json_escape t) = Some t) by (apply IH; lia).
  unfold escape_char.
  destruct (N.eqb_spec c 34) as [-> | H34]; [cbn; by rewrite Hrec |].
  destruct (N.eqb_spec c 92) as [-> | H92]; [cbn; by rewrite Hrec |].
  destruct (N.eqb_spec c 10) as [-> | H10]; [cbn; by rewrite Hrec |].
  destruct (N.eqb_spec c 13) as [-> | H13]; [cbn; by rewrite Hrec |].
  destruct (N.eqb_spec c 9) as [-> | H9]; [cbn; by rewrite Hrec |].
  destruct (N.ltb_spec c 32) as [Hlt | Hge].
  - cbn [app json_unescape N.eqb Pos.eqb].
    rewrite !unhex_hex by (by apply N.mod_lt || (apply N.Div0.div_lt_upper_bound; lia)).
    change (unhex 48) with (Some 0%N). cbn [mbind option_bind]. rewrite Hrec.
    cbn [mbind option_bind]. do 2 f_equal. rewrite (N.div_mod' c 16) at 3. lia.
  - cbn [app json_unescape]. destruct (N.eqb_spec c 92); [done |].
    destruct (N.eqb_spec c 34); [done |]. destruct (N.ltb_spec c 32); [lia |].
    cbn [orb]. by rewrite Hrec.
Qed.

(** ** The state machine *)

Inductive browser_op :=
| BCreate (now : N)
| BAttach (k : string) (st : SessionState) (url : option text) (at' : N) (act : option N)
    (err : option text)
| BNavigate (now now' : N) (k : string) (url : text)
| BRecord (now now' : N) (k : string) (url : text)
| BReady (now : N) (k : string)
| BTitle (now now' : N) (k : string) (t : text)
| BFail (now now' : N) (k : string) (msg : text)
| BSnapshot (now : N) (k : string) (t : text)
| BClose (now now' : N) (k : string)
| BDrain.

Definition run_browser (o : browser_op) (r : SessionRegistry) : SessionRegistry :=
  match o with
  | BCreate now => (create now r).2
  | BAttach k st url at' act err => (attach k st url at' act err r).2
  | BNavigate now now' k url => (navigate now now' k url r).2
  | BRecord now now' k url => (record_navigation now now' k url r).2
  | BReady now k => (mark_ready now k r).2
  | BTitle now now' k t => (set_title now now' k t r).2
  | BFail now now' k msg => (mark_load_failed now now' k msg r).2
  | BSnapshot now k t => (set_snapshot now k t r).2
  | BClose now now' k => (close now now' k r).2
  | BDrain => (drain_events r).2
  end.

(** The session an operation is about. *)
Definition target (o : browser_op) (r : SessionRegistry) : option string :=
  match o with
  | BCreate now => Some (session_id now (next_seq r))
  | BAttach k _ _ _ _ _ | BNavigate _ _ k _ | BRecord _ _ k _ | BReady _ k | BTitle _ _ k _
  | BFail _ _ k _ | BSnapshot _ k _ | BClose _ _ k => Some k
  | BDrain => None
  end.

(** What happens to the target of a live operation, and the event it pushes. *)
Definition effect (o : browser_op) (s : Session) : option (Session * option BrowserEvent) :=
  match o with
  | BNavigate now now' k url =>
      if is_ok (validate url) then
        Some (navigated Loading url now s, Some (Build_BrowserEvent k NavigationChanged now' (Some url) None))
      else None
  | BRecord now now' k url =>
      if is_ok (validate url) then
        Some (navigated Ready url now s, Some (Build_BrowserEvent k NavigationChanged now' (Some url) None))
      else None
  | BReady now k =>
      Some (if bool_decide (state s = Loading) || bool_decide (state s = ErrorState)
            then readied now s else s, None)
  | BTitle now now' k t =>
      Some (if bool_decide (title s = Some t) then s else titled now t s,
            Some (Build_BrowserEvent k TitleChanged now' None (Some t)))
  | BFail now now' k msg =>
      Some (failed now (take MAX_ERROR_LEN msg) s,
            Some (Build_BrowserEvent k LoadFailed now' (current_url s) None))
  | BSnapshot now k t => Some (snapped now t s, None)
  | BClose now now' k => Some (closed now s, Some (Build_BrowserEvent k ClosedEvent now' None None))
  | BCreate _ | BAttach _ _ _ _ _ _ | BDrain => None
  end.

Definition after (k : string) (x : Session * option BrowserEvent) (r : SessionRegistry) : SessionRegistry :=
  {| next_seq := next_seq r; sessions := <[k := x.1]> (sessions r);
     events := events r ++ option_list x.2 |}.

Lemma url_validate_ok u u' : validate u = Ok u' -> u' = u.
Proof. unfold validate. by repeat case_match; intros; simplify_eq. Qed.

(** Every operation on an existing session: on a live one its effect, on a
    closed one nothing. *)
Lemma run_live o r k s :
  target o r = Some k -> sessions r !! k = Some s ->
  match o with BCreate _ | BAttach _ _ _ _ _ _ => False | _ => True end ->
  run_browser o r =
    if decide (state s = Closed) then r
    else match effect o s with Some x => after k x r | None => r end.
Proof.
  intros Ht Hs Ho.
  assert (Hlive : live_session k r = if decide (state s = Closed) then (Err ClosedError, r) else (Ok s, r))
    by (unfold live_session; by rewrite Hs).
  destruct o; try done; injection Ht as ->; cbn [run_browser effect];
    unfold navigate, record_navigation, navigate_to, mark_ready, set_title, mark_load_failed,
      set_snapshot, close, get; unfold_monad; cbn -[decide].
  1, 2: destruct (validate url) as [u|] eqn:Ev; cbn -[decide]; [| by case_decide];
    apply url_validate_ok in Ev as ->.
  all: rewrite Hlive; case_decide; cbn -[decide]; try done.
  2: by rewrite lookup_insert_eq.
  all: unfold after, put; cbn; by rewrite app_nil_r.
Qed.

Lemma run_absent o r k :
  target o r = Some k -> sessions r !! k = None ->
  match o with BCreate _ | BAttach _ _ _ _ _ _ => False | _ => True end ->
  run_browser o r = r.
Proof.
  intros Ht Hs Ho.
  assert (Hlive : live_session k r = (Err NotFound, r)) by (unfold live_session; by rewrite Hs).
  destruct o; try done; injection Ht as ->; cbn [run_browser];
    unfold navigate, record_navigation, navigate_to, mark_ready, set_title, mark_load_failed,
      set_snapshot, close; unfold_monad; cbn -[decide].
  1, 2: destruct (validate url) as [u|]; cbn -[decide]; [| done].
  all: by rewrite Hlive.
Qed.

(** Operations change nothing but their target. *)
Lemma run_other o r k :
  target o r <> Some k -> sessions (run_browser o r) !! k = sessions r !! k.
Proof.
  intros Hk. destruct (target o r) as [t|] eqn:Ht; [| by destruct o].
  assert (Hne : t <> k) by congruence. clear Hk.
  destruct o; try (by injection Ht as <-; cbn; rewrite lookup_insert_ne);
    try done.
  { injection Ht as ->. cbn. unfold attach. destruct (negb _); [done |].
    case_bool_decide; [done |]. cbn. by rewrite lookup_insert_ne. }
  all: destruct (sessions r !! t) as [s|] eqn:Hs;
    [rewrite (run_live _ _ _ _ Ht Hs I) | by rewrite (run_absent _ _ _ Ht Hs I)];
    case_decide; [done |]; case_match; [| done]; cbn; by rewrite lookup_insert_ne.
Qed.

(** ** The audit log *)

Definition about (k : string) (e : BrowserEvent) : bool := String.eqb (ev_session_id e) k.

(** The events about [k] that an operation appends. *)
Definition pushed (k : string) (o : browser_op) (r : SessionRegistry) : list BrowserEvent :=
  match o with
  | BDrain => []
  | _ => List.filter (about k) (drop (length (events r)) (events (run_browser o r)))
  end.

Fixpoint audit (k : string) (ops : list browser_op) (r : SessionRegistry) : list BrowserEvent :=
  match ops with
  | [] => []
  | o :: ops => pushed k o r ++ audit k ops (run_browser o r)
  end.

(** No creation of the history lands on the id [k]. *)
Fixpoint not_recreated (k : string) (ops : list browser_op) (r : SessionRegistry) : Prop :=
  match ops with
  | [] => True
  | o :: ops =>
      match o with BCreate now => session_id now (next_seq r) <> k | _ => True end /\
      not_recreated k ops (run_browser o r)
  end.

Lemma effect_event o s r x e :
  effect o s = Some x -> x.2 = Some e -> target o r = Some (ev_session_id e).
Proof.
  destruct o; cbn; try done.
  all: try (destruct (is_ok _); [| done]); intros [= <-]; cbn; try done; by intros [= <-].
Qed.

Lemma drop_self_app {A} (l k : list A) : drop (length l) (l ++ k) = k.
Proof. by rewrite drop_app_length. Qed.

Lemma pushed_other o r k : target o r <> Some k -> pushed k o r = [].
Proof.
  intros Hk. unfold pushed. destruct (target o r) as [t|] eqn:Ht; [| by destruct o].
  assert (Hne : t <> k) by congruence.
  assert (Hsame : run_browser o r = r -> List.filter (about k)
            (drop (length (events r)) (events (run_browser o r))) = []).
  { intros ->. by rewrite drop_all. }
  destruct o; try done.
  { cbn. by rewrite drop_all. }
  { cbn. unfold attach. destruct (negb _); [by cbn; rewrite drop_all |].
    case_bool_decide; cbn; by rewrite drop_all. }
  all: destruct (sessions r !! t) as [s|] eqn:Hs;
    [| apply Hsame; by apply (run_absent _ _ _ Ht Hs I)];
    rewrite (run_live _ _ _ _ Ht Hs I) in Hsame |- *; case_decide; [by apply Hsame |];
    case_match eqn:Heff; [| by apply Hsame]; cbn; rewrite drop_self_app;
    destruct p as [s' [e|]]; cbn; [| done];
    pose proof (effect_event _ _ r _ _ Heff eq_refl) as He; rewrite Ht in He;
    injection He as ->; unfold about; by destruct (String.eqb_spec (ev_session_id e) k).
Qed.

Lemma closed_stays o r k s :
  sessions r !! k = Some s -> state s = Closed ->
  match o with BCreate now => session_id now (next_seq r) <> k | _ => True end ->
  sessions (run_browser o r) !! k = Some s /\ pushed k o r = [].
Proof.
  intros Hs Hc Ho. destruct (decide (target o r = Some k)) as [Ht | Ht].
  2: { rewrite run_other by done. split; [done | by apply pushed_other]. }
  destruct o; try done.
  { injection Ht as Ht. by rewrite Ht in Ho. }
  { injection Ht as ->. unfold pushed. cbn. unfold attach. destruct (negb _); cbn.
    { rewrite drop_all. done. }
    case_bool_decide as Hn; cbn; [by rewrite drop_all |]. exfalso. apply Hn. by rewrite Hs. }
  all: unfold pushed; rewrite (run_live _ _ _ _ Ht Hs I); case_decide; [| done];
    by rewrite drop_all.
Qed.

(** ** The session invariant *)

Definition session_ok (k : string) (s : Session) : Prop :=
  id s = k /\
  (forall u, current_url s = Some u -> validate u = Ok u) /\
  (state s = Loading -> is_Some (current_url s)) /\
  (state s = Created -> current_url s = None) /\
  (state s <> Closed -> (is_Some (error s) <-> state s = ErrorState)) /\
  (forall m, error s = Some m -> (length m <= MAX_ERROR_LEN)%nat).

Definition registry_ok (r : SessionRegistry) : Prop := map_Forall session_ok (sessions r).

(** An attached session carries data the authority validated. *)
Definition browser_op_ok (o : browser_op) : Prop :=
  match o with
  | BAttach k st url at' act err =>
      session_ok k {| id := k; state := st; current_url := url; created_at := at';
                      last_activity := act; error := err; snapshot := None; title := None |}
  | _ => True
  end.

Lemma effect_ok o k s x :
  effect o s = Some x -> state s <> Closed -> session_ok k s -> session_ok k x.1.
Proof.
  intros He Hl (Hid & Hurl & Hload & Hcre & Herr & Hlen). specialize (Herr Hl).
  destruct o; cbn in He; try done.
  1, 2: destruct (validate url) as [u|] eqn:Ev; [| done]; injection He as <-;
    apply url_validate_ok in Ev as Hu; subst u;
    split_and!; cbn; try done; try (by intros ? [= <-]); by split; [intros [? ?] |].
  all: injection He as <-; cbn [fst].
  1: destruct (_ || _) eqn:E; [| by split_and!].
  2: case_bool_decide; [by split_and! |].
  all: split_and!; cbn; try done; try (by split; [intros [? ?] |]).
  intros m [= <-]. rewrite length_take. unfold MAX_ERROR_LEN; lia.
Qed.

Lemma run_browser_ok o r : browser_op_ok o -> registry_ok r -> registry_ok (run_browser o r).
Proof.
  intros Ho Hr k s Hs. destruct (decide (target o r = Some k)) as [Ht | Ht].
  2: { rewrite run_other in Hs by done. by apply Hr. }
  destruct o; try done.
  { injection Ht as <-. cbn in Hs. rewrite lookup_insert_eq in Hs. injection Hs as <-.
    split_and!; cbn; try done. }
  { injection Ht as ->. cbn in Hs. unfold attach in Hs. destruct (negb _); [by apply Hr |].
    case_bool_decide; [by apply Hr |]. cbn in Hs. rewrite lookup_insert_eq in Hs. by injection Hs as <-. }
  all: destruct (sessions r !! k) as [s0|] eqn:Hs0;
    [rewrite (run_live _ _ _ _ Ht Hs0 I) in Hs
    | rewrite (run_absent _ _ _ Ht Hs0 I) in Hs; by apply Hr];
    case_decide; [by apply Hr |]; case_match eqn:Heff; [| by apply Hr];
    cbn in Hs; rewrite lookup_insert_eq in Hs; injection Hs as <-;
    eapply effect_ok; [done | done | by apply Hr].
Qed.

(** ** Properties *)

(** The navigation policy accepts exactly the URLs of at most
    [MAX_URL_LEN] characters that read as an http or https scheme in any case,
    [://], an authority without [@] up to the first [/], [?] or [#], and any
    tail; and it returns them unchanged. *)
Theorem url_policy_accepts_iff u u' :
  validate u = Ok u' <->
  u' = u /\ (length u <= MAX_URL_LEN)%nat /\ exists p, u = unsplit p /\ parts_ok p.
Proof.
  unfold validate. case_bool_decide as H0.
  { split; [done |]. intros (_ & _ & [sc au tl] & -> & Hok & _). unfold unsplit in H0. cbn in *.
    apply app_eq_nil in H0 as [-> _]. by destruct Hok. }
  destruct (Nat.ltb_spec MAX_URL_LEN (length u)) as [|Hlen]; [split; [done |]; intros (_ & ? & _); lia |].
  destruct (strip_http_scheme u) as [rest|] eqn:Es.
  - apply strip_scheme_spec in Es as (sc & -> & Hsc).
    destruct (authority_spec rest) as (tail & Hrest & Hauth & Htail).
    destruct (authority_has_userinfo rest) eqn:Eu.
    + split; [done |]. intros (_ & _ & [sc' au tl] & Heq & Hsc' & Hau & Htl). cbn in *.
      apply (f_equal (split_at_first (txt "://"))) in Heq. unfold unsplit in Heq. cbn in Heq.
      rewrite !split_at_first_scheme in Heq by by apply scheme_no_colon.
      injection Heq as -> ->. unfold authority_has_userinfo in Eu.
      rewrite authority_app in Eu; [| by eapply Forall_impl; [exact Hau |]; intros ? [] | done].
      apply existsb_elem in Eu as (c & Hc & ->%N.eqb_eq).
      rewrite List.Forall_forall in Hau. apply list_elem_of_In, Hau in Hc as [_ Hc]. done.
    + split; [| by intros (-> & _)]. intros [= <-]. split_and!; [done | done |].
      exists {| u_scheme := sc; u_authority := authority rest; u_tail := tail |}.
      unfold unsplit, parts_ok. cbn. split; [by rewrite <- Hrest |]. split_and!; [done | | done].
      unfold authority_has_userinfo in Eu. rewrite existsb_not_elem in Eu.
      rewrite List.Forall_forall in Hauth |- *. intros c Hc. split; [by apply Hauth |].
      apply N.eqb_neq, Eu, list_elem_of_In, Hc.
  - split; [done |]. intros (_ & _ & [sc au tl] & -> & Hsc & _). exfalso.
    assert (Hs : strip_http_scheme (sc ++ txt "://" ++ au ++ tl) = Some (au ++ tl))
      by (apply strip_scheme_spec; by exists sc).
    unfold unsplit in Es. cbn [u_scheme u_authority u_tail] in Es. congruence.
Qed.

(** A closed session is final: over any later history (in which no
    creation lands on its id) the stored session never changes again, no event
    about it is recorded, and every operation on it is refused. *)
Theorem closed_is_terminal r k s ops :
  sessions r !! k = Some s -> state s = Closed -> not_recreated k ops r ->
  let r' := foldl (fun r o => run_browser o r) r ops in
  sessions r' !! k = Some s /\ audit k ops r = [] /\
  (forall now now' url u, validate url = Ok u ->
     (navigate now now' k url r').1 = Err ClosedError /\
     (record_navigation now now' k url r').1 = Err ClosedError) /\
  (forall now now' t, (mark_ready now k r').1 = Err ClosedError /\
     (set_title now now' k t r').1 = Err ClosedError /\
     (mark_load_failed now now' k t r').1 = Err ClosedError /\
     (set_snapshot now k t r').1 = Err ClosedError /\
     (snapshot_text k r').1 = Err ClosedError /\ (close now now' k r').1 = Err ClosedError).
Proof.
  intros Hs Hc Hno r'.
  assert (H : sessions r' !! k = Some s /\ audit k ops r = []).
  { subst r'. revert r Hs Hno. induction ops as [|o ops IH]; intros r Hs Hno; [done |].
    destruct Hno as [Ho Hno]. destruct (closed_stays o r k s Hs Hc Ho) as [Hs' Hp].
    cbn [foldl audit]. rewrite Hp. by apply IH. }
  destruct H as [Hs' Ha]. split; [done |]. split; [done |].
  assert (Hlive : live_session k r' = (Err ClosedError, r')).
  { unfold live_session. rewrite Hs'. by case_decide. }
  split.
  - intros now now' url u Hu. unfold navigate, record_navigation, navigate_to. unfold_monad.
    rewrite Hu. cbn. by rewrite Hlive.
  - intros now now' t. unfold mark_ready, set_title, mark_load_failed, set_snapshot, snapshot_text,
      close. unfold_monad. by rewrite Hlive.
Qed.

(** Over any history whose attachments carry data the daemon validated,
    every stored session sits under its own id, holds only URLs the policy
    accepts, has a URL while it loads and none before its first navigation,
    carries an error exactly in the error state (until it is closed), and that
    error is at most [MAX_ERROR_LEN] characters. *)
Theorem sessions_well_formed ops :
  Forall browser_op_ok ops ->
  registry_ok (foldl (fun r o => run_browser o r) new_registry ops).
Proof.
  intros Hops. assert (H0 : registry_ok new_registry) by apply map_Forall_empty.
  revert H0. generalize new_registry as r. induction Hops as [|o ops Ho _ IH]; intros r Hr; [done |].
  cbn. apply IH. by apply run_browser_ok.
Qed.

(** [mark_ready] also moves a failed session to ready, not only a loading one. *)
Lemma mark_ready_recovers now k r s :
  sessions r !! k = Some s -> state s = ErrorState ->
  mark_ready now k r = (Ok (report (readied now s)), put k (readied now s) r).
Proof.
  intros Hs He. unfold mark_ready, live_session. unfold_monad. rewrite Hs.
  case_decide; [congruence |]. by rewrite He.
Qed.

(** An authority that starts with a slash hides its userinfo from the policy. *)
Example empty_authority_userinfo_accepted :
  validate (txt "http:///user:pw@host/") = Ok (txt "http:///user:pw@host/").
Proof. vm_compute. reflexivity. Qed.

(** ** Witnesses *)

Definition sample_ops : list browser_op :=
  [BCreate 5; BNavigate 6 6 "brw-5-1" (txt "https://a.b/c"); BReady 7 "brw-5-1";
   BClose 8 8 "brw-5-1"].

Definition sample_registry : SessionRegistry :=
  foldl (fun r o => run_browser o r) new_registry sample_ops.

Lemma closed_is_terminal_witness :
  map ev_kind (events sample_registry) = [NavigationChanged; ClosedEvent] /\
  audit "brw-5-1" [BNavigate 9 9 "brw-5-1" (txt "http://x"); BCreate 9] sample_registry = [].
Proof.
  split; [vm_compute; reflexivity |].
  destruct (closed_is_terminal sample_registry "brw-5-1"
    (closed 8 (readied 7 (navigated Loading (txt "https://a.b/c") 6
       {| id := "brw-5-1"; state := Created; current_url := None; created_at := 5;
          last_activity := None; error := None; snapshot := None; title := None |})))
    [BNavigate 9 9 "brw-5-1" (txt "http://x"); BCreate 9]) as (_ & H & _).
  - vm_compute. reflexivity.
  - reflexivity.
  - split; [exact I |]. split; [vm_compute; discriminate | exact I].
  - exact H.
Defined.

Lemma sessions_well_formed_witness : registry_ok sample_registry.
Proof. apply (sessions_well_formed sample_ops). repeat constructor. Defined.
