(* ===== verification/Negotiate.v ===== *)
(** * The negotiation state machine

    Model of [crates/adapter-dsh-std/src/negotiate.rs].  The clock
    ([self.now]) and [new_message_id] are arguments of the operations that read
    them. *)
From stdpp Require Import base strings list option pretty.
From Stdlib Require Import NArith ZArith Lia.
From S2P Require Import Prelude.

(** ** Data *)

Inductive NegotiationPhase := Proposed | Agreed | Active | Rejected.

#[export] Instance NegotiationPhase_eq_dec : EqDecision NegotiationPhase.
Proof. solve_decision. Defined.

Definition phase_as_str (p : NegotiationPhase) : string :=
  match p with
  | Proposed => "proposed" | Agreed => "agreed" | Active => "active" | Rejected => "rejected"
  end.

(** The derived [Debug] form. *)
Definition phase_debug (p : NegotiationPhase) : string :=
  match p with
  | Proposed => "Proposed" | Agreed => "Agreed" | Active => "Active" | Rejected => "Rejected"
  end.

Inductive RejectionReason :=
| RUnavailable | RUnsupportedVersion | RPolicyDenied | RProviderFailed | PeerRejected.

Definition rejection_as_str (r : RejectionReason) : string :=
  match r with
  | RUnavailable => "unavailable"
  | RUnsupportedVersion => "unsupported_version"
  | RPolicyDenied => "policy_denied"
  | RProviderFailed => "provider_failed"
  | PeerRejected => "peer_rejected"
  end.

Inductive NegotiationErrorCode := Conflict | InvalidState | MalformedMessage.

Definition code_as_str (c : NegotiationErrorCode) : string :=
  match c with
  | Conflict => "CONFLICT" | InvalidState => "INVALID_STATE" | MalformedMessage => "MALFORMED_MESSAGE"
  end.

Record NegotiationError := { code : NegotiationErrorCode; err_message : string }.

Definition conflict (m : string) : NegotiationError := {| code := Conflict; err_message := m |}.
Definition invalid_state (m : string) : NegotiationError := {| code := InvalidState; err_message := m |}.
Definition malformed (m : string) : NegotiationError := {| code := MalformedMessage; err_message := m |}.

Definition negotiation_error_display (e : NegotiationError) : string :=
  code_as_str (code e) +:+ ": " +:+ err_message e.

Record ProtocolCoordinate := { api_version : string; kind : string }.

#[export] Instance ProtocolCoordinate_eq_dec : EqDecision ProtocolCoordinate.
Proof. solve_decision. Defined.

Record Requirement := { req_coordinate : ProtocolCoordinate; required : bool }.

Inductive UnavailableReason := Unavailable | UnsupportedVersion | PolicyDenied | ProviderFailed.

Definition unavailable_as_str (r : UnavailableReason) : string :=
  match r with
  | Unavailable => "unavailable"
  | UnsupportedVersion => "unsupported_version"
  | PolicyDenied => "policy_denied"
  | ProviderFailed => "provider_failed"
  end.

Record UnavailableCapability := { u_coordinate : ProtocolCoordinate; u_reason : UnavailableReason }.

Record LeaseConstraints := { max_seconds : option N; approval_required : option bool }.

Record Participant := { component : string; facet : string; p_activation_id : option string }.

Record HelloPayload := {
  instance_id : string;
  supports : list ProtocolCoordinate;
  requires : list Requirement
}.

Record HelloMessage := {
  hello_id : string;
  hello_generation : N;
  hello_participant : Participant;
  hello_payload : HelloPayload
}.

Record AgreementPayload := {
  activation_id : string;
  granted : list ProtocolCoordinate;
  unavailable : list UnavailableCapability;
  lease_constraints : option LeaseConstraints
}.

Record AgreementMessage := {
  agreement_id : string;
  reply_to : string;
  agreement_generation : N;
  agreement_participant : Participant;
  agreement_payload : AgreementPayload
}.

(** The four fields copied from the agreement are its payload. *)
Record Activation := {
  act_payload : AgreementPayload;
  created_at : string;
  act_degraded : bool
}.

Record Rejection := { rej_reason : string; rej_message : option string; rej_at : string }.

Inductive NegotiationEventKind := EHello | EAgreement | EActivation | EReject | EDegrade.

Record NegotiationEvent := { ev_kind : NegotiationEventKind; ev_at : string; ev_detail : string }.

(** The first four fields, which become the agreement's payload, as one. *)
Record AgreementDecision := {
  d_payload : AgreementPayload;
  d_id : option string;
  d_generation : option N;
  d_timestamp : option string;
  d_participant : option Participant
}.

Record NegotiationSession := {
  session_id : string;
  phase : NegotiationPhase;
  hello : option HelloMessage;
  agreement : option AgreementMessage;
  activation : option Activation;
  rejection : option Rejection;
  degraded : bool;
  history : list NegotiationEvent
}.

(** ** Helpers *)

(** [includes_coordinate] *)
Definition includes_coordinate (l : list ProtocolCoordinate) (target : ProtocolCoordinate) : bool :=
  existsb (fun c => bool_decide (c = target)) l.

(** [all_unique_coordinates]: the [HashSet] of what was seen as a list. *)
Fixpoint unique_from (seen l : list ProtocolCoordinate) : bool :=
  match l with
  | [] => true
  | c :: l => negb (includes_coordinate seen c) && unique_from (c :: seen) l
  end.
Definition all_unique_coordinates (l : list ProtocolCoordinate) : bool := unique_from [] l.

(** [all_unique_unavailable] *)
Definition all_unique_unavailable (l : list UnavailableCapability) : bool :=
  unique_from [] (map u_coordinate l).

(** [(8..=128).contains(&s.len())] *)
Definition len_8_128 (s : string) : bool :=
  (8 <=? String.length s)%nat && (String.length s <=? 128)%nat.

Definition coordinate_name (c : ProtocolCoordinate) : string := api_version c +:+ "/" +:+ kind c.

(** ** Operations *)

Abbreviation Op A := (M NegotiationSession NegotiationError A).

(** [NegotiationSession::begin] *)
Definition begin (sid : string) : NegotiationSession :=
  {| session_id := sid; phase := Proposed; hello := None; agreement := None; activation := None;
     rejection := None; degraded := false; history := [] |}.

Definition push (s : NegotiationSession) (k : NegotiationEventKind) (at' detail : string) :
    list NegotiationEvent :=
  history s ++ [{| ev_kind := k; ev_at := at'; ev_detail := detail |}].

Definition set_hello (h : HelloMessage) (at' : string) (s : NegotiationSession) : NegotiationSession :=
  {| session_id := session_id s; phase := phase s; hello := Some h; agreement := agreement s;
     activation := activation s; rejection := rejection s; degraded := degraded s;
     history := push s EHello at' (hello_id h) |}.

(** [NegotiationSession::receive_hello] *)
Definition receive_hello (h : HelloMessage) (at' : string) : Op HelloMessage :=
  p ← gets phase;
  throw_if (bool_decide (p = Rejected)) (invalid_state "session is rejected");;
  throw_if (negb (bool_decide (p = Proposed)))
    (conflict ("cannot receive Hello in phase " +:+ phase_debug p));;
  existing ← gets hello;
  match existing with
  | Some e =>
      if String.eqb (hello_id e) (hello_id h) then mret e
      else throw (conflict "Hello already received")
  | None =>
      throw_if (negb (len_8_128 (hello_id h))) (malformed "Hello id must be 8..128 chars");;
      throw_if (negb (len_8_128 (instance_id (hello_payload h))))
        (malformed "Hello payload.instanceId must be 8..128 chars");;
      throw_if (negb (all_unique_coordinates (supports (hello_payload h))))
        (malformed "Hello supports must be unique");;
      throw_if ((length (requires (hello_payload h)) =? 0)%nat
                && (length (supports (hello_payload h)) =? 0)%nat)
        (malformed "Hello must declare at least one support or requirement");;
      modify (set_hello h at');;
      mret h
  end.

Definition agreement_of (h : HelloMessage) (d : AgreementDecision) (fresh : string) : AgreementMessage :=
  {| agreement_id := default fresh (d_id d); reply_to := hello_id h;
     agreement_generation := default (hello_generation h) (d_generation d);
     agreement_participant := default (hello_participant h) (d_participant d);
     agreement_payload := d_payload d |}.

Definition set_agreement (a : AgreementMessage) (at1 at2 : string) (s : NegotiationSession) :
    NegotiationSession :=
  let n := length (unavailable (agreement_payload a)) in
  let h1 := if (n =? 0)%nat then history s
            else push s EDegrade at1 (pretty n +:+ " capability(ies) unavailable") in
  {| session_id := session_id s; phase := Agreed; hello := hello s; agreement := Some a;
     activation := activation s; rejection := rejection s;
     degraded := if (n =? 0)%nat then degraded s else true;
     history := h1 ++ [{| ev_kind := EAgreement; ev_at := at2; ev_detail := agreement_id a |}] |}.

(** [NegotiationSession::issue_agreement]; [fresh] is what [new_message_id]
    would return. *)
Definition issue_agreement (d : AgreementDecision) (fresh at1 at2 : string) : Op AgreementMessage :=
  p ← gets phase;
  throw_if (bool_decide (p = Rejected)) (invalid_state "session is rejected");;
  throw_if (negb (bool_decide (p = Proposed)))
    (conflict ("cannot issue Agreement in phase " +:+ phase_debug p));;
  received ← gets hello;
  h ← lift (ok_or (invalid_state "no Hello received yet") received);
  let pl := d_payload d in
  for_each (fun c => throw_if (negb (includes_coordinate (supports (hello_payload h)) c))
    (conflict ("granted capability " +:+ coordinate_name c +:+ " is not in Hello.supports")))
    (granted pl);;
  for_each (fun u => throw_if (includes_coordinate (granted pl) (u_coordinate u))
    (conflict ("capability " +:+ coordinate_name (u_coordinate u)
               +:+ " is both granted and unavailable"))) (unavailable pl);;
  throw_if ((String.length (activation_id pl) =? 0)%nat || (128 <? String.length (activation_id pl))%nat)
    (malformed "activationId must be 1..128 chars");;
  throw_if (negb (all_unique_coordinates (granted pl))) (malformed "granted must be unique");;
  throw_if (negb (all_unique_unavailable (unavailable pl))) (malformed "unavailable must be unique");;
  let a := agreement_of h d fresh in
  throw_if (negb (len_8_128 (agreement_id a)))
    (malformed "constructed Agreement id must be 8..128 chars");;
  modify (set_agreement a at1 at2);;
  mret a.

Definition set_activation (a : Activation) (s : NegotiationSession) : NegotiationSession :=
  {| session_id := session_id s; phase := Active; hello := hello s; agreement := agreement s;
     activation := Some a; rejection := rejection s; degraded := degraded s;
     history := push s EActivation (created_at a) (activation_id (act_payload a)) |}.

(** [NegotiationSession::activate] *)
Definition activate (at' : string) : Op Activation := fun s =>
  match phase s with
  | Rejected => (Err (invalid_state "session is rejected"), s)
  | Active => (ok_or (invalid_state "active session without activation record") (activation s), s)
  | Proposed => (Err (invalid_state "cannot activate from phase Proposed"), s)
  | Agreed =>
      match agreement s with
      | None => (Err (invalid_state "agreed session without agreement record"), s)
      | Some ag =>
          let a := {| act_payload := agreement_payload ag; created_at := at';
                      act_degraded := degraded s |} in
          (Ok a, set_activation a s)
      end
  end.

(** [NegotiationSession::reject] *)
Definition reject (why : RejectionReason) (msg : option string) (at' : string) : Op Rejection :=
  fun s =>
  match phase s with
  | Rejected => (ok_or (invalid_state "rejected session without rejection record") (rejection s), s)
  | Active => (Err (conflict "cannot reject an active session"), s)
  | Proposed | Agreed =>
      let r := {| rej_reason := rejection_as_str why; rej_message := msg; rej_at := at' |} in
      let detail := match msg with
                    | Some m => rejection_as_str why +:+ ": " +:+ m
                    | None => rejection_as_str why
                    end in
      (Ok r,
       {| session_id := session_id s; phase := Rejected; hello := hello s; agreement := agreement s;
          activation := activation s; rejection := Some r; degraded := degraded s;
          history := push s EReject at' detail |})
  end.

(** [NegotiationSession::unsatisfied_requirements] *)
Definition unsatisfied_requirements (s : NegotiationSession) (gr : list ProtocolCoordinate) :
    list ProtocolCoordinate :=
  match hello s with
  | None => []
  | Some h =>
      List.filter (fun c => negb (includes_coordinate gr c))
        (map req_coordinate (List.filter required (requires (hello_payload h))))
  end.

(** [NegotiationSession::unsatisfied_after_agreement] *)
Definition unsatisfied_after_agreement (s : NegotiationSession) : list ProtocolCoordinate :=
  unsatisfied_requirements s
    (match agreement s with Some a => granted (agreement_payload a) | None => [] end).
