(* ===== verification/NegotiateFacts.v ===== *)
(** * Properties of the negotiation state machine *)
From stdpp Require Import base strings list option pretty.
From Stdlib Require Import NArith ZArith Lia.
From S2P Require Import Prelude Negotiate.

(** ** Lemmas *)

Lemma includes_spec l c : includes_coordinate l c = true <-> c ∈ l.
Proof.
  unfold includes_coordinate. rewrite existsb_elem. split.
  - intros (x & Hx & ->%bool_decide_eq_true). done.
  - intros H. exists c. split; [done | by apply bool_decide_eq_true].
Qed.

Lemma unique_from_spec seen l :
  unique_from seen l = true <-> NoDup l /\ forall c, c ∈ l -> c ∉ seen.
Proof.
  revert seen. induction l as [|x l IH]; intros seen; cbn.
  - split; [| done]. intros _. split; [constructor |]. by intros c ?%elem_of_nil.
  - rewrite andb_true_iff, negb_true_iff, <- not_true_iff_false, includes_spec, IH, NoDup_cons.
    split.
    + intros (Hx & Hnd & Hs). split_and!; [| done |].
      * intros Hin. apply (Hs x Hin). by left.
      * intros c [-> | Hc]%elem_of_cons; [done |]. intros Hseen. apply (Hs c Hc). by right.
    + intros ((Hx & Hnd) & Hs). split_and!; [apply Hs; by left | done |].
      intros c Hc [-> | Hseen]%elem_of_cons; [done |]. apply (Hs c); [by right | done].
Qed.

Lemma all_unique_spec l : all_unique_coordinates l = true <-> NoDup l.
Proof.
  unfold all_unique_coordinates. rewrite unique_from_spec. split; [tauto |]. intros H.
  split; [done |]. by intros c _ ?%elem_of_nil.
Qed.

Lemma all_unique_unavailable_spec l :
  all_unique_unavailable l = true <-> NoDup (map u_coordinate l).
Proof. apply all_unique_spec. Qed.

(** A loop of guards changes nothing and passes when every guard does. *)
Lemma for_each_guard {S E A} (cond : A -> bool) (e : A -> E) l (s : S) :
  (for_each (fun x => throw_if (cond x) (e x)) l s).2 = s /\
  ((for_each (fun x => throw_if (cond x) (e x)) l s).1 = Ok tt <->
   forall x, x ∈ l -> cond x = false).
Proof.
  induction l as [|x l [IH1 IH2]]; cbn [for_each].
  - split; [done |]. split; [by intros _ x ?%elem_of_nil | done].
  - cbv [mbind M_bind]. unfold throw_if at 1 3. destruct (cond x) eqn:Ec; cbn.
    + split; [done |]. split; [done |]. intros H. rewrite (H x) in Ec by (by left). done.
    + split; [done |]. rewrite IH2. split.
      * intros H y [-> | Hy]%elem_of_cons; [done | by apply H].
      * intros H y Hy. apply H. by right.
Qed.

Lemma for_each_guard_ok {S E A} (cond : A -> bool) (e : A -> E) l (s s' : S) u :
  for_each (fun x => throw_if (cond x) (e x)) l s = (Ok u, s') <->
  s' = s /\ forall x, x ∈ l -> cond x = false.
Proof.
  destruct (for_each_guard cond e l s) as [H1 H2].
  destruct (for_each _ l s) as [r s1]; cbn in *. subst s1. destruct u. rewrite <- H2.
  naive_solver.
Qed.

(** Operations that fail leave the session as it was. *)
Lemma receive_hello_err h at' s e s' : receive_hello h at' s = (Err e, s') -> s' = s.
Proof.
  unfold receive_hello. unfold_monad. intros H. by split_branches.
Qed.

Lemma issue_agreement_err d fresh at1 at2 s e s' :
  issue_agreement d fresh at1 at2 s = (Err e, s') -> s' = s.
Proof.
  unfold issue_agreement. cbv [mret mbind M_ret M_bind throw gets modify lift throw_if].
  cbn beta iota zeta. intros H.
  destruct (bool_decide (phase s = Rejected)); [by simplify_eq |].
  destruct (negb _); [by simplify_eq |]. destruct (hello s) as [h|]; cbn in H; [| by simplify_eq].
  match type of H with context [for_each ?b ?l ?s] =>
    destruct (for_each_guard (fun c => negb (includes_coordinate (supports (hello_payload h)) c))
      (fun c => conflict ("granted capability " +:+ coordinate_name c +:+ " is not in Hello.supports"))
      l s) as [Hs1 _]; unfold throw_if in Hs1; destruct (for_each b l s) as [[?|?] s1]; cbn in Hs1; subst s1 end;
    [| by simplify_eq].
  match type of H with context [for_each ?b ?l ?s] =>
    destruct (for_each_guard (fun u => includes_coordinate (granted (d_payload d)) (u_coordinate u))
      (fun u => conflict ("capability " +:+ coordinate_name (u_coordinate u)
               +:+ " is both granted and unavailable"))
      l s) as [Hs1 _]; unfold throw_if in Hs1; destruct (for_each b l s) as [[?|?] s1]; cbn in Hs1; subst s1 end;
    [| by simplify_eq].
  by repeat (case_match; simplify_eq).
Qed.

(** What an accepted decision satisfies. *)
Definition acceptable (h : HelloMessage) (d : AgreementDecision) (fresh : string) : Prop :=
  let pl := d_payload d in
  (forall c, c ∈ granted pl -> c ∈ supports (hello_payload h)) /\
  (forall u, u ∈ unavailable pl -> u_coordinate u ∉ granted pl) /\
  (1 <= String.length (activation_id pl) <= 128)%nat /\
  NoDup (granted pl) /\ NoDup (map u_coordinate (unavailable pl)) /\
  len_8_128 (default fresh (d_id d)) = true.

Lemma issue_agreement_ok d fresh at1 at2 s a s' :
  issue_agreement d fresh at1 at2 s = (Ok a, s') <->
  exists h, phase s = Proposed /\ hello s = Some h /\ acceptable h d fresh /\
    a = agreement_of h d fresh /\ s' = set_agreement a at1 at2 s.
Proof.
  unfold issue_agreement, acceptable.
  repeat setoid_rewrite bind_ok. setoid_rewrite throw_if_ok. setoid_rewrite gets_ok.
  setoid_rewrite modify_ok. setoid_rewrite ret_ok. setoid_rewrite lift_ok.
  setoid_rewrite ok_or_ok. setoid_rewrite for_each_guard_ok. split.
  - intros (p & s0 & [-> ->] & [] & s1 & [Hr ->] & [] & s2 & [Hp ->] & o & s3 & [-> ->] & h & s4 & [Hh ->]
      & [] & s5 & [-> Hg] & [] & s6 & [-> Hu] & [] & s7 & [Hl ->] & [] & s8 & [Hng ->] & [] & s9 & [Hnu ->]
      & [] & s10 & [Hid ->] & [] & s11 & -> & [-> ->]).
    apply negb_false_iff, bool_decide_eq_true in Hp.
    exists h. split_and!; try done.
    + intros c Hc. apply Hg in Hc. by apply negb_false_iff, includes_spec in Hc.
    + intros u Huu. apply Hu in Huu. by rewrite <- not_true_iff_false, includes_spec in Huu.
    + apply orb_false_iff in Hl as [?%Nat.eqb_neq ?%Nat.ltb_ge]. lia.
    + apply orb_false_iff in Hl as [?%Nat.eqb_neq ?%Nat.ltb_ge]. lia.
    + by apply negb_false_iff, all_unique_spec in Hng.
    + by apply negb_false_iff, all_unique_unavailable_spec in Hnu.
    + by apply negb_false_iff in Hid.
  - intros (h & Hp & Hh & (Hg & Hu & Hl & Hng & Hnu & Hid) & -> & ->).
    exists (phase s), s. split; [done |]. exists tt, s. split; [by rewrite Hp |].
    exists tt, s. split; [by rewrite Hp |]. exists (hello s), s. split; [done |].
    exists h, s. split; [done |]. exists tt, s. split.
    { split; [done |]. intros c Hc. apply negb_false_iff, includes_spec. auto. }
    exists tt, s. split.
    { split; [done |]. intros u Huu. rewrite <- not_true_iff_false, includes_spec. auto. }
    exists tt, s. split.
    { split; [| done]. apply orb_false_iff. rewrite Nat.eqb_neq, Nat.ltb_ge. lia. }
    exists tt, s. split; [split; [by apply negb_false_iff, all_unique_spec | done] |].
    exists tt, s. split; [split; [by apply negb_false_iff, all_unique_unavailable_spec | done] |].
    exists tt, s. split; [split; [by apply negb_false_iff | done] |].
    by eexists tt, _.
Qed.

Lemma receive_hello_ok h at' s h' s' :
  receive_hello h at' s = (Ok h', s') <->
  phase s = Proposed /\
  ((exists e, hello s = Some e /\ hello_id e = hello_id h /\ h' = e /\ s' = s) \/
   (hello s = None /\ len_8_128 (hello_id h) = true /\
      len_8_128 (instance_id (hello_payload h)) = true /\ NoDup (supports (hello_payload h)) /\
      (requires (hello_payload h) <> [] \/ supports (hello_payload h) <> []) /\
      h' = h /\ s' = set_hello h at' s)).
Proof.
  unfold receive_hello. cbv [mret mbind M_ret M_bind throw gets modify lift throw_if].
  cbn beta iota zeta.
  destruct (phase s) eqn:Ep; cbn; [| naive_solver..].
  change (bool_decide (Proposed = Rejected)) with false.
  change (bool_decide (Proposed = Proposed)) with true. cbn.
  destruct (hello s) as [e|] eqn:Eh.
  - destruct (String.eqb_spec (hello_id e) (hello_id h)) as [Hid | Hid]; split; try done.
    + intros [= <- <-]. split; [done |]. left. by exists e.
    + by intros (_ & [(e' & [= <-] & _ & -> & ->) | [? _]]).
    + by intros (_ & [(e' & [= <-] & ? & _) | [? _]]).
  - destruct (len_8_128 (hello_id h)); cbn; [| naive_solver].
    destruct (len_8_128 (instance_id (hello_payload h))); cbn; [| naive_solver].
    rewrite <- all_unique_spec.
    destruct (all_unique_coordinates _); cbn; [| naive_solver].
    destruct (requires (hello_payload h)), (supports (hello_payload h)); cbn; naive_solver.
Qed.

(** ** The invariant *)

Inductive nego_op :=
| NHello (h : HelloMessage) (at' : string)
| NIssue (d : AgreementDecision) (fresh at1 at2 : string)
| NActivate (at' : string)
| NReject (why : RejectionReason) (msg : option string) (at' : string).

Definition run_nego (o : nego_op) (s : NegotiationSession) : NegotiationSession :=
  match o with
  | NHello h at' => (receive_hello h at' s).2
  | NIssue d fresh at1 at2 => (issue_agreement d fresh at1 at2 s).2
  | NActivate at' => (activate at' s).2
  | NReject why msg at' => (reject why msg at' s).2
  end.

(** The timeline a session must have, read off its records. *)
Definition expected_kinds (s : NegotiationSession) : list NegotiationEventKind :=
  (if hello s is Some _ then [EHello] else []) ++
  (if agreement s is Some _ then (if degraded s then [EDegrade] else []) ++ [EAgreement] else []) ++
  (if activation s is Some _ then [EActivation] else []) ++
  (if rejection s is Some _ then [EReject] else []).

(** Which records exist in which phase. *)
Definition records_ok (s : NegotiationSession) : Prop :=
  match phase s with
  | Proposed => agreement s = None /\ activation s = None /\ rejection s = None
  | Agreed => is_Some (agreement s) /\ activation s = None /\ rejection s = None
  | Active => is_Some (agreement s) /\ is_Some (activation s) /\ rejection s = None
  | Rejected => activation s = None /\ is_Some (rejection s)
  end.

(** An agreement answers the session's own Hello. *)
Definition agreement_ok (s : NegotiationSession) : Prop :=
  match agreement s with
  | None => degraded s = false
  | Some a =>
      exists h, hello s = Some h /\ reply_to a = hello_id h /\
        (forall c, c ∈ granted (agreement_payload a) -> c ∈ supports (hello_payload h)) /\
        (forall u, u ∈ unavailable (agreement_payload a) ->
           u_coordinate u ∉ granted (agreement_payload a)) /\
        NoDup (granted (agreement_payload a)) /\
        NoDup (map u_coordinate (unavailable (agreement_payload a))) /\
        degraded s = negb (length (unavailable (agreement_payload a)) =? 0)%nat
  end.

(** An activation is the agreement, verbatim. *)
Definition activation_ok (s : NegotiationSession) : Prop :=
  match activation s with
  | None => True
  | Some act => act_degraded act = degraded s /\
      exists a, agreement s = Some a /\ act_payload act = agreement_payload a
  end.

Definition nego_ok (s : NegotiationSession) : Prop :=
  records_ok s /\ agreement_ok s /\ activation_ok s /\ map ev_kind (history s) = expected_kinds s.

Lemma begin_ok sid : nego_ok (begin sid).
Proof. by repeat split. Qed.

(** An operation either changes nothing or is one of four moves. *)
Lemma run_nego_cases o s :
  run_nego o s = s \/
  (exists h at', phase s = Proposed /\ hello s = None /\ run_nego o s = set_hello h at' s) \/
  (exists h d fresh at1 at2, phase s = Proposed /\ hello s = Some h /\ acceptable h d fresh /\
     run_nego o s = set_agreement (agreement_of h d fresh) at1 at2 s) \/
  (exists a at', phase s = Agreed /\ agreement s = Some a /\
     run_nego o s = set_activation {| act_payload := agreement_payload a; created_at := at';
                                      act_degraded := degraded s |} s) \/
  (exists why msg at', (phase s = Proposed \/ phase s = Agreed) /\
     run_nego o s = (reject why msg at' s).2).
Proof.
  destruct o as [h at' | d fresh at1 at2 | at' | why msg at']; cbn [run_nego].
  - destruct (receive_hello h at' s) as [[h'|e] s'] eqn:E; cbn.
    + apply receive_hello_ok in E as (Hp & [(e & _ & _ & _ & ->) | (Hh & _ & _ & _ & _ & _ & ->)]);
        [by left | right; left; by eauto 8].
    + left. by eapply receive_hello_err.
  - destruct (issue_agreement d fresh at1 at2 s) as [[a|e] s'] eqn:E; cbn.
    + apply issue_agreement_ok in E as (h & Hp & Hh & Hacc & -> & ->). right; right; left. by eauto 12.
    + left. by eapply issue_agreement_err.
  - unfold activate. destruct (phase s) eqn:Hp; try by left.
    destruct (agreement s) as [a|] eqn:Ha; [| by left]. right; right; right; left. by eauto 8.
  - destruct (phase s) eqn:Hp.
    + right; right; right; right. by eauto 8.
    + right; right; right; right. by eauto 8.
    + left. unfold reject. by rewrite Hp.
    + left. unfold reject. by rewrite Hp.
Qed.

Lemma kinds_push s k at' d : map ev_kind (push s k at' d) = map ev_kind (history s) ++ [k].
Proof. unfold push. by rewrite map_app. Qed.

Lemma run_nego_ok o s : nego_ok s -> nego_ok (run_nego o s).
Proof.
  intros (Hrec & Hagr & Hact & Hhist).
  destruct (run_nego_cases o s)
    as [-> | [(h & at' & Hp & Hh & ->) | [(h & d & fresh & at1 & at2 & Hp & Hh & Hacc & ->)
         | [(a & at' & Hp & Ha & ->) | (why & msg & at' & Hp & ->)]]]]; [done |..].
  - unfold records_ok in Hrec. rewrite Hp in Hrec. destruct Hrec as (Hn1 & Hn2 & Hn3).
    unfold nego_ok, records_ok, agreement_ok, activation_ok, expected_kinds in *. cbn.
    rewrite Hp, Hh, Hn1, Hn2, Hn3 in *. cbn in *. rewrite kinds_push, Hhist. by split_and!.
  - unfold records_ok in Hrec. rewrite Hp in Hrec. destruct Hrec as (Hn1 & Hn2 & Hn3).
    destruct Hacc as (Hsub & Hdis & _ & Hnd & Hndu & _).
    unfold nego_ok, records_ok, agreement_ok, activation_ok, expected_kinds in *.
    rewrite Hh, Hn1, Hn2, Hn3 in *. cbn in *. rewrite Hh, Hn2, Hn3. cbn.
    split_and!; try done.
    + exists h. split_and!; try done. destruct (length (unavailable (d_payload d)) =? 0)%nat; [by rewrite Hagr | done].
    + destruct (length (unavailable (d_payload d)) =? 0)%nat; rewrite map_app; cbn.
      * by rewrite Hhist, Hagr.
      * by rewrite kinds_push, Hhist.
  - unfold records_ok in Hrec. rewrite Hp in Hrec. destruct Hrec as (Hs1 & Hn2 & Hn3).
    unfold nego_ok, records_ok, agreement_ok, activation_ok, expected_kinds in *. cbn.
    rewrite Ha, Hn2, Hn3 in *. cbn in *. rewrite kinds_push, Hhist, !app_nil_r. split_and!; try done.
    + by exists a.
    + by rewrite <- !app_assoc.
  - assert (Hrej : rejection s = None /\ activation s = None).
    { unfold records_ok in Hrec. by destruct Hp as [Hp | Hp]; rewrite Hp in Hrec; destruct Hrec as (_ & ? & ?). }
    destruct Hrej as [Hn3 Hn2].
    unfold reject. destruct Hp as [Hp | Hp]; rewrite Hp; cbn;
      unfold nego_ok, records_ok, agreement_ok, activation_ok, expected_kinds in *; cbn;
      rewrite Hn2, Hn3 in *; cbn in *; rewrite kinds_push, Hhist, !app_nil_r;
      (split_and!; [done | done | done | done | by rewrite <- !app_assoc]).
Qed.

(** ** Properties *)

(** Whatever messages and decisions arrive in whatever order, the records
    of a session fit its phase; an agreement answers the session's own Hello,
    grants only what that Hello supports, each once, and nothing it also
    declares unavailable; an activation is the agreement verbatim; and the
    timeline is exactly the one the records imply. *)
Theorem negotiation_invariant sid ops :
  nego_ok (foldl (fun s o => run_nego o s) (begin sid) ops).
Proof.
  generalize (begin_ok sid). generalize (begin sid) as s.
  induction ops as [|o ops IH]; intros s Hs; [done |]. cbn. apply IH. by apply run_nego_ok.
Qed.

(** [Active] and [Rejected] are final: no later operation changes
    anything in the session, activating or rejecting again returns the recorded
    answer, and an active session cannot be rejected nor a rejected one
    activated. *)
Theorem final_phases_frozen sid ops o :
  let s := foldl (fun s o => run_nego o s) (begin sid) ops in
  (phase s = Active -> run_nego o s = s /\
     (forall at', exists a, activation s = Some a /\ activate at' s = (Ok a, s)) /\
     (forall why msg at', code <$> (match (reject why msg at' s).1 with Err e => Some e | Ok _ => None end)
                          = Some Conflict)) /\
  (phase s = Rejected -> run_nego o s = s /\
     (forall why msg at', exists r, rejection s = Some r /\ reject why msg at' s = (Ok r, s)) /\
     (forall at', code <$> (match (activate at' s).1 with Err e => Some e | Ok _ => None end)
                  = Some InvalidState)).
Proof.
  intros s. assert (Hok : nego_ok s).
  { subst s. generalize (begin_ok sid). generalize (begin sid) as s0.
    induction ops as [|o' ops IH]; intros s0 Hs; [done |]. cbn. apply IH. by apply run_nego_ok. }
  clearbody s. destruct Hok as (Hrec & _). unfold records_ok in Hrec.
  split; intros Hp; rewrite Hp in Hrec.
  - destruct Hrec as (_ & [a Ha] & _). split_and!.
    + destruct (run_nego_cases o s) as [-> | [(? & ? & ? & _) | [(? & ? & ? & ? & ? & ? & _)
        | [(? & ? & ? & _) | (? & ? & ? & [? | ?] & _)]]]]; [done | congruence..].
    + intros at'. exists a. split; [done |]. unfold activate. by rewrite Hp, Ha.
    + intros. unfold reject. by rewrite Hp.
  - destruct Hrec as (_ & [r Hr]). split_and!.
    + destruct (run_nego_cases o s) as [-> | [(? & ? & ? & _) | [(? & ? & ? & ? & ? & ? & _)
        | [(? & ? & ? & _) | (? & ? & ? & [? | ?] & _)]]]]; [done | congruence..].
    + intros. exists r. split; [done |]. unfold reject. by rewrite Hp, Hr.
    + intros. unfold activate. by rewrite Hp.
Qed.

(** [issue_agreement] succeeds exactly in the [Proposed] phase, after a
    Hello, on a decision whose grants are supported by that Hello, distinct and
    disjoint from its distinct unavailable entries, with an activation id of
    1..=128 bytes and an agreement id of 8..=128; on any failure the session is
    unchanged. *)
Theorem issue_agreement_iff d fresh at1 at2 s :
  (is_ok (issue_agreement d fresh at1 at2 s).1 = true <->
     exists h, phase s = Proposed /\ hello s = Some h /\ acceptable h d fresh) /\
  (is_ok (issue_agreement d fresh at1 at2 s).1 = false ->
     (issue_agreement d fresh at1 at2 s).2 = s).
Proof.
  destruct (issue_agreement d fresh at1 at2 s) as [[a|e] s'] eqn:E; cbn.
  - apply issue_agreement_ok in E as (h & Hp & Hh & Hacc & _).
    split; [split; [by eauto 6 | done] | done].
  - split; [| intros _; by eapply issue_agreement_err].
    split; [done |]. intros (h & Hp & Hh & Hacc). exfalso.
    assert (Hok : issue_agreement d fresh at1 at2 s =
              (Ok (agreement_of h d fresh), set_agreement (agreement_of h d fresh) at1 at2 s))
      by (apply issue_agreement_ok; by eauto 8).
    congruence.
Qed.
