(* ===== verification/Environment.v ===== *)
(** * Managed environments and launch recipes

    Model of [crates/managed-runtime/src/environment.rs] and of the launch
    recipe ([build_launch_spec] and its helpers) of
    [crates/managed-runtime/src/supervisor.rs].  The file system and the [PATH]
    variable are the interface [Fs]; paths, like all strings here, are texts. *)
From stdpp Require Import base strings list option pretty.
From Stdlib Require Import NArith ZArith Lia.
From S2P Require Import Prelude.

(** ** Data *)

Definition CATALOG_SCHEMA_VERSION : N := 1.
Definition MAX_ENVIRONMENTS : nat := 128.
Definition RESERVED_ARGUMENTS : list text :=
  [txt "--host"; txt "--port"; txt "--no-open"; txt "--trusted-host"].

Inductive HarnessMode := Repository | Executable | Command.

#[export] Instance HarnessMode_eq_dec : EqDecision HarnessMode.
Proof. solve_decision. Defined.

Record HarnessSource := {
  mode : HarnessMode;
  path : text;
  cwd : option text;
  args : list text
}.

Inductive EndpointPort := Named (s : text) | Fixed (port : N).
Record Endpoint := { host : text; port : EndpointPort }.

Inductive Ownership := Managed | Attached.

Record EnvironmentPolicy := {
  auto_restart_on_crash : option bool;
  allow_native_adapter : option bool
}.

Record ManagedEnvironment := {
  schema_version : N;
  id : text;
  label : text;
  harness : HarnessSource;
  dsh_home : text;
  profile : text;
  node_path : option text;
  endpoint : Endpoint;
  ownership : Ownership;
  policy : option EnvironmentPolicy
}.

Record EnvironmentCatalog := {
  cat_schema_version : N;
  revision : N;
  active_environment_id : option text;
  environments : list ManagedEnvironment
}.

Inductive CatalogError := Corrupt | UnavailableCatalog.

(** What the code asks of the operating system about paths. *)
Class Fs := {
  is_absolute : text -> bool;
  is_file : text -> bool;
  is_dir : text -> bool;
  join : text -> text -> text;
  from_file_path : text -> option text;  (* [Url::from_file_path] *)
  path_dirs : option (list text);        (* [PATH], split *)
  on_windows : bool                      (* [cfg!(windows)] *)
}.

(** ** Validation *)

Definition is_managed (e : ManagedEnvironment) : bool :=
  match ownership e with Managed => true | Attached => false end.

Definition managed_expected_port (e : ManagedEnvironment) : option N :=
  match port (endpoint e) with Fixed p => Some p | Named _ => None end.

Definition is_ascii_lowercase (c : N) : bool := ((97 <=? c) && (c <=? 122))%N.
Definition is_ascii_digit (c : N) : bool := ((48 <=? c) && (c <=? 57))%N.

(** [is_valid_id] *)
Definition is_valid_id (value : text) : bool :=
  (2 <=? length value)%nat && (length value <=? 64)%nat &&
  match value with b :: _ => is_ascii_lowercase b | [] => false end &&
  forallb (fun b => is_ascii_lowercase b || is_ascii_digit b || (b =? 45)%N) value.

(** [is_valid_port] *)
Definition is_valid_port (p : EndpointPort) : bool :=
  match p with Named v => bool_decide (v = txt "auto") | Fixed v => (1024 <=? v)%N end.

(** [str::starts_with] *)
Definition starts_with (pre s : text) : bool := bool_decide (take (length pre) s = pre).

(** [is_reserved_argument] *)
Definition is_reserved_argument (a : text) : bool :=
  existsb (fun r => bool_decide (a = r) || starts_with (r ++ txt "=") a) RESERVED_ARGUMENTS.

Section Recipe.
Context `{Fs}.

(** [ManagedEnvironment::is_valid] *)
Definition is_valid (e : ManagedEnvironment) : bool :=
  (schema_version e =? CATALOG_SCHEMA_VERSION)%N &&
  is_valid_id (id e) &&
  negb (is_blank (label e) || (128 <? length (label e))%nat) &&
  negb (is_blank (path (harness e))) &&
  negb (is_blank (dsh_home e) || is_blank (profile e)) &&
  bool_decide (host (endpoint e) = txt "127.0.0.1") &&
  is_valid_port (port (endpoint e)) &&
  negb ((64 <? length (args (harness e)))%nat || existsb is_reserved_argument (args (harness e))) &&
  match node_path e with
  | None => true
  | Some np =>
      negb (is_blank np || negb (is_absolute np)) &&
      negb (negb (bool_decide (mode (harness e) = Repository)) || negb (is_managed e))
  end.

(** The loop of [validate_catalog], with the ids seen so far. *)
Fixpoint validate_from (ids : list text) (es : list ManagedEnvironment) :
    result CatalogError (list text) :=
  match es with
  | [] => Ok ids
  | e :: es =>
      if bool_decide (id e ∈ ids) || negb (is_valid e) then Err Corrupt
      else validate_from (id e :: ids) es
  end.

(** [validate_catalog] *)
Definition validate_catalog (c : EnvironmentCatalog) : result CatalogError unit :=
  if negb (cat_schema_version c =? CATALOG_SCHEMA_VERSION)%N
     || (MAX_ENVIRONMENTS <? length (environments c))%nat then Err Corrupt
  else
    match validate_from [] (environments c) with
    | Err e => Err e
    | Ok ids =>
        match active_environment_id c with
        | Some active => if bool_decide (active ∈ ids) then Ok tt else Err Corrupt
        | None => Ok tt
        end
    end.

(** [EnvironmentCatalog::default()] *)
Definition default_catalog : EnvironmentCatalog :=
  {| cat_schema_version := CATALOG_SCHEMA_VERSION; revision := 0; active_environment_id := None;
     environments := [] |}.

(** [EnvironmentCatalog::environment] *)
Definition catalog_environment (c : EnvironmentCatalog) (i : text) : option ManagedEnvironment :=
  List.find (fun e => bool_decide (id e = i)) (environments c).

(** [load_catalog]: whether the file exists, what reading it gives, and how
    [serde_json] decodes the bytes are arguments. *)
Definition load_catalog (exists_ : bool) (read : option (list N))
    (from_slice : list N -> option EnvironmentCatalog) : result CatalogError EnvironmentCatalog :=
  if negb exists_ then Ok default_catalog
  else
    bytes ← ok_or UnavailableCatalog read;
    catalog ← ok_or Corrupt (from_slice bytes);
    _ ← validate_catalog catalog;
    Ok catalog.

(** ** The launch recipe *)

Inductive ManagedRuntimeError :=
| NotManaged | InvalidEnvironment | UnsupportedSource | NodeOverrideUnsupported
| SpawnFailed (why : text) | ProcessTreeFailed (why : text) | RuntimeUnavailable (why : text)
| Conflict | StaleGeneration | CandidateInvalid | CandidatePortMismatch | ProcessExited
| ReadinessTimeout | StopFailed | EndpointStillReachable | SurfaceBindingUnavailable
| StateUnavailable | ClockUnavailable.

Record LaunchSpec := {
  executable : text;
  spec_args : list text;
  spec_cwd : option text;
  spec_environment : list (text * text);
  expected_port : option N
}.

Definition REPO_CLI_ENTRY_REL : text := txt "apps/cli/src/bin.ts".
Definition REPO_TS_LOADER_REL : text := txt "scripts/register-tsx-esm.mjs".

(** [find_on_path] *)
Definition find_on_path (name : text) : option text :=
  dirs ← path_dirs; List.find is_file (map (fun d => join d name) dirs).

(** [resolve_node] *)
Definition resolve_node (np : option text) : result ManagedRuntimeError text :=
  match np with
  | Some p => Ok p
  | None =>
      ok_or NodeOverrideUnsupported
        (find_on_path (if on_windows then txt "node.exe" else txt "node"))
  end.

(** [push_dsh_arguments]: what it appends. *)
Definition dsh_arguments (e : ManagedEnvironment) (port_argument : text) : list text :=
  (if bool_decide (profile e = txt "default") then [txt "web"] else [txt "--profile"; profile e])
  ++ [txt "--host"; txt "127.0.0.1"; txt "--port"; port_argument; txt "--no-open"]
  ++ args (harness e).

(** [dsh_home_environment] *)
Definition dsh_home_environment (e : ManagedEnvironment) : list (text * text) :=
  [(txt "DSH_HOME", dsh_home e)].

Definition non_empty (o : option text) : option text :=
  match o with Some [] => None | _ => o end.

(** The loader of a repository checkout. *)
Definition loader_arg (repo : text) : result ManagedRuntimeError text :=
  if is_file (join repo REPO_TS_LOADER_REL) then
    ok_or UnsupportedSource (from_file_path (join repo REPO_TS_LOADER_REL))
  else if is_file (join repo (txt "node_modules/tsx/package.json")) then Ok (txt "tsx/esm")
  else Err UnsupportedSource.

(** [build_launch_spec] *)
Definition build_launch_spec (e : ManagedEnvironment) : result ManagedRuntimeError LaunchSpec :=
  if negb (is_managed e) then Err NotManaged
  else if negb (is_valid e) then Err InvalidEnvironment
  else
    let harness_path := path (harness e) in
    let np := non_empty (node_path e) in
    if negb (bool_decide (mode (harness e) = Repository)) && bool_decide (is_Some np)
    then Err NodeOverrideUnsupported
    else if match np with Some p => negb (is_absolute p) || negb (is_file p) | None => false end
    then Err NodeOverrideUnsupported
    else
      let p := managed_expected_port e in
      let port_argument := txt (pretty (default 0%N p)) in
      if bool_decide (mode (harness e) = Repository) then
        let entry := join harness_path REPO_CLI_ENTRY_REL in
        if negb (is_dir harness_path) || negb (is_file entry) then Err UnsupportedSource
        else
          executable ← resolve_node np;
          loader ← loader_arg harness_path;
          Ok {| executable := executable;
                spec_args := [txt "--import"; loader; entry] ++ dsh_arguments e port_argument;
                spec_cwd := Some (default harness_path (non_empty (cwd (harness e))));
                spec_environment := dsh_home_environment e;
                expected_port := p |}
      else
        Ok {| executable := harness_path;
              spec_args := dsh_arguments e port_argument;
              spec_cwd := cwd (harness e);
              spec_environment := dsh_home_environment e;
              expected_port := p |}.
End Recipe.

(** ** Lemmas *)

Lemma validate_from_spec `{Fs} seen es ids :
  validate_from seen es = Ok ids ->
  Forall (fun e => is_valid e = true) es /\ NoDup (map id es) /\
  (forall x, x ∈ map id es -> x ∉ seen) /\
  (forall x, x ∈ ids <-> x ∈ seen \/ x ∈ map id es).
Proof.
  revert seen. induction es as [|e es IH]; intros seen; cbn.
  - intros [= ->]. split_and!; [constructor | constructor | by intros x ?%elem_of_nil |].
    intros x. split; [auto |]. intros [? | ?%elem_of_nil]; done.
  - case_bool_decide as Hin; [done |]. destruct (is_valid e) eqn:Hv; [| done]. cbn.
    intros (Hf & Hnd & Hnew & Hids)%IH. split_and!.
    + by constructor.
    + constructor; [| done]. intros Hx. apply (Hnew _ Hx). by left.
    + intros x [-> | Hx]%elem_of_cons; [done |]. intros Hs. apply (Hnew x Hx). by right.
    + intros x. rewrite Hids, !elem_of_cons. tauto.
Qed.

Lemma find_unique_id es e :
  NoDup (map id es) -> e ∈ es -> List.find (fun x => bool_decide (id x = id e)) es = Some e.
Proof.
  induction es as [|a es IH]; intros Hnd; [by intros ?%elem_of_nil |].
  apply NoDup_cons in Hnd as [Hna Hnd]. intros [-> | He]%elem_of_cons; cbn.
  - by rewrite bool_decide_eq_true_2.
  - case_bool_decide as Heq; [| by apply IH]. destruct Hna. rewrite Heq.
    apply list_elem_of_fmap. eauto.
Qed.

Lemma is_valid_parts `{Fs} e :
  is_valid e = true ->
  is_valid_id (id e) = true /\ host (endpoint e) = txt "127.0.0.1" /\
  is_valid_port (port (endpoint e)) = true /\
  Forall (fun a => is_reserved_argument a = false) (args (harness e)) /\
  (length (args (harness e)) <= 64)%nat.
Proof.
  unfold is_valid. rewrite !andb_true_iff, !negb_true_iff.
  intros ((((((((_ & Hid) & _) & _) & _) & Hhost) & Hport) & Hargs) & _).
  apply bool_decide_eq_true in Hhost. apply orb_false_iff in Hargs as [Hlen Hargs].
  apply Nat.ltb_ge in Hlen. rewrite existsb_not_elem in Hargs. split_and!; [done.. | | done].
  apply List.Forall_forall. intros a Ha. by apply Hargs, list_elem_of_In.
Qed.

(** A catalog that loads is usable: at most [MAX_ENVIRONMENTS] environments, all
    valid and under distinct ids, so that looking one up by its id finds it, and
    the active id, if any, names one of them. *)
Lemma loaded_catalog_sound `{Fs} x read from_slice c :
  load_catalog x read from_slice = Ok c ->
  (length (environments c) <= MAX_ENVIRONMENTS)%nat /\
  (forall e, e ∈ environments c -> is_valid e = true /\ catalog_environment c (id e) = Some e) /\
  (forall i, active_environment_id c = Some i -> is_Some (catalog_environment c i)).
Proof.
  intros Hl. assert (Hv : validate_catalog c = Ok tt).
  { unfold load_catalog in Hl. destruct x; [| by cbn in Hl; simplify_eq]. cbn in Hl.
    destruct read as [b|]; [| done]. cbn in Hl. destruct (from_slice b) as [c'|]; [| done].
    cbn in Hl. destruct (validate_catalog c') as [[]|] eqn:Hv; [| done]. by simplify_eq/=. }
  unfold validate_catalog in Hv. destruct (_ || _) eqn:Hg; [done |].
  apply orb_false_iff in Hg as [_ Hg%Nat.ltb_ge].
  destruct (validate_from [] (environments c)) as [ids|] eqn:Hf; [| done].
  apply validate_from_spec in Hf as (Hval & Hnd & _ & Hids).
  assert (Hfind : forall e, e ∈ environments c -> catalog_environment c (id e) = Some e).
  { intros e He. unfold catalog_environment. by apply find_unique_id. }
  split_and!; [done | |].
  - intros e He. split; [| by apply Hfind]. rewrite Forall_forall in Hval. by apply Hval.
  - intros i Hi. rewrite Hi in Hv. case_bool_decide as Hin; [| done].
    apply Hids in Hin as [?%elem_of_nil | Hin]; [done |]. apply list_elem_of_fmap in Hin as (e & -> & He).
    rewrite (Hfind e He). done.
Qed.

(** C34.  A launch recipe keeps the process on loopback: only managed
    environments get one, the supervisor's own host, port and no-open arguments
    are there with the configured unprivileged port (0 for an automatic one), and
    nothing the environment adds after them can name a reserved argument again. *)
Theorem recipe_stays_on_loopback `{Fs} e spec :
  build_launch_spec e = Ok spec ->
  is_managed e = true /\ expected_port spec = managed_expected_port e /\
  (forall p, expected_port spec = Some p -> (1024 <= p)%N) /\
  exists before,
    spec_args spec = before
      ++ [txt "--host"; txt "127.0.0.1"; txt "--port";
          txt (pretty (default 0%N (expected_port spec))); txt "--no-open"]
      ++ args (harness e) /\
    Forall (fun a => is_reserved_argument a = false) (args (harness e)).
Proof.
  unfold build_launch_spec. destruct (is_managed e) eqn:Hm; cbn [negb]; [| done].
  destruct (is_valid e) eqn:Hv; cbn [negb]; [| done].
  apply is_valid_parts in Hv as (_ & _ & Hport & Hargs & _).
  assert (Hp : forall p, managed_expected_port e = Some p -> (1024 <= p)%N).
  { unfold managed_expected_port, is_valid_port in *. destruct (port (endpoint e)); [done |].
    intros ? [= <-]. by apply N.leb_le. }
  destruct (_ && _); [done |]. destruct (match non_empty _ with Some _ => _ | None => _ end); [done |].
  case_bool_decide.
  - destruct (negb _ || negb _); [done |].
    destruct (resolve_node _) as [ex|]; cbn; [| done].
    destruct (loader_arg _) as [ld|]; cbn; [| done]. intros [= <-]. cbn. split_and!; [done | done | done |].
    exists ([txt "--import"; ld; join (path (harness e)) REPO_CLI_ENTRY_REL] ++
      (if bool_decide (profile e = txt "default") then [txt "web"] else [txt "--profile"; profile e])).
    split; [| done]. unfold dsh_arguments. by rewrite <- !app_assoc.
  - intros [= <-]. cbn. split_and!; [done | done | done |].
    exists (if bool_decide (profile e = txt "default") then [txt "web"] else [txt "--profile"; profile e]).
    split; [done | done].
Qed.
