(* ===== verification/Runtime.v ===== *)
(** * The managed runtime supervisor

    Model of [crates/managed-runtime/src/supervisor.rs].  The supervisor's state
    is behind one lock that every operation takes several times; each critical
    section is a definition, and an operation is the sequence of its sections
    with what happens in between.  The operating system is an argument: whether
    the retained child has exited when it is polled, what [unix_ms] reads,
    whether a spawn, a stop or a probe succeeds, what the child has printed.
    A retained process is the generation it was spawned for.  [url::Url] is a
    third-party type: [Url] holds what its accessors return. *)
From stdpp Require Import base strings list option pretty.
From Stdlib Require Import NArith ZArith Lia.
From S2P Require Import Prelude Environment.

(** ** Data *)

Definition SCHEMA_VERSION : N := 1.
Definition MAX_OUTPUT_LINE_BYTES : N := 2048.
Definition RECOVERY_BUDGET : N := 3.
Definition RECOVERY_WINDOW : N := 60000.
Definition START_TIMEOUT : N := 10000.
Definition STOP_TIMEOUT : N := 2000.
Definition ENDPOINT_RELEASE_TIMEOUT : N := 1000.
Definition MARKER_GRACE : N := 1500.

Inductive ManagedState := Stopped | Starting | Healthy | Stopping | Crashed | SafeStop.

#[export] Instance ManagedState_eq_dec : EqDecision ManagedState.
Proof. solve_decision. Defined.

Definition managed_state_as_str (s : ManagedState) : string :=
  match s with
  | Stopped => "stopped" | Starting => "starting" | Healthy => "healthy"
  | Stopping => "stopping" | Crashed => "crashed" | SafeStop => "safe_stop"
  end.

Inductive ProcessOwnership := NotOwned | Owned.
Inductive Readiness := NotStarted | Waiting | Verified | FailedReadiness.
Inductive StopDisposition := NotRequested | Graceful | Forced.

Record RecoveryState := {
  crash_count : N;
  window_start : N;
  last_crash_at : option N;
  safe_stop : bool
}.

Record ManagedEndpoint := {
  ep_scheme : string; ep_host : string; ep_port : N; ep_source : string; ep_verification : string
}.

(** What the accessors of [url::Url] return. *)
Record Url := {
  url_scheme : text;
  url_host : option text;
  url_username : text;
  url_password : option text;
  url_path : text;
  url_query : option text;
  url_fragment : option text;
  url_port : option N
}.

Record VerifiedSurfaceBinding := { b_generation : N; b_port : N; b_url : Url }.
Record ParsedCandidate := { c_endpoint : ManagedEndpoint; c_url : option Url }.
Record RuntimeEvidence := { ev_code : string; ev_severity : string; ev_message : string }.

Record Supervisor := {
  environment_id : option text;
  state : option ManagedState;
  generation : N;
  instance_id : option text;
  rt_endpoint : option ManagedEndpoint;
  bootstrap_url : option Url;
  stop_disposition : option StopDisposition;
  evidence : list RuntimeEvidence;
  process : option N;
  retained_spec : option LaunchSpec;
  auto_restart : bool;
  recovery : option RecoveryState
}.

(** [Supervisor::default()] *)
Definition default_supervisor : Supervisor :=
  {| environment_id := None; state := None; generation := 0; instance_id := None;
     rt_endpoint := None; bootstrap_url := None; stop_disposition := None; evidence := [];
     process := None; retained_spec := None; auto_restart := false; recovery := None |}.

Definition set_environment_id (x : option text) (s : Supervisor) : Supervisor :=
  {| environment_id := x; state := state s; generation := generation s; instance_id :=
     instance_id s; rt_endpoint := rt_endpoint s; bootstrap_url := bootstrap_url s;
     stop_disposition := stop_disposition s; evidence := evidence s; process := process s;
     retained_spec := retained_spec s; auto_restart := auto_restart s; recovery := recovery s |}.
Definition set_state (x : option ManagedState) (s : Supervisor) : Supervisor :=
  {| environment_id := environment_id s; state := x; generation := generation s; instance_id
     := instance_id s; rt_endpoint := rt_endpoint s; bootstrap_url := bootstrap_url s;
     stop_disposition := stop_disposition s; evidence := evidence s; process := process s;
     retained_spec := retained_spec s; auto_restart := auto_restart s; recovery := recovery s |}.
Definition set_generation (x : N) (s : Supervisor) : Supervisor :=
  {| environment_id := environment_id s; state := state s; generation := x; instance_id :=
     instance_id s; rt_endpoint := rt_endpoint s; bootstrap_url := bootstrap_url s;
     stop_disposition := stop_disposition s; evidence := evidence s; process := process s;
     retained_spec := retained_spec s; auto_restart := auto_restart s; recovery := recovery s |}.
Definition set_instance_id (x : option text) (s : Supervisor) : Supervisor :=
  {| environment_id := environment_id s; state := state s; generation := generation s;
     instance_id := x; rt_endpoint := rt_endpoint s; bootstrap_url := bootstrap_url s;
     stop_disposition := stop_disposition s; evidence := evidence s; process := process s;
     retained_spec := retained_spec s; auto_restart := auto_restart s; recovery := recovery s |}.
Definition set_rt_endpoint (x : option ManagedEndpoint) (s : Supervisor) : Supervisor :=
  {| environment_id := environment_id s; state := state s; generation := generation s;
     instance_id := instance_id s; rt_endpoint := x; bootstrap_url := bootstrap_url s;
     stop_disposition := stop_disposition s; evidence := evidence s; process := process s;
     retained_spec := retained_spec s; auto_restart := auto_restart s; recovery := recovery s |}.
Definition set_bootstrap_url (x : option Url) (s : Supervisor) : Supervisor :=
  {| environment_id := environment_id s; state := state s; generation := generation s;
     instance_id := instance_id s; rt_endpoint := rt_endpoint s; bootstrap_url := x;
     stop_disposition := stop_disposition s; evidence := evidence s; process := process s;
     retained_spec := retained_spec s; auto_restart := auto_restart s; recovery := recovery s |}.
Definition set_stop_disposition (x : option StopDisposition) (s : Supervisor) : Supervisor :=
  {| environment_id := environment_id s; state := state s; generation := generation s;
     instance_id := instance_id s; rt_endpoint := rt_endpoint s; bootstrap_url :=
     bootstrap_url s; stop_disposition := x; evidence := evidence s; process := process s;
     retained_spec := retained_spec s; auto_restart := auto_restart s; recovery := recovery s |}.
Definition set_evidence (x : list RuntimeEvidence) (s : Supervisor) : Supervisor :=
  {| environment_id := environment_id s; state := state s; generation := generation s;
     instance_id := instance_id s; rt_endpoint := rt_endpoint s; bootstrap_url :=
     bootstrap_url s; stop_disposition := stop_disposition s; evidence := x; process :=
     process s; retained_spec := retained_spec s; auto_restart := auto_restart s; recovery :=
     recovery s |}.
Definition set_process (x : option N) (s : Supervisor) : Supervisor :=
  {| environment_id := environment_id s; state := state s; generation := generation s;
     instance_id := instance_id s; rt_endpoint := rt_endpoint s; bootstrap_url :=
     bootstrap_url s; stop_disposition := stop_disposition s; evidence := evidence s; process
     := x; retained_spec := retained_spec s; auto_restart := auto_restart s; recovery :=
     recovery s |}.
Definition set_retained_spec (x : option LaunchSpec) (s : Supervisor) : Supervisor :=
  {| environment_id := environment_id s; state := state s; generation := generation s;
     instance_id := instance_id s; rt_endpoint := rt_endpoint s; bootstrap_url :=
     bootstrap_url s; stop_disposition := stop_disposition s; evidence := evidence s; process
     := process s; retained_spec := x; auto_restart := auto_restart s; recovery := recovery s |}.
Definition set_auto_restart (x : bool) (s : Supervisor) : Supervisor :=
  {| environment_id := environment_id s; state := state s; generation := generation s;
     instance_id := instance_id s; rt_endpoint := rt_endpoint s; bootstrap_url :=
     bootstrap_url s; stop_disposition := stop_disposition s; evidence := evidence s; process
     := process s; retained_spec := retained_spec s; auto_restart := x; recovery := recovery
     s |}.
Definition set_recovery (x : option RecoveryState) (s : Supervisor) : Supervisor :=
  {| environment_id := environment_id s; state := state s; generation := generation s;
     instance_id := instance_id s; rt_endpoint := rt_endpoint s; bootstrap_url :=
     bootstrap_url s; stop_disposition := stop_disposition s; evidence := evidence s; process
     := process s; retained_spec := retained_spec s; auto_restart := auto_restart s; recovery
     := x |}.

Definition ev (c sev msg : string) : list RuntimeEvidence :=
  [{| ev_code := c; ev_severity := sev; ev_message := msg |}].

Record RecoveryReport := {
  rr_crash_count : N; rr_window_start : N; rr_budget : N; rr_safe_stop : bool;
  rr_last_crash_at : option N
}.

Record ManagedRuntimeReport := {
  rep_schema_version : N;
  rep_environment_id : text;
  rep_ownership : string;
  rep_state : ManagedState;
  rep_generation : N;
  rep_instance_id : option text;
  rep_process_ownership : ProcessOwnership;
  rep_lifecycle_mutation : string;
  rep_readiness : Readiness;
  rep_endpoint : option ManagedEndpoint;
  rep_stop_disposition : StopDisposition;
  rep_recovery : option RecoveryReport;
  rep_observed_at : N;
  rep_evidence : list RuntimeEvidence
}.

(** ** Crash accounting *)

(** [Supervisor::record_crash]; [now] is [unix_ms().unwrap_or(0)]. *)
Definition record_crash (now : N) (s : Supervisor) : Supervisor :=
  let r := default {| crash_count := 0; window_start := now; last_crash_at := None;
                      safe_stop := false |} (recovery s) in
  let r := if (RECOVERY_WINDOW <? u64_saturating_sub now (window_start r))%N
           then {| crash_count := 0; window_start := now; last_crash_at := last_crash_at r;
                   safe_stop := false |}
           else r in
  let n := u64_add (crash_count r) 1 in
  set_recovery
    (Some {| crash_count := n; window_start := window_start r; last_crash_at := Some now;
             safe_stop := if (RECOVERY_BUDGET <=? n)%N then true else safe_stop r |}) s.

(** Whether the latch is set. *)
Definition is_safe_stop (s : Supervisor) : bool :=
  match recovery s with Some r => safe_stop r | None => false end.

Definition SAFE_STOP_MESSAGE : string :=
  "Recovery budget exhausted; the Managed generation entered Safe Stop without auto-restart.".

(** What [refresh_exit] and [fail_start] share: the generation has crashed. *)
Definition crashed (code message : string) (s : Supervisor) : Supervisor :=
  set_state (Some (if is_safe_stop s then SafeStop else Crashed))
    (set_rt_endpoint None (set_bootstrap_url None (set_stop_disposition (Some NotRequested)
      (set_evidence (if is_safe_stop s then ev "MANAGED_SAFE_STOP" "error" SAFE_STOP_MESSAGE
                     else ev code "error" message) s)))).

(** [Supervisor::refresh_exit]; [exited] is what polling the child says. *)
Definition refresh_exit (exited : bool) (now : N) (s : Supervisor) : Supervisor :=
  if bool_decide (is_Some (process s)) && exited then
    crashed "MANAGED_PROCESS_EXITED"
      "The retained Managed process exited before an explicit stop completed."
      (set_process None (record_crash now s))
  else s.

(** [Supervisor::auto_restart_eligible] *)
Definition auto_restart_eligible (s : Supervisor) : bool :=
  bool_decide (state s = Some Crashed) && auto_restart s &&
  match recovery s with Some r => negb (safe_stop r) | None => false end &&
  bool_decide (is_Some (retained_spec s)).

(** [ManagedRuntimeState::has_live_generation] *)
Definition has_live_generation (s : Supervisor) : bool := bool_decide (is_Some (process s)).

(** [Supervisor::report]; [clock] is [unix_ms()]. *)
Definition report (env : text) (clock : option N) (s : Supervisor) :
    result ManagedRuntimeError ManagedRuntimeReport :=
  let st := default Stopped (state s) in
  now ← ok_or ClockUnavailable clock;
  Ok {| rep_schema_version := SCHEMA_VERSION;
        rep_environment_id := env;
        rep_ownership := "managed";
        rep_state := st;
        rep_generation := generation s;
        rep_instance_id := match st with Stopped | SafeStop => None | _ => instance_id s end;
        rep_process_ownership := if bool_decide (is_Some (process s)) then Owned else NotOwned;
        rep_lifecycle_mutation := "allowed";
        rep_readiness := match st with
                         | Stopped => NotStarted
                         | Starting | Stopping => Waiting
                         | Healthy => Verified
                         | Crashed | SafeStop => FailedReadiness
                         end;
        rep_endpoint := rt_endpoint s;
        rep_stop_disposition := default NotRequested (stop_disposition s);
        rep_recovery := (fun r => {| rr_crash_count := crash_count r;
                                     rr_window_start := window_start r;
                                     rr_budget := RECOVERY_BUDGET; rr_safe_stop := safe_stop r;
                                     rr_last_crash_at := last_crash_at r |}) <$> recovery s;
        rep_observed_at := now;
        rep_evidence :=
          match evidence s with
          | [] =>
              match st with
              | Stopped => ev "MANAGED_STOPPED" "info" "No Managed process tree is currently retained."
              | Starting => ev "MANAGED_STARTING" "info"
                  "The current Managed generation is waiting for verified readiness."
              | Healthy => ev "MANAGED_ENDPOINT_VERIFIED" "info"
                  "The current Managed endpoint passed publication gates."
              | Stopping => ev "MANAGED_STOPPING" "info" "The retained Managed process tree is stopping."
              | Crashed => ev "MANAGED_PROCESS_EXITED" "error"
                  "The current Managed generation is not running."
              | SafeStop => ev "MANAGED_SAFE_STOP" "error"
                  "Recovery budget exhausted; the Managed generation entered Safe Stop."
              end
          | e => e
          end |}.

(** ** Endpoint candidates *)

(** [remainder.find(['/', '?', '#'])] *)
Fixpoint up_to_delimiter (s : text) : text :=
  match s with
  | [] => []
  | c :: s => if ((c =? 47) || (c =? 63) || (c =? 35))%N then [] else c :: up_to_delimiter s
  end.

(** [raw_authority] *)
Definition raw_authority (candidate : text) : option text :=
  '(_, remainder) ← split_at_first (txt "://") candidate; Some (up_to_delimiter remainder).

Definition is_token_byte (b : N) : bool :=
  (is_ascii_lowercase b || ((65 <=? b) && (b <=? 90)) || is_ascii_digit b || (b =? 95) || (b =? 45))%N.

(** [query.strip_prefix("token=")] *)
Definition strip_token (q : text) : option text :=
  if starts_with (txt "token=") q then Some (drop 6 q) else None.

Definition query_ok (u : Url) : bool :=
  match url_query u with
  | None => true
  | Some q => match strip_token q with
              | Some t => (length t =? 43)%nat && forallb is_token_byte t
              | None => false
              end
  end.

(** [fixed_port_candidate] *)
Definition fixed_port_candidate (p : N) : ParsedCandidate :=
  {| c_endpoint := {| ep_scheme := "http"; ep_host := "127.0.0.1"; ep_port := p; ep_source := "managed_config";
                      ep_verification := "owned_generation_tcp" |};
     c_url := None |}.

Section Supervised.
(** [Url::parse] and the file system of the launch recipe. *)
Context (url_parse : text -> option Url) `{Fs}.

(** [parse_candidate] *)
Definition parse_candidate (candidate : text) (expected : option N) :
    result ManagedRuntimeError ParsedCandidate :=
  if bool_decide (candidate = []) || (MAX_OUTPUT_LINE_BYTES <? utf8_len candidate)%N
  then Err CandidateInvalid
  else
    match url_parse candidate with
    | None => Err CandidateInvalid
    | Some u =>
        if negb (bool_decide (url_scheme u = txt "http"))
           || negb (bool_decide (url_host u = Some (txt "127.0.0.1")))
           || negb (bool_decide (url_username u = []))
           || bool_decide (is_Some (url_password u))
           || negb (bool_decide (url_path u = txt "/"))
           || bool_decide (is_Some (url_fragment u))
        then Err CandidateInvalid
        else if negb (query_ok u) then Err CandidateInvalid
        else
          match url_port u with
          | None => Err CandidateInvalid
          | Some p =>
              if (p <? 1024)%N
                 || negb (bool_decide (raw_authority candidate
                                       = Some (txt "127.0.0.1:" ++ txt (pretty p))))
              then Err CandidateInvalid
              else if match expected with Some e => negb (e =? p)%N | None => false end
              then Err CandidatePortMismatch
              else Ok {| c_endpoint := {| ep_scheme := "http"; ep_host := "127.0.0.1"; ep_port := p;
                                          ep_source := "managed_process_output";
                                          ep_verification := "owned_generation_output_and_tcp" |};
                         c_url := Some u |}
          end
    end.

(** ** Critical sections

    [exited] and [now] are what [refresh_exit] observes on entry; [clock] is
    what [unix_ms] returns to [report].  A section answers the caller
    ([inl]) or lets the operation go on ([inr]). *)

Abbreviation Answer := (result ManagedRuntimeError ManagedRuntimeReport).
Abbreviation Section_ A := (Supervisor -> (Answer + A) * Supervisor).

Definition other_environment (env : text) (s : Supervisor) : bool :=
  match environment_id s with Some i => negb (bool_decide (i = env)) | None => false end.

(** The first block of [start_managed_environment]. *)
Definition start_section (env : text) (spec : LaunchSpec) (auto : bool)
    (exited : bool) (now : N) (clock : option N) : Section_ unit := fun s =>
  let s := refresh_exit exited now s in
  if bool_decide (is_Some (process s)) then
    if bool_decide (environment_id s = Some env) then (inl (report env clock s), s)
    else (inl (Err Conflict), s)
  else
    (inr tt, set_recovery None (set_retained_spec (Some spec) (set_auto_restart auto s))).

(** The first block of [start_with_spec]; [spawned] is how
    [ManagedProcess::spawn] ends. *)
Definition spawn_section (env : text) (exited : bool) (now : N) (clock : option N)
    (spawned : result ManagedRuntimeError unit) : Section_ N := fun s =>
  let s := refresh_exit exited now s in
  if bool_decide (is_Some (process s)) then
    if bool_decide (environment_id s = Some env) then (inl (report env clock s), s)
    else (inl (Err Conflict), s)
  else
    match u64_checked_add (generation s) 1 with
    | None => (inl (Err StateUnavailable), s)
    | Some next =>
        match clock with
        | None => (inl (Err ClockUnavailable), s)
        | Some launched_at =>
            match spawned with
            | Err e => (inl (Err e), s)
            | Ok tt =>
                (inr next,
                 set_environment_id (Some env) (set_state (Some Starting) (set_generation next
                   (set_instance_id
                      (Some (txt ("managed-" +:+ pretty next +:+ "-" +:+ pretty launched_at)))
                   (set_rt_endpoint None (set_bootstrap_url None
                   (set_stop_disposition (Some NotRequested)
                   (set_evidence (ev "MANAGED_PROCESS_SPAWNED" "info"
                      "A new Managed generation was created with a retained process-tree handle.")
                   (set_process (Some next) s)))))))))
            end
        end
    end.

(** [generation_is_alive] *)
Definition alive_section (env : text) (g : N) (exited : bool) (now : N) (s : Supervisor) :
    bool * Supervisor :=
  let s := refresh_exit exited now s in
  (bool_decide (environment_id s = Some env) && (generation s =? g)%N
   && bool_decide (is_Some (process s)), s).

(** The last block of [start_with_spec]: publication. *)
Definition publish_section (env : text) (g : N) (c : ParsedCandidate)
    (exited : bool) (now : N) (clock : option N) (s : Supervisor) : Answer * Supervisor :=
  let s := refresh_exit exited now s in
  if negb (bool_decide (environment_id s = Some env)) || negb (generation s =? g)%N
     || bool_decide (process s = None)
  then (Err StaleGeneration, s)
  else
    let s := set_state (Some Healthy) (set_rt_endpoint (Some (c_endpoint c))
               (set_bootstrap_url (c_url c)
               (set_evidence
                  (match c_url c with
                   | Some _ => ev "MANAGED_ENDPOINT_VERIFIED" "info"
                       "The owned generation emitted an exact loopback endpoint and accepted a bounded TCP connection."
                   | None => ev "MANAGED_ENDPOINT_TCP_VERIFIED" "info"
                       "The owned generation answered the bounded HTTP probe on the configured loopback endpoint (no token-bearing marker)."
                   end) s))) in
    (report env clock s, s).

(** [fail_start]: the process it takes out and stops, and its answer. *)
Definition fail_section (env : text) (g : N) (e : ManagedRuntimeError) (now : N) (s : Supervisor) :
    ManagedRuntimeError * option N * Supervisor :=
  if negb (bool_decide (environment_id s = Some env)) || negb (generation s =? g)%N
  then (StaleGeneration, None, s)
  else
    let s := if bool_decide (is_Some (process s)) then record_crash now s else s in
    let p := process s in
    (e, p,
     set_process None
       (crashed "MANAGED_READINESS_FAILED"
          "The Managed generation failed before endpoint publication and was cleaned up." s)).

(** The first block of [get_managed_runtime_status] and of
    [verified_surface_binding]: the recipe to restart from, if any. *)
Definition recover_section (env : text) (exited : bool) (now : N) (s : Supervisor) :
    result ManagedRuntimeError (option LaunchSpec) * Supervisor :=
  let s := refresh_exit exited now s in
  if other_environment env s then (Err Conflict, s)
  else (Ok (if auto_restart_eligible s then retained_spec s else None), s).

(** The last block of [verified_surface_binding]. *)
Definition binding_section (env : text) (expected : N) (exited : bool) (now : N) (s : Supervisor) :
    result ManagedRuntimeError VerifiedSurfaceBinding * Supervisor :=
  let s := refresh_exit exited now s in
  (if negb (generation s =? expected)%N then Err StaleGeneration
   else if negb (bool_decide (environment_id s = Some env))
           || negb (bool_decide (state s = Some Healthy)) || bool_decide (process s = None)
   then Err SurfaceBindingUnavailable
   else
     e ← ok_or SurfaceBindingUnavailable (rt_endpoint s);
     u ← ok_or SurfaceBindingUnavailable (bootstrap_url s);
     Ok {| b_generation := generation s; b_port := ep_port e; b_url := u |}, s).

(** The first block of [stop_managed_environment]: the process and the
    endpoint it takes out. *)
Definition stop_section (env : text) (expected : N) (exited : bool) (now : N) (clock : option N) :
    Section_ (N * option ManagedEndpoint) := fun s =>
  let s := refresh_exit exited now s in
  if other_environment env s then (inl (Err Conflict), s)
  else if (expected =? 0)%N || negb (expected =? generation s)%N then (inl (Err StaleGeneration), s)
  else
    match process s with
    | None =>
        let s := set_state (Some Stopped) (set_instance_id None (set_rt_endpoint None
                   (set_bootstrap_url None (set_stop_disposition (Some NotRequested)
                   (set_recovery None
                   (set_evidence (ev "MANAGED_ALREADY_STOPPED" "info"
                      "The requested Managed generation has no retained process tree.") s)))))) in
        (inl (report env clock s), s)
    | Some p =>
        let e := rt_endpoint s in
        (inr (p, e),
         set_state (Some Stopping) (set_bootstrap_url None
           (set_evidence (ev "MANAGED_STOPPING" "info" "The retained Managed process tree is stopping.")
           (set_process None (set_rt_endpoint None s)))))
    end.

(** The block after a failed [process.stop()]. *)
Definition stop_failed_section (env : text) (expected : N) (s : Supervisor) : Supervisor :=
  if (generation s =? expected)%N && bool_decide (environment_id s = Some env) then
    set_state (Some Crashed) (set_rt_endpoint None (set_bootstrap_url None
      (set_stop_disposition (Some NotRequested)
      (set_evidence (ev "MANAGED_STOP_FAILED" "error"
         "The retained process-tree stop did not complete cleanly.") s))))
  else s.

(** The last block of [stop_managed_environment]. *)
Definition stopped_section (env : text) (expected : N) (d : StopDisposition) (released : bool)
    (clock : option N) (s : Supervisor) : Answer * Supervisor :=
  if negb (generation s =? expected)%N || negb (bool_decide (environment_id s = Some env))
  then (Err StaleGeneration, s)
  else
    let s := set_state (Some Stopped) (set_instance_id None (set_rt_endpoint None
               (set_bootstrap_url None (set_stop_disposition (Some d) (set_recovery None
               (set_evidence (ev "MANAGED_PROCESS_TREE_STOPPED" "info"
                  "The retained Managed process tree stopped and its endpoint was checked.") s)))))) in
    (match report env clock s with
     | Err e => Err e
     | Ok r => if released then Ok r else Err EndpointStillReachable
     end, s).

(** The first block of [restart_managed_environment]. *)
Definition restart_section (env : text) (expected : N) (exited : bool) (now : N) :
    Section_ (option N * option ManagedEndpoint * option LaunchSpec) := fun s =>
  let s := refresh_exit exited now s in
  if other_environment env s then (inl (Err Conflict), s)
  else if (expected =? 0)%N || negb (expected =? generation s)%N then (inl (Err StaleGeneration), s)
  else
    (inr (process s, rt_endpoint s, retained_spec s),
     set_process None (set_rt_endpoint None (set_state (Some Stopping) (set_bootstrap_url None
       (set_recovery None
       (set_evidence (ev "MANAGED_RESTARTING" "info"
          "The exact current generation is stopping before a new generation starts.") s)))))).
End Supervised.
