(* ===== verification/RuntimeOps.v ===== *)
(** * The supervisor's operations as threads

    Model of the operations of [crates/managed-runtime/src/supervisor.rs] as the
    sequence of critical sections each one runs.  A [Call] is where a caller's
    thread is in its operation; [call_step] runs it up to and including its next
    critical section or to the next round of the loop it is in, under one
    observation of the operating system.  Stopping a process and waiting for its
    endpoint are loops like the readiness ones, with the deadlines the source
    gives them; the wait for a dropped child has none and is over when the
    observation says so.  A critical section is one step: the lock is granted and
    not poisoned, [ManagedProcess::spawn] returns, and so does the drop in
    [refresh_exit].  Any number of calls run interleaved over the one
    supervisor ([pool_step]); [run] executes one call alone. *)
From stdpp Require Import base strings list option pretty relations.
From Stdlib Require Import NArith ZArith Lia.
From S2P Require Import Prelude Environment Runtime.

(** What [try_wait] says of the child of a process that is being stopped. *)
Inductive Tried := TExited | TRunning | TError.

(** What one step of a call observes outside the supervisor's lock.  Every
    [Instant::now()] of a step is [o_instant], in milliseconds. *)
Record Obs := {
  o_exited : bool;                        (* [refresh_exit] finds the retained child gone *)
  o_now : N;                              (* [unix_ms().unwrap_or(0)] *)
  o_clock : option N;                     (* [unix_ms()] *)
  o_instant : N;                          (* [Instant::now()] *)
  o_spawned : result ManagedRuntimeError unit;  (* [ManagedProcess::spawn] *)
  o_marker : option text;                 (* [receiver.try_recv()] *)
  o_probe : bool;                         (* [http_status_line_probe] *)
  o_child : Tried;                        (* [try_wait] of the child being stopped *)
  o_signalled : bool;                     (* the tree took the signal of this step *)
  o_reaped : bool;                        (* [child.wait()] has returned *)
  o_accepts : bool                        (* the endpoint still takes connections *)
}.

(** Where [start_with_spec] is between its first and its last block: at the head
    of the outer loop, in the fixed-port polling loop, in the marker grace (with
    its end), or in the HTTP confirmation loop. *)
Inductive WaitMode :=
| WHead (port : option N)
| WPoll (port : N)
| WGrace (port grace : N)
| WConfirm (c : ParsedCandidate).

(** Where [ManagedProcess::stop] is, the drop at its end included: before its
    [try_wait], in [wait_for_exit] after SIGTERM, before [force_stop], in
    [wait_for_exit] after it, at [Drop::drop], and in the [child.wait()] of that
    drop, which has no deadline. *)
Inductive Halt :=
| HStop
| HTerm (deadline : N)
| HForce
| HKill (deadline : N)
| HDrop
| HReap.

(** What a caller of [start_with_spec] does with its result: return it, or
    ignore it and look the binding up ([verified_surface_binding]). *)
Inductive Cont := KReturn | KBinding (expected : N).

(** [d] is the readiness deadline of [start_with_spec]; [rd] the deadline of one
    [endpoint_is_released]; a restart that found its endpoint still bound has a
    deadline of its own as well ([CVacating]). *)
Inductive Call :=
| CStart (e : ManagedEnvironment)
| CStatus (e : ManagedEnvironment)
| CBinding (e : ManagedEnvironment) (expected : N)
| CStop (e : ManagedEnvironment) (expected : N)
| CRestart (e : ManagedEnvironment) (expected : N)
| CSpawn (env : text) (spec : LaunchSpec) (timeout : N) (k : Cont)
| CWait (env : text) (g : N) (w : WaitMode) (d : N) (k : Cont)
| CPublish (env : text) (g : N) (c : ParsedCandidate) (k : Cont)
| CFail (env : text) (g : N) (e : ManagedRuntimeError) (own : bool) (k : Cont)
| CFailed (env : text) (p : N) (h : Halt) (e : ManagedRuntimeError) (k : Cont)
| CReport (env : text)
| CLookup (env : text) (expected : N)
| CStopping (env : text) (expected p : N) (h : Halt) (ep : option ManagedEndpoint)
| CReleasing (env : text) (expected : N) (d : StopDisposition) (rd : N)
| CStopFailed (env : text) (expected : N)
| CStopped (env : text) (expected : N) (d : StopDisposition) (released : bool)
| CDropping (p : N) (h : Halt) (e : ManagedRuntimeError)
| CRestarting (env : text) (p : N) (h : Halt) (ep : option ManagedEndpoint) (spec : LaunchSpec)
| CVacating (env : text) (rd : N) (again : option N) (spec : LaunchSpec)
| CDone (a : result ManagedRuntimeError ManagedRuntimeReport)
| CBound (b : result ManagedRuntimeError VerifiedSurfaceBinding).

(** What the caller of [start_with_spec] goes on with once it has returned [a]. *)
Definition return_to (env : text) (k : Cont)
    (a : result ManagedRuntimeError ManagedRuntimeReport) : Call :=
  match k with KReturn => CDone a | KBinding expected => CLookup env expected end.

Section Operations.
Context (url_parse : text -> option Url) `{Fs}.

(** One iteration of the waiting loops of [start_with_spec], from one check
    that the generation is alive to the next: the next mode, a candidate to
    publish, or the error to fail with.  With an automatic port the error of
    [parse_candidate] is the answer whatever [fail_start] says ([true]). *)
Inductive Waited :=
| WMore (w : WaitMode)
| WPublish (c : ParsedCandidate)
| WFail (e : ManagedRuntimeError) (own : bool).

(** [receiver.try_recv()] followed by [parse_candidate(..).ok()] *)
Definition marker_candidate (o : Obs) (port : N) : option ParsedCandidate :=
  m ← o_marker o;
  match parse_candidate url_parse m (Some port) with Ok c => Some c | Err _ => None end.

Definition wait_step (env : text) (g : N) (w : WaitMode) (d : N) (o : Obs) (s : Supervisor) :
    Waited * Supervisor :=
  let '(alive, s') := alive_section env g (o_exited o) (o_now o) s in
  let late := (d <=? o_instant o)%N in
  let grace p := WGrace p (o_instant o + MARKER_GRACE) in
  match w with
  | WHead port =>
      (if negb alive then WFail ProcessExited false
       else match port with
            | Some p => WMore (WPoll p)
            | None =>
                match o_marker o with
                | Some m =>
                    match parse_candidate url_parse m None with
                    | Ok c => WMore (WConfirm c)
                    | Err e => WFail e true
                    end
                | None => if late then WFail ReadinessTimeout false else WMore (WHead None)
                end
            end, s')
  | WPoll p =>
      match o_marker o with
      | Some _ =>
          (match marker_candidate o p with
           | Some c => WMore (WConfirm c)
           | None => WMore (grace p)
           end, s)
      | None =>
          (if negb alive then WFail ProcessExited false
           else if o_probe o then WMore (grace p)
           else if late then WFail ReadinessTimeout false
           else WMore (WPoll p), s')
      end
  | WGrace p until =>
      if (until <=? o_instant o)%N then (WMore (WConfirm (fixed_port_candidate p)), s)
      else
        match marker_candidate o p with
        | Some c => (WMore (WConfirm c), s)
        | None => (if negb alive then WFail ProcessExited false else WMore (WGrace p until), s')
        end
  | WConfirm c =>
      (if negb alive then WFail ProcessExited false
       else if o_probe o then WPublish c
       else if late then WFail ReadinessTimeout false
       else WMore (WConfirm c), s')
  end.

(** [environment.policy().and_then(|p| p.auto_restart_on_crash()).unwrap_or(false)] *)
Definition policy_auto_restart (e : ManagedEnvironment) : bool :=
  default false (p ← policy e; auto_restart_on_crash p).

(** *** The operations, up to the end of their first block *)

(** [start_managed_environment] *)
Definition start_step (o : Obs) (e : ManagedEnvironment) (s : Supervisor) : Call * Supervisor :=
  match build_launch_spec e with
  | Err x => (CDone (Err x), s)
  | Ok spec =>
      match start_section (id e) spec (policy_auto_restart e)
              (o_exited o) (o_now o) (o_clock o) s with
      | (inl a, s) => (CDone a, s)
      | (inr _, s) => (CSpawn (id e) spec START_TIMEOUT KReturn, s)
      end
  end.

(** [get_managed_runtime_status] *)
Definition status_step (o : Obs) (e : ManagedEnvironment) (s : Supervisor) : Call * Supervisor :=
  if negb (is_managed e) then (CDone (Err NotManaged), s)
  else
    match recover_section (id e) (o_exited o) (o_now o) s with
    | (Err x, s) => (CDone (Err x), s)
    | (Ok (Some spec), s) => (CSpawn (id e) spec START_TIMEOUT KReturn, s)
    | (Ok None, s) => (CReport (id e), s)
    end.

(** [verified_surface_binding] *)
Definition binding_step (o : Obs) (e : ManagedEnvironment) (expected : N) (s : Supervisor) :
    Call * Supervisor :=
  if negb (is_managed e) then (CBound (Err NotManaged), s)
  else if (expected =? 0)%N then (CBound (Err StaleGeneration), s)
  else
    match recover_section (id e) (o_exited o) (o_now o) s with
    | (Err x, s) => (CBound (Err x), s)
    | (Ok (Some spec), s) => (CSpawn (id e) spec START_TIMEOUT (KBinding expected), s)
    | (Ok None, s) => (CLookup (id e) expected, s)
    end.

(** [stop_managed_environment] *)
Definition stop_step (o : Obs) (e : ManagedEnvironment) (expected : N) (s : Supervisor) :
    Call * Supervisor :=
  if negb (is_managed e) then (CDone (Err NotManaged), s)
  else
    match stop_section (id e) expected (o_exited o) (o_now o) (o_clock o) s with
    | (inl a, s) => (CDone a, s)
    | (inr (p, ep), s) => (CStopping (id e) expected p HStop ep, s)
    end.

(** [restart_managed_environment] *)
Definition restart_step (o : Obs) (e : ManagedEnvironment) (expected : N) (s : Supervisor) :
    Call * Supervisor :=
  if negb (is_managed e) then (CDone (Err NotManaged), s)
  else
    match restart_section (id e) expected (o_exited o) (o_now o) s with
    | (inl a, s) => (CDone a, s)
    | (inr (p, ep, retained), s) =>
        (match match retained with Some spec => Ok spec | None => build_launch_spec e end, p with
         | Err x, Some p => CDropping p HDrop x
         | Err x, None => CDone (Err x)
         | Ok spec, Some p => CRestarting (id e) p HStop ep spec
         | Ok spec, None => CSpawn (id e) spec START_TIMEOUT KReturn
         end, s)
    end.

(** [start_with_spec]: its first block, *)
Definition spawn_step (o : Obs) (env : text) (spec : LaunchSpec) (timeout : N) (k : Cont)
    (s : Supervisor) : Call * Supervisor :=
  match spawn_section env (o_exited o) (o_now o) (o_clock o) (o_spawned o) s with
  | (inl a, s) => (return_to env k a, s)
  | (inr g, s) => (CWait env g (WHead (expected_port spec)) (o_instant o + timeout) k, s)
  end.

(** its loops, *)
Definition waiting_step (o : Obs) (env : text) (g : N) (w : WaitMode) (d : N) (k : Cont)
    (s : Supervisor) : Call * Supervisor :=
  match wait_step env g w d o s with
  | (WMore w, s) => (CWait env g w d k, s)
  | (WPublish c, s) => (CPublish env g c k, s)
  | (WFail x own, s) => (CFail env g x own k, s)
  end.

(** and [fail_start], up to [process.stop()]. *)
Definition fail_step (o : Obs) (env : text) (g : N) (x : ManagedRuntimeError) (own : bool) (k : Cont)
    (s : Supervisor) : Call * Supervisor :=
  let '(y, p, s) := fail_section env g x (o_now o) s in
  let x := if own then x else y in
  (match p with Some p => CFailed env p HStop x k | None => return_to env k (Err x) end, s).

(** *** Stopping a process *)

(** A round of [ManagedProcess::stop] and of the drop at its end: where it goes
    on, or its result ([None]: an error).  [wait_for_exit] polls until its
    deadline; a child it has seen exit needs no further wait. *)
Definition halt_step (o : Obs) (h : Halt) : Halt + option StopDisposition :=
  match h with
  | HStop =>
      match o_child o with
      | TExited => inr (Some Graceful)
      | TError => inl HDrop
      | TRunning =>
          if negb on_windows && o_signalled o then inl (HTerm (o_instant o + STOP_TIMEOUT))
          else inl HForce
      end
  | HTerm deadline =>
      match o_child o with
      | TExited => inr (Some Graceful)
      | TError => inl HForce
      | TRunning => inl (if (deadline <=? o_instant o)%N then HForce else h)
      end
  | HForce => inl (if o_signalled o then HKill (o_instant o + STOP_TIMEOUT) else HDrop)
  | HKill deadline =>
      match o_child o with
      | TExited => inr (Some Forced)
      | TError => inl HDrop
      | TRunning => inl (if (deadline <=? o_instant o)%N then HDrop else h)
      end
  | HDrop => match o_child o with TExited => inr None | _ => inl HReap end
  | HReap => if o_reaped o then inr None else inl HReap
  end.

(** A round of [endpoint_is_released]. *)
Definition release_step (o : Obs) (rd : N) : option bool :=
  if negb (o_accepts o) then Some true
  else if (rd <=? o_instant o)%N then Some false else None.

Definition release_deadline (o : Obs) : N := (o_instant o + ENDPOINT_RELEASE_TIMEOUT)%N.

(** [process.stop()] in [stop_managed_environment], *)
Definition stopping_step (o : Obs) (env : text) (expected p : N) (h : Halt)
    (ep : option ManagedEndpoint) : Call :=
  match halt_step o h with
  | inl h => CStopping env expected p h ep
  | inr None => CStopFailed env expected
  | inr (Some d) =>
      match ep with
      | Some _ => CReleasing env expected d (release_deadline o)
      | None => CStopped env expected d true
      end
  end.

(** and the check of its endpoint; *)
Definition releasing_step (o : Obs) (env : text) (expected : N) (d : StopDisposition) (rd : N) : Call :=
  match release_step o rd with
  | Some released => CStopped env expected d released
  | None => CReleasing env expected d rd
  end.

(** [process.stop()] in [restart_managed_environment], whose result it ignores, *)
Definition restarting_step (o : Obs) (env : text) (p : N) (h : Halt) (ep : option ManagedEndpoint)
    (spec : LaunchSpec) : Call :=
  match halt_step o h with
  | inl h => CRestarting env p h ep spec
  | inr _ =>
      match ep with
      | Some _ => CVacating env (release_deadline o) None spec
      | None => CSpawn env spec START_TIMEOUT KReturn
      end
  end.

(** and its wait for the endpoint: once, then again and again up to a deadline
    ([again]) that it looks at only between two checks. *)
Definition vacating_step (o : Obs) (env : text) (rd : N) (again : option N) (spec : LaunchSpec) : Call :=
  let start := CSpawn env spec START_TIMEOUT KReturn in
  match release_step o rd, again with
  | None, _ => CVacating env rd again spec
  | Some true, _ => start
  | Some false, None => CVacating env (release_deadline o) (Some (release_deadline o)) spec
  | Some false, Some deadline =>
      if (deadline <=? o_instant o)%N then start
      else CVacating env (release_deadline o) again spec
  end.

Definition call_step (o : Obs) (c : Call) (s : Supervisor) : Call * Supervisor :=
  match c with
  | CStart e => start_step o e s
  | CStatus e => status_step o e s
  | CReport env => (CDone (report env (o_clock o) s), s)
  | CBinding e expected => binding_step o e expected s
  | CLookup env expected =>
      let '(b, s) := binding_section env expected (o_exited o) (o_now o) s in (CBound b, s)
  | CStop e expected => stop_step o e expected s
  | CStopping env expected p h ep => (stopping_step o env expected p h ep, s)
  | CReleasing env expected d rd => (releasing_step o env expected d rd, s)
  | CStopFailed env expected => (CDone (Err StopFailed), stop_failed_section env expected s)
  | CStopped env expected d released =>
      let '(a, s) := stopped_section env expected d released (o_clock o) s in (CDone a, s)
  | CRestart e expected => restart_step o e expected s
  | CDropping p h x => (match halt_step o h with inl h => CDropping p h x | inr _ => CDone (Err x) end, s)
  | CRestarting env p h ep spec => (restarting_step o env p h ep spec, s)
  | CVacating env rd again spec => (vacating_step o env rd again spec, s)
  | CSpawn env spec timeout k => spawn_step o env spec timeout k s
  | CWait env g w d k => waiting_step o env g w d k s
  | CPublish env g c k =>
      let '(a, s) := publish_section env g c (o_exited o) (o_now o) (o_clock o) s in
      (return_to env k a, s)
  | CFail env g x own k => fail_step o env g x own k s
  | CFailed env p h x k =>
      (match halt_step o h with inl h => CFailed env p h x k | inr _ => return_to env k (Err x) end, s)
  | CDone _ | CBound _ => (c, s)
  end.

Definition finished (c : Call) : bool :=
  match c with CDone _ | CBound _ => true | _ => false end.

(** One call alone, under a script of observations. *)
Fixpoint run (os : list Obs) (c : Call) (s : Supervisor) : Call * Supervisor :=
  match os with
  | [] => (c, s)
  | o :: os => if finished c then (c, s) else let '(c, s) := call_step o c s in run os c s
  end.

(** The entry points of the module ([start_with_spec] is public too). *)
Definition is_entry (c : Call) : bool :=
  match c with
  | CStart _ | CStatus _ | CBinding _ _ | CStop _ _ | CRestart _ _ | CSpawn _ _ _ KReturn => true
  | _ => false
  end.

(** Calls in any number, interleaved: a call arrives, or one of them steps. *)
Record Pool := { calls : list Call; sup : Supervisor }.

Inductive pool_step : Pool -> Pool -> Prop :=
| pool_arrive w c : is_entry c = true -> pool_step w {| calls := c :: calls w; sup := sup w |}
| pool_run w i c o :
    calls w !! i = Some c ->
    pool_step w {| calls := <[i := (call_step o c (sup w)).1]> (calls w);
                   sup := (call_step o c (sup w)).2 |}.

Definition initial_pool : Pool := {| calls := []; sup := default_supervisor |}.
Definition reachable_pool (w : Pool) : Prop := rtc pool_step initial_pool w.

(** The processes a call has taken out of the supervisor and not yet stopped. *)
Definition detached (c : Call) : list N :=
  match c with
  | CStopping _ _ p _ _ | CRestarting _ p _ _ _ | CFailed _ p _ _ _ | CDropping p _ _ => [p]
  | _ => []
  end.

(** Every process tree the runtime has not stopped: retained or being stopped. *)
Definition live_trees (w : Pool) : list N :=
  (if process (sup w) is Some p then [p] else []) ++ calls w ≫= detached.
End Operations.

(** Opens a step of a call. *)
Ltac call_cases :=
  cbn; unfold start_step, status_step, binding_step, stop_step, restart_step, spawn_step,
    waiting_step, fail_step, stopping_step, releasing_step, restarting_step, vacating_step; cbn.
Tactic Notation "call_cases" "in" hyp(Hx) :=
  cbn in Hx; unfold start_step, status_step, binding_step, stop_step, restart_step, spawn_step,
    waiting_step, fail_step, stopping_step, releasing_step, restarting_step, vacating_step in Hx;
  cbn in Hx.
