(* ===== verification/RuntimeFacts.v ===== *)
(** * What holds of the supervisor under any interleaving

    Invariants of [RuntimeOps]: the retained process, the published endpoint and
    the private URL line up in every reachable pool of calls, no process tree is
    owned twice, and the recovery budget bounds automatic restarts. *)
From stdpp Require Import base strings list option pretty relations.
From Stdlib Require Import NArith ZArith Lia.
From S2P Require Import Prelude Environment Runtime RuntimeOps.

Create HintDb runtime.

(** The URL [parse_candidate] lets through: HTTP on exactly 127.0.0.1 and an
    unprivileged port, no credentials, the root path, at most a 43-byte token. *)
Definition loopback_url (u : Url) (p : N) : Prop :=
  url_scheme u = txt "http" /\ url_host u = Some (txt "127.0.0.1") /\ url_username u = [] /\
  url_password u = None /\ url_path u = txt "/" /\ url_fragment u = None /\
  url_port u = Some p /\ (1024 <= p)%N /\ query_ok u = true.

Definition candidate_ok (c : ParsedCandidate) : Prop :=
  forall u, c_url c = Some u -> loopback_url u (ep_port (c_endpoint c)).

Definition recovery_ok (r : RecoveryState) : Prop :=
  safe_stop r = false -> (1 <= crash_count r /\ crash_count r < RECOVERY_BUDGET)%N.

Record sup_ok (s : Supervisor) : Prop := {
  ok_process : forall p, process s = Some p ->
    p = generation s /\ (state s = Some Starting \/ state s = Some Healthy) /\
    is_Some (environment_id s) /\ is_Some (instance_id s);
  ok_starting : state s = Some Starting -> is_Some (process s);
  ok_healthy : state s = Some Healthy -> is_Some (process s) /\ is_Some (rt_endpoint s);
  ok_endpoint : is_Some (rt_endpoint s) -> state s = Some Healthy;
  ok_url : forall u, bootstrap_url s = Some u ->
    exists e, rt_endpoint s = Some e /\ loopback_url u (ep_port e);
  ok_recovery : forall r, recovery s = Some r -> recovery_ok r
}.

(** How a section may change the supervisor: generations only grow, and a
    process only appears together with a new generation. *)
Definition sup_rel (s s' : Supervisor) : Prop :=
  (generation s <= generation s')%N /\
  (generation s' = generation s -> process s = None -> process s' = None).

#[export] Instance sup_rel_preorder : PreOrder sup_rel.
Proof.
  split.
  - intros s. by split.
  - intros s1 s2 s3 [H1 H1'] [H2 H2']. split; [lia |]. intros Hg Hp.
    apply H2'; [lia |]. apply H1'; [lia | done].
Qed.

(** A call that is stopping generation [expected] acts on the supervisor only
    while no newer process is there; a candidate it carries was parsed. *)
Definition call_ok (c : Call) (s : Supervisor) : Prop :=
  match c with
  | CStopping _ expected _ _ _ | CReleasing _ expected _ _
  | CStopFailed _ expected | CStopped _ expected _ _ =>
      (expected <= generation s)%N /\ (generation s = expected -> process s = None)
  | CWait _ _ (WConfirm c) _ _ | CPublish _ _ c _ => candidate_ok c
  | _ => True
  end.

Lemma call_ok_mono c s s' : sup_rel s s' -> call_ok c s -> call_ok c s'.
Proof.
  intros [Hg Hp]. destruct c as [| | | | | | ? ? [] | | | | | | | | | | | | | |]; cbn; try done.
  all: intros [Hle Hn]; split; [lia |]; intros He; apply Hp; [lia |]; apply Hn; lia.
Qed.

(** ** Sections *)

Lemma fixed_candidate_ok p : candidate_ok (fixed_port_candidate p).
Proof. intros u. done. Qed.

Lemma parse_candidate_ok url_parse t exp c :
  parse_candidate url_parse t exp = Ok c -> candidate_ok c.
Proof.
  unfold parse_candidate. case_match; [discriminate |]. destruct (url_parse t) as [u|]; [| discriminate].
  case_match eqn:Hg; [discriminate |]. destruct (query_ok u) eqn:Hq; cbn [negb]; [| discriminate].
  destruct (url_port u) as [p|] eqn:Hp; [| discriminate]. case_match eqn:Hr; [discriminate |].
  destruct (match exp with Some e => _ | None => _ end); [discriminate |]. intros [= <-] v [= <-].
  rewrite !orb_false_iff, !negb_false_iff in Hg. apply orb_false_iff in Hr as [Hr _].
  apply N.ltb_ge in Hr.
  destruct Hg as (((((H1%bool_decide_eq_true & H2%bool_decide_eq_true) & H3%bool_decide_eq_true)
    & H4%bool_decide_eq_false) & H5%bool_decide_eq_true) & H6%bool_decide_eq_false).
  apply eq_None_not_Some in H4, H6. by split_and!.
Qed.

Lemma record_crash_ok now s :
  (forall r, recovery s = Some r -> recovery_ok r) ->
  forall r, recovery (record_crash now s) = Some r -> recovery_ok r.
Proof.
  intros Hok r. unfold record_crash. cbn [recovery set_recovery]. intros [= <-].
  set (r0 := if (_ <? _)%N then _ else _).
  assert (H0 : safe_stop r0 = false -> (crash_count r0 < RECOVERY_BUDGET)%N).
  { subst r0. destruct (_ <? _)%N; [done |]. destruct (recovery s) as [r|] eqn:Hr; [| done].
    cbn. intros H%(Hok _ eq_refl). apply H. }
  unfold recovery_ok. cbn [safe_stop crash_count].
  destruct (N.leb_spec RECOVERY_BUDGET (u64_add (crash_count r0) 1)) as [|Hlt]; [done |].
  intros Hs%H0. unfold RECOVERY_BUDGET in *. rewrite u64_add_small in Hlt |- *; unfold U64_MAX; lia.
Qed.

(** A section that leaves no process, a closed state and nothing published. *)
Lemma sup_ok_closed s :
  process s = None -> state s <> Some Starting -> state s <> Some Healthy ->
  rt_endpoint s = None -> bootstrap_url s = None ->
  (forall r, recovery s = Some r -> recovery_ok r) -> sup_ok s.
Proof.
  intros Hp H1 H2 He Hu Hr. split; try done.
  - intros p. by rewrite Hp.
  - rewrite He. by intros [? [=]].
  - intros u. by rewrite Hu.
Qed.

Lemma crashed_ok code msg s :
  (forall r, recovery s = Some r -> recovery_ok r) -> sup_ok (set_process None (crashed code msg s)).
Proof. intros Hr. apply sup_ok_closed; try done; cbn; by destruct (is_safe_stop s). Qed.

Lemma refresh_exit_ok x now s : sup_ok s -> sup_ok (refresh_exit x now s).
Proof.
  intros Hs. unfold refresh_exit. destruct (_ && _); [| done].
  apply sup_ok_closed; try done; [cbn; by case_match .. |].
  intros r. apply record_crash_ok. apply Hs.
Qed.

Lemma refresh_exit_none x now s : process s = None -> refresh_exit x now s = s.
Proof. intros Hp. unfold refresh_exit. by rewrite Hp. Qed.

Lemma refresh_exit_rel x now s : sup_rel s (refresh_exit x now s).
Proof. unfold refresh_exit. by destruct (_ && _). Qed.

#[export] Hint Resolve refresh_exit_ok refresh_exit_rel fixed_candidate_ok : runtime.

(** Fields a section rewrites that the invariant does not read. *)
Lemma sup_ok_prepared spec auto s :
  sup_ok s -> sup_ok (set_recovery None (set_retained_spec (Some spec) (set_auto_restart auto s))).
Proof. intros []. by split. Qed.

Lemma start_section_ok env spec auto x now cl s :
  sup_ok s ->
  sup_ok (start_section env spec auto x now cl s).2 /\
  sup_rel s (start_section env spec auto x now cl s).2.
Proof.
  intros Hs%(refresh_exit_ok x now). unfold start_section.
  repeat case_match; cbn; split; auto using refresh_exit_rel, sup_ok_prepared.
  apply (refresh_exit_rel x now s).
Qed.

Lemma spawn_section_ok env x now cl sp s :
  sup_ok s ->
  sup_ok (spawn_section env x now cl sp s).2 /\
  sup_rel s (spawn_section env x now cl sp s).2 /\
  forall g, (spawn_section env x now cl sp s).1 = inr g ->
    (generation s < g)%N /\ generation (spawn_section env x now cl sp s).2 = g /\
    process (spawn_section env x now cl sp s).2 = Some g /\
    process (refresh_exit x now s) = None.
Proof.
  intros Hs%(refresh_exit_ok x now). pose proof (refresh_exit_rel x now s) as Hrel.
  unfold spawn_section. set (s1 := refresh_exit x now s) in *.
  case_bool_decide as Hp; [case_match; by split_and! |].
  destruct (u64_checked_add _ _) as [next|] eqn:Hn; [| by split_and!].
  destruct cl as [t|]; [| by split_and!]. destruct sp as [[]|e]; [| by split_and!].
  assert (Hnext : next = (generation s1 + 1)%N).
  { unfold u64_checked_add in Hn. by case_match; simplify_eq. }
  destruct Hrel as [Hle _]. cbn. split_and!.
  - split; cbn; [| eauto | done | by intros [? ?] | done | apply Hs].
    intros p [= <-]. split_and!; eauto.
  - split; cbn; [lia |]. intros ?. lia.
  - intros g [= <-]. split_and!; [lia | done | done |]. by apply eq_None_not_Some in Hp.
Qed.

Lemma alive_section_ok env g x now s :
  sup_ok s -> sup_ok (alive_section env g x now s).2 /\ sup_rel s (alive_section env g x now s).2.
Proof. intros. unfold alive_section. cbn. auto with runtime. Qed.

Lemma publish_section_ok env g c x now cl s :
  candidate_ok c -> sup_ok s ->
  sup_ok (publish_section env g c x now cl s).2 /\ sup_rel s (publish_section env g c x now cl s).2.
Proof.
  intros Hc Hs%(refresh_exit_ok x now). pose proof (refresh_exit_rel x now s) as Hrel.
  unfold publish_section. set (s1 := refresh_exit x now s) in *.
  destruct (negb _ || negb _ || _) eqn:Hg; [done |]. cbn. split; [| done].
  apply orb_false_iff in Hg as [Hg Hp%bool_decide_eq_false].
  apply not_eq_None_Some in Hp. destruct Hs as [Hsp _ _ _ _ Hsr].
  split; cbn; try done; eauto.
  - intros p Hpp. destruct (Hsp p Hpp) as (? & _ & ? & ?). split_and!; auto.
Qed.

Lemma fail_section_ok env g e now s :
  sup_ok s ->
  sup_ok (fail_section env g e now s).2 /\ sup_rel s (fail_section env g e now s).2.
Proof.
  intros Hs. unfold fail_section. destruct (_ || _); [done |]. cbn. split.
  - apply crashed_ok. case_match; [apply record_crash_ok |]; apply Hs.
  - split; cbn; [| done]. by case_match.
Qed.

Lemma recover_section_ok env x now s :
  sup_ok s -> sup_ok (recover_section env x now s).2 /\ sup_rel s (recover_section env x now s).2.
Proof. intros. unfold recover_section. case_match; cbn; auto with runtime. Qed.

Lemma binding_section_ok env g x now s :
  sup_ok s -> sup_ok (binding_section env g x now s).2 /\ sup_rel s (binding_section env g x now s).2.
Proof. intros. unfold binding_section. cbn. auto with runtime. Qed.

Lemma stop_section_ok env g x now cl s :
  sup_ok s ->
  sup_ok (stop_section env g x now cl s).2 /\ sup_rel s (stop_section env g x now cl s).2 /\
  forall p ep, (stop_section env g x now cl s).1 = inr (p, ep) ->
    process (refresh_exit x now s) = Some p /\ process (stop_section env g x now cl s).2 = None /\
    generation (stop_section env g x now cl s).2 = g.
Proof.
  intros Hs%(refresh_exit_ok x now). pose proof (refresh_exit_rel x now s) as Hrel.
  unfold stop_section. set (s1 := refresh_exit x now s) in *.
  destruct (other_environment env s1); [by split_and! |].
  destruct (_ || _) eqn:Hg; [by split_and! |].
  apply orb_false_iff in Hg as [_ Hg%negb_false_iff%N.eqb_eq].
  destruct (process s1) as [p|] eqn:Hp; cbn; split_and!; try done.
  - apply sup_ok_closed; try done. apply Hs.
  - by destruct Hrel.
  - intros p' ep' [= -> <-]. by split_and!.
  - by apply sup_ok_closed.
Qed.

Lemma stop_failed_section_ok env g s :
  (generation s = g -> process s = None) -> sup_ok s ->
  sup_ok (stop_failed_section env g s) /\ sup_rel s (stop_failed_section env g s).
Proof.
  intros Hn Hs. unfold stop_failed_section. destruct (_ && _) eqn:Hg; [| done].
  apply andb_true_iff in Hg as [Hg%N.eqb_eq _]. split; [| done].
  apply sup_ok_closed; try done; [by apply Hn | apply Hs].
Qed.

Lemma stopped_section_ok env g d rel cl s :
  (generation s = g -> process s = None) -> sup_ok s ->
  sup_ok (stopped_section env g d rel cl s).2 /\ sup_rel s (stopped_section env g d rel cl s).2.
Proof.
  intros Hn Hs. unfold stopped_section. destruct (_ || _) eqn:Hg; [done |].
  apply orb_false_iff in Hg as [Hg%negb_false_iff%N.eqb_eq _]. cbn. split; [| done].
  apply sup_ok_closed; try done. by apply Hn.
Qed.

Lemma restart_section_ok env g x now s :
  sup_ok s ->
  sup_ok (restart_section env g x now s).2 /\ sup_rel s (restart_section env g x now s).2.
Proof.
  intros Hs%(refresh_exit_ok x now). pose proof (refresh_exit_rel x now s) as Hrel.
  unfold restart_section. set (s1 := refresh_exit x now s) in *.
  destruct (other_environment env s1); [done |]. destruct (_ || _); [done |]. cbn. split.
  - by apply sup_ok_closed.
  - by destruct Hrel.
Qed.

(** ** Calls *)

#[global] Arguments start_section : simpl never.
#[global] Arguments spawn_section : simpl never.
#[global] Arguments alive_section : simpl never.
#[global] Arguments publish_section : simpl never.
#[global] Arguments fail_section : simpl never.
#[global] Arguments recover_section : simpl never.
#[global] Arguments binding_section : simpl never.
#[global] Arguments stop_section : simpl never.
#[global] Arguments stop_failed_section : simpl never.
#[global] Arguments stopped_section : simpl never.
#[global] Arguments restart_section : simpl never.
#[global] Arguments RuntimeOps.wait_step : simpl never.
#[global] Arguments halt_step : simpl never.
#[global] Arguments release_step : simpl never.
#[global] Arguments refresh_exit : simpl never.
#[global] Arguments report : simpl never.
#[global] Arguments build_launch_spec : simpl never.

Section Reachable.
Context (url_parse : text -> option Url) `{Fs}.

Abbreviation wait_step := (RuntimeOps.wait_step url_parse).
Abbreviation call_step := (RuntimeOps.call_step url_parse).
Abbreviation reachable_pool := (RuntimeOps.reachable_pool url_parse).

Lemma marker_candidate_ok o p c : marker_candidate url_parse o p = Some c -> candidate_ok c.
Proof.
  unfold marker_candidate. destruct (o_marker o) as [m|]; [| discriminate]. cbn.
  destruct (parse_candidate _ _ _) eqn:Hp; [| discriminate]. intros [= <-].
  by eapply parse_candidate_ok.
Qed.

Definition waited_ok (w : Waited) : Prop :=
  match w with WMore (WConfirm c) | WPublish c => candidate_ok c | _ => True end.

Lemma wait_step_ok env g w d o s :
  match w with WConfirm c => candidate_ok c | _ => True end -> sup_ok s ->
  sup_ok (wait_step env g w d o s).2 /\ sup_rel s (wait_step env g w d o s).2 /\
  waited_ok (wait_step env g w d o s).1.
Proof.
  intros Hw Hs. unfold RuntimeOps.wait_step.
  pose proof (alive_section_ok env g (o_exited o) (o_now o) s Hs) as [Ha Hr].
  destruct (alive_section _ _ _ _ _) as [alive s']. cbn [fst snd] in *.
  destruct w as [[p|]|p|p gr|c]; repeat case_match; cbn; split_and!; try done;
    eauto using marker_candidate_ok, parse_candidate_ok with runtime.
Qed.

Lemma return_to_ok env k a s : call_ok (return_to env k a) s.
Proof. by destruct k. Qed.

Lemma call_step_ok o c s :
  call_ok c s -> sup_ok s ->
  sup_ok (call_step o c s).2 /\ sup_rel s (call_step o c s).2 /\
  call_ok (call_step o c s).1 (call_step o c s).2.
Proof.
  intros Hc Hs. destruct c as [e|e|e g|e g|e g|env spec tm k|env g w dl k|env g c k|env g e own k|
    env p h e k|env|env g|env g p h ep|env g d rd|env g|env g d rel|p h e|env p h ep spec|
    env rd ag spec|a|b]; call_cases.
  - destruct (build_launch_spec e) as [spec|]; [| done].
    pose proof (start_section_ok (id e) spec (policy_auto_restart e) (o_exited o) (o_now o) (o_clock o) s Hs)
      as [? ?]. destruct (start_section _ _ _ _ _ _ _) as [[a|[]] s']; done.
  - destruct (is_managed e); [| done]. cbn.
    pose proof (recover_section_ok (id e) (o_exited o) (o_now o) s Hs) as [? ?].
    destruct (recover_section _ _ _ _) as [[[|]|] s']; done.
  - destruct (is_managed e); [| done]. cbn. destruct (g =? 0)%N; [done |].
    pose proof (recover_section_ok (id e) (o_exited o) (o_now o) s Hs) as [? ?].
    destruct (recover_section _ _ _ _) as [[[|]|] s']; done.
  - destruct (is_managed e); [| done]. cbn.
    pose proof (stop_section_ok (id e) g (o_exited o) (o_now o) (o_clock o) s Hs) as (? & ? & Hp).
    destruct (stop_section _ _ _ _ _ _) as [[|[p ep]] s']; [done |]. split_and!; [done.. |].
    destruct (Hp p ep eq_refl) as (_ & ? & Hg). cbn in *. split; [lia | done].
  - destruct (is_managed e); [| done]. cbn.
    pose proof (restart_section_ok (id e) g (o_exited o) (o_now o) s Hs) as [? ?].
    destruct (restart_section _ _ _ _ _) as [[|[[p ep] r]] s']; [done |].
    split_and!; [done.. |]. by repeat case_match.
  - pose proof (spawn_section_ok env (o_exited o) (o_now o) (o_clock o) (o_spawned o) s Hs) as (? & ? & _).
    destruct (spawn_section _ _ _ _ _ _) as [[|] s']; [| done]. eauto using return_to_ok.
  - assert (Hw : match w with WConfirm c => candidate_ok c | _ => True end) by by destruct w.
    pose proof (wait_step_ok env g w dl o s Hw Hs) as (? & ? & Hok).
    destruct (wait_step _ _ _ _ _ _) as [[w'|c|x own] s']; cbn in *; split_and!; try done; by repeat case_match.
  - pose proof (publish_section_ok env g c (o_exited o) (o_now o) (o_clock o) s Hc Hs) as [? ?].
    destruct (publish_section _ _ _ _ _ _ _) as [a s']. eauto using return_to_ok.
  - pose proof (fail_section_ok env g e (o_now o) s Hs) as [? ?].
    destruct (fail_section _ _ _ _ _) as [[y [p|]] s']; cbn; split_and!; auto using return_to_ok.
  - split_and!; [done | done |]. destruct (halt_step o h); auto using return_to_ok.
  - done.
  - pose proof (binding_section_ok env g (o_exited o) (o_now o) s Hs) as [? ?].
    destruct (binding_section _ _ _ _ _) as [b s']. done.
  - by destruct (halt_step o h) as [|[]], ep.
  - by destruct (release_step o rd).
  - destruct Hc as [_ Hn]. destruct (stop_failed_section_ok env g s Hn Hs). done.
  - destruct Hc as [_ Hn]. pose proof (stopped_section_ok env g d rel (o_clock o) s Hn Hs) as [? ?].
    destruct (stopped_section _ _ _ _ _ _) as [a s']. done.
  - by destruct (halt_step o h).
  - by destruct (halt_step o h), ep.
  - split_and!; [done.. |]. by repeat case_match.
  - done.
  - done.
Qed.

(** *** Process trees *)

Definition held (s : Supervisor) : list N := if process s is Some p then [p] else [].

(** The trees a call and the supervisor hold between them: a step drops some,
    moves some, or adds the one of a fresh generation. *)
Definition trees_step (c : Call) (s : Supervisor) (c' : Call) (s' : Supervisor) : Prop :=
  held s' ++ detached c' ⊆+ held s ++ detached c \/
  (held s' ++ detached c' = [generation s'] /\ (generation s < generation s')%N).

Lemma refresh_exit_held x now s : held (refresh_exit x now s) ⊆+ held s.
Proof.
  unfold held, refresh_exit. destruct (_ && _); [| done]. cbn. apply submseteq_nil_l.
Qed.

Lemma trees_shrink c s c' s' :
  held s' ⊆+ held s -> detached c' = [] -> trees_step c s c' s'.
Proof. intros Hh Hd. left. rewrite Hd, app_nil_r. by apply submseteq_inserts_r. Qed.

Lemma return_to_detached env k a : detached (return_to env k a) = [].
Proof. by destruct k. Qed.

Lemma take_held s : held (set_process None s) = [].
Proof. done. Qed.

(** Every section but the spawn one leaves at most the process it found, and
    hands out at most that process. *)
Lemma held_section s1 s c c' s' :
  held s1 ⊆+ held s -> held s' ++ detached c' = held s1 -> trees_step c s c' s'.
Proof. intros Hh He. left. rewrite He. by apply submseteq_inserts_r. Qed.

Lemma call_step_trees o c s : sup_ok s -> trees_step c s (call_step o c s).1 (call_step o c s).2.
Proof.
  intros Hs. pose proof (refresh_exit_held (o_exited o) (o_now o) s) as Hh.
  destruct c as [e|e|e g|e g|e g|env spec tm k|env g w dl k|env g c k|env g e own k|
    env p h e k|env|env g|env g p h ep|env g d rd|env g|env g d rel|p h e|env p h ep spec|
    env rd ag spec|a|b]; call_cases.
  - destruct (build_launch_spec e) as [spec|]; [| by apply trees_shrink].
    unfold start_section. repeat case_match; simplify_eq; by apply trees_shrink.
  - destruct (is_managed e); [| by apply trees_shrink]. cbn.
    unfold recover_section. repeat case_match; simplify_eq; by apply trees_shrink.
  - destruct (is_managed e); [| by apply trees_shrink]. cbn. destruct (g =? 0)%N; [by apply trees_shrink |].
    unfold recover_section. repeat case_match; simplify_eq; by apply trees_shrink.
  - destruct (is_managed e); [| by apply trees_shrink]. cbn.
    unfold stop_section. repeat case_match; simplify_eq; try by apply trees_shrink.
    all: try (apply trees_shrink; [| done]; done).
    eapply held_section; [exact Hh |]. cbn. unfold held. by case_match; simplify_eq.
  - destruct (is_managed e); [| by apply trees_shrink]. cbn. unfold restart_section.
    repeat case_match; simplify_eq; try by apply trees_shrink.
    all: try (apply trees_shrink; [apply submseteq_nil_l | done]).
    all: try (eapply held_section; [exact Hh |]; cbn; unfold held; by repeat case_match; simplify_eq).
  - pose proof (spawn_section_ok env (o_exited o) (o_now o) (o_clock o) (o_spawned o) s Hs) as (_ & _ & Hg).
    unfold spawn_section in *. repeat case_match; simplify_eq;
      try (apply trees_shrink; [done | apply return_to_detached]).
    right. destruct (Hg _ eq_refl) as (? & _). cbn. done.
  - unfold RuntimeOps.wait_step, alive_section. repeat case_match; simplify_eq; by apply trees_shrink.
  - unfold publish_section. repeat case_match; simplify_eq;
      (apply trees_shrink; [done | apply return_to_detached]).
  - unfold fail_section. destruct (_ || _); [apply trees_shrink; [done | apply return_to_detached] |].
    left. cbn. rewrite app_nil_r. unfold held.
    destruct (process s) eqn:Hp; cbn; rewrite Hp; cbn; by rewrite ?return_to_detached.
  - destruct (halt_step o h); [by left |]. apply trees_shrink; [done | apply return_to_detached].
  - by apply trees_shrink.
  - unfold binding_section. by apply trees_shrink.
  - destruct (halt_step o h) as [|[]], ep; solve [by left | by apply trees_shrink].
  - destruct (release_step o rd); by apply trees_shrink.
  - apply trees_shrink; [| done]. unfold stop_failed_section. by case_match.
  - unfold stopped_section. destruct (_ || _); cbn; by apply trees_shrink.
  - destruct (halt_step o h); [by left | by apply trees_shrink].
  - destruct (halt_step o h), ep; solve [by left | by apply trees_shrink].
  - repeat case_match; by apply trees_shrink.
  - by left.
  - by left.
Qed.

(** *** Pools *)

Lemma submseteq_NoDup {A} (l k : list A) : l ⊆+ k -> NoDup k -> NoDup l.
Proof. intros [x ->]%submseteq_Permutation Hn. by apply NoDup_app in Hn as (? & _ & _). Qed.

Lemma submseteq_Forall {A} (P : A -> Prop) (l k : list A) : l ⊆+ k -> Forall P k -> Forall P l.
Proof. intros [x ->]%submseteq_Permutation Hn. by apply Forall_app in Hn as [? _]. Qed.

Record pool_ok (w : Pool) : Prop := {
  pool_sup : sup_ok (sup w);
  pool_calls : Forall (fun c => call_ok c (sup w)) (calls w);
  pool_nodup : NoDup (live_trees w);
  pool_bound : Forall (fun p => (p <= generation (sup w))%N) (live_trees w)
}.

Lemma default_ok : sup_ok default_supervisor.
Proof. by apply sup_ok_closed. Qed.

Lemma live_trees_split w i c :
  calls w !! i = Some c ->
  exists rest,
    live_trees w ≡ₚ (held (sup w) ++ detached c) ++ rest /\
    forall c' s', live_trees {| calls := <[i := c']> (calls w); sup := s' |}
                  ≡ₚ (held s' ++ detached c') ++ rest.
Proof.
  intros Hi. exists ((take i (calls w) ++ drop (S i) (calls w)) ≫= detached).
  assert (Hl : i < length (calls w)) by by eapply lookup_lt_Some.
  assert (Hins : forall c', <[i := c']> (calls w) = take i (calls w) ++ c' :: drop (S i) (calls w)).
  { intros c'. by apply insert_take_drop. }
  assert (Hperm : forall c', <[i := c']> (calls w) ≫= detached
            ≡ₚ detached c' ++ (take i (calls w) ++ drop (S i) (calls w)) ≫= detached).
  { intros c'. rewrite Hins, !bind_app, bind_cons. solve_Permutation. }
  split.
  - unfold live_trees. rewrite <- (list_insert_id _ _ _ Hi) at 1.
    rewrite <- app_assoc. by rewrite Hperm.
  - intros c' s'. unfold live_trees. cbn. rewrite <- app_assoc. by rewrite Hperm.
Qed.

Lemma pool_step_ok w w' : pool_step url_parse w w' -> pool_ok w -> pool_ok w'.
Proof.
  intros Hst Hw. destruct Hst as [w c He | w i c o Hi]; destruct Hw as [Hs Hc Hn Hb].
  - assert (Hd : live_trees {| calls := c :: calls w; sup := sup w |} = live_trees w).
    { unfold live_trees. cbn. by destruct c. }
    split; [done | | by rewrite Hd..]. cbn. constructor; [| done].
    by destruct c.
  - assert (Hci : call_ok c (sup w)) by by eapply Forall_lookup_1 in Hc.
    destruct (call_step_ok o c (sup w) Hci Hs) as (Hs' & Hrel & Hc').
    pose proof (call_step_trees o c (sup w) Hs) as Ht.
    destruct (live_trees_split w i c Hi) as (rest & Hbefore & Hafter).
    destruct (call_step o c (sup w)) as [c' s']. cbn [fst snd] in *.
    rewrite Hbefore in Hn, Hb. destruct Hrel as [Hle Hp].
    assert (Hb' : Forall (fun p => (p <= generation s')%N) ((held (sup w) ++ detached c) ++ rest)).
    { eapply Forall_impl; [exact Hb |]. cbn. intros. lia. }
    split; cbn [calls sup]; [done | | rewrite Hafter | rewrite Hafter].
    + apply Forall_insert; [| done]. eapply Forall_impl; [exact Hc |].
      intros x. by apply call_ok_mono.
    + destruct Ht as [Hsub | [-> Hlt]].
      * eapply submseteq_NoDup; [| exact Hn]. by apply submseteq_skips_r.
      * cbn. apply NoDup_cons. split; [| by apply NoDup_app in Hn as (_ & _ & ?)].
        rewrite Forall_app in Hb. destruct Hb as [_ Hb]. rewrite Forall_forall in Hb.
        intros Hin%Hb. lia.
    + destruct Ht as [Hsub | [-> Hlt]].
      * eapply submseteq_Forall; [| exact Hb']. by apply submseteq_skips_r.
      * cbn. constructor; [lia |]. by apply Forall_app in Hb' as [_ ?].
Qed.

Lemma pool_reachable_ok w : reachable_pool w -> pool_ok w.
Proof.
  apply rtc_ind_r.
  - split; [apply default_ok | constructor..].
  - intros w1 w2 _ Hst. by apply pool_step_ok.
Qed.

(** *** Answers *)

Lemma return_to_bound env k a b : return_to env k a <> CBound (Ok b).
Proof. by destruct k. Qed.

(** Only the lookup answers with a binding. *)
Lemma call_step_bound o c s b :
  finished c = false -> (call_step o c s).1 = CBound (Ok b) ->
  exists env g, c = CLookup env g /\ (binding_section env g (o_exited o) (o_now o) s).1 = Ok b.
Proof.
  intros Hf Hb. destruct c; cbn in Hf; call_cases in Hb; try done;
    try (by repeat case_match; simplify_eq; cbn in *; simplify_eq);
    try (by repeat case_match; cbn in *; try discriminate; exfalso; eapply return_to_bound; eassumption).
  destruct (binding_section _ _ _ _ _) as [b' s'] eqn:Hbs. simplify_eq/=.
  eexists _, _. split; [done |]. apply (f_equal fst Hbs).
Qed.

Lemma binding_section_some env g x now s b :
  (binding_section env g x now s).1 = Ok b ->
  exists e, x = false /\ b_generation b = g /\ generation s = g /\ environment_id s = Some env /\
    state s = Some Healthy /\ is_Some (process s) /\
    rt_endpoint s = Some e /\ b_port b = ep_port e /\ bootstrap_url s = Some (b_url b).
Proof.
  unfold binding_section. cbn [fst].
  assert (Hx : process (refresh_exit x now s) <> None -> x = false /\ refresh_exit x now s = s).
  { unfold refresh_exit. destruct x; [| by rewrite andb_false_r].
    case_bool_decide as Hp; cbn; [done |]. by apply eq_None_not_Some in Hp. }
  destruct (N.eqb_spec (generation (refresh_exit x now s)) g) as [Hg|]; cbn [negb]; [| done].
  destruct (_ || _) eqn:Hc; [done |]. rewrite !orb_false_iff, !negb_false_iff in Hc.
  destruct Hc as ((Henv%bool_decide_eq_true & Hst%bool_decide_eq_true) & Hp%bool_decide_eq_false).
  destruct (Hx Hp) as [-> Hr]. rewrite Hr in *. apply not_eq_None_Some in Hp.
  destruct (rt_endpoint s) as [e|]; [| done]. destruct (bootstrap_url s) as [u|]; [| done].
  cbn. intros [= <-]. exists e. by split_and!.
Qed.
End Reachable.
