(* ===== verification/RuntimeProps.v ===== *)
(** * Properties of the managed runtime

    The claims about [RuntimeOps]: what lines up in every reachable pool, when a
    surface binding is handed out, how the recovery budget bounds automatic
    restarts, and that calls end at their deadlines.  The last examples replay
    interleavings in which the supervisor does what its documentation rules out. *)
From stdpp Require Import base strings list option pretty relations.
From Stdlib Require Import NArith ZArith Lia.
From S2P Require Import Prelude Environment Runtime RuntimeOps RuntimeFacts.

(** ** Executable schedules *)

Section Schedules.
Context (url_parse : text -> option Url) `{Fs}.

(** A schedule: a call arrives, or the [i]-th call steps. *)
Inductive Event := Arrive (c : Call) | Run (i : nat) (o : Obs).

Definition exec_event (w : Pool) (x : Event) : Pool :=
  match x with
  | Arrive c => if is_entry c then {| calls := c :: calls w; sup := sup w |} else w
  | Run i o =>
      match calls w !! i with
      | Some c => {| calls := <[i := (call_step url_parse o c (sup w)).1]> (calls w);
                     sup := (call_step url_parse o c (sup w)).2 |}
      | None => w
      end
  end.

Definition exec (xs : list Event) : Pool := foldl exec_event initial_pool xs.

Lemma exec_event_reachable w x : reachable_pool url_parse w -> reachable_pool url_parse (exec_event w x).
Proof.
  unfold reachable_pool. intros Hw. etransitivity; [exact Hw |]. destruct x as [c|i o]; cbn.
  - destruct (is_entry c) eqn:Hc; [| done]. by apply rtc_once, pool_arrive.
  - destruct (calls w !! i) as [c|] eqn:Hi; [| done]. apply rtc_once. by apply pool_run.
Qed.

Lemma events_reachable xs w : reachable_pool url_parse w -> reachable_pool url_parse (foldl exec_event w xs).
Proof. revert w. induction xs as [|x xs IH]; intros w Hw; [done |]. by apply IH, exec_event_reachable. Qed.

Lemma exec_reachable xs : reachable_pool url_parse (exec xs).
Proof. apply events_reachable. unfold reachable_pool. done. Qed.
End Schedules.

(** ** A sample environment and machine *)

#[local] Instance sample_fs : Fs := {
  is_absolute := fun p => starts_with (txt "/") p;
  is_file := fun _ => true;
  is_dir := fun _ => true;
  join := fun a b => a ++ txt "/" ++ b;
  from_file_path := fun p => Some (txt "file://" ++ p);
  path_dirs := Some [txt "/usr/bin"];
  on_windows := false
}.

Definition sample_env : ManagedEnvironment :=
  {| schema_version := 1; id := txt "main"; label := txt "Main";
     harness := {| mode := Executable; path := txt "/opt/dsh"; cwd := None; args := [txt "--verbose"] |};
     dsh_home := txt "/home/u/.dsh"; profile := txt "default"; node_path := None;
     endpoint := {| host := txt "127.0.0.1"; port := Fixed 8123 |};
     ownership := Managed;
     policy := Some {| auto_restart_on_crash := Some true; allow_native_adapter := None |} |}.

Definition sample_token : text := txt "token=0123456789012345678901234567890123456789012".
Definition sample_line : text := txt "http://127.0.0.1:8123/?" ++ sample_token.

Definition sample_url : Url :=
  {| url_scheme := txt "http"; url_host := Some (txt "127.0.0.1"); url_username := [];
     url_password := None; url_path := txt "/"; url_query := Some sample_token;
     url_fragment := None; url_port := Some 8123%N |}.

Definition sample_parse (t : text) : option Url :=
  if bool_decide (t = sample_line) then Some sample_url else None.

(** A quiet observation at time [t], in which a child being stopped is gone and
    its port free, and its variations. *)
Definition quiet (t : N) : Obs :=
  {| o_exited := false; o_now := t; o_clock := Some t; o_instant := t; o_spawned := Ok tt;
     o_marker := None; o_probe := true; o_child := TExited; o_signalled := true; o_reaped := true;
     o_accepts := false |}.
Definition marked (t : N) : Obs :=
  {| o_exited := false; o_now := t; o_clock := Some t; o_instant := t; o_spawned := Ok tt;
     o_marker := Some sample_line; o_probe := true; o_child := TExited; o_signalled := true;
     o_reaped := true; o_accepts := false |}.
Definition gone (t : N) : Obs :=
  {| o_exited := true; o_now := t; o_clock := Some t; o_instant := t; o_spawned := Ok tt;
     o_marker := None; o_probe := false; o_child := TExited; o_signalled := true; o_reaped := true;
     o_accepts := false |}.
(** The child being stopped takes every signal and stays. *)
Definition stuck (t : N) : Obs :=
  {| o_exited := false; o_now := t; o_clock := Some t; o_instant := t; o_spawned := Ok tt;
     o_marker := None; o_probe := false; o_child := TRunning; o_signalled := true; o_reaped := false;
     o_accepts := true |}.

(** A start that publishes the sample endpoint, as the only call. *)
Definition healthy_start : list Event :=
  [Arrive (CStart sample_env); Run 0 (quiet 1); Run 0 (quiet 1); Run 0 (quiet 1);
   Run 0 (marked 1); Run 0 (quiet 1); Run 0 (quiet 1)].

Definition running : Pool := exec sample_parse healthy_start.

Example running_is_healthy :
  state (sup running) = Some Healthy /\ process (sup running) = Some 1%N /\
  bootstrap_url (sup running) = Some sample_url.
Proof. vm_compute. done. Qed.

(** ** What lines up *)

(** C31.  However calls interleave, a retained process is the one of the current
    generation, of a known environment and instance, and is starting or healthy;
    Healthy means a retained process with a published endpoint, and nothing is
    published otherwise; and the trees that are retained or still being stopped
    all belong to different generations, none newer than the current one. *)
Theorem runtime_lines_up url_parse `{Fs} w :
  reachable_pool url_parse w ->
  let s := sup w in
  (forall p, process s = Some p ->
     p = generation s /\ (state s = Some Starting \/ state s = Some Healthy) /\
     is_Some (environment_id s) /\ is_Some (instance_id s)) /\
  (state s = Some Healthy <-> is_Some (rt_endpoint s)) /\
  (state s = Some Healthy \/ state s = Some Starting <-> is_Some (process s)) /\
  (is_Some (bootstrap_url s) -> state s = Some Healthy) /\
  NoDup (live_trees w) /\ Forall (fun p => (p <= generation s)%N) (live_trees w).
Proof.
  intros [[Hp Hst Hh He Hu _] _ Hn Hb]%pool_reachable_ok s. split_and!; try done.
  - split; [by intros [_ ?]%Hh | done].
  - split; [intros [[? _]%Hh | ?%Hst]; done |]. intros [p [_ [[?|?] _]]%Hp]; auto.
  - intros [u (e & He' & _)%Hu]. apply He. by rewrite He'.
Qed.

Lemma runtime_lines_up_witness :
  process (sup running) = Some 1%N /\ generation (sup running) = 1%N /\ NoDup (live_trees running).
Proof.
  destruct (runtime_lines_up sample_parse running) as (Hp & _ & _ & _ & Hn & _).
  - apply exec_reachable.
  - split_and!; [reflexivity | reflexivity | exact Hn].
Defined.

(** C30.  A surface binding is handed out only when the retained process is
    alive, is of exactly the generation and environment asked for, and is
    Healthy; the binding is then the published port and the private URL, which
    is plain HTTP on that port of 127.0.0.1 with no credentials and at most a
    well-formed token.  This holds of every call in every interleaving. *)
Theorem binding_only_when_verified url_parse `{Fs} w i c o b :
  reachable_pool url_parse w -> calls w !! i = Some c -> finished c = false ->
  (call_step url_parse o c (sup w)).1 = CBound (Ok b) ->
  exists env e,
    c = CLookup env (b_generation b) /\ o_exited o = false /\
    process (sup w) = Some (b_generation b) /\ generation (sup w) = b_generation b /\
    environment_id (sup w) = Some env /\ state (sup w) = Some Healthy /\
    rt_endpoint (sup w) = Some e /\ b_port b = ep_port e /\
    bootstrap_url (sup w) = Some (b_url b) /\ loopback_url (b_url b) (b_port b).
Proof.
  intros [Hs _ _ _]%pool_reachable_ok _ Hf Hstep.
  apply call_step_bound in Hstep as (env & g & -> & Hb); [| done].
  apply binding_section_some in Hb as (e & Hx & <- & Hg & Henv & Hst & [p Hp] & He & Hport & Hu).
  destruct (ok_process _ Hs _ Hp) as (-> & _). rewrite Hg in Hp.
  exists env, e. split_and!; try done. destruct (ok_url _ Hs _ Hu) as (e' & He' & Hl).
  rewrite Hport. by simplify_eq.
Qed.

Definition looking_up : Pool :=
  exec sample_parse (healthy_start ++ [Arrive (CBinding sample_env 1); Run 0 (quiet 2)]).
Definition sample_binding : VerifiedSurfaceBinding :=
  {| b_generation := 1; b_port := 8123; b_url := sample_url |}.

Lemma binding_only_when_verified_witness :
  loopback_url (b_url sample_binding) (b_port sample_binding) /\ state (sup looking_up) = Some Healthy.
Proof.
  destruct (binding_only_when_verified sample_parse looking_up 0 (CLookup (txt "main") 1) (quiet 2)
              sample_binding) as (env & e & _ & _ & _ & _ & _ & Hst & _ & _ & _ & Hl).
  - apply exec_reachable.
  - vm_compute. reflexivity.
  - reflexivity.
  - vm_compute. reflexivity.
  - split; [exact Hl | exact Hst].
Defined.

(** ** The recovery budget *)

(** One crash: it opens the accounting, or adds to it inside the window. *)
Lemma record_crash_first t s :
  recovery s = None ->
  recovery (record_crash t s) =
    Some {| crash_count := 1; window_start := t; last_crash_at := Some t; safe_stop := false |}.
Proof.
  intros Hr. unfold record_crash, u64_saturating_sub. rewrite Hr. cbn [default window_start].
  by rewrite N.sub_diag.
Qed.

Lemma record_crash_in_window t s r :
  recovery s = Some r -> (t <= window_start r + RECOVERY_WINDOW)%N ->
  recovery (record_crash t s) =
    Some {| crash_count := u64_add (crash_count r) 1; window_start := window_start r;
            last_crash_at := Some t;
            safe_stop := (RECOVERY_BUDGET <=? u64_add (crash_count r) 1)%N || safe_stop r |}.
Proof.
  intros Hr Hw. unfold record_crash, u64_saturating_sub. rewrite Hr.
  change (default _ (Some r)) with r. by destruct (N.ltb_spec RECOVERY_WINDOW (t - window_start r)); [lia |].
Qed.

(** The state of a supervisor whose process has crashed. *)
Definition down (s : Supervisor) : ManagedState := if is_safe_stop s then SafeStop else Crashed.

(** The retained process is no longer there. *)
Definition lost (s s' : Supervisor) : bool :=
  match process s with Some p => negb (bool_decide (process s' = Some p)) | None => false end.

(** The calls with which an operator clears the accounting: to start, to stop
    (its last block too), to restart. *)
Definition operates (c : Call) : bool :=
  match c with
  | CStart _ | CStop _ _ | CRestart _ _ | CStopFailed _ _ | CStopped _ _ _ _ => true
  | _ => false
  end.

(** What a step at time [t] that no operator took may do: lose no process and
    keep the accounting, or lose the process and count one crash. *)
Definition accounted (t : N) (s s' : Supervisor) : Prop :=
  (lost s s' = false /\ recovery s' = recovery s /\
   (process s' = None -> process s = None /\ (state s' = state s \/ state s' = Some (down s')))) \/
  (lost s s' = true /\ recovery s' = recovery (record_crash t s) /\
   (process s' = None -> state s' = Some (down s'))).

Lemma lost_refl s : lost s s = false.
Proof. unfold lost. destruct (process s); [| done]. by rewrite bool_decide_eq_true_2. Qed.

Lemma accounted_refl t s : accounted t s s.
Proof. left. split_and!; [apply lost_refl | done | auto]. Qed.

Lemma refresh_exit_cases x t s :
  refresh_exit x t s = s /\ (is_Some (process s) -> x = false) \/
  x = true /\ is_Some (process s) /\ process (refresh_exit x t s) = None /\
  recovery (refresh_exit x t s) = recovery (record_crash t s) /\
  state (refresh_exit x t s) = Some (down (refresh_exit x t s)) /\
  generation (refresh_exit x t s) = generation s.
Proof.
  unfold refresh_exit. case_bool_decide as Hp; cbn [andb]; [| by left].
  destruct x; [right | by left]. by split_and!.
Qed.

Lemma refresh_exit_accounted x t s : accounted t s (refresh_exit x t s).
Proof.
  destruct (refresh_exit_cases x t s) as [[-> _] | (_ & [p Hp] & Hn & Hr & Hst & _)];
    [apply accounted_refl |].
  right. unfold lost. by rewrite Hp, Hn.
Qed.

Lemma spawn_section_accounted env x t cl sp s :
  sup_ok s -> accounted t s (spawn_section env x t cl sp s).2.
Proof.
  intros Hs. pose proof (refresh_exit_accounted x t s) as Hacc.
  pose proof (spawn_section_ok env x t cl sp s Hs) as (_ & _ & Hg).
  unfold spawn_section in *. destruct (bool_decide (is_Some _)); [by case_match |].
  destruct (u64_checked_add _ _) as [next|]; [| done]. destruct cl; [| done]. destruct sp as [[]|]; [| done].
  destruct (Hg next eq_refl) as (Hlt & _ & _ & Hn). cbn [snd].
  destruct (refresh_exit_cases x t s) as [[E _] | (_ & [p Hp] & _ & Hr & _)].
  - left. rewrite E in *. split_and!; [| done | done]. unfold lost. by rewrite Hn.
  - right. split_and!; [| done | done]. unfold lost. rewrite Hp. cbn.
    destruct (ok_process _ Hs p Hp) as (-> & _). rewrite bool_decide_eq_false_2; [done |].
    intros [=]. lia.
Qed.

Lemma publish_section_accounted env g c x t cl s :
  accounted t s (publish_section env g c x t cl s).2.
Proof.
  pose proof (refresh_exit_accounted x t s) as Hacc. unfold publish_section.
  destruct (negb _ || negb _ || _) eqn:Hg; [done |].
  apply orb_false_iff in Hg as [_ Hp%bool_decide_eq_false]. cbn [snd].
  destruct (refresh_exit_cases x t s) as [[E _] | (_ & _ & Hn & _)]; [| done]. rewrite E in *.
  left. split_and!; [exact (lost_refl s) | done | done].
Qed.

Lemma fail_section_accounted env g e t s : accounted t s (fail_section env g e t s).2.
Proof.
  unfold fail_section. destruct (_ || _); [apply accounted_refl |]. cbn [snd].
  case_bool_decide as Hp.
  - destruct Hp as [p Hp]. right. unfold lost. rewrite Hp. by split_and!.
  - apply eq_None_not_Some in Hp. left. unfold lost. rewrite Hp. split_and!; [done.. | auto].
Qed.

Lemma call_step_accounted url_parse `{Fs} o c s :
  sup_ok s -> operates c = false -> accounted (o_now o) s (call_step url_parse o c s).2.
Proof.
  intros Hs Hc. pose proof (refresh_exit_accounted (o_exited o) (o_now o) s) as Hacc.
  pose proof (accounted_refl (o_now o) s) as Hrefl.
  destruct c as [e|e|e g|e g|e g|env spec tm k|env g w dl k|env g c k|env g e own k|
    env p h e k|env|env g|env g p h ep|env g d rd|env g|env g d rel|p h e|env p h ep spec|
    env rd ag spec|a|b]; cbn in Hc; try discriminate; call_cases; try done.
  - unfold recover_section. by repeat case_match; simplify_eq.
  - unfold recover_section. by repeat case_match; simplify_eq.
  - pose proof (spawn_section_accounted env (o_exited o) (o_now o) (o_clock o) (o_spawned o) s Hs) as Hsp.
    by destruct (spawn_section _ _ _ _ _ _) as [[|] s'].
  - unfold RuntimeOps.wait_step, alive_section. by repeat case_match; simplify_eq.
  - pose proof (publish_section_accounted env g c (o_exited o) (o_now o) (o_clock o) s) as Hp.
    by destruct (publish_section _ _ _ _ _ _ _).
  - pose proof (fail_section_accounted env g e (o_now o) s) as Hf.
    by destruct (fail_section _ _ _ _ _) as [[y p] s'].
Qed.

(** *** Counting crashes *)

(** [t] is inside the window the first of the crashes [ts] opened. *)
Definition in_window (ts : list N) (t : N) : bool :=
  match ts with [] => true | t0 :: _ => (t <=? t0 + RECOVERY_WINDOW)%N end.

(** What the supervisor knows after the crashes [ts]. *)
Definition tallied (ts : list N) (s : Supervisor) : Prop :=
  match ts with
  | [] => recovery s = None
  | t0 :: _ =>
      (exists r, recovery s = Some r /\ window_start r = t0 /\
         safe_stop r = (RECOVERY_BUDGET <=? N.of_nat (length ts))%N /\
         (safe_stop r = false -> crash_count r = N.of_nat (length ts))) /\
      (process s = None -> state s = Some (down s))
  end.

Lemma tallied_latch ts s : tallied ts s -> is_safe_stop s = (RECOVERY_BUDGET <=? N.of_nat (length ts))%N.
Proof.
  unfold is_safe_stop. destruct ts as [|t0 ts]; cbn [tallied]; [by intros -> |].
  by intros [(r & -> & _ & -> & _) _].
Qed.

Lemma tallied_crash ts t s s' :
  tallied ts s -> in_window ts t = true -> recovery s' = recovery (record_crash t s) ->
  (process s' = None -> state s' = Some (down s')) -> tallied (ts ++ [t]) s'.
Proof.
  intros Ht Hw Hr Hst. destruct ts as [|t0 ts]; cbn [tallied app in_window] in *.
  - rewrite (record_crash_first t s Ht) in Hr. split; [| done]. by eexists.
  - destruct Ht as [(r & Hs & <- & Hl & Hc) _]. apply N.leb_le in Hw.
    rewrite (record_crash_in_window t s r Hs Hw) in Hr. split; [| done].
    eexists. split_and!; [exact Hr | done | |]; cbn [safe_stop crash_count];
      rewrite Hl in *; cbn [length] in *; rewrite length_app; cbn [length];
      destruct (N.leb_spec RECOVERY_BUDGET (N.of_nat (S (length ts)))) as [Hb|Hb].
    + rewrite orb_true_r. symmetry. apply N.leb_le. lia.
    + rewrite Hc, orb_false_r by done. unfold RECOVERY_BUDGET in Hb.
      rewrite u64_add_small by (unfold U64_MAX; lia). f_equal. lia.
    + by rewrite orb_true_r.
    + intros _. rewrite Hc by done. unfold RECOVERY_BUDGET in Hb.
      rewrite u64_add_small by (unfold U64_MAX; lia). lia.
Qed.

Lemma tallied_step ts t s s' :
  tallied ts s -> accounted t s s' -> (lost s s' = true -> in_window ts t = true) ->
  tallied (ts ++ if lost s s' then [t] else []) s'.
Proof.
  intros Ht [(-> & Hr & Hst) | (Hl & Hr & Hst)] Hw.
  - rewrite app_nil_r. destruct ts as [|t0 ts]; cbn [tallied] in *; [by rewrite Hr |].
    rewrite Hr. destruct Ht as [Hex Hd]. split; [done |]. intros [Hp [Hs | Hs]]%Hst; [| done].
    rewrite Hs, Hd by done. unfold down, is_safe_stop. by rewrite Hr.
  - rewrite Hl in *. apply (tallied_crash ts t s); auto.
Qed.

Section Crashes.
Context (url_parse : text -> option Url) `{Fs}.

Abbreviation call_step := (RuntimeOps.call_step url_parse).
Abbreviation exec_event := (exec_event url_parse).

(** No step of the schedule is an operator's. *)
Fixpoint unattended (w : Pool) (xs : list Event) : bool :=
  match xs with
  | [] => true
  | x :: xs =>
      match x with
      | Run i _ => match calls w !! i with Some c => negb (operates c) | None => true end
      | Arrive _ => true
      end && unattended (exec_event w x) xs
  end.

(** The times at which the schedule loses a process. *)
Fixpoint crashes (w : Pool) (xs : list Event) : list N :=
  match xs with
  | [] => []
  | x :: xs =>
      match x with
      | Run _ o => if lost (sup w) (sup (exec_event w x)) then [o_now o] else []
      | Arrive _ => []
      end ++ crashes (exec_event w x) xs
  end.

Lemma crashes_tallied xs w ts :
  reachable_pool url_parse w -> unattended w xs = true -> tallied ts (sup w) ->
  Forall (fun t => in_window (ts ++ crashes w xs) t = true) (crashes w xs) ->
  tallied (ts ++ crashes w xs) (sup (foldl exec_event w xs)).
Proof.
  revert w ts. induction xs as [|x xs IH]; intros w ts Hw Hu Ht Hin; cbn in *; [by rewrite app_nil_r |].
  apply andb_true_iff in Hu as [Hx Hu].
  pose proof (exec_event_reachable url_parse w x Hw) as Hw'.
  destruct x as [c|i o]; cbn [app] in *.
  - apply IH; [done.. | | done]. cbn. by destruct (is_entry c).
  - rewrite app_assoc in *. apply IH; [done | done | | by apply Forall_app in Hin as [_ ?]].
    cbn in *. destruct (calls w !! i) as [c|] eqn:Hi; [| rewrite lost_refl; by rewrite app_nil_r].
    apply negb_true_iff in Hx. cbn in *. apply tallied_step; [done | |].
    + apply call_step_accounted; [| done]. by apply pool_reachable_ok in Hw as [? _ _ _].
    + intros Hl. rewrite Hl in Hin. cbn in Hin. apply Forall_cons in Hin as [Hin _].
      destruct ts; [done | exact Hin].
Qed.

(** A status poll or a binding lookup of an environment, and that a call is about
    to launch it. *)
Definition polls (e : ManagedEnvironment) (c : Call) : Prop :=
  c = CStatus e \/ exists expected, expected <> 0%N /\ c = CBinding e expected.
Definition restarts (c : Call) : bool := match c with CSpawn _ _ _ _ => true | _ => false end.

Lemma poll_restarts e c o s :
  is_managed e = true -> polls e c ->
  restarts (call_step o c s).1 =
    auto_restart_eligible (refresh_exit (o_exited o) (o_now o) s) && negb (other_environment (id e) s).
Proof.
  intros Hm Hc.
  assert (Ho : other_environment (id e) (refresh_exit (o_exited o) (o_now o) s) = other_environment (id e) s).
  { unfold refresh_exit. by destruct (_ && _). }
  rewrite <- Ho. clear Ho.
  destruct Hc as [-> | (x & Hx%N.eqb_neq & ->)]; call_cases; rewrite Hm, ?Hx; cbn [negb];
    unfold recover_section; destruct (other_environment _ _); rewrite ?andb_false_r, ?andb_true_r; try done;
    unfold auto_restart_eligible;
    (destruct (retained_spec _);
     [rewrite (bool_decide_eq_true_2 (is_Some _)) by done; rewrite andb_true_r; by destruct (_ && _)
     | by rewrite andb_false_r]).
Qed.

(** What a poll makes of the accounting. *)
Lemma tallied_eligible ts s :
  sup_ok s -> tallied ts s ->
  auto_restart_eligible s =
    negb (has_live_generation s) && (1 <=? length ts)%nat && (N.of_nat (length ts) <? RECOVERY_BUDGET)%N &&
    auto_restart s && bool_decide (is_Some (retained_spec s)).
Proof.
  intros Hs Ht. unfold auto_restart_eligible, has_live_generation. destruct (process s) as [p|] eqn:Hp.
  - rewrite (bool_decide_eq_true_2 (is_Some (Some p))) by done. cbn [negb andb].
    destruct (ok_process _ Hs p Hp) as (_ & [-> | ->] & _); done.
  - rewrite (bool_decide_eq_false_2 (is_Some None)) by by intros []. cbn [negb andb].
    destruct ts as [|t0 ts]; cbn [tallied] in Ht; [by rewrite Ht, andb_false_r |].
    pose proof (tallied_latch (t0 :: ts) s Ht) as Hl. destruct Ht as [(r & Hr & _ & Hs' & _) Hst].
    rewrite Hst by done. unfold down. rewrite Hl, Hr, Hs'. rewrite N.ltb_antisym. cbn [length Nat.leb andb].
    by destruct (RECOVERY_BUDGET <=? _)%N, (auto_restart s).
Qed.

(** C32.  Crashes inside one recovery window are counted exactly and the third
    stops the automatic restarts.  Take any schedule of interleaved calls,
    endpoint publications included, in which no operator starts, stops or
    restarts, from a reachable supervisor with no crash on its account.  Safe
    Stop is latched exactly when three or more processes have been lost, and
    without a process the state is Safe Stop then and Crashed before.  A status
    poll or binding lookup decides to restart exactly when the policy is on,
    there is a recipe of this environment, the process is gone, and the crashes,
    with the one this call may find itself inside the window, are one or two: so
    no poll decides to restart from Safe Stop.  (A poll that had decided before
    the latch still launches: [safe_stop_left_by_second_poll].) *)
Theorem crash_loop_latches_safe_stop w xs :
  reachable_pool url_parse w -> recovery (sup w) = None -> unattended w xs = true ->
  let ts := crashes w xs in
  Forall (fun t => in_window ts t = true) ts ->
  let s := sup (foldl exec_event w xs) in
  let latched := (RECOVERY_BUDGET <=? N.of_nat (length ts))%N in
  is_safe_stop s = latched /\
  (ts <> [] -> process s = None -> state s = Some (if latched then SafeStop else Crashed)) /\
  forall e c o,
    is_managed e = true -> polls e c -> process s = None \/ in_window ts (o_now o) = true ->
    let found := has_live_generation s && o_exited o in
    let n := length ts + if found then 1 else 0 in
    restarts (call_step o c s).1 =
      (negb (has_live_generation s) || o_exited o) &&
      (1 <=? n)%nat && (N.of_nat n <? RECOVERY_BUDGET)%N &&
      auto_restart s && bool_decide (is_Some (retained_spec s)) && negb (other_environment (id e) s).
Proof.
  intros Hw Hr Hu ts Hin s latched.
  pose proof (crashes_tallied xs w [] Hw Hu Hr Hin) as Ht. cbn [app] in Ht. change (tallied ts s) in Ht.
  assert (Hok : sup_ok s).
  { by apply (events_reachable url_parse xs), pool_reachable_ok in Hw as [? _ _ _]. }
  pose proof (tallied_latch ts s Ht) as Hl. split_and!; [done | |].
  - intros Hne Hp. destruct ts as [|t0 ts']; [done |]. destruct Ht as [_ Hst]. rewrite Hst by done.
    unfold down. by rewrite Hl.
  - intros e c o Hm Hc Hwin found n. rewrite (poll_restarts e c o s Hm Hc). f_equal.
    pose proof (refresh_exit_accounted (o_exited o) (o_now o) s) as Hacc.
    pose proof (refresh_exit_ok (o_exited o) (o_now o) s Hok) as Hok1.
    assert (Hlost : lost s (refresh_exit (o_exited o) (o_now o) s) = found).
    { subst found. unfold lost, has_live_generation.
      destruct (refresh_exit_cases (o_exited o) (o_now o) s) as [[-> Hx] | (-> & [p Hp] & -> & _)].
      - destruct (process s) as [p|]; [| done]. rewrite Hx by done. by rewrite !bool_decide_eq_true_2.
      - by rewrite Hp. }
    apply (tallied_step ts) in Hacc; [| done |].
    2: { rewrite Hlost. subst found. unfold has_live_generation. destruct Hwin as [-> | ?]; done. }
    rewrite (tallied_eligible _ _ Hok1 Hacc), Hlost, length_app.
    replace (length (if found then [o_now o] else [])) with (if found then 1 else 0) by by destruct found.
    replace (has_live_generation (refresh_exit (o_exited o) (o_now o) s))
      with (has_live_generation s && negb (o_exited o)).
    2: { unfold has_live_generation.
         destruct (refresh_exit_cases (o_exited o) (o_now o) s) as [[-> Hx] | (-> & Hp & -> & _)].
         - case_bool_decide as Hp; [| done]. by rewrite Hx.
         - by rewrite andb_false_r. }
    rewrite negb_andb, negb_involutive. unfold refresh_exit. by destruct (_ && _).
Qed.
End Crashes.

(** Three crashes: one a poll finds, one after the restarted generation was
    published, one found by the second restart's own wait. *)
Definition crash_loop : list Event :=
  [Arrive (CStatus sample_env); Run 0 (gone 2); Run 0 (quiet 2); Run 0 (quiet 2); Run 0 (marked 2);
   Run 0 (quiet 2); Run 0 (quiet 2);
   Arrive (CBinding sample_env 2); Run 0 (gone 3); Run 0 (quiet 3); Run 0 (gone 4)].

Example crash_loop_publishes : state (sup (exec sample_parse (healthy_start ++ take 7 crash_loop))) = Some Healthy.
Proof. vm_compute. reflexivity. Qed.

Lemma crash_loop_latches_safe_stop_witness :
  let s := sup (foldl (exec_event sample_parse) running crash_loop) in
  crashes sample_parse running crash_loop = [2%N; 3%N; 4%N] /\ state s = Some SafeStop /\
  restarts (call_step sample_parse (gone 5) (CStatus sample_env) s).1 = false.
Proof.
  destruct (crash_loop_latches_safe_stop sample_parse running crash_loop) as (_ & Hst & Hall).
  - apply exec_reachable.
  - reflexivity.
  - vm_compute. reflexivity.
  - vm_compute. repeat constructor.
  - split_and!; [vm_compute; reflexivity | |].
    + rewrite Hst; [vm_compute; reflexivity | vm_compute; congruence | vm_compute; reflexivity].
    + rewrite (Hall sample_env (CStatus sample_env) (gone 5)); [vm_compute; reflexivity | reflexivity | by left |].
      left. vm_compute. reflexivity.
Defined.

(** Whatever the interleaving, a status poll or a binding lookup that
    decides to restart does so from the retained recipe of its own environment,
    with the policy on, after a crash, and with fewer crashes in the window than
    the budget. *)
Theorem auto_restart_within_budget url_parse `{Fs} w e expected o c env spec timeout k s' :
  reachable_pool url_parse w -> c = CStatus e \/ c = CBinding e expected ->
  call_step url_parse o c (sup w) = (CSpawn env spec timeout k, s') ->
  env = id e /\ (environment_id s' = None \/ environment_id s' = Some env) /\
  state s' = Some Crashed /\ process s' = None /\
  auto_restart s' = true /\ retained_spec s' = Some spec /\
  exists r, recovery s' = Some r /\ safe_stop r = false /\
    (1 <= crash_count r < RECOVERY_BUDGET)%N.
Proof.
  intros [Hs _ _ _]%pool_reachable_ok Hc Hstep.
  assert (Hrec : env = id e /\ recover_section (id e) (o_exited o) (o_now o) (sup w) = (Ok (Some spec), s')).
  { destruct Hc as [-> | ->]; call_cases in Hstep; repeat case_match; simplify_eq; done. }
  destruct Hrec as [-> Hrec]. split; [done |].
  pose proof (recover_section_ok (id e) (o_exited o) (o_now o) _ Hs) as [Hok _]. rewrite Hrec in Hok.
  unfold recover_section in Hrec. set (s1 := refresh_exit _ _ _) in *.
  destruct (other_environment (id e) s1) eqn:Ho; [done |].
  destruct (auto_restart_eligible s1) eqn:Hel; [| done]. injection Hrec as Hspec <-.
  unfold auto_restart_eligible in Hel. rewrite !andb_true_iff in Hel.
  destruct Hel as (((Hst%bool_decide_eq_true & Ha) & Hr) & _). cbn in Hok.
  split_and!; try done.
  - unfold other_environment in Ho. destruct (environment_id s1) as [i|]; [| by left].
    apply negb_false_iff, bool_decide_eq_true in Ho as ->. by right.
  - destruct (process s1) as [q|] eqn:Hq; [| done].
    destruct (ok_process _ Hok _ Hq) as (_ & [Hx | Hx] & _); by rewrite Hx in Hst.
  - destruct (recovery s1) as [r|] eqn:Hrr; [| done]. apply negb_true_iff in Hr.
    exists r. by split_and!; [| | apply (ok_recovery _ Hok r Hrr Hr)..].
Qed.

Lemma auto_restart_within_budget_witness :
  exists s' spec, state s' = Some Crashed /\ retained_spec s' = Some spec.
Proof.
  destruct (call_step sample_parse (gone 5) (CStatus sample_env) (sup running)) as [c s'] eqn:Hstep.
  assert (Hc : exists spec, c = CSpawn (txt "main") spec START_TIMEOUT KReturn).
  { vm_compute in Hstep. injection Hstep as <- _. eexists. reflexivity. }
  destruct Hc as [spec ->]. exists s', spec.
  destruct (auto_restart_within_budget sample_parse running sample_env 1 (gone 5) _ _ _ _ _ _
    (exec_reachable _ _) (or_introl eq_refl) Hstep) as (_ & _ & Hst & _ & _ & Hr & _).
  split; [exact Hst | exact Hr].
Defined.

Lemma recipe_stays_on_loopback_witness :
  exists spec, build_launch_spec sample_env = Ok spec /\ expected_port spec = Some 8123%N.
Proof.
  destruct (build_launch_spec sample_env) as [spec|] eqn:Hspec; [| vm_compute in Hspec; discriminate].
  exists spec. destruct (recipe_stays_on_loopback sample_env spec Hspec) as (_ & Hp & _).
  split; [reflexivity | exact Hp].
Defined.

(** ** Calls end *)

(** How far stopping a process is from its end, *)
Definition halt_rank (h : Halt) : nat :=
  match h with HStop => 6 | HTerm _ => 5 | HForce => 4 | HKill _ => 3 | HDrop => 2 | HReap => 1 end.
Definition halt_deadline (h : Halt) : N := match h with HTerm d | HKill d => d | _ => 0 end.

(** and how many phases a call has left: every loop is one. *)
Definition rank (c : Call) : nat :=
  match c with
  | CDone _ | CBound _ => 0
  | CLookup _ _ | CReport _ | CStopFailed _ _ | CStopped _ _ _ _ => 1
  | CPublish _ _ _ _ | CReleasing _ _ _ _ => 2
  | CFailed _ _ h _ _ | CDropping _ h _ => 1 + halt_rank h
  | CStopping _ _ _ h _ => 2 + halt_rank h
  | CFail _ _ _ _ _ => 8
  | CStop _ _ => 9
  | CWait _ _ (WConfirm _) _ _ => 9
  | CWait _ _ (WGrace _ _) _ _ => 10
  | CWait _ _ (WPoll _) _ _ => 11
  | CWait _ _ (WHead _) _ _ => 12
  | CSpawn _ _ _ _ => 13
  | CStart _ | CStatus _ | CBinding _ _ | CVacating _ _ (Some _) _ => 14
  | CVacating _ _ None _ => 15
  | CRestarting _ _ h _ _ => 15 + halt_rank h
  | CRestart _ _ => 22
  end.

(** The instant by which the loop a call is in is over. *)
Definition limit (c : Call) : N :=
  match c with
  | CWait _ _ (WGrace _ until) _ _ => until
  | CWait _ _ _ d _ => d
  | CFailed _ _ h _ _ | CDropping _ h _ | CStopping _ _ _ h _ | CRestarting _ _ h _ _ => halt_deadline h
  | CReleasing _ _ _ rd | CVacating _ rd None _ => rd
  | CVacating _ _ (Some deadline) _ => (deadline + ENDPOINT_RELEASE_TIMEOUT)%N
  | _ => 0
  end.

(** Every deadline a call holds at [t] is at most the longest timeout away. *)
Definition timed (t : N) (c : Call) : Prop :=
  match c with
  | CSpawn _ _ timeout _ => (timeout <= START_TIMEOUT)%N
  | CWait _ _ (WGrace _ until) d _ => (until <= t + START_TIMEOUT /\ d <= t + START_TIMEOUT)%N
  | CVacating _ rd (Some deadline) _ =>
      (rd <= deadline + ENDPOINT_RELEASE_TIMEOUT /\ deadline <= t + ENDPOINT_RELEASE_TIMEOUT)%N
  | _ => (limit c <= t + START_TIMEOUT)%N
  end.

(** The call is in the wait for a dropped child. *)
Definition reaping (c : Call) : bool :=
  match c with
  | CFailed _ _ HReap _ _ | CDropping _ HReap _ | CStopping _ _ _ HReap _ | CRestarting _ _ HReap _ _ => true
  | _ => false
  end.

Lemma halt_step_progress `{Fs} o h t :
  (halt_deadline h <= t + START_TIMEOUT)%N -> (t <= o_instant o)%N -> (h = HReap -> o_reaped o = true) ->
  match halt_step o h with
  | inr _ => True
  | inl h' =>
      (halt_deadline h' <= o_instant o + START_TIMEOUT)%N /\
      (halt_rank h' < halt_rank h \/ h' = h /\ (o_instant o < halt_deadline h)%N)
  end.
Proof.
  intros Hd Ht Hr. unfold halt_step, START_TIMEOUT, STOP_TIMEOUT in *.
  destruct h; [| | | | | rewrite Hr by done; done];
    repeat case_match; simplify_eq; cbn in *; try done; rewrite ?N.leb_gt in *; (split; [lia |]);
    first [left; lia | right; split; [done | lia]].
Qed.

Lemma halt_rank_pos h : 1 <= halt_rank h <= 6.
Proof. destruct h; cbn; lia. Qed.

Lemma return_to_rank env k a t : rank (return_to env k a) <= 1 /\ timed t (return_to env k a).
Proof. destruct k; cbn; split; lia. Qed.

(** A step at [o_instant] ends its phase, or finds its loop's limit ahead. *)
Definition moves_on (o : Obs) (c c' : Call) : Prop :=
  timed (o_instant o) c' /\
  (rank c' < rank c \/ rank c' = rank c /\ limit c' = limit c /\ (o_instant o < limit c)%N).

Lemma moves_to o c c' : timed (o_instant o) c' -> rank c' < rank c -> moves_on o c c'.
Proof. split; auto. Qed.

(** A phase that stops a process, given what it does when the stop is over. *)
Lemma moves_halt `{Fs} o t c h (stay : Halt -> Call) after :
  c = stay h -> (halt_deadline h <= t + START_TIMEOUT)%N -> (t <= o_instant o)%N ->
  (h = HReap -> o_reaped o = true) ->
  (forall h', limit (stay h') = halt_deadline h') ->
  (forall h' t', (halt_deadline h' <= t' + START_TIMEOUT)%N -> timed t' (stay h')) ->
  (exists n, forall h', rank (stay h') = n + halt_rank h') ->
  (forall r, moves_on o c (after r)) ->
  moves_on o c (match halt_step o h with inl h' => stay h' | inr r => after r end).
Proof.
  intros -> Hd Ht Hr Hlim Htm [n Hn] Hafter. pose proof (halt_step_progress o h t Hd Ht Hr) as Hp.
  destruct (halt_step o h) as [h'|r]; [| done]. destruct Hp as [Hd' Hp]. split; [auto |].
  rewrite !Hn, !Hlim. destruct Hp as [Hlt | [-> Hlt]]; [left; lia | by right].
Qed.

Lemma moves_wait url_parse `{Fs} o t env g w d k s :
  timed t (CWait env g w d k) -> (t <= o_instant o)%N ->
  moves_on o (CWait env g w d k) (waiting_step url_parse o env g w d k s).1.
Proof.
  intros Hd Ht. unfold waiting_step, RuntimeOps.wait_step. destruct (alive_section _ _ _ _ _) as [alive s'].
  destruct w as [[p|]|p|p u|c]; cbn in Hd;
    repeat case_match; simplify_eq; cbn [fst]; rewrite ?N.leb_gt, ?N.leb_le in *;
    unfold START_TIMEOUT in *;
    first [apply moves_to; cbn; unfold START_TIMEOUT, MARKER_GRACE; lia
          | split; cbn; unfold START_TIMEOUT; [lia | right; split_and!; [done | done | lia]]].
Qed.

Lemma moves_vacating `{Fs} o t env rd ag spec :
  timed t (CVacating env rd ag spec) -> (t <= o_instant o)%N ->
  moves_on o (CVacating env rd ag spec) (vacating_step o env rd ag spec).
Proof.
  intros Hd Ht. unfold vacating_step, release_step, release_deadline. destruct ag as [dl|]; cbn in Hd;
    repeat case_match; simplify_eq; rewrite ?N.leb_gt, ?N.leb_le in *;
    unfold START_TIMEOUT, ENDPOINT_RELEASE_TIMEOUT in *;
    first [apply moves_to; cbn; unfold START_TIMEOUT, ENDPOINT_RELEASE_TIMEOUT; lia
          | split; cbn; unfold START_TIMEOUT, ENDPOINT_RELEASE_TIMEOUT; [lia | right; split_and!; [done | done | lia]]].
Qed.

Lemma call_step_moves url_parse `{Fs} o t c s :
  timed t c -> (t <= o_instant o)%N -> (reaping c = true -> o_reaped o = true) -> finished c = false ->
  moves_on o c (call_step url_parse o c s).1.
Proof.
  intros Hc Ht Hr Hf. pose proof halt_rank_pos as Hpos.
  assert (Hret : forall env k a c, 1 < rank c -> moves_on o c (return_to env k a)).
  { intros env k a c' Hc'. destruct (return_to_rank env k a (o_instant o)). apply moves_to; [done | lia]. }
  destruct c as [e|e|e g|e g|e g|env spec tm k|env g w dl k|env g c k|env g e own k|
    env p h e k|env|env g|env g p h ep|env g d rd|env g|env g d rel|p h e|env p h ep spec|
    env rd ag spec|a|b]; cbn in Hf; try discriminate.
  7: by apply (moves_wait url_parse o t).
  18: by apply (moves_vacating o t).
  1-5: call_cases; repeat case_match; simplify_eq; apply moves_to; cbn; unfold START_TIMEOUT; lia.
  - call_cases. repeat case_match; simplify_eq; [apply Hret; cbn; lia |].
    apply moves_to; cbn in *; lia.
  - call_cases. repeat case_match; simplify_eq. apply Hret. cbn. lia.
  - call_cases. destruct (fail_section _ _ _ _ _) as [[y [p|]] s']; cbn [fst]; [| apply Hret; cbn; lia].
    apply moves_to; cbn; unfold START_TIMEOUT; lia.
  - apply (moves_halt o t _ h (fun h => CFailed env p h e k) (fun _ => return_to env k (Err e)));
      try done; [intros ->; by apply Hr | by exists 1 |]. intros r. apply Hret. cbn. specialize (Hpos h). lia.
  - apply moves_to; cbn; lia.
  - call_cases. case_match. apply moves_to; cbn; lia.
  - apply (moves_halt o t _ h (fun h => CStopping env g p h ep) (fun r => match r with
      | None => CStopFailed env g
      | Some d => match ep with Some _ => CReleasing env g d (release_deadline o) | None => CStopped env g d true end
      end)); try done; [intros ->; by apply Hr | by exists 2 |].
    intros r. specialize (Hpos h). destruct r as [d|], ep;
      (apply moves_to; cbn; unfold release_deadline, ENDPOINT_RELEASE_TIMEOUT, START_TIMEOUT; lia).
  - call_cases. unfold release_step. cbn in Hc. repeat case_match; simplify_eq; rewrite ?N.leb_gt in *;
      [apply moves_to; cbn; lia .. |]. split; cbn; [lia | right; split_and!; [done | done | lia]].
  - apply moves_to; cbn; lia.
  - call_cases. case_match. apply moves_to; cbn; lia.
  - apply (moves_halt o t _ h (fun h => CDropping p h e) (fun _ => CDone (Err e)));
      try done; [intros ->; by apply Hr | by exists 1 |]. intros r. apply moves_to; cbn; lia.
  - apply (moves_halt o t _ h (fun h => CRestarting env p h ep spec) (fun _ =>
      match ep with
      | Some _ => CVacating env (release_deadline o) None spec
      | None => CSpawn env spec START_TIMEOUT KReturn
      end)); try done; [intros ->; by apply Hr | by exists 15 |].
    intros r. specialize (Hpos h). destruct ep;
      (apply moves_to; cbn; unfold release_deadline, ENDPOINT_RELEASE_TIMEOUT, START_TIMEOUT; lia).
Qed.

(** A call's own steps, each from the supervisor the other calls left it. *)
Fixpoint run_amid (url_parse : text -> option Url) `{Fs} (steps : list (Obs * Supervisor)) (c : Call) :
    Call :=
  match steps with
  | [] => c
  | (o, s) :: steps => run_amid url_parse steps (call_step url_parse o c s).1
  end.

(** The shortest sleep of the polling loops. *)
Definition POLL_INTERVAL : N := 20.

(** What such a run may observe from the instant [t] on: time goes on, by a sleep
    at least when the call stays in its loop, and a wait for a dropped child
    returns. *)
Fixpoint paced (url_parse : text -> option Url) `{Fs} (t : N) (steps : list (Obs * Supervisor)) (c : Call) :
    Prop :=
  match steps with
  | [] => True
  | (o, s) :: steps =>
      if finished c then True
      else
        let c' := (call_step url_parse o c s).1 in
        (t <= o_instant o)%N /\ (reaping c = true -> o_reaped o = true) /\
        paced url_parse (o_instant o + if (rank c' =? rank c)%nat then POLL_INTERVAL else 0) steps c'
  end.

(** At most 22 phases of at most ten seconds, in rounds of 20 ms. *)
Definition MAX_ROUNDS : N := 11045.

(** Twenty times the rounds a call has left at [t]. *)
Definition fuel (t : N) (c : Call) : N :=
  (N.of_nat (rank c) * (START_TIMEOUT + 2 * POLL_INTERVAL) + (limit c + POLL_INTERVAL - t))%N.

Lemma run_amid_finished url_parse `{Fs} steps c : finished c = true -> run_amid url_parse steps c = c.
Proof. intros Hf. induction steps as [|[o s] steps IH]; [done |]. cbn. by destruct c. Qed.

Lemma timed_limit t c : timed t c -> (limit c <= t + START_TIMEOUT)%N.
Proof.
  unfold START_TIMEOUT. destruct c as [| | | | | |? ? []| | | | | | | | | | | |? ? []| |]; cbn;
    unfold START_TIMEOUT, ENDPOINT_RELEASE_TIMEOUT; lia.
Qed.

Lemma timed_later t t' c : (t <= t')%N -> timed t c -> timed t' c.
Proof.
  intros Ht. destruct c as [| | | | | |? ? []| | | | | | | | | | | |? ? []| |]; cbn; lia.
Qed.

(** A wait that does not return. *)
Lemma unreaped_holds url_parse `{Fs} o c s :
  reaping c = true -> o_reaped o = false -> (call_step url_parse o c s).1 = c.
Proof.
  intros Hr Ho. destruct c as [| | | | | | | | |? ? []| | |? ? ? []| | | |? []|? ? []| | |]; try done;
    call_cases; unfold halt_step; by rewrite Ho.
Qed.

Lemma run_amid_ends url_parse `{Fs} steps t c :
  timed t c -> paced url_parse t steps c -> (fuel t c <= POLL_INTERVAL * N.of_nat (length steps))%N ->
  finished (run_amid url_parse steps c) = true.
Proof.
  revert t c. induction steps as [|[o s] steps IH]; intros t c Ht Hp Hfuel.
  - assert (rank c = 0) by (unfold fuel, START_TIMEOUT, POLL_INTERVAL in Hfuel; cbn [length] in Hfuel; lia).
    destruct c as [| | | | | |? ? []| | |? ? []| | |? ? ? []| | | |? []|? ? []|? ? []| |]; done.
  - cbn [run_amid]. destruct (finished c) eqn:Hf.
    { assert (E : (call_step url_parse o c s).1 = c) by by destruct c. rewrite E. by rewrite run_amid_finished. }
    cbn [paced] in Hp. rewrite Hf in Hp. destruct Hp as (Hle & Hr & Hp).
    destruct (call_step_moves url_parse o t c s Ht Hle Hr Hf) as [Ht' Hmv].
    set (c' := (call_step url_parse o c s).1) in *. clearbody c'.
    apply (IH (o_instant o + if (rank c' =? rank c)%nat then POLL_INTERVAL else 0)%N); [| done |].
    + eapply timed_later; [| exact Ht']. lia.
    + pose proof (timed_limit _ _ Ht'). unfold fuel in *. cbn [length] in Hfuel.
      unfold START_TIMEOUT, POLL_INTERVAL in *.
      destruct Hmv as [Hlt | (Hrk & -> & Hlt)].
      * case_match; lia.
      * rewrite Hrk, Nat.eqb_refl. lia.
Qed.

(** C33.  Every operation ends, unless a killed child stays.  From its entry on, an
    operation is over after at most [MAX_ROUNDS] of its own steps, whatever the
    other calls do to the supervisor between them and whatever the processes,
    the signals, the wall clock and the ports do: each of its loops (readiness,
    marker grace, confirmation, the two waits of a stop, the checks that the
    endpoint is free) is over at its deadline.  This needs that the monotonic
    clock goes on, that the sleep of a polling round lasts its 20 ms, that a
    caller of [start_with_spec] asks for at most [START_TIMEOUT], that the
    critical sections themselves return, and that [child.wait()] in the drop of a process that could not be stopped returns.
    That wait has no deadline: as long as it does not return, the call stays in
    it, however many steps it is given. *)
Theorem calls_end_after_deadline url_parse `{Fs} t steps c :
  is_entry c = true -> timed t c -> paced url_parse t steps c ->
  (MAX_ROUNDS <= N.of_nat (length steps))%N ->
  finished (run_amid url_parse steps c) = true /\
  forall steps' c', reaping c' = true -> Forall (fun x => o_reaped x.1 = false) steps' ->
    run_amid url_parse steps' c' = c'.
Proof.
  intros He Ht Hp Hlen. split.
  - apply (run_amid_ends url_parse steps t c); [done | done |].
    unfold fuel, MAX_ROUNDS, START_TIMEOUT, POLL_INTERVAL in *.
    destruct c; cbn in He; try discriminate; cbn [rank limit]; lia.
  - intros steps' c' Hr Hs. induction Hs as [|[o s] steps' Ho Hs IH]; [done |]. cbn [fst] in Ho.
    cbn [run_amid]. by rewrite (unreaped_holds url_parse o c' s Hr Ho).
Qed.

(** A stop, against a child that ignores SIGTERM and dies of SIGKILL, with the
    port free at once. *)
Definition stubborn (t : N) : Obs :=
  {| o_exited := false; o_now := t; o_clock := Some t; o_instant := t; o_spawned := Ok tt;
     o_marker := None; o_probe := false; o_child := if (t <? 2100)%N then TRunning else TExited;
     o_signalled := true; o_reaped := true; o_accepts := false |}.

Definition stop_steps : list (Obs * Supervisor) :=
  (fun n => (stubborn (20 * N.of_nat n), sup running)) <$> seq 0 (N.to_nat MAX_ROUNDS).

(** [paced], decided. *)
Fixpoint pacedb (t : N) (steps : list (Obs * Supervisor)) (c : Call) : bool :=
  match steps with
  | [] => true
  | (o, s) :: steps =>
      if finished c then true
      else
        let c' := (call_step sample_parse o c s).1 in
        (t <=? o_instant o)%N && (negb (reaping c) || o_reaped o) &&
        pacedb (o_instant o + if (rank c' =? rank c)%nat then POLL_INTERVAL else 0) steps c'
  end.

Lemma pacedb_paced steps t c : pacedb t steps c = true -> paced sample_parse t steps c.
Proof.
  revert t c. induction steps as [|[o s] steps IH]; intros t c; cbn; [done |].
  destruct (finished c); [done |]. rewrite !andb_true_iff. intros [[Ht%N.leb_le Hr] Hp].
  split_and!; [done | | by apply IH]. by destruct (reaping c).
Qed.

Lemma calls_end_after_deadline_witness :
  finished (run_amid sample_parse stop_steps (CStop sample_env 1)) = true.
Proof.
  apply (calls_end_after_deadline sample_parse 0).
  - reflexivity.
  - vm_compute. discriminate.
  - apply pacedb_paced. vm_compute. reflexivity.
  - vm_compute. discriminate.
Defined.

Lemma unreaped_pool i c t n w :
  calls w !! i = Some c -> reaping c = true ->
  calls (foldl (exec_event sample_parse) w (repeat (Run i (stuck t)) n)) = calls w.
Proof.
  intros Hi Hr. revert w Hi. induction n as [|n IH]; intros w Hi; [done |].
  assert (E : calls (exec_event sample_parse w (Run i (stuck t))) = calls w).
  { cbn [exec_event]. rewrite Hi. cbn [calls]. rewrite unreaped_holds by done. by apply list_insert_id. }
  cbn [repeat foldl]. rewrite IH; rewrite E; done.
Qed.

(** The child no signal ends: both waits of the stop run out, and the call is in
    the drop's wait, where it stays however often it is scheduled. *)
Example unkillable_child_holds_stop :
  let w := exec sample_parse
    (healthy_start ++ [Arrive (CStop sample_env 1); Run 0 (stuck 2); Run 0 (stuck 3); Run 0 (stuck 2003);
                       Run 0 (stuck 2004); Run 0 (stuck 4004); Run 0 (stuck 4005)]) in
  reaping <$> calls w !! 0 = Some true /\
  forall n, calls (foldl (exec_event sample_parse) w (repeat (Run 0 (stuck 9999)) n)) = calls w.
Proof.
  intros w. assert (Hw : reaping <$> calls w !! 0 = Some true) by (vm_compute; reflexivity).
  split; [exact Hw |]. intros n. apply fmap_Some in Hw as (c & Hc & Hr). by apply (unreaped_pool 0 c).
Qed.

(** ** Interleavings the documentation rules out *)

(** No generation is live while it is stopping: the process is out of the
    supervisor before its tree is stopped. *)
Lemma stopping_is_not_live url_parse `{Fs} w :
  reachable_pool url_parse w -> state (sup w) = Some Stopping -> has_live_generation (sup w) = false.
Proof.
  intros [Hs _ _ _]%pool_reachable_ok Hst. apply bool_decide_eq_false_2. intros [p Hp].
  destruct (ok_process _ Hs p Hp) as (_ & [Hx | Hx] & _); by rewrite Hx in Hst.
Qed.

(** Two process trees at once: a restart takes the retained process out and
    stops it without holding the lock; a start that arrives in between spawns
    the next generation while the old tree is still there. *)
Example two_process_trees :
  live_trees (exec sample_parse
    (healthy_start ++
     [Arrive (CRestart sample_env 1); Run 0 (quiet 2);
      Arrive (CStart sample_env); Run 0 (quiet 3); Run 0 (quiet 3)])) = [2%N; 1%N].
Proof. vm_compute. reflexivity. Qed.

(** An explicit stop undone: a status poll decides to restart and sleeps its
    back-off; the stop that arrives meanwhile answers Stopped; then the poll
    spawns a new generation without looking again. *)
Example stop_undone_by_backoff :
  let w := exec sample_parse
    (healthy_start ++ [Arrive (CStatus sample_env); Run 0 (gone 2);
                       Arrive (CStop sample_env 1); Run 0 (quiet 3)]) in
  state (sup w) = Some Stopped /\
  process (sup (foldl (exec_event sample_parse) w [Run 1 (quiet 4)])) = Some 2%N.
Proof. vm_compute. done. Qed.

(** A finished stop reported as a crash: a stop completes while the start of the
    same generation is still waiting; the waiting call then finds its process
    gone and overwrites Stopped with Crashed. *)
Example stop_overwritten_by_start :
  let w := exec sample_parse
    [Arrive (CStart sample_env); Run 0 (quiet 1); Run 0 (quiet 1);
     Arrive (CStop sample_env 1); Run 0 (quiet 2); Run 0 (quiet 2); Run 0 (quiet 2)] in
  state (sup w) = Some Stopped /\
  state (sup (foldl (exec_event sample_parse) w [Run 1 (quiet 3); Run 1 (quiet 3)])) = Some Crashed.
Proof. vm_compute. done. Qed.

(** The latch left behind: of two polls that decided to restart on the second
    crash, one restarts and its generation crashes into Safe Stop; the other
    still spawns the next one. *)
Example safe_stop_left_by_second_poll :
  let w := exec sample_parse
    (healthy_start ++ [Arrive (CStatus sample_env); Run 0 (gone 2); Run 0 (quiet 2);
                       Arrive (CStatus sample_env); Run 0 (gone 3);
                       Arrive (CStatus sample_env); Run 0 (gone 3); Run 0 (quiet 3);
                       Arrive (CStatus sample_env); Run 0 (gone 4)]) in
  state (sup w) = Some SafeStop /\
  process (sup (foldl (exec_event sample_parse) w [Run 2 (quiet 5)])) = Some 4%N.
Proof. vm_compute. done. Qed.
