(* ===== verification/ManagedProcess.v ===== *)
(** * The managed process

    Model of the process side of [crates/managed-runtime/src/supervisor.rs]: the
    reader threads of the two output pipes with the channel of endpoint markers,
    the HTTP readiness probe, and the Unix process tree (spawn, stop, drop).
    [RuntimeOps] takes what these answer as observations.

    A reader thread is a state per byte read; both threads and the receiver
    interleave freely over the channel.  The kernel is a table of processes with
    their groups, which end by themselves, on SIGTERM after a time of their own
    or never, and on SIGKILL at once; a sleep lasts at least as long as asked. *)
From S2P Require Import Prelude Text Environment Runtime.
From stdpp Require Import base strings gmap list option relations.
From Stdlib Require Import NArith ZArith Lia Strings.Byte.

(** ** Endpoint markers in the output *)

Definition OUTPUT_MARKER : text := txt "dsh web:".
Definition LF : byte := x0a.
Definition CR : byte := x0d.

(** The capacity of [mpsc::sync_channel(4)]. *)
Definition CHANNEL_CAPACITY : nat := 4.

Record Channel := { queue : list text; receiver_alive : bool }.

(** [SyncSender::try_send], whose error is ignored. *)
Definition try_send (v : text) (ch : Channel) : Channel :=
  if receiver_alive ch && (length (queue ch) <? CHANNEL_CAPACITY)%nat
  then {| queue := queue ch ++ [v]; receiver_alive := true |} else ch.

(** [Receiver::try_recv] *)
Definition try_recv (ch : Channel) : option text * Channel :=
  match queue ch with
  | [] => (None, ch)
  | v :: q => (Some v, {| queue := q; receiver_alive := receiver_alive ch |})
  end.

(** What [maybe_send_candidate] sends of a line. *)
Definition candidate_of (line : list byte) : option text :=
  match from_utf8 line with
  | Some s => trim <$> Text.strip_prefix OUTPUT_MARKER (trim s)
  | None => None
  end.

(** [maybe_send_candidate] *)
Definition maybe_send_candidate (line : list byte) (ch : Channel) : Channel :=
  match candidate_of line with Some c => try_send c ch | None => ch end.

(** The locals of the thread of [spawn_output_reader]. *)
Record OutputReader := { line : list byte; overflow : bool }.
Definition new_reader : OutputReader := {| line := []; overflow := false |}.

(** The body of [for byte in &chunk[..read]]: the next state, and the line that is
    handed to [maybe_send_candidate]. *)
Definition reader_byte (b : byte) (r : OutputReader) : OutputReader * option (list byte) :=
  if bool_decide (b = LF) then (new_reader, if overflow r then None else Some (line r))
  else if bool_decide (b = CR) then (r, None)
  else if (N.of_nat (length (line r)) <? MAX_OUTPUT_LINE_BYTES)%N
  then ({| line := line r ++ [b]; overflow := overflow r |}, None)
  else ({| line := line r; overflow := true |}, None).

(** What follows the loop. *)
Definition reader_end (r : OutputReader) : option (list byte) :=
  if bool_decide (line r = []) || overflow r then None else Some (line r).

Definition hand_over (l : option (list byte)) (ch : Channel) : Channel :=
  match l with Some l => maybe_send_candidate l ch | None => ch end.

(** One chunk, when nothing else touches the channel. *)
Definition reader_chunk (chunk : list byte) (rc : OutputReader * Channel) : OutputReader * Channel :=
  foldl (fun '(r, ch) b => let '(r, l) := reader_byte b r in (r, hand_over l ch)) rc chunk.

(** The thread of [spawn_output_reader] over the chunks the pipe gives. *)
Definition output_reader (chunks : list (list byte)) (ch : Channel) : Channel :=
  let '(r, ch) := foldl (fun rc chunk => reader_chunk chunk rc) (new_reader, ch) chunks in
  hand_over (reader_end r) ch.

(** ** The readiness probe *)

(** What one [read] into the rest of the buffer gives. *)
Inductive ReadResult := Data (bytes : list byte) | ReadError.

(** The loop of [http_status_line_probe]: the bytes in a buffer of [room] more;
    the list of reads ends when the peer has closed. *)
Fixpoint read_status (room : nat) (reads : list ReadResult) : list byte :=
  match reads with
  | Data bytes :: reads =>
      if (room =? 0)%nat || bool_decide (bytes = []) then []
      else take room bytes ++ read_status (room - length (take room bytes)) reads
  | ReadError :: _ | [] => []
  end.

Definition HTTP_PREFIX : list byte := map (fun c => byte_of c) (txt "HTTP/1.").

(** [http_status_line_probe], of a buffer of 16 zero bytes *)
Definition http_status_line_probe (connected written : bool) (reads : list ReadResult) : bool :=
  if negb connected then false
  else if negb written then false
  else
    let got := read_status 16 reads in
    bool_decide (take (length HTTP_PREFIX) (got ++ repeat x00 (16 - length got)) = HTTP_PREFIX).

(** ** Processes on Unix *)

Record Proc := {
  p_group : N;
  exit_at : option N;      (* when it ends or has ended; [None]: it runs on *)
  on_term : option N;      (* how long it takes to end after SIGTERM; [None]: it ignores it *)
  reaped : bool
}.

Inductive Signal := SIGTERM | SIGKILL.

Record Kernel := {
  procs : gmap N Proc;
  now : N;                 (* milliseconds *)
  naps : nat;              (* the sleeps so far *)
  lag : nat -> N           (* how much longer each sleep lasts *)
}.

Inductive IoError := NoSuchProcess | NotAChild | StopTimedOut | OutOfFuel.

Definition has_exited (t : N) (p : Proc) : bool :=
  match exit_at p with Some e => (e <=? t)%N | None => false end.

Definition set_procs (ps : gmap N Proc) (k : Kernel) : Kernel :=
  {| procs := ps; now := now k; naps := naps k; lag := lag k |}.

(** [thread::sleep] *)
Definition sleep (ms : N) : M Kernel IoError unit :=
  modify (fun k => {| procs := procs k; now := (now k + ms + lag k (naps k))%N; naps := S (naps k); lag := lag k |}).

Definition end_by (t : N) (p : Proc) : Proc :=
  {| p_group := p_group p; exit_at := Some (match exit_at p with Some e => N.min e t | None => t end);
     on_term := on_term p; reaped := reaped p |}.

(** The effect of a signal on a process of the group. *)
Definition signalled (s : Signal) (t : N) (p : Proc) : Proc :=
  match s with
  | SIGKILL => end_by t p
  | SIGTERM => match on_term p with Some d => end_by (t + d) p | None => p end
  end.

Definition in_group (g : N) (p : Proc) : bool := (p_group p =? g)%N && negb (reaped p).

(** [libc::kill(-group, signal)]: an error when the group has no process. *)
Definition signal (g : N) (s : Signal) : M Kernel IoError unit := fun k =>
  if existsb (in_group g) (map_to_list (procs k)).*2
  then (Ok tt, set_procs ((fun p => if in_group g p then signalled s (now k) p else p) <$> procs k) k)
  else (Err NoSuchProcess, k).

(** [Child::try_wait], which reaps. *)
Definition try_wait (pid : N) : M Kernel IoError bool := fun k =>
  match procs k !! pid with
  | None => (Err NotAChild, k)
  | Some p =>
      if has_exited (now k) p
      then (Ok true, set_procs (<[pid := {| p_group := p_group p; exit_at := exit_at p; on_term := on_term p; reaped := true |}]> (procs k)) k)
      else (Ok false, k)
  end.

(** The loop of [wait_for_exit]. *)
Fixpoint wait_loop (fuel : nat) (pid deadline : N) : M Kernel IoError unit :=
  match fuel with
  | O => throw OutOfFuel
  | S fuel =>
      e ← try_wait pid;
      if (e : bool) then mret tt
      else
        t ← gets now;
        if (deadline <=? t)%N then throw StopTimedOut
        else sleep 20;; wait_loop fuel pid deadline
  end.

(** [wait_for_exit]; every round but the last takes 20 ms of the timeout. *)
Definition wait_for_exit (pid timeout : N) : M Kernel IoError unit :=
  t ← gets now;
  wait_loop (S (S (N.to_nat (timeout / 20)))) pid (t + timeout).

(** A computation whose error only counts as a failure ([.is_ok()]). *)
Definition is_ok_m {A} (x : M Kernel IoError A) : M Kernel IoError bool := fun k =>
  let '(r, k) := x k in (Ok (is_ok r), k).

(** [ProcessTree::stop] *)
Definition tree_stop (group pid : N) : M Kernel IoError StopDisposition :=
  sent ← is_ok_m (signal group SIGTERM);
  gone ← (if (sent : bool) then is_ok_m (wait_for_exit pid STOP_TIMEOUT) else mret false);
  if (gone : bool) then mret Graceful
  else
    signal group SIGKILL;;
    wait_for_exit pid STOP_TIMEOUT;;
    mret Forced.

(** [Child] and [ProcessTree] *)
Record ManagedProcess := { child : N; process_group : N }.

(** [let _ = self.child.wait()]: the child has been waited for or killed, and
    SIGKILL ends every process of this kernel, so the call returns at once.  (A
    child that survives SIGKILL holds its caller here: [RuntimeOps.halt_step].) *)
Definition ignore_wait (pid : N) : M Kernel IoError unit := is_ok_m (try_wait pid);; mret tt.

(** [ManagedProcess::stop] *)
Definition stop (p : ManagedProcess) : M Kernel IoError StopDisposition :=
  e ← try_wait (child p);
  if (e : bool) then mret Graceful
  else
    d ← tree_stop (process_group p) (child p);
    ignore_wait (child p);;
    mret d.

(** [impl Drop for ManagedProcess] *)
Definition drop_process (p : ManagedProcess) : M Kernel IoError unit :=
  r ← (fun k => let '(r, k) := try_wait (child p) k in (Ok (match r with Ok true => true | _ => false end), k));
  if (r : bool) then mret tt
  else is_ok_m (signal (process_group p) SIGKILL);; ignore_wait (child p).

Definition I32_MAX : N := 2147483647.

(** [ManagedProcess::spawn]: [spawned] is what [Command::spawn] gives, [on_term]
    how the program takes SIGTERM.  [configure_process_group] makes the child the
    leader of its group; [ProcessTree::attach] wants its id to be an [i32]. *)
Definition spawn (spawned : result text N) (term : option N) : M Kernel ManagedRuntimeError ManagedProcess := fun k =>
  match spawned with
  | Err e => (Err (SpawnFailed e), k)
  | Ok pid =>
      let k := set_procs (<[pid := {| p_group := pid; exit_at := None; on_term := term; reaped := false |}]> (procs k)) k in
      if (pid <=? I32_MAX)%N then (Ok {| child := pid; process_group := pid |}, k)
      else
        (Err (ProcessTreeFailed (txt "child id exceeds process-group range")),
         set_procs (alter (fun p => let p := end_by (now k) p in
           {| p_group := p_group p; exit_at := exit_at p; on_term := on_term p; reaped := true |}) pid (procs k)) k)
  end.

(** ** The threads of the two pipes *)

Inductive Stream := Stdout | Stderr.

(** A reader thread ([None]: it is over), what it has read and what it has offered
    to the channel. *)
Record Pipe := { thread : option OutputReader; seen : list byte; offers : list text }.

Record Output := {
  pipe_out : Pipe;
  pipe_err : Pipe;
  channel : Channel;
  offered : list text;     (* by both threads, in order *)
  received : list text
}.

Definition pipe (s : Stream) (w : Output) : Pipe := match s with Stdout => pipe_out w | Stderr => pipe_err w end.

(** A thread of [s] goes on to [p] and hands over the line [l]. *)
Definition advance (s : Stream) (t : option OutputReader) (read : list byte) (l : option (list byte)) (w : Output) : Output :=
  let news := option_list (l ≫= candidate_of) in
  let p := {| thread := t; seen := seen (pipe s w) ++ read; offers := offers (pipe s w) ++ news |} in
  {| pipe_out := match s with Stdout => p | Stderr => pipe_out w end;
     pipe_err := match s with Stdout => pipe_err w | Stderr => p end;
     channel := hand_over l (channel w); offered := offered w ++ news; received := received w |}.

Definition new_pipe : Pipe := {| thread := Some new_reader; seen := []; offers := [] |}.
Definition launched : Output :=
  {| pipe_out := new_pipe; pipe_err := new_pipe; channel := {| queue := []; receiver_alive := true |};
     offered := []; received := [] |}.

Inductive output_step : Output -> Output -> Prop :=
| step_byte s b r w :
    thread (pipe s w) = Some r ->
    output_step w (advance s (Some (reader_byte b r).1) [b] (reader_byte b r).2 w)
| step_end s r w :
    thread (pipe s w) = Some r -> output_step w (advance s None [] (reader_end r) w)
| step_recv v ch w :
    try_recv (channel w) = (Some v, ch) ->
    output_step w {| pipe_out := pipe_out w; pipe_err := pipe_err w; channel := ch; offered := offered w;
                     received := received w ++ [v] |}
| step_hang_up w :
    output_step w {| pipe_out := pipe_out w; pipe_err := pipe_err w;
                     channel := {| queue := []; receiver_alive := false |}; offered := offered w;
                     received := received w |}.

(** *** The lines of a stream *)

(** What a line offers: carriage returns do not count, and a longer line than the
    bound offers nothing. *)
Definition offer (l : list byte) : option text :=
  let l := List.filter (fun b => negb (bool_decide (b = CR))) l in
  if (N.of_nat (length l) <=? MAX_OUTPUT_LINE_BYTES)%N then candidate_of l else None.

(** The bytes [bs] are the lines [done] and the beginning [cur] of one. *)
Definition lines (bs : list byte) (done : list (list byte)) (cur : list byte) : Prop :=
  bs = mjoin (map (fun l => l ++ [LF]) done) ++ cur /\ Forall (fun l => LF ∉ l) done /\ (LF ∉ cur).

Lemma lines_byte bs done cur b :
  lines bs done cur -> b <> LF -> lines (bs ++ [b]) done (cur ++ [b]).
Proof. intros (-> & Hd & Hc) Hb. split_and!; [by rewrite app_assoc | done |]. rewrite elem_of_app, list_elem_of_singleton. naive_solver. Qed.

Lemma lines_end bs done cur : lines bs done cur -> lines (bs ++ [LF]) (done ++ [cur]) [].
Proof.
  intros (-> & Hd & Hc). split_and!; [| apply Forall_app; split; [done | by constructor] | set_solver].
  rewrite map_app, join_app. cbn. by rewrite !app_nil_r, <- app_assoc.
Qed.

(** The locals of a reader in the line [cur]. *)
Definition in_line (cur : list byte) (r : OutputReader) : Prop :=
  let l := List.filter (fun b => negb (bool_decide (b = CR))) cur in
  line r = take (N.to_nat MAX_OUTPUT_LINE_BYTES) l /\
  overflow r = (MAX_OUTPUT_LINE_BYTES <? N.of_nat (length l))%N.

Lemma in_line_offer cur r :
  in_line cur r -> (if overflow r then None else Some (line r)) ≫= candidate_of = offer cur.
Proof.
  intros [Hl Ho]. unfold offer. rewrite Ho, Hl. rewrite N.leb_antisym.
  destruct (N.ltb_spec MAX_OUTPUT_LINE_BYTES (N.of_nat (length (List.filter (fun b => negb (bool_decide (b = CR))) cur))));
    [done |]. cbn. by rewrite take_ge by lia.
Qed.

Lemma candidate_of_nil : candidate_of [] = None.
Proof. reflexivity. Qed.

Lemma in_line_end cur r : in_line cur r -> reader_end r ≫= candidate_of = offer cur.
Proof.
  intros Hin. rewrite <- (in_line_offer cur r Hin). unfold reader_end.
  case_bool_decide as Hl; cbn; [| by destruct (overflow r)]. rewrite Hl. by destruct (overflow r).
Qed.

Lemma in_line_byte cur r b :
  in_line cur r -> b <> LF -> in_line (cur ++ [b]) (reader_byte b r).1 /\ (reader_byte b r).2 = None.
Proof.
  intros [Hl Ho] Hb. unfold reader_byte, in_line. rewrite bool_decide_false by done. rewrite List.filter_app. cbn.
  case_bool_decide as Hc; cbn; [by rewrite app_nil_r |]. rewrite Hl, Ho.
  set (l := List.filter _ cur). rewrite length_app. cbn [length].
  destruct (N.ltb_spec (N.of_nat (length (take (N.to_nat MAX_OUTPUT_LINE_BYTES) l))) MAX_OUTPUT_LINE_BYTES) as [Hlt|Hge];
    cbn; rewrite length_take in *.
  - rewrite !take_ge by (rewrite ?length_app; cbn; lia). split_and!; [done | | done].
    transitivity false; [| symmetry]; apply N.ltb_ge; lia.
  - rewrite take_app_le by lia. split_and!; [done | | done]. symmetry. apply N.ltb_lt. lia.
Qed.

(** *** What reaches the supervisor *)

(** A pipe has offered what its lines offer. *)
Definition pipe_ok (p : Pipe) : Prop :=
  exists done cur, lines (seen p) done cur /\
    match thread p with
    | Some r => in_line cur r /\ offers p = omap offer done
    | None => offers p = omap offer done ++ option_list (offer cur)
    end.

(** What the supervisor has taken and will take are offers in their order, the
    first one included, and the queue is bounded. *)
Definition channel_ok (w : Output) : Prop :=
  sublist (received w ++ queue (channel w)) (offered w) /\ length (queue (channel w)) <= CHANNEL_CAPACITY /\
  (receiver_alive (channel w) = false -> queue (channel w) = []) /\
  (receiver_alive (channel w) = true -> head (received w ++ queue (channel w)) = head (offered w)) /\
  (received w <> [] -> head (received w) = head (offered w)).

Lemma pipe_advance s t read l w s' :
  pipe s' (advance s t read l w) =
  match s, s' with
  | Stdout, Stdout | Stderr, Stderr =>
      {| thread := t; seen := seen (pipe s w) ++ read; offers := offers (pipe s w) ++ option_list (l ≫= candidate_of) |}
  | _, _ => pipe s' w
  end.
Proof. by destruct s, s'. Qed.

Lemma pipe_ok_advance s t read l w s' :
  pipe_ok {| thread := t; seen := seen (pipe s w) ++ read;
             offers := offers (pipe s w) ++ option_list (l ≫= candidate_of) |} ->
  pipe_ok (pipe s' w) -> pipe_ok (pipe s' (advance s t read l w)).
Proof. intros H H'. rewrite pipe_advance. by destruct s, s'. Qed.

Lemma byte_pipe_ok s b r w :
  thread (pipe s w) = Some r -> pipe_ok (pipe s w) ->
  pipe_ok {| thread := Some (reader_byte b r).1; seen := seen (pipe s w) ++ [b];
             offers := offers (pipe s w) ++ option_list ((reader_byte b r).2 ≫= candidate_of) |}.
Proof.
  intros Ht (done & cur & Hlines & Hp). rewrite Ht in Hp. destruct Hp as [Hin Ho].
  destruct (decide (b = LF)) as [-> | Hb].
  - exists (done ++ [cur]), []. split; [by apply lines_end |]. cbn [thread offers].
    unfold reader_byte. rewrite bool_decide_true by done. cbn [fst snd]. split; [by split |].
    by rewrite (in_line_offer cur r Hin), Ho, omap_app.
  - exists done, (cur ++ [b]). split; [by apply lines_byte |]. destruct (in_line_byte cur r b Hin Hb) as [Hin' Hn].
    cbn [thread offers]. rewrite Hn. cbn. by rewrite app_nil_r.
Qed.

Lemma end_pipe_ok s r w :
  thread (pipe s w) = Some r -> pipe_ok (pipe s w) ->
  pipe_ok {| thread := None; seen := seen (pipe s w) ++ [];
             offers := offers (pipe s w) ++ option_list (reader_end r ≫= candidate_of) |}.
Proof.
  intros Ht (done & cur & Hlines & Hp). rewrite Ht in Hp. destruct Hp as [Hin Ho]. exists done, cur. cbn.
  rewrite app_nil_r. split; [done |]. by rewrite (in_line_end cur r Hin), Ho.
Qed.

(** Handing a line over keeps the channel in order. *)
Lemma hand_over_ok s t read l w : channel_ok w -> channel_ok (advance s t read l w).
Proof.
  intros (Hs & Hq & Hdead & Hhead & Hfirst). unfold channel_ok, advance, hand_over. cbn [received channel offered].
  destruct l as [l|]; cbn [mbind option_bind option_list]; [| by rewrite app_nil_r].
  unfold maybe_send_candidate. destruct (candidate_of l) as [v|]; cbn [option_list]; [| by rewrite app_nil_r].
  assert (Hmore : forall r, r <> [] -> head r = head (offered w) -> head r = head (offered w ++ [v])).
  { intros r Hr He. destruct r as [|x r]; [done |]. by destruct (offered w). }
  unfold try_send. destruct (receiver_alive (channel w)) eqn:Ha; cbn [andb];
    [destruct (Nat.ltb_spec (length (queue (channel w))) CHANNEL_CAPACITY) as [Hlt|Hge] |].
  - cbn. split_and!; [| rewrite length_app; cbn; lia | done | | intros Hr; by apply Hmore, Hfirst].
    + rewrite app_assoc. by apply sublist_app.
    + intros _. rewrite app_assoc. destruct (received w ++ queue (channel w)) as [|x l'] eqn:He.
      * specialize (Hhead eq_refl). by destruct (offered w).
      * cbn. specialize (Hhead eq_refl). cbn in Hhead. by destruct (offered w).
  - rewrite Ha. split_and!; [by apply sublist_inserts_r | done | done | | intros Hr; by apply Hmore, Hfirst].
    intros _. apply Hmore; [| by apply Hhead]. unfold CHANNEL_CAPACITY in Hge.
    destruct (received w), (queue (channel w)); cbn in *; lia || done.
  - rewrite Ha. split_and!; [by apply sublist_inserts_r | done | by apply Hdead | done |].
    intros Hr. by apply Hmore, Hfirst.
Qed.

Lemma recv_ok v ch w :
  channel_ok w -> try_recv (channel w) = (Some v, ch) ->
  channel_ok {| pipe_out := pipe_out w; pipe_err := pipe_err w; channel := ch; offered := offered w;
                received := received w ++ [v] |}.
Proof.
  intros (Hs & Hq & Hdead & Hhead & Hfirst). unfold try_recv.
  destruct (queue (channel w)) as [|x q] eqn:Hqueue; [done |]. intros [= -> <-].
  assert (Halive : receiver_alive (channel w) = true).
  { destruct (receiver_alive (channel w)); [done |]. discriminate (Hdead eq_refl). }
  unfold channel_ok. cbn [received channel offered queue receiver_alive]. rewrite <- app_assoc. cbn [app].
  split_and!; [done | cbn in Hq; lia | by rewrite Halive | done |].
  intros _. rewrite <- (Hhead Halive). by destruct (received w).
Qed.

Lemma output_step_ok w w' :
  output_step w w' -> (forall s, pipe_ok (pipe s w)) /\ channel_ok w -> (forall s, pipe_ok (pipe s w')) /\ channel_ok w'.
Proof.
  intros [s b r w0 Ht | s r w0 Ht | v ch w0 Hr | w0] [Hp Hc].
  - split; [| by apply hand_over_ok]. intros s'. apply pipe_ok_advance; [| done]. by apply byte_pipe_ok.
  - split; [| by apply hand_over_ok]. intros s'. apply pipe_ok_advance; [| done]. by apply end_pipe_ok.
  - split; [intros []; [exact (Hp Stdout) | exact (Hp Stderr)] |]. by eapply recv_ok.
  - split; [intros []; [exact (Hp Stdout) | exact (Hp Stderr)] |].
    destruct Hc as (Hs & Hq & Hdead & Hhead & Hfirst). unfold channel_ok. cbn. rewrite app_nil_r.
    split_and!; [| lia | done | done | done]. etrans; [| exact Hs]. by apply sublist_inserts_r.
Qed.

(** The supervisor sees the markers of the output: whatever the pipes give, in
    whatever pieces, and however the threads interleave, each thread offers the
    candidates of its lines, in order, of every complete line of at most 2048
    bytes and, once the pipe is closed, of the last one; what the supervisor takes
    from the channel are offers in their order, the first of them all first; and
    no more than four are kept for it. *)
Theorem markers_delivered w :
  rtc output_step launched w ->
  (forall s, exists done cur, lines (seen (pipe s w)) done cur /\
     match thread (pipe s w) with
     | Some _ => offers (pipe s w) = omap offer done
     | None => offers (pipe s w) = omap offer done ++ option_list (offer cur)
     end) /\
  sublist (received w ++ queue (channel w)) (offered w) /\ length (queue (channel w)) <= CHANNEL_CAPACITY /\
  (received w <> [] -> head (received w) = head (offered w)).
Proof.
  intros Hrun. assert (H : (forall s, pipe_ok (pipe s w)) /\ channel_ok w).
  { assert (H0 : (forall s, pipe_ok (pipe s launched)) /\ channel_ok launched).
    { split; [intros []; exists [], []; (split; [split_and!; [done | constructor | set_solver] | by split]) |].
      unfold channel_ok. cbn. split_and!; [done | unfold CHANNEL_CAPACITY; lia | done | done | done]. }
    revert H0. induction Hrun as [w0 | w0 w1 w2 Hs _ IH]; [done |]. intros H0. apply IH. by eapply output_step_ok. }
  destruct H as [Hp (Hs & Hq & _ & _ & Hfirst)]. split_and!; [| done | done | done].
  intros s. destruct (Hp s) as (done & cur & Hl & Ht). exists done, cur. split; [done |].
  destruct (thread (pipe s w)); [by destruct Ht | done].
Qed.

(** A reader on its own: only the bytes count, not how the pipe cuts them. *)
Theorem chunks_do_not_matter chunks ch : output_reader chunks ch = output_reader [mjoin chunks] ch.
Proof.
  unfold output_reader. cbn [foldl]. generalize (new_reader, ch). induction chunks as [|c chunks IH]; intros rc; [done |].
  cbn [foldl mjoin list_join]. rewrite IH. unfold reader_chunk. by rewrite foldl_app.
Qed.

(** ** The probe sees the status line *)

(** The bytes a peer sends before it closes or the connection fails. *)
Fixpoint stream_of (reads : list ReadResult) : list byte :=
  match reads with
  | Data bytes :: reads => if bool_decide (bytes = []) then [] else bytes ++ stream_of reads
  | ReadError :: _ | [] => []
  end.

Lemma read_status_take room reads : read_status room reads = take room (stream_of reads).
Proof.
  revert room. induction reads as [|[bytes|] reads IH]; intros room; cbn [read_status stream_of]; [by rewrite take_nil | | by rewrite take_nil].
  destruct room as [|room]; cbn [Nat.eqb orb]; [by rewrite take_0 |].
  case_bool_decide; [done |]. rewrite IH, take_app. f_equal. f_equal. rewrite length_take. lia.
Qed.

(** A prefix without zero bytes is not found in the rest of the buffer. *)
Lemma padded_prefix (pre s : list byte) n :
  (x00 ∉ pre) -> take (length pre) (s ++ repeat x00 n) = pre -> take (length pre) s = pre.
Proof.
  revert s. induction pre as [|b pre IH]; intros [|c s] Hz; cbn; try done.
  - destruct n as [|n]; [done |]. cbn. intros [= <- _]. set_solver.
  - intros [= -> H]. f_equal. apply IH; [set_solver | done].
Qed.

(** The probe succeeds exactly when the connection and the request went out and
    the answer begins like an HTTP/1 status line, however the bytes arrive. *)
Theorem probe_sees_status_line connected written reads :
  http_status_line_probe connected written reads = true <->
  connected = true /\ written = true /\ take 7 (stream_of reads) = HTTP_PREFIX.
Proof.
  unfold http_status_line_probe. destruct connected, written; cbn [negb]; try naive_solver.
  rewrite read_status_take, bool_decide_eq_true. change (length HTTP_PREFIX) with 7%nat. split.
  - intros H. apply (padded_prefix HTTP_PREFIX) in H; [| by apply (bool_decide_unpack _); vm_compute].
    change (length HTTP_PREFIX) with 7%nat in H. rewrite take_take in H. by split_and!.
  - intros (_ & _ & H). assert (Hlen : 7 <= length (stream_of reads)).
    { apply (f_equal length) in H. rewrite length_take in H. change (length HTTP_PREFIX) with 7%nat in H. lia. }
    rewrite take_app_le by (rewrite length_take; lia). by rewrite take_take.
Qed.

(** ** Stopping the process *)

(** A process that has been waited for has ended. *)
Definition kernel_ok (k : Kernel) : Prop :=
  forall pid q, procs k !! pid = Some q -> reaped q = true -> has_exited (now k) q = true.

(** The child of [p] is a process of the group of [p]. *)
Definition owns (p : ManagedProcess) (k : Kernel) : Prop :=
  exists q, procs k !! child p = Some q /\ p_group q = process_group p.

Definition gone (pid : N) (k : Kernel) : Prop :=
  exists q, procs k !! pid = Some q /\ has_exited (now k) q = true /\ reaped q = true.

Definition reap (q : Proc) : Proc :=
  {| p_group := p_group q; exit_at := exit_at q; on_term := on_term q; reaped := true |}.

Lemma has_exited_mono t t' q : (t <= t')%N -> has_exited t q = true -> has_exited t' q = true.
Proof. unfold has_exited. destruct (exit_at q); [| done]. rewrite !N.leb_le. lia. Qed.

(** The loop ends with the child or at the deadline, and touches no other process. *)
Lemma wait_loop_ends fuel pid deadline k q :
  procs k !! pid = Some q -> (deadline + 20 <= now k + 20 * N.of_nat fuel)%N -> fuel <> 0 ->
  exists k', (now k <= now k')%N /\
    ((wait_loop fuel pid deadline k = (Ok tt, k') /\ procs k' = <[pid := reap q]> (procs k) /\
      has_exited (now k') q = true) \/
     (wait_loop fuel pid deadline k = (Err StopTimedOut, k') /\ procs k' = procs k /\
      has_exited (now k') q = false /\ (deadline <= now k')%N)).
Proof.
  revert k. induction fuel as [|fuel IH]; intros k Hq Hf Hne; [done |]. cbn [wait_loop].
  unfold_monad. unfold try_wait. rewrite Hq. destruct (has_exited (now k) q) eqn:He.
  { eexists. split; [| left; split; [reflexivity |]]; cbn; [lia |]. split; done. }
  destruct (N.leb_spec deadline (now k)) as [Hd|Hd].
  { exists k. split; [lia |]. right. by split_and!. }
  unfold sleep, modify.
  set (k1 := {| procs := procs k; now := (now k + 20 + lag k (naps k))%N; naps := S (naps k); lag := lag k |}).
  destruct (IH k1) as (k' & Hle & H); [done | cbn; lia | lia |]. exists k'. cbn in Hle. split; [lia |]. exact H.
Qed.

Lemma exit_wait_ends pid timeout k q :
  procs k !! pid = Some q ->
  exists k', (now k <= now k')%N /\
    ((wait_for_exit pid timeout k = (Ok tt, k') /\ procs k' = <[pid := reap q]> (procs k) /\
      has_exited (now k') q = true) \/
     (wait_for_exit pid timeout k = (Err StopTimedOut, k') /\ procs k' = procs k /\
      has_exited (now k') q = false /\ (now k + timeout <= now k')%N)).
Proof.
  intros Hq. unfold wait_for_exit. unfold_monad. apply wait_loop_ends; [done | | done].
  rewrite !Nat2N.inj_succ, N2Nat.id. pose proof (N.div_mod timeout 20). pose proof (N.mod_lt timeout 20). lia.
Qed.

Lemma signal_group g s k pid q :
  procs k !! pid = Some q -> in_group g q = true ->
  signal g s k = (Ok tt, set_procs ((fun p => if in_group g p then signalled s (now k) p else p) <$> procs k) k).
Proof.
  intros Hq Hg. unfold signal. destruct (existsb _ _) eqn:He; [done |].
  apply not_true_iff_false in He. destruct He. apply existsb_exists. exists q. split; [| done].
  apply list_elem_of_In, list_elem_of_fmap. exists (pid, q). split; [done |]. by apply elem_of_map_to_list.
Qed.

Lemma killed_exited t q : has_exited t (signalled SIGKILL t q) = true.
Proof. unfold has_exited. cbn. apply N.leb_le. destruct (exit_at q); lia. Qed.

Lemma ignore_wait_gone pid k : gone pid k -> ignore_wait pid k = (Ok tt, k).
Proof.
  intros (q & Hq & He & Hr). unfold ignore_wait, is_ok_m. unfold_monad. unfold try_wait. rewrite Hq, He. cbn. do 2 f_equal.
  destruct k as [ps t n l], q as [g e o r]. unfold set_procs. cbn in *. f_equal. rewrite <- Hr. by apply insert_id.
Qed.

(** Everything outside the group [g] is as it was. *)
Definition outside_kept (g : N) (k k' : Kernel) : Prop :=
  forall pid q, procs k !! pid = Some q -> p_group q <> g -> procs k' !! pid = Some q.

Lemma outside_signal g s k :
  outside_kept g k (set_procs ((fun p => if in_group g p then signalled s (now k) p else p) <$> procs k) k).
Proof.
  intros pid q Hq Hg. cbn. rewrite lookup_fmap, Hq. cbn. unfold in_group.
  by rewrite (proj2 (N.eqb_neq _ _) Hg).
Qed.

Lemma outside_reap g pid q k k' :
  procs k !! pid = Some q -> p_group q = g -> procs k' = <[pid := reap q]> (procs k) -> outside_kept g k k'.
Proof.
  intros Hq Hg Hk pid' q' Hq' Hne. rewrite Hk, lookup_insert_ne; [done |]. intros <-. congruence.
Qed.

Lemma outside_trans g k1 k2 k3 : outside_kept g k1 k2 -> outside_kept g k2 k3 -> outside_kept g k1 k3.
Proof. intros H H' pid q Hq Hne. apply (H' pid q); [by apply H | done]. Qed.

Lemma signalled_group s t q : p_group (signalled s t q) = p_group q /\ reaped (signalled s t q) = reaped q.
Proof. destruct s; cbn; [by destruct (on_term q) | done]. Qed.

(** After SIGKILL every process of the group has ended. *)
Definition all_ended (g : N) (k : Kernel) : Prop :=
  forall pid q, procs k !! pid = Some q -> p_group q = g -> has_exited (now k) q = true.

(** [ProcessTree::stop], of a group whose leader has not been waited for. *)
Lemma tree_stop_ends g pid k q :
  kernel_ok k -> procs k !! pid = Some q -> in_group g q = true ->
  exists d k', tree_stop g pid k = (Ok d, k') /\ gone pid k' /\ d <> NotRequested /\ outside_kept g k k' /\
    (d = Forced -> all_ended g k').
Proof.
  intros Hok Hq Hg. unfold tree_stop, is_ok_m. unfold_monad. rewrite (signal_group g SIGTERM k pid q Hq Hg). cbn [is_ok].
  set (f := fun p => if in_group g p then signalled SIGTERM (now k) p else p).
  set (k1 := set_procs (f <$> procs k) k). pose proof (outside_signal g SIGTERM k) as Hout1. fold f k1 in Hout1.
  set (q1 := signalled SIGTERM (now k) q).
  assert (Hq1 : procs k1 !! pid = Some q1). { cbn. rewrite lookup_fmap, Hq. cbn. unfold f. by rewrite Hg. }
  destruct (signalled_group SIGTERM (now k) q) as [Hgr Hre]. fold q1 in Hgr, Hre.
  assert (Hpg : p_group q = g /\ reaped q = false).
  { unfold in_group in Hg. apply andb_true_iff in Hg as [->%N.eqb_eq Hn]. by apply negb_true_iff in Hn. }
  destruct Hpg as [Hpg Hpr]. unfold is_ok_m.
  destruct (exit_wait_ends pid STOP_TIMEOUT k1 q1 Hq1) as (k2 & Hle & [(-> & Hp2 & He2) | (-> & Hp2 & He2 & _)]); cbn [is_ok].
  { exists Graceful, k2. split_and!; try done.
    - exists (reap q1). rewrite Hp2. split_and!; [apply lookup_insert_eq | exact He2 | done].
    - eapply outside_trans; [exact Hout1 |]. eapply outside_reap; [exact Hq1 | congruence | exact Hp2]. }
  rewrite <- Hp2 in Hq1. assert (Hg1 : in_group g q1 = true) by (unfold in_group; by rewrite Hgr, Hre, Hpg, Hpr, N.eqb_refl).
  rewrite (signal_group g SIGKILL k2 pid q1 Hq1 Hg1). pose proof (outside_signal g SIGKILL k2) as Hout3.
  set (f' := fun p => if in_group g p then signalled SIGKILL (now k2) p else p) in *.
  set (k3 := set_procs (f' <$> procs k2) k2) in *. set (q2 := signalled SIGKILL (now k2) q1).
  assert (Hq2 : procs k3 !! pid = Some q2). { change (procs k3) with (f' <$> procs k2). rewrite lookup_fmap, Hq1. change (Some (f' q1) = Some q2).
    unfold f'. by rewrite Hg1. }
  destruct (signalled_group SIGKILL (now k2) q1) as [Hgr2 _]. fold q2 in Hgr2.
  destruct (exit_wait_ends pid STOP_TIMEOUT k3 q2 Hq2) as (k4 & Hle4 & [(-> & Hp4 & He4) | (_ & _ & He4 & _)]).
  2: { rewrite (has_exited_mono (now k2) (now k4) q2 Hle4 (killed_exited _ _)) in He4. done. }
  exists Forced, k4. split_and!; try done.
  - exists (reap q2). rewrite Hp4. split_and!; [apply lookup_insert_eq | exact He4 | done].
  - eapply outside_trans; [exact Hout1 |]. eapply (outside_trans _ _ k2); [intros pid' q' H' _; by rewrite Hp2 |].
    eapply outside_trans; [exact Hout3 |]. eapply outside_reap; [exact Hq2 | congruence | exact Hp4].
  - intros _ pid' q' Hq'. rewrite Hp4 in Hq'. destruct (decide (pid' = pid)) as [-> | Hne].
    { rewrite lookup_insert_eq in Hq'. injection Hq' as <-. intros _. exact He4. }
    rewrite lookup_insert_ne in Hq' by done. cbn in Hq'. rewrite lookup_fmap, Hp2 in Hq'. cbn in Hq'. rewrite lookup_fmap in Hq'.
    destruct (procs k !! pid') as [q0|] eqn:Hq0; [| done]. cbn in Hq'. injection Hq' as <-. intros Hgq.
    unfold f in Hgq |- *. destruct (in_group g q0) eqn:Hg0.
    + destruct (signalled_group SIGTERM (now k) q0) as [Hgr0 Hre0]. unfold f' in Hgq |- *.
      assert (in_group g (signalled SIGTERM (now k) q0) = true) as -> by (unfold in_group in *; by rewrite Hgr0, Hre0).
      eapply has_exited_mono; [exact Hle4 | apply killed_exited].
    + unfold f' in Hgq |- *. rewrite Hg0 in Hgq |- *. unfold in_group in Hg0. rewrite Hgq, N.eqb_refl in Hg0. cbn in Hg0.
      apply negb_false_iff in Hg0. apply (has_exited_mono (now k)); [cbn in *; lia | by eapply Hok].
Qed.

(** Stopping ends the process: for a child in its group, stopping always succeeds,
    the child has ended and has been waited for, no process of another group is
    touched, and after a forced stop nothing of the group runs any more. *)
Theorem stop_ends_child p k :
  kernel_ok k -> owns p k ->
  exists d k', stop p k = (Ok d, k') /\ gone (child p) k' /\ d <> NotRequested /\
    outside_kept (process_group p) k k' /\ (d = Forced -> all_ended (process_group p) k').
Proof.
  intros Hok (q & Hq & Hg). unfold stop. unfold_monad. unfold try_wait. rewrite Hq. destruct (has_exited (now k) q) eqn:He.
  - eexists Graceful, _. split; [reflexivity |]. split_and!; try done.
    + exists (reap q). cbn. split_and!; [apply lookup_insert_eq | exact He | done].
    + by eapply outside_reap.
  - assert (Hin : in_group (process_group p) q = true).
    { unfold in_group. rewrite Hg, N.eqb_refl. cbn. apply negb_true_iff, not_true_iff_false. intros Hr.
      rewrite (Hok _ _ Hq Hr) in He. done. }
    destruct (tree_stop_ends _ _ _ _ Hok Hq Hin) as (d & k' & -> & Hgone & Hd & Hout & Hall).
    rewrite (ignore_wait_gone _ _ Hgone). by exists d, k'.
Qed.

(** Dropping a process that still runs kills its group. *)
Theorem drop_kills_group p k q :
  kernel_ok k -> procs k !! child p = Some q -> p_group q = process_group p -> has_exited (now k) q = false ->
  exists k', drop_process p k = (Ok tt, k') /\ gone (child p) k' /\ all_ended (process_group p) k' /\
    outside_kept (process_group p) k k'.
Proof.
  intros Hok Hq Hg He.
  assert (Hin : in_group (process_group p) q = true).
  { unfold in_group. rewrite Hg, N.eqb_refl. cbn. apply negb_true_iff, not_true_iff_false. intros Hr.
    rewrite (Hok _ _ Hq Hr) in He. done. }
  unfold drop_process. unfold_monad. unfold try_wait at 1. rewrite Hq, He. unfold is_ok_m at 1.
  rewrite (signal_group _ SIGKILL k _ q Hq Hin). pose proof (outside_signal (process_group p) SIGKILL k) as Hout.
  set (f := fun x => if in_group (process_group p) x then _ else _) in *. set (k1 := set_procs (f <$> procs k) k) in *.
  set (q1 := signalled SIGKILL (now k) q).
  assert (Hq1 : procs k1 !! child p = Some q1). { cbn. rewrite lookup_fmap, Hq. cbn. unfold f. by rewrite Hin. }
  assert (He1 : has_exited (now k1) q1 = true) by apply killed_exited.
  unfold ignore_wait, is_ok_m. unfold_monad. unfold try_wait. rewrite Hq1, He1. cbn [is_ok]. eexists. split; [reflexivity |].
  split_and!.
  - exists (reap q1). cbn. split_and!; [apply lookup_insert_eq | exact He1 | done].
  - intros pid' q'. cbn. destruct (decide (pid' = child p)) as [-> | Hne].
    { rewrite lookup_insert_eq. intros [= <-] _. exact He1. }
    rewrite lookup_insert_ne, lookup_fmap by done. destruct (procs k !! pid') as [q0|] eqn:Hq0; [| done]. cbn. intros [= <-].
    unfold f. destruct (in_group (process_group p) q0) eqn:Hg0; [intros _; apply killed_exited |]. intros Hgq.
    unfold in_group in Hg0. rewrite Hgq, N.eqb_refl in Hg0. cbn in Hg0. apply negb_false_iff in Hg0. by eapply Hok.
  - eapply outside_trans; [exact Hout |]. eapply outside_reap; [exact Hq1 | | reflexivity].
    exact Hg.
Qed.

(** ** The theorems at work *)
Module LocalProcess.

(** A leader that ends 100 ms after SIGTERM, and a helper in its group that does
    not listen to it. *)
Definition runs (g : N) (term : option N) : Proc := {| p_group := g; exit_at := None; on_term := term; reaped := false |}.
Definition machine (leader : Proc) : Kernel :=
  {| procs := {[7%N := leader; 8%N := runs 7 None; 9%N := runs 9 (Some 0%N)]}; now := 1000; naps := 0; lag := fun _ => 1%N |}.
Definition managed : ManagedProcess := {| child := 7; process_group := 7 |}.

Definition running (pid : N) (k : Kernel) : bool :=
  match procs k !! pid with Some q => negb (has_exited (now k) q) | None => false end.

Lemma machine_ok leader : reaped leader = false -> kernel_ok (machine leader).
Proof.
  intros Hl pid q Hq Hr. cbn in Hq.
  apply lookup_insert_Some in Hq as [[_ <-] | [_ Hq]]; [congruence |].
  apply lookup_insert_Some in Hq as [[_ <-] | [_ Hq]]; [done |].
  apply lookup_singleton_Some in Hq as [_ <-]. done.
Qed.

Lemma stop_ends_child_witness :
  exists k', stop managed (machine (runs 7 None)) = (Ok Forced, k') /\ all_ended 7 k' /\ running 9 k' = true.
Proof.
  destruct (stop_ends_child managed (machine (runs 7 None))) as (d & k' & Hs & _ & _ & _ & Hall).
  - by apply machine_ok.
  - exists (runs 7 None). split; reflexivity.
  - assert (Hd : d = Forced) by (vm_compute in Hs; congruence). subst d. exists k'. split; [exact Hs |].
    split; [by apply Hall |]. vm_compute in Hs. injection Hs as <-. reflexivity.
Defined.

(** A graceful stop waits for the leader only: a helper that ignores SIGTERM is
    left running, and nothing will stop it any more. *)
Example graceful_stop_leaves_helper :
  match stop managed (machine (runs 7 (Some 100%N))) with
  | (Ok Graceful, k) => running 8 k = true
  | _ => False
  end.
Proof. vm_compute. reflexivity. Qed.

(** When the leader has crashed, neither the stop nor the drop signals the group. *)
Example crash_leaves_helper :
  let k := machine {| p_group := 7; exit_at := Some 900%N; on_term := None; reaped := false |} in
  running 8 (stop managed k).2 = true /\ running 8 (drop_process managed k).2 = true.
Proof. vm_compute. by split. Qed.

(** A marker in two chunks, after a line that is too long. *)
Definition bytes_of (s : string) : list byte := map byte_of (txt s).
Example marker_found :
  queue (output_reader
    [repeat x41 3000 ++ [LF] ++ bytes_of "dsh web: http://127"; bytes_of ".0.0.1:4000/ "; [CR; LF]] {| queue := []; receiver_alive := true |})
  = [txt "http://127.0.0.1:4000/"].
Proof. vm_compute. reflexivity. Qed.

Lemma markers_delivered_witness :
  exists w, rtc output_step launched w /\ seen (pipe Stdout w) = [LF] /\ thread (pipe Stdout w) <> None /\
    length (queue (channel w)) <= CHANNEL_CAPACITY.
Proof.
  set (w := advance Stdout (Some (reader_byte LF new_reader).1) [LF] (reader_byte LF new_reader).2 launched).
  assert (Hrun : rtc output_step launched w) by (eapply rtc_l; [exact (step_byte Stdout LF new_reader launched eq_refl) | apply rtc_refl]).
  exists w. split; [exact Hrun |]. destruct (markers_delivered w Hrun) as (_ & _ & Hq & _). by split_and!.
Defined.
End LocalProcess.
