(* ===== verification/WebSocket.v ===== *)
(** * The WebSocket frame codec of the DSH adapter

    Model of [crates/adapter-dsh/src/error.rs] and of the pure codec of
    [crates/adapter-dsh/src/ws.rs].  [on_wire] is the frame grammar of RFC 6455
    that the code implements, as a relation between a frame and its bytes; the
    decoder is shown to decide it and the encoder to produce it. *)
From S2P Require Import Prelude Text.
From stdpp Require Import base list option strings pretty.
From Stdlib Require Import NArith ZArith Lia Strings.Byte ZifyBool.

(** ** Errors *)

Inductive AdapterError :=
| Http (status : N) (detail : text)
| Rpc (detail : text)
| Protocol (detail : text)
| Auth (detail : text)
| Transport (detail : text).

#[export] Instance AdapterError_eq_dec : EqDecision AdapterError.
Proof. solve_decision. Defined.

(** [impl fmt::Display for AdapterError] *)
Definition adapter_error_display (e : AdapterError) : text :=
  match e with
  | Http status detail => txt "dsh http error " ++ txt (pretty status) ++ txt ": " ++ detail
  | Rpc detail => txt "dsh rpc error: " ++ detail
  | Protocol detail => txt "dsh protocol error: " ++ detail
  | Auth detail => txt "dsh auth error: " ++ detail
  | Transport detail => txt "dsh transport error: " ++ detail
  end.

(** ** Frames *)

Definition MAX_FRAME_BYTES : N := 16 * 1024 * 1024.

Inductive Opcode := Continuation | Text | Binary | Close | Ping | Pong.

#[export] Instance Opcode_eq_dec : EqDecision Opcode.
Proof. solve_decision. Defined.

(** [opcode as u8] *)
Definition opcode_as_u8 (o : Opcode) : N :=
  match o with
  | Continuation => 0 | Text => 1 | Binary => 2 | Close => 8 | Ping => 9 | Pong => 10
  end.

Record WsFrame := { fin : bool; opcode : Opcode; payload : list byte }.

#[export] Instance WsFrame_eq_dec : EqDecision WsFrame.
Proof. solve_decision. Defined.

Definition len (bs : list byte) : N := N.of_nat (length bs).

(** Big-endian integers: [to_be_bytes], [from_be_bytes]. *)
Fixpoint be_bytes (k : nat) (n : N) : list byte :=
  match k with
  | O => []
  | S k => byte_of (n / 256 ^ N.of_nat k) :: be_bytes k n
  end.

Definition be_value (bs : list byte) : N :=
  foldl (fun acc b => (acc * 256 + Byte.to_N b)%N) 0%N bs.

(** [input[from..to]], for a range inside the slice. *)
Definition slice (input : list byte) (from to : nat) : list byte := take (to - from) (drop from input).

(** [input[i]], for an index inside the slice. *)
Definition byte_at (input : list byte) (i : nat) : N := Byte.to_N (nth i input x00).

(** [for (index, byte) in payload.iter_mut().enumerate() { *byte ^= mask[index % 4] }] *)
Definition xor_byte (a b : byte) : byte := byte_of (N.lxor (Byte.to_N a) (Byte.to_N b)).
Fixpoint apply_mask (mask : list byte) (index : nat) (bs : list byte) : list byte :=
  match bs with
  | [] => []
  | b :: bs => xor_byte b (nth (index mod 4) mask x00) :: apply_mask mask (S index) bs
  end.

Definition opcode_of (nibble : N) : option Opcode :=
  match nibble with
  | 0 => Some Continuation
  | 1 => Some Text
  | 2 => Some Binary
  | 8 => Some Close
  | 9 => Some Ping
  | 10 => Some Pong
  | _ => None
  end%N.

Definition is_control (o : Opcode) : bool :=
  match o with Close | Ping | Pong => true | _ => false end.

Definition protocol {A} (message : string) : result AdapterError A := Err (Protocol (txt message)).

(** The payload length and the offset after it: the [match len7] of
    [decode_frame].  [usize::try_from] of a [u64] cannot fail on 64-bit targets. *)
Definition payload_length (input : list byte) (len7 : N) : result AdapterError (N * nat) :=
  let offset := 2%nat in
  if (len7 =? 126)%N then
    if (length input <? offset + 2)%nat then protocol "ws: truncated extended length"
    else Ok (be_value (slice input offset (offset + 2)), (offset + 2)%nat)
  else if (len7 =? 127)%N then
    if (length input <? offset + 8)%nat then protocol "ws: truncated extended length"
    else Ok (be_value (slice input offset (offset + 8)), (offset + 8)%nat)
  else Ok (len7, offset).

(** [decode_frame] *)
Definition decode_frame (input : list byte) : result AdapterError WsFrame :=
  if (length input <? 2)%nat then protocol "ws: truncated frame header"
  else
    let b0 := byte_at input 0 in
    let b1 := byte_at input 1 in
    if negb (N.land b0 0x70 =? 0)%N then protocol "ws: reserved bits set"
    else
      let fin := negb (N.land b0 0x80 =? 0)%N in
      match opcode_of (N.land b0 0x0F) with
      | None => protocol "ws: unknown opcode"
      | Some opcode =>
          let masked := negb (N.land b1 0x80 =? 0)%N in
          let len7 := N.land b1 0x7F in
          '(payload_len, offset) ← payload_length input len7;
          if (MAX_FRAME_BYTES <? payload_len)%N then protocol "ws: payload exceeds cap"
          else if masked && (length input <? offset + 4)%nat then protocol "ws: truncated mask key"
          else
            let mask_offset := if masked then offset else 0%nat in
            let offset := if masked then (offset + 4)%nat else offset in
            if (len input <? N.of_nat offset + payload_len)%N then protocol "ws: truncated payload"
            else
              let raw := slice input offset (offset + N.to_nat payload_len) in
              let payload :=
                if masked then apply_mask (slice input mask_offset (mask_offset + 4)) 0 raw
                else raw in
              if is_control opcode && (negb fin || (125 <? payload_len)%N)
              then protocol "ws: invalid control frame"
              else Ok {| fin := fin; opcode := opcode; payload := payload |}
      end.

(** ** Encoding *)

Definition MASK_KEY : list byte := [x12; x34; x56; x78].

(** [encode_frame] *)
Definition encode_frame (payload : list byte) (opcode : Opcode) (masked : bool)
    (mask_key : option (list byte)) : list byte :=
  let mask_bit := (if masked then 0x80 else 0)%N in
  let head := [byte_of (N.lor 0x80 (opcode_as_u8 opcode))] in
  let length_bytes :=
    if (len payload <=? 125)%N then [byte_of (N.lor mask_bit (len payload))]
    else if (len payload <=? 0xFFFF)%N
    then byte_of (N.lor mask_bit 126) :: be_bytes 2 (len payload)
    else byte_of (N.lor mask_bit 127) :: be_bytes 8 (len payload) in
  let key := default MASK_KEY mask_key in
  head ++ length_bytes ++ (if masked then key else [])
       ++ (if masked then apply_mask key 0 payload else payload).

Definition encode_server_text_frame (s : text) : list byte :=
  encode_frame (utf8_encode s) Text false None.

Definition encode_client_text_frame (s : text) : list byte :=
  encode_frame (utf8_encode s) Text true (Some MASK_KEY).

(** [encode_close_frame]; [code] is a [u16]. *)
Definition encode_close_frame (code : N) (reason : text) : list byte :=
  encode_frame (be_bytes 2 code ++ utf8_encode reason) Close false None.

(** ** The frame grammar

    The length of the payload is written in seven bits, or in two bytes after
    126, or in eight bytes after 127.  A client's payload is preceded by a key
    of four bytes and every byte is combined with the key's. *)

Inductive length_form (n : N) : N -> list byte -> Prop :=
| length_short : (n <= 125)%N -> length_form n n []
| length_16 : (n < 2 ^ 16)%N -> length_form n 126 (be_bytes 2 n)
| length_64 : (n < 2 ^ 64)%N -> length_form n 127 (be_bytes 8 n).

Definition masked_by (key p w : list byte) : Prop :=
  length w = length p /\
  forall i b, p !! i = Some b -> w !! i = Some (xor_byte b (nth (i mod 4) key x00)).

(** The FIN bit and the opcode. *)
Definition first_byte (f : WsFrame) : byte :=
  byte_of ((if fin f then 128 else 0) + opcode_as_u8 (opcode f)).

Inductive on_wire (f : WsFrame) : list byte -> Prop :=
| wire_unmasked len7 ext :
    length_form (len (payload f)) len7 ext ->
    on_wire f (first_byte f :: byte_of len7 :: ext ++ payload f)
| wire_masked len7 ext key w :
    length_form (len (payload f)) len7 ext ->
    length key = 4%nat -> masked_by key (payload f) w ->
    on_wire f (first_byte f :: byte_of (128 + len7) :: ext ++ key ++ w).

(** What the decoder demands beyond the grammar: the cap, and that control
    frames are final and short. *)
Definition admissible (f : WsFrame) : Prop :=
  (len (payload f) <= MAX_FRAME_BYTES)%N /\
  (is_control (opcode f) = true -> fin f = true /\ (len (payload f) <= 125)%N).

(** ** Lemmas *)

(** *** Integers *)

Lemma length_be_bytes k n : length (be_bytes k n) = k.
Proof. induction k; cbn; auto. Qed.

Lemma be_value_app a b : be_value (a ++ b) = (be_value a * 256 ^ len b + be_value b)%N.
Proof.
  unfold be_value. rewrite foldl_app. generalize (foldl (fun acc b => (acc * 256 + Byte.to_N b)%N) 0%N a).
  intros n. revert n. induction b as [|x b IH]; intros n; [unfold len; cbn; lia |]. cbn [foldl].
  rewrite IH, (IH (0 * 256 + Byte.to_N x)%N). unfold len. cbn [length].
  rewrite Nat2N.inj_succ, N.pow_succ_r'. lia.
Qed.

Lemma be_value_cons x b : be_value (x :: b) = (Byte.to_N x * 256 ^ len b + be_value b)%N.
Proof. exact (be_value_app [x] b). Qed.

Lemma be_value_bytes k n : be_value (be_bytes k n) = (n mod 256 ^ N.of_nat k)%N.
Proof.
  induction k as [|k IH]; [by rewrite N.mod_1_r |]. cbn [be_bytes].
  rewrite be_value_cons, IH, to_N_byte_of. unfold len. rewrite length_be_bytes.
  rewrite Nat2N.inj_succ, N.pow_succ_r', (N.mul_comm 256), N.Div0.mod_mul_r. lia.
Qed.

Lemma be_value_lt bs : (be_value bs < 256 ^ len bs)%N.
Proof.
  induction bs as [|x bs IH]; [done |]. rewrite be_value_cons. unfold len in *. cbn [length].
  rewrite Nat2N.inj_succ, N.pow_succ_r'. pose proof (to_N_lt x). nia.
Qed.

Lemma be_bytes_mod k n m : be_bytes k (m * 256 ^ N.of_nat k + n) = be_bytes k n.
Proof.
  revert m. induction k as [|k IH]; intros m; [done |]. cbn [be_bytes].
  rewrite Nat2N.inj_succ, N.pow_succ_r'.
  replace (m * (256 * 256 ^ N.of_nat k) + n)%N with (m * 256 * 256 ^ N.of_nat k + n)%N by lia.
  rewrite IH. f_equal. apply to_N_inj. rewrite !to_N_byte_of.
  rewrite N.div_add_l by (apply N.pow_nonzero; done).
  by rewrite (N.add_comm (m * 256)), N.Div0.mod_add.
Qed.

Lemma be_bytes_value bs : be_bytes (length bs) (be_value bs) = bs.
Proof.
  induction bs as [|x bs IH]; [done |]. cbn [length be_bytes]. rewrite be_value_cons.
  unfold len. rewrite be_bytes_mod, IH. f_equal.
  pose proof (be_value_lt bs) as H. unfold len in H.
  rewrite N.div_add_l by (apply N.pow_nonzero; done).
  rewrite (N.div_small (be_value bs)), N.add_0_r by done. apply byte_of_to_N.
Qed.

(** *** Masking *)

Lemma length_apply_mask key i bs : length (apply_mask key i bs) = length bs.
Proof. revert i. induction bs; intros i; cbn; auto. Qed.

Lemma xor_byte_involutive a k : xor_byte (xor_byte a k) k = a.
Proof.
  apply to_N_inj. unfold xor_byte. rewrite !to_N_byte_of.
  assert (Hlt : forall x y : N, (x < 256 -> y < 256 -> N.lxor x y < 256)%N).
  { intros x y Hx Hy. destruct (N.eq_dec (N.lxor x y) 0) as [-> | Hne]; [done |].
    apply N.log2_lt_pow2 with (b := 8%N); [lia |]. eapply N.le_lt_trans; [apply N.log2_lxor |].
    destruct (N.eq_dec x 0) as [-> |], (N.eq_dec y 0) as [-> |];
      apply N.max_lub_lt; try done; apply N.log2_lt_pow2; lia. }
  rewrite (N.mod_small (N.lxor (to_N a) _)) by (apply Hlt; apply to_N_lt).
  rewrite N.lxor_assoc, N.lxor_nilpotent, N.lxor_0_r. apply N.mod_small, to_N_lt.
Qed.

Lemma apply_mask_involutive key i bs : apply_mask key i (apply_mask key i bs) = bs.
Proof. revert i. induction bs as [|b bs IH]; intros i; cbn [apply_mask]; [done |].
  by rewrite xor_byte_involutive, IH. Qed.

Lemma apply_mask_lookup key j bs i :
  apply_mask key j bs !! i = (fun b => xor_byte b (nth ((j + i) mod 4) key x00)) <$> bs !! i.
Proof.
  revert i j. induction bs as [|b bs IH]; intros [|i] j; cbn [apply_mask lookup list_lookup]; try done.
  - by rewrite Nat.add_0_r.
  - rewrite IH. by rewrite Nat.add_succ_comm.
Qed.

Lemma masked_by_iff key p w : masked_by key p w <-> w = apply_mask key 0 p.
Proof.
  split.
  - intros [Hl Hi]. apply list_eq. intros i. rewrite apply_mask_lookup. cbn.
    destruct (p !! i) as [b|] eqn:E; cbn; [by apply Hi |].
    apply lookup_ge_None. apply lookup_ge_None in E. lia.
  - intros ->. split; [by rewrite length_apply_mask |].
    intros i b E. by rewrite apply_mask_lookup, E.
Qed.

(** *** Headers *)

Lemma first_byte_bits b :
  N.land (Byte.to_N b) 0x70 = 0%N -> forall o, opcode_of (N.land (Byte.to_N b) 0x0F) = Some o ->
  b = byte_of ((if negb (N.land (Byte.to_N b) 0x80 =? 0)%N then 128 else 0) + opcode_as_u8 o).
Proof. intros H o. destruct b; try discriminate H; cbn; intros [= <-]; reflexivity. Qed.

Lemma first_byte_decodes f :
  let n := Byte.to_N (first_byte f) in
  N.land n 0x70 = 0%N /\ negb (N.land n 0x80 =? 0)%N = fin f /\
  opcode_of (N.land n 0x0F) = Some (opcode f).
Proof. unfold first_byte. by destruct (fin f), (opcode f). Qed.

Lemma second_byte_bits b :
  let n := Byte.to_N b in
  b = byte_of ((if negb (N.land n 0x80 =? 0)%N then 128 else 0) + N.land n 0x7F) /\
  (N.land n 0x7F < 128)%N.
Proof. by destruct b. Qed.

(** Facts about numbers below 128, checked byte by byte. *)
Lemma below_128 (P : N -> bool) :
  (forall b, (Byte.to_N b <? 128)%N = true -> P (Byte.to_N b) = true) ->
  forall n, (n < 128)%N -> P n = true.
Proof.
  intros H n Hn. rewrite <- (N.mod_small n 256), <- to_N_byte_of by lia. apply H.
  rewrite to_N_byte_of, N.mod_small; lia.
Qed.

Lemma second_byte_decodes (masked : bool) len7 :
  (len7 < 128)%N ->
  let n := Byte.to_N (byte_of ((if masked then 128 else 0) + len7)) in
  negb (N.land n 0x80 =? 0)%N = masked /\ N.land n 0x7F = len7.
Proof.
  intros H n. subst n. rewrite to_N_byte_of, N.mod_small by (destruct masked; lia).
  pose proof (below_128 (fun n =>
    Bool.eqb (negb (N.land ((if masked then 128 else 0) + n) 0x80 =? 0)%N) masked &&
    (N.land ((if masked then 128 else 0) + n) 0x7F =? n)%N)) as Hb.
  specialize (Hb ltac:(by destruct masked; intros []) len7 H). cbv beta in Hb.
  apply andb_prop in Hb as [->%eqb_prop ->%N.eqb_eq]. done.
Qed.

Lemma mask_bit_lor (masked : bool) n :
  (n < 128)%N -> N.lor (if masked then 0x80 else 0) n = ((if masked then 128 else 0) + n)%N.
Proof.
  intros H. destruct masked; [| done].
  apply N.eqb_eq, (below_128 (fun n => (N.lor 128 n =? 128 + n)%N)); [by intros [] | done].
Qed.

Lemma length_form_lt n len7 ext : length_form n len7 ext -> (len7 < 128)%N.
Proof. destruct 1; lia. Qed.

Lemma slice_ext b0 b1 ext rest k :
  length ext = k ->
  (length (b0 :: b1 :: ext ++ rest) <? 2 + k)%nat = false /\
  slice (b0 :: b1 :: ext ++ rest) 2 (2 + k) = ext.
Proof.
  intros <-. unfold slice. split.
  - cbn [length]. rewrite length_app. lia.
  - replace (2 + length ext - 2)%nat with (length ext) by lia. apply take_app_length.
Qed.

Lemma payload_length_form b0 b1 n len7 ext rest :
  length_form n len7 ext ->
  payload_length (b0 :: b1 :: ext ++ rest) len7 = Ok (n, 2 + length ext)%nat.
Proof.
  intros H. unfold payload_length. destruct H.
  - repeat case_match; try lia. done.
  - destruct (slice_ext b0 b1 (be_bytes 2 n) rest 2 (length_be_bytes _ _)) as [Hl Hs].
    cbn [N.eqb Pos.eqb]. by rewrite Hl, Hs, be_value_bytes, N.mod_small.
  - destruct (slice_ext b0 b1 (be_bytes 8 n) rest 8 (length_be_bytes _ _)) as [Hl Hs].
    cbn [N.eqb Pos.eqb]. by rewrite Hl, Hs, be_value_bytes, N.mod_small.
Qed.

Lemma slice_split b0 b1 r k :
  (length (b0 :: b1 :: r) <? 2 + k)%nat = false ->
  exists ext rest, r = ext ++ rest /\ length ext = k /\ slice (b0 :: b1 :: r) 2 (2 + k) = ext /\
    be_bytes k (be_value ext) = ext /\ (be_value ext < 256 ^ N.of_nat k)%N.
Proof.
  intros Hl. cbn [length] in Hl. assert (Hk : length (take k r) = k) by (rewrite length_take; lia).
  exists (take k r), (drop k r). rewrite take_drop. do 2 (split; [done |]). split.
  - unfold slice. by replace (2 + k - 2)%nat with k by lia.
  - pose proof (be_bytes_value (take k r)) as Hb. pose proof (be_value_lt (take k r)) as Hv.
    unfold len in Hv. by rewrite Hk in Hb, Hv.
Qed.

Lemma payload_length_ok b0 b1 r len7 n off :
  (len7 < 128)%N -> payload_length (b0 :: b1 :: r) len7 = Ok (n, off) ->
  exists ext rest, r = ext ++ rest /\ off = (2 + length ext)%nat /\ length_form n len7 ext.
Proof.
  intros H7. unfold payload_length.
  destruct (N.eqb_spec len7 126) as [-> | H126]; [| destruct (N.eqb_spec len7 127) as [-> | H127]].
  - destruct (length (b0 :: b1 :: r) <? 2 + 2)%nat eqn:E; [done |].
    destruct (slice_split b0 b1 r 2 E) as (ext & rest & -> & Hl & -> & Hb & Hv). intros [= <- <-].
    exists ext, rest. rewrite Hl. do 2 (split; [done |]). rewrite <- Hb at 2. by constructor.
  - destruct (length (b0 :: b1 :: r) <? 2 + 8)%nat eqn:E; [done |].
    destruct (slice_split b0 b1 r 8 E) as (ext & rest & -> & Hl & -> & Hb & Hv). intros [= <- <-].
    exists ext, rest. rewrite Hl. do 2 (split; [done |]). rewrite <- Hb at 2. by constructor.
  - intros [= <- <-]. exists [], r. do 2 (split; [done |]). constructor. lia.
Qed.

Lemma slice_mid pre mid rest n :
  n = length pre -> slice (pre ++ mid ++ rest) n (n + length mid) = mid.
Proof.
  intros ->. unfold slice. replace (length pre + length mid - length pre)%nat with (length mid) by lia.
  by rewrite drop_app_length, take_app_length.
Qed.

(** *** Both directions *)

(** The wire form of a frame, masked or not. *)
Definition wire (f : WsFrame) (masked : bool) (len7 : N) (ext key : list byte) : list byte :=
  first_byte f :: byte_of ((if masked then 128 else 0) + len7) ::
  ext ++ (if masked then key else []) ++
  (if masked then apply_mask key 0 (payload f) else payload f).

Lemma on_wire_iff f w :
  on_wire f w <-> exists masked len7 ext key,
    length_form (len (payload f)) len7 ext /\ length key = 4%nat /\ w = wire f masked len7 ext key.
Proof.
  split.
  - intros [len7 ext H | len7 ext key v H Hk Hv].
    + exists false, len7, ext, MASK_KEY. done.
    + apply masked_by_iff in Hv as ->. by exists true, len7, ext, key.
  - intros ([] & len7 & ext & key & H & Hk & ->).
    + apply wire_masked; [done | done | by apply masked_by_iff].
    + by apply wire_unmasked.
Qed.

Lemma decode_wire f masked len7 ext key rest :
  admissible f -> length_form (len (payload f)) len7 ext -> length key = 4%nat ->
  decode_frame (wire f masked len7 ext key ++ rest) = Ok f.
Proof.
  intros [Hcap Hctl] Hlen Hkey. pose proof (length_form_lt _ _ _ Hlen) as H7.
  destruct (first_byte_decodes f) as (Hres & Hfin & Hop).
  destruct (second_byte_decodes masked len7 H7) as [Hm H7'].
  set (body := if masked then apply_mask key 0 (payload f) else payload f).
  assert (Hbody : length body = length (payload f)).
  { unfold body. destruct masked; [apply length_apply_mask | done]. }
  set (pre := first_byte f :: byte_of ((if masked then 128 else 0) + len7) :: ext).
  assert (Hin : wire f masked len7 ext key ++ rest
                = pre ++ (if masked then key else []) ++ body ++ rest).
  { unfold wire, pre. cbn [app]. by rewrite <- !(assoc (++)). }
  assert (Hpre : length pre = (2 + length ext)%nat) by done.
  unfold decode_frame. rewrite Hin.
  set (input := pre ++ (if masked then key else []) ++ body ++ rest).
  assert (Hlin : length input
                 = (2 + length ext + (if masked then 4 else 0) + length (payload f) + length rest)%nat).
  { unfold input. rewrite !length_app, Hbody, Hpre. destruct masked; cbn [length]; lia. }
  change (byte_at input 0) with (Byte.to_N (first_byte f)).
  change (byte_at input 1) with (Byte.to_N (byte_of ((if masked then 128 else 0) + len7))).
  rewrite Hres, Hfin, Hop, Hm, H7'. cbn [N.eqb negb].
  replace (length input <? 2)%nat with false by lia.
  assert (Hpl : payload_length input len7 = Ok (len (payload f), 2 + length ext)%nat)
    by exact (payload_length_form _ _ _ _ _ _ Hlen).
  rewrite Hpl. cbv [mbind result_bind].
  replace (MAX_FRAME_BYTES <? len (payload f))%N with false by (unfold MAX_FRAME_BYTES in *; lia).
  replace (masked && (length input <? 2 + length ext + 4)%nat) with false
    by (destruct masked; cbn [andb]; lia).
  unfold len in *. rewrite Hlin, Nat2N.id.
  match goal with |- (if ?c then _ else _) = _ => replace c with false by (destruct masked; lia) end.
  replace (is_control (opcode f) && (negb (fin f) || (125 <? N.of_nat (length (payload f)))%N))
    with false.
  2:{ destruct (is_control (opcode f)); [| done]. destruct Hctl as [-> ?]; [done |]. cbn. lia. }
  assert (Hslice : slice input (if masked then 2 + length ext + 4 else 2 + length ext)%nat
            ((if masked then 2 + length ext + 4 else 2 + length ext) + length (payload f))%nat = body).
  { unfold input. rewrite <- Hbody. destruct masked.
    - rewrite (assoc_L (++) pre). apply slice_mid. rewrite length_app, Hkey. lia.
    - cbn [app]. by apply (slice_mid pre). }
  rewrite Hslice. unfold body. destruct masked; [| by destruct f].
  unfold input. rewrite <- Hkey, (slice_mid pre key) by done.
  rewrite apply_mask_involutive. by destruct f.
Qed.

Lemma drop_take_split (l : list byte) n m :
  (n + m <= length l)%nat -> drop n l = slice l n (n + m) ++ drop (n + m) l.
Proof.
  intros H. unfold slice. replace (n + m - n)%nat with m by lia.
  by rewrite <- (take_drop m (drop n l)) at 1; rewrite drop_drop.
Qed.

(** The input as header, key, payload and the rest. *)
Lemma input_parts pre r (masked : bool) n :
  let input := pre ++ r in
  let off := if masked then (length pre + 4)%nat else length pre in
  (off + n <= length input)%nat ->
  input = pre ++ (if masked then slice input (length pre) (length pre + 4) else []) ++
          slice input off (off + n) ++ drop (off + n) input.
Proof.
  intros input off Hl. rewrite <- (drop_take_split input off n Hl).
  unfold input at 1. f_equal. unfold off in *. destruct masked.
  - rewrite <- drop_take_split by lia. unfold input. by rewrite drop_app_length.
  - unfold input. by rewrite drop_app_length.
Qed.

Lemma decode_ok input f :
  decode_frame input = Ok f ->
  admissible f /\ exists masked len7 ext key rest,
    length_form (len (payload f)) len7 ext /\ length key = 4%nat /\
    input = wire f masked len7 ext key ++ rest.
Proof.
  unfold decode_frame. destruct input as [|b0 [|b1 r]]; [done.. |].
  destruct (length (b0 :: b1 :: r) <? 2)%nat; [done |].
  change (byte_at (b0 :: b1 :: r) 0) with (Byte.to_N b0).
  change (byte_at (b0 :: b1 :: r) 1) with (Byte.to_N b1).
  destruct (N.land (Byte.to_N b0) 0x70 =? 0)%N eqn:Hres; [| done]. cbn [negb].
  apply N.eqb_eq in Hres.
  destruct (opcode_of _) as [o|] eqn:Hop; [| done].
  pose proof (first_byte_bits b0 Hres o Hop) as Hb0.
  destruct (second_byte_bits b1) as [Hb1 H7].
  set (fin0 := negb (N.land (Byte.to_N b0) 128 =? 0)%N) in *.
  set (masked := negb (N.land (Byte.to_N b1) 128 =? 0)%N) in *.
  set (len7 := N.land (Byte.to_N b1) 127) in *.
  destruct (payload_length _ _) as [[n off]|] eqn:Hpl; [| done]. cbv [mbind result_bind].
  destruct (payload_length_ok _ _ _ _ _ _ H7 Hpl) as (ext & r' & -> & -> & Hform).
  destruct (MAX_FRAME_BYTES <? n)%N eqn:Hcap; [done |].
  destruct (masked && _) eqn:Hmk; [done |].
  destruct (len _ <? _)%N eqn:Htr; [done |].
  destruct (is_control o && _) eqn:Hctl; [done |]. intros Hok. apply Ok_inj in Hok as <-.
  set (input := b0 :: b1 :: ext ++ r') in *.
  set (off := if masked then (2 + length ext + 4)%nat else (2 + length ext)%nat) in *.
  set (raw := slice input off (off + N.to_nat n)) in *.
  assert (Hraw : len raw = n).
  { unfold raw, slice, len. rewrite length_take, length_drop. unfold len in Htr. lia. }
  set (key := slice input (2 + length ext) (2 + length ext + 4)) in *.
  assert (Hin : input = (b0 :: b1 :: ext) ++ (if masked then key else []) ++ raw ++
                        drop (off + N.to_nat n) input).
  { apply (input_parts (b0 :: b1 :: ext)). unfold len, off, input in Htr. cbn [length app] in Htr |- *.
    destruct masked; lia. }
  split.
  - split; cbn [payload fin opcode].
    + destruct masked; unfold len in *; rewrite ?length_apply_mask; lia.
    + intros Hc. rewrite Hc in Hctl. cbn [andb] in Hctl.
      apply orb_false_elim in Hctl as [Hf Hn]. apply negb_false_iff in Hf. split; [done |].
      destruct masked; unfold len in *; rewrite ?length_apply_mask; lia.
  - exists masked, len7, ext, (if masked then key else MASK_KEY), (drop (off + N.to_nat n) input).
    cbn [payload]. split; [| split].
    + replace (len _) with n; [done |]. destruct masked; unfold len in *; by rewrite ?length_apply_mask.
    + destruct masked; [| done]. unfold key, slice. cbn [andb] in Hmk. rewrite length_take, length_drop. lia.
    + rewrite Hin at 1. unfold wire, first_byte. cbn [payload fin opcode].
      rewrite <- Hb0, <- Hb1. cbn [app]. rewrite <- !(assoc_L (++)).
      destruct masked; [| done]. by rewrite apply_mask_involutive.
Qed.

(** C40.  [decode_frame] decides the RFC 6455 frame grammar: it returns a frame
    exactly when the input begins with a wire form of that frame, masked or not
    and in any of the three length forms, whose payload is within the cap and
    which, for a control frame, is final and at most 125 bytes.  Every other
    input is refused. *)
Theorem decode_frame_iff input f :
  decode_frame input = Ok f <->
  admissible f /\ exists w rest, on_wire f w /\ input = w ++ rest.
Proof.
  split.
  - intros (Ha & masked & len7 & ext & key & rest & Hl & Hk & ->)%decode_ok. split; [done |].
    exists (wire f masked len7 ext key), rest. split; [| done]. apply on_wire_iff.
    by exists masked, len7, ext, key.
  - intros [Ha (w & rest & (masked & len7 & ext & key & Hl & Hk & ->)%on_wire_iff & ->)].
    by apply decode_wire.
Qed.

Lemma encode_frame_wire p op masked key :
  (len p < 2 ^ 64)%N ->
  exists len7 ext, length_form (len p) len7 ext /\
    encode_frame p op masked key
    = wire {| fin := true; opcode := op; payload := p |} masked len7 ext (default MASK_KEY key).
Proof.
  intros H. unfold encode_frame, wire, first_byte. cbn [fin opcode payload].
  replace (N.lor 128 (opcode_as_u8 op)) with (128 + opcode_as_u8 op)%N by by destruct op.
  destruct (N.leb_spec (len p) 125); [| destruct (N.leb_spec (len p) 65535)].
  - exists (len p), []. rewrite mask_bit_lor by lia. split; [by constructor | done].
  - exists 126%N, (be_bytes 2 (len p)). rewrite mask_bit_lor by lia.
    split; [constructor; lia | done].
  - exists 127%N, (be_bytes 8 (len p)). rewrite mask_bit_lor by lia.
    split; [constructor; lia | done].
Qed.

(** Any frame the codec encodes is decoded back, whatever follows it. *)
Lemma decode_encode_frame p op masked key rest :
  (len p <= MAX_FRAME_BYTES)%N -> (is_control op = true -> (len p <= 125)%N) ->
  length (default MASK_KEY key) = 4%nat ->
  decode_frame (encode_frame p op masked key ++ rest)
  = Ok {| fin := true; opcode := op; payload := p |}.
Proof.
  intros Hcap Hctl Hk.
  destruct (encode_frame_wire p op masked key) as (len7 & ext & Hl & ->).
  { unfold MAX_FRAME_BYTES in Hcap. lia. }
  apply decode_wire; [| done | done]. split; cbn; [done | auto].
Qed.

(** A text encoded by the client (masked) or by the server (unmasked) is
    decoded to a final text frame with the same text, and a close frame to its
    code and reason, whatever bytes follow on the connection. *)
Theorem ws_frames_round_trip s code reason rest :
  forallb scalar s = true -> (len (utf8_encode s) <= MAX_FRAME_BYTES)%N ->
  (len (utf8_encode reason) <= 123)%N -> (code < 65536)%N ->
  (exists f, decode_frame (encode_client_text_frame s ++ rest) = Ok f /\
     decode_frame (encode_server_text_frame s ++ rest) = Ok f /\
     fin f = true /\ opcode f = Text /\ from_utf8 (payload f) = Some s) /\
  exists g, decode_frame (encode_close_frame code reason ++ rest) = Ok g /\
     opcode g = Close /\ be_value (take 2 (payload g)) = code /\
     drop 2 (payload g) = utf8_encode reason.
Proof.
  intros Hs Hcap Hreason Hcode. split.
  - eexists. split; [by apply decode_encode_frame |]. split; [by apply decode_encode_frame |].
    cbn [fin opcode payload]. by rewrite from_utf8_encode.
  - eexists. split; [apply decode_encode_frame; [| intros _ |] |].
    1,2: unfold len in *; rewrite length_app, length_be_bytes; unfold MAX_FRAME_BYTES; lia.
    { done. }
    cbn [opcode payload]. split; [done |].
    rewrite take_app_length', drop_app_length' by (symmetry; apply length_be_bytes).
    by rewrite be_value_bytes, N.mod_small.
Qed.

Lemma ws_frames_round_trip_witness :
  let s := txt "hello" in
  exists f, decode_frame (encode_client_text_frame s ++ [x00]) = Ok f /\ payload f = utf8_encode s.
Proof.
  intros s. destruct (ws_frames_round_trip s 1000 (txt "bye") [x00]) as [(f & H & _) _];
    [reflexivity | by vm_compute | by vm_compute | reflexivity |].
  exists f. split; [exact H |]. vm_compute in H. injection H as <-. reflexivity.
Defined.
