(* ===== verification/Http.v ===== *)
(** * The HTTP/1.1 codec of the DSH adapter

    Model of the pure wire codec of [crates/adapter-dsh/src/http.rs].  Lengths
    are [usize] on a 64-bit target, so sums wrap as in the release profile, and
    a slice whose end lies outside its buffer panics: decoding a response is an
    [outcome], which says whether the code returns.  [chunked_body] is the
    chunked transfer coding the code reads, as a relation; the decoder is shown
    to decide it, and a response printed by [response_to_wire] to be read back. *)
From S2P Require Import Prelude Text WebSocket.
From stdpp Require Import base list option strings pretty.
From Stdlib Require Import NArith ZArith Lia Strings.Byte ZifyBool.

(** ** Requests and responses *)

Definition MAX_BODY_BYTES : N := 16 * 1024 * 1024.

Record HttpRequest := {
  method : text;
  path : text;
  request_headers : list (text * text);
  request_body : option (list byte)
}.

Record HttpResponse := {
  status : N;
  reason : text;
  headers : list (text * text);
  body : list byte
}.

#[export] Instance HttpResponse_eq_dec : EqDecision HttpResponse.
Proof. solve_decision. Defined.

(** [HttpRequest::get] *)
Definition get_request (p : text) : HttpRequest :=
  {| method := txt "GET"; path := p; request_headers := []; request_body := None |}.

(** [HttpRequest::with_header] *)
Definition with_header (r : HttpRequest) (name value : text) : HttpRequest :=
  {| method := method r; path := path r;
     request_headers := request_headers r ++ [(name, value)]; request_body := request_body r |}.

(** [HttpResponse::header]: the first header of that name. *)
Definition find_header (name : text) (hs : list (text * text)) : option text :=
  snd <$> List.find (fun h => eq_ignore_ascii_case h.1 name) hs.
Definition header (r : HttpResponse) (name : text) : option text := find_header name (headers r).
Definition set_cookie (r : HttpResponse) : option text := header r (txt "set-cookie").
Definition location (r : HttpResponse) : option text := header r (txt "location").

(** ** Writing a request *)

Definition CRLF : text := [13; 10]%N.

(** [request_to_wire] *)
Definition request_to_wire (r : HttpRequest) : list byte :=
  utf8_encode
    (method r ++ txt " " ++ path r ++ txt " HTTP/1.1" ++ CRLF
     ++ flat_map (fun h => h.1 ++ txt ": " ++ h.2 ++ CRLF) (request_headers r)
     ++ match request_body r with
        | Some b => txt "Content-Length: " ++ txt (pretty (len b)) ++ CRLF
        | None => []
        end
     ++ txt "Connection: close" ++ CRLF ++ CRLF)
  ++ match request_body r with Some b => b | None => [] end.

(** ** Reading a response *)

(** What running the code comes to: it returns a [Result], or it panics. *)
Inductive outcome (A : Type) :=
| Returns (r : result AdapterError A)
| Panics.
Arguments Returns {A} r.
Arguments Panics {A}.

Definition refuse {A} (message : string) : outcome A := Returns (protocol message).

Definition CRLF_bytes : list byte := [x0d; x0a].

(** [is_chunked] *)
Definition is_chunked (hs : list (text * text)) : bool :=
  existsb (fun h => eq_ignore_ascii_case h.1 (txt "transfer-encoding")
                    && contains (txt "chunked") (to_ascii_lowercase h.2)) hs.

(** [content_length]; [parse] to a [usize] *)
Definition content_length (hs : list (text * text)) : option N :=
  value ← find_header (txt "content-length") hs;
  parse_unsigned 10 U64_MAX (trim value).

(** [size_line.split(';').next().unwrap_or("").trim()] as a [u64] in base 16. *)
Definition chunk_size (line : text) : option N :=
  parse_unsigned 16 U64_MAX (trim (default [] (head (split_char 59 line)))).

(** The loop of [decode_chunked], one iteration per unit of fuel: [None] is
    running out of it. *)
Fixpoint decode_chunks (fuel : nat) (out rest : list byte) : option (outcome (list byte)) :=
  match fuel with
  | O => None
  | S fuel =>
      match find_bytes CRLF_bytes rest with
      | None => Some (refuse "http: chunked size line missing")
      | Some line_end =>
          match from_utf8 (take line_end rest) with
          | None => Some (refuse "http: chunked size not utf8")
          | Some size_line =>
              match chunk_size size_line with
              | None => Some (refuse "http: bad chunk size")
              | Some size =>
                  let rest := drop (line_end + 2) rest in
                  if (size =? 0)%N then Some (Returns (Ok out))
                  else if (len rest <? u64_add size 2)%N then Some (refuse "http: truncated chunk")
                  else if (MAX_BODY_BYTES <? u64_add (len out) size)%N
                  then Some (refuse "http: body exceeds cap")
                  else if (len rest <? size)%N then Some Panics
                  else decode_chunks fuel (out ++ take (N.to_nat size) rest)
                         (drop (N.to_nat (u64_add size 2)) rest)
              end
          end
      end
  end.

(** [decode_chunked]: every iteration drops two bytes at least, so the length of
    the input is enough fuel. *)
Definition decode_chunked (input : list byte) : outcome (list byte) :=
  default Panics (decode_chunks (S (length input)) [] input).

(** One line of the head, as a header when it has a colon. *)
Definition header_of (line : text) : option (text * text) :=
  '(name, value) ← split_once 58 line; Some (trim name, trim value).

(** [status_line.splitn(3, ' ')], past the version: the status and the reason. *)
Definition parse_status_line (line : text) : option (N * text) :=
  '(_, rest) ← split_once 32 line;
  let '(code, reason) := match split_once 32 rest with
                         | Some (c, r) => (c, r)
                         | None => (rest, [])
                         end in
  status ← parse_unsigned 10 65535 code;
  Some (status, reason).

(** The body after the head. *)
Definition read_body (hs : list (text * text)) (rest : list byte) : outcome (list byte) :=
  if is_chunked hs then decode_chunked rest
  else
    match content_length hs with
    | Some n => Returns (Ok (if (n <=? len rest)%N then take (N.to_nat n) rest else rest))
    | None => Returns (Ok rest)
    end.

(** [response_from_wire] *)
Definition response_from_wire (input : list byte) : outcome HttpResponse :=
  match find_bytes (CRLF_bytes ++ CRLF_bytes) input with
  | None => refuse "http: truncated head"
  | Some head_end =>
      match from_utf8 (take head_end input) with
      | None => refuse "http: non-utf8 head"
      | Some head =>
          match split_str CRLF head with
          | [] => refuse "http: empty head"
          | status_line :: lines =>
              match parse_status_line status_line with
              | None => refuse "http: bad status line"
              | Some (status, reason) =>
                  let headers := omap header_of lines in
                  match read_body headers (drop (head_end + 4) input) with
                  | Panics => Panics
                  | Returns (Err e) => Returns (Err e)
                  | Returns (Ok body) =>
                      Returns (Ok {| status := status; reason := reason; headers := headers;
                                     body := body |})
                  end
              end
          end
      end
  end.

(** ** The chunked coding *)

(** The first place where a byte string occurs in another. *)
Definition occurs_at (needle input : list byte) (n : nat) : Prop :=
  take (length needle) (drop n input) = needle.
Definition first_at (needle input : list byte) (n : nat) : Prop :=
  occurs_at needle input n /\ forall m, (m < n)%nat -> ~ occurs_at needle input m.

(** A chunked body: lines that give the size of a chunk in base 16, with an
    optional extension, each followed by that many bytes and two more, up to a
    chunk of size zero.  What follows that is ignored. *)
Inductive chunked_body : list byte -> list byte -> Prop :=
| last_chunk input n line :
    first_at CRLF_bytes input n -> from_utf8 (take n input) = Some line ->
    chunk_size line = Some 0%N -> chunked_body input []
| next_chunk input n line data c1 c2 rest body :
    first_at CRLF_bytes input n -> from_utf8 (take n input) = Some line ->
    chunk_size line = Some (len data) -> data <> [] ->
    drop (n + 2) input = data ++ c1 :: c2 :: rest ->
    chunked_body rest body -> chunked_body input (data ++ body).

(** No slice is longer than [isize::MAX] bytes. *)
Definition ISIZE_MAX : N := 9223372036854775807.

(** ** Lemmas *)

Lemma find_bytes_iff needle input n :
  find_bytes needle input = Some n <-> first_at needle input n.
Proof.
  unfold first_at, occurs_at. revert n.
  induction input as [|b l IH]; intros n; cbn [find_bytes]; case_bool_decide as H.
  - split.
    + intros [= <-]. split; [done | intros m Hm; lia].
    + intros [_ Hmin]. destruct n as [|n]; [done |]. exfalso. apply (Hmin O); [lia | done].
  - split; [done |]. rewrite drop_nil. by intros [? _].
  - split.
    + intros [= <-]. split; [done | intros m Hm; lia].
    + intros [_ Hmin]. destruct n as [|n]; [done |]. exfalso. apply (Hmin O); [lia | done].
  - destruct n as [|n].
    { split; [by destruct (find_bytes needle l) | by intros [? _]]. }
    transitivity (find_bytes needle l = Some n).
    { destruct (find_bytes needle l); cbn; split; congruence. }
    rewrite IH. split; intros [Ho Hmin]; (split; [done |]).
    + intros [|m] Hm; [done | apply Hmin; lia].
    + intros m Hm. apply (Hmin (S m)). lia.
Qed.

Lemma find_crlf_length input n :
  find_bytes CRLF_bytes input = Some n -> (n + 2 <= length input)%nat.
Proof.
  intros H%find_bytes_some. apply (f_equal length) in H. rewrite !length_app, length_take in H.
  cbn [length CRLF_bytes] in H. lia.
Qed.

Lemma chunk_size_le line n : chunk_size line = Some n -> (n <= U64_MAX)%N.
Proof.
  assert (Hd : forall radix s acc m, (acc <= U64_MAX)%N ->
            digits_value radix U64_MAX acc s = Some m -> (m <= U64_MAX)%N).
  { intros radix s. induction s as [|c s IH]; intros acc m Hacc; cbn [digits_value].
    - by intros [= <-].
    - destruct (to_digit radix c) as [d|]; [| done]. cbn.
      destruct (N.leb_spec (acc * radix + d) U64_MAX); [| done]. by apply IH. }
  unfold chunk_size, parse_unsigned. intros H.
  repeat case_match; try done; (eapply Hd; [| exact H]; done).
Qed.

(** The fuel is enough. *)
Lemma decode_chunks_total fuel out rest :
  (length rest < fuel)%nat -> exists o, decode_chunks fuel out rest = Some o.
Proof.
  revert out rest. induction fuel as [|fuel IH]; intros out rest Hf; [lia |]. cbn [decode_chunks].
  destruct (find_bytes CRLF_bytes rest) as [n|] eqn:E; [| eauto].
  apply find_crlf_length in E. repeat (case_match; eauto).
  apply IH. rewrite !length_drop. lia.
Qed.

(** One iteration that consumes a chunk. *)
Lemma decode_chunks_next fuel out input n line data c1 c2 rest :
  first_at CRLF_bytes input n -> from_utf8 (take n input) = Some line ->
  chunk_size line = Some (len data) -> data <> [] ->
  drop (n + 2) input = data ++ c1 :: c2 :: rest ->
  (len out + len data <= MAX_BODY_BYTES)%N ->
  decode_chunks (S fuel) out input = decode_chunks fuel (out ++ data) rest.
Proof.
  intros Hn%find_bytes_iff Hl Hs Hne Hd Hcap. cbn [decode_chunks]. rewrite Hn, Hl, Hs, Hd.
  unfold MAX_BODY_BYTES in *. assert (Hpos : (0 < len data)%N) by (destruct data; [done | unfold len; cbn; lia]).
  rewrite !u64_add_small by (unfold U64_MAX; lia).
  replace (len data =? 0)%N with false by lia.
  assert (Hlen : (len (data ++ c1 :: c2 :: rest) = len data + 2 + len rest)%N)
    by (unfold len; rewrite length_app; cbn [length]; lia).
  rewrite Hlen. replace (len data + 2 + len rest <? len data + 2)%N with false by lia.
  replace (len data + 2 + len rest <? len data)%N with false by lia.
  match goal with |- context [if ?c then _ else _] => replace c with false by lia end.
  replace (N.to_nat (len data + 2)) with (length data + 2)%nat by (unfold len; lia).
  replace (N.to_nat (len data)) with (length data) by (unfold len; lia).
  rewrite take_app_length. f_equal. rewrite drop_app_add. done.
Qed.

Lemma chunked_body_decodes input body :
  chunked_body input body -> forall fuel out,
  (length input < fuel)%nat -> (len out + len body <= MAX_BODY_BYTES)%N ->
  decode_chunks fuel out input = Some (Returns (Ok (out ++ body))).
Proof.
  induction 1 as [input n line Hn Hl Hs | input n line data c1 c2 rest body Hn Hl Hs Hne Hd Hb IH];
    intros fuel out Hf Hcap; destruct fuel as [|fuel]; try lia.
  - apply find_bytes_iff in Hn. cbn [decode_chunks]. rewrite Hn, Hl, Hs. cbn.
    by rewrite app_nil_r.
  - unfold len in Hcap. rewrite length_app in Hcap.
    rewrite (decode_chunks_next fuel out input n line data c1 c2 rest) by (done || unfold len; lia).
    rewrite IH, (assoc_L (++)); [done | |].
    + apply (f_equal length) in Hd. rewrite length_drop, length_app in Hd. cbn [length] in Hd. lia.
    + unfold len. rewrite length_app. lia.
Qed.

(** A slice with two bytes after its first [size]. *)
Lemma split_chunk rest size :
  (size + 2 <= len rest)%N ->
  exists c1 c2 tail, len (take (N.to_nat size) rest) = size /\
    rest = take (N.to_nat size) rest ++ c1 :: c2 :: tail /\
    drop (N.to_nat (size + 2)) rest = tail.
Proof.
  intros H. unfold len in *. rewrite length_take.
  destruct (drop (N.to_nat size) rest) as [|c1 [|c2 tail]] eqn:Hd;
    [apply (f_equal length) in Hd; rewrite length_drop in Hd; cbn in Hd; lia .. |].
  exists c1, c2, tail. split; [lia |]. rewrite <- Hd, take_drop. split; [done |].
  replace (N.to_nat (size + 2)) with (N.to_nat size + 2)%nat by lia.
  by rewrite <- drop_drop, Hd.
Qed.

Lemma decode_chunks_ok fuel out input b :
  (len input <= ISIZE_MAX)%N -> (len out <= MAX_BODY_BYTES)%N ->
  decode_chunks fuel out input = Some (Returns (Ok b)) ->
  exists body, b = out ++ body /\ chunked_body input body /\ (len b <= MAX_BODY_BYTES)%N.
Proof.
  revert out input. induction fuel as [|fuel IH]; intros out input Hin Hout; [done |].
  cbn [decode_chunks].
  destruct (find_bytes CRLF_bytes input) as [n|] eqn:Hn; [| done].
  destruct (from_utf8 (take n input)) as [line|] eqn:Hl; [| done].
  destruct (chunk_size line) as [size|] eqn:Hs; [| done].
  pose proof (find_crlf_length _ _ Hn) as Hlen. apply find_bytes_iff in Hn.
  destruct (N.eqb_spec size 0) as [-> | Hne].
  { intros [= <-]. exists []. rewrite app_nil_r. split; [done |]. split; [by eapply last_chunk | done]. }
  set (rest := drop (n + 2) input).
  assert (Hrest : (len rest <= ISIZE_MAX)%N) by (unfold len, rest in *; rewrite length_drop; lia).
  destruct (len rest <? u64_add size 2)%N eqn:H1; [done |].
  destruct (MAX_BODY_BYTES <? u64_add (len out) size)%N eqn:H2; [done |].
  destruct (len rest <? size)%N eqn:H3; [done |].
  unfold ISIZE_MAX, MAX_BODY_BYTES in *.
  rewrite u64_add_small in H1 by (unfold U64_MAX; lia).
  rewrite u64_add_small in H2 by (unfold U64_MAX; lia).
  rewrite u64_add_small by (unfold U64_MAX; lia).
  destruct (split_chunk rest size) as (c1 & c2 & tail & Hdata & Hr & ->); [lia |].
  set (data := take (N.to_nat size) rest) in *. intros Hrec.
  destruct (IH (out ++ data) tail) as (body & -> & Hb & Hcap); [| | done |].
  { unfold len in *. rewrite Hr, length_app in Hrest. cbn [length] in Hrest. lia. }
  { unfold len in *. rewrite length_app. lia. }
  exists (data ++ body). split; [by rewrite (assoc_L (++)) |]. split; [| done].
  eapply next_chunk; [exact Hn | exact Hl | by rewrite Hs, Hdata | | exact Hr | exact Hb].
  intros Hnil. apply Hne. by rewrite <- Hdata, Hnil.
Qed.

(** [decode_chunked] decides the chunked coding: on any slice Rust can
    hold it returns a body exactly when the input is a chunked coding of it and
    the body is within the cap, so no accepted body is ever larger than the cap. *)
Theorem decode_chunked_iff input b :
  (len input <= ISIZE_MAX)%N ->
  decode_chunked input = Returns (Ok b) <->
  chunked_body input b /\ (len b <= MAX_BODY_BYTES)%N.
Proof.
  intros Hin. unfold decode_chunked.
  destruct (decode_chunks_total (S (length input)) [] input) as [o Ho]; [lia |]. rewrite Ho. cbn.
  split.
  - intros ->. destruct (decode_chunks_ok (S (length input)) [] input b Hin) as (body & -> & Hb & Hc);
      [by vm_compute | exact Ho | done].
  - intros [Hb Hc]. rewrite (chunked_body_decodes input b Hb) in Ho; [| lia | done].
    by injection Ho as <-.
Qed.

(** A chunk of size [ff..ff] after a non-empty one passes both length checks,
    because the sums wrap, and the slice that follows is out of range. *)
Definition overflowing_chunks : list byte :=
  utf8_encode (txt "1" ++ CRLF ++ txt "A" ++ CRLF ++ txt "ffffffffffffffff" ++ CRLF ++ txt "B").

Lemma chunk_overflow_panics : decode_chunked overflowing_chunks = Panics.
Proof. by vm_compute. Qed.

Lemma decode_chunks_panics fuel out input :
  (len input <= ISIZE_MAX)%N -> decode_chunks fuel out input = Some Panics ->
  exists pre suf n line size, input = pre ++ suf /\ first_at CRLF_bytes suf n /\
    from_utf8 (take n suf) = Some line /\ chunk_size line = Some size /\ (U64_MAX - 1 <= size)%N.
Proof.
  revert out input. induction fuel as [|fuel IH]; intros out input Hin; [done |]. cbn [decode_chunks].
  destruct (find_bytes CRLF_bytes input) as [n|] eqn:Hn; [| done].
  destruct (from_utf8 (take n input)) as [line|] eqn:Hl; [| done].
  destruct (chunk_size line) as [size|] eqn:Hs; [| done].
  set (rest := drop (n + 2) input).
  destruct (size =? 0)%N; [done |].
  destruct (len rest <? u64_add size 2)%N eqn:H1; [done |].
  destruct (MAX_BODY_BYTES <? u64_add (len out) size)%N; [done |].
  destruct (len rest <? size)%N eqn:H3.
  - intros _. exists [], input, n, line, size. apply find_bytes_iff in Hn. do 4 (split; [done |]).
    apply N.le_ngt. intros Hlt. rewrite u64_add_small in H1 by (unfold U64_MAX in *; lia). lia.
  - intros Hrec. apply IH in Hrec as (pre & suf & m & l & sz & Hsuf & Hrec).
    + exists (take (n + 2) input ++ take (N.to_nat (u64_add size 2)) rest ++ pre), suf, m, l, sz.
      split; [| done]. rewrite <- !(assoc_L (++)), <- Hsuf, take_drop. unfold rest. by rewrite take_drop.
    + unfold rest, len in *. rewrite !length_drop. lia.
Qed.

(** Decoding a chunked body can panic: a chunk whose size is all ones after
    a non-empty chunk makes both length checks wrap around and the slice after
    them go out of range.  Nothing else panics: a panic always has a size line
    for 2^64 - 2 or 2^64 - 1 bytes. *)
Theorem decode_chunked_panics input :
  (len input <= ISIZE_MAX)%N -> decode_chunked input = Panics ->
  decode_chunked overflowing_chunks = Panics /\
  exists pre suf n line size, input = pre ++ suf /\ first_at CRLF_bytes suf n /\
    from_utf8 (take n suf) = Some line /\ chunk_size line = Some size /\ (U64_MAX - 1 <= size)%N.
Proof.
  intros Hin H. split; [apply chunk_overflow_panics |]. unfold decode_chunked in H.
  destruct (decode_chunks_total (S (length input)) [] input) as [o Ho]; [lia |].
  rewrite Ho in H. cbn in H. subst o. by eapply decode_chunks_panics.
Qed.

Lemma decode_chunked_panics_witness :
  exists pre suf n, overflowing_chunks = pre ++ suf /\ first_at CRLF_bytes suf n.
Proof.
  destruct (decode_chunked_panics overflowing_chunks) as (_ & pre & suf & n & line & size & H1 & H2 & _);
    [by vm_compute | by vm_compute | by exists pre, suf, n].
Defined.

(** ** Reading back a printed response *)

(** The text of a response's head, one line per header. *)
Definition head_lines (r : HttpResponse) : list text :=
  (txt "HTTP/1.1 " ++ txt (pretty (status r)) ++ txt " " ++ reason r) ::
  map (fun h => h.1 ++ txt ": " ++ h.2) (headers r).

(** Lines joined by line breaks. *)
Definition join_lines (ls : list text) : text :=
  match ls with
  | [] => []
  | l :: ls => l ++ flat_map (fun l => CRLF ++ l) ls
  end.

Definition response_to_wire (r : HttpResponse) : list byte :=
  utf8_encode (join_lines (head_lines r) ++ CRLF ++ CRLF) ++ body r.

(** No line break. *)
Definition no_cr (s : text) : Prop := 13%N ∉ s.

(** A response a server may send without a transfer coding: one line per header,
    no colon in a name, no space around names and values, and a
    [Content-Length] that is that of the body when there is one. *)
Record wf_response (r : HttpResponse) : Prop := {
  wf_status : (status r <= 65535)%N;
  wf_reason : no_cr (reason r) /\ forallb scalar (reason r) = true;
  wf_headers : Forall (fun h =>
    no_cr h.1 /\ no_cr h.2 /\ (58%N ∉ h.1) /\ trim h.1 = h.1 /\ trim h.2 = h.2 /\
    forallb scalar h.1 = true /\ forallb scalar h.2 = true) (headers r);
  wf_identity : is_chunked (headers r) = false;
  wf_length : (content_length (headers r) = None) \/ (content_length (headers r) = Some (len (body r)))
}.

(** *** Lemmas on lines *)

Lemma split_from_prefix l t hd tl :
  no_cr l -> split_from CRLF 0 t = hd :: tl -> split_from CRLF 0 (l ++ t) = (l ++ hd) :: tl.
Proof.
  intros Hl Ht. induction l as [|c l IH]; [done |]. apply not_elem_of_cons in Hl as [Hc Hl].
  cbn [app split_from]. unfold starts_with at 1.
  rewrite bool_decide_false by (cbn [CRLF length take]; intros [= ? _]; congruence).
  by rewrite (IH Hl).
Qed.

Lemma split_join_lines l ls :
  Forall no_cr (l :: ls) -> split_str CRLF (join_lines (l :: ls)) = l :: ls.
Proof.
  intros [Hl Hls]%Forall_cons. unfold split_str, join_lines. revert l Hl.
  induction Hls as [|l' ls Hl' Hls IH]; intros l Hl; cbn [flat_map].
  - rewrite (split_from_prefix l [] [] []) by done. by rewrite app_nil_r.
  - rewrite (split_from_prefix l _ [] (l' :: ls)); [by rewrite app_nil_r | done |].
    rewrite <- (IH l' Hl'). rewrite <- (assoc_L (++)). done.
Qed.

Lemma find_bytes_skip x needle pre tail :
  x ∉ pre ->
  find_bytes (x :: needle) (pre ++ tail) = Nat.add (length pre) <$> find_bytes (x :: needle) tail.
Proof.
  intros Hx. induction pre as [|b pre IH]; [cbn [app length]; by destruct (find_bytes (x :: needle) tail) |].
  apply not_elem_of_cons in Hx as [Hb Hx]. cbn [app find_bytes].
  rewrite bool_decide_false by (cbn [length take]; intros [= ? _]; congruence).
  rewrite (IH Hx). by destruct (find_bytes _ tail).
Qed.

(** A line break that a line follows is not the end of the head. *)
Lemma find_head_skip b tail :
  b <> x0d ->
  find_bytes (CRLF_bytes ++ CRLF_bytes) (CRLF_bytes ++ b :: tail)
  = Nat.add 2 <$> find_bytes (CRLF_bytes ++ CRLF_bytes) (b :: tail).
Proof.
  intros Hb. cbn [CRLF_bytes app].
  cbn [find_bytes length take]. rewrite bool_decide_false by (intros [= ? _]; congruence).
  rewrite bool_decide_false by (intros [= ? _]; congruence).
  by destruct (bool_decide _); [| destruct (find_bytes _ tail)].
Qed.

Lemma find_head_end l ls rest :
  Forall (fun l => l <> [] /\ x0d ∉ l) (l :: ls) ->
  find_bytes (CRLF_bytes ++ CRLF_bytes)
    ((l ++ flat_map (fun l => CRLF_bytes ++ l) ls) ++ (CRLF_bytes ++ CRLF_bytes) ++ rest)
  = Some (length (l ++ flat_map (fun l => CRLF_bytes ++ l) ls)).
Proof.
  assert (Hskip : forall pre tail, x0d ∉ pre ->
            find_bytes (CRLF_bytes ++ CRLF_bytes) (pre ++ tail)
            = Nat.add (length pre) <$> find_bytes (CRLF_bytes ++ CRLF_bytes) tail)
    by (intros; by apply find_bytes_skip).
  intros [[_ Hl] Hls]%Forall_cons. revert l Hl.
  induction Hls as [|l' ls [Hne Hl'] Hls IH]; intros l Hl; cbn [flat_map].
  - rewrite app_nil_r. by apply (find_bytes_app x0d).
  - specialize (IH l' Hl'). rewrite <- !(assoc_L (++)), Hskip by done.
    destruct l' as [|b l']; [done |]. pose proof Hl' as [Hb _]%not_elem_of_cons.
    rewrite <- !(assoc_L (++)) in IH. cbn [app] in IH |- *. rewrite find_head_skip by congruence.
    rewrite IH. cbn [fmap option_fmap option_map]. f_equal.
    rewrite !length_app. cbn [length]. rewrite !length_app. cbn [length CRLF_bytes]. lia.
Qed.

(** *** Headers and the status line *)

Lemma split_once_app c a b : c ∉ a -> split_once c (a ++ c :: b) = Some (a, b).
Proof.
  intros Hc. unfold split_once. induction a as [|x a IH].
  - cbn [app split_at_first length take]. by rewrite bool_decide_true.
  - apply not_elem_of_cons in Hc as [Hx Hc]. cbn [app split_at_first].
    rewrite bool_decide_false by (cbn [length take]; rewrite take_0; intros [=]; congruence).
    by rewrite (IH Hc).
Qed.

Lemma header_of_line name value :
  58%N ∉ name -> trim name = name -> trim value = value ->
  header_of (name ++ txt ": " ++ value) = Some (name, value).
Proof.
  intros Hc Hn Hv. unfold header_of. change (txt ": " ++ value) with (58%N :: 32%N :: value).
  rewrite split_once_app by done. cbn. rewrite Hn. do 2 f_equal. exact Hv.
Qed.

Lemma parse_status_line_printed n r :
  (n <= 65535)%N ->
  parse_status_line (txt "HTTP/1.1 " ++ txt (pretty n) ++ txt " " ++ r) = Some (n, r).
Proof.
  intros Hn. unfold parse_status_line.
  change (txt "HTTP/1.1 " ++ ?t) with (txt "HTTP/1.1" ++ 32%N :: t).
  rewrite split_once_app by absent.
  cbn [mbind option_bind]. change (txt " " ++ r) with (32%N :: r).
  rewrite split_once_app.
  - by rewrite parse_unsigned_pretty.
  - intros H. pose proof (proj1 (Forall_forall _ _) (pretty_digits n) _ H). cbv beta in *. lia.
Qed.

Lemma no_cr_bytes l : forallb scalar l = true -> no_cr l -> x0d ∉ utf8_encode l.
Proof. intros Hs Hl H. apply Hl. by apply (utf8_encode_byte l x0d). Qed.

Lemma utf8_encode_join l ls :
  utf8_encode (join_lines (l :: ls)) =
  utf8_encode l ++ flat_map (fun l => CRLF_bytes ++ l) (map utf8_encode ls).
Proof.
  unfold join_lines. rewrite utf8_encode_app. f_equal.
  induction ls as [|l' ls IH]; [done |]. cbn [flat_map map]. by rewrite !utf8_encode_app, IH.
Qed.

Definition head_line_ok (l : text) : Prop := l <> [] /\ no_cr l /\ forallb scalar l = true.

Lemma head_lines_ok r : wf_response r -> Forall head_line_ok (head_lines r).
Proof.
  intros [Hst [Hrc Hrs] Hh _ _]. unfold head_lines, head_line_ok, no_cr. constructor.
  - split; [done |]. split.
    + rewrite !elem_of_app. intros [H | [H | [H | H]]]; [| | | done].
      * absent_in H.
      * pose proof (proj1 (Forall_forall _ _) (pretty_digits _) _ H). cbv beta in *. lia.
      * absent_in H.
    + rewrite !forallb_app, Hrs. rewrite (ascii_scalar (txt (pretty (status r)))) by apply pretty_ascii.
      done.
  - apply Forall_map. eapply Forall_impl; [exact Hh |]. intros [name value]. cbn.
    intros (Hn & Hv & _ & _ & _ & Hns & Hvs). split; [by destruct name |]. split.
    + rewrite !elem_of_app. intros [H | [H | H]]; [done | | done].
      absent_in H.
    + by rewrite !forallb_app, Hns, Hvs.
Qed.

Lemma headers_read_back hs :
  Forall (fun h : text * text => (58%N ∉ h.1) /\ trim h.1 = h.1 /\ trim h.2 = h.2) hs ->
  omap header_of (map (fun h => h.1 ++ txt ": " ++ h.2) hs) = hs.
Proof.
  induction 1 as [|[name value] hs (Hc & Hn & Hv) _ IH]; [done |].
  cbn [map omap list_omap]. cbn in Hc, Hn, Hv. cbn [fst snd].
  rewrite header_of_line by done. by rewrite IH.
Qed.

(** A well-formed response without a transfer coding, printed line by line
    as a server sends it, is read back exactly: status, reason, headers and
    body. *)
Theorem response_round_trip r :
  wf_response r -> response_from_wire (response_to_wire r) = Returns (Ok r).
Proof.
  intros Hwf. pose proof (head_lines_ok r Hwf) as Hlines.
  destruct Hwf as [Hst _ Hh Hid Hlen].
  unfold response_to_wire, response_from_wire. unfold head_lines in *.
  set (l0 := txt "HTTP/1.1 " ++ txt (pretty (status r)) ++ txt " " ++ reason r) in *.
  set (ls := map (fun h => h.1 ++ txt ": " ++ h.2) (headers r)) in *.
  rewrite utf8_encode_app. change (utf8_encode (CRLF ++ CRLF)) with (CRLF_bytes ++ CRLF_bytes).
  rewrite <- (assoc_L (++)), utf8_encode_join.
  rewrite find_head_end.
  2:{ change (utf8_encode l0 :: map utf8_encode ls) with (map utf8_encode (l0 :: ls)).
      apply Forall_map. eapply Forall_impl; [exact Hlines |]. intros l (Hne & Hcr & Hs). split.
      - intros Hnil. apply Hne. pose proof (from_utf8_encode l Hs) as Hd. rewrite Hnil in Hd.
        by injection Hd as <-.
      - by apply no_cr_bytes. }
  rewrite take_app_length, <- utf8_encode_join, from_utf8_encode.
  2:{ unfold join_lines. apply Forall_cons in Hlines as [(_ & _ & H0) Hls].
      rewrite forallb_app, H0. cbn [andb]. induction Hls as [|l ls' (_ & _ & Hl) _ IH]; [done |].
      cbn [flat_map]. by rewrite !forallb_app, Hl, IH. }
  rewrite split_join_lines.
  2:{ eapply Forall_impl; [exact Hlines |]. by intros l (_ & ? & _). }
  unfold l0. rewrite parse_status_line_printed by done.
  unfold ls. rewrite headers_read_back.
  2:{ eapply Forall_impl; [exact Hh |]. intros h. naive_solver. }
  rewrite (assoc_L (++) (utf8_encode _)), drop_app_length'.
  2:{ rewrite length_app. cbn [length app CRLF_bytes]. lia. }
  unfold read_body. rewrite Hid. destruct Hlen as [-> | ->].
  - by destruct r.
  - replace (len (body r) <=? len (body r))%N with true by lia.
    unfold len. rewrite Nat2N.id, firstn_all. by destruct r.
Qed.

Definition sample_response : HttpResponse :=
  {| status := 200; reason := txt "OK"; headers := [(txt "Content-Length", txt "2")];
     body := [x68; x69] |}.

Lemma response_round_trip_witness :
  response_from_wire (response_to_wire sample_response) = Returns (Ok sample_response).
Proof.
  apply response_round_trip. constructor.
  - by vm_compute.
  - split; [unfold no_cr; absent | reflexivity].
  - constructor; [| constructor]. cbn [fst snd]. unfold no_cr.
    split; [absent | split; [absent | split; [absent |]]]. repeat split; reflexivity.
  - reflexivity.
  - right. reflexivity.
Defined.

Definition sample_chunks : list byte :=
  utf8_encode (txt "2;x=1" ++ CRLF ++ txt "hi" ++ CRLF ++ txt "0" ++ CRLF ++ CRLF).

Lemma decode_chunked_iff_witness :
  chunked_body sample_chunks [x68; x69].
Proof.
  apply (decode_chunked_iff sample_chunks [x68; x69]); [by vm_compute | by vm_compute].
Defined.

(** The cap on bodies is only that of the chunked coding: a body delimited by
    its length or by the end of the connection is taken at any size. *)
Lemma read_body_uncapped hs rest :
  is_chunked hs = false -> content_length hs = None \/ content_length hs = Some (len rest) ->
  read_body hs rest = Returns (Ok rest).
Proof.
  intros Hc Hl. unfold read_body. rewrite Hc. destruct Hl as [-> | ->]; [done |].
  replace (len rest <=? len rest)%N with true by lia. unfold len. by rewrite Nat2N.id, firstn_all.
Qed.
