(* ===== verification/Json.v ===== *)
(** * JSON values

    The data type [serde_json::Value] and the accessors the sources use.  An
    object is a [BTreeMap], here the list of its entries in the order of their
    keys.  Reading and printing JSON text belongs to [serde_json] and is the
    interface [SerdeJson]. *)
From S2P Require Import Prelude Text.
From stdpp Require Import base list option strings.
From Stdlib Require Import NArith ZArith Lia Strings.Byte.

(** A number is a [u64], a negative [i64], or an [f64], of which only the bit
    pattern is kept. *)
Inductive Number := PosInt (n : N) | NegInt (z : Z) | Float (bits : N).

#[warnings="-register-all"]
Inductive Value :=
| Null
| Bool (b : bool)
| Num (n : Number)
| Str (s : text)
| Array (items : list Value)
| Object (entries : list (text * Value)).

(** [serde_json]: parsing, with the text of the error, and printing. *)
Class SerdeJson := {
  from_str : text -> result text Value;
  to_string : Value -> text;
  to_vec : Value -> option (list byte)
}.

(** ** Objects *)

Definition Map : Type := list (text * Value).

(** The order of [str]: that of the UTF-8 bytes, which is that of the scalar
    values. *)
Fixpoint text_compare (a b : text) : comparison :=
  match a with
  | [] => if b is [] then Eq else Lt
  | x :: a =>
      match b with
      | [] => Gt
      | y :: b => match (x ?= y)%N with Eq => text_compare a b | c => c end
      end
  end.

(** [Map::get] *)
Fixpoint map_get (key : text) (m : Map) : option Value :=
  match m with
  | [] => None
  | (k, v) :: m => if bool_decide (k = key) then Some v else map_get key m
  end.

(** [Map::insert] *)
Fixpoint map_insert (key : text) (v : Value) (m : Map) : Map :=
  match m with
  | [] => [(key, v)]
  | (k, w) :: m' =>
      match text_compare key k with
      | Lt => (key, v) :: m
      | Eq => (key, v) :: m'
      | Gt => (k, w) :: map_insert key v m'
      end
  end.

(** [json!({ ... })] *)
Definition obj (entries : list (string * Value)) : Value :=
  Object (foldl (fun m e => map_insert (txt e.1) e.2 m) [] entries).

(** [object[key] = value], on an object. *)
Definition set_key (key : string) (v : Value) (o : Value) : Value :=
  match o with
  | Object m => Object (map_insert (txt key) v m)
  | _ => o
  end.

(** ** Accessors *)

Definition as_object (v : Value) : option Map := if v is Object m then Some m else None.
Definition as_array (v : Value) : option (list Value) := if v is Array l then Some l else None.
Definition as_str (v : Value) : option text := if v is Str s then Some s else None.
Definition as_bool (v : Value) : option bool := if v is Bool b then Some b else None.
Definition as_u64 (v : Value) : option N := if v is Num (PosInt n) then Some n else None.

(** [Value::get] with a string: [None] unless the value is an object. *)
Definition get (key : text) (v : Value) : option Value := as_object v ≫= map_get key.

(** [Value::pointer], for a pointer whose tokens are no array indices. *)
Definition pointer (path : list text) (v : Value) : option Value :=
  foldl (fun o key => o ≫= get key) (Some v) path.

(** ** Lemmas *)

Lemma text_compare_eq a b : text_compare a b = Eq -> a = b.
Proof.
  revert b. induction a as [|x a IH]; intros [|y b]; cbn; try done.
  destruct (N.compare_spec x y) as [-> | |]; try done. intros H. f_equal. by apply IH.
Qed.

Lemma text_compare_opp a b : text_compare b a = CompOpp (text_compare a b).
Proof.
  revert b. induction a as [|x a IH]; intros [|y b]; cbn; try done.
  rewrite (N.compare_antisym x y). destruct (x ?= y)%N; cbn; [apply IH | done | done].
Qed.

Lemma map_get_insert key v m : map_get key (map_insert key v m) = Some v.
Proof.
  induction m as [|[k w] m IH]; cbn [map_insert map_get].
  - by rewrite bool_decide_true.
  - destruct (text_compare key k) eqn:E; cbn [map_get]; try by rewrite bool_decide_true.
    rewrite bool_decide_false; [done |]. intros ->.
    assert (Hrefl : forall t, text_compare t t = Eq)
      by (intros t; induction t as [|x t IHt]; cbn; [done | by rewrite N.compare_refl]).
    by rewrite Hrefl in E.
Qed.

Lemma map_get_insert_ne key k v m : key <> k -> map_get key (map_insert k v m) = map_get key m.
Proof.
  intros Hne. induction m as [|[k' w] m IH]; cbn [map_insert map_get].
  - by rewrite bool_decide_false.
  - destruct (text_compare k k') eqn:E; cbn [map_get].
    + apply text_compare_eq in E as ->. by rewrite !bool_decide_false.
    + by rewrite bool_decide_false.
    + case_bool_decide; [done | exact IH].
Qed.
