(* ===== verification/Adapter.v ===== *)
(** * The message codecs of the DSH adapter

    Model of the pure parts of [crates/adapter-dsh/src]: [auth.rs] (launch token
    to cookie), [mux.rs] (frames of the stream multiplexer), [events.rs]
    ([$events] messages and the allowlist), [notify.rs] (events to
    notifications) and [jsonrpc.rs] (request envelopes and responses). *)
From stdpp Require Import base list option strings pretty.
From Stdlib Require Import NArith ZArith Lia Strings.Byte.
From S2P Require Import Prelude Text Json WebSocket Http.

(** [{text:?}], the escaped text between quotes, belongs to the formatting
    machinery. *)
Class DebugText := debug_text : text -> text.

(** [.ok_or_else(|| AdapterError::Protocol(message.to_string()))] *)
Definition need {A} (message : string) (o : option A) : result AdapterError A :=
  ok_or (Protocol (txt message)) o.

(** [object.get(key).and_then(Value::as_str)] *)
Definition str_of (o : Map) (key : string) : option text := map_get (txt key) o ≫= as_str.

(** ** Launch-token authentication *)
Module Auth.
Section WithDebug.
Context `{DebugText}.

Definition LAUNCH_COOKIE_PREFIX : text := txt "dsh-auth-".
Definition MAX_COOKIE_NAME_CHARS : N := 128.

Record AuthResult := { cookie : text; set_cookie_raw : text; redirect : text }.

Definition auth {A} (message : string) : result AdapterError A := Err (Auth (txt message)).

(** [base_path] *)
Definition base_path (base_url : text) : result AdapterError text :=
  match strip_prefix (txt "http://") base_url with
  | None => auth "base_url must use http:// (loopback)"
  | Some rest =>
      Ok match split_once 47 rest with
         | Some (_, []) => []
         | Some (_, p) => 47%N :: trim_end_matches 47 p
         | None => []
         end
  end.

Definition is_unreserved (n : N) : bool :=
  ((48 <=? n) && (n <=? 57) || (65 <=? n) && (n <=? 90) || (97 <=? n) && (n <=? 122)
   || (n =? 45) || (n =? 46) || (n =? 95) || (n =? 126))%N.

(** [{byte:02X}] *)
Definition hex_digit (n : N) : N := (if n <? 10 then 48 + n else 55 + n)%N.
Definition percent_byte (b : byte) : text :=
  let n := Byte.to_N b in
  if is_unreserved n then [n] else [37; hex_digit (n / 16); hex_digit (n mod 16)]%N.

(** [percent_encode] *)
Definition percent_encode (input : text) : text := flat_map percent_byte (utf8_encode input).

(** [build_token_request] *)
Definition build_token_request (base_url token : text) : result AdapterError HttpRequest :=
  path ← base_path base_url;
  if bool_decide (token = []) || (256 <? utf8_len token)%N
  then auth "launch token out of bounds"
  else Ok (get_request (path ++ txt "/?token=" ++ percent_encode token)).

(** [parse_auth_response] *)
Definition parse_auth_response (r : HttpResponse) : result AdapterError AuthResult :=
  if negb ((300 <=? status r) && (status r <? 400))%N
  then Err (Auth (txt "expected 3xx redirect, got " ++ txt (pretty (status r))))
  else
    match set_cookie r with
    | None => auth "no Set-Cookie on redirect"
    | Some raw =>
        let name_value := trim (default [] (head (split_char 59 raw))) in
        match split_once 61 name_value with
        | None => auth "malformed Set-Cookie"
        | Some (name, value) =>
            if negb (starts_with LAUNCH_COOKIE_PREFIX name)
               || (MAX_COOKIE_NAME_CHARS <? utf8_len name)%N
               || bool_decide (value = []) || (512 <? utf8_len value)%N
            then Err (Auth (txt "unexpected launch cookie name " ++ debug_text name))
            else Ok {| cookie := name ++ txt "=" ++ value; set_cookie_raw := raw;
                       redirect := default [] (location r) |}
        end
    end.
End WithDebug.
End Auth.

(** ** Mux frames *)
Module Mux.
Section WithSerde.
Context `{SerdeJson} `{DebugText}.

Definition EVENTS_ENDPOINT : text := txt "$events".

Inductive MuxFrame :=
| Item (stream_id : text) (value : Value)
| Error (stream_id : text) (code message : option text) (details : option Value)
| End (stream_id : text).

(** [parse_mux_frame] *)
Definition parse_mux_frame (s : text) : result AdapterError MuxFrame :=
  value ← map_err (fun error => Protocol (txt "mux: invalid json: " ++ error)) (from_str s);
  object ← need "mux: non-object frame" (as_object value);
  kind ← need "mux: missing type" (str_of object "type");
  stream_id ← need "mux: missing streamId" (str_of object "streamId");
  if bool_decide (kind = txt "item") then
    value ← need "mux: item without value" (map_get (txt "value") object);
    Ok (Item stream_id value)
  else if bool_decide (kind = txt "error") then
    error ← need "mux: error without error object" (map_get (txt "error") object ≫= as_object);
    Ok (Error stream_id (str_of error "code") (str_of error "message") (map_get (txt "details") error))
  else if bool_decide (kind = txt "end") then Ok (End stream_id)
  else Err (Protocol (txt "mux: unknown frame type " ++ debug_text kind)).
End WithSerde.
End Mux.

(** ** [$events] messages *)
Module Events.
Section WithSerde.
Context `{SerdeJson}.

Definition ALLOWLIST : list text := map txt
  ["agent-preset/selected"; "approval/request"; "api-session/activity"; "api-session/added";
   "api-session/error"; "api-session/removed"; "api-session/status"; "commands/change";
   "credentials/reference-updated"; "cordis/request-run"; "cordis/request-run-resolved";
   "cordis/dynamic-package"; "cordis/dynamic-retract"; "cordis/inspect-query";
   "cordis/inspect-query-resolved"; "llm/adapters-updated"; "settings/document-updated";
   "user-questions/request"].

Record ClientIdentity := { client_id : text; host_home : option text }.

Inductive EventMessage :=
| Ready (identity : ClientIdentity)
| Emit (event : text) (args : Value)
| Waterfall (event : text) (event_id agent_id : option text) (request : Value)
| Cancel (event_id reason : option text)
| Unknown (kind : text).

Inductive AllowedEvent :=
| ApiSession (kind : text)
| ApprovalRequest
| UserQuestionRequest
| SettingsDocumentUpdated
| CordisDynamicPackage
| CordisDynamicRetract.

(** [find_map] over the keys: the value of the first key that is present. *)
Fixpoint first_present (keys : list string) (get_key : text -> option Value) : option Value :=
  match keys with
  | [] => None
  | k :: keys => match get_key (txt k) with
                 | Some v => Some v
                 | None => first_present keys get_key
                 end
  end.

(** [get_str] of [events.rs] *)
Definition get_str (object : Map) (keys : list string) : option text :=
  first_present keys (fun k => map_get k object) ≫= as_str.

(** [normalize_object] *)
Definition normalize_object (value : Value) : Value :=
  match value with
  | Object _ => value
  | Str s => match from_str s with Ok v => v | Err _ => Null end
  | _ => Null
  end.

(** [parse_message_value] *)
Definition parse_message_value (value : Value) : result AdapterError EventMessage :=
  object ← need "events: non-object message" (as_object value);
  kind ← need "events: missing type" (str_of object "type");
  if bool_decide (kind = txt "ready") then
    client_id ← need "events: ready without clientId" (str_of object "clientId");
    let host_home :=
      host ← map_get (txt "host") object;
      host ← as_object host;
      str_of host "home" in
    Ok (Ready {| client_id := client_id; host_home := host_home |})
  else if bool_decide (kind = txt "event") then
    event ← need "events: event without event name" (str_of object "event");
    Ok (Emit event (default Null (map_get (txt "args") object)))
  else if bool_decide (kind = txt "waterfall") then
    event ← need "events: waterfall without event name" (str_of object "event");
    Ok (Waterfall event (get_str object ["eventId"]) (get_str object ["agentId"])
          (default Null (normalize_object <$> map_get (txt "request") object)))
  else if bool_decide (kind = txt "cancel") then
    Ok (Cancel (get_str object ["eventId"; "event_id"]) (get_str object ["reason"]))
  else Ok (Unknown kind).

(** [parse_message] *)
Definition parse_message (s : text) : result AdapterError EventMessage :=
  value ← map_err (fun error => Protocol (txt "events: invalid json: " ++ error)) (from_str s);
  parse_message_value value.
End WithSerde.

(** [allowlist] *)
Definition event_name (message : EventMessage) : option text :=
  match message with
  | Emit event _ | Waterfall event _ _ _ => Some event
  | _ => None
  end.

Definition allowlist (message : EventMessage) : option AllowedEvent :=
  name ← event_name message;
  match strip_prefix (txt "api-session/") name with
  | Some kind => Some (ApiSession kind)
  | None =>
      if bool_decide (name = txt "approval/request") then Some ApprovalRequest
      else if bool_decide (name = txt "user-questions/request") then Some UserQuestionRequest
      else if bool_decide (name = txt "settings/document-updated") then Some SettingsDocumentUpdated
      else if bool_decide (name = txt "cordis/dynamic-package") then Some CordisDynamicPackage
      else if bool_decide (name = txt "cordis/dynamic-retract") then Some CordisDynamicRetract
      else None
  end.

(** [payload_of] *)
Definition payload_of (message : EventMessage) : Value :=
  match message with
  | Emit _ (Array items) => default Null (head items)
  | Emit _ other => other
  | Waterfall _ _ _ request => request
  | _ => Null
  end.

(** [session_id_of] *)
Definition session_id_of (message : EventMessage) : option text :=
  object ← as_object (payload_of message);
  match get_str object ["sessionId"; "session_id"] with
  | Some id => Some id
  | None =>
      session ← map_get (txt "session") object;
      session ← as_object session;
      str_of session "id"
  end.
End Events.

(** ** Notifications *)
Module Notify.
Import Events.

Inductive NotificationEventKind :=
  TurnCompleted | ApprovalRequired | QuestionRequired | RuntimeChanged | ScheduleResult | ConfigChanged.

Inductive ContentPolicy := TitleOnly | RedactedSummary | ExplicitBody.

Record AdapterNotification := {
  schema_version : N;
  event : NotificationEventKind;
  title : text;
  notification_body : option text;
  content_policy : ContentPolicy;
  dedupe_key : option text
}.

Definition NOTIFICATION_SCHEMA_VERSION : N := 1.
Definition MAX_TITLE_CHARS : nat := 128.
Definition MAX_DEDUPE_KEY_CHARS : nat := 128.
Definition CONFIG_CHANGED_DEDUPE_KEY : text := txt "config-changed".

(** [truncate_chars]: U+2026 marks that something was cut. *)
Definition truncate_chars (s : text) (max : nat) : text :=
  let out := take max s in
  if (length out <? length s)%nat then out ++ [8230%N] else out.

(** [get_str] of [notify.rs] *)
Definition get_str (value : Value) (keys : list string) : option text :=
  first_present keys (fun k => get k value) ≫= as_str.

(** [notification] *)
Definition notification (event : NotificationEventKind) (title : text) (dedupe_key : option text) :
    AdapterNotification :=
  {| schema_version := NOTIFICATION_SCHEMA_VERSION;
     event := event;
     title := truncate_chars title MAX_TITLE_CHARS;
     notification_body := None;
     content_policy := TitleOnly;
     dedupe_key :=
       key ← dedupe_key;
       let key := truncate_chars key MAX_DEDUPE_KEY_CHARS in
       if bool_decide (key = []) then None else Some key |}.

(** The titles, as scalar values: "approval request", with a colon before the
    name of the tool; "question received"; "session ended"; "configuration
    changed", with "plugin updated" or "plugin retracted" after it. *)
Definition approval_title : text := [23457; 25209; 35831; 27714]%N.
Definition approval_title_of (name : text) : text := approval_title ++ [65306]%N ++ name.
Definition question_title : text := [25910; 21040; 25552; 38382]%N.
Definition session_ended_title : text := txt "DSH " ++ [20250; 35805; 24050; 32467; 26463]%N.
Definition config_changed_title : text := [37197; 32622; 24050; 21464; 21270]%N.
Definition package_suffix : text := [65288; 21160; 24577; 25554; 20214; 26356; 26032; 65289]%N.
Definition retract_suffix : text := [65288; 25554; 20214; 24050; 25764; 22238; 65289]%N.

(** [map] *)
Definition map_notification (message : EventMessage) : option AdapterNotification :=
  allowed ← allowlist message;
  let payload := payload_of message in
  match allowed with
  | ApprovalRequest =>
      let title := match get_str payload ["toolName"; "tool_name"] with
                   | Some name => approval_title_of name
                   | None => approval_title
                   end in
      Some (notification ApprovalRequired title None)
  | UserQuestionRequest =>
      let question :=
        questions ← get (txt "questions") payload;
        items ← as_array questions;
        item ← head items;
        get_str item ["question"; "text"; "title"] in
      Some (notification QuestionRequired (default question_title question) None)
  | ApiSession kind =>
      if bool_decide (kind = txt "removed")
      then Some (notification TurnCompleted session_ended_title None) else None
  | SettingsDocumentUpdated =>
      Some (notification ConfigChanged config_changed_title (Some CONFIG_CHANGED_DEDUPE_KEY))
  | CordisDynamicPackage =>
      Some (notification ConfigChanged (config_changed_title ++ package_suffix)
              (Some CONFIG_CHANGED_DEDUPE_KEY))
  | CordisDynamicRetract =>
      Some (notification ConfigChanged (config_changed_title ++ retract_suffix)
              (Some CONFIG_CHANGED_DEDUPE_KEY))
  end.
End Notify.

(** ** JSON-RPC envelopes *)
Module JsonRpc.
Section WithSerde.
Context `{SerdeJson}.

Definition RPC_TYPE : text := txt "client-request".
Definition EVENTS_RESULT_METHOD : text := txt "$events/result".

(** [build_envelope] *)
Definition build_envelope (method : text) (payload : Value) (rpc_id : text) : Value :=
  obj [("type", Str RPC_TYPE); ("rpcId", Str rpc_id); ("method", Str method); ("payload", payload)].

Inductive EventOutcome :=
| Next
| Result (value : Value)
| Rejected (name message : text) (code : option text) (details : option Value).

(** [EventOutcome::to_value] *)
Definition outcome_to_value (o : EventOutcome) : Value :=
  match o with
  | Next => obj [("kind", Str (txt "next"))]
  | Result value => obj [("kind", Str (txt "result")); ("value", value)]
  | Rejected name message code details =>
      let error := obj [("name", Str name); ("message", Str message)] in
      let error := match code with Some c => set_key "code" (Str c) error | None => error end in
      let error := match details with Some d => set_key "details" d error | None => error end in
      obj [("kind", Str (txt "rejected")); ("error", error)]
  end.

(** [build_events_result_payload] *)
Definition build_events_result_payload (client_id event_id : text) (o : EventOutcome) : Value :=
  obj [("clientId", Str client_id); ("eventId", Str event_id); ("outcome", outcome_to_value o)].

(** [parse_response] *)
Definition parse_response (body : text) : result AdapterError Value :=
  value ← map_err (fun error => Protocol (txt "rpc: invalid json: " ++ error)) (from_str body);
  result ← need "rpc: missing result member" (get (txt "result") value);
  match get (txt "ok") result ≫= as_bool with
  | Some true => Ok (default Null (get (txt "value") result))
  | Some false =>
      let code := pointer [txt "error"; txt "code"] result ≫= as_str in
      let message := default (txt "unknown rpc error")
                       (pointer [txt "error"; txt "message"] result ≫= as_str) in
      match code with
      | Some code => Err (Rpc (code ++ txt ": " ++ message))
      | None => Err (Rpc message)
      end
  | None => protocol "rpc: unrecognized result member"
  end.
End WithSerde.
End JsonRpc.
