(* ===== verification/Usage.v ===== *)
(** * Token usage of DSH sessions

    Model of [crates/adapter-dsh/src/usage.rs]: extraction of usage samples from
    session-flow values, their aggregation per session, the snapshot and the
    totals.  Counters are [u64]; the token counters saturate.  The sessions are a
    [HashMap], whose iteration order is unspecified: [totals_of] takes the values
    in some order. *)
From stdpp Require Import base gmap list option strings.
From Stdlib Require Import NArith ZArith Lia Strings.Byte ZifyBool.
From S2P Require Import Prelude Text Json WebSocket Http Adapter Civil.
Import Events.

Definition USAGE_SOURCE : text := txt "dsh".
Definition UNKNOWN_SESSION : text := txt "<unknown>".

Record UsageSample := {
  sample_session_id : option text;
  sample_input : N;
  sample_output : N;
  sample_cache_read : N;
  sample_at : option N
}.

(** ** Extraction *)

(** [descend] *)
Fixpoint descend (value : Value) (path : list string) : option Value :=
  match path with
  | [] => Some value
  | key :: path => next ← get (txt key) value; descend next path
  end.

(** [find_usage] *)
Fixpoint first_path (paths : list (list string)) (value : Value) : option Value :=
  match paths with
  | [] => None
  | path :: paths =>
      match descend value path with
      | Some found => Some found
      | None => first_path paths value
      end
  end.
Definition find_usage (value : Value) : option Value :=
  first_path [["usage"]; ["data"; "usage"]; ["session"; "usage"]; ["payload"; "usage"];
              ["data"; "payload"; "usage"]] value.

Definition first_u64 (value : Value) (keys : list string) : option N :=
  first_present keys (fun k => get k value) ≫= as_u64.
Definition first_string (value : Value) (keys : list string) : option text :=
  first_present keys (fun k => get k value) ≫= as_str.

(** [extract_sample] *)
Definition extract_sample (value : Value) : option UsageSample :=
  usage ← find_usage value;
  input ← first_u64 usage ["inputTokens"; "input_tokens"; "promptTokens"; "prompt_tokens"];
  output ← first_u64 usage ["outputTokens"; "output_tokens"; "completionTokens"; "completion_tokens"];
  let cache_read := default 0%N (first_u64 usage ["cacheReadTokens"; "cache_read_tokens"]) in
  let session_id :=
    match first_string value ["sessionId"; "session_id"] with
    | Some id => Some id
    | None => descend value ["session"; "id"] ≫= as_str
    end in
  Some {| sample_session_id := session_id; sample_input := input; sample_output := output;
          sample_cache_read := cache_read;
          sample_at := first_u64 value ["createdAtUnixMs"; "timestampUnixMs"; "timestampMs"; "ts"] |}.

(** ** Aggregation *)

Record SessionAccum := {
  input_tokens : N;
  output_tokens : N;
  cache_read_tokens : N;
  first_at_unix_ms : option N;
  last_at_unix_ms : option N
}.

(** [SessionAccum::default()] *)
Definition default_accum : SessionAccum :=
  {| input_tokens := 0; output_tokens := 0; cache_read_tokens := 0;
     first_at_unix_ms := None; last_at_unix_ms := None |}.

Record UsageAggregator := {
  sessions : gmap text SessionAccum;
  order : list text;
  usage_events : N;
  skipped_events : N
}.

Definition new_aggregator : UsageAggregator :=
  {| sessions := ∅; order := []; usage_events := 0; skipped_events := 0 |}.

(** [match (a, b) { (Some(a), Some(b)) => Some(f(a, b)), (a, b) => a.or(b) }] *)
Definition merge_at (f : N -> N -> N) (a b : option N) : option N :=
  match a, b with
  | Some a, Some b => Some (f a b)
  | Some a, None => Some a
  | None, b => b
  end.

Definition add_sample (entry : SessionAccum) (s : UsageSample) : SessionAccum :=
  {| input_tokens := u64_saturating_add (input_tokens entry) (sample_input s);
     output_tokens := u64_saturating_add (output_tokens entry) (sample_output s);
     cache_read_tokens := u64_saturating_add (cache_read_tokens entry) (sample_cache_read s);
     first_at_unix_ms := merge_at N.min (first_at_unix_ms entry) (sample_at s);
     last_at_unix_ms := merge_at N.max (last_at_unix_ms entry) (sample_at s) |}.

Definition sample_key (session_id : option text) (s : UsageSample) : text :=
  match sample_session_id s with
  | Some id => id
  | None => default UNKNOWN_SESSION session_id
  end.

(** [UsageAggregator::ingest_value] *)
Definition ingest_value (session_id : option text) (value : Value) (agg : UsageAggregator) :
    UsageAggregator :=
  match extract_sample value with
  | None =>
      {| sessions := sessions agg; order := order agg; usage_events := usage_events agg;
         skipped_events := u64_add (skipped_events agg) 1 |}
  | Some sample =>
      let key := sample_key session_id sample in
      let '(entry, order) :=
        match sessions agg !! key with
        | Some entry => (entry, order agg)
        | None => (default_accum, order agg ++ [key])
        end in
      {| sessions := <[key := add_sample entry sample]> (sessions agg); order := order;
         usage_events := u64_add (usage_events agg) 1; skipped_events := skipped_events agg |}
  end.

(** [UsageAggregator::ingest_message] *)
Definition ingest_message (message : EventMessage) (agg : UsageAggregator) : UsageAggregator :=
  match allowlist message with
  | Some _ => ingest_value (session_id_of message) (payload_of message) agg
  | None => agg
  end.

(** ** Dates *)

(** [usage::civil_from_days] *)
Definition civil_from_days (days : Z) : Z * Z * Z :=
  (let z := days + 719468 in
   let era := z / 146097 in
   let doe := z mod 146097 in
   let yoe := Z.quot (doe - Z.quot doe 1460 + Z.quot doe 36524 - Z.quot doe 146096) 365 in
   let year := yoe + era * 400 in
   let doy := doe - (365 * yoe + Z.quot yoe 4 - Z.quot yoe 100) in
   let mp := Z.quot (5 * doy + 2) 153 in
   let day := doy - Z.quot (153 * mp + 2) 5 + 1 in
   let month := if mp <? 10 then mp + 3 else mp - 9 in
   (if month <=? 2 then year + 1 else year, month, day))%Z.

(** [unix_ms_to_rfc3339] *)
Definition unix_ms_to_rfc3339 (unix_ms : N) : text :=
  let days := (unix_ms / 86400000)%N in
  let rem_ms := (unix_ms mod 86400000)%N in
  let '(year, month, day) :=
    civil_from_days (if (Z.of_N days <=? I64_MAX)%Z then Z.of_N days else 0) in
  map Ascii.N_of_ascii
    (timestamp year month day (Z.of_N (rem_ms / 3600000)) (Z.of_N ((rem_ms / 60000) mod 60))
       (Z.of_N ((rem_ms / 1000) mod 60)) (Z.of_N (rem_ms mod 1000))).

(** ** Snapshot and totals *)

Record UsagePeriod := { period_start : text; period_end : text }.

(** [cost] and [currency] are always [None] in this crate. *)
Record UsageRecord := {
  record_schema_version : N;
  source : text;
  period : UsagePeriod;
  record_input : N;
  record_output : N;
  record_cache_read : option N;
  is_estimate : bool;
  recorded_at_unix_ms : N
}.

Record UsageTotals := { total_input : N; total_output : N; estimate_count : N }.

Definition record_of (now : N) (accum : SessionAccum) : UsageRecord :=
  let start := match first_at_unix_ms accum with
               | Some t => t
               | None => default now (last_at_unix_ms accum)
               end in
  let finish := default start (last_at_unix_ms accum) in
  {| record_schema_version := 1; source := USAGE_SOURCE;
     period := {| period_start := unix_ms_to_rfc3339 start;
                  period_end := unix_ms_to_rfc3339 finish |};
     record_input := input_tokens accum; record_output := output_tokens accum;
     record_cache_read := if (0 <? cache_read_tokens accum)%N then Some (cache_read_tokens accum)
                          else None;
     is_estimate := true; recorded_at_unix_ms := now |}.

(** [UsageAggregator::snapshot] *)
Definition snapshot (now : N) (agg : UsageAggregator) : list UsageRecord :=
  omap (fun id => record_of now <$> sessions agg !! id) (order agg).

(** [UsageAggregator::totals], over the values in the order the map yields them. *)
Definition totals_of (values : list SessionAccum) : UsageTotals :=
  let '(i, o) := foldl (fun '(i, o) a => (u64_saturating_add i (input_tokens a),
                                          u64_saturating_add o (output_tokens a))) (0%N, 0%N) values in
  {| total_input := i; total_output := o; estimate_count := N.of_nat (length values) |}.

Definition totals (agg : UsageAggregator) : UsageTotals :=
  totals_of (snd <$> map_to_list (sessions agg)).

Definition session_count (agg : UsageAggregator) : nat := size (sessions agg).

(** ** Lemmas *)

Definition sumN (l : list N) : N := foldr N.add 0%N l.

#[export] Instance sumN_proper : Proper ((≡ₚ) ==> (=)) sumN.
Proof. unfold sumN. intros l1 l2 HP. induction HP; cbn in *; lia. Qed.

Lemma sumN_cons n l : sumN (n :: l) = (n + sumN l)%N.
Proof. done. Qed.

Lemma sumN_app l1 l2 : sumN (l1 ++ l2) = (sumN l1 + sumN l2)%N.
Proof. induction l1 as [|n l IH]; [done |]. cbn [app]. rewrite !sumN_cons, IH. lia. Qed.

(** Saturating sums in any order are the capped sum. *)
Lemma totals_of_sum values :
  totals_of values =
  {| total_input := N.min (sumN (input_tokens <$> values)) U64_MAX;
     total_output := N.min (sumN (output_tokens <$> values)) U64_MAX;
     estimate_count := N.of_nat (length values) |}.
Proof.
  unfold totals_of.
  assert (Hfold : forall i o, (i <= U64_MAX)%N -> (o <= U64_MAX)%N ->
    foldl (fun '(i, o) a => (u64_saturating_add i (input_tokens a),
                             u64_saturating_add o (output_tokens a))) (i, o) values
    = (N.min (i + sumN (input_tokens <$> values)) U64_MAX,
       N.min (o + sumN (output_tokens <$> values)) U64_MAX)).
  { induction values as [|a values IH]; intros i o Hi Ho; cbn [foldl].
    - rewrite !fmap_nil. f_equal; change (sumN []) with 0%N; lia.
    - rewrite IH by (unfold u64_saturating_add; lia). unfold u64_saturating_add.
      rewrite !fmap_cons, !sumN_cons. f_equal; lia. }
  rewrite Hfold by (unfold U64_MAX; lia). by rewrite !N.add_0_l.
Qed.

(** The sum of a counter over all sessions. *)
Definition weight (f : SessionAccum -> N) (m : gmap text SessionAccum) : N :=
  sumN (f <$> (snd <$> map_to_list m)).

Lemma weight_insert f m k e' :
  f default_accum = 0%N ->
  (weight f (<[k := e']> m) + f (default default_accum (m !! k)) = weight f m + f e')%N.
Proof.
  intros H0. unfold weight. destruct (m !! k) as [e|] eqn:Hk; cbn [default].
  - rewrite <- insert_delete_eq, map_to_list_insert by apply lookup_delete_eq.
    rewrite <- (map_to_list_delete m k e Hk), !fmap_cons, !sumN_cons. cbn [snd id]. lia.
  - rewrite map_to_list_insert, !fmap_cons, sumN_cons, H0 by done. cbn [snd id]. lia.
Qed.

Lemma weight_elem (f : SessionAccum -> N) (m : gmap text SessionAccum) k e :
  m !! k = Some e -> (f e <= weight f m)%N.
Proof.
  intros Hk. unfold weight. rewrite <- (map_to_list_delete m k e Hk), !fmap_cons, !sumN_cons. cbn [snd]. lia.
Qed.

(** Ingesting a sample adds it to the capped sum of a saturating counter. *)
Lemma weight_add_sample (f : SessionAccum -> N) (g : UsageSample -> N) m k s :
  f default_accum = 0%N ->
  (forall e, f (add_sample e s) = u64_saturating_add (f e) (g s)) ->
  N.min (weight f (<[k := add_sample (default default_accum (m !! k)) s]> m)) U64_MAX
  = N.min (weight f m + g s) U64_MAX.
Proof.
  intros H0 Hadd. pose proof (weight_insert f m k (add_sample (default default_accum (m !! k)) s) H0) as Hw.
  rewrite Hadd in Hw. unfold u64_saturating_add in Hw.
  assert (Hle : (f (default default_accum (m !! k)) <= weight f m)%N).
  { destruct (m !! k) as [e|] eqn:Hk; cbn; [by eapply weight_elem | lia]. }
  assert (Hle' : (f (add_sample (default default_accum (m !! k)) s)
                  <= weight f (<[k := add_sample (default default_accum (m !! k)) s]> m))%N)
    by (eapply weight_elem, lookup_insert_eq).
  rewrite Hadd in Hle'. unfold u64_saturating_add in Hle'. lia.
Qed.

(** ** Invariant *)

(** Every session is listed once, in the order of its first sample. *)
Definition listed (agg : UsageAggregator) : Prop :=
  NoDup (order agg) /\ forall k, k ∈ order agg <-> is_Some (sessions agg !! k).

Lemma ingest_value_listed sid v agg : listed agg -> listed (ingest_value sid v agg).
Proof.
  intros [Hnd Hin]. unfold ingest_value. destruct (extract_sample v) as [s|]; [| done].
  set (key := sample_key sid s). unfold listed.
  destruct (sessions agg !! key) as [e|] eqn:Hk; cbn.
  - split; [done |]. intros k. rewrite Hin. destruct (decide (k = key)) as [-> | Hne].
    + rewrite lookup_insert_eq, Hk. by split; eauto.
    + by rewrite lookup_insert_ne by congruence.
  - split.
    + apply NoDup_app. split; [done |]. split; [| apply NoDup_singleton].
      intros x Hx%Hin. rewrite list_elem_of_singleton. intros ->. rewrite Hk in Hx. by destruct Hx.
    + intros k. rewrite elem_of_app, Hin, list_elem_of_singleton.
      destruct (decide (k = key)) as [-> | Hne].
      * rewrite lookup_insert_eq. by split; eauto.
      * rewrite lookup_insert_ne by congruence. naive_solver.
Qed.

Lemma snapshot_perm now agg :
  listed agg -> snapshot now agg ≡ₚ (record_of now <$> (snd <$> map_to_list (sessions agg))).
Proof.
  intros [Hnd Hin]. unfold snapshot. set (m := sessions agg) in *.
  assert (HP : order agg ≡ₚ (map_to_list m).*1).
  { apply NoDup_Permutation; [done | apply NoDup_fst_map_to_list |]. intros k. rewrite Hin.
    rewrite list_elem_of_fmap. split.
    - intros [e He]. exists (k, e). split; [done |]. by apply elem_of_map_to_list.
    - intros ([k' e] & -> & He%elem_of_map_to_list). by exists e. }
  rewrite HP. clear HP.
  assert (Hall : forall l : list (text * SessionAccum), (forall k e, (k, e) ∈ l -> m !! k = Some e) ->
            omap (fun id => record_of now <$> m !! id) l.*1 = record_of now <$> l.*2).
  { induction l as [|[k e] l IH]; intros Hl; [done |]. cbn. rewrite (Hl k e) by left. cbn.
    f_equal. apply IH. intros k' e' H'. apply Hl. by right. }
  rewrite Hall; [done |]. intros k e. by rewrite elem_of_map_to_list.
Qed.

(** ** Conservation *)

(** Ingesting a sequence of values, each with the session of its flow. *)
Definition ingest_all (l : list (option text * Value)) : UsageAggregator :=
  foldl (fun agg '(sid, v) => ingest_value sid v agg) new_aggregator l.

(** The samples a sequence of values holds. *)
Definition samples (l : list (option text * Value)) : list UsageSample :=
  omap (fun '(_, v) => extract_sample v) l.

Lemma ingest_all_snoc l sid v : ingest_all (l ++ [(sid, v)]) = ingest_value sid v (ingest_all l).
Proof. unfold ingest_all. by rewrite foldl_app. Qed.

Lemma ingest_value_sessions sid v agg :
  sessions (ingest_value sid v agg) =
  match extract_sample v with
  | None => sessions agg
  | Some s => let key := sample_key sid s in
              <[key := add_sample (default default_accum (sessions agg !! key)) s]> (sessions agg)
  end.
Proof.
  unfold ingest_value. destruct (extract_sample v) as [s|]; [| done]. cbn zeta.
  by destruct (sessions agg !! sample_key sid s).
Qed.

Lemma ingest_all_listed l : listed (ingest_all l).
Proof.
  induction l as [|[sid v] l IH] using rev_ind.
  - split; [constructor |]. intros k. cbn. rewrite lookup_empty, elem_of_nil.
    split; [done | by intros []].
  - rewrite ingest_all_snoc. by apply ingest_value_listed.
Qed.

Lemma ingest_all_weight (f : SessionAccum -> N) (g : UsageSample -> N) l :
  f default_accum = 0%N ->
  (forall e s, f (add_sample e s) = u64_saturating_add (f e) (g s)) ->
  N.min (weight f (sessions (ingest_all l))) U64_MAX = N.min (sumN (g <$> samples l)) U64_MAX.
Proof.
  intros H0 Hadd. induction l as [|[sid v] l IH] using rev_ind; [done |].
  rewrite ingest_all_snoc, ingest_value_sessions. unfold samples. rewrite omap_app. fold (samples l).
  cbn [omap list_omap]. destruct (extract_sample v) as [s|]; cbn zeta.
  - rewrite (weight_add_sample f g) by auto. rewrite fmap_app, sumN_app. cbn. lia.
  - by rewrite app_nil_r.
Qed.

(** Usage accounting loses nothing: after any sequence of session-flow
    values, the totals, whatever order the map of sessions is walked in, are the
    sums of the input and output tokens of all extracted samples, capped at the
    largest [u64]; the snapshot has one record per session, and its tokens sum to
    the same totals. *)
Theorem usage_conserved l now values :
  values ≡ₚ (snd <$> map_to_list (sessions (ingest_all l))) ->
  let agg := ingest_all l in
  total_input (totals_of values) = N.min (sumN (sample_input <$> samples l)) U64_MAX /\
  total_output (totals_of values) = N.min (sumN (sample_output <$> samples l)) U64_MAX /\
  totals_of values = totals agg /\
  length (snapshot now agg) = session_count agg /\
  N.min (sumN (record_input <$> snapshot now agg)) U64_MAX = total_input (totals agg) /\
  N.min (sumN (record_output <$> snapshot now agg)) U64_MAX = total_output (totals agg).
Proof.
  intros HP agg.
  pose proof (snapshot_perm now agg (ingest_all_listed l)) as Hs.
  assert (Hin : sumN (record_input <$> snapshot now agg) = weight input_tokens (sessions agg)).
  { rewrite Hs, <- list_fmap_compose. done. }
  assert (Hout : sumN (record_output <$> snapshot now agg) = weight output_tokens (sessions agg)).
  { rewrite Hs, <- list_fmap_compose. done. }
  assert (Htot : totals_of values = totals agg).
  { unfold totals. rewrite !totals_of_sum. by rewrite HP. }
  rewrite Htot, Hin, Hout. unfold totals. rewrite totals_of_sum. cbn [total_input total_output].
  fold (weight input_tokens (sessions agg)) (weight output_tokens (sessions agg)).
  pose proof (ingest_all_weight input_tokens sample_input l eq_refl (fun _ _ => eq_refl)) as Wi.
  pose proof (ingest_all_weight output_tokens sample_output l eq_refl (fun _ _ => eq_refl)) as Wo.
  do 3 (split; [done |]). split; [| done].
  rewrite Hs, !length_fmap. apply length_map_to_list.
Qed.

Definition usage_value (session : string) (i o : N) : Value :=
  obj [("sessionId", Str (txt session));
       ("usage", obj [("inputTokens", Num (PosInt i)); ("outputTokens", Num (PosInt o))])].

Lemma usage_conserved_witness :
  let l := [(None, usage_value "a" 3 5); (None, Null); (None, usage_value "b" 4 6);
            (None, usage_value "a" 10 20)] in
  total_input (totals (ingest_all l)) = 17%N /\ total_output (totals (ingest_all l)) = 31%N.
Proof.
  intros l. pose proof (usage_conserved l 0 _ (reflexivity _)) as (Hi & Ho & Ht & _).
  rewrite <- Ht. split; [rewrite Hi | rewrite Ho]; vm_compute; reflexivity.
Defined.

(** The third copy of the calendar prints the same timestamps as the envelope. *)
Lemma unix_ms_to_rfc3339_eq ms :
  (ms <= U64_MAX)%N ->
  unix_ms_to_rfc3339 ms = map Ascii.N_of_ascii (now_timestamp_like (Z.of_N ms)).
Proof.
  intros Hms. unfold unix_ms_to_rfc3339, now_timestamp_like.
  change (civil_from_days ?d) with (civil_from_days_euclid d) at 1.
  rewrite civil_from_days_euclid_eq. rewrite Z.max_r by lia.
  assert (Hle : (Z.of_N (ms / 86400000) <= I64_MAX)%Z).
  { unfold I64_MAX, U64_MAX in *. zify. Z.to_euclidean_division_equations. lia. }
  rewrite (proj2 (Z.leb_le _ _) Hle).
  replace (Z.of_N (ms / 86400000)) with (Z.of_N ms / 1000 / 86400)%Z
    by (rewrite Z.div_div by lia; zify; Z.to_euclidean_division_equations; lia).
  destruct (Civil.civil_from_days _) as [[y m] d]. f_equal. clear.
  f_equal; zify; Z.to_euclidean_division_equations; lia.
Qed.
