(* ===== verification/AdapterClient.v ===== *)
(** * The DSH client: transports, the multiplexer and the event pipeline

    Model of the stateful parts of [crates/adapter-dsh/src]: the receive loop of
    [TungsteniteTransport] in [ws.rs], [TcpHttpTransport] in [http.rs], [MuxClient]
    in [mux.rs], [ApiClient] in [jsonrpc.rs], and [DshClient], [EventStream],
    [SessionFlow] and [AdapterPipeline] in [client.rs].  The traits
    [HttpTransport] and [WsTransport] are classes; sockets and the WebSocket
    library are interfaces.  A loop that waits for the peer takes fuel and
    returns [None] when it runs out, so that a statement about its result is also
    one about its termination. *)
From stdpp Require Import base gmap list option strings pretty.
From Stdlib Require Import NArith ZArith Lia Strings.Byte.
From S2P Require Import Prelude Text Json WebSocket Http Adapter Usage.
Import Auth Mux Events Notify JsonRpc.

(** ** Transports *)

(** [trait WsTransport]; [close] included. *)
Class WsTransport (T : Type) := {
  send_text : text -> M T AdapterError unit;
  recv_text : M T AdapterError (option text);
  close : M T AdapterError unit
}.

(** [trait HttpTransport] *)
Class HttpTransport (T : Type) := roundtrip : HttpRequest -> M T AdapterError HttpResponse.

(** *** The receive loop over a WebSocket library *)
Module Tungstenite.

(** [tungstenite::Message] *)
Inductive Message :=
| TextMsg (s : text)
| BinaryMsg (data : list byte)
| PingMsg (data : list byte)
| PongMsg (data : list byte)
| CloseMsg
| FrameMsg.

(** [tungstenite::WebSocket]: errors are their text. *)
Class WebSocket (S : Type) := {
  socket_read : M S text Message;
  socket_send : Message -> M S text unit;
  socket_close : M S text unit
}.

Section Loop.
Context {S : Type} `{WebSocket S}.

Definition transport_error (what : string) (error : text) : AdapterError :=
  Transport (txt what ++ txt ": " ++ error).

(** [send_text] *)
Definition ws_send_text (s : text) : M S AdapterError unit :=
  map_err_m (transport_error "ws send") (socket_send (TextMsg s)).

(** The loop of [recv_text]. *)
Fixpoint ws_recv_text (fuel : nat) (s : S) : option (result AdapterError (option text) * S) :=
  match fuel with
  | O => None
  | Datatypes.S fuel =>
      match socket_read s with
      | (Err e, s) => Some (Err (transport_error "ws read" e), s)
      | (Ok (TextMsg t), s) => Some (Ok (Some t), s)
      | (Ok (BinaryMsg _), s) | (Ok (PongMsg _), s) | (Ok FrameMsg, s) => ws_recv_text fuel s
      | (Ok (PingMsg payload), s) =>
          match socket_send (PongMsg payload) s with
          | (Err e, s) => Some (Err (transport_error "ws pong" e), s)
          | (Ok _, s) => ws_recv_text fuel s
          end
      | (Ok CloseMsg, s) => let '(_, s) := socket_close s in Some (Ok None, s)
      end
  end.

(** [close] *)
Definition ws_close : M S AdapterError unit :=
  map_err_m (transport_error "ws close") socket_close.
End Loop.
End Tungstenite.

(** *** HTTP over TCP *)
Module Tcp.

(** A connection for one exchange: connect and set the timeouts, write the
    request, read to the end. *)
Class TcpStream := {
  connect : result text unit;
  set_timeouts : result text unit;
  write_all : list byte -> result text unit;
  read_to_end : result text (list byte)
}.

(** [TcpHttpTransport::roundtrip_once]: the [Host] header is added unless the
    caller gave one. *)
Definition with_host (addr : text) (r : HttpRequest) : HttpRequest :=
  if existsb (fun h => eq_ignore_ascii_case h.1 (txt "host")) (request_headers r) then r
  else with_header r (txt "Host") addr.

Definition roundtrip_once `{TcpStream} (addr : text) (request : HttpRequest) : outcome HttpResponse :=
  let step {A} (what : string) (r : result text A) (k : A -> outcome HttpResponse) :=
    match r with
    | Ok a => k a
    | Err e => Returns (Err (Transport (txt what ++ txt ": " ++ e)))
    end in
  step "tcp connect"%string connect (fun _ =>
  step "tcp timeout"%string set_timeouts (fun _ =>
  step "tcp write"%string (write_all (request_to_wire (with_host addr request))) (fun _ =>
  step "tcp read"%string read_to_end (fun bytes => response_from_wire bytes)))).
End Tcp.

(** ** The multiplexer client *)

Record MuxClient (T : Type) := { mux_transport : T; next_stream_id : N }.
Arguments mux_transport {T} m.
Arguments next_stream_id {T} m.

Section Mux.
Context {T : Type} `{WsTransport T} `{SerdeJson} `{DebugText}.

(** [MuxClient::new] *)
Definition new_mux (t : T) : MuxClient T := {| mux_transport := t; next_stream_id := 0 |}.

Definition set_mux_transport (m : MuxClient T) (t : T) : MuxClient T :=
  {| mux_transport := t; next_stream_id := next_stream_id m |}.

Definition on_mux_transport {A} (c : M T AdapterError A) : M (MuxClient T) AdapterError A := fun m =>
  let '(r, t) := c (mux_transport m) in (r, set_mux_transport m t).

Definition mux_error (what : string) (error : AdapterError) : AdapterError :=
  Transport (txt what ++ txt ": " ++ adapter_error_display error).

Definition stream_name (n : N) : text := txt "adapter-dsh-" ++ txt (pretty n).

Definition open_frame (stream_id endpoint : text) (payload : Value) : Value :=
  obj [("type", Str (txt "open")); ("streamId", Str stream_id); ("endpoint", Str endpoint);
       ("payload", payload)].
Definition cancel_frame (stream_id : text) : Value :=
  obj [("type", Str (txt "cancel")); ("streamId", Str stream_id)].

(** [MuxClient::open] *)
Definition mux_open (endpoint : text) (payload : Value) : M (MuxClient T) AdapterError text :=
  modify (fun m => {| mux_transport := mux_transport m;
                      next_stream_id := u64_add (next_stream_id m) 1 |});;
  stream_id ← gets (fun m => stream_name (next_stream_id m));
  map_err_m (mux_error "mux open send")
    (on_mux_transport (send_text (to_string (open_frame stream_id endpoint payload))));;
  mret stream_id.

(** [MuxClient::cancel] *)
Definition mux_cancel (stream_id : text) : M (MuxClient T) AdapterError unit :=
  map_err_m (mux_error "mux cancel send")
    (on_mux_transport (send_text (to_string (cancel_frame stream_id)))).

(** [MuxClient::next_frame] *)
Definition next_frame : M (MuxClient T) AdapterError (option MuxFrame) :=
  received ← on_mux_transport recv_text;
  match received with
  | None => mret None
  | Some s => frame ← lift (parse_mux_frame s); mret (Some frame)
  end.
End Mux.

(** ** The event stream *)

Record EventStream (T : Type) := {
  mux : MuxClient T;
  stream_id : text;
  parsed : N;
  skipped : N;
  foreign_frames : N;
  ready : option ClientIdentity
}.
Arguments mux {T} e.
Arguments stream_id {T} e.
Arguments parsed {T} e.
Arguments skipped {T} e.
Arguments foreign_frames {T} e.
Arguments ready {T} e.

Section Stream.
Context {T : Type} `{WsTransport T} `{SerdeJson} `{DebugText}.

Definition set_mux (e : EventStream T) (m : MuxClient T) : EventStream T :=
  {| mux := m; stream_id := stream_id e; parsed := parsed e; skipped := skipped e;
     foreign_frames := foreign_frames e; ready := ready e |}.

Definition args_object (entries : list (string * Value)) : Value := obj [("args", obj entries)].

(** [EventStream::open]; the connection is dropped when it fails. *)
Definition open_events (t : T) : result AdapterError (EventStream T) * MuxClient T :=
  match mux_open EVENTS_ENDPOINT (args_object []) (new_mux t) with
  | (Err e, m) => (Err e, m)
  | (Ok id, m) =>
      (Ok {| mux := m; stream_id := id; parsed := 0; skipped := 0; foreign_frames := 0;
             ready := None |}, m)
  end.

Definition stream_error (what : string) (code message : option text) : AdapterError :=
  Rpc (txt what ++ txt ": " ++ default (txt "?") code ++ txt ": " ++ default (txt "?") message).

(** The arm of [next_event] for an item of the stream. *)
Definition take_item (value : Value) (e : EventStream T) :
    result AdapterError (option EventMessage) * EventStream T :=
  match parse_message_value value with
  | Err error => (Err error, e)
  | Ok message =>
      (Ok (Some message),
       {| mux := mux e; stream_id := stream_id e; parsed := u64_add (parsed e) 1;
          skipped := if allowlist message is None then u64_add (skipped e) 1 else skipped e;
          foreign_frames := foreign_frames e;
          ready := if message is Ready who then Some who else ready e |})
  end.

Definition count_foreign (e : EventStream T) : EventStream T :=
  {| mux := mux e; stream_id := stream_id e; parsed := parsed e; skipped := skipped e;
     foreign_frames := u64_add (foreign_frames e) 1; ready := ready e |}.

(** The loop of [EventStream::next_event]. *)
Fixpoint next_event (fuel : nat) (e : EventStream T) :
    option (result AdapterError (option EventMessage) * EventStream T) :=
  match fuel with
  | O => None
  | S fuel =>
      let '(r, m) := next_frame (mux e) in
      let e := set_mux e m in
      match r with
      | Err error => Some (Err error, e)
      | Ok None => Some (Ok None, e)
      | Ok (Some frame) =>
          match frame with
          | End id => if bool_decide (id = stream_id e) then Some (Ok None, e)
                      else next_event fuel (count_foreign e)
          | Error id code message _ =>
              if bool_decide (id = stream_id e)
              then Some (Err (stream_error "$events stream error" code message), e)
              else next_event fuel (count_foreign e)
          | Item id value => if bool_decide (id = stream_id e) then Some (take_item value e)
                             else next_event fuel (count_foreign e)
          end
      end
  end.

(** [EventStream::cancel] *)
Definition cancel_events : M (EventStream T) AdapterError unit := fun e =>
  let '(r, m) := mux_cancel (stream_id e) (mux e) in (r, set_mux e m).

(** [EventStream::drain_events]: each call may use all of the fuel. *)
Fixpoint drain_events (fuel : nat) (e : EventStream T) :
    option (result AdapterError (list EventMessage) * EventStream T) :=
  match fuel with
  | O => None
  | S fuel' =>
      match next_event fuel e with
      | None => None
      | Some (Err error, e) => Some (Err error, e)
      | Some (Ok None, e) => Some (Ok [], e)
      | Some (Ok (Some event), e) =>
          match drain_events fuel' e with
          | Some (Ok events, e) => Some (Ok (event :: events), e)
          | other => other
          end
      end
  end.
End Stream.

(** ** Session flows *)

Definition SESSION_FOLLOW_ENDPOINT : text := txt "session/follow".

Record SessionFlow (T : Type) := { flow_mux : MuxClient T; flow_stream_id : text }.
Arguments flow_mux {T} s.
Arguments flow_stream_id {T} s.

Section Flow.
Context {T : Type} `{WsTransport T} `{SerdeJson} `{DebugText}.

Definition set_flow_mux (f : SessionFlow T) (m : MuxClient T) : SessionFlow T :=
  {| flow_mux := m; flow_stream_id := flow_stream_id f |}.

(** [SessionFlow::open] *)
Definition open_flow (t : T) (session_id : text) : result AdapterError (SessionFlow T) * MuxClient T :=
  match mux_open SESSION_FOLLOW_ENDPOINT (args_object [("sessionId", Str session_id)]) (new_mux t) with
  | (Err e, m) => (Err e, m)
  | (Ok id, m) => (Ok {| flow_mux := m; flow_stream_id := id |}, m)
  end.

(** The loop of [SessionFlow::next_event]. *)
Fixpoint next_flow_value (fuel : nat) (f : SessionFlow T) :
    option (result AdapterError (option Value) * SessionFlow T) :=
  match fuel with
  | O => None
  | S fuel =>
      let '(r, m) := next_frame (flow_mux f) in
      let f := set_flow_mux f m in
      match r with
      | Err error => Some (Err error, f)
      | Ok None => Some (Ok None, f)
      | Ok (Some frame) =>
          match frame with
          | End id => if bool_decide (id = flow_stream_id f) then Some (Ok None, f)
                      else next_flow_value fuel f
          | Error id code message _ =>
              if bool_decide (id = flow_stream_id f)
              then Some (Err (stream_error "session flow error" code message), f)
              else next_flow_value fuel f
          | Item id value => if bool_decide (id = flow_stream_id f) then Some (Ok (Some value), f)
                             else next_flow_value fuel f
          end
      end
  end.

(** [SessionFlow::cancel] *)
Definition cancel_flow : M (SessionFlow T) AdapterError unit := fun f =>
  let '(r, m) := mux_cancel (flow_stream_id f) (flow_mux f) in (r, set_flow_mux f m).
End Flow.

(** ** JSON-RPC over HTTP *)

Record ApiClient (H : Type) := {
  api_transport : H;
  api_base_path : text;
  api_cookie : text;
  next_rpc_id : N
}.
Arguments api_transport {H} a.
Arguments api_base_path {H} a.
Arguments api_cookie {H} a.
Arguments next_rpc_id {H} a.

Section Api.
Context {H : Type} `{HttpTransport H} `{SerdeJson}.

(** [ApiClient::new] *)
Definition new_api (t : H) (base_path cookie : text) : ApiClient H :=
  {| api_transport := t; api_base_path := base_path; api_cookie := cookie; next_rpc_id := 0 |}.

(** [HttpRequest::post_json] *)
Definition post_json (p : text) (body : Value) : HttpRequest :=
  {| method := txt "POST"; path := p;
     request_headers := [(txt "Content-Type", txt "application/json")];
     request_body := Some (default [] (to_vec body)) |}.

Definition call_envelope (method : text) (args : Value) (id : N) : Value :=
  build_envelope method (obj [("args", args)]) (txt "adapter-dsh-" ++ txt (pretty id)).

Definition call_request (a : ApiClient H) (method : text) (args : Value) : HttpRequest :=
  with_header (post_json (api_base_path a ++ txt "/api") (call_envelope method args (next_rpc_id a)))
    (txt "Cookie") (api_cookie a).

(** What [ApiClient::call] makes of a response. *)
Definition call_result (response : HttpResponse) : result AdapterError Value :=
  if negb ((200 <=? status response) && (status response <? 300))%N
  then Err (Http (status response) (from_utf8_lossy (body response)))
  else parse_response (from_utf8_lossy (body response)).

(** [ApiClient::call] *)
Definition api_call (method : text) (args : Value) : M (ApiClient H) AdapterError Value := fun a =>
  let a := {| api_transport := api_transport a; api_base_path := api_base_path a;
              api_cookie := api_cookie a; next_rpc_id := u64_add (next_rpc_id a) 1 |} in
  let '(r, t) := roundtrip (call_request a method args) (api_transport a) in
  let a := {| api_transport := t; api_base_path := api_base_path a;
              api_cookie := api_cookie a; next_rpc_id := next_rpc_id a |} in
  match r with
  | Err e => (Err e, a)
  | Ok response => (call_result response, a)
  end.

(** [ApiClient::submit_events_result] *)
Definition api_submit_events_result (client_id event_id : text) (o : EventOutcome) :
    M (ApiClient H) AdapterError Value :=
  api_call EVENTS_RESULT_METHOD (build_events_result_payload client_id event_id o).
End Api.

(** ** The client *)

Definition REMOTE_MUX_PATH : text := txt "/api/remote.mux".

(** [DshClientConfig]; the timeout is passed on to the transports. *)
Record DshClientConfig := { base_url : text; launch_token : text; timeout_ms : N }.

Definition new_config (base_url launch_token : text) : DshClientConfig :=
  {| base_url := base_url; launch_token := launch_token; timeout_ms := 10000 |}.

Record BaseUrl := { host_port : text; path_prefix : text }.

(** [parse_base_url] *)
Definition parse_base_url (url : text) : result AdapterError BaseUrl :=
  match strip_prefix (txt "http://") url with
  | None => auth "base_url must use http:// (loopback)"
  | Some rest =>
      let '(authority, p) := match split_once 47 rest with
                             | Some (authority, p) => (authority, 47%N :: p)
                             | None => (rest, [])
                             end in
      if bool_decide (authority = []) then auth "base_url without host"
      else Ok {| host_port := authority; path_prefix := trim_end_matches 47 p |}
  end.

Record DshClient (H : Type) := { config : DshClientConfig; http : H; stored_cookie : option text }.
Arguments config {H} d.
Arguments http {H} d.
Arguments stored_cookie {H} d.

Section Client.
Context {H : Type} `{HttpTransport H} `{SerdeJson} `{DebugText}.

(** [DshClient::new] *)
Definition new_client (c : DshClientConfig) (t : H) : DshClient H :=
  {| config := c; http := t; stored_cookie := None |}.

Definition set_http (d : DshClient H) (t : H) : DshClient H :=
  {| config := config d; http := t; stored_cookie := stored_cookie d |}.

(** [DshClient::authenticate] *)
Definition authenticate : M (DshClient H) AdapterError AuthResult := fun d =>
  match build_token_request (base_url (config d)) (launch_token (config d)) with
  | Err e => (Err e, d)
  | Ok request =>
      let '(r, t) := roundtrip request (http d) in
      let d := set_http d t in
      match r with
      | Err e => (Err e, d)
      | Ok response =>
          match parse_auth_response response with
          | Err e => (Err e, d)
          | Ok res => (Ok res, {| config := config d; http := http d;
                                  stored_cookie := Some (cookie res) |})
          end
      end
  end.

(** [DshClient::ws_url] *)
Definition ws_url (d : DshClient H) : result AdapterError text :=
  base ← parse_base_url (base_url (config d));
  Ok (txt "ws://" ++ host_port base ++ path_prefix base ++ REMOTE_MUX_PATH).

(** [DshClient::api_path] *)
Definition api_path (d : DshClient H) : result AdapterError text :=
  base ← parse_base_url (base_url (config d));
  Ok (path_prefix base ++ txt "/api").

(** [DshClient::api_client]: a view over the client's own transport. *)
Definition api_client (d : DshClient H) : result AdapterError (ApiClient H) :=
  base ← parse_base_url (base_url (config d));
  Ok (new_api (http d) (path_prefix base) (default [] (stored_cookie d))).

Definition on_api {A} (c : M (ApiClient H) AdapterError A) : M (DshClient H) AdapterError A := fun d =>
  match api_client d with
  | Err e => (Err e, d)
  | Ok a => let '(r, a) := c a in (r, set_http d (api_transport a))
  end.

(** [DshClient::call_api] *)
Definition call_api (method : text) (args : Value) : M (DshClient H) AdapterError Value :=
  on_api (api_call method args).

(** [DshClient::submit_events_result] *)
Definition submit_events_result (client_id event_id : text) (o : EventOutcome) :
    M (DshClient H) AdapterError Value :=
  on_api (api_submit_events_result client_id event_id o).
End Client.

(** ** The notification pipeline *)

Record AdapterPipeline (T : Type) := { pipeline_stream : EventStream T; usage : UsageAggregator }.
Arguments pipeline_stream {T} a.
Arguments usage {T} a.

Section Pipeline.
Context {T : Type} `{WsTransport T} `{SerdeJson} `{DebugText}.

(** [AdapterPipeline::new] *)
Definition new_pipeline (e : EventStream T) : AdapterPipeline T :=
  {| pipeline_stream := e; usage := new_aggregator |}.

(** The loop of [AdapterPipeline::next_notification]. *)
Fixpoint next_notification (fuel : nat) (p : AdapterPipeline T) :
    option (result AdapterError (option AdapterNotification) * AdapterPipeline T) :=
  match fuel with
  | O => None
  | S fuel' =>
      match next_event fuel (pipeline_stream p) with
      | None => None
      | Some (Err error, e) => Some (Err error, {| pipeline_stream := e; usage := usage p |})
      | Some (Ok None, e) => Some (Ok None, {| pipeline_stream := e; usage := usage p |})
      | Some (Ok (Some message), e) =>
          let p := {| pipeline_stream := e; usage := ingest_message message (usage p) |} in
          match map_notification message with
          | Some n => Some (Ok (Some n), p)
          | None => next_notification fuel' p
          end
      end
  end.

(** [AdapterPipeline::snapshot_usage] *)
Definition snapshot_usage (now : N) (p : AdapterPipeline T) : list UsageRecord * UsageTotals :=
  (snapshot now (usage p), totals (usage p)).
End Pipeline.
