(* ===== verification/AdapterFacts.v ===== *)
(** * Theorems about the DSH adapter

    The event stream as a refinement of what the frames on the wire say, the
    notifications and usage the pipeline draws from it, the token exchange and
    the use of its cookie. *)
From stdpp Require Import base gmap list option strings pretty.
From Stdlib Require Import NArith ZArith Lia Strings.Byte ZifyBool.
From S2P Require Import Prelude Text Json WebSocket Http Adapter Usage AdapterClient.
Import Auth Mux Events Notify JsonRpc.

(** ** The event stream *)
Section Stream.
Context {T : Type} `{WsTransport T} `{SerdeJson} `{DebugText}.

(** The transport will deliver these frames and then report that the peer
    closed the connection. *)
Inductive pending : T -> list MuxFrame -> Prop :=
| pending_closed t t' : recv_text t = (Ok None, t') -> pending t []
| pending_frame t t' s f fs :
    recv_text t = (Ok (Some s), t') -> parse_mux_frame s = Ok f -> pending t' fs ->
    pending t (f :: fs).

Definition frame_stream (f : MuxFrame) : text :=
  match f with Item id _ | Error id _ _ _ | End id => id end.

(** What a stream means: its own items, decoded in order, up to its end, its
    error or the close of the connection; frames of other streams are ignored. *)
Fixpoint events_of (sid : text) (fs : list MuxFrame) : result AdapterError (list EventMessage) :=
  match fs with
  | [] => Ok []
  | f :: fs =>
      if bool_decide (frame_stream f = sid) then
        match f with
        | Item _ v => m ← parse_message_value v; ms ← events_of sid fs; Ok (m :: ms)
        | Error _ code message _ => Err (stream_error "$events stream error" code message)
        | End _ => Ok []
        end
      else events_of sid fs
  end.

(** The frames from the first of a stream on, and how many are skipped. *)
Fixpoint skip_foreign (sid : text) (fs : list MuxFrame) : nat * list MuxFrame :=
  match fs with
  | [] => (O, [])
  | f :: fs' =>
      if bool_decide (frame_stream f = sid) then (O, fs)
      else let '(n, rest) := skip_foreign sid fs' in (S n, rest)
  end.

(** The stream after the transport moved on and [n] foreign frames were counted. *)
Definition advanced (e : EventStream T) (t : T) (n : nat) : EventStream T :=
  {| mux := {| mux_transport := t; next_stream_id := next_stream_id (mux e) |};
     stream_id := stream_id e; parsed := parsed e; skipped := skipped e;
     foreign_frames := Nat.iter n (fun k => u64_add k 1) (foreign_frames e);
     ready := ready e |}.

Lemma next_frame_pending t n f fs :
  pending t (f :: fs) ->
  exists t', next_frame {| mux_transport := t; next_stream_id := n |}
             = (Ok (Some f), {| mux_transport := t'; next_stream_id := n |}) /\ pending t' fs.
Proof.
  inversion 1 as [| ? t' s ? ? Hr Hp Hfs]; subst. exists t'. split; [| done].
  cbv [next_frame on_mux_transport mbind M_bind mret M_ret lift set_mux_transport].
  cbn [mux_transport]. by rewrite Hr, Hp.
Qed.

Lemma next_frame_closed t n :
  pending t [] ->
  exists t', next_frame {| mux_transport := t; next_stream_id := n |}
             = (Ok None, {| mux_transport := t'; next_stream_id := n |}).
Proof.
  inversion 1 as [? t' Hr |]; subst. exists t'.
  cbv [next_frame on_mux_transport mbind M_bind mret M_ret lift set_mux_transport].
  cbn [mux_transport]. by rewrite Hr.
Qed.

(** One call of [next_event], by the frames that are pending. *)
Lemma next_event_pending fuel e fs :
  pending (mux_transport (mux e)) fs -> (length fs < fuel)%nat ->
  let '(n, own) := skip_foreign (stream_id e) fs in
  exists t,
    match own with
    | [] => next_event fuel e = Some (Ok None, advanced e t n)
    | f :: rest =>
        pending t rest /\
        next_event fuel e =
        Some match f with
             | Item _ v => take_item v (advanced e t n)
             | Error _ code message _ =>
                 (Err (stream_error "$events stream error" code message), advanced e t n)
             | End _ => (Ok None, advanced e t n)
             end
    end.
Proof.
  revert fuel e. induction fs as [|f fs IH]; intros fuel e Hp Hf;
    (destruct fuel as [|fuel]; [cbn in Hf; lia |]);
    destruct e as [[t0 n0] sid p s k r]; cbn [mux mux_transport stream_id] in *; cbn [next_event mux].
  - destruct (next_frame_closed t0 n0 Hp) as [t ->]. by exists t.
  - destruct (next_frame_pending t0 n0 f fs Hp) as (t & -> & Hp'). cbn [skip_foreign].
    case_bool_decide as Hid.
    + exists t. split; [done |].
      destruct f as [i v | i c m d | i]; cbn [frame_stream] in Hid; subst; cbn [set_mux stream_id]; by rewrite bool_decide_true.
    + cbn [length] in Hf.
      specialize (IH fuel (count_foreign (set_mux {| mux := {| mux_transport := t0; next_stream_id := n0 |};
        stream_id := sid; parsed := p; skipped := s; foreign_frames := k; ready := r |}
        {| mux_transport := t; next_stream_id := n0 |})) Hp' ltac:(lia)).
      cbn [stream_id set_mux count_foreign] in IH.
      destruct (skip_foreign sid fs) as [n own].
      assert (Hstep : forall u, advanced (count_foreign (set_mux {| mux := {| mux_transport := t0;
          next_stream_id := n0 |}; stream_id := sid; parsed := p; skipped := s; foreign_frames := k;
          ready := r |} {| mux_transport := t; next_stream_id := n0 |})) u n
        = advanced {| mux := {| mux_transport := t0; next_stream_id := n0 |}; stream_id := sid;
                      parsed := p; skipped := s; foreign_frames := k; ready := r |} u (S n)).
      { intros u. unfold advanced, count_foreign, set_mux. f_equal.
        symmetry. apply Nat.iter_succ_r. }
      destruct IH as [t1 IH]. exists t1.
      destruct f as [i v | i c m d | i]; cbn [frame_stream] in Hid; cbn [set_mux stream_id]; rewrite bool_decide_false by done;
        destruct own as [|g rest]; rewrite <- Hstep; exact IH.
Qed.

Lemma skip_foreign_events sid fs :
  events_of sid fs = events_of sid (skip_foreign sid fs).2 /\
  (length (skip_foreign sid fs).2 <= length fs)%nat /\
  match (skip_foreign sid fs).2 with [] => True | f :: _ => frame_stream f = sid end.
Proof.
  induction fs as [|f fs (IHe & IHl & IHf)]; [done |]. cbn [skip_foreign].
  case_bool_decide as Hid.
  - done.
  - destruct (skip_foreign sid fs) as [n own]. cbn [snd] in *. cbn [events_of].
    rewrite bool_decide_false by done. cbn [length]. split; [done |]. split; [lia | done].
Qed.

(** The same call, by what the pending frames mean. *)
Lemma next_event_events fuel e fs :
  pending (mux_transport (mux e)) fs -> (length fs < fuel)%nat ->
  exists e', stream_id e' = stream_id e /\
  match events_of (stream_id e) fs with
  | Ok [] => next_event fuel e = Some (Ok None, e')
  | Ok (m :: ms) =>
      next_event fuel e = Some (Ok (Some m), e') /\
      exists rest, pending (mux_transport (mux e')) rest /\ (length rest < length fs)%nat /\
        events_of (stream_id e) rest = Ok ms
  | Err error =>
      next_event fuel e = Some (Err error, e') \/
      exists m rest, next_event fuel e = Some (Ok (Some m), e') /\
        pending (mux_transport (mux e')) rest /\ (length rest < length fs)%nat /\
        events_of (stream_id e) rest = Err error
  end.
Proof.
  intros Hp Hf. pose proof (next_event_pending fuel e fs Hp Hf) as Hn.
  destruct (skip_foreign_events (stream_id e) fs) as (He & Hl & Hid). rewrite He.
  destruct (skip_foreign (stream_id e) fs) as [n own]. cbn [snd] in *. destruct Hn as [t Hn].
  destruct own as [|f rest]; [by exists (advanced e t n) |].
  destruct Hn as [Hrest Hn]. cbn [events_of]. rewrite (bool_decide_true _ Hid). cbn [length] in Hl.
  destruct f as [i v | i c m d | i]; cbn [frame_stream] in Hid.
  - unfold take_item in Hn. destruct (parse_message_value v) as [msg | err].
    + cbv [mbind result_bind].
      eexists. split; [| destruct (events_of (stream_id e) rest) as [ms | err] eqn:Ems].
      2:{ split; [exact Hn |]. exists rest. cbn. split; [done |]. split; [lia | done]. }
      2:{ right. exists msg, rest. split; [exact Hn |]. cbn. split; [done |]. split; [lia | done]. }
      done.
    + exists (advanced e t n). split; [done |]. by left.
  - exists (advanced e t n). split; [done |]. by left.
  - by exists (advanced e t n).
Qed.

Lemma drain_events_pending fuel e fs :
  pending (mux_transport (mux e)) fs -> (length fs < fuel)%nat ->
  exists e', drain_events fuel e = Some (events_of (stream_id e) fs, e').
Proof.
  revert e fs. induction fuel as [|fuel IH]; intros e fs Hp Hf; [lia |].
  destruct (next_event_events (S fuel) e fs Hp Hf) as (e1 & Hid & Hn). cbn [drain_events].
  destruct (events_of (stream_id e) fs) as [[|m ms] | err].
  - rewrite Hn. eauto.
  - destruct Hn as (-> & rest & Hr & Hl & Hms). rewrite <- Hid in Hms.
    destruct (IH e1 rest Hr ltac:(lia)) as [e2 ->]. rewrite Hms. eauto.
  - destruct Hn as [-> | (m & rest & -> & Hr & Hl & Herr)]; [eauto |]. rewrite <- Hid in Herr.
    destruct (IH e1 rest Hr ltac:(lia)) as [e2 ->]. rewrite Herr. eauto.
Qed.

(** Draining the pipeline: call [next_notification] until the stream ends. *)
Fixpoint drain_notifications (fuel : nat) (p : AdapterPipeline T) :
    option (result AdapterError (list AdapterNotification) * AdapterPipeline T) :=
  match fuel with
  | O => None
  | S fuel' =>
      match next_notification fuel p with
      | None => None
      | Some (Err error, p) => Some (Err error, p)
      | Some (Ok None, p) => Some (Ok [], p)
      | Some (Ok (Some n), p) =>
          match drain_notifications fuel' p with
          | Some (Ok ns, p) => Some (Ok (n :: ns), p)
          | other => other
          end
      end
  end.

Definition ingest_messages (ms : list EventMessage) (agg : UsageAggregator) : UsageAggregator :=
  foldl (fun agg m => ingest_message m agg) agg ms.

Lemma next_notification_pending fuel p fs ms :
  pending (mux_transport (mux (pipeline_stream p))) fs -> (length fs < fuel)%nat ->
  events_of (stream_id (pipeline_stream p)) fs = Ok ms ->
  exists p',
    (next_notification fuel p = Some (Ok None, p') /\ omap map_notification ms = [] /\
     usage p' = ingest_messages ms (usage p)) \/
    exists n done ms' rest,
      next_notification fuel p = Some (Ok (Some n), p') /\
      ms = done ++ ms' /\ omap map_notification done = [n] /\
      usage p' = ingest_messages done (usage p) /\
      stream_id (pipeline_stream p') = stream_id (pipeline_stream p) /\
      pending (mux_transport (mux (pipeline_stream p'))) rest /\ (length rest < length fs)%nat /\
      events_of (stream_id (pipeline_stream p)) rest = Ok ms'.
Proof.
  revert p fs ms. induction fuel as [|fuel IH]; intros p fs ms Hp Hf Hms; [lia |].
  destruct (next_event_events (S fuel) (pipeline_stream p) fs Hp Hf) as (e1 & Hid & Hn).
  cbn [next_notification]. rewrite Hms in Hn. destruct ms as [|m ms].
  - rewrite Hn. eexists. by left.
  - destruct Hn as (-> & rest & Hr & Hl & Hrest).
    destruct (map_notification m) as [n|] eqn:Hm.
    + eexists. right. exists n, [m], ms, rest. split; [done |]. split; [done |].
      split; [by cbn; rewrite Hm |]. done.
    + destruct (IH {| pipeline_stream := e1; usage := ingest_message m (usage p) |} rest ms)
        as [p' [(Hnone & Hmap & Hu) | (n & dn & ms' & rest' & Hnext & -> & Hmap & Hu & Hid' & Hp' & Hl' & Hms')]];
        cbn [pipeline_stream] in *; [done | lia | by rewrite Hid | |].
      * exists p'. left. cbn. rewrite Hm. done.
      * exists p'. right. exists n, (m :: dn), ms', rest'. cbn. rewrite Hm.
        rewrite <- Hid at 1. rewrite Hid in Hms'. split_and!; [done.. | lia | done].
Qed.

Lemma drain_notifications_pending fuel p fs ms :
  pending (mux_transport (mux (pipeline_stream p))) fs -> (length fs < fuel)%nat ->
  events_of (stream_id (pipeline_stream p)) fs = Ok ms ->
  exists p', drain_notifications fuel p = Some (Ok (omap map_notification ms), p') /\
    usage p' = ingest_messages ms (usage p).
Proof.
  revert p fs ms. induction fuel as [|fuel IH]; intros p fs ms Hp Hf Hms; [lia |].
  cbn [drain_notifications].
  destruct (next_notification_pending (S fuel) p fs ms Hp Hf Hms)
    as [p' [(-> & -> & Hu) | (n & dn & ms' & rest & -> & -> & Hmap & Hu & Hid & Hr & Hl & Hms')]].
  - eauto.
  - rewrite <- Hid in Hms'. destruct (IH p' rest ms' Hr ltac:(lia) Hms') as (p'' & -> & Hu').
    exists p''. rewrite omap_app, Hmap. split; [done |].
    rewrite Hu', Hu. unfold ingest_messages. by rewrite foldl_app.
Qed.
End Stream.

(** The event stream delivers what the wire says: once the [$events] stream
    is open, and whatever frames the peer sends before it closes the connection,
    draining it terminates and returns exactly the decoded items of that stream,
    in order, up to its end or its error, with the frames of every other stream
    ignored; and the pipeline produces exactly the notifications those events
    map to, in order, while the usage it accounts is that of all of them. *)
Theorem event_pipeline_refines_wire {T} `{WsTransport T} `{SerdeJson} `{DebugText}
    (t : T) e m fs fuel :
  open_events t = (Ok e, m) -> pending (mux_transport m) fs -> (length fs < fuel)%nat ->
  let events := events_of (stream_name 1) fs in
  (exists e', drain_events fuel e = Some (events, e')) /\
  forall ms, events = Ok ms ->
    exists p', drain_notifications fuel (new_pipeline e) = Some (Ok (omap map_notification ms), p') /\
      usage p' = ingest_messages ms new_aggregator.
Proof.
  unfold open_events. intros Hopen Hp Hf.
  destruct (mux_open EVENTS_ENDPOINT (args_object []) (new_mux t)) as [[id | err] m0] eqn:Eo;
    [| discriminate].
  injection Hopen as <- <-.
  apply bind_ok in Eo as (? & m1 & [= <- <-] & Eo). cbn [next_stream_id new_mux] in Eo.
  apply bind_ok in Eo as (sid & m2 & [-> ->]%gets_ok & Eo).
  apply bind_ok in Eo as (? & m3 & Hsend & [-> _]%ret_ok).
  split.
  - by apply (drain_events_pending fuel {| mux := m0; stream_id := stream_name 1; parsed := 0;
      skipped := 0; foreign_frames := 0; ready := None |}).
  - intros ms Hms. by apply (drain_notifications_pending fuel (new_pipeline {| mux := m0;
      stream_id := stream_name 1; parsed := 0; skipped := 0; foreign_frames := 0; ready := None |}) fs).
Qed.

(** *** Witness: a scripted peer *)
Module Scripted.

(** The texts the peer will send; what the client sends is dropped. *)
#[local] Instance script : WsTransport (list text) := {
  send_text _ := mret tt;
  recv_text := fun l => match l with s :: l => (Ok (Some s), l) | [] => (Ok None, []) end;
  close := mret tt
}.

Definition item_frame (sid : text) (v : Value) : Value :=
  obj [("type", Str (txt "item")); ("streamId", Str sid); ("value", v)].
Definition settings_event : Value :=
  obj [("type", Str (txt "event")); ("event", Str (txt "settings/document-updated"))].

(** A reader that knows three documents. *)
#[local] Instance toy_serde : SerdeJson := {
  from_str s :=
    if bool_decide (s = txt "own") then Ok (item_frame (stream_name 1) settings_event)
    else if bool_decide (s = txt "other") then Ok (item_frame (stream_name 2) settings_event)
    else if bool_decide (s = txt "end")
    then Ok (obj [("type", Str (txt "end")); ("streamId", Str (stream_name 1))])
    else Err [];
  to_string _ := [];
  to_vec _ := Some []
}.
#[local] Instance toy_debug : DebugText := fun s => s.

Definition own_frame : MuxFrame := Item (stream_name 1) settings_event.
Definition script_texts : list text := [txt "other"; txt "own"; txt "other"; txt "end"; txt "own"].

Lemma event_pipeline_refines_wire_witness :
  exists e m, open_events script_texts = (Ok e, m) /\
  exists p', drain_notifications 6 (new_pipeline e)
    = Some (Ok [notification ConfigChanged config_changed_title (Some CONFIG_CHANGED_DEDUPE_KEY)], p').
Proof.
  eexists _, _. split; [reflexivity |].
  pose proof (event_pipeline_refines_wire script_texts _ _
    [Item (stream_name 2) settings_event; own_frame; Item (stream_name 2) settings_event;
     End (stream_name 1); own_frame] 6 eq_refl) as Hw.
  destruct Hw as [_ Hn].
  - repeat (eapply pending_frame; [reflexivity | reflexivity |]). eapply pending_closed. reflexivity.
  - repeat constructor.
  - destruct (Hn [Emit (txt "settings/document-updated") Null]) as (p' & Hd & _); [reflexivity |].
    exists p'. exact Hd.
Defined.
End Scripted.

(** ** Notifications *)

Lemma truncate_chars_length s max :
  (length (truncate_chars s max) <= S max)%nat /\
  ((max < length s)%nat -> length (truncate_chars s max) = S max).
Proof.
  unfold truncate_chars. destruct (Nat.ltb_spec (length (take max s)) (length s)) as [Hlt | Hge];
    rewrite ?length_app, ?length_take in *; cbn [length]; lia.
Qed.

Lemma notification_shape event0 title0 key :
  let n := notification event0 title0 key in
  (length (title n) <= S MAX_TITLE_CHARS)%nat /\ notification_body n = None /\
  content_policy n = TitleOnly /\ schema_version n = NOTIFICATION_SCHEMA_VERSION.
Proof. split; [apply truncate_chars_length | done]. Qed.

Lemma map_notification_shape message n :
  map_notification message = Some n ->
  exists event0 title0 key, n = notification event0 title0 key /\
    (key = None \/ key = Some CONFIG_CHANGED_DEDUPE_KEY).
Proof.
  unfold map_notification. destruct (allowlist message) as [a|]; [| done]. cbn.
  destruct a; [case_bool_decide; [| done] | ..]; intros [= <-];
    (do 3 eexists; split; [reflexivity | auto]).
Qed.

(** An approval request whose tool has a name of [k] characters. *)
Definition long_approval (k : nat) : EventMessage :=
  Waterfall (txt "approval/request") None None (obj [("toolName", Str (repeat 65%N k))]).

(** Every notification carries a title and no body, and its dedupe key is
    one of the two fixed ones.  A title that is cut has 129 characters, one more
    than the contract of the notification service allows: the mark of the cut is
    appended after the limit was applied. *)
Theorem notification_title_overflows :
  (forall message n, map_notification message = Some n ->
     (length (title n) <= 129)%nat /\ notification_body n = None /\ content_policy n = TitleOnly /\
     (dedupe_key n = None \/ dedupe_key n = Some CONFIG_CHANGED_DEDUPE_KEY)) /\
  forall k, (124 <= k)%nat ->
    exists n, map_notification (long_approval k) = Some n /\ length (title n) = 129%nat.
Proof.
  split.
  - intros message n (event0 & title0 & key & -> & Hkey)%map_notification_shape.
    destruct (notification_shape event0 title0 key) as (? & ? & ? & _). do 3 (split; [done |]).
    destruct Hkey as [-> | ->]; [by left | by right].
  - intros k Hk. exists (notification ApprovalRequired (approval_title_of (repeat 65%N k)) None).
    split; [reflexivity |]. cbn [title notification].
    apply truncate_chars_length. unfold approval_title_of, MAX_TITLE_CHARS.
    rewrite !length_app, repeat_length. cbn [length approval_title]. lia.
Qed.

(** ** The token exchange *)

(** Reading a percent-encoded value. *)
Fixpoint percent_decode (s : text) : option (list byte) :=
  match s with
  | [] => Some []
  | 37%N :: h :: l :: s =>
      h ← to_digit 16 h; l ← to_digit 16 l; bs ← percent_decode s; Some (byte_of (h * 16 + l) :: bs)
  | c :: s => bs ← percent_decode s; Some (byte_of c :: bs)
  end.

Lemma percent_byte_decodes b rest bs :
  percent_decode rest = Some bs -> percent_decode (percent_byte b ++ rest) = Some (b :: bs).
Proof. intros H. destruct b; cbn; by rewrite H. Qed.

Lemma percent_decode_encode s : percent_decode (percent_encode s) = Some (utf8_encode s).
Proof.
  unfold percent_encode. induction (utf8_encode s) as [|b bs IH]; [done |].
  cbn [flat_map]. by apply percent_byte_decodes.
Qed.

Definition url_safe (c : N) : bool := is_unreserved c || (c =? 37)%N.

Lemma percent_encode_safe s : forallb url_safe (percent_encode s) = true.
Proof.
  unfold percent_encode. induction (utf8_encode s) as [|b bs IH]; [done |].
  cbn [flat_map]. rewrite forallb_app, IH. by destruct b.
Qed.

(** The launch token survives the exchange and cannot escape its query:
    the request is a bodiless GET on the base path whose query value, read back
    as percent-encoded bytes, is the token, and every character of it is
    unreserved or a percent sign, so no token adds a parameter, a fragment or a
    header line. *)
Theorem token_request_round_trip base_url token req :
  build_token_request base_url token = Ok req ->
  exists p q, base_path base_url = Ok p /\ path req = p ++ txt "/?token=" ++ q /\
    percent_decode q = Some (utf8_encode token) /\ forallb url_safe q = true /\
    method req = txt "GET" /\ request_headers req = [] /\ request_body req = None.
Proof.
  unfold build_token_request. destruct (base_path base_url) as [p|] eqn:Hp; [| done].
  cbv [mbind result_bind]. destruct (_ || _); [done |]. intros [= <-].
  exists p, (percent_encode token).
  do 2 (split; [done |]). split; [apply percent_decode_encode |].
  by split; [apply percent_encode_safe |].
Qed.

Lemma token_request_round_trip_witness :
  exists req, build_token_request (txt "http://127.0.0.1:6800") (txt "a b&c") = Ok req /\
    percent_decode (drop 8 (path req)) = Some (utf8_encode (txt "a b&c")).
Proof.
  eexists. split; [reflexivity |].
  destruct (token_request_round_trip (txt "http://127.0.0.1:6800") (txt "a b&c") _ eq_refl)
    as (p & q & Hp & Hq & Hd & _).
  vm_compute in Hp. injection Hp as <-. rewrite Hq. exact Hd.
Defined.

(** ** The launch cookie *)

(** No line break inside. *)
Definition no_crlf (s : text) : Prop := forall a b, s <> a ++ CRLF ++ b.

Definition infix (p s : text) : Prop := exists a b, s = a ++ p ++ b.

Lemma no_crlf_infix p s : no_crlf s -> infix p s -> no_crlf p.
Proof.
  intros Hs (a & b & ->) c d ->. apply (Hs (a ++ c) (d ++ b)). by rewrite <- !(assoc_L (++)).
Qed.

#[export] Instance infix_preorder : PreOrder infix.
Proof.
  split.
  - intros s. exists [], []. by rewrite app_nil_r.
  - intros p q s (a & b & ->) (c & d & ->). exists (c ++ a), (b ++ d).
    by rewrite <- !(assoc_L (++)).
Qed.

Lemma drop_while_suffix (p : N -> bool) s : exists a, s = a ++ drop_while p s.
Proof.
  induction s as [|c s [a IH]]; [by exists [] |]. cbn [drop_while]. destruct (p c).
  - exists (c :: a). cbn. by f_equal.
  - by exists [].
Qed.

Lemma trim_infix s : infix (trim s) s.
Proof.
  unfold trim, trim_end, trim_start.
  destruct (drop_while_suffix is_whitespace s) as [a Ha].
  destruct (drop_while_suffix is_whitespace (rev (drop_while is_whitespace s))) as [b Hb].
  exists a, (rev b). rewrite <- rev_app_distr, <- Hb, rev_involutive. exact Ha.
Qed.

Lemma split_char_head c s : infix (default [] (head (split_char c s))) s.
Proof.
  induction s as [|x s (a & b & IH)]; [by exists [], [] |]. cbn [split_char].
  destruct (x =? c)%N; [by exists [], (x :: s) |].
  assert (Hp : exists p ps, split_char c s = p :: ps /\ exists b, s = p ++ b).
  { clear. induction s as [|y s (p & ps & IH & d & Hd)]; [by exists [], []; eauto |].
    cbn [split_char]. destruct (y =? c)%N; [eexists [], _; eauto |]. rewrite IH.
    exists (y :: p), ps. split; [done |]. exists d. cbn. by f_equal. }
  destruct Hp as (p & ps & -> & d & ->). by exists [], d.
Qed.

Lemma split_once_parts c s a b : split_once c s = Some (a, b) -> s = a ++ [c] ++ b.
Proof. apply split_at_first_some. Qed.

(** The lines of a head have no line break in them. *)
Lemma split_from_prefix_head s : exists p ps b, split_from CRLF 0 s = p :: ps /\ s = p ++ b.
Proof.
  induction s as [|c s (p & ps & b & IH & Hb)]; [by exists [], [], [] |]. cbn [split_from].
  destruct (starts_with CRLF (c :: s)); [eexists [], _, _; eauto |]. rewrite IH.
  exists (c :: p), ps, b. split; [done |]. cbn. by f_equal.
Qed.

Lemma split_lines_no_crlf k s : Forall no_crlf (split_from CRLF k s).
Proof.
  assert (Hnil : no_crlf []) by (intros [|? a] b; discriminate).
  revert k. induction s as [|c s IH]; intros k; [by repeat constructor |]. cbn [split_from].
  destruct k as [|k]; [| apply IH].
  destruct (starts_with CRLF (c :: s)) eqn:Hst; [constructor; [done | apply IH] |].
  destruct (split_from_prefix_head s) as (p & ps & b & Hp & Hs).
  specialize (IH O). rewrite Hp in *. apply Forall_cons in IH as [Hnp Hps]. constructor; [| done].
  intros [|x a] d; cbn [app CRLF]; intros [= Hc Hd].
  - subst. unfold starts_with in Hst. apply bool_decide_eq_false in Hst. apply Hst. done.
  - by apply (Hnp a d).
Qed.

Lemma header_of_infix line name value :
  header_of line = Some (name, value) -> infix name line /\ infix value line.
Proof.
  unfold header_of. destruct (split_once 58 line) as [[n v]|] eqn:Hs; [| done]. cbn.
  intros [= <- <-]. apply split_once_parts in Hs as ->. split.
  - etrans; [apply trim_infix |]. by exists [], ([58%N] ++ v).
  - etrans; [apply trim_infix |]. exists (n ++ [58%N]), []. by rewrite app_nil_r, <- (assoc_L (++)).
Qed.

Lemma response_headers_no_crlf bytes r :
  response_from_wire bytes = Returns (Ok r) -> Forall (fun h => no_crlf h.2) (headers r).
Proof.
  unfold response_from_wire, refuse, protocol.
  destruct (find_bytes _ bytes) as [n|]; [| done].
  destruct (from_utf8 _) as [head|]; [| done].
  pose proof (split_lines_no_crlf 0 head) as Hl. fold (split_str CRLF head) in Hl.
  destruct (split_str CRLF head) as [|l ls]; [done |]. apply Forall_cons in Hl as [_ Hls].
  destruct (parse_status_line l) as [[st rs]|]; [| done].
  destruct (read_body _ _) as [[b|]|]; [| done..]. intros [= <-]. cbn [headers].
  apply Forall_forall. intros [name value] (line & Hline & Hh)%list_elem_of_omap.
  apply header_of_infix in Hh as [_ Hv]. cbn.
  eapply no_crlf_infix; [| exact Hv]. by apply (proj1 (Forall_forall _ _) Hls).
Qed.

Lemma parse_auth_cookie `{DebugText} r res :
  parse_auth_response r = Ok res ->
  starts_with LAUNCH_COOKIE_PREFIX (cookie res) = true /\
  exists raw, set_cookie r = Some raw /\ infix (cookie res) raw.
Proof.
  unfold parse_auth_response, auth. destruct (negb _); [done |].
  destruct (set_cookie r) as [raw|]; [| done].
  destruct (split_once 61 _) as [[name value]|] eqn:Hs; [| done].
  destruct (starts_with LAUNCH_COOKIE_PREFIX name) eqn:Hpre; [| done].
  destruct (negb true || _ || _ || _); [done |]. intros <-%Ok_inj. cbn [cookie]. split.
  - unfold starts_with in *. apply bool_decide_eq_true in Hpre. apply bool_decide_eq_true.
    rewrite <- Hpre at 2. rewrite take_app_le; [done |].
    apply (f_equal length) in Hpre. rewrite length_take in Hpre. lia.
  - exists raw. split; [done |]. apply split_once_parts in Hs.
    change (name ++ txt "=" ++ value) with (name ++ [61%N] ++ value). rewrite <- Hs.
    etrans; [apply trim_infix | apply split_char_head].
Qed.

Lemma find_header_elem name hs v : find_header name hs = Some v -> exists h, h ∈ hs /\ h.2 = v.
Proof.
  unfold find_header. destruct (List.find _ hs) as [h|] eqn:Hf; [| done]. cbn. intros [= <-].
  apply find_some in Hf as [Hin _]. exists h. by rewrite list_elem_of_In.
Qed.

(** Authenticating and then calling, over any transport that reads
    responses with the codec: the cookie kept is the launch cookie, it holds no
    line break, so it cannot add a header, and each later call is one POST to the
    base path's [/api] that carries it verbatim.  Each of these calls is numbered
    one: the client makes a new RPC client, with a new counter, for every call. *)
Theorem authenticated_calls_carry_cookie {H} `{HttpTransport H} `{SerdeJson} `{DebugText}
    (d d1 : DshClient H) res base name args :
  (forall req t r t', roundtrip req t = (Ok r, t') ->
     exists bytes, response_from_wire bytes = Returns (Ok r)) ->
  authenticate d = (Ok res, d1) -> parse_base_url (base_url (config d)) = Ok base ->
  stored_cookie d1 = Some (cookie res) /\
  starts_with LAUNCH_COOKIE_PREFIX (cookie res) = true /\ no_crlf (cookie res) /\
  call_api name args d1 =
    let req := {| method := txt "POST"; path := path_prefix base ++ txt "/api";
                  request_headers := [(txt "Content-Type", txt "application/json");
                                      (txt "Cookie", cookie res)];
                  request_body := Some (default [] (to_vec (call_envelope name args 1))) |} in
    let '(r, t) := roundtrip req (http d1) in
    (match r with Ok response => call_result response | Err e => Err e end, set_http d1 t).
Proof.
  intros Hcodec Hauth Hbase. unfold authenticate in Hauth.
  destruct (build_token_request _ _) as [req|]; [| done].
  destruct (roundtrip req (http d)) as [[resp|] t] eqn:Hrt; [| done].
  destruct (parse_auth_response resp) as [res'|] eqn:Hp; [| done]. injection Hauth as -> <-.
  destruct (parse_auth_cookie resp res Hp) as (Hpre & raw & Hraw & Hin).
  cbn [stored_cookie]. split; [done |]. split; [done |]. split.
  - destruct (Hcodec _ _ _ _ Hrt) as [bytes Hb]. apply response_headers_no_crlf in Hb.
    apply find_header_elem in Hraw as ([n v] & Hh & <-).
    eapply no_crlf_infix; [| exact Hin]. by apply (proj1 (Forall_forall _ _) Hb (n, v)).
  - unfold call_api, on_api, api_client. cbn [config set_http http stored_cookie].
    rewrite Hbase. cbv [mbind result_bind]. unfold api_call. cbn.
    destruct (roundtrip _ t) as [[r|e] t']; done.
Qed.

(** *** Witness: a server that always redirects with a cookie *)
Module Redirecting.
Import Scripted.
#[local] Existing Instances toy_serde toy_debug.

Definition redirect_bytes : list byte :=
  utf8_encode (txt "HTTP/1.1 303 See Other" ++ CRLF ++ txt "Location: /" ++ CRLF
               ++ txt "Set-Cookie: dsh-auth-x=v1.p.h; Path=/" ++ CRLF ++ CRLF).

#[local] Instance redirecting : HttpTransport unit := fun _ t =>
  match response_from_wire redirect_bytes with
  | Returns r => (r, t)
  | Panics => (Err (Transport []), t)
  end.

Definition client : DshClient unit :=
  new_client (new_config (txt "http://127.0.0.1:6800/dsh/") (txt "token")) tt.

Lemma authenticated_calls_carry_cookie_witness :
  exists res d1, authenticate client = (Ok res, d1) /\ cookie res = txt "dsh-auth-x=v1.p.h" /\
    no_crlf (cookie res).
Proof.
  eexists _, _. split; [vm_compute; reflexivity |]. split; [vm_compute; reflexivity |].
  refine (proj1 (proj2 (proj2 (authenticated_calls_carry_cookie client _ _ _ (txt "m") Null _ _ _)))).
  - intros req t r t'. unfold roundtrip, redirecting.
    destruct (response_from_wire redirect_bytes) as [r0|] eqn:E; [| discriminate].
    intros [= -> _]. exists redirect_bytes. exact E.
  - vm_compute. reflexivity.
  - vm_compute. reflexivity.
Defined.
End Redirecting.

(** ** Base URLs

    The path prefix is computed twice, by [base_path] for the token exchange and
    by [parse_base_url] for everything else.  They agree but for a path of
    slashes only, which one of them keeps as one slash. *)

Lemma drop_while_all {A} (p : A -> bool) l : forallb p l = true -> drop_while p l = [].
Proof.
  induction l as [|x l IH]; [done |]. cbn [forallb]. intros [Hx Hl]%andb_prop. cbn. by rewrite Hx, IH.
Qed.

Lemma drop_while_app {A} (p : A -> bool) l r :
  forallb p l = false -> drop_while p (l ++ r) = drop_while p l ++ r.
Proof.
  induction l as [|x l IH]; [done |]. cbn. destruct (p x); [exact IH | done].
Qed.

Lemma forallb_rev {A} (p : A -> bool) l : forallb p (rev l) = forallb p l.
Proof. induction l as [|x l IH]; [done |]. cbn. rewrite forallb_app, IH. cbn. destruct (p x), (forallb p l); done. Qed.

Lemma base_paths_agree url p base :
  base_path url = Ok p -> parse_base_url url = Ok base ->
  p = path_prefix base \/ (p = [47%N] /\ path_prefix base = []).
Proof.
  unfold base_path, parse_base_url, auth. destruct (strip_prefix _ url) as [rest|]; [| done].
  intros Hp%Ok_inj Hb. destruct (split_once 47 rest) as [[a q]|].
  - case_bool_decide; [done |]. apply Ok_inj in Hb as <-. cbn [path_prefix]. subst p.
    unfold trim_end_matches. destruct (forallb (N.eqb 47) q) eqn:Hq.
    + rewrite (drop_while_all _ (rev (47%N :: q))) by (cbn; rewrite forallb_app, forallb_rev, Hq; done).
      destruct q as [|c q]; [by left |]. right.
      by rewrite drop_while_all by (by rewrite forallb_rev).
    + left. cbn [rev]. rewrite drop_while_app by (by rewrite forallb_rev).
      rewrite rev_app_distr. by destruct q.
  - case_bool_decide; [done |]. apply Ok_inj in Hb as <-. by left.
Qed.
