(* ===== verification/Conformance.v ===== *)
(** * Conformance, degradation and facets

    Model of [conformance.rs], [degrade.rs] and [facets.rs] of
    [crates/adapter-dsh-std/src].  Strings are text; the time of a log entry,
    which [time::now_rfc3339] reads from the clock, is an argument. *)
From stdpp Require Import base gmap list option strings.
From Stdlib Require Import NArith ZArith Lia.
From S2P Require Import Prelude Text Broker AgentBridge.

(** ** Declarations *)

Definition KNOWN_PACKAGE : text := txt "@dsh-std/core".
Definition KNOWN_VERSION : text := txt "0.1.1-rc.1".
Definition KNOWN_COMMIT : text := txt "3df0543".
Definition KNOWN_INTEGRITY : text :=
  txt "sha512-I2tZEYk0V5QjlvkLvqKkAj/Fsvz0bTe0oDF2YFzL8EpmOS9KNcILrLBGSdVrt1qZnlBZP+9Zzh2byJzG0dJiOQ==".

Record ConformanceRecord := {
  package : text;
  version : text;
  commit : text;
  integrity : text
}.

#[export] Instance ConformanceRecord_eq_dec : EqDecision ConformanceRecord.
Proof. solve_decision. Defined.

(** [ConformanceRecord::known_baseline] *)
Definition known_baseline : ConformanceRecord :=
  {| package := KNOWN_PACKAGE; version := KNOWN_VERSION; commit := KNOWN_COMMIT;
     integrity := KNOWN_INTEGRITY |}.

Inductive ConformanceError :=
  EmptyPackage | InvalidPackageName | EmptyVersion | InvalidVersion | InvalidCommit | InvalidIntegrity.

(** [impl fmt::Display for ConformanceError] *)
Definition conformance_error_display (e : ConformanceError) : text :=
  txt match e with
      | EmptyPackage => "package is empty"
      | InvalidPackageName => "package is not a valid npm package name"
      | EmptyVersion => "version is empty"
      | InvalidVersion => "version is not a valid exact version"
      | InvalidCommit => "commit is not 7..=40 hex characters"
      | InvalidIntegrity => "integrity is not a valid SRI value (sha512-<base64>)"
      end.

(** *** Format *)

Definition is_ascii_digit (c : N) : bool := ((48 <=? c) && (c <=? 57))%N.
Definition is_ascii_alpha (c : N) : bool := ((65 <=? c) && (c <=? 90) || (97 <=? c) && (c <=? 122))%N.
Definition is_ascii_alphanumeric (c : N) : bool := is_ascii_digit c || is_ascii_alpha c.
Definition is_ascii_hexdigit (c : N) : bool :=
  (is_ascii_digit c || (65 <=? c) && (c <=? 70) || (97 <=? c) && (c <=? 102))%N.
Definition one_of (s : string) (c : N) : bool := existsb (N.eqb c) (txt s).

Definition is_package_segment (seg : text) : bool :=
  negb (bool_decide (seg = [])) && forallb (fun c => is_ascii_alphanumeric c || one_of "-_." c) seg.

Definition is_valid_package_name (name : text) : bool :=
  if bool_decide (name = []) || (128 <? utf8_len name)%N then false
  else
    match strip_prefix (txt "@") name with
    | Some rest =>
        match split_once 47 rest with
        | None => false
        | Some (scope, pkg) => is_package_segment scope && is_package_segment pkg
        end
    | None => is_package_segment name
    end.

Definition is_valid_version (v : text) : bool :=
  let core := match split_once 43 v with Some (c, _) => c | None => v end in
  let '(core, prerelease) := match split_once 45 core with
                             | Some (c, p) => (c, Some p)
                             | None => (core, None)
                             end in
  match split_char 46 core with
  | [major; minor; patch] =>
      if negb (forallb is_ascii_digit major) || negb (forallb is_ascii_digit minor)
         || negb (forallb is_ascii_digit patch)
      then false
      else
        match prerelease with
        | None => true
        | Some p =>
            if bool_decide (p = []) || existsb (fun s => bool_decide (s = [])) (split_char 46 p)
            then false
            else forallb (fun c => is_ascii_alphanumeric c || one_of "-." c) p
        end
  | _ => false
  end.

Definition is_valid_commit (c : text) : bool :=
  (7 <=? utf8_len c)%N && (utf8_len c <=? 40)%N && forallb is_ascii_hexdigit c.

Definition is_valid_integrity (i : text) : bool :=
  match split_once 45 i with
  | None => false
  | Some (algo, b64) =>
      if negb (existsb (fun a => bool_decide (algo = txt a)) ["sha256"; "sha384"; "sha512"]) then false
      else negb (bool_decide (b64 = [])) && (utf8_len b64 mod 4 =? 0)%N
           && forallb (fun c => is_ascii_alphanumeric c || one_of "/+=" c) b64
  end.

(** [ConformanceRecord::validate_format] *)
Definition validate_format (r : ConformanceRecord) : result ConformanceError unit :=
  if bool_decide (package r = []) then Err EmptyPackage
  else if negb (is_valid_package_name (package r)) then Err InvalidPackageName
  else if bool_decide (version r = []) then Err EmptyVersion
  else if negb (is_valid_version (version r)) then Err InvalidVersion
  else if negb (is_valid_commit (commit r)) then Err InvalidCommit
  else if negb (is_valid_integrity (integrity r)) then Err InvalidIntegrity
  else Ok tt.

(** [ConformanceRecord::matches_known_baseline] *)
Definition matches_known_baseline (r : ConformanceRecord) : bool :=
  bool_decide (package r = KNOWN_PACKAGE) && bool_decide (version r = KNOWN_VERSION)
  && bool_decide (commit r = KNOWN_COMMIT) && bool_decide (integrity r = KNOWN_INTEGRITY).

(** ** Evaluation *)

(** [ConformanceDeclaration] is its list of records. *)
Definition ConformanceDeclaration : Type := list ConformanceRecord.

(** [ConformanceState]; the broker's [AgentConformanceState] mirrors it. *)
Inductive ConformanceState := CKnown | CAbsent | CUnknown.

#[export] Instance ConformanceState_eq_dec : EqDecision ConformanceState.
Proof. solve_decision. Defined.

Definition conformance_state_as_str (s : ConformanceState) : string :=
  match s with CKnown => "known" | CAbsent => "absent" | CUnknown => "unknown" end.

Definition state_is_l2 (s : ConformanceState) : bool := bool_decide (s = CKnown).

Record ConformanceLogEntry := {
  entry_at : text;
  entry_state : ConformanceState;
  entry_reason : text;
  entry_matched : option text
}.

Definition ConformanceLog : Type := list ConformanceLogEntry.

(** [ConformanceLog::record] *)
Definition record (at_ : text) (state : ConformanceState) (reason : text) (matched : option text)
    (log : ConformanceLog) : ConformanceLog :=
  log ++ [{| entry_at := at_; entry_state := state; entry_reason := reason; entry_matched := matched |}].

(** The first record that fails [validate_format]. *)
Fixpoint first_invalid (l : list ConformanceRecord) : option (ConformanceRecord * ConformanceError) :=
  match l with
  | [] => None
  | r :: l => match validate_format r with Err e => Some (r, e) | Ok _ => first_invalid l end
  end.

(** [conforms] *)
Definition conforms (now : text) (declaration : option ConformanceDeclaration) (log : ConformanceLog) :
    ConformanceState * ConformanceLog :=
  match declaration with
  | None =>
      (CAbsent, record now CAbsent
        (txt "no conformance declaration; dsh-std domain protocol not implemented (L0/L1 unchanged)")
        None log)
  | Some [] =>
      (CAbsent, record now CAbsent
        (txt "declaration present but empty; no dsh-std package coordinates declared (L0/L1 unchanged)")
        None log)
  | Some records =>
      match first_invalid records with
      | Some (r, e) =>
          (CUnknown, record now CUnknown
            (txt "conformance fixture failed format validation for " ++ package r ++ txt ": "
             ++ conformance_error_display e) None log)
      | None =>
          match List.find matches_known_baseline records with
          | Some r =>
              (CKnown, record now CKnown
                (txt "declared coordinates match the pinned baseline (EXTERNAL_BASELINE)")
                (Some (package r ++ txt "@" ++ version r)) log)
          | None =>
              (CUnknown, record now CUnknown
                (txt "no declared record matches the pinned baseline (coordinate drift); fail-closed")
                None log)
          end
      end
  end.

(** ** Degradation *)

Inductive DegradeReason :=
  ConformanceUnknown | ConformanceAbsent | NegotiationRejected | InvocationFailed.

Definition degrade_reason_as_str (r : DegradeReason) : string :=
  match r with
  | ConformanceUnknown => "conformance_unknown"
  | ConformanceAbsent => "conformance_absent"
  | NegotiationRejected => "negotiation_rejected"
  | InvocationFailed => "invocation_failed"
  end.

Record L0Fallback := { fallback_reason : DegradeReason; fallback_detail : text; fallback_at : text }.
Definition claims_l2 (_ : L0Fallback) : bool := false.
Definition baseline_intact (_ : L0Fallback) : bool := true.

Record DegradeEntry := {
  degrade_at : text;
  degrade_reason : DegradeReason;
  degrade_detail : text;
  l0_preserved : bool
}.

Definition DegradeLog : Type := list DegradeEntry.

(** [degrade_to_l0] *)
Definition degrade_to_l0 (now : text) (reason : DegradeReason) (detail : text) (log : DegradeLog) :
    L0Fallback * DegradeLog :=
  ({| fallback_reason := reason; fallback_detail := detail; fallback_at := now |},
   log ++ [{| degrade_at := now; degrade_reason := reason; degrade_detail := detail;
              l0_preserved := true |}]).

(** ** Facets *)

Inductive FacetKind := Negotiation | Conformance | Invocation.

#[export] Instance FacetKind_eq_dec : EqDecision FacetKind.
Proof. solve_decision. Defined.

Definition facet_kind_as_str (k : FacetKind) : text :=
  txt match k with
      | Negotiation => "negotiation" | Conformance => "conformance" | Invocation => "invocation"
      end.

(** [FacetKind::parse] *)
Definition parse_facet_kind (s : text) : option FacetKind :=
  if bool_decide (s = txt "negotiation") then Some Negotiation
  else if bool_decide (s = txt "conformance") then Some Conformance
  else if bool_decide (s = txt "invocation") then Some Invocation
  else None.

Record Facet := { facet_kind : FacetKind; facet_api_version : text }.

#[export] Instance Facet_eq_dec : EqDecision Facet.
Proof. solve_decision. Defined.

(** [Facet::id] *)
Definition facet_id (f : Facet) : text :=
  facet_kind_as_str (facet_kind f) ++ txt "/" ++ facet_api_version f.

(** [Facet::is_compatible_with] *)
Definition is_compatible_with (f g : Facet) : bool :=
  bool_decide (facet_kind f = facet_kind g)
  && bool_decide (facet_api_version f = facet_api_version g).

(** [FacetCatalog::local_default] *)
Definition local_default : list Facet :=
  let api := txt "dsh-std.dsh-desktop.local/v1alpha1" in
  [{| facet_kind := Negotiation; facet_api_version := api |};
   {| facet_kind := Conformance; facet_api_version := api |};
   {| facet_kind := Invocation; facet_api_version := api |}].

(** [FacetCatalog::supports] *)
Definition supports (catalog : list Facet) (f : Facet) : bool :=
  existsb (fun g => is_compatible_with g f) catalog.

(** [FacetCatalog::intersect] *)
Definition intersect (catalog peer : list Facet) : list Facet := List.filter (supports catalog) peer.

(** ** Lemmas *)

Lemma matches_iff r : matches_known_baseline r = true <-> r = known_baseline.
Proof.
  unfold matches_known_baseline. rewrite !andb_true_iff, !bool_decide_eq_true. split.
  - intros [[[? ?] ?] ?]. destruct r; cbn in *; by subst.
  - by intros ->.
Qed.

Lemma first_invalid_none l : first_invalid l = None <-> Forall (fun r => validate_format r = Ok tt) l.
Proof.
  induction l as [|r l IH]; cbn [first_invalid]; [done |].
  rewrite Forall_cons, <- IH. destruct (validate_format r) as [[]|]; naive_solver.
Qed.

(** The pinned baseline passes the format checks. *)
Lemma baseline_valid : validate_format known_baseline = Ok tt.
Proof. by vm_compute. Qed.

(** The version check takes any digits, none included. *)
Example empty_version_numbers_accepted : is_valid_version (txt "..") = true.
Proof. by vm_compute. Qed.

(** A negotiation whose conformance is not [Known] does not reach the broker's
    state. *)
Lemma not_known_refused {Value C} `{!Clock C} agent r (b : Broker Value C) :
  neg_conformance r <> Known ->
  exists e, broker_grant_from_negotiation agent r b = (Err e, b).
Proof.
  intros Hne. unfold broker_grant_from_negotiation, throw_if, mbind, M_bind.
  destruct (neg_agreed r); [| by eexists]. cbn [negb].
  rewrite bool_decide_false by done. by eexists.
Qed.

Lemma find_baseline records :
  match List.find matches_known_baseline records with
  | Some r => r = known_baseline /\ known_baseline ∈ records
  | None => known_baseline ∉ records
  end.
Proof.
  destruct (List.find matches_known_baseline records) as [r|] eqn:Hf.
  - apply find_some in Hf as [Hin ->%matches_iff]. by rewrite <- list_elem_of_In in Hin.
  - intros Hin. rewrite list_elem_of_In in Hin. apply (find_none _ _ Hf) in Hin.
    by rewrite (proj2 (matches_iff _) eq_refl) in Hin.
Qed.

(** Conformance is decided exactly: the state is [Known] when the declared
    records are all well formed and one of them is the pinned baseline in every
    coordinate, [Absent] when nothing is declared, and [Unknown] otherwise; every
    evaluation appends one entry with that state to the log.  And a negotiation
    that carries any state but [Known] leaves the capability broker as it was. *)
Theorem conforms_decides {Value C} `{!Clock C} now declaration log agent r (b : Broker Value C) :
  let '(state, log') := conforms now declaration log in
  (state = CKnown <-> exists records, declaration = Some records /\
     Forall (fun r => validate_format r = Ok tt) records /\ known_baseline ∈ records) /\
  (state = CAbsent <-> default [] declaration = []) /\
  (exists e, log' = log ++ [e] /\ entry_state e = state /\ entry_at e = now) /\
  (conformance_as_str (neg_conformance r) = conformance_state_as_str state -> state <> CKnown ->
   exists e, broker_grant_from_negotiation agent r b = (Err e, b)).
Proof.
  assert (Hbroker : forall state,
            conformance_as_str (neg_conformance r) = conformance_state_as_str state -> state <> CKnown ->
            exists e, broker_grant_from_negotiation agent r b = (Err e, b)).
  { intros state Hs Hne. apply not_known_refused. intros Hk. rewrite Hk in Hs. by destruct state. }
  unfold conforms, record. destruct declaration as [[|r0 records]|].
  - split; [split; [done | by intros (? & [= <-] & _ & ?%elem_of_nil)] |].
    split; [done |]. split; [by eexists | apply Hbroker].
  - destruct (first_invalid (r0 :: records)) as [[r1 e1]|] eqn:Hinv.
    + split; [split; [done |] |].
      { intros (? & [= <-] & Hall & _). apply first_invalid_none in Hall. congruence. }
      split; [done |]. split; [by eexists | apply Hbroker].
    + apply first_invalid_none in Hinv. pose proof (find_baseline (r0 :: records)) as Hf.
      destruct (List.find matches_known_baseline (r0 :: records)) as [r1|].
      * destruct Hf as [-> Hin]. split; [split; [by eauto | done] |].
        split; [done |]. split; [by eexists | apply Hbroker].
      * split; [split; [done | by intros (? & [= <-] & _ & ?)] |].
        split; [done |]. split; [by eexists | apply Hbroker].
  - split; [split; [done | by intros (? & ? & _)] |].
    split; [done |]. split; [by eexists | apply Hbroker].
Qed.

(** Facet identifiers are unambiguous: a kind has no slash in its name. *)
Lemma facet_id_injective f g : facet_id f = facet_id g -> f = g.
Proof.
  destruct f as [[] v], g as [[] w]; unfold facet_id; cbn [facet_kind facet_api_version];
    intros H; vm_compute in H; try discriminate H; injection H as ->; done.
Qed.

Lemma parse_facet_kind_as_str k : parse_facet_kind (facet_kind_as_str k) = Some k.
Proof. by destruct k. Qed.

(** A facet is supported when its own record is in the catalog. *)
Lemma supports_iff catalog f : supports catalog f = true <-> f ∈ catalog.
Proof.
  unfold supports. rewrite existsb_elem. unfold is_compatible_with.
  setoid_rewrite andb_true_iff. setoid_rewrite bool_decide_eq_true. split.
  - intros ([k v] & Hin & Hk & Hv). destruct f; cbn in *; by subst.
  - intros Hin. by exists f.
Qed.

Lemma intersect_elem catalog peer f : f ∈ intersect catalog peer <-> f ∈ peer /\ f ∈ catalog.
Proof.
  unfold intersect. rewrite list_elem_of_In, filter_In, <- list_elem_of_In.
  by rewrite supports_iff.
Qed.

Lemma conforms_decides_witness :
  (conforms [] (Some [known_baseline]) []).1 = CKnown /\
  known_baseline ∈ [known_baseline].
Proof.
  pose proof (conforms_decides (Value := unit) (C := N) [] (Some [known_baseline]) [] "a"
    {| neg_activation_id := ""; neg_agreed := true; neg_granted := []; neg_conformance := Known;
       neg_lease_constraints := None; neg_scope := {| session_id := None; workspace := None; domains := []; resources := [] |} |}
    (with_clock 0%N)) as H.
  destruct (conforms [] (Some [known_baseline]) []) as [state log'] eqn:E.
  destruct H as [[H1 H2] _]. split; [| left].
  apply H2. exists [known_baseline]. split; [reflexivity |]. split; [| left].
  constructor; [vm_compute; reflexivity | constructor].
Defined.
