(* ===== verification/Terminal.v ===== *)
(** * The PTY registry

    Model of [crates/terminal-provider/src/lib.rs].  The operating system's
    side of a session ([PlatformSession]) is the interface [PtyPlatform];
    [UnixPty] models the Unix implementation.  A session is shared
    ([Arc<Mutex<Session>>]): [heap] holds the sessions that were created, the
    map [sessions] the position of each one that is still registered, and an
    operation that has looked a session up keeps its position while the map
    changes.  No code panics while it holds a lock, so no lock is poisoned.

    The reader thread of a session is [reader_send], one step for each chunk it
    forwards; [drained] records the events taken from the queue. *)
From Stdlib Require Import NArith Lia.
From stdpp Require Import base strings gmap list option pretty.
From S2P Require Import Prelude Broker EventRouter.

(** ** Data *)

Definition MIN_COLS : N := 20.
Definition MAX_COLS : N := 500.
Definition MIN_ROWS : N := 5.
Definition MAX_ROWS : N := 300.
Definition MAX_WRITE_BYTES : N := 8192.
Definition PTY_QUEUE_CAPACITY : nat := 256.

Inductive PtyError :=
| InvalidShell | SpawnUnavailable | UnknownSession | InvalidGeometry | WriteTooLarge | Io
| StateUnavailable.

#[export] Instance PtyError_eq_dec : EqDecision PtyError.
Proof. solve_decision. Defined.

(** [impl Display for PtyError] *)
Definition pty_error_display (e : PtyError) : string :=
  match e with
  | InvalidShell => "shell selection is not supported"
  | SpawnUnavailable => "pseudo console or shell spawn failed"
  | UnknownSession => "unknown or closed PTY session"
  | InvalidGeometry => "geometry outside schema bounds"
  | WriteTooLarge => "write payload exceeds the schema bound"
  | Io => "PTY I/O failed"
  | StateUnavailable => "PTY registry state unavailable"
  end.

Record PtyReport := {
  rep_session_id : string;
  rep_state : string;
  rep_cols : N;
  rep_rows : N;
  rep_created_at : N;
  rep_last_activity : option N;
  rep_error : option string
}.

(** [platform.rs]: the shell of a name, and the calls on one pseudo terminal.
    [OS] is the state of the operating system, [P] a [PlatformSession]. *)
Class PtyPlatform (P OS : Type) := {
  resolve_shell : OS -> option string -> result PtyError string;
  spawn : string -> N -> N -> option string -> M OS PtyError P;
  platform_write : P -> string -> M OS PtyError unit;
  platform_resize : P -> N -> N -> M OS PtyError unit;
  terminate_io : P -> OS -> P * OS;
  close_read : P -> OS -> P * OS
}.

Section Model.
Context {P OS : Type} `{!PtyPlatform P OS} `{!Clock OS}.

(** [Session]; [reader] is the join handle, [reader_running] and [reader_seq]
    the thread behind it. *)
Record Session := {
  pty_id : string;
  cols : N;
  rows : N;
  created_at : N;
  last_activity : option N;
  closed : bool;
  pty_error : option string;
  reader : bool;
  reader_stop : bool;
  reader_running : bool;
  reader_seq : N;
  platform : P
}.

Record PtyRegistry := {
  next_id : N;
  sessions : gmap string nat;
  heap : list Session;
  queue : list OutputEvent;
  event_sink : bool;
  drained : list OutputEvent;
  os : OS
}.

(** [PtyRegistry::new] *)
Definition new_registry (o : OS) : PtyRegistry :=
  {| next_id := 1; sessions := ∅; heap := []; queue := []; event_sink := true; drained := [];
     os := o |}.

Definition set_next_id (n : N) (r : PtyRegistry) : PtyRegistry :=
  {| next_id := n; sessions := sessions r; heap := heap r; queue := queue r;
     event_sink := event_sink r; drained := drained r; os := os r |}.
Definition set_sessions (m : gmap string nat) (r : PtyRegistry) : PtyRegistry :=
  {| next_id := next_id r; sessions := m; heap := heap r; queue := queue r;
     event_sink := event_sink r; drained := drained r; os := os r |}.
Definition set_heap (h : list Session) (r : PtyRegistry) : PtyRegistry :=
  {| next_id := next_id r; sessions := sessions r; heap := h; queue := queue r;
     event_sink := event_sink r; drained := drained r; os := os r |}.
Definition set_os (o : OS) (r : PtyRegistry) : PtyRegistry :=
  {| next_id := next_id r; sessions := sessions r; heap := heap r; queue := queue r;
     event_sink := event_sink r; drained := drained r; os := o |}.
Definition set_queue (q d : list OutputEvent) (r : PtyRegistry) : PtyRegistry :=
  {| next_id := next_id r; sessions := sessions r; heap := heap r; queue := q;
     event_sink := event_sink r; drained := d; os := os r |}.
Definition set_event_sink (b : bool) (r : PtyRegistry) : PtyRegistry :=
  {| next_id := next_id r; sessions := sessions r; heap := heap r; queue := queue r;
     event_sink := b; drained := drained r; os := os r |}.

Definition set_geometry (c w : N) (s : Session) : Session :=
  {| pty_id := pty_id s; cols := c; rows := w; created_at := created_at s;
     last_activity := last_activity s; closed := closed s; pty_error := pty_error s;
     reader := reader s; reader_stop := reader_stop s; reader_running := reader_running s;
     reader_seq := reader_seq s; platform := platform s |}.
Definition set_activity (t : N) (s : Session) : Session :=
  {| pty_id := pty_id s; cols := cols s; rows := rows s; created_at := created_at s;
     last_activity := Some t; closed := closed s; pty_error := pty_error s;
     reader := reader s; reader_stop := reader_stop s; reader_running := reader_running s;
     reader_seq := reader_seq s; platform := platform s |}.
Definition set_reader (running : bool) (seq : N) (s : Session) : Session :=
  {| pty_id := pty_id s; cols := cols s; rows := rows s; created_at := created_at s;
     last_activity := last_activity s; closed := closed s; pty_error := pty_error s;
     reader := reader s; reader_stop := reader_stop s; reader_running := running;
     reader_seq := seq; platform := platform s |}.

Abbreviation Op A := (M PtyRegistry PtyError A).

(** [unix_ms] *)
Definition unix_ms : Op N := fun r =>
  let '(t, o) := clock_read (os r) in (Ok t, set_os o r).

(** A call on the platform. *)
Definition on_platform {A} (c : M OS PtyError A) : Op A := fun r =>
  let '(a, o) := c (os r) in (a, set_os o r).

(** [Session::report] *)
Definition report_of (s : Session) : PtyReport :=
  {| rep_session_id := pty_id s; rep_state := if closed s then "closed" else "running";
     rep_cols := cols s; rep_rows := rows s; rep_created_at := created_at s;
     rep_last_activity := last_activity s; rep_error := pty_error s |}.

(** [Session::terminate]: the stop flag, the platform's first phase, the join
    of the reader, the platform's second phase. *)
Definition terminate_session (s : Session) (o : OS) : Session * OS :=
  let '(p, o) := if closed s then (platform s, o) else terminate_io (platform s) o in
  let '(p, o) := close_read p o in
  ({| pty_id := pty_id s; cols := cols s; rows := rows s; created_at := created_at s;
      last_activity := last_activity s; closed := true; pty_error := pty_error s;
      reader := false; reader_stop := true; reader_running := false;
      reader_seq := reader_seq s; platform := p |}, o).

(** [!(MIN..=MAX).contains(&x)] of both sides. *)
Definition geometry_ok (c w : N) : bool :=
  ((MIN_COLS <=? c) && (c <=? MAX_COLS) && ((MIN_ROWS <=? w) && (w <=? MAX_ROWS)))%N.

Definition session_key (now n : N) : string := "pty-" +:+ pretty now +:+ "-" +:+ pretty n.

(** [self.next_id.fetch_add(1)] *)
Definition fetch_id : Op N := fun r => (Ok (next_id r), set_next_id (u64_add (next_id r) 1) r).

(** [Arc::new(Mutex::new(session))] and its registration. *)
Definition install (s : Session) : Op unit :=
  modify (fun r => set_sessions (<[pty_id s := length (heap r)]> (sessions r))
                     (set_heap (heap r ++ [s]) r)).

(** [PtyRegistry::create] *)
Definition create (shell : option string) (c w : N) (cwd : option string) : Op PtyReport :=
  throw_if (negb (geometry_ok c w)) InvalidGeometry;;
  o ← gets os;
  shell_path ← lift (resolve_shell o shell);
  t ← unix_ms;
  n ← fetch_id;
  let id := session_key t n in
  now ← unix_ms;
  sink ← gets event_sink;
  throw_if (negb sink) StateUnavailable;;
  p ← on_platform (map_err_m (fun _ => SpawnUnavailable) (spawn shell_path c w cwd));
  let s := {| pty_id := id; cols := c; rows := w; created_at := now; last_activity := None;
              closed := false; pty_error := None; reader := true; reader_stop := false;
              reader_running := true; reader_seq := 0; platform := p |} in
  install s;;
  mret (report_of s).

(** [PtyRegistry::session]: the shared session, by its position. *)
Definition session (id : string) : Op nat := fun r =>
  (ok_or UnknownSession (sessions r !! id), r).

(** The session under its lock. *)
Definition locked (a : nat) : Op Session := fun r => (ok_or StateUnavailable (heap r !! a), r).

Definition put (a : nat) (s : Session) : Op unit := modify (fun r => set_heap (<[a := s]> (heap r)) r).

(** What [write] does once it holds the session. *)
Definition write_locked (a : nat) (data : string) : Op unit :=
  s ← locked a;
  throw_if (closed s) UnknownSession;;
  on_platform (platform_write (platform s) data);;
  t ← unix_ms;
  put a (set_activity t s).

(** [PtyRegistry::write] *)
Definition write (id data : string) : Op unit :=
  throw_if (MAX_WRITE_BYTES <? N.of_nat (String.length data))%N WriteTooLarge;;
  a ← session id;
  write_locked a data.

(** What [resize] does once it holds the session. *)
Definition resize_locked (a : nat) (c w : N) : Op PtyReport :=
  s ← locked a;
  throw_if (closed s) UnknownSession;;
  on_platform (platform_resize (platform s) c w);;
  t ← unix_ms;
  let s := set_activity t (set_geometry c w s) in
  put a s;;
  mret (report_of s).

(** [PtyRegistry::resize] *)
Definition resize (id : string) (c w : N) : Op PtyReport :=
  throw_if (negb (geometry_ok c w)) InvalidGeometry;;
  a ← session id;
  resize_locked a c w.

(** [guard.terminate()] on a shared session. *)
Definition terminate_locked (a : nat) : Op unit :=
  s ← locked a;
  o ← gets os;
  let '(s, o) := terminate_session s o in
  put a s;;
  modify (set_os o).

(** The removal [close] makes under the map's lock. *)
Definition remove (id : string) : Op (option nat) := fun r =>
  (Ok (sessions r !! id), set_sessions (delete id (sessions r)) r).

(** [PtyRegistry::close] *)
Definition close (id : string) : Op unit :=
  removed ← remove id;
  match removed with
  | Some a => terminate_locked a
  | None => throw UnknownSession
  end.

(** [PtyRegistry::report] *)
Definition report (id : string) : Op PtyReport :=
  a ← session id;
  s ← locked a;
  mret (report_of s).

(** [PtyRegistry::list] *)
Definition list_reports (r : PtyRegistry) : list PtyReport :=
  omap (fun kv : string * nat => report_of <$> heap r !! kv.2) (map_to_list (sessions r)).

(** [PtyRegistry::try_next_event] and [recv_event_timeout]: the next event. *)
Definition next_event (r : PtyRegistry) : option OutputEvent * PtyRegistry :=
  match queue r with
  | e :: q => (Some e, set_queue q (drained r ++ [e]) r)
  | [] => (None, r)
  end.

(** [impl Drop for PtyRegistry] *)
Definition drop_registry : Op unit :=
  modify (set_event_sink false);;
  live ← gets (fun r => (map_to_list (sessions r)).*2);
  modify (set_sessions ∅);;
  for_each terminate_locked live.

(** The reader thread of a session forwards one chunk: it stops when it is told
    to, and for good when the queue does not take the event. *)
Definition reader_send (a : nat) (text : string) : Op unit :=
  s ← locked a;
  if negb (reader_running s) then mret tt
  else if reader_stop s then put a (set_reader false (reader_seq s) s)
  else
    let n := u64_add (reader_seq s) 1 in
    let e := {| out_session_id := pty_id s; seq := n; data := text |} in
    q ← gets queue;
    if (length q <? PTY_QUEUE_CAPACITY)%nat
    then put a (set_reader true n s);;
         modify (fun r => set_queue (queue r ++ [e]) (drained r) r)
    else put a (set_reader false n s).
End Model.

Arguments Session : clear implicits.
Arguments PtyRegistry : clear implicits.
