(* ===== verification/TerminalFacts.v ===== *)
(** * The PTY registry: invariant and output

    Histories of the registry under any interleaving of its callers: an
    operation that looked a session up runs its locked part at any later time,
    and a removed session is terminated some time after its removal. *)
From Stdlib Require Import NArith Lia.
From stdpp Require Import base strings gmap list option pretty.
From S2P Require Import Prelude Text Broker EventRouter Terminal.

(** ** Session ids *)

(** What precedes the first dash is determined when it holds digits only. *)
Lemma digits_dash_inj a b x y :
  Forall (fun c => 48 <= c <= 57)%N (txt a) -> Forall (fun c => 48 <= c <= 57)%N (txt b) ->
  (a +:+ "-" +:+ x = b +:+ "-" +:+ y)%string -> a = b /\ x = y.
Proof.
  revert b. induction a as [|c a IH]; intros [|d b] Ha Hb; cbn.
  - intros [= Heq]. by split.
  - intros [= <- _]. rewrite txt_cons in Hb. inv Hb. cbn in *. lia.
  - intros [= -> _]. rewrite txt_cons in Ha. inv Ha. cbn in *. lia.
  - rewrite txt_cons in Ha, Hb. inv Ha. inv Hb. intros [= -> Heq].
    destruct (IH b) as [-> ->]; done.
Qed.

Lemma session_key_inj t n t' n' : session_key t n = session_key t' n' -> n = n'.
Proof.
  unfold session_key. intros [= Heq]. apply digits_dash_inj in Heq as [_ Heq]; try apply pretty_digits.
  by apply (inj pretty) in Heq.
Qed.

Section Facts.
Context {P OS : Type} `{!PtyPlatform P OS} `{!Clock OS}.
Abbreviation Reg := (PtyRegistry P OS).
Abbreviation Sess := (Session P).

(** ** Histories *)

Inductive pty_op :=
| PCreate (shell : option string) (c w : N) (cwd : option string)
| PWrite (a : nat) (data : string)
| PResize (a : nat) (c w : N)
| PRemove (id : string)
| PTerminate (i : nat)
| PSend (a : nat) (text : string)
| PNext.

(** The registry and the sessions removed from it that are not terminated yet. *)
Record Hist := { reg : Reg; removed : list nat }.

Definition run_pty (h : Hist) (o : pty_op) : Hist :=
  match o with
  | PCreate shell c w cwd => {| reg := (create shell c w cwd (reg h)).2; removed := removed h |}
  | PWrite a d => {| reg := (write_locked a d (reg h)).2; removed := removed h |}
  | PResize a c w =>
      if geometry_ok c w
      then {| reg := (resize_locked a c w (reg h)).2; removed := removed h |} else h
  | PRemove id =>
      match remove id (reg h) with
      | (Ok (Some a), r) => {| reg := r; removed := removed h ++ [a] |}
      | (_, r) => {| reg := r; removed := removed h |}
      end
  | PTerminate i =>
      match removed h !! i with
      | Some a => {| reg := (terminate_locked a (reg h)).2; removed := delete i (removed h) |}
      | None => h
      end
  | PSend a t => {| reg := (reader_send a t (reg h)).2; removed := removed h |}
  | PNext => {| reg := (next_event (reg h)).2; removed := removed h |}
  end.

Definition run_ptys (o : OS) (os : list pty_op) : Hist :=
  foldl run_pty {| reg := new_registry o; removed := [] |} os.

Definition creates (os : list pty_op) : nat :=
  sum_list_with (fun o => if o is PCreate _ _ _ _ then 1 else 0) os.

(** ** Effects of the operations *)

(** The part of the registry that does not depend on the platform. *)
Definition same_table (r r' : Reg) : Prop :=
  sessions r' = sessions r /\ heap r' = heap r /\ queue r' = queue r /\ drained r' = drained r.

Definition fresh_session (k : string) (s : Sess) : Prop :=
  pty_id s = k /\ closed s = false /\ geometry_ok (cols s) (rows s) = true /\
  reader_running s = true /\ reader_stop s = false /\ reader_seq s = 0%N.

Lemma create_result shell c w cwd r :
  let '(res, r') := create shell c w cwd r in
  queue r' = queue r /\ drained r' = drained r /\
  (next_id r' = next_id r \/ next_id r' = u64_add (next_id r) 1) /\
  match res with
  | Err _ => sessions r' = sessions r /\ heap r' = heap r
  | Ok rep =>
      exists s t, heap r' = heap r ++ [s] /\ rep = report_of s /\
        fresh_session (session_key t (next_id r)) s /\
        next_id r' = u64_add (next_id r) 1 /\ sessions r' = <[pty_id s := length (heap r)]> (sessions r)
  end.
Proof.
  unfold create, fetch_id, unix_ms, on_platform, install, map_err_m.
  cbv [mbind M_bind throw_if gets lift modify mret M_ret].
  destruct (geometry_ok c w) eqn:Hg; cbn; [| by intuition].
  destruct (resolve_shell (os r) shell) as [path|]; [| cbn; by intuition].
  destruct (clock_read (os r)) as [t o1]. cbn.
  destruct (clock_read o1) as [now o2]. cbn.
  destruct (event_sink r); cbn; [| by intuition].
  destruct (spawn path c w cwd o2) as [[p|e] o3]; cbn; [| by intuition].
  split_and!; [done | done | by intuition |]. eexists _, t. unfold fresh_session. by split_and!.
Qed.

Lemma create_effect shell c w cwd r :
  let r' := (create shell c w cwd r).2 in
  queue r' = queue r /\ drained r' = drained r /\
  (next_id r' = next_id r \/ next_id r' = u64_add (next_id r) 1) /\
  (sessions r' = sessions r /\ heap r' = heap r \/
   exists s t, heap r' = heap r ++ [s] /\ fresh_session (session_key t (next_id r)) s /\
     next_id r' = u64_add (next_id r) 1 /\ sessions r' = <[pty_id s := length (heap r)]> (sessions r)).
Proof.
  pose proof (create_result shell c w cwd r) as H. destruct (create shell c w cwd r) as [[rep|e] r'];
    destruct H as (Hq & Hd & Hn & H); split_and!; try done; [right | by left].
  destruct H as (s & t & Hh & _ & Hf & Hn' & Hs). by exists s, t.
Qed.

(** An operation on one session replaces it, or does nothing to the table. *)
Definition touches (Q : Sess -> Sess -> Prop) (a : nat) (r r' : Reg) : Prop :=
  next_id r' = next_id r /\ sessions r' = sessions r /\
  (heap r' = heap r \/
   exists s s', heap r !! a = Some s /\ heap r' = <[a := s']> (heap r) /\ Q s s').

(** Writes and resizes keep the identity and the state of the session. *)
Definition same_life (s s' : Sess) : Prop :=
  pty_id s' = pty_id s /\ closed s' = closed s /\ reader_running s' = reader_running s /\
  reader_stop s' = reader_stop s /\ reader_seq s' = reader_seq s /\
  (geometry_ok (cols s) (rows s) = true -> geometry_ok (cols s') (rows s') = true).

Lemma write_effect a d r :
  let r' := (write_locked a d r).2 in
  queue r' = queue r /\ drained r' = drained r /\ touches same_life a r r'.
Proof.
  unfold write_locked, locked, put, on_platform, unix_ms, touches.
  cbv [mbind M_bind throw_if gets lift modify mret M_ret].
  destruct (heap r !! a) as [s|] eqn:Ha; cbn; [| by intuition].
  destruct (closed s) eqn:Hc; cbn; [by intuition |].
  destruct (platform_write (platform s) d (os r)) as [[[]|e] o1]; cbn; [| by intuition].
  destruct (clock_read o1) as [t o2]. cbn. split_and!; try done.
  right. eexists _, _. unfold same_life. by split_and!.
Qed.

Lemma resize_effect a c w r :
  geometry_ok c w = true ->
  let r' := (resize_locked a c w r).2 in
  queue r' = queue r /\ drained r' = drained r /\ touches same_life a r r'.
Proof.
  intros Hg. unfold resize_locked, locked, put, on_platform, unix_ms, touches.
  cbv [mbind M_bind throw_if gets lift modify mret M_ret].
  destruct (heap r !! a) as [s|] eqn:Ha; cbn; [| by intuition].
  destruct (closed s) eqn:Hc; cbn; [by intuition |].
  destruct (platform_resize (platform s) c w (os r)) as [[[]|e] o1]; cbn; [| by intuition].
  destruct (clock_read o1) as [t o2]. cbn. split_and!; try done.
  right. eexists _, _. unfold same_life. by split_and!.
Qed.

(** Termination closes the session and stops its reader. *)
Definition ended (s s' : Sess) : Prop :=
  pty_id s' = pty_id s /\ closed s' = true /\ reader_running s' = false /\
  reader_seq s' = reader_seq s /\
  (geometry_ok (cols s) (rows s) = true -> geometry_ok (cols s') (rows s') = true).

Lemma terminate_effect a s r :
  heap r !! a = Some s ->
  let r' := (terminate_locked a r).2 in
  next_id r' = next_id r /\ sessions r' = sessions r /\ queue r' = queue r /\
  drained r' = drained r /\ exists s', heap r' = <[a := s']> (heap r) /\ ended s s'.
Proof.
  intros Ha. unfold terminate_locked, locked, put, terminate_session.
  cbv [mbind M_bind throw_if gets lift modify mret M_ret]. rewrite Ha. cbn.
  destruct (if closed s then _ else _) as [p o1]. destruct (close_read p o1) as [p2 o2]. cbn.
  split_and!; try done. eexists. unfold ended. by split_and!.
Qed.

(** The reader's step: the fields of its thread, and at most one event. *)
Inductive sent (a : nat) (t : string) (r r' : Reg) : Prop :=
| sent_nothing s s' : heap r !! a = Some s -> heap r' = <[a := s']> (heap r) ->
    queue r' = queue r -> s' = set_reader false (reader_seq s') s ->
    (reader_seq s' <= reader_seq s + 1)%N -> sent a t r r'
| sent_event s : heap r !! a = Some s -> reader_running s = true -> reader_stop s = false ->
    heap r' = <[a := set_reader true (u64_add (reader_seq s) 1) s]> (heap r) ->
    queue r' = queue r ++ [{| out_session_id := pty_id s; seq := u64_add (reader_seq s) 1;
                              data := t |}] ->
    sent a t r r'
| sent_idle : heap r' = heap r -> queue r' = queue r -> sent a t r r'.

Lemma send_effect a t r :
  let r' := (reader_send a t r).2 in
  next_id r' = next_id r /\ sessions r' = sessions r /\ drained r' = drained r /\ sent a t r r'.
Proof.
  unfold reader_send, locked, put.
  cbv [mbind M_bind throw_if gets lift modify mret M_ret].
  destruct (heap r !! a) as [s|] eqn:Ha; cbn; [| split_and!; try done; by constructor 3].
  destruct (reader_running s) eqn:Hr; cbn; [| split_and!; try done; by constructor 3].
  destruct (reader_stop s) eqn:Hs; cbn.
  { split_and!; try done. eapply sent_nothing; [done.. | cbn; lia]. }
  case_match; cbn; split_and!; try done; [by eapply sent_event |].
  eapply sent_nothing; [done.. | apply u64_add_le].
Qed.
(** ** The invariant *)

(** The events of one session, oldest first. *)
Definition events_of (k : string) (r : Reg) : list OutputEvent :=
  filter (fun e => out_session_id e = k) (drained r ++ queue r).

Definition numbers (k : nat) : list N := N.of_nat <$> List.seq 1 k.

Record session_ok (r : Reg) (s : Sess) : Prop := {
  so_geometry : geometry_ok (cols s) (rows s) = true;
  so_running : reader_running s = true -> closed s = false /\ reader_stop s = false;
  so_number : exists n t, (n < next_id r)%N /\ pty_id s = session_key t n;
  so_output : exists k, EventRouter.seq <$> events_of (pty_id s) r = numbers k /\
                (reader_running s = true -> reader_seq s = N.of_nat k)
}.

Record pty_inv (h : Hist) : Prop := {
  pi_sessions : forall a s, heap (reg h) !! a = Some s -> session_ok (reg h) s;
  pi_unique : forall a b s t, heap (reg h) !! a = Some s -> heap (reg h) !! b = Some t ->
    pty_id s = pty_id t -> a = b;
  pi_registered : forall id a, sessions (reg h) !! id = Some a ->
    exists s, heap (reg h) !! a = Some s /\ pty_id s = id /\ closed s = false;
  pi_removed : forall a, a ∈ removed h -> exists s, heap (reg h) !! a = Some s /\
    closed s = false /\ sessions (reg h) !! pty_id s = None;
  pi_removed_once : NoDup (removed h);
  pi_open : forall a s, heap (reg h) !! a = Some s -> closed s = false ->
    sessions (reg h) !! pty_id s = Some a \/ a ∈ removed h;
  pi_events : forall e, e ∈ drained (reg h) ++ queue (reg h) ->
    exists a s, heap (reg h) !! a = Some s /\ pty_id s = out_session_id e
}.

Lemma lookup_cell (h : list Sess) a s s' b u :
  h !! a = Some s -> <[a := s']> h !! b = Some u ->
  (b = a /\ u = s') \/ (b <> a /\ h !! b = Some u).
Proof.
  intros Ha. destruct (decide (b = a)) as [->|Hne].
  - rewrite list_lookup_insert_eq by (by eapply lookup_lt_Some). intros [= <-]. auto.
  - rewrite list_lookup_insert_ne by done. auto.
Qed.

(** A session's replacement that keeps its identity and its life. *)
Lemma inv_cell h a s s' r' :
  pty_inv h -> heap (reg h) !! a = Some s ->
  heap r' = <[a := s']> (heap (reg h)) -> sessions r' = sessions (reg h) ->
  next_id r' = next_id (reg h) ->
  pty_id s' = pty_id s -> closed s' = closed s ->
  session_ok r' s' ->
  (forall b u, heap (reg h) !! b = Some u -> b <> a -> session_ok r' u) ->
  (forall e, e ∈ drained r' ++ queue r' -> e ∈ drained (reg h) ++ queue (reg h) \/
     out_session_id e = pty_id s) ->
  pty_inv {| reg := r'; removed := removed h |}.
Proof.
  intros [Hs Hu Hr Hm Hn Ho He] Ha Hh Hse Hnx Hid Hcl Hok Hoth Hev.
  assert (Hlen : (a < length (heap (reg h)))%nat) by (by eapply lookup_lt_Some).
  split; cbn; rewrite ?Hh, ?Hse.
  - intros b u [[-> ->] | [Hb Hl]]%(lookup_cell _ _ _ _ _ _ Ha); [done | by eapply Hoth].
  - intros b c u v [[-> ->] | [Hb Hl]]%(lookup_cell _ _ _ _ _ _ Ha)
      [[-> ->] | [Hc Hl']]%(lookup_cell _ _ _ _ _ _ Ha); rewrite ?Hid; try done; intros Heq; by eapply Hu.
  - intros id b Hb. destruct (Hr id b Hb) as (u & Hl & Hi & Hc).
    destruct (decide (b = a)) as [->|Hne]; [| by rewrite list_lookup_insert_ne; eauto].
    rewrite list_lookup_insert_eq by done. exists s'. simplify_eq. by rewrite Hid, Hcl.
  - intros b Hb. destruct (Hm b Hb) as (u & Hl & Hi & Hc).
    destruct (decide (b = a)) as [->|Hne]; [| by rewrite list_lookup_insert_ne; eauto].
    rewrite list_lookup_insert_eq by done. exists s'. simplify_eq. by rewrite Hid, Hcl.
  - done.
  - intros b u [[-> ->] | [Hb Hl]]%(lookup_cell _ _ _ _ _ _ Ha); [| by apply Ho].
    rewrite Hcl, Hid. by apply Ho.
  - intros e [Hin | Heq]%Hev.
    + destruct (He e Hin) as (b & u & Hl & Hi). destruct (decide (b = a)) as [->|Hne].
      * exists a, s'. rewrite list_lookup_insert_eq by done. split; [done |]. simplify_eq. by rewrite Hid.
      * exists b, u. by rewrite list_lookup_insert_ne.
    + exists a, s'. rewrite list_lookup_insert_eq by done. by rewrite Hid.
Qed.

Lemma session_ok_ext (r r' : Reg) s :
  events_of (pty_id s) r' = events_of (pty_id s) r -> (next_id r <= next_id r')%N ->
  session_ok r s -> session_ok r' s.
Proof.
  intros He Hn [Hg Hr (n & t & Hlt & Hk) (k & Hk1 & Hk2)]. split; [done.. | |].
  - exists n, t. split; [lia | done].
  - exists k. by rewrite He.
Qed.

Lemma session_ok_life (r : Reg) s s' : same_life s s' -> session_ok r s -> session_ok r s'.
Proof.
  intros (Hi & Hc & Hr & Hst & Hq & Hgeo) [Hg Hrun Hnum Hout].
  split; rewrite ?Hi, ?Hc, ?Hr, ?Hst, ?Hq; auto.
Qed.

Lemma events_of_ext k (r r' : Reg) :
  queue r' = queue r -> drained r' = drained r -> events_of k r' = events_of k r.
Proof. unfold events_of. by intros -> ->. Qed.

Lemma inv_touches h a r' :
  pty_inv h -> queue r' = queue (reg h) -> drained r' = drained (reg h) ->
  touches same_life a (reg h) r' -> pty_inv {| reg := r'; removed := removed h |}.
Proof.
  intros Hinv Hq Hd (Hn & Hs & [Hh | (s & s' & Ha & Hh & Hlife)]).
  - destruct Hinv as [Hs' Hu Hr Hm Hnd Ho He]. split; cbn; rewrite ?Hh, ?Hs, ?Hq, ?Hd; try done.
    intros b u Hb. eapply session_ok_ext; [by apply events_of_ext | by rewrite Hn | by eapply Hs'].
  - pose proof Hlife as (Hi & Hc & _).
    eapply inv_cell; try done.
    + eapply session_ok_life; [done |].
      eapply session_ok_ext; [by apply events_of_ext | by rewrite Hn | by eapply pi_sessions].
    + intros b u Hb _.
      eapply session_ok_ext; [by apply events_of_ext | by rewrite Hn | by eapply pi_sessions].
    + rewrite Hq, Hd. auto.
Qed.

Lemma events_of_fresh h k :
  pty_inv h -> (forall a s, heap (reg h) !! a = Some s -> pty_id s <> k) -> events_of k (reg h) = [].
Proof.
  intros Hinv Hk. destruct (events_of k (reg h)) as [|e l] eqn:E; [done |].
  assert (Hin : e ∈ events_of k (reg h)) by (rewrite E; by left).
  apply list_elem_of_filter in Hin as [Heq Hin].
  destruct (pi_events _ Hinv e Hin) as (a & s & Ha & Hid). destruct (Hk a s Ha). congruence.
Qed.

(** The id of a new session is that of no other session. *)
Lemma fresh_key h t a u :
  pty_inv h -> heap (reg h) !! a = Some u -> pty_id u <> session_key t (next_id (reg h)).
Proof.
  intros Hinv Ha Heq. destruct (pi_sessions _ Hinv a u Ha) as [_ _ (n & t' & Hlt & Hk) _].
  rewrite Hk in Heq. apply session_key_inj in Heq. lia.
Qed.

Lemma fresh_unregistered h t : pty_inv h -> sessions (reg h) !! session_key t (next_id (reg h)) = None.
Proof.
  intros Hinv. destruct (sessions (reg h) !! _) as [b|] eqn:E; [| done].
  destruct (pi_registered _ Hinv _ _ E) as (u & Hb & Hid & _). by destruct (fresh_key h t b u Hinv Hb).
Qed.

Lemma inv_create h shell c w cwd :
  pty_inv h -> (next_id (reg h) < U64_MAX)%N -> pty_inv (run_pty h (PCreate shell c w cwd)).
Proof.
  intros Hinv Hb. cbn [run_pty].
  destruct (create_effect shell c w cwd (reg h)) as (Hq & Hd & Hn & Heff).
  set (r' := (create shell c w cwd (reg h)).2) in *.
  assert (Hadd : u64_add (next_id (reg h)) 1 = (next_id (reg h) + 1)%N)
    by (unfold u64_add; rewrite N.mod_small; lia).
  assert (Hold : forall u, session_ok (reg h) u -> session_ok r' u).
  { intros u. apply session_ok_ext; [by apply events_of_ext | destruct Hn as [-> | ->]; lia]. }
  destruct Heff as [[Hs Hh] | (s & t & Hh & (Hi & Hc & Hg & Hr & Hst & Hsq) & Hn' & Hs)].
  - destruct Hinv as [Hs' Hu Hr Hm Hnd Ho He].
    split; cbn; rewrite ?Hh, ?Hs, ?Hq, ?Hd; try done. intros b u Hb'. eauto.
  - assert (Hfresh : forall a u, heap (reg h) !! a = Some u -> pty_id u <> pty_id s).
    { intros a u Ha. rewrite Hi. by eapply fresh_key. }
    pose proof (events_of_fresh h (pty_id s) Hinv Hfresh) as Hev.
    destruct Hinv as [Hs' Hu Hreg Hm Hnd Ho He].
    assert (Hsplit : forall b u, (heap (reg h) ++ [s]) !! b = Some u ->
              heap (reg h) !! b = Some u \/ (b = length (heap (reg h)) /\ u = s)).
    { intros b u. rewrite lookup_app_Some, list_lookup_singleton_Some.
      intros [? | (? & ? & ?)]; [auto | right; split; [lia | done]]. }
    split; cbn; rewrite ?Hh, ?Hs, ?Hq, ?Hd.
    + intros b u [Hb' | [-> ->]]%Hsplit; [by eapply Hold, Hs' |].
      split; [done | by rewrite Hc, Hst | exists (next_id (reg h)), t; split; [lia | done] |].
      exists 0%nat. rewrite (events_of_ext _ _ _ Hq Hd), Hev. by rewrite Hsq.
    + intros a b u v [Ha | [-> ->]]%Hsplit [Hb' | [-> ->]]%Hsplit; try done.
      * by eapply Hu.
      * intros Heq. by destruct (Hfresh a u).
      * intros Heq. by destruct (Hfresh b v).
    + intros id b. destruct (decide (id = pty_id s)) as [->|Hne].
      * rewrite lookup_insert_eq. intros [= <-]. exists s. by rewrite list_lookup_middle.
      * rewrite lookup_insert_ne by done. intros Hb'. destruct (Hreg id b Hb') as (u & Hl & ?).
        exists u. by rewrite (lookup_app_l_Some _ _ _ _ Hl).
    + intros b Hb'. destruct (Hm b Hb') as (u & Hl & Hcl & Hno). exists u.
      rewrite (lookup_app_l_Some _ _ _ _ Hl), lookup_insert_ne; [done |].
      intros Heq. by destruct (Hfresh b u).
    + done.
    + intros b u [Hb' | [-> ->]]%Hsplit Hcl; [| left; by rewrite lookup_insert_eq].
      rewrite lookup_insert_ne; [by apply Ho |]. intros Heq. by destruct (Hfresh b u).
    + intros e Hin. destruct (He e Hin) as (b & u & Hl & Hid). exists b, u.
      by rewrite (lookup_app_l_Some _ _ _ _ Hl).
Qed.

Lemma inv_remove h id : pty_inv h -> pty_inv (run_pty h (PRemove id)).
Proof.
  intros [Hs Hu Hr Hm Hnd Ho He]. cbn [run_pty remove].
  destruct (sessions (reg h) !! id) as [a|] eqn:E.
  - destruct (Hr id a E) as (s & Ha & Hid & Hc). split; cbn; try done.
    + intros b u Hb. by eapply session_ok_ext, Hs.
    + intros id' b [Hne Hb]%lookup_delete_Some. by apply Hr.
    + intros b. rewrite elem_of_app, list_elem_of_singleton. intros [Hb | ->].
      * destruct (Hm b Hb) as (u & Hl & Hcl & Hno). exists u. split_and!; [done.. |].
        by rewrite lookup_delete_None; right.
      * exists s. rewrite Hid. by rewrite lookup_delete_eq.
    + apply NoDup_app. split_and!; [done | | apply NoDup_singleton].
      intros b Hb ->%list_elem_of_singleton. destruct (Hm a Hb) as (u & Hl & Hcl & Hno).
      by simplify_eq.
    + intros b u Hb Hcl. destruct (Ho b u Hb Hcl) as [Hreg | Hin].
      * destruct (decide (pty_id u = id)) as [Heq|Hne]; [| left; by rewrite lookup_delete_ne].
        right. apply elem_of_app. right. apply list_elem_of_singleton. congruence.
      * right. apply elem_of_app. by left.
  - rewrite (delete_id _ _ E). split; try done. intros b u Hb. by eapply session_ok_ext, Hs.
Qed.

Lemma inv_terminate h i : pty_inv h -> pty_inv (run_pty h (PTerminate i)).
Proof.
  intros Hinv. cbn [run_pty]. destruct (removed h !! i) as [a|] eqn:Hi; [| done].
  destruct Hinv as [Hs Hu Hr Hm Hnd Ho He].
  destruct (Hm a) as (s & Ha & Hcl & Hno); [by eapply list_elem_of_lookup_2 |].
  destruct (terminate_effect a s (reg h) Ha) as (Hn & Hse & Hq & Hd & s' & Hh & Hid & Hc & Hrun & Hsq & Hgeo).
  set (r' := (terminate_locked a (reg h)).2) in *.
  assert (Hlen : (a < length (heap (reg h)))%nat) by (by eapply lookup_lt_Some).
  pose proof (delete_Permutation _ _ _ Hi) as Hperm.
  assert (Hnd' : NoDup (a :: delete i (removed h))) by (by rewrite <- Hperm).
  apply NoDup_cons in Hnd' as [Hnot Hnd'].
  assert (Hother : forall b, b ∈ delete i (removed h) -> b ∈ removed h /\ b <> a).
  { intros b Hb. split; [rewrite Hperm; by right | by intros ->]. }
  split; cbn; rewrite ?Hh, ?Hse, ?Hq, ?Hd.
  - intros b u Hb. eapply (session_ok_ext (reg h)); [by apply events_of_ext | by rewrite Hn |].
    apply (lookup_cell _ _ _ _ _ _ Ha) in Hb as [[-> ->] | [Hb Hl]]; [| by eapply Hs].
    destruct (Hs a s Ha) as [Hg _ Hnum (k & Hk & _)].
    split; rewrite ?Hid; [auto | by rewrite Hrun | done | exists k; by rewrite Hrun].
  - intros b c u v [[-> ->] | [Hb Hl]]%(lookup_cell _ _ _ _ _ _ Ha)
      [[-> ->] | [Hc' Hl']]%(lookup_cell _ _ _ _ _ _ Ha); rewrite ?Hid; try done; intros Heq; by eapply Hu.
  - intros id b Hb. destruct (Hr id b Hb) as (u & Hl & Hi' & Hcu).
    rewrite list_lookup_insert_ne; [by eauto |]. intros <-. simplify_eq.
  - intros b [Hb Hne]%Hother. destruct (Hm b Hb) as (u & ?). exists u.
    by rewrite list_lookup_insert_ne.
  - done.
  - intros b u [[-> ->] | [Hb Hl]]%(lookup_cell _ _ _ _ _ _ Ha) Hcu; [congruence |].
    destruct (Ho b u Hl Hcu) as [? | Hin]; [by left | right]. rewrite Hperm in Hin.
    by apply elem_of_cons in Hin as [-> | ?].
  - intros e (b & u & Hl & Hi')%He. destruct (decide (b = a)) as [->|Hne].
    + exists a, s'. rewrite list_lookup_insert_eq by done. split; [done |]. simplify_eq. by rewrite Hid.
    + exists b, u. by rewrite list_lookup_insert_ne.
Qed.

Lemma events_of_push k (r r' : Reg) e :
  drained r' = drained r -> queue r' = queue r ++ [e] ->
  events_of k r' = events_of k r ++ (if decide (out_session_id e = k) then [e] else []).
Proof.
  intros Hd Hq. unfold events_of. rewrite Hd, Hq, app_assoc, list.filter_app. f_equal.
Qed.

Lemma numbers_S k : numbers (S k) = numbers k ++ [N.of_nat (S k)].
Proof. unfold numbers. by rewrite seq_S, fmap_app. Qed.

Lemma inv_send h a t :
  pty_inv h -> (forall s, heap (reg h) !! a = Some s -> reader_seq s < U64_MAX)%N ->
  pty_inv (run_pty h (PSend a t)).
Proof.
  intros Hinv Hbound. cbn [run_pty].
  destruct (send_effect a t (reg h)) as (Hn & Hse & Hd & Hsent).
  set (r' := (reader_send a t (reg h)).2) in *.
  assert (Hold : forall u, queue r' = queue (reg h) -> session_ok (reg h) u -> session_ok r' u).
  { intros u Hq. apply session_ok_ext; [by apply events_of_ext | by rewrite Hn]. }
  destruct Hsent as [s s' Ha Hh Hq Hs' _ | s Ha Hrun Hst Hh Hq | Hh Hq].
  - eapply inv_cell; try done; [by rewrite Hs'.. | | | by rewrite Hq, Hd; auto].
    + apply Hold; [done |]. destruct (pi_sessions _ Hinv a s Ha) as [Hg _ Hnum (k & Hk & _)].
      rewrite Hs'. split; [done.. |]. by exists k.
    + intros b u Hb _. eapply Hold, pi_sessions; done.
  - specialize (Hbound s Ha).
    assert (Hadd : u64_add (reader_seq s) 1 = (reader_seq s + 1)%N)
      by (unfold u64_add; rewrite N.mod_small; lia).
    pose proof (fun k => events_of_push k _ _ _ Hd Hq) as Hev. cbn in Hev.
    eapply inv_cell; try done.
    + destruct (pi_sessions _ Hinv a s Ha) as [Hg Hr (n & t' & Hnum) (k & Hk & Hseq)].
      split; [done | by intros _; apply Hr | exists n, t'; by rewrite Hn |].
      exists (S k). cbn [pty_id set_reader]. rewrite Hev, decide_True, fmap_app, Hk, numbers_S by done.
      cbn. rewrite Hadd, Hseq by done. split; [do 2 f_equal; lia | lia].
    + intros b u Hb Hne. eapply (session_ok_ext (reg h)); [| by rewrite Hn | by eapply pi_sessions].
      rewrite Hev, decide_False, app_nil_r; [done |]. intros Heq. apply Hne. by eapply pi_unique.
    + intros e. rewrite Hq, Hd, app_assoc, elem_of_app, list_elem_of_singleton.
      intros [? | ->]; [by left | by right].
  - destruct Hinv as [Hs Hu Hr Hm Hnd Ho He]. split; cbn; rewrite ?Hh, ?Hse, ?Hq, ?Hd; try done.
    intros b u Hb. eapply Hold, Hs; done.
Qed.

Lemma inv_next h : pty_inv h -> pty_inv (run_pty h PNext).
Proof.
  intros Hinv. cbn [run_pty]. unfold next_event.
  destruct (queue (reg h)) as [|e q] eqn:Hq; cbn [snd]; [by destruct h |].
  destruct Hinv as [Hs Hu Hr Hm Hnd Ho He].
  assert (Hsame : (drained (reg h) ++ [e]) ++ q = drained (reg h) ++ queue (reg h))
    by (by rewrite Hq, <- app_assoc).
  split; cbn; rewrite ?Hsame; try done. intros b u Hb.
  eapply (session_ok_ext (reg h)); [| done | by eapply Hs]. unfold events_of. cbn. by rewrite Hsame.
Qed.

(** ** All histories *)

Definition sends (os : list pty_op) : nat :=
  sum_list_with (fun o => if o is PSend _ _ then 1 else 0) os.

(** The counters, while they do not wrap. *)
Definition counters (n m : nat) (h : Hist) : Prop :=
  (next_id (reg h) <= 1 + N.of_nat n)%N /\
  forall a s, heap (reg h) !! a = Some s -> (reader_seq s <= N.of_nat m)%N.

Lemma pty_counters_step n m h o :
  pty_inv h -> counters n m h ->
  counters (n + creates [o]) (m + sends [o]) (run_pty h o).
Proof.
  intros Hinv [Hn Hseq].
  assert (Hge : forall k a (s u : Sess), heap (reg h) !! a = Some s ->
            (reader_seq u <= reader_seq s + N.of_nat k)%N -> (reader_seq u <= N.of_nat (m + k))%N).
  { intros k a s u Ha Hle. specialize (Hseq a s Ha). lia. }
  assert (Hkeep : forall k a Q r', touches Q a (reg h) r' ->
            (forall s s', Q s s' -> reader_seq s' <= reader_seq s + N.of_nat k)%N ->
            next_id r' = next_id (reg h) /\
            forall b u, heap r' !! b = Some u -> (reader_seq u <= N.of_nat (m + k))%N).
  { intros k a Q r' (Hnx & _ & [Hh | (s & s' & Ha & Hh & HQ)]) Hq; (split; [done |]);
      intros b u; rewrite Hh; [intros Hb; eapply Hge; [done | lia] |].
    intros [[-> ->] | [_ Hl]]%(lookup_cell _ _ _ _ _ _ Ha); eapply Hge; try done; [by apply Hq | lia]. }
  assert (Hlife : forall s s' : Sess, same_life s s' -> (reader_seq s' <= reader_seq s + N.of_nat 0)%N)
    by (intros ?? (_ & _ & _ & _ & -> & _); lia).
  assert (Hidle : forall k, (next_id (reg h) <= 1 + N.of_nat (n + k))%N /\ forall l b u,
            heap (reg h) !! b = Some u -> (reader_seq u <= N.of_nat (m + l))%N).
  { intros k. split; [lia |]. intros l b u Hb. eapply Hge; [done | lia]. }
  unfold counters. destruct o as [shell c w cwd | a d | a c w | id | i | a t |]; cbn.
  - destruct (create_effect shell c w cwd (reg h)) as (_ & _ & Hnx & Heff). split.
    + destruct Hnx as [-> | ->]; [lia | pose proof (u64_add_le (next_id (reg h)) 1); lia].
    + intros b u. destruct Heff as [[_ ->] | (s & t & -> & (_ & _ & _ & _ & _ & Hs0) & _)];
        [by apply (Hidle 0%nat) |].
      rewrite lookup_app_Some, list_lookup_singleton_Some. intros [Hb | (_ & _ & <-)]; [| lia].
      by eapply (Hidle 0%nat).
  - destruct (write_effect a d (reg h)) as (_ & _ & Ht).
    destruct (Hkeep _ _ _ _ Ht Hlife) as [-> Hb]. split; [lia | done].
  - destruct (geometry_ok c w) eqn:Hg; [| split; [lia |]; apply (Hidle 0%nat)].
    destruct (resize_effect a c w (reg h) Hg) as (_ & _ & Ht). cbn.
    destruct (Hkeep _ _ _ _ Ht Hlife) as [-> Hb]. split; [lia | done].
  - destruct (sessions (reg h) !! id); cbn; (split; [lia |]); apply (Hidle 0%nat).
  - destruct (removed h !! i) as [a|] eqn:Hi; [| split; [lia |]; apply (Hidle 0%nat)].
    destruct (pi_removed _ Hinv a) as (s & Ha & _); [by eapply list_elem_of_lookup_2 |].
    destruct (terminate_effect a s (reg h) Ha) as (Hnx & Hse & _ & _ & s' & Hh & _ & _ & _ & Hs' & _).
    cbn [reg]. destruct (Hkeep 0%nat a (fun u v => reader_seq v = reader_seq u) (terminate_locked a (reg h)).2)
      as [-> Hb]; [split_and!; eauto 6 | intros ?? ->; lia |]. split; [lia | done].
  - destruct (send_effect a t (reg h)) as (Hnx & Hse & _ & Hsent).
    destruct (Hkeep 1%nat a (fun u v => reader_seq v <= reader_seq u + 1)%N (reader_send a t (reg h)).2)
      as [-> Hb]; [| done | split; [lia | done]]. split_and!; [done.. |].
    destruct Hsent as [s s' Ha Hh _ _ Hs' | s Ha _ _ Hh _ | Hh _]; [right; eauto 6 | | by left].
    right. eexists _, _. split_and!; [done.. | apply u64_add_le].
  - unfold next_event. destruct (queue (reg h)); cbn; (split; [lia |]); apply (Hidle 0%nat).
Qed.

Lemma pty_inv_step n m h o :
  pty_inv h -> counters n m h ->
  (N.of_nat (n + creates [o]) < U64_MAX)%N -> (N.of_nat (m + sends [o]) <= U64_MAX)%N ->
  pty_inv (run_pty h o).
Proof.
  intros Hinv [Hn Hseq] Hbn Hbm. destruct o as [shell c w cwd | a d | a c w | id | i | a t |].
  - apply inv_create; [done |]. cbn in Hbn. lia.
  - destruct (write_effect a d (reg h)) as (Hq & Hd & Ht). by eapply inv_touches.
  - cbn [run_pty]. destruct (geometry_ok c w) eqn:Hg; [| done].
    destruct (resize_effect a c w (reg h) Hg) as (Hq & Hd & Ht). by eapply inv_touches.
  - by apply inv_remove.
  - by apply inv_terminate.
  - apply inv_send; [done |]. intros s Ha. specialize (Hseq a s Ha). cbn in Hbm. lia.
  - by apply inv_next.
Qed.

Lemma run_ptys_snoc o os x : run_ptys o (os ++ [x]) = run_pty (run_ptys o os) x.
Proof. unfold run_ptys. by rewrite foldl_app. Qed.

Lemma run_ptys_inv o os :
  (N.of_nat (creates os) < U64_MAX)%N -> (N.of_nat (sends os) <= U64_MAX)%N ->
  pty_inv (run_ptys o os) /\ counters (creates os) (sends os) (run_ptys o os).
Proof.
  induction os as [|x os IH] using rev_ind.
  - intros _ _. split; [| split; cbn; [lia | done]].
    split; cbn; try done; [by intros a Ha%elem_of_nil | apply NoDup_nil_2 | by intros e He%elem_of_nil].
  - rewrite run_ptys_snoc. unfold creates, sends. rewrite !sum_list_with_app.
    intros Hn Hm. destruct IH as [Hinv Hc]; [unfold creates; lia | unfold sends; lia |].
    split; [by eapply pty_inv_step | by apply pty_counters_step].
Qed.

(** A closed session is never touched again. *)
Lemma closed_step h o a s :
  pty_inv h -> heap (reg h) !! a = Some s -> closed s = true ->
  heap (reg (run_pty h o)) !! a = Some s.
Proof.
  intros Hinv Ha Hc. pose proof (lookup_lt_Some _ _ _ Ha) as Hlen.
  destruct (pi_sessions _ Hinv a s Ha) as [_ Hrun _ _].
  assert (Hstop : reader_running s = false).
  { destruct (reader_running s); [| done]. destruct Hrun as [? _]; [done |]. congruence. }
  destruct o as [shell c w cwd | b d | b c w | id | i | b t |]; cbn [run_pty].
  - destruct (create_effect shell c w cwd (reg h)) as (_ & _ & _ & [[_ Hh] | (u & t & Hh & _)]);
      cbn [reg]; rewrite Hh; [done | by apply lookup_app_l_Some].
  - unfold write_locked, locked, on_platform, put, unix_ms. cbv [mbind M_bind throw_if modify].
    destruct (heap (reg h) !! b) as [u|] eqn:Hb; [| done]. cbn.
    destruct (closed u) eqn:Hcu; [done |].
    destruct (platform_write _ _ _) as [[[]|] o1]; [| done]. cbn.
    destruct (clock_read o1). cbn. rewrite list_lookup_insert_ne; [done |]. intros ->. congruence.
  - destruct (geometry_ok c w); [| done].
    unfold resize_locked, locked, on_platform, put, unix_ms. cbv [mbind M_bind throw_if modify].
    destruct (heap (reg h) !! b) as [u|] eqn:Hb; [| done]. cbn.
    destruct (closed u) eqn:Hcu; [done |].
    destruct (platform_resize _ _ _ _) as [[[]|] o1]; [| done]. cbn.
    destruct (clock_read o1). cbn. rewrite list_lookup_insert_ne; [done |]. intros ->. congruence.
  - cbn. by destruct (sessions (reg h) !! id).
  - destruct (removed h !! i) as [b|] eqn:Hi; [| done].
    destruct (pi_removed _ Hinv b) as (u & Hb & Hcu & _); [by eapply list_elem_of_lookup_2 |].
    destruct (terminate_effect b u (reg h) Hb) as (_ & _ & _ & _ & u' & Hh & _).
    cbn [reg]. rewrite Hh, list_lookup_insert_ne; [done |]. intros ->. congruence.
  - destruct (decide (b = a)) as [->|Hne].
    + unfold reader_send, locked. cbv [mbind M_bind]. rewrite Ha. cbn. by rewrite Hstop.
    + destruct (send_effect b t (reg h)) as (_ & _ & _ & Hsent). cbn [reg].
      destruct Hsent as [u u' _ Hh _ _ _ | u _ _ _ Hh _ | Hh _]; rewrite Hh; try done;
        by rewrite list_lookup_insert_ne.
  - unfold next_event. by destruct (queue (reg h)).
Qed.

Lemma closed_forever o os os' a s :
  (N.of_nat (creates (os ++ os')) < U64_MAX)%N -> (N.of_nat (sends (os ++ os')) <= U64_MAX)%N ->
  heap (reg (run_ptys o os)) !! a = Some s -> closed s = true ->
  heap (reg (run_ptys o (os ++ os'))) !! a = Some s.
Proof.
  induction os' as [|x os' IH] using rev_ind; [by rewrite app_nil_r |].
  rewrite app_assoc, run_ptys_snoc. unfold creates, sends. rewrite !(sum_list_with_app _ (os ++ os') [x]).
  intros Hn Hm Ha Hc. apply closed_step; [| apply IH; unfold creates, sends; try done; lia | done].
  apply run_ptys_inv; unfold creates, sends; lia.
Qed.

(** Over any interleaving of the registry's callers, while fewer than
    2^64 - 1 sessions are created: a registered session is open, is stored under
    its own id and has a geometry within the schema's bounds; ids are never
    reused; a session that is not closed is registered or on its way to be
    terminated, so none is lost; and a session that was closed is never written
    to or resized again, even by a caller that looked it up before. *)
Theorem pty_sessions_accounted (o : OS) (os os' : list pty_op) :
  (N.of_nat (creates (os ++ os')) < U64_MAX)%N -> (N.of_nat (sends (os ++ os')) <= U64_MAX)%N ->
  let h := run_ptys o os in let h' := run_ptys o (os ++ os') in
  (forall id a, sessions (reg h) !! id = Some a ->
     exists s, heap (reg h) !! a = Some s /\ pty_id s = id /\ closed s = false /\
       (MIN_COLS <= cols s <= MAX_COLS)%N /\ (MIN_ROWS <= rows s <= MAX_ROWS)%N) /\
  (forall a b s t, heap (reg h) !! a = Some s -> heap (reg h) !! b = Some t ->
     pty_id s = pty_id t -> a = b) /\
  (forall a s, heap (reg h) !! a = Some s -> closed s = false ->
     sessions (reg h) !! pty_id s = Some a \/ a ∈ removed h) /\
  (forall a s, heap (reg h) !! a = Some s -> closed s = true ->
     heap (reg h') !! a = Some s /\
     (forall d, write_locked a d (reg h') = (Err UnknownSession, reg h')) /\
     (forall c w, resize_locked a c w (reg h') = (Err UnknownSession, reg h'))).
Proof.
  intros Hn Hm. cbn zeta. destruct (run_ptys_inv o os) as [Hinv _].
  { unfold creates in *. rewrite sum_list_with_app in Hn. lia. }
  { unfold sends in *. rewrite sum_list_with_app in Hm. lia. }
  split_and!.
  - intros id a Ha. destruct (pi_registered _ Hinv id a Ha) as (s & Hs & Hid & Hc). exists s.
    destruct (pi_sessions _ Hinv a s Hs) as [Hg _ _ _]. unfold geometry_ok in Hg.
    rewrite !andb_true_iff, !N.leb_le in Hg. by destruct Hg as [[? ?] [? ?]].
  - apply Hinv.
  - apply Hinv.
  - intros a s Ha Hc. pose proof (closed_forever o os os' a s Hn Hm Ha Hc) as Ha'. split; [done |].
    unfold write_locked, resize_locked, locked. cbv [mbind M_bind]. rewrite Ha'. cbn. by rewrite Hc.
Qed.

(** C27.  The output of a session reaches the queue without a gap: what was taken
    from the queue and what is still in it carries, for each session, the
    sequence numbers 1, 2, ..., k in order, whatever the readers, the drain and
    the other operations do; and while the reader runs, k is its counter.  A
    reader that finds the queue full ends, it does not skip. *)
Theorem pty_output_gapless (o : OS) (os : list pty_op) a s :
  (N.of_nat (creates os) < U64_MAX)%N -> (N.of_nat (sends os) <= U64_MAX)%N ->
  let r := reg (run_ptys o os) in
  heap r !! a = Some s ->
  exists k, EventRouter.seq <$> filter (fun e => out_session_id e = pty_id s) (drained r ++ queue r)
            = N.of_nat <$> List.seq 1 k /\
    (reader_running s = true -> reader_seq s = N.of_nat k).
Proof.
  intros Hn Hm r Ha. destruct (run_ptys_inv o os Hn Hm) as [Hinv _].
  destruct (pi_sessions _ Hinv a s Ha) as [_ _ _ Hout]. exact Hout.
Qed.
End Facts.

(** ** A platform that always succeeds *)

Module Loopback.
(** The state counts the calls; it is its own clock. *)
#[export] Instance platform : PtyPlatform nat N := {|
  resolve_shell := fun _ _ => Ok "sh"%string;
  spawn := fun _ _ _ _ o => (Ok 7%nat, (o + 1)%N);
  platform_write := fun _ _ o => (Ok tt, (o + 1)%N);
  platform_resize := fun _ _ _ o => (Ok tt, (o + 1)%N);
  terminate_io := fun p o => (p, (o + 1)%N);
  close_read := fun p o => (p, (o + 1)%N)
|}.

Definition demo : list pty_op :=
  [PCreate None 80 24 None; PSend 0 "a"; PSend 0 "b"; PNext;
   PRemove "pty-5-1"; PWrite 0 "late"; PTerminate 0].

Definition demo_session : Session nat :=
  {| pty_id := "pty-5-1"; cols := 80; rows := 24; created_at := 5; last_activity := Some 7%N;
     closed := true; pty_error := None; reader := false; reader_stop := true;
     reader_running := false; reader_seq := 2; Terminal.platform := 7%nat |}.

Lemma pty_sessions_accounted_witness :
  heap (reg (run_ptys (5%N : N) (demo ++ [PWrite 0 "x"]))) !! 0%nat = Some demo_session.
Proof.
  destruct (pty_sessions_accounted (5%N : N) demo [PWrite 0 "x"]) as (_ & _ & _ & H).
  - vm_compute. reflexivity.
  - vm_compute. discriminate.
  - apply (H 0%nat demo_session); vm_compute; reflexivity.
Defined.

Lemma pty_output_gapless_witness :
  exists k, EventRouter.seq <$> filter (fun e => out_session_id e = "pty-5-1"%string)
              (drained (reg (run_ptys (5%N : N) demo)) ++ queue (reg (run_ptys (5%N : N) demo)))
            = N.of_nat <$> List.seq 1 k.
Proof.
  destruct (pty_output_gapless (5%N : N) demo 0%nat demo_session) as (k & H & _).
  - vm_compute. reflexivity.
  - vm_compute. discriminate.
  - vm_compute. reflexivity.
  - exists k. exact H.
Defined.
End Loopback.
