(* ===== verification/UnixPty.v ===== *)
(** * The Unix pseudo terminal

    Model of [crates/terminal-provider/src/platform_unix.rs], with
    [resolve_shell], [write] and [resize] of [platform_windows.rs].  The kernel's answers are
    arguments: one [SpawnEnv] for a spawn, one list of answers for each loop,
    which returns [None] when the list ends before the loop does.  Times are
    milliseconds on the monotonic clock.  The child's side of [fork] is not part
    of this process and is not modelled. *)
From Stdlib Require Import NArith ZArith Lia Strings.Byte Ascii.
From stdpp Require Import base strings gmap list option.
From S2P Require Import Prelude Text Broker EventRouter Terminal.

(** ** Shells *)

(** [default_shell], from the value of [$SHELL]. *)
Definition unix_default_shell (shell_var : option string) : string := default "/bin/sh"%string shell_var.

(** [resolve_shell] of the Unix platform *)
Definition unix_resolve_shell (shell_var shell : option string) : result PtyError string :=
  let s := default "default"%string shell in
  if bool_decide (s = "default" \/ s = "sh")%string then Ok (unix_default_shell shell_var)
  else if bool_decide (s = "bash")%string then Ok "bash"%string
  else if bool_decide (s = "zsh")%string then Ok "zsh"%string
  else if bool_decide (s = "powershell" \/ s = "pwsh")%string then Ok "pwsh"%string
  else Err InvalidShell.

(** [resolve_shell] of the Windows platform, from the value of [%COMSPEC%]. *)
Definition windows_resolve_shell (comspec shell : option string) : result PtyError string :=
  let s := default "default"%string shell in
  if bool_decide (s = "default" \/ s = "cmd")%string then Ok (default "cmd.exe"%string comspec)
  else if bool_decide (s = "powershell" \/ s = "pwsh")%string then Ok "powershell.exe"%string
  else Err InvalidShell.

(** ** Spawning *)

(** What the kernel answers: a descriptor, success, the child's pid. *)
Record SpawnEnv := {
  posix_openpt : option Z;
  grantpt : bool;
  unlockpt : bool;
  ptsname : bool;
  open_slave : option Z;
  fork : option Z
}.

Record PlatformSession := { master_fd : Z; child : Z }.

(** [openpty_pair]; the state is the set of this process's open descriptors. *)
Definition openpty_pair (e : SpawnEnv) : M (gset Z) unit (Z * Z) := fun fds =>
  match posix_openpt e with
  | None => (Err tt, fds)
  | Some master =>
      let fds := {[master]} ∪ fds in
      if negb (grantpt e) then (Err tt, fds ∖ {[master]})
      else if negb (unlockpt e) then (Err tt, fds ∖ {[master]})
      else if negb (ptsname e) then (Err tt, fds ∖ {[master]})
      else
        match open_slave e with
        | None => (Err tt, fds ∖ {[master]})
        | Some slave => (Ok (master, slave), {[slave]} ∪ fds)
        end
  end.

(** [CString::new] refuses an interior NUL. *)
Definition has_nul (s : string) : bool :=
  existsb (Ascii.eqb (ascii_of_nat 0)) (String.list_ascii_of_string s).

(** [PlatformSession::spawn] *)
Definition spawn (e : SpawnEnv) (shell_path : string) (cwd : option string) :
    M (gset Z) PtyError PlatformSession := fun fds =>
  match openpty_pair e fds with
  | (Err _, fds) => (Err SpawnUnavailable, fds)
  | (Ok (master, slave), fds) =>
      if has_nul shell_path then (Err InvalidShell, fds)
      else if match cwd with Some dir => has_nul dir | None => false end then (Err InvalidShell, fds)
      else
        match fork e with
        | None => (Err SpawnUnavailable, fds ∖ {[master]} ∖ {[slave]})
        | Some pid => (Ok {| master_fd := master; child := pid |}, fds ∖ {[slave]})
        end
  end.

(** ** Writing *)

Definition WRITE_DEADLINE_MS : N := 5000.

Inductive WriteRet := Wrote (n : nat) | WouldBlock (now : N) | Interrupted | WriteFailed.

(** The loop of [PlatformSession::write]: the result, and the bytes the kernel
    took. *)
Fixpoint write_loop (deadline : N) (rest : list byte) (os : list WriteRet) :
    option (result PtyError unit * list byte) :=
  match rest with
  | [] => Some (Ok tt, [])
  | _ =>
      match os with
      | [] => None
      | Wrote n :: os =>
          '(r, taken) ← write_loop deadline (drop n rest) os; Some (r, take n rest ++ taken)
      | WouldBlock now :: os =>
          if (deadline <=? now)%N then Some (Err Io, []) else write_loop deadline rest os
      | Interrupted :: os => write_loop deadline rest os
      | WriteFailed :: _ => Some (Err Io, [])
      end
  end.

(** [PlatformSession::write], begun at [start]. *)
Definition unix_write (start : N) (data : list byte) (os : list WriteRet) :
    option (result PtyError unit * list byte) :=
  if (MAX_WRITE_BYTES <? N.of_nat (length data))%N then Some (Err WriteTooLarge, [])
  else write_loop (start + WRITE_DEADLINE_MS) data os.

(** [PlatformSession::resize]: the answer of [set_winsize] is not looked at. *)
Definition unix_resize : result PtyError unit := Ok tt.

(** [PlatformSession::write] of the Windows platform: whether the write handle is
    there, and what [WriteFile] answers, success and the bytes written. *)
Definition windows_write (write_handle : bool) (data : list byte) (ok : bool) (written : N) : result PtyError unit :=
  if (MAX_WRITE_BYTES <? N.of_nat (length data))%N then Err WriteTooLarge
  else if negb write_handle then Err StateUnavailable
  else if negb ok || negb (written =? N.of_nat (length data))%N then Err Io
  else Ok tt.

(** [PlatformSession::resize] of the Windows platform: what
    [ResizePseudoConsole] answers. *)
Definition windows_resize (ok : bool) : result PtyError unit := if negb ok then Err Io else Ok tt.

(** ** Reading *)

Inductive ReadRet :=
| PollFailed | PollTimeout | NotReady | ReadWouldBlock | ReadFailed | Eof | Chunk (bytes : list byte).

(** [String::from_utf8_lossy(chunk).into_owned()], as the bytes of the text. *)
Definition lossy (chunk : list byte) : list byte := utf8_encode (from_utf8_lossy chunk).

(** The reader's loop: the texts it sends, in order.  An answer carries the stop
    flag as the loop read it, and whether the queue takes the event. *)
Fixpoint reader_loop (os : list (bool * ReadRet * bool)) : list (list byte) :=
  match os with
  | [] => []
  | (stop, ret, room) :: os =>
      if (stop : bool) then []
      else
        match ret with
        | PollFailed | ReadFailed | Eof => []
        | PollTimeout | NotReady | ReadWouldBlock => reader_loop os
        | Chunk bytes => if (room : bool) then lossy bytes :: reader_loop os else []
        end
  end.

(** ** Teardown *)

(** One [waitpid(WNOHANG)] poll: whether it reaped the child, and the clock. *)
Record Poll := { reaped : bool; polled_at : N }.

(** A bounded wait: whether the child was reaped, and the polls left. *)
Fixpoint reap_until (deadline : N) (ps : list Poll) : option (bool * list Poll) :=
  match ps with
  | [] => None
  | p :: ps =>
      if reaped p then Some (true, ps)
      else if (deadline <=? polled_at p)%N then Some (false, ps)
      else reap_until deadline ps
  end.

Inductive Signal := SIGTERM | SIGKILL.

(** [PlatformSession::terminate_io] from the clock [start]; [kill_at] is the
    clock when the second wait begins, [ps] and [qs] the polls of the two waits.
    The signals sent are returned too. *)
Definition unix_terminate_io (start kill_at : N) (ps qs : list Poll) (s : PlatformSession) :
    option (PlatformSession * list Signal) :=
  if (child s <=? 0)%Z then Some (s, [])
  else
    let s' := {| master_fd := master_fd s; child := (-1)%Z |} in
    '(gone, _) ← reap_until (start + 500) ps;
    if (gone : bool) then Some (s', [SIGTERM])
    else
      _ ← reap_until (kill_at + 200) qs;
      Some (s', [SIGTERM; SIGKILL]).

(** [PlatformSession::close_read] *)
Definition unix_close_read (s : PlatformSession) (fds : gset Z) : PlatformSession * gset Z :=
  if (0 <=? master_fd s)%Z
  then ({| master_fd := (-1)%Z; child := child s |}, fds ∖ {[master_fd s]})
  else (s, fds).

(** ** The two threads of a teardown

    [Session::terminate] (in [lib.rs]) and the reader thread, step by step. *)

Inductive CloserPhase := SetStop | TerminateIo | JoinReader | CloseRead | Returned.
Inductive ReaderPhase := CheckStop | Polling | Reading | Sending | Exited.

Record Teardown := {
  closer : CloserPhase; reader : ReaderPhase; stop : bool; read_side_open : bool
}.

(** A step of one of the threads; the reader's depends on the kernel's answer. *)
Inductive Move := Closer | Reader (ret : ReadRet) (room : bool).

Definition closer_step (t : Teardown) : Teardown :=
  match closer t with
  | SetStop => {| closer := TerminateIo; reader := reader t; stop := true;
                  read_side_open := read_side_open t |}
  | TerminateIo => {| closer := JoinReader; reader := reader t; stop := stop t;
                      read_side_open := read_side_open t |}
  | JoinReader =>
      if reader t is Exited
      then {| closer := CloseRead; reader := reader t; stop := stop t;
              read_side_open := read_side_open t |}
      else t
  | CloseRead => {| closer := Returned; reader := reader t; stop := stop t;
                    read_side_open := false |}
  | Returned => t
  end.

Definition reader_phase (ret : ReadRet) (room : bool) (t : Teardown) : ReaderPhase :=
  match reader t with
  | CheckStop => if stop t then Exited else Polling
  | Polling =>
      match ret with
      | PollFailed => Exited
      | PollTimeout | NotReady => CheckStop
      | _ => Reading
      end
  | Reading =>
      match ret with
      | ReadFailed | Eof => Exited
      | Chunk _ => Sending
      | _ => CheckStop
      end
  | Sending => if room then CheckStop else Exited
  | Exited => Exited
  end.

Definition move (t : Teardown) (m : Move) : Teardown :=
  match m with
  | Closer => closer_step t
  | Reader ret room => {| closer := closer t; reader := reader_phase ret room t; stop := stop t;
                          read_side_open := read_side_open t |}
  end.

(** The state after [n] moves of a schedule. *)
Fixpoint run_moves (sigma : nat -> Move) (n : nat) (t : Teardown) : Teardown :=
  match n with O => t | S n => move (run_moves sigma n t) (sigma n) end.

Definition is_closer (m : Move) : bool := if m is Closer then true else false.

(** Neither thread is starved. *)
Definition fair (sigma : nat -> Move) : Prop :=
  forall (b : bool) n, exists m, n <= m /\ is_closer (sigma m) = b.

(** ** Descriptors *)

(** A kernel that answers with descriptors that were not open. *)
Definition fresh_fds (e : SpawnEnv) (fds : gset Z) : Prop :=
  (forall m, posix_openpt e = Some m -> (m ∉ fds)) /\
  (forall s, open_slave e = Some s -> (s ∉ fds) /\ posix_openpt e <> Some s).

Lemma openpty_descriptors e fds :
  fresh_fds e fds ->
  match openpty_pair e fds with
  | (Ok (m, s), fds') => posix_openpt e = Some m /\ open_slave e = Some s /\ m <> s /\
                         (m ∉ fds) /\ (s ∉ fds) /\ fds' = {[s]} ∪ ({[m]} ∪ fds)
  | (Err _, fds') => fds' = fds
  end.
Proof.
  intros [Hm Hs]. unfold openpty_pair. destruct (posix_openpt e) as [m|]; [| done].
  specialize (Hm m eq_refl). assert (Hback : ({[m]} ∪ fds) ∖ {[m]} = fds) by set_solver.
  destruct (grantpt e), (unlockpt e), (ptsname e); cbn; try exact Hback.
  destruct (open_slave e) as [s|]; [| exact Hback]. destruct (Hs s eq_refl) as [Hns Hne].
  split_and!; try done. congruence.
Qed.

(** The descriptors a spawn leaves open: with a session, its master and
    nothing else; with [SpawnUnavailable], none; but a shell path or a working
    directory with an interior NUL is refused with the master and the slave both
    left open, although the documentation says that every acquired descriptor is
    released on the error path. *)
Theorem spawn_descriptors (e : SpawnEnv) (shell : string) (cwd : option string) (fds : gset Z) :
  fresh_fds e fds ->
  match spawn e shell cwd fds with
  | (Ok s, fds') => fds' = {[master_fd s]} ∪ fds /\ (master_fd s ∉ fds)
  | (Err InvalidShell, fds') => exists m s, m <> s /\ (m ∉ fds) /\ (s ∉ fds) /\ fds' = {[m; s]} ∪ fds
  | (Err _, fds') => fds' = fds
  end.
Proof.
  intros Hf. pose proof (openpty_descriptors e fds Hf) as H. unfold spawn.
  destruct (openpty_pair e fds) as [[[m s]|u] fds']; [| done].
  destruct H as (_ & _ & Hne & Hm & Hs & ->).
  assert (Hleak : exists m0 s0, m0 <> s0 /\ (m0 ∉ fds) /\ (s0 ∉ fds) /\
            {[s]} ∪ ({[m]} ∪ fds) = {[m0; s0]} ∪ fds).
  { exists m, s. split_and!; try done. set_solver. }
  destruct (has_nul shell); [exact Hleak |].
  destruct (match cwd with Some dir => has_nul dir | None => false end); [exact Hleak |].
  destruct (fork e) as [pid|]; cbn; set_solver.
Qed.

Definition nul_cwd : string := String.String (ascii_of_nat 0) String.EmptyString.
Definition quiet_env : SpawnEnv :=
  {| posix_openpt := Some 5%Z; grantpt := true; unlockpt := true; ptsname := true;
     open_slave := Some 6%Z; fork := Some 100%Z |}.

Lemma spawn_descriptors_witness :
  fresh_fds quiet_env {[0%Z; 1%Z; 2%Z]} /\
  exists m s, m <> s /\ (spawn quiet_env "sh" (Some nul_cwd) {[0%Z; 1%Z; 2%Z]}).2
              = {[m; s]} ∪ {[0%Z; 1%Z; 2%Z]}.
Proof.
  assert (Hf : fresh_fds quiet_env {[0%Z; 1%Z; 2%Z]}).
  { split; [intros m [= <-]; set_solver | intros s [= <-]; split; [set_solver | done]]. }
  split; [exact Hf |].
  pose proof (spawn_descriptors quiet_env "sh" (Some nul_cwd) {[0%Z; 1%Z; 2%Z]} Hf) as H.
  destruct H as (m & s & Hne & _ & _ & H). exists m, s. split; [exact Hne | exact H].
Defined.

(** ** Writes *)

(** The kernel takes at least one byte when it takes any; the loop sleeps 5 ms
    after each refusal, so the [i]-th one is at least [5 * i] ms after the start. *)
Fixpoint kernel_ok (start : N) (i : N) (os : list WriteRet) : Prop :=
  match os with
  | [] => True
  | Wrote n :: os => 1 <= n /\ kernel_ok start i os
  | WouldBlock now :: os => (start + 5 * i <= now)%N /\ kernel_ok start (i + 1) os
  | _ :: os => kernel_ok start i os
  end.

Definition interruptions (os : list WriteRet) : nat :=
  sum_list_with (fun r => if r is Interrupted then 1 else 0) os.

Lemma write_loop_total start i rest os :
  kernel_ok start i os -> (i <= 1000)%N ->
  length rest + interruptions os + 1001 <= length os + N.to_nat i ->
  is_Some (write_loop (start + WRITE_DEADLINE_MS) rest os).
Proof.
  revert i rest. induction os as [|o os IH]; intros i [|b rest] Hk Hi Hlen; cbn [write_loop]; try by eauto.
  { cbn in Hlen. lia. }
  destruct o as [n | now | |]; cbn [kernel_ok interruptions sum_list_with length] in *.
  - destruct Hk as [Hn Hk]. destruct (IH i (drop n (b :: rest)) Hk Hi) as [[r t] ->]; [| by cbn; eauto].
    rewrite length_drop. cbn [length]. unfold interruptions in *. lia.
  - destruct Hk as [Hnow Hk]. destruct (N.leb_spec (start + WRITE_DEADLINE_MS) now); [eauto |].
    unfold WRITE_DEADLINE_MS in *. apply (IH (i + 1)%N); [done | lia |]. unfold interruptions in *. cbn in *. lia.
  - apply (IH i); [done | done |]. unfold interruptions in *. cbn in *. lia.
  - eauto.
Qed.

Lemma write_loop_delivers deadline rest os r taken :
  write_loop deadline rest os = Some (r, taken) ->
  match r with Ok _ => taken = rest | Err e => e = Io /\ taken `prefix_of` rest end.
Proof.
  revert rest taken. induction os as [|o os IH]; intros [|b rest] taken; cbn [write_loop];
    try (by intros [= <- <-]); try done.
  destruct o as [n | now | |].
  - destruct (write_loop deadline (drop n (b :: rest)) os) as [[r' t']|] eqn:E; [| done].
    cbn. intros [= <- <-]. specialize (IH _ _ E). destruct r' as [u|e].
    + by rewrite IH, take_drop.
    + destruct IH as [-> [k Hk]]. split; [done |]. exists k. by rewrite <- app_assoc, <- Hk, take_drop.
  - destruct (deadline <=? now)%N; [| apply IH]. intros [= <- <-]. split; [done | apply prefix_nil].
  - apply IH.
  - intros [= <- <-]. split; [done | apply prefix_nil].
Qed.

(** A write of up to [MAX_WRITE_BYTES] ends: with the kernel taking at
    least a byte when it takes any and the loop's sleeps honoured, the answers
    needed are at most one for each byte, 1001 refusals (the five-second
    deadline) and the interruptions.  It returns [Ok] only when the kernel took
    exactly the bytes of the request; otherwise it returns [Io] and the kernel
    took a prefix. *)
Theorem pty_write_ends (start : N) (data : list byte) (os : list WriteRet) :
  (N.of_nat (length data) <= MAX_WRITE_BYTES)%N -> kernel_ok start 0 os ->
  (length data + interruptions os + 1001 <= length os)%nat ->
  exists r taken, unix_write start data os = Some (r, taken) /\
    match r with Ok _ => taken = data | Err e => e = Io /\ taken `prefix_of` data end.
Proof.
  intros Hd Hk Hlen. unfold unix_write. destruct (N.ltb_spec MAX_WRITE_BYTES (N.of_nat (length data))); [lia |].
  destruct (write_loop_total start 0 data os) as [[r t] Hr]; [done | lia | cbn; lia |].
  exists r, t. split; [done | by eapply write_loop_delivers].
Qed.

(** How a write of an acceptable size fails on the two platforms. *)
Lemma unix_write_fails start data os e taken :
  (N.of_nat (length data) <= MAX_WRITE_BYTES)%N -> unix_write start data os = Some (Err e, taken) -> e = Io.
Proof.
  intros Hl. unfold unix_write. destruct (N.ltb_spec MAX_WRITE_BYTES (N.of_nat (length data))); [lia |].
  by intros [-> _]%write_loop_delivers.
Qed.

Lemma windows_write_fails handle data ok written e :
  (N.of_nat (length data) <= MAX_WRITE_BYTES)%N -> windows_write handle data ok written = Err e ->
  e = Io \/ e = StateUnavailable.
Proof.
  intros Hl. unfold windows_write. destruct (N.ltb_spec MAX_WRITE_BYTES (N.of_nat (length data))); [lia |].
  destruct (negb handle); [intros [= <-]; by right |]. destruct (_ || _); [intros [= <-]; by left | done].
Qed.

Lemma refused_kernel_ok start i k :
  kernel_ok start i ((fun j => WouldBlock (start + 5 * (i + N.of_nat j))) <$> List.seq 0 k).
Proof.
  assert (H : forall k j, kernel_ok start (i + N.of_nat j)
            ((fun j => WouldBlock (start + 5 * (i + N.of_nat j))) <$> List.seq j k)).
  { clear k. induction k as [|k IH]; intros j; cbn; [done |]. split; [lia |].
    replace (i + N.of_nat j + 1)%N with (i + N.of_nat (S j))%N by lia. apply IH. }
  specialize (H k 0%nat). by rewrite N.add_0_r in H.
Qed.

(** A child that reads nothing: one byte, refused until the deadline. *)
Lemma pty_write_ends_witness :
  exists r taken, unix_write 0 [x41] ((fun j => WouldBlock (0 + 5 * (0 + N.of_nat j))) <$> List.seq 0 1002)
                  = Some (r, taken).
Proof.
  destruct (pty_write_ends 0 [x41] ((fun j => WouldBlock (0 + 5 * (0 + N.of_nat j))) <$> List.seq 0 1002))
    as (r & t & H & _).
  - vm_compute. discriminate.
  - apply refused_kernel_ok.
  - assert (Hz : interruptions ((fun j => WouldBlock (0 + 5 * (0 + N.of_nat j))) <$> List.seq 0 1002) = 0%nat)
      by (vm_compute; reflexivity).
    rewrite Hz, length_fmap, length_seq. cbn. lia.
  - exists r, t. exact H.
Defined.

(** ** Output text *)

Definition chunks (os : list (bool * ReadRet * bool)) : list (list byte) :=
  omap (fun o => if o.1.2 is Chunk b then Some b else None) os.

Lemma lossy_encode t : forallb scalar t = true -> lossy (utf8_encode t) = utf8_encode t.
Proof. intros H. unfold lossy. by rewrite from_utf8_lossy_encode. Qed.

(** The texts the reader sends are those of a prefix of the chunks it read,
    in order; when every chunk holds whole characters their concatenation is
    byte for byte what the terminal wrote. *)
Theorem reader_text_faithful (os : list (bool * ReadRet * bool)) :
  exists k, reader_loop os = lossy <$> take k (chunks os) /\
    (Forall (fun c => exists t, forallb scalar t = true /\ c = utf8_encode t) (chunks os) ->
     mjoin (reader_loop os) = mjoin (take k (chunks os))).
Proof.
  assert (Hk : exists k, reader_loop os = lossy <$> take k (chunks os)).
  { induction os as [|[[stop ret] room] os [k IH]]; [by exists 0%nat |].
    cbn [reader_loop]. destruct stop; [by exists 0%nat |].
    destruct ret; try (by exists 0%nat); try (by exists k).
    destruct room; [| by exists 0%nat]. exists (S k). cbn. by rewrite IH. }
  destruct Hk as [k Hk]. exists k. split; [done |]. intros Hall. rewrite Hk.
  apply (Forall_take _ k) in Hall. clear Hk. induction Hall as [|c l (t & Ht & ->) _ IH]; [done |].
  change (lossy (utf8_encode t) ++ mjoin (lossy <$> l) = utf8_encode t ++ mjoin l).
  by rewrite IH, lossy_encode.
Qed.

(** A character whose bytes arrive in two reads is replaced: the two bytes
    of U+00E9 read apart are sent as two replacement characters. *)
Theorem reader_splits_characters :
  from_utf8 [xc3; xa9] = Some [233%N] /\
  reader_loop [(false, Chunk [xc3], true); (false, Chunk [xa9], true)]
  = [utf8_encode [65533%N]; utf8_encode [65533%N]].
Proof. by vm_compute. Qed.

(** ** Bounded teardown *)

(** The [i]-th poll of a wait that sleeps [tick] ms between polls. *)
Fixpoint spaced (start tick i : N) (ps : list Poll) : Prop :=
  match ps with
  | [] => True
  | p :: ps => (start + tick * i <= polled_at p)%N /\ spaced start tick (i + 1) ps
  end.

Lemma reap_until_ends start tick i n ps :
  spaced start tick i ps -> (n <= tick * (i + N.of_nat (length ps) - 1))%N -> ps <> [] ->
  exists gone rest, reap_until (start + n) ps = Some (gone, rest).
Proof.
  revert i. induction ps as [|p ps IH]; intros i Hs Hn Hne; [done |].
  destruct Hs as [Hp Hs]. cbn [reap_until]. destruct (reaped p); [by eauto |].
  destruct (N.leb_spec (start + n) (polled_at p)); [by eauto |].
  destruct ps as [|q ps].
  - cbn in Hn. replace (i + 1 - 1)%N with i in Hn by lia. lia.
  - apply (IH (i + 1)%N); [done | | done]. cbn [length] in *.
    replace (i + 1 + N.of_nat (S (length ps)) - 1)%N with (i + N.of_nat (S (S (length ps))) - 1)%N by lia.
    done.
Qed.

Lemma reap_until_last d ps gone rest :
  reap_until d ps = Some (gone, rest) ->
  exists p, p ∈ ps /\ reaped p = gone /\ (gone = false -> d <= polled_at p)%N.
Proof.
  induction ps as [|p ps IH]; cbn; [done |]. destruct (reaped p) eqn:Hr.
  { intros [= <- <-]. exists p. split_and!; [by left | done | done]. }
  destruct (N.leb_spec d (polled_at p)).
  { intros [= <- <-]. exists p. split_and!; [by left | done | done]. }
  intros (q & Hq & ?)%IH. exists q. by split; [right |].
Qed.

(** Ending a child takes at most 26 polls of the first wait, 20 ms apart
    within half a second, and 21 of the second, 10 ms apart within 200 ms: it
    never blocks.  The child is told to end first, and is killed only when a poll
    past the first deadline has not reaped it. *)
Theorem terminate_io_bounded (start kill_at : N) (ps qs : list Poll) (s : PlatformSession) :
  (0 < child s)%Z -> spaced start 20 0 ps -> (26 <= length ps)%nat ->
  spaced kill_at 10 0 qs -> (21 <= length qs)%nat ->
  exists signals, unix_terminate_io start kill_at ps qs s
    = Some ({| master_fd := master_fd s; child := (-1)%Z |}, signals) /\
    ((signals = [SIGTERM] /\ exists p, p ∈ ps /\ reaped p = true) \/
     (signals = [SIGTERM; SIGKILL] /\
      exists p, p ∈ ps /\ reaped p = false /\ (start + 500 <= polled_at p)%N)).
Proof.
  intros Hc Hps Hlp Hqs Hlq. unfold unix_terminate_io. destruct (Z.leb_spec (child s) 0); [lia |].
  destruct (reap_until_ends start 20 0 500 ps) as (gone & rest & Hp); [done | lia | intros ->; cbn in *; lia |].
  destruct (reap_until_ends kill_at 10 0 200 qs) as (gone' & rest' & Hq); [done | lia | intros ->; cbn in *; lia |].
  rewrite Hp, Hq. cbn. apply reap_until_last in Hp as (p & Hin & Hr & Hd).
  destruct gone; eexists; (split; [done |]); [left | right]; split; eauto.
Qed.

Definition stubborn (start tick : N) (k : nat) : list Poll :=
  (fun j => {| reaped := false; polled_at := (start + tick * N.of_nat j)%N |}) <$> List.seq 0 k.

Lemma stubborn_spaced start tick k : spaced start tick 0 (stubborn start tick k).
Proof.
  assert (H : forall k j, spaced start tick (N.of_nat j)
            ((fun j => {| reaped := false; polled_at := (start + tick * N.of_nat j)%N |}) <$> List.seq j k)).
  { clear k. induction k as [|k IH]; intros j; cbn; [done |]. split; [lia |].
    replace (N.of_nat j + 1)%N with (N.of_nat (S j)) by lia. apply IH. }
  apply (H k 0%nat).
Qed.

(** A shell that ignores the request to end. *)
Lemma terminate_io_bounded_witness :
  exists signals, unix_terminate_io 1000 1500 (stubborn 1000 20 26) (stubborn 1500 10 21)
    {| master_fd := 5; child := 100 |} = Some ({| master_fd := 5; child := (-1)%Z |}, signals).
Proof.
  destruct (terminate_io_bounded 1000 1500 (stubborn 1000 20 26) (stubborn 1500 10 21)
              {| master_fd := 5; child := 100 |}) as (signals & H & _).
  - cbn. lia.
  - apply stubborn_spaced.
  - cbn. lia.
  - apply stubborn_spaced.
  - cbn. lia.
  - exists signals. exact H.
Defined.

(** ** Teardown ends *)

Definition start_teardown (r : ReaderPhase) : Teardown :=
  {| closer := SetStop; reader := r; stop := false; read_side_open := true |}.

Definition closer_rank (p : CloserPhase) : nat :=
  match p with SetStop => 4 | TerminateIo => 3 | JoinReader => 2 | CloseRead => 1 | Returned => 0 end.
Definition reader_rank (p : ReaderPhase) : nat :=
  match p with Polling => 4 | Reading => 3 | Sending => 2 | CheckStop => 1 | Exited => 0 end.

(** What is left to do. *)
Definition rank (t : Teardown) : nat :=
  10 * closer_rank (closer t) + (if stop t then reader_rank (reader t) else 5).

(** The thread whose step makes progress. *)
Definition helpful (t : Teardown) : bool :=
  negb ((closer_rank (closer t) =? 2)%nat && negb (reader_rank (reader t) =? 0)%nat).

(** The stop flag is up once the closer has raised it, and the read side is
    closed only after the reader has ended. *)
Record teardown_inv (t : Teardown) : Prop := {
  ti_stop : stop t = negb (closer_rank (closer t) =? 4)%nat;
  ti_exited : (closer_rank (closer t) <= 1)%nat -> reader t = Exited;
  ti_open : read_side_open t = false -> closer t = Returned
}.

Lemma move_inv t m : teardown_inv t -> teardown_inv (move t m).
Proof.
  destruct t as [c r st op]. intros [Hs He Ho]; cbn in *. destruct m as [|ret room].
  - destruct c; cbn in *; subst; split; cbn in *; try done; try lia; intros;
      repeat case_match; cbn in *; try done; try lia; naive_solver.
  - split; cbn in *; [done | | done]. intros Hc. by rewrite (He Hc).
Qed.

Lemma move_rank t m :
  teardown_inv t ->
  rank (move t m) <= rank t /\
  (closer t <> Returned -> is_closer m = helpful t -> rank (move t m) < rank t) /\
  (rank (move t m) = rank t -> helpful (move t m) = helpful t).
Proof.
  destruct t as [c r st op]. intros [Hs He _]; cbn in *.
  destruct m as [|ret room], c; cbn in *; subst st; try rewrite (He ltac:(lia));
    destruct r; cbn in *; try (destruct ret); try (destruct room); cbn; unfold rank, helpful; cbn;
    split_and!; intros; try lia; try done.
Qed.

Lemma run_moves_inv sigma n t : teardown_inv t -> teardown_inv (run_moves sigma n t).
Proof. intros H. induction n as [|n IH]; [done |]. by apply move_inv. Qed.

(** From any moment the rank goes down, or the closer has returned. *)
Lemma rank_decreases sigma t n :
  teardown_inv t -> fair sigma -> closer (run_moves sigma n t) <> Returned ->
  exists m, n <= m /\ rank (run_moves sigma m t) < rank (run_moves sigma n t).
Proof.
  intros Hinv Hfair Hrun.
  destruct (Hfair (helpful (run_moves sigma n t)) n) as (m & Hm & Hh).
  assert (Hwait : forall k, (exists j, n <= j /\ rank (run_moves sigma j t) < rank (run_moves sigma n t)) \/
            (rank (run_moves sigma (n + k) t) = rank (run_moves sigma n t) /\
             helpful (run_moves sigma (n + k) t) = helpful (run_moves sigma n t) /\
             closer (run_moves sigma (n + k) t) <> Returned)).
  { induction k as [|k IH]; [right; by rewrite Nat.add_0_r |].
    destruct IH as [? | (Hr & Hp & Hc)]; [by left |].
    pose proof (run_moves_inv sigma (n + k) t Hinv) as Hi.
    destruct (move_rank _ (sigma (n + k)) Hi) as (Hle & _ & Hsame).
    rewrite Nat.add_succ_r. cbn [run_moves].
    destruct (decide (rank (move (run_moves sigma (n + k) t) (sigma (n + k))) = rank (run_moves sigma (n + k) t)))
      as [Heq|Hne].
    - right. rewrite Heq, Hsame by done. split_and!; try done. intros Hret.
      revert Heq. unfold rank at 1. rewrite Hret. cbn.
      destruct (run_moves_inv sigma (S (n + k)) t Hinv) as [Hst Hex _]. cbn [run_moves] in Hst, Hex.
      rewrite Hret in Hst, Hex. cbn in Hst. rewrite Hst, Hex by (cbn; lia). cbn. unfold rank.
      destruct (closer (run_moves sigma (n + k) t)) eqn:Ec; cbn; try lia. done.
    - left. exists (S (n + k)). cbn [run_moves]. split; lia. }
  destruct (Hwait (m - n)) as [? | (Hr & Hp & Hc)]; [done |].
  replace (n + (m - n)) with m in * by lia.
  destruct (move_rank _ (sigma m) (run_moves_inv sigma m t Hinv)) as (_ & Hlt & _).
  exists (S m). cbn [run_moves]. split; [lia |]. rewrite <- Hr. apply Hlt; [done | congruence].
Qed.

Lemma closer_returns sigma t k n :
  teardown_inv t -> fair sigma -> rank (run_moves sigma n t) <= k ->
  exists m, closer (run_moves sigma m t) = Returned.
Proof.
  intros Hinv Hfair. revert n. induction k as [|k IH]; intros n Hk.
  - exists n. unfold rank in Hk. destruct (closer (run_moves sigma n t)); cbn in Hk; try lia. done.
  - destruct (decide (closer_rank (closer (run_moves sigma n t)) = 0)) as [Hz|Hnz].
    { exists n. by destruct (closer (run_moves sigma n t)). }
    destruct (rank_decreases sigma t n Hinv Hfair) as (m & _ & Hlt); [by intros E; rewrite E in Hnz |].
    apply (IH m). lia.
Qed.

(** C28.  Closing a session ends, and ends safely: from any phase of the reader
    thread and whatever the kernel answers it, a schedule that starves neither
    thread reaches the return of [terminate]; and the read side is open whenever
    the reader has not ended, so it never polls a descriptor that was closed and
    reused. *)
Theorem teardown_ends (sigma : nat -> Move) (r : ReaderPhase) :
  fair sigma ->
  (exists n, closer (run_moves sigma n (start_teardown r)) = Returned) /\
  (forall n, let t := run_moves sigma n (start_teardown r) in
     reader t <> Exited -> read_side_open t = true).
Proof.
  intros Hfair. assert (Hinv : teardown_inv (start_teardown r)) by (split; cbn; [done | lia | done]).
  split; [by eapply (closer_returns _ _ _ 0) |].
  intros n t Hr. destruct (run_moves_inv sigma n _ Hinv) as [_ He Ho]. fold t in He, Ho.
  destruct (read_side_open t); [done |]. destruct Hr. apply He. rewrite Ho by done. cbn. lia.
Qed.

(** The threads in turn, the terminal writing all the time. *)
Definition alternating (n : nat) : Move :=
  if Nat.even n then Closer else Reader (Chunk [x41]) true.

Lemma teardown_ends_witness :
  exists n, closer (run_moves alternating n (start_teardown Reading)) = Returned.
Proof.
  apply (teardown_ends alternating Reading). intros [] n.
  - exists (2 * n). split; [lia |]. unfold alternating. by rewrite Nat.even_mul.
  - exists (S (2 * n)). split; [lia |]. unfold alternating. by rewrite Nat.even_succ, <- Nat.negb_even, Nat.even_mul.
Defined.
