(* ===== verification/DaemonState.v ===== *)
(** * The daemon's shared state

    What a capability handler reaches through [CapabilityContext]
    ([crates/daemon/src/capabilities.rs]), and the hosts that own the resources:
    [TerminalHost] ([terminal.rs]), [BrowserHost] ([browser.rs]) and
    [ManagedRuntimeHost] ([runtime.rs]).  A handler is a computation on
    [Daemon]; each host's methods work on its own record, and [zoom] lifts them.

    A handler takes the locks of the hosts one after the other.  Here it runs
    without another connection's handler in between; the interleavings inside
    the PTY registry and the event router are the subject of [TerminalFacts] and
    [EventRouter].  No handler panics under a lock, so none is poisoned. *)
From Stdlib Require Import NArith ZArith Lia.
From stdpp Require Import base strings gmap list option.
From S2P Require Import Prelude Text Broker EventRouter Envelope Scheduler Environment Terminal Browser.

(** ** Errors *)

Inductive DaemonMethodError :=
| MethodNotFound (capability : ProtocolCoordinate) (method : string)
| InvalidPayload (capability : ProtocolCoordinate) (method message : string)
| MethodConflict (capability : ProtocolCoordinate) (method message : string)
| MethodFailed (code : ErrorCode) (message : string) (retryable : bool).

(** [failed] *)
Definition failed (code : ErrorCode) (message : string) (retryable : bool) : DaemonMethodError :=
  MethodFailed code message retryable.

(** [parse_request]: what [serde_json::from_value] answers, as the method's
    error. *)
Definition parse_request {T} (method : string) (decoded : result string T) :
    result DaemonMethodError T :=
  map_err (fun error =>
    failed MalformedMessage
      (method +:+ " payload does not match the request shape: " +:+ error)%string false) decoded.

(** ** Terminal host *)

Record AgentSessionBinding := {
  bind_agent_id : string;
  bind_activation_id : string;
  bind_generation : N;
  bind_scope : Scope
}.

Record TerminalAgentScope := {
  as_session_id : option string;
  as_workspace : option string;
  as_domains : list string;
  as_resources : list string
}.

Record TerminalAgentIdentity := {
  agent_id : string;
  agent_activation_id : string;
  agent_generation : N;
  agent_scope : TerminalAgentScope
}.

Record TerminalCreateRequest := {
  create_schema_version : N;
  create_mode : string;
  create_cols : N;
  create_rows : N;
  create_shell : option string;
  create_cwd : option string;
  create_agent : option TerminalAgentIdentity
}.

Record TerminalReport := {
  tr_schema_version : N;
  tr_session_id : string;
  tr_state : string;
  tr_mode : string;
  tr_cols : N;
  tr_rows : N;
  tr_created_at : N;
  tr_last_activity : option N;
  tr_error : option string
}.

Definition TERMINAL_SCHEMA_VERSION : N := 1.

(** [public_report] of [terminal.rs] *)
Definition terminal_public_report (r : PtyReport) (mode : string) : TerminalReport :=
  {| tr_schema_version := TERMINAL_SCHEMA_VERSION; tr_session_id := rep_session_id r;
     tr_state := rep_state r; tr_mode := mode; tr_cols := rep_cols r; tr_rows := rep_rows r;
     tr_created_at := rep_created_at r; tr_last_activity := rep_last_activity r;
     tr_error := rep_error r |}.

Section TerminalHost.
Context {P OS : Type} `{!PtyPlatform P OS} `{!Clock OS}.

Record TerminalHost := {
  registry : PtyRegistry P OS;
  bindings : gmap string AgentSessionBinding;
  owners : gmap string N
}.

(** [TerminalHost::new] *)
Definition new_terminal_host (o : OS) : TerminalHost :=
  {| registry := Terminal.new_registry o; bindings := ∅; owners := ∅ |}.

Definition set_registry (r : PtyRegistry P OS) (h : TerminalHost) : TerminalHost :=
  {| registry := r; bindings := bindings h; owners := owners h |}.

(** A method of [host.registry()]. *)
Definition on_registry {A} (m : M (PtyRegistry P OS) PtyError A) : M TerminalHost PtyError A :=
  zoom registry set_registry m.

(** [TerminalHost::record] *)
Definition record_session (sid : string) (owner : N) (b : option AgentSessionBinding)
    (h : TerminalHost) : TerminalHost :=
  {| registry := registry h;
     bindings := match b with Some b => <[sid := b]> (bindings h) | None => bindings h end;
     owners := <[sid := owner]> (owners h) |}.

(** [TerminalHost::create] *)
Definition host_create (req : TerminalCreateRequest) (owner : N) (b : option AgentSessionBinding) :
    M TerminalHost PtyError TerminalReport :=
  report ← on_registry (Terminal.create (create_shell req) (create_cols req) (create_rows req)
                          (create_cwd req));
  modify (record_session (rep_session_id report) owner b);;
  mret (terminal_public_report report (create_mode req)).

(** [TerminalHost::forget] *)
Definition forget (sid : string) (h : TerminalHost) : TerminalHost :=
  {| registry := registry h; bindings := delete sid (bindings h); owners := delete sid (owners h) |}.

(** [TerminalHost::mode_for] *)
Definition mode_for (h : TerminalHost) (sid : string) : string :=
  if bool_decide (is_Some (bindings h !! sid)) then "agent_automation" else "human_surface".

(** [TerminalHost::session_count] *)
Definition terminal_session_count (h : TerminalHost) : nat := length (list_reports (registry h)).

(** [TerminalHost::reports] *)
Definition terminal_reports (h : TerminalHost) : list TerminalReport :=
  (fun r => terminal_public_report r (mode_for h (rep_session_id r))) <$> list_reports (registry h).
End TerminalHost.

Arguments TerminalHost : clear implicits.

(** ** Browser host *)

Record BrowserReport := {
  br_schema_version : N;
  br_session_id : string;
  br_state : string;
  br_mode : string;
  br_current_url : option text;
  br_created_at : N;
  br_last_activity : option N;
  br_error : option text
}.

Definition BROWSER_SCHEMA_VERSION : N := 1.

(** [public_report] of [browser.rs] *)
Definition browser_public_report (s : BrowserSession) : BrowserReport :=
  {| br_schema_version := BROWSER_SCHEMA_VERSION; br_session_id := b_session_id s;
     br_state := state_as_str (b_state s); br_mode := "human_surface";
     br_current_url := b_current_url s; br_created_at := b_created_at s;
     br_last_activity := b_last_activity s; br_error := b_error s |}.

Record BrowserHost := { browser_registry : SessionRegistry; browser_owners : gmap string N }.

(** [BrowserHost::new] *)
Definition new_browser_host : BrowserHost :=
  {| browser_registry := Browser.new_registry; browser_owners := ∅ |}.

Definition set_browser_registry (r : SessionRegistry) (h : BrowserHost) : BrowserHost :=
  {| browser_registry := r; browser_owners := browser_owners h |}.
Definition set_browser_owners (m : gmap string N) (h : BrowserHost) : BrowserHost :=
  {| browser_registry := browser_registry h; browser_owners := m |}.

Definition on_browser_registry {A} (m : M SessionRegistry BrowserError A) :
    M BrowserHost BrowserError A := zoom browser_registry set_browser_registry m.

(** [BrowserHost::create] *)
Definition browser_host_create (now owner : N) : M BrowserHost BrowserError BrowserReport :=
  s ← on_browser_registry (Browser.create now);
  modify (fun h => set_browser_owners (<[b_session_id s := owner]> (browser_owners h)) h);;
  mret (browser_public_report s).

(** [BrowserHost::close] *)
Definition browser_host_close (now now' : N) (sid : string) : M BrowserHost BrowserError BrowserReport :=
  s ← on_browser_registry (Browser.close now now' sid);
  modify (fun h => set_browser_owners (delete sid (browser_owners h)) h);;
  mret (browser_public_report s).

(** [BrowserHost::release_connection_ownership] *)
Definition release_connection_ownership (conn : N) (h : BrowserHost) : BrowserHost :=
  set_browser_owners (filter (fun kv => kv.2 <> conn) (browser_owners h)) h.

(** [BrowserHost::reports] *)
Definition browser_reports (h : BrowserHost) : list BrowserReport :=
  browser_public_report <$>
    filter (fun s => b_state s <> Closed) (list_sessions (browser_registry h)).

(** [BrowserHost::session_count] *)
Definition browser_session_count (h : BrowserHost) : nat := length (browser_reports h).

(** ** Runtime host *)

Inductive RuntimeHostError :=
| CatalogCorrupt | CatalogUnavailable | EnvironmentNotFound (id : text)
| ManagedError (e : ManagedRuntimeError).

(** The managed runtime's public calls on its state [RT]
    ([crates/managed-runtime]), and the catalog file as the host reads it: the
    answers of [load_catalog], one for each invocation. *)
Class ManagedRuntime (RT Report Binding : Type) := {
  start_managed_environment : ManagedEnvironment -> M RT ManagedRuntimeError Report;
  get_managed_runtime_status : ManagedEnvironment -> M RT ManagedRuntimeError Report;
  stop_managed_environment : ManagedEnvironment -> N -> M RT ManagedRuntimeError Report;
  restart_managed_environment : ManagedEnvironment -> N -> M RT ManagedRuntimeError Report;
  verified_surface_binding : ManagedEnvironment -> N -> M RT ManagedRuntimeError Binding;
  has_live_generation : RT -> bool;
  read_catalog : RT -> result CatalogError EnvironmentCatalog
}.

Section RuntimeHost.
Context {RT Report Binding : Type} `{!ManagedRuntime RT Report Binding}.

(** [ManagedRuntimeHost::environment] *)
Definition host_environment (environment_id : text) (rt : RT) :
    result RuntimeHostError ManagedEnvironment :=
  catalog ← map_err (fun e => match e with Corrupt => CatalogCorrupt
                                         | UnavailableCatalog => CatalogUnavailable end)
              (read_catalog rt);
  ok_or (EnvironmentNotFound environment_id) (catalog_environment catalog environment_id).

(** [ManagedRuntimeHost::managed_runtimes] *)
Definition managed_runtimes (rt : RT) : nat := if has_live_generation rt then 1 else 0.
End RuntimeHost.

(** ** The context *)

(** The shared parts of [CapabilityContext]: the hosts, the event router, the
    broker, the scheduler and the wall clock.  [Value] is the payload type of
    the broker's providers, [C] the type of the clocks. *)
Record Daemon (Value C P OS RT : Type) := {
  terminal : TerminalHost P OS;
  browser : BrowserHost;
  runtime : RT;
  router : EventRouter;
  broker : Broker Value C;
  scheduler : Inner;
  wall : C
}.
Arguments terminal {Value C P OS RT} _.
Arguments browser {Value C P OS RT} _.
Arguments runtime {Value C P OS RT} _.
Arguments router {Value C P OS RT} _.
Arguments broker {Value C P OS RT} _.
Arguments scheduler {Value C P OS RT} _.
Arguments wall {Value C P OS RT} _.

Section Context.
Context {Value C P OS RT : Type} `{!Clock C}.
Abbreviation Daemon := (Daemon Value C P OS RT).

Definition set_terminal (x : TerminalHost P OS) (d : Daemon) : Daemon :=
  {| terminal := x; browser := browser d; runtime := runtime d; router := router d;
     broker := broker d; scheduler := scheduler d; wall := wall d |}.
Definition set_browser (x : BrowserHost) (d : Daemon) : Daemon :=
  {| terminal := terminal d; browser := x; runtime := runtime d; router := router d;
     broker := broker d; scheduler := scheduler d; wall := wall d |}.
Definition set_runtime (x : RT) (d : Daemon) : Daemon :=
  {| terminal := terminal d; browser := browser d; runtime := x; router := router d;
     broker := broker d; scheduler := scheduler d; wall := wall d |}.
Definition set_router (x : EventRouter) (d : Daemon) : Daemon :=
  {| terminal := terminal d; browser := browser d; runtime := runtime d; router := x;
     broker := broker d; scheduler := scheduler d; wall := wall d |}.
Definition set_broker (x : Broker Value C) (d : Daemon) : Daemon :=
  {| terminal := terminal d; browser := browser d; runtime := runtime d; router := router d;
     broker := x; scheduler := scheduler d; wall := wall d |}.
Definition set_scheduler (x : Inner) (d : Daemon) : Daemon :=
  {| terminal := terminal d; browser := browser d; runtime := runtime d; router := router d;
     broker := broker d; scheduler := x; wall := wall d |}.
Definition set_wall (x : C) (d : Daemon) : Daemon :=
  {| terminal := terminal d; browser := browser d; runtime := runtime d; router := router d;
     broker := broker d; scheduler := scheduler d; wall := x |}.

(** A handler. *)
Definition Handler (A : Type) : Type := M Daemon DaemonMethodError A.

(** [now_unix_ms], and the readings the registry makes. *)
Definition daemon_now : Handler N := fun d =>
  let '(t, c) := clock_read (wall d) in (Ok t, set_wall c d).

(** [events.publish(..)], the lookup and the send together. *)
Definition publish (e : RouterEvent) (r : EventRouter) : EventRouter :=
  let r' := publish_lookup e r in
  if (length (in_flight r) <? length (in_flight r'))%nat then publish_send (length (in_flight r)) r' else r'.

Definition on_router (f : EventRouter -> EventRouter) : Handler unit :=
  modify (fun d => set_router (f (router d)) d).
End Context.
