(* ===== verification/TerminalCapability.v ===== *)
(** * The daemon's terminal capability

    Model of the request types, the validation, the gates and the five envelope
    handlers of [crates/daemon/src/terminal.rs].  [serde_json]'s typed decoders
    and serializers are the interface [TerminalWire]. *)
From Stdlib Require Import NArith Ascii Lia.
From stdpp Require Import base strings gmap list option.
From S2P Require Import Prelude Text Broker BrokerFacts AgentBridge BrokerInvariants.
From S2P Require Import BrokerProps EventRouter Envelope Terminal DaemonState.

Definition TERMINAL_API_VERSION : string := "terminal.dsh-desktop.local/v1alpha1".
Definition TERMINAL_KIND : string := "Terminal".

(** [terminal_capability] *)
Definition terminal_capability : CapabilityId :=
  {| Broker.api_version := TERMINAL_API_VERSION; Broker.kind := TERMINAL_KIND |}.

Record TerminalWriteRequest := {
  write_schema_version : N; write_session_id : string; write_data : string
}.
Record TerminalResizeRequest := {
  resize_schema_version : N; resize_session_id : string; resize_cols : N; resize_rows : N
}.
Record TerminalCloseRequest := { close_schema_version : N; close_session_id : string }.

(** The decoders of the requests, with the text of the error, and the
    serializers of the answers: a report, the list of [terminal.status], and the
    empty object. *)
Class TerminalWire (Value : Type) := {
  create_from_value : Value -> result string TerminalCreateRequest;
  write_from_value : Value -> result string TerminalWriteRequest;
  resize_from_value : Value -> result string TerminalResizeRequest;
  close_from_value : Value -> result string TerminalCloseRequest;
  report_to_value : TerminalReport -> Value;
  terminal_status_to_value : list TerminalReport -> nat -> Value;
  empty_object : Value
}.

(** ** Validation *)

(** [valid_session_id] *)
Definition valid_session_id (s : string) : bool :=
  String.prefix "pty-" s && (String.length s <=? 64)%nat &&
  forallb (fun c => is_lower c || is_digit c || Ascii.eqb c "-") (String.list_ascii_of_string s).

(** [valid_agent_token] *)
Definition valid_agent_token (s : string) : bool :=
  negb (bool_decide (s = "")%string) && (String.length s <=? 64)%nat &&
  forallb (fun c => is_alphanumeric c || Ascii.eqb c "-" || Ascii.eqb c "_")
    (String.list_ascii_of_string s).

(** The loop of [valid_string_list], with the items seen so far. *)
Fixpoint distinct_items (seen items : list string) : bool :=
  match items with
  | [] => true
  | x :: items =>
      negb (bool_decide (x = "")%string) && (String.length x <=? 128)%nat &&
      negb (bool_decide (x ∈ seen)) && distinct_items (x :: seen) items
  end.

(** [valid_string_list] *)
Definition valid_string_list (items : list string) : bool :=
  if (16 <? length items)%nat then false else distinct_items [] items.

(** [is_none_or(|value| !value.is_empty() && value.len() <= 128)] *)
Definition valid_pin (o : option string) : bool :=
  match o with
  | None => true
  | Some v => negb (bool_decide (v = "")%string) && (String.length v <=? 128)%nat
  end.

(** [TerminalAgentScope::is_valid] *)
Definition scope_is_valid (s : TerminalAgentScope) : bool :=
  (some (as_session_id s) || some (as_workspace s)
   || negb (bool_decide (as_domains s = [])) || negb (bool_decide (as_resources s = []))) &&
  valid_pin (as_session_id s) && valid_pin (as_workspace s) &&
  valid_string_list (as_domains s) && valid_string_list (as_resources s).

(** [TerminalAgentScope::to_broker_scope] *)
Definition to_broker_scope (s : TerminalAgentScope) : Scope :=
  {| Broker.session_id := as_session_id s; workspace := as_workspace s; domains := as_domains s;
     resources := as_resources s |}.

(** [TerminalAgentIdentity::is_valid] *)
Definition identity_is_valid (a : TerminalAgentIdentity) : bool :=
  valid_agent_token (agent_id a) && valid_agent_token (agent_activation_id a) &&
  (1 <=? agent_generation a)%N && scope_is_valid (agent_scope a).

(** [TerminalCreateRequest::is_valid] *)
Definition create_is_valid (r : TerminalCreateRequest) : bool :=
  (create_schema_version r =? TERMINAL_SCHEMA_VERSION)%N &&
  (if bool_decide (create_mode r = "human_surface")%string then negb (some (create_agent r))
   else if bool_decide (create_mode r = "agent_automation")%string then
     match create_agent r with Some a => identity_is_valid a | None => false end
   else false).

(** [agent_binding_from] *)
Definition agent_binding_from (a : TerminalAgentIdentity) : AgentSessionBinding :=
  {| bind_agent_id := agent_id a; bind_activation_id := agent_activation_id a;
     bind_generation := agent_generation a; bind_scope := to_broker_scope (agent_scope a) |}.

(** ** Errors *)

(** [map_pty_error] *)
Definition map_pty_error (e : PtyError) : DaemonMethodError :=
  match e with
  | InvalidShell => failed MalformedMessage "shell selection is not supported" false
  | SpawnUnavailable => failed Unavailable "pseudo console or shell spawn failed" true
  | UnknownSession => failed Unavailable "terminal session is unknown or already closed" false
  | InvalidGeometry => failed MalformedMessage "terminal geometry is outside schema bounds" false
  | WriteTooLarge => failed MalformedMessage "terminal write exceeds the schema bound" false
  | Io => failed Unavailable "terminal I/O failed" true
  | Terminal.StateUnavailable => failed Unavailable "terminal state is unavailable" true
  end.

(** [map_broker_error] *)
Definition map_broker_error (e : BrokerError) : DaemonMethodError :=
  match e with
  | UnknownCapability | NotGranted | LeaseExpired | LeaseRevoked | ScopeMismatch =>
      failed Unauthorized "agent is not authorized for terminal automation" false
  | UnknownProvider => failed Unavailable "terminal provider is not registered" true
  | GenerationMismatch => failed StaleGeneration "agent terminal request carries a stale generation" false
  | Broker.Conflict => failed Envelope.Conflict "terminal broker state conflict" false
  end.

(** ** Handlers *)

Section Handlers.
Context {Value C P OS RT : Type} `{!Clock C} `{!PtyPlatform P OS} `{!Clock OS} `{!TerminalWire Value}.
Abbreviation Daemon := (Daemon Value C P OS RT).
Abbreviation H A := (Handler (Value := Value) (C := C) (P := P) (OS := OS) (RT := RT) A).

(** A method of [ctx.terminal]. *)
Definition on_terminal {A} (m : M (TerminalHost P OS) PtyError A) : H A :=
  map_err_m map_pty_error (zoom terminal set_terminal m).

(** [gate_agent] *)
Definition gate_agent (b : AgentSessionBinding) : H unit :=
  map_err_m map_broker_error
    (zoom broker set_broker
       (enforce_dispatch terminal_capability (bind_agent_id b) (bind_generation b) (bind_scope b))).

Definition gate_binding (b : option AgentSessionBinding) : H unit :=
  match b with Some b => gate_agent b | None => mret tt end.

(** [check_owner] of [terminal.rs] *)
Definition check_owner (conn : N) (sid : string) : H unit := fun d =>
  match owners (terminal d) !! sid with
  | None => (Err (failed Unavailable "terminal session is unknown or already closed" false), d)
  | Some owner =>
      if negb (owner =? conn)%N
      then (Err (failed NotProcessOwner "terminal session is owned by another connection" false), d)
      else (Ok tt, d)
  end.

(** [check_owner(..)?] and the gate on the recorded binding, as the three
    mutations begin. *)
Definition authorize (conn : N) (sid : string) : H unit :=
  check_owner conn sid;;
  b ← gets (fun d => bindings (terminal d) !! sid);
  gate_binding b.

(** [handle_create] *)
Definition handle_create (conn : N) (payload : Value) : H Value :=
  request ← lift (parse_request "terminal.create" (create_from_value payload));
  throw_if (negb (create_is_valid request))
    (failed MalformedMessage "terminal.create request is malformed or the mode is not supported (human_surface must not carry agent facts; agent_automation requires them)" false);;
  let binding := agent_binding_from <$> create_agent request in
  gate_binding binding;;
  report ← on_terminal (host_create request conn binding);
  on_router (subscribe conn (tr_session_id report));;
  mret (report_to_value report).

(** [handle_write] *)
Definition handle_write (conn : N) (payload : Value) : H Value :=
  request ← lift (parse_request "terminal.write" (write_from_value payload));
  throw_if (negb (write_schema_version request =? TERMINAL_SCHEMA_VERSION)%N
            || negb (valid_session_id (write_session_id request))
            || bool_decide (write_data request = "")%string)
    (failed MalformedMessage "terminal.write request is malformed" false);;
  authorize conn (write_session_id request);;
  on_terminal (on_registry (Terminal.write (write_session_id request) (write_data request)));;
  mret empty_object.

(** [handle_resize] *)
Definition handle_resize (conn : N) (payload : Value) : H Value :=
  request ← lift (parse_request "terminal.resize" (resize_from_value payload));
  throw_if (negb (resize_schema_version request =? TERMINAL_SCHEMA_VERSION)%N
            || negb (valid_session_id (resize_session_id request)))
    (failed MalformedMessage "terminal.resize request is malformed" false);;
  authorize conn (resize_session_id request);;
  report ← on_terminal (on_registry (Terminal.resize (resize_session_id request)
                          (resize_cols request) (resize_rows request)));
  mode ← gets (fun d => mode_for (terminal d) (resize_session_id request));
  mret (report_to_value (terminal_public_report report mode)).

(** The same-geometry resize [handle_close] makes before it closes: its own
    failure is ignored. *)
Definition flush_console (sid : string) : M (TerminalHost P OS) PtyError unit := fun h =>
  match on_registry (Terminal.report sid) h with
  | (Ok report, h) => (Ok tt, (on_registry (Terminal.resize sid (rep_cols report) (rep_rows report)) h).2)
  | (Err _, h) => (Ok tt, h)
  end.

(** [handle_close] *)
Definition handle_close (conn : N) (payload : Value) : H Value :=
  request ← lift (parse_request "terminal.close" (close_from_value payload));
  throw_if (negb (close_schema_version request =? TERMINAL_SCHEMA_VERSION)%N
            || negb (valid_session_id (close_session_id request)))
    (failed MalformedMessage "terminal.close request is malformed" false);;
  authorize conn (close_session_id request);;
  on_terminal (flush_console (close_session_id request));;
  on_terminal (on_registry (Terminal.close (close_session_id request)));;
  modify (fun d => set_terminal (forget (close_session_id request) (terminal d)) d);;
  on_router (unsubscribe conn (close_session_id request));;
  mret empty_object.

(** [handle_status] *)
Definition handle_status : H Value :=
  sessions ← gets (fun d => terminal_reports (terminal d));
  mret (terminal_status_to_value sessions (length sessions)).

(** The five methods. *)
Inductive TerminalCall := TCreate | TWrite | TResize | TClose | TStatus.

Definition terminal_call (m : TerminalCall) (conn : N) (payload : Value) : H Value :=
  match m with
  | TCreate => handle_create conn payload
  | TWrite => handle_write conn payload
  | TResize => handle_resize conn payload
  | TClose => handle_close conn payload
  | TStatus => handle_status
  end.
End Handlers.
