(* ===== verification/TerminalCapFacts.v ===== *)
(** * The terminal capability: bookkeeping and isolation

    The daemon's terminal state under any sequence of handler calls by any
    connections, the threads of the registry, and changes of everything else. *)
From Stdlib Require Import NArith Ascii Lia.
From stdpp Require Import base strings gmap list option relations.
From S2P Require Import Prelude Text Broker BrokerFacts AgentBridge BrokerInvariants.
From S2P Require Import BrokerProps EventRouter Envelope Terminal TerminalFacts DaemonState.
From S2P Require Import TerminalCapability.

Section Facts.
Context {Value C P OS RT : Type} `{!Clock C} `{!PtyPlatform P OS} `{!Clock OS} `{!TerminalWire Value}.
Abbreviation Daemon := (Daemon Value C P OS RT).
Implicit Types d : Daemon.

(** ** The gates *)

Definition gate_accepts (b : AgentSessionBinding) d : Prop :=
  (enforce_dispatch terminal_capability (bind_agent_id b) (bind_generation b) (bind_scope b)
     (broker d)).1 = Ok tt.

(** Who may change a session: its creator, and for an agent's session only
    while the broker accepts the agent. *)
Definition may_change (conn : N) (sid : string) d : Prop :=
  owners (terminal d) !! sid = Some conn /\
  forall b, bindings (terminal d) !! sid = Some b -> gate_accepts b d.

Lemma gate_binding_frame b d : terminal (gate_binding b d).2 = terminal d.
Proof.
  unfold gate_binding, gate_agent, map_err_m, zoom. destruct b as [b|]; [| done].
  by destruct (enforce_dispatch _ _ _ _ _).
Qed.

Lemma gate_binding_ok b d d' :
  gate_binding (Some b) d = (Ok tt, d') -> gate_accepts b d.
Proof.
  unfold gate_binding, gate_agent, gate_accepts.
  rewrite map_err_m_ok, zoom_ok. by intros (t & -> & _).
Qed.

Lemma authorize_frame conn sid d : terminal (authorize conn sid d).2 = terminal d.
Proof.
  unfold authorize, check_owner. cbv [mbind M_bind gets].
  destruct (owners (terminal d) !! sid) as [k|]; [| done].
  destruct (negb (k =? conn)%N); [done |]. apply gate_binding_frame.
Qed.

Lemma authorize_ok conn sid d d' : authorize conn sid d = (Ok tt, d') -> may_change conn sid d.
Proof.
  unfold authorize, check_owner, may_change. cbv [mbind M_bind gets].
  destruct (owners (terminal d) !! sid) as [k|]; [| done].
  destruct (N.eqb_spec k conn) as [->|]; cbn; [| done]. intros Hg. split; [done |].
  intros b Hb. rewrite Hb in Hg. by eapply gate_binding_ok.
Qed.

(** ** The host's invariant *)

Abbreviation Host := (TerminalHost P OS).

(** Between calls no session is waiting to be terminated. *)
Definition hist_of (h : Host) : Hist := {| reg := registry h; removed := [] |}.

(** After at most [n] operations on the registry: its own invariant; the
    sessions with an owner are the registered ones; only those have a binding. *)
Record host_inv (n : nat) (h : Host) : Prop := {
  hi_pty : pty_inv (hist_of h);
  hi_counters : counters n n (hist_of h);
  hi_owners : forall sid, is_Some (owners h !! sid) <-> is_Some (sessions (registry h) !! sid);
  hi_bindings : forall sid, is_Some (bindings h !! sid) -> is_Some (owners h !! sid)
}.

(** What the handlers see of one session. *)
Definition view (sid : string) (h : Host) : option N * option AgentSessionBinding * option (Session P) :=
  (owners h !! sid, bindings h !! sid,
   a ← sessions (registry h) !! sid; heap (registry h) !! a).

Definition keeps_others (sid : string) (h h' : Host) : Prop :=
  forall sid', sid' <> sid -> view sid' h' = view sid' h.

Lemma counters_le n m n' m' (h : Hist) :
  n <= n' -> m <= m' -> counters n m h -> counters (P := P) (OS := OS) n' m' h.
Proof. intros Hn Hm [H1 H2]. split; [lia |]. intros a s Ha. specialize (H2 a s Ha). lia. Qed.

(** One operation of the registry, from a state with the invariant. *)
Lemma pty_op_step n m h o :
  pty_inv h -> counters n m h -> (N.of_nat (S n) < U64_MAX)%N -> (N.of_nat (S m) < U64_MAX)%N ->
  pty_inv (run_pty h o) /\ counters (P := P) (OS := OS) (S n) (S m) (run_pty h o).
Proof.
  intros Hi Hc Hn Hm.
  assert (Hone : creates [o] <= 1 /\ sends [o] <= 1) by (destruct o; cbn; lia).
  split; [eapply pty_inv_step; [done | done | lia | lia] |].
  eapply counters_le; [| | by apply pty_counters_step]; lia.
Qed.

Lemma host_inv_le n m h : n <= m -> host_inv n h -> host_inv m h.
Proof. intros Hle [H1 H2 H3 H4]. split; try done. by eapply counters_le. Qed.

(** A write or a resize of one registered session. *)
Lemma host_touch n h sid a o r' :
  host_inv n h -> (N.of_nat (S n) < U64_MAX)%N -> sessions (registry h) !! sid = Some a ->
  run_pty (hist_of h) o = {| reg := r'; removed := [] |} -> touches same_life a (registry h) r' ->
  host_inv (S n) (set_registry r' h) /\ keeps_others sid h (set_registry r' h).
Proof.
  intros [Hp Hc Ho Hb] Hn Ha Hrun (_ & Hs & Hh).
  destruct (pty_op_step n n _ o Hp Hc Hn Hn) as [Hp' Hc']. rewrite Hrun in Hp', Hc'.
  split; [by split; cbn; rewrite ?Hs |].
  intros sid' Hne. unfold view. cbn. rewrite Hs. f_equal.
  destruct (sessions (registry h) !! sid') as [b|] eqn:Hb'; [| done]. cbn.
  destruct Hh as [-> | (s & s' & Hl & -> & _)]; [done |].
  apply list_lookup_insert_ne. intros ->. apply Hne.
  destruct (pi_registered _ Hp sid b Ha) as (u & Hu & Hid & _).
  destruct (pi_registered _ Hp sid' b Hb') as (v & Hv & Hid' & _). cbn in *. congruence.
Qed.

Lemma host_write n h sid data :
  host_inv n h -> (N.of_nat (S n) < U64_MAX)%N ->
  let h' := (on_registry (Terminal.write sid data) h).2 in
  host_inv (S n) h' /\ keeps_others sid h h'.
Proof.
  intros Hi Hn. unfold on_registry, zoom, Terminal.write, Terminal.session. cbv [mbind M_bind throw_if].
  assert (Hsame : host_inv (S n) h /\ keeps_others sid h h)
    by (split; [eapply host_inv_le; [| done]; lia | done]).
  assert (Heta : set_registry (registry h) h = h) by (by destruct h).
  destruct (_ <? _)%N; cbn; [by rewrite Heta |].
  destruct (sessions (registry h) !! sid) as [a|] eqn:Ha; cbn; [| by rewrite Heta].
  destruct (write_locked a data (registry h)) as [res r'] eqn:Hw. cbn.
  destruct (write_effect a data (registry h)) as (_ & _ & Ht). rewrite Hw in Ht.
  eapply (host_touch n h sid a (PWrite a data)); try done. cbn. by rewrite Hw.
Qed.

Lemma host_resize n h sid c w :
  host_inv n h -> (N.of_nat (S n) < U64_MAX)%N ->
  let h' := (on_registry (Terminal.resize sid c w) h).2 in
  host_inv (S n) h' /\ keeps_others sid h h' /\ owners h' = owners h /\ bindings h' = bindings h /\
  sessions (registry h') = sessions (registry h).
Proof.
  intros Hi Hn. unfold on_registry, zoom, Terminal.resize, Terminal.session. cbv [mbind M_bind throw_if].
  assert (Hsame : host_inv (S n) h /\ keeps_others sid h h)
    by (split; [eapply host_inv_le; [| done]; lia | done]).
  assert (Heta : set_registry (registry h) h = h) by (by destruct h).
  destruct (geometry_ok c w) eqn:Hg; cbn; [| rewrite Heta; by destruct Hsame].
  destruct (sessions (registry h) !! sid) as [a|] eqn:Ha; cbn; [| rewrite Heta; by destruct Hsame].
  destruct (resize_locked a c w (registry h)) as [res r'] eqn:Hw. cbn.
  destruct (resize_effect a c w (registry h) Hg) as (_ & _ & Ht). rewrite Hw in Ht.
  destruct (host_touch n h sid a (PResize a c w) r') as [H1 H2]; try done.
  { cbn. by rewrite Hg, Hw. }
  split_and!; try done. by destruct Ht as (_ & ? & _).
Qed.

(** Closing a registered session: it leaves the table, and is terminated. *)
Lemma close_registered (r : PtyRegistry P OS) sid a :
  sessions r !! sid = Some a ->
  run_pty (run_pty {| reg := r; removed := [] |} (PRemove sid)) (PTerminate 0)
  = {| reg := (Terminal.close sid r).2; removed := [] |}.
Proof.
  intros Ha. unfold Terminal.close. cbv [mbind M_bind]. cbn. rewrite Ha. cbn. done.
Qed.

Lemma close_unregistered (r : PtyRegistry P OS) sid :
  sessions r !! sid = None -> Terminal.close sid r = (Err UnknownSession, r).
Proof.
  intros Ha. unfold Terminal.close, remove. cbv [mbind M_bind throw]. rewrite Ha, delete_id by done.
  by destruct r.
Qed.

(** [close], then [forget]: the session disappears from the host. *)
Lemma host_close n h sid :
  host_inv n h -> (N.of_nat (S (S n)) < U64_MAX)%N -> is_Some (owners h !! sid) ->
  exists r', Terminal.close sid (registry h) = (Ok tt, r') /\
    let h' := forget sid (set_registry r' h) in
    host_inv (S (S n)) h' /\ keeps_others sid h h' /\ owners h' !! sid = None.
Proof.
  intros [Hp Hc Ho Hb] Hn Hsid. apply Ho in Hsid as [a Ha].
  destruct (pty_op_step n n _ (PRemove sid) Hp Hc) as [Hp1 Hc1]; [lia.. |].
  destruct (pty_op_step _ _ _ (PTerminate 0) Hp1 Hc1) as [Hp2 Hc2]; [lia.. |].
  unfold hist_of in Hp2, Hc2. rewrite (close_registered _ _ _ Ha) in Hp2, Hc2.
  destruct (pi_registered _ Hp sid a Ha) as (s & Hs & Hid & _). cbn [hist_of reg] in Hs.
  destruct (terminate_effect a s (set_sessions (delete sid (sessions (registry h))) (registry h)) Hs)
    as (_ & Hse & _ & _ & s' & Hh & _).
  destruct (Terminal.close sid (registry h)) as [res r'] eqn:Hcl.
  assert (Hr : res = Ok tt /\ r' = (terminate_locked a (set_sessions (delete sid (sessions (registry h)))
                                      (registry h))).2).
  { revert Hcl. unfold Terminal.close, remove, terminate_locked, locked. cbv [mbind M_bind gets put modify].
    rewrite Ha. cbn. rewrite Hs. cbn. destruct (terminate_session s (os (registry h))). cbn.
    by intros [= <- <-]. }
  destruct Hr as [-> ->]. eexists. split; [done |]. cbn. split_and!.
  - split; cbn; [done | done | |].
    + intros sid'. rewrite Hse. cbn. destruct (decide (sid' = sid)) as [->|Hne].
      * rewrite !lookup_delete_eq. split; by intros [? ?].
      * rewrite !lookup_delete_ne by done. apply Ho.
    + intros sid'. destruct (decide (sid' = sid)) as [->|Hne].
      * rewrite !lookup_delete_eq. by intros [? ?].
      * rewrite !lookup_delete_ne by done. apply Hb.
  - intros sid' Hne. unfold view. cbn. rewrite Hse, Hh. cbn. rewrite !lookup_delete_ne by done. f_equal.
    destruct (sessions (registry h) !! sid') as [b|] eqn:Hb'; [| done]. cbn.
    apply list_lookup_insert_ne. intros ->.
    destruct (pi_registered _ Hp sid' b Hb') as (v & Hv & Hid' & _). cbn in Hv. congruence.
  - apply lookup_delete_eq.
Qed.

Lemma host_create_inv n h req conn b :
  host_inv n h -> (N.of_nat (S n) < U64_MAX)%N ->
  let '(res, h') := host_create req conn b h in
  host_inv (S n) h' /\
  match res with
  | Err _ => forall sid, view sid h' = view sid h
  | Ok rep => owners h !! tr_session_id rep = None /\ keeps_others (tr_session_id rep) h h' /\
              owners h' !! tr_session_id rep = Some conn
  end.
Proof.
  intros [Hp Hc Ho Hb] Hn. unfold host_create, on_registry, zoom. cbv [mbind M_bind modify mret M_ret].
  set (o := PCreate (create_shell req) (create_cols req) (create_rows req) (create_cwd req)).
  destruct (pty_op_step n n _ o Hp Hc Hn Hn) as [Hp' Hc']. cbn in Hp', Hc'.
  pose proof (create_result (create_shell req) (create_cols req) (create_rows req) (create_cwd req)
                (registry h)) as Heff.
  destruct (Terminal.create _ _ _ _ (registry h)) as [[rep|e] r'].
  - destruct Heff as (_ & _ & _ & s & t & Hh & -> & (Hid & _) & _ & Hs). cbn [tr_session_id
      terminal_public_report rep_session_id report_of].
    assert (Hnone : sessions (registry h) !! pty_id s = None)
      by (rewrite Hid; by apply (fresh_unregistered (hist_of h))).
    assert (Hnew : owners h !! pty_id s = None).
    { apply eq_None_not_Some. rewrite Ho, Hnone. by intros [? ?]. }
    split_and!; cbn; [| done | | by rewrite lookup_insert_eq].
    + split; cbn; [done | done | |].
      * intros sid. rewrite Hs. destruct (decide (sid = pty_id s)) as [->|];
          [rewrite !lookup_insert_eq; by split | by rewrite !lookup_insert_ne].
      * intros sid. destruct (decide (sid = pty_id s)) as [->|];
          [rewrite lookup_insert_eq; by eauto | rewrite lookup_insert_ne by done].
        destruct b; [rewrite lookup_insert_ne by done |]; apply Hb.
    + intros sid Hne. unfold view. cbn. rewrite Hs, Hh, !lookup_insert_ne by done.
      f_equal; [f_equal; destruct b; [by rewrite lookup_insert_ne | done] |].
      destruct (sessions (registry h) !! sid) as [a|] eqn:Ha; [| done]. cbn.
      destruct (pi_registered _ Hp sid a Ha) as (u & Hu & _). cbn in Hu.
      by rewrite Hu; apply lookup_app_l_Some.
  - destruct Heff as (_ & _ & _ & Hs & Hh). split.
    + split; cbn; [done | done | by rewrite Hs | done].
    + intros sid. unfold view. cbn. by rewrite Hs, Hh.
Qed.

(** ** The handlers *)

(** The payload is a well-formed request of the method that names the session. *)
Definition asks_to_change (m : TerminalCall) (payload : Value) (sid : string) : Prop :=
  match m with
  | TWrite => exists r, write_from_value payload = Ok r /\ write_session_id r = sid /\
      write_schema_version r = TERMINAL_SCHEMA_VERSION /\ valid_session_id sid = true /\
      write_data r <> ""%string /\ (N.of_nat (String.length (write_data r)) <= MAX_WRITE_BYTES)%N
  | TResize => exists r, resize_from_value payload = Ok r /\ resize_session_id r = sid /\
      resize_schema_version r = TERMINAL_SCHEMA_VERSION /\ valid_session_id sid = true /\
      geometry_ok (resize_cols r) (resize_rows r) = true
  | TClose => exists r, close_from_value payload = Ok r /\ close_session_id r = sid /\
      close_schema_version r = TERMINAL_SCHEMA_VERSION /\ valid_session_id sid = true
  | TCreate | TStatus => False
  end.

(** The sessions a call may have changed: one it names in a well-formed request
    and was authorized for, and one it created. *)
Definition authorized_change (m : TerminalCall) (conn : N) (payload : Value) d d' : Prop :=
  forall sid, view sid (terminal d') = view sid (terminal d) \/
    (may_change conn sid d /\ asks_to_change m payload sid) \/
    (owners (terminal d) !! sid = None /\ owners (terminal d') !! sid = Some conn).

Record call_ok (n : nat) (m : TerminalCall) (conn : N) (payload : Value) d d' : Prop := {
  co_inv : host_inv (n + 4) (terminal d');
  co_change : authorized_change m conn payload d d';
  co_idle : m <> TCreate -> terminal d' = terminal d \/
    exists sid, may_change conn sid d /\ asks_to_change m payload sid
}.

Lemma call_idle n m conn payload d d' :
  terminal d' = terminal d -> host_inv n (terminal d) -> call_ok n m conn payload d d'.
Proof.
  intros Heq Hi. split; [| | by left].
  - rewrite Heq. eapply host_inv_le; [| done]. lia.
  - intros sid. rewrite Heq. by left.
Qed.

(** A change of one authorized session. *)
Lemma call_changes n k m conn payload sid d d' :
  may_change conn sid d -> asks_to_change m payload sid -> k <= 4 -> host_inv (n + k) (terminal d') ->
  keeps_others sid (terminal d) (terminal d') -> call_ok n m conn payload d d'.
Proof.
  intros Hm Ha Hk Hi Hkeep. split; [eapply host_inv_le; [| done]; lia | | right; by exists sid].
  intros sid'. destruct (decide (sid' = sid)) as [->|Hne]; [by right; left | left; by apply Hkeep].
Qed.

(** The registry's own bounds. *)
Lemma large_write_idle (h : Host) sid data :
  (MAX_WRITE_BYTES < N.of_nat (String.length data))%N -> (on_registry (Terminal.write sid data) h).2 = h.
Proof.
  intros Hl%N.ltb_lt. unfold on_registry, zoom, Terminal.write, throw_if. cbv [mbind M_bind].
  rewrite Hl. by destruct h.
Qed.

Lemma bad_geometry_idle (h : Host) sid c w :
  geometry_ok c w = false -> (on_registry (Terminal.resize sid c w) h).2 = h.
Proof.
  intros Hg. unfold on_registry, zoom, Terminal.resize, throw_if. cbv [mbind M_bind].
  rewrite Hg. by destruct h.
Qed.

Lemma parse_request_ok {A} name (r : result string A) x : parse_request name r = Ok x -> r = Ok x.
Proof. by destruct r; cbn; [intros [= ->] |]. Qed.

Lemma on_terminal_run {A} (m : M Host PtyError A) d :
  terminal (on_terminal (Value := Value) (C := C) (RT := RT) m d).2 = (m (terminal d)).2 /\
  is_ok (on_terminal (Value := Value) (C := C) (RT := RT) m d).1 = is_ok (m (terminal d)).1.
Proof. unfold on_terminal, map_err_m, zoom. destruct (m (terminal d)) as [[]]; done. Qed.

Lemma authorize_run conn sid d :
  exists d1, terminal d1 = terminal d /\
    (authorize conn sid d = (Ok tt, d1) /\ may_change conn sid d \/
     exists e, authorize conn sid d = (Err e, d1)).
Proof.
  destruct (authorize conn sid d) as [[[]|e] d1] eqn:E; exists d1;
    pose proof (authorize_frame conn sid d) as Hf; rewrite E in Hf; (split; [done |]).
  - left. split; [done |]. by eapply authorize_ok.
  - right. by exists e.
Qed.

Lemma handle_create_ok n conn payload d :
  host_inv n (terminal d) -> (N.of_nat (n + 4) < U64_MAX)%N ->
  call_ok n TCreate conn payload d (handle_create conn payload d).2.
Proof.
  intros Hi Hn. unfold handle_create. cbv [mbind M_bind lift throw_if mret M_ret].
  destruct (parse_request _ _) as [req|]; [| by apply call_idle].
  destruct (negb (create_is_valid req)); [by apply call_idle |].
  pose proof (gate_binding_frame (agent_binding_from <$> create_agent req) d) as Hg.
  destruct (gate_binding _ d) as [[[]|e] d1]; cbn in Hg; [| by apply call_idle].
  unfold on_terminal, map_err_m, zoom, on_router. cbv [modify].
  pose proof (host_create_inv n (terminal d1) req conn (agent_binding_from <$> create_agent req)) as Hc.
  rewrite Hg in Hc at 1. specialize (Hc Hi ltac:(lia)).
  destruct (host_create req conn _ (terminal d1)) as [[rep|e] h']; cbn;
    destruct Hc as [Hi' Hv]; (split; [eapply host_inv_le; [| done]; lia | | done]).
  - destruct Hv as (Hnone & Hkeep & Hown). rewrite Hg in *. intros sid. cbn.
    destruct (decide (sid = tr_session_id rep)) as [->|Hne]; [by right; right | left; by apply Hkeep].
  - intros sid. left. cbn. by rewrite Hv, Hg.
Qed.

Lemma handle_write_ok n conn payload d :
  host_inv n (terminal d) -> (N.of_nat (n + 4) < U64_MAX)%N ->
  call_ok n TWrite conn payload d (handle_write conn payload d).2.
Proof.
  intros Hi Hn. unfold handle_write. cbv [mbind M_bind lift throw_if mret M_ret].
  destruct (parse_request _ _) as [req|] eqn:Hp; [| by apply call_idle]. apply parse_request_ok in Hp.
  destruct (negb _ || _ || _) eqn:Hv; [by apply call_idle |].
  rewrite !orb_false_iff, !negb_false_iff, N.eqb_eq, bool_decide_eq_false in Hv. destruct Hv as [[Hs Hid] Hne].
  destruct (authorize_run conn (write_session_id req) d) as (d1 & Hd & [[-> Hm] | [e ->]]);
    [| by apply call_idle].
  pose proof (host_write n (terminal d1) (write_session_id req) (write_data req)) as Hw.
  rewrite Hd in Hw at 1. specialize (Hw Hi ltac:(lia)) as [Hi' Hk].
  destruct (on_terminal_run (on_registry (Terminal.write (write_session_id req) (write_data req))) d1) as [Ht _].
  assert (Hfin : forall d2, terminal d2 = (on_registry (Terminal.write (write_session_id req) (write_data req)) (terminal d1)).2 ->
            call_ok n TWrite conn payload d d2).
  { intros d2 Hd2. destruct (N.lt_ge_cases MAX_WRITE_BYTES (N.of_nat (String.length (write_data req)))) as [Hl|Hl].
    - apply call_idle; [| done]. by rewrite Hd2, large_write_idle.
    - eapply (call_changes n 1); [done | by exists req | lia | rewrite Hd2; by rewrite Nat.add_1_r | rewrite Hd2; by rewrite <- Hd]. }
  by destruct (on_terminal _ d1) as [[[]|e] d2]; apply Hfin.
Qed.

Lemma handle_resize_ok n conn payload d :
  host_inv n (terminal d) -> (N.of_nat (n + 4) < U64_MAX)%N ->
  call_ok n TResize conn payload d (handle_resize conn payload d).2.
Proof.
  intros Hi Hn. unfold handle_resize. cbv [mbind M_bind lift throw_if mret M_ret gets].
  destruct (parse_request _ _) as [req|] eqn:Hp; [| by apply call_idle]. apply parse_request_ok in Hp.
  destruct (negb _ || _) eqn:Hv; [by apply call_idle |].
  rewrite !orb_false_iff, !negb_false_iff, N.eqb_eq in Hv. destruct Hv as [Hs Hid].
  destruct (authorize_run conn (resize_session_id req) d) as (d1 & Hd & [[-> Hm] | [e ->]]);
    [| by apply call_idle].
  pose proof (host_resize n (terminal d1) (resize_session_id req) (resize_cols req) (resize_rows req)) as Hw.
  rewrite Hd in Hw at 1. specialize (Hw Hi ltac:(lia)) as (Hi' & Hk & _).
  destruct (on_terminal_run (on_registry (Terminal.resize (resize_session_id req) (resize_cols req)
              (resize_rows req))) d1) as [Ht _].
  assert (Hfin : forall d2, terminal d2 = (on_registry (Terminal.resize (resize_session_id req) (resize_cols req) (resize_rows req)) (terminal d1)).2 ->
            call_ok n TResize conn payload d d2).
  { intros d2 Hd2. destruct (geometry_ok (resize_cols req) (resize_rows req)) eqn:Hg.
    - eapply (call_changes n 1); [done | by exists req | lia | rewrite Hd2; by rewrite Nat.add_1_r | rewrite Hd2; by rewrite <- Hd].
    - apply call_idle; [| done]. by rewrite Hd2, bad_geometry_idle. }
  by destruct (on_terminal _ d1) as [[rep|e] d2]; apply Hfin.
Qed.

Lemma flush_ok n h sid :
  host_inv n h -> (N.of_nat (S n) < U64_MAX)%N ->
  exists h', flush_console sid h = (Ok tt, h') /\ host_inv (S n) h' /\ keeps_others sid h h' /\
    owners h' = owners h.
Proof.
  intros Hi Hn. unfold flush_console. unfold on_registry at 1, zoom, Terminal.report, Terminal.session, locked.
  assert (Hsame : exists h', h' = h /\ host_inv (S n) h' /\ keeps_others sid h h' /\ owners h' = owners h).
  { exists h. split_and!; try done. eapply host_inv_le; [| done]. lia. }
  assert (Heta : set_registry (registry h) h = h) by (by destruct h).
  cbv [mbind M_bind mret M_ret].
  destruct (sessions (registry h) !! sid) as [a|]; cbn [ok_or].
  2:{ exists h. destruct Hsame as (? & -> & ?). by rewrite Heta. }
  destruct (heap (registry h) !! a) as [s|]; cbn [ok_or].
  2:{ exists h. destruct Hsame as (? & -> & ?). by rewrite Heta. }
  rewrite Heta. destruct (host_resize n h sid (rep_cols (report_of s)) (rep_rows (report_of s)) Hi Hn)
    as (H1 & H2 & H3 & _). eexists. split; [done |]. done.
Qed.

Lemma handle_close_ok n conn payload d :
  host_inv n (terminal d) -> (N.of_nat (n + 4) < U64_MAX)%N ->
  call_ok n TClose conn payload d (handle_close conn payload d).2.
Proof.
  intros Hi Hn. unfold handle_close. cbv [mbind M_bind lift throw_if mret M_ret modify].
  destruct (parse_request _ _) as [req|] eqn:Hp; [| by apply call_idle]. apply parse_request_ok in Hp.
  destruct (negb _ || _) eqn:Hv; [by apply call_idle |].
  rewrite !orb_false_iff, !negb_false_iff, N.eqb_eq in Hv. destruct Hv as [Hs Hid]. set (sid := close_session_id req).
  destruct (authorize_run conn sid d) as (d1 & Hd & [[-> Hm] | [e ->]]); [| by apply call_idle].
  rewrite <- Hd in Hi. destruct (flush_ok n (terminal d1) sid Hi) as (h2 & Hf & Hi2 & Hk2 & Ho2); [lia |].
  unfold on_terminal at 1, map_err_m, zoom. rewrite Hf. cbn [map_err].
  destruct (host_close (S n) h2 sid Hi2) as (r' & Hcl & Hi3 & Hk3 & _); [lia | rewrite Ho2, Hd; by destruct Hm as [-> _] |].
  unfold on_terminal, on_registry, map_err_m, zoom. cbn [terminal set_terminal]. rewrite Hcl. cbn.
  eapply (call_changes n 3 TClose conn payload sid); [done | by exists req | lia | cbn |].
  - eapply host_inv_le; [| exact Hi3]. lia.
  - intros sid' Hne. cbn. rewrite (Hk3 sid' Hne), (Hk2 sid' Hne). by rewrite Hd.
Qed.

Lemma terminal_call_ok n m conn payload d :
  host_inv n (terminal d) -> (N.of_nat (n + 4) < U64_MAX)%N ->
  call_ok n m conn payload d (terminal_call m conn payload d).2.
Proof.
  intros Hi Hn. destruct m; cbn [terminal_call].
  - by apply handle_create_ok.
  - by apply handle_write_ok.
  - by apply handle_resize_ok.
  - by apply handle_close_ok.
  - by apply call_idle.
Qed.

(** ** Histories *)

(** One step of the daemon, as the terminals see it: a handler call, a step of a
    session's reader, the drain of the queue, or anything that leaves the
    terminal host alone. *)
Inductive cap_step : Daemon -> Daemon -> Prop :=
| cs_call m conn payload d : cap_step d (terminal_call m conn payload d).2
| cs_reader a t d :
    cap_step d (set_terminal (set_registry (reader_send a t (registry (terminal d))).2 (terminal d)) d)
| cs_drain d :
    cap_step d (set_terminal (set_registry (next_event (registry (terminal d))).2 (terminal d)) d)
| cs_other d d' : terminal d' = terminal d -> cap_step d d'.

Lemma host_background n h o :
  host_inv n h -> (N.of_nat (n + 4) < U64_MAX)%N ->
  removed (run_pty (hist_of h) o) = [] ->
  sessions (reg (run_pty (hist_of h) o)) = sessions (registry h) ->
  host_inv (n + 4) (set_registry (reg (run_pty (hist_of h) o)) h).
Proof.
  intros [Hp Hc Ho Hb] Hn Hrm Hs. destruct (pty_op_step n n _ o Hp Hc) as [Hp' Hc']; [lia.. |].
  destruct (run_pty (hist_of h) o) as [r rm]. cbn in *. subst rm.
  split; cbn; [done | eapply counters_le; [| | done]; lia | by rewrite Hs | done].
Qed.

Lemma cap_step_inv n d d' :
  cap_step d d' -> host_inv n (terminal d) -> (N.of_nat (n + 4) < U64_MAX)%N ->
  host_inv (n + 4) (terminal d').
Proof.
  intros Hstep Hi Hn. destruct Hstep as [m conn payload d | a t d | d | d d' Heq].
  - by apply terminal_call_ok.
  - apply (host_background n (terminal d) (PSend a t)); [done | done | done |].
    by destruct (send_effect a t (registry (terminal d))) as (_ & Hs & _).
  - apply (host_background n (terminal d) PNext); [done | done | done |]. cbn. unfold next_event.
    by destruct (queue (registry (terminal d))).
  - rewrite Heq. eapply host_inv_le; [| done]. lia.
Qed.

(** The daemons whose terminals started empty, after [k] steps. *)
Definition reachable_in (k : nat) d : Prop :=
  exists d0 o, terminal d0 = new_terminal_host o /\ nsteps cap_step k d0 d.

Lemma reachable_host_inv k d :
  reachable_in k d -> (N.of_nat (4 * k) < U64_MAX)%N -> host_inv (4 * k) (terminal d).
Proof.
  intros (d0 & o & H0 & Hk). revert d Hk. induction k as [|k IH]; intros d Hk Hb.
  - inv Hk. rewrite H0. destruct (run_ptys_inv o []) as [Hp Hc]; [done.. |].
    by split; cbn; [done | done | intros sid; rewrite !lookup_empty | intros sid; rewrite lookup_empty; intros [? ?]].
  - apply nsteps_inv_r in Hk as (d1 & Hk & Hs). replace (4 * S k) with (4 * k + 4) in * by lia.
    eapply cap_step_inv; [done | apply IH; [done | lia] | done].
Qed.

(** The daemon's bookkeeping of terminals is exact: whatever the
    connections call and the registry's threads do, a session has an owning
    connection exactly when the registry holds it, only those have an agent
    binding, and each of them is open, under its own id, with a geometry within
    the schema's bounds. *)
Theorem terminal_bookkeeping k d :
  reachable_in k d -> (N.of_nat (4 * k) < U64_MAX)%N ->
  let h := terminal d in
  (forall sid, is_Some (owners h !! sid) <-> is_Some (sessions (registry h) !! sid)) /\
  (forall sid, is_Some (bindings h !! sid) -> is_Some (owners h !! sid)) /\
  (forall sid a, sessions (registry h) !! sid = Some a ->
     exists s, heap (registry h) !! a = Some s /\ pty_id s = sid /\ closed s = false /\
       geometry_ok (cols s) (rows s) = true).
Proof.
  intros Hr Hb h. destruct (reachable_host_inv k d Hr Hb) as [Hp _ Ho Hbi]. split_and!; [done.. |].
  intros sid a Ha. destruct (pi_registered _ Hp sid a Ha) as (s & Hs & Hid & Hc). exists s.
  split_and!; try done. by destruct (pi_sessions _ Hp a s Hs).
Qed.

(** C8.  Terminal sessions are isolated: a call changes the owner, binding,
    geometry or state of an existing session only if the call is a well-formed
    write, resize or close that names the session (schema version, form of the id,
    bounds of the data or of the geometry), the calling connection created the
    session and, for an agent's session, the broker accepts the bound agent,
    generation and scope at that moment.  A write, resize, close or status call for
    which this holds of no session leaves the whole terminal host as it was, so
    nothing is written to any terminal either. *)
Theorem terminal_session_isolation k d m conn payload :
  reachable_in k d -> (N.of_nat (4 * k + 4) < U64_MAX)%N ->
  let d' := (terminal_call m conn payload d).2 in
  let permitted sid :=
    asks_to_change m payload sid /\ owners (terminal d) !! sid = Some conn /\
    forall b, bindings (terminal d) !! sid = Some b ->
      (enforce_dispatch terminal_capability (bind_agent_id b) (bind_generation b) (bind_scope b)
         (broker d)).1 = Ok tt in
  (forall sid, is_Some (owners (terminal d) !! sid) ->
     view sid (terminal d') = view sid (terminal d) \/ permitted sid) /\
  (m <> TCreate -> terminal d' = terminal d \/ exists sid, permitted sid).
Proof.
  intros Hr Hb d' permitted. pose proof (reachable_host_inv k d Hr ltac:(lia)) as Hi.
  destruct (terminal_call_ok (4 * k) m conn payload d Hi Hb) as [_ Hch Hidle]. split.
  - intros sid [k0 Ho]. destruct (Hch sid) as [? | [[[Hown Hg] Ha] | [Hn _]]]; [by left | by right | congruence].
  - intros Hm. destruct (Hidle Hm) as [? | (sid & [Hown Hg] & Ha)]; [by left | right; by exists sid].
Qed.

(** A human takeover or a disconnect freezes an agent's terminals: right
    after the activation that a session is bound to is revoked, no call of any
    connection changes that session. *)
Theorem takeover_freezes_terminal k d m conn payload sid b s why c :
  reachable_in k d -> (N.of_nat (4 * k + 8) < U64_MAX)%N ->
  bindings (terminal d) !! sid = Some b ->
  activations_of (broker d) (bind_agent_id b) !! bind_activation_id b = Some s ->
  act_generation s = bind_generation b ->
  let d1 := set_broker (set_clock c (revoke_agent_grants (E := Empty_set) (bind_activation_id b) why
                                       (broker d)).2) d in
  view sid (terminal (terminal_call m conn payload d1).2) = view sid (terminal d).
Proof.
  intros Hr Hb Hbind Hact Hgen d1. pose proof (reachable_host_inv k d Hr ltac:(lia)) as Hi.
  destruct (terminal_call_ok (4 * k) m conn payload d1 Hi ltac:(lia)) as [_ Hch _].
  destruct (Hch sid) as [-> | [[[_ Hm] _] | [Hn _]]]; [done | |].
  - specialize (Hm b Hbind). unfold gate_accepts in Hm. cbn in Hm.
    pose proof (revoked_gate_closed (broker d) _ _ s why terminal_capability (bind_scope b) c Hact) as Hg.
    rewrite Hgen in Hg. cbn in Hg. by rewrite Hm in Hg.
  - destruct (hi_bindings _ _ Hi sid) as [? Ho]; [by rewrite Hbind |]. cbn in Hn. congruence.
Qed.
End Facts.

(** ** An agent's session *)

Module Sample.
Import Loopback.

(** Payloads that are already decoded. *)
Inductive Msg := MCreate (r : TerminalCreateRequest) | MWrite (r : TerminalWriteRequest) | MOther.

#[export] Instance wire : TerminalWire Msg := {|
  create_from_value := fun v => if v is MCreate r then Ok r else Err "not a create"%string;
  write_from_value := fun v => if v is MWrite r then Ok r else Err "not a write"%string;
  resize_from_value := fun _ => Err "not a resize"%string;
  close_from_value := fun _ => Err "not a close"%string;
  report_to_value := fun _ => MOther;
  terminal_status_to_value := fun _ _ => MOther;
  empty_object := MOther
|}.

Definition scope : TerminalAgentScope :=
  {| as_session_id := Some "session-1"%string; as_workspace := None; as_domains := []; as_resources := [] |}.
Definition identity : TerminalAgentIdentity :=
  {| agent_id := "agent-1"; agent_activation_id := "act-0001"; agent_generation := 1;
     agent_scope := scope |}.
Definition create_msg : Msg :=
  MCreate {| create_schema_version := 1; create_mode := "agent_automation"; create_cols := 80;
             create_rows := 24; create_shell := None; create_cwd := None; create_agent := Some identity |}.
Definition write_msg : Msg :=
  MWrite {| write_schema_version := 1; write_session_id := "pty-5-1"; write_data := "ls" |}.

Definition negotiation : AgentNegotiationResult :=
  {| neg_activation_id := "act-0001"; neg_agreed := true; neg_granted := [terminal_capability];
     neg_conformance := Known;
     neg_lease_constraints := Some {| AgentBridge.max_seconds := 60; AgentBridge.approval_required := None |};
     neg_scope := default_scope |}.

Definition start : Daemon Msg N nat N unit :=
  {| terminal := new_terminal_host (5%N : N); browser := new_browser_host; runtime := tt;
     router := EventRouter.spawn;
     broker := (broker_grant_from_negotiation "agent-1" negotiation (with_clock 1000%N)).2;
     scheduler := Scheduler.new_inner; wall := 1000%N |}.

Definition created : Daemon Msg N nat N unit := (terminal_call TCreate 3 create_msg start).2.

Lemma created_reachable : reachable_in 1 created.
Proof. exists start, 5%N. split; [done |]. apply nsteps_once. apply cs_call. Qed.

Lemma terminal_bookkeeping_witness :
  forall sid, is_Some (owners (terminal created) !! sid) <-> is_Some (sessions (registry (terminal created)) !! sid).
Proof.
  apply (terminal_bookkeeping 1 created created_reachable). vm_compute. reflexivity.
Defined.

(** Another connection writes, and the creator sends a write of another schema
    version. *)
Definition stale_write : Msg :=
  MWrite {| write_schema_version := 2; write_session_id := "pty-5-1"; write_data := "ls" |}.

Lemma terminal_session_isolation_witness :
  view "pty-5-1" (terminal (terminal_call TWrite 4 write_msg created).2) = view "pty-5-1" (terminal created) /\
  terminal (terminal_call TWrite 3 stale_write created).2 = terminal created.
Proof.
  split.
  - destruct (terminal_session_isolation 1 created TWrite 4 write_msg created_reachable ltac:(vm_compute; reflexivity)) as [H _].
    destruct (H "pty-5-1"%string) as [Hv | (_ & Ho & _)]; [vm_compute; eexists; reflexivity | exact Hv |].
    vm_compute in Ho. discriminate Ho.
  - destruct (terminal_session_isolation 1 created TWrite 3 stale_write created_reachable ltac:(vm_compute; reflexivity)) as [_ H].
    destruct (H ltac:(discriminate)) as [Hv | (sid & (r & Hr & _ & Hs & _) & _)]; [exact Hv |].
    injection Hr as <-. discriminate Hs.
Defined.

(** The creator writes after the takeover. *)
Lemma takeover_freezes_terminal_witness :
  let d1 := set_broker (set_clock 1001%N (revoke_agent_grants (E := Empty_set) "act-0001" HumanTakeover
                                            (broker created)).2) created in
  view "pty-5-1" (terminal (terminal_call TWrite 3 write_msg d1).2) = view "pty-5-1" (terminal created).
Proof.
  apply (takeover_freezes_terminal 1 created TWrite 3 write_msg "pty-5-1" (agent_binding_from identity)
           {| act_generation := 1; act_revoked := false |} HumanTakeover 1001%N created_reachable).
  - vm_compute. reflexivity.
  - vm_compute. reflexivity.
  - vm_compute. reflexivity.
  - vm_compute. reflexivity.
Defined.
End Sample.
