(* ===== verification/HostCapabilities.v ===== *)
(** * The daemon's browser and runtime capabilities

    Model of the request types, the validation and the envelope handlers of
    [crates/daemon/src/browser.rs] (Module [BrowserCap]) and
    [crates/daemon/src/runtime.rs] (Module [RuntimeCap]).  [serde_json]'s typed
    decoders and serializers are the interfaces [BrowserWire] and
    [RuntimeWire]. *)
From Stdlib Require Import NArith Ascii Lia.
From stdpp Require Import base strings gmap list option pretty.
From S2P Require Import Prelude Text Broker EventRouter Environment Envelope Browser DaemonState.

Module BrowserCap.

Record BrowserCreateRequest := { create_schema_version : N; create_mode : string }.
Record BrowserCloseRequest := { close_schema_version : N; close_session_id : string }.
Record BrowserNavigateRequest := {
  navigate_schema_version : N; navigate_session_id : string; navigate_url : text
}.
Record BrowserLoadFailedRequest := {
  load_failed_schema_version : N; load_failed_session_id : string; load_failed_message : text
}.

Class BrowserWire (Value : Type) := {
  create_from_value : Value -> result string BrowserCreateRequest;
  close_from_value : Value -> result string BrowserCloseRequest;
  navigate_from_value : Value -> result string BrowserNavigateRequest;
  load_failed_from_value : Value -> result string BrowserLoadFailedRequest;
  report_to_value : BrowserReport -> Value;
  list_to_value : list BrowserReport -> Value;
  status_to_value : list BrowserReport -> nat -> Value
}.

(** [valid_session_id] of [browser.rs] *)
Definition valid_session_id (s : string) : bool :=
  String.prefix "brw-" s && (4 <? String.length s)%nat && (String.length s <=? 64)%nat &&
  forallb (fun c => is_lower c || is_digit c || Ascii.eqb c "-") (String.list_ascii_of_string s).

(** [BrowserCreateRequest::is_valid] *)
Definition create_is_valid (r : BrowserCreateRequest) : bool :=
  (create_schema_version r =? BROWSER_SCHEMA_VERSION)%N &&
  bool_decide (create_mode r = "human_surface")%string.

(** [BrowserNavigateRequest::is_valid] *)
Definition navigate_is_valid (r : BrowserNavigateRequest) : bool :=
  (navigate_schema_version r =? BROWSER_SCHEMA_VERSION)%N && valid_session_id (navigate_session_id r).

(** [BrowserLoadFailedRequest::is_valid] *)
Definition load_failed_is_valid (r : BrowserLoadFailedRequest) : bool :=
  (load_failed_schema_version r =? BROWSER_SCHEMA_VERSION)%N &&
  valid_session_id (load_failed_session_id r) && negb (is_blank (load_failed_message r)).

(** [map_browser_error] *)
Definition map_browser_error (e : BrowserError) : DaemonMethodError :=
  match e with
  | NotFound => failed Unavailable "browser session is unknown or already closed" false
  | ClosedError => failed Unavailable "browser session is already closed" false
  | InvalidUrl _ => failed MalformedMessage "url rejected by the browser navigation policy" false
  | Other => failed Unavailable "browser provider state is unavailable" true
  end.

(** [BrowserLifecycleKind::as_str] *)
Definition lifecycle_as_str (k : BrowserLifecycleKind) : string :=
  match k with LifeCreated => "created" | LifeClosed => "closed" end.

(** [BrowserLifecycleKind::event_method] *)
Definition event_method (k : BrowserLifecycleKind) : string :=
  match k with
  | LifeCreated => "browser.session-created"
  | LifeClosed => "browser.session-closed"
  end.

(** [BrowserLifecycleEvent::new] *)
Definition lifecycle (sid : string) (k : BrowserLifecycleKind) (now : N) : RouterEvent :=
  EventRouter.Browser {| life_session_id := sid; life_kind := k; occurred_at := now; life_url := None |}.

Section Handlers.
Context {Value C P OS RT : Type} `{!Clock C} `{!BrowserWire Value}.
Abbreviation H A := (Handler (Value := Value) (C := C) (P := P) (OS := OS) (RT := RT) A).

(** A method of [ctx.browser]. *)
Definition on_browser {A} (m : M BrowserHost BrowserError A) : H A :=
  map_err_m map_browser_error (zoom browser set_browser m).

(** [check_owner] of [browser.rs] *)
Definition check_owner (conn : N) (sid : string) : H unit := fun d =>
  match browser_owners (browser d) !! sid with
  | Some owner =>
      if negb (owner =? conn)%N
      then (Err (failed NotProcessOwner "browser session is owned by another connection" false), d)
      else (Ok tt, d)
  | None =>
      match (Browser.get sid (browser_registry (browser d))).1 with
      | Ok _ => (Ok tt, d)
      | Err _ => (Err (failed Unavailable "browser session is unknown or already closed" false), d)
      end
  end.

(** [handle_create] *)
Definition handle_create (conn : N) (payload : Value) : H Value :=
  request ← lift (parse_request "browser.create" (create_from_value payload));
  throw_if (negb (create_is_valid request))
    (failed MalformedMessage "browser.create request is malformed (schemaVersion must be 1 and mode must be human_surface)" false);;
  now ← daemon_now;
  report ← on_browser (browser_host_create now conn);
  on_router (subscribe conn (br_session_id report));;
  at' ← daemon_now;
  on_router (publish (lifecycle (br_session_id report) LifeCreated at'));;
  mret (report_to_value report).

(** [handle_close] *)
Definition handle_close (conn : N) (payload : Value) : H Value :=
  request ← lift (parse_request "browser.close" (close_from_value payload));
  throw_if (negb (close_schema_version request =? BROWSER_SCHEMA_VERSION)%N
            || negb (valid_session_id (close_session_id request)))
    (failed MalformedMessage "browser.close request is malformed" false);;
  check_owner conn (close_session_id request);;
  now ← daemon_now;
  now' ← daemon_now;
  report ← on_browser (browser_host_close now now' (close_session_id request));
  at' ← daemon_now;
  on_router (publish (lifecycle (close_session_id request) LifeClosed at'));;
  on_router (unsubscribe conn (close_session_id request));;
  mret (report_to_value report).

(** [handle_navigate] *)
Definition handle_navigate (conn : N) (payload : Value) : H Value :=
  request ← lift (parse_request "browser.navigate" (navigate_from_value payload));
  throw_if (negb (navigate_is_valid request))
    (failed MalformedMessage "browser.navigate request is malformed (schemaVersion must be 1 and sessionId must be a valid session id)" false);;
  check_owner conn (navigate_session_id request);;
  now ← daemon_now;
  now' ← daemon_now;
  s ← on_browser (on_browser_registry
        (record_navigation now now' (navigate_session_id request) (navigate_url request)));
  mret (report_to_value (browser_public_report s)).

(** [handle_load_failed] *)
Definition handle_load_failed (conn : N) (payload : Value) : H Value :=
  request ← lift (parse_request "browser.load-failed" (load_failed_from_value payload));
  throw_if (negb (load_failed_is_valid request))
    (failed MalformedMessage "browser.load-failed request is malformed (schemaVersion must be 1, sessionId valid and message non-empty)" false);;
  check_owner conn (load_failed_session_id request);;
  now ← daemon_now;
  now' ← daemon_now;
  s ← on_browser (on_browser_registry
        (mark_load_failed now now' (load_failed_session_id request) (load_failed_message request)));
  mret (report_to_value (browser_public_report s)).

(** [handle_list] *)
Definition handle_list : H Value :=
  reports ← gets (fun d => browser_reports (browser d));
  mret (list_to_value reports).

(** [handle_status] of [browser.rs] *)
Definition handle_status : H Value :=
  sessions ← gets (fun d => browser_reports (browser d));
  mret (status_to_value sessions (length sessions)).
End Handlers.
End BrowserCap.

Module RuntimeCap.

(** The requests; a start and a status request carry no generation. *)
Record RuntimeRequest := { schema_version : N; environment_id : text }.
Record GenerationRequest := { request : RuntimeRequest; expected_generation : N }.

Class RuntimeWire (Value Report Binding : Type) := {
  start_from_value : Value -> result string RuntimeRequest;
  status_from_value : Value -> result string RuntimeRequest;
  stop_from_value : Value -> result string GenerationRequest;
  restart_from_value : Value -> result string GenerationRequest;
  binding_from_value : Value -> result string GenerationRequest;
  report_value : Report -> Value;
  binding_value : Binding -> Value;
  show : text -> string
}.

(** [managed_error]; [show] prints the reasons. *)
Definition managed_error (show : text -> string) (e : ManagedRuntimeError) : DaemonMethodError :=
  match e with
  | NotManaged => failed Envelope.Conflict "the catalog environment is not Managed" false
  | InvalidEnvironment => failed MalformedMessage "the catalog environment failed validation" false
  | UnsupportedSource => failed MalformedMessage "Managed start source is missing or is not a deepseek-harness checkout (entry or TS loader not found)" false
  | NodeOverrideUnsupported => failed MalformedMessage "Managed start needs an absolute existing Node executable (set nodePath or add node to PATH)" false
  | Environment.Conflict => failed Envelope.Conflict "another Managed environment or lifecycle transition is active" true
  | Environment.StaleGeneration => failed Envelope.StaleGeneration "the Managed lifecycle request targets a stale generation" false
  | CandidateInvalid | CandidatePortMismatch =>
      failed Unavailable "Managed endpoint candidate failed publication policy" false
  | ProcessExited => failed Unavailable "Managed process exited before readiness" true
  | ReadinessTimeout => failed Unavailable "Managed readiness timed out" true
  | EndpointStillReachable => failed Unavailable "Managed process stopped, but the previous endpoint remains reachable" true
  | SurfaceBindingUnavailable => failed Unavailable "Managed endpoint is not a verified current-generation binding" true
  | SpawnFailed reason => failed Unavailable ("Managed process could not be started: " +:+ show reason) true
  | ProcessTreeFailed reason => failed Unavailable ("Managed process tree could not be attached: " +:+ show reason) true
  | RuntimeUnavailable reason => failed Unavailable (show reason) true
  | StopFailed | StateUnavailable | ClockUnavailable =>
      failed Unavailable "Managed runtime is unavailable" true
  end.

(** [host_error] *)
Definition host_error (show : text -> string) (e : RuntimeHostError) : DaemonMethodError :=
  match e with
  | CatalogCorrupt => failed Unavailable "the environment catalog is corrupt; re-save an environment from the Shell" false
  | CatalogUnavailable => failed Unavailable "the environment catalog is unavailable" true
  | EnvironmentNotFound id =>
      failed Unavailable ("environment " +:+ dq +:+ show id +:+ dq +:+ " is not in the catalog; save it from the Shell first") false
  | ManagedError e => managed_error show e
  end.

(** [validate_request] *)
Definition validate_request (r : RuntimeRequest) : result DaemonMethodError unit :=
  if negb (schema_version r =? 1)%N || negb (is_valid_id (environment_id r))
  then Err (failed MalformedMessage "runtime request requires schemaVersion 1 and a valid environmentId" false)
  else Ok tt.

Section Handlers.
Context {Value C P OS RT Report Binding : Type} `{!RuntimeWire Value Report Binding}
        `{!ManagedRuntime RT Report Binding}.
Abbreviation H A := (Handler (Value := Value) (C := C) (P := P) (OS := OS) (RT := RT) A).

(** A call on [ctx.runtime.state()]. *)
Definition on_runtime {A} (m : M RT ManagedRuntimeError A) : H A :=
  map_err_m (managed_error show) (zoom runtime set_runtime m).

(** [ctx.runtime.environment(..).map_err(host_error)?] *)
Definition resolve (id : text) : H ManagedEnvironment := fun d =>
  (map_err (host_error show) (host_environment id (runtime d)), d).

(** The generation check of the three calls that name one. *)
Definition require_generation (method : string) (r : GenerationRequest) : H unit :=
  throw_if (expected_generation r =? 0)%N
    (failed MalformedMessage (method +:+ " requires expectedGeneration >= 1")%string false).

(** [handle_start] *)
Definition handle_start (payload : Value) : H Value :=
  r ← lift (parse_request "runtime.start" (start_from_value payload));
  lift (validate_request r);;
  e ← resolve (environment_id r);
  report ← on_runtime (start_managed_environment e);
  mret (report_value report).

(** [handle_status] of [runtime.rs] *)
Definition handle_status (payload : Value) : H Value :=
  r ← lift (parse_request "runtime.status" (status_from_value payload));
  lift (validate_request r);;
  e ← resolve (environment_id r);
  report ← on_runtime (get_managed_runtime_status e);
  mret (report_value report).

(** [handle_stop] *)
Definition handle_stop (payload : Value) : H Value :=
  r ← lift (parse_request "runtime.stop" (stop_from_value payload));
  lift (validate_request (request r));;
  require_generation "runtime.stop" r;;
  e ← resolve (environment_id (request r));
  report ← on_runtime (stop_managed_environment e (expected_generation r));
  mret (report_value report).

(** [handle_restart] *)
Definition handle_restart (payload : Value) : H Value :=
  r ← lift (parse_request "runtime.restart" (restart_from_value payload));
  lift (validate_request (request r));;
  require_generation "runtime.restart" r;;
  e ← resolve (environment_id (request r));
  report ← on_runtime (restart_managed_environment e (expected_generation r));
  mret (report_value report).

(** [handle_binding] *)
Definition handle_binding (payload : Value) : H Value :=
  r ← lift (parse_request "runtime.binding" (binding_from_value payload));
  lift (validate_request (request r));;
  require_generation "runtime.binding" r;;
  e ← resolve (environment_id (request r));
  binding ← on_runtime (verified_surface_binding e (expected_generation r));
  mret (binding_value binding).
End Handlers.
End RuntimeCap.
