(* ===== verification/Dispatch.v ===== *)
(** * The daemon's capability catalog

    Model of [crates/daemon/src/capabilities.rs]: the grantable coordinates and
    the table that sends a capability and a method to its handler.  The
    serializers of the answers that are built here belong to [serde_json]
    ([DaemonWire]). *)
From Stdlib Require Import NArith ZArith Ascii Lia.
From stdpp Require Import base strings gmap list option.
From S2P Require Import Prelude Text Broker EventRouter Scheduler Terminal Browser Envelope.
From S2P Require Import DaemonState TerminalCapability HostCapabilities.

Definition SYSTEM_API_VERSION : string := "system.dsh-desktop.local/v1alpha1".
Definition SYSTEM_KIND : string := "System".
Definition DAEMON_API_VERSION : string := "daemon.dsh-desktop.local/v1alpha1".
Definition DAEMON_KIND : string := "Daemon".
Definition BROWSER_API_VERSION : string := "browser.dsh-desktop.local/v1alpha1".
Definition BROWSER_KIND : string := "Browser".
Definition RUNTIME_API_VERSION : string := "runtime.dsh-desktop.local/v1alpha1".
Definition RUNTIME_KIND : string := "Runtime".
Definition SCHEDULER_API_VERSION : string := "scheduler.dsh-desktop.local/v1alpha1".
Definition SCHEDULER_KIND : string := "Scheduler".

#[export] Instance ProtocolCoordinate_eq_dec : EqDecision ProtocolCoordinate.
Proof. solve_decision. Defined.

Definition coordinate (api kind : string) : ProtocolCoordinate :=
  {| Envelope.api_version := api; coordinate_kind := kind |}.

(** [all] *)
Definition all : list ProtocolCoordinate :=
  [coordinate SYSTEM_API_VERSION SYSTEM_KIND; coordinate DAEMON_API_VERSION DAEMON_KIND;
   coordinate BROWSER_API_VERSION BROWSER_KIND; coordinate TERMINAL_API_VERSION TERMINAL_KIND;
   coordinate RUNTIME_API_VERSION RUNTIME_KIND; coordinate SCHEDULER_API_VERSION SCHEDULER_KIND].

(** [supports] *)
Definition catalog_supports (c : ProtocolCoordinate) : bool := bool_decide (c ∈ all).

Record DaemonStatusSnapshot := {
  version : string;
  snapshot_pid : N;
  started_at : string;
  uptime_seconds : N;
  claim_port : N;
  port : N;
  connections : N;
  snapshot_credentials_issued : N;
  activations : nat;
  scheduler_stats : SchedulerStats;
  terminals : nat;
  browsers : nat;
  snapshot_managed_runtimes : nat
}.

Class DaemonWire (Value : Type) := {
  pong_value : Value -> Value;
  status_value : DaemonStatusSnapshot -> Value;
  wake_from_value : Value -> result string WakeRequestPayload;
  cancel_from_value : Value -> result string CancelRequestPayload;
  registered_value : Registered -> Value;
  cancelled_value : Cancelled -> Value
}.

(** [scheduler_error] *)
Definition scheduler_error (c : ProtocolCoordinate) (m : string) (e : SchedulerError) :
    DaemonMethodError :=
  match e with
  | Scheduler.InvalidPayload message => DaemonState.InvalidPayload c m message
  | Scheduler.Conflict message => MethodConflict c m message
  end.

Section Dispatch.
Context {Value C P OS RT Report Binding : Type} `{!Clock C} `{!PtyPlatform P OS} `{!Clock OS}
  `{!ManagedRuntime RT Report Binding} `{!TerminalWire Value} `{!BrowserCap.BrowserWire Value}
  `{!RuntimeCap.RuntimeWire Value Report Binding} `{!DaemonWire Value}.
Abbreviation Run A := (Handler (Value := Value) (C := C) (P := P) (OS := OS) (RT := RT) A).

Definition method_not_found (c : ProtocolCoordinate) (m : string) : Run Value :=
  throw (MethodNotFound c m).

(** The [browser.*] methods. *)
Definition dispatch_browser (conn : N) (c : ProtocolCoordinate) (m : string) (payload : Value) : Run Value :=
  if String.eqb m "browser.create" then BrowserCap.handle_create conn payload
  else if String.eqb m "browser.list" then BrowserCap.handle_list
  else if String.eqb m "browser.status" then BrowserCap.handle_status
  else if String.eqb m "browser.close" then BrowserCap.handle_close conn payload
  else if String.eqb m "browser.navigate" then BrowserCap.handle_navigate conn payload
  else if String.eqb m "browser.load-failed" then BrowserCap.handle_load_failed conn payload
  else method_not_found c m.

(** The [terminal.*] methods. *)
Definition terminal_method (m : string) : option TerminalCall :=
  if String.eqb m "terminal.create" then Some TCreate
  else if String.eqb m "terminal.write" then Some TWrite
  else if String.eqb m "terminal.resize" then Some TResize
  else if String.eqb m "terminal.close" then Some TClose
  else if String.eqb m "terminal.status" then Some TStatus
  else None.

Definition dispatch_terminal (conn : N) (c : ProtocolCoordinate) (m : string) (payload : Value) : Run Value :=
  match terminal_method m with
  | Some call => terminal_call call conn payload
  | None => method_not_found c m
  end.

(** The [runtime.*] methods. *)
Definition dispatch_runtime (c : ProtocolCoordinate) (m : string) (payload : Value) : Run Value :=
  if String.eqb m "runtime.start" then RuntimeCap.handle_start payload
  else if String.eqb m "runtime.status" then RuntimeCap.handle_status payload
  else if String.eqb m "runtime.stop" then RuntimeCap.handle_stop payload
  else if String.eqb m "runtime.restart" then RuntimeCap.handle_restart payload
  else if String.eqb m "runtime.binding" then RuntimeCap.handle_binding payload
  else method_not_found c m.

(** A method of [context.scheduler]. *)
Definition on_scheduler {A} (c : ProtocolCoordinate) (m : string) (x : M Inner SchedulerError A) : Run A :=
  map_err_m (scheduler_error c m) (zoom scheduler set_scheduler x).

(** The [scheduler.*] methods; [register] reads the monotonic and the system
    clock. *)
Definition dispatch_scheduler (c : ProtocolCoordinate) (m : string) (payload : Value) : Run Value :=
  if String.eqb m "wake" then
    inst ← daemon_now;
    sys ← daemon_now;
    r ← on_scheduler c m (Scheduler.register wake_from_value payload inst (Z.of_N sys));
    mret (registered_value r)
  else if String.eqb m "cancel" then
    r ← on_scheduler c m (Scheduler.cancel cancel_from_value payload);
    mret (cancelled_value r)
  else method_not_found c m.

(** [dispatch] *)
Definition dispatch (snapshot : DaemonStatusSnapshot) (conn : N) (c : ProtocolCoordinate) (m : string)
    (payload : Value) : Run Value :=
  if bool_decide (c = coordinate SYSTEM_API_VERSION SYSTEM_KIND) then
    if String.eqb m "ping" then mret (pong_value payload) else method_not_found c m
  else if bool_decide (c = coordinate DAEMON_API_VERSION DAEMON_KIND) then
    if String.eqb m "status" then mret (status_value snapshot) else method_not_found c m
  else if bool_decide (c = coordinate BROWSER_API_VERSION BROWSER_KIND) then
    dispatch_browser conn c m payload
  else if bool_decide (c = coordinate TERMINAL_API_VERSION TERMINAL_KIND) then
    dispatch_terminal conn c m payload
  else if bool_decide (c = coordinate RUNTIME_API_VERSION RUNTIME_KIND) then
    dispatch_runtime c m payload
  else if bool_decide (c = coordinate SCHEDULER_API_VERSION SCHEDULER_KIND) then
    dispatch_scheduler c m payload
  else method_not_found c m.
End Dispatch.
