(* ===== verification/Bootstrap.v ===== *)
(** * The bootstrap credential on disk

    Model of [crates/daemon/src/credential.rs] (the data directory, the
    credential file and its atomic write), of [crates/daemon/src/singleton.rs]
    (the start lock) and of the issue and maintenance of the bootstrap
    credential in [crates/daemon/src/server.rs].

    The files of the daemon's directory are a map from names to contents and
    mode; every call may fail, and a failure stops [write_to] where it is.
    Times are milliseconds from the epoch.  [serde_json] is [FileCodec]. *)
From Stdlib Require Import NArith ZArith Lia Strings.Byte Ascii.
From stdpp Require Import base strings gmap list option.
From S2P Require Import Prelude Text Civil Credential.

Definition DATA_DIR_NAME : string := "dev.dsh.desktop-shell".
Definition CREDENTIAL_FILE_NAME : string := "daemon-credential.json".
Definition LOCK_FILE_NAME : string := "daemon.lock".
Definition CREDENTIAL_FILE_SCHEMA_VERSION : N := 3.

(** ** The data directory *)

(** The environment variables; [join] is [Path::join]. *)
Record EnvVars := {
  DSH_DAEMON_DATA_DIR : option string; APPDATA : option string; LOCALAPPDATA : option string;
  XDG_DATA_HOME : option string; HOME : option string
}.

Definition non_empty (o : option string) : option string :=
  match o with Some s => if bool_decide (s = "")%string then None else Some s | None => None end.

(** [data_dir] *)
Definition data_dir (unix : bool) (join : string -> string -> string) (e : EnvVars) : option string :=
  match non_empty (DSH_DAEMON_DATA_DIR e) with
  | Some dir => Some dir
  | None =>
  match non_empty (APPDATA e) with
  | Some dir => Some (join dir DATA_DIR_NAME)
  | None =>
  match non_empty (LOCALAPPDATA e) with
  | Some dir => Some (join dir DATA_DIR_NAME)
  | None =>
  if negb unix then Some "."%string
  else
  match non_empty (XDG_DATA_HOME e) with
  | Some dir => Some (join dir DATA_DIR_NAME)
  | None =>
  match non_empty (HOME e) with
  | Some dir => Some (join (join (join dir ".local") "share") DATA_DIR_NAME)
  | None => None
  end end end end end.

(** ** The file *)

Record FileCredential := { fc_token : string; fc_expires_at : string }.

Record CredentialFile := {
  cf_schema_version : N;
  daemon_version : string;
  cf_pid : N;
  cf_claim_port : N;
  cf_port : N;
  pipe_name : option string;
  socket_path : option string;
  cf_credential : FileCredential;
  issued_at : string
}.

(** [rfc3339] *)
Definition rfc3339 (t : N) : string := String.string_of_list_ascii (now_timestamp_like (Z.of_N t)).

(** [CredentialFile::new] *)
Definition new_file (version : string) (pid claim port : N) (token : string) (expires issued : N) :
    CredentialFile :=
  {| cf_schema_version := CREDENTIAL_FILE_SCHEMA_VERSION; daemon_version := version; cf_pid := pid;
     cf_claim_port := claim; cf_port := port; pipe_name := None; socket_path := None;
     cf_credential := {| fc_token := token; fc_expires_at := rfc3339 expires |};
     issued_at := rfc3339 issued |}.

Inductive CarrierEndpoint := NamedPipe (name : string) | UnixSocket (path : string).

(** [CarrierEndpoint::describe] *)
Definition describe (c : CarrierEndpoint) : string :=
  match c with NamedPipe n => "pipe:" +:+ n | UnixSocket p => "uds:" +:+ p end.

(** [with_pipe_name], [with_socket_path] *)
Definition with_pipe_name (n : string) (f : CredentialFile) : CredentialFile :=
  {| cf_schema_version := cf_schema_version f; daemon_version := daemon_version f; cf_pid := cf_pid f;
     cf_claim_port := cf_claim_port f; cf_port := cf_port f; pipe_name := Some n;
     socket_path := socket_path f; cf_credential := cf_credential f; issued_at := issued_at f |}.
Definition with_socket_path (p : string) (f : CredentialFile) : CredentialFile :=
  {| cf_schema_version := cf_schema_version f; daemon_version := daemon_version f; cf_pid := cf_pid f;
     cf_claim_port := cf_claim_port f; cf_port := cf_port f; pipe_name := pipe_name f;
     socket_path := Some p; cf_credential := cf_credential f; issued_at := issued_at f |}.

(** [to_json], [from_json] *)
Class FileCodec := {
  to_json : CredentialFile -> option string;
  from_json : string -> option CredentialFile
}.

(** ** The directory *)

Record File := { contents : string; mode : N }.

Record Dir := { dir_mode : N; files : gmap string File }.

Definition TEMP_FILE_NAME : string := (CREDENTIAL_FILE_NAME +:+ ".tmp")%string.

(** The steps of [write_to] after the directory exists.  [fs::write] creates
    with the mode the umask leaves, [umask_mode], keeps the mode of a file that
    is there, and may fail with only a part written. *)
Inductive FsStep :=
| ChmodDir
| WriteTemp (json : string)
| PartialTemp (part : string)
| ChmodTemp
| RenameTemp.

Definition fs_step (umask_mode : N) (d : Dir) (s : FsStep) : Dir :=
  match s with
  | ChmodDir => {| dir_mode := 448; files := files d |}
  | WriteTemp json | PartialTemp json =>
      let m := match files d !! TEMP_FILE_NAME with Some f => mode f | None => umask_mode end in
      {| dir_mode := dir_mode d; files := <[TEMP_FILE_NAME := {| contents := json; mode := m |}]> (files d) |}
  | ChmodTemp =>
      {| dir_mode := dir_mode d;
         files := alter (fun f => {| contents := contents f; mode := 384 |}) TEMP_FILE_NAME (files d) |}
  | RenameTemp =>
      match files d !! TEMP_FILE_NAME with
      | Some f => {| dir_mode := dir_mode d;
                     files := delete TEMP_FILE_NAME (<[CREDENTIAL_FILE_NAME := f]> (files d)) |}
      | None => d
      end
  end.

(** [CredentialFile::write_to]: the steps it takes, when the first [ok] of its
    five calls succeed ([part] is what a failing write leaves). *)
Definition write_steps `{FileCodec} (f : CredentialFile) (ok : nat) (part : option string) : list FsStep :=
  match to_json f with
  | None => take (ok - 1) [ChmodDir]
  | Some json =>
      match ok with
      | 0 | 1 => []
      | 2 => ChmodDir :: (if part is Some p then [PartialTemp p] else [])
      | 3 => [ChmodDir; WriteTemp json]
      | 4 => [ChmodDir; WriteTemp json; ChmodTemp]
      | _ => [ChmodDir; WriteTemp json; ChmodTemp; RenameTemp]
      end
  end.

Definition write_succeeds `{FileCodec} (f : CredentialFile) (ok : nat) : bool :=
  match to_json f with Some _ => (5 <=? ok)%nat | None => false end.

(** [CredentialFile::read_from] *)
Definition read_from `{FileCodec} (d : Dir) : option CredentialFile :=
  f ← files d !! CREDENTIAL_FILE_NAME; from_json (contents f).

(** ** Issue and maintenance *)

Definition BOOTSTRAP_LEASE_MS : N := 3600000.
Definition REFRESH_LEAD_MS : N := 60000.

(** The facts that do not change, and the state behind the server's locks. *)
Record BootConfig := {
  boot_version : string; boot_pid : N; boot_claim_port : N; boot_port : N;
  carrier : option CarrierEndpoint; umask : N
}.

Record Boot := {
  credentials_of : Registry;
  dir : option Dir;                       (* [credential_dir] and what it holds *)
  file_expiry : option N                  (* [file_credential_expiry] *)
}.

(** What the operating system supplies to one issue: the random bytes, the
    clock readings, how many calls of the write succeed. *)
Record IssueEnv := {
  random : list byte; t_issue : N; t_lock : N; t_stamp : N; writes : nat; torn : option string
}.

Definition file_of (c : BootConfig) (e : IssueEnv) (cred : Credential) : CredentialFile :=
  let f := new_file (boot_version c) (boot_pid c) (boot_claim_port c) (boot_port c) (token cred)
             (expires_at cred) (t_stamp e) in
  match carrier c with
  | Some (NamedPipe n) => with_pipe_name n f
  | Some (UnixSocket p) => with_socket_path p f
  | None => f
  end.

Section Boot.
Context `{FileCodec}.

(** [issue_bootstrap_credential_file] *)
Definition issue_bootstrap (c : BootConfig) (ttl : N) (e : IssueEnv) (b : Boot) :
    result unit (option CredentialFile) * Boot :=
  match dir b with
  | None => (Ok None, b)
  | Some d =>
      let '(cred, reg) := issue_credential (random e) (t_issue e) (t_lock e) ttl (credentials_of b) in
      let f := file_of c e cred in
      let d' := foldl (fs_step (umask c)) d (write_steps f (writes e) (torn e)) in
      if write_succeeds f (writes e)
      then (Ok (Some f), {| credentials_of := reg; dir := Some d'; file_expiry := Some (expires_at cred) |})
      else (Err tt, {| credentials_of := reg; dir := Some d'; file_expiry := file_expiry b |})
  end.

(** [reissue_credential_file] *)
Definition reissue (c : BootConfig) (e : IssueEnv) (b : Boot) : Boot :=
  (issue_bootstrap c BOOTSTRAP_LEASE_MS e b).2.

(** [maintain_bootstrap_credential] at the clock [now]. *)
Definition maintain (c : BootConfig) (now : N) (e : IssueEnv) (b : Boot) : Boot :=
  let file_missing := match dir b with Some d => if read_from d is Some _ then false else true | None => false end in
  let expiring := match file_expiry b with Some x => (x - now <=? REFRESH_LEAD_MS)%N | None => true end in
  if file_missing || expiring then reissue c e b else b.
End Boot.

(** ** The start lock *)

Inductive LockError := LockIo.

(** [InstanceGuard::acquire] after the directory exists: [can_create] and
    [can_remove] are the answers of the file system to each call. *)
Definition acquire (pid : string) (can_create can_remove can_create_again : bool) (umask_mode : N)
    (d : Dir) : result LockError unit * Dir :=
  let taken := {| dir_mode := dir_mode d;
                  files := <[LOCK_FILE_NAME := {| contents := pid; mode := umask_mode |}]> (files d) |} in
  match files d !! LOCK_FILE_NAME with
  | None => if can_create then (Ok tt, taken) else (Err LockIo, d)
  | Some _ =>
      if negb can_remove then (Err LockIo, d)
      else if can_create_again then (Ok tt, taken)
      else (Err LockIo, {| dir_mode := dir_mode d; files := delete LOCK_FILE_NAME (files d) |})
  end.

(** [impl Drop for InstanceGuard] *)
Definition release_lock (can_remove : bool) (d : Dir) : Dir :=
  if can_remove then {| dir_mode := dir_mode d; files := delete LOCK_FILE_NAME (files d) |} else d.

(** ** Lemmas *)

Lemma temp_is_not_final : TEMP_FILE_NAME <> CREDENTIAL_FILE_NAME.
Proof. by vm_compute. Qed.

Lemma foldl_prefix_file `{FileCodec} umask_mode f ok part d :
  let d' := foldl (fs_step umask_mode) d (write_steps f ok part) in
  files d' !! CREDENTIAL_FILE_NAME = files d !! CREDENTIAL_FILE_NAME \/
  exists json, to_json f = Some json /\ (5 <= ok)%nat /\
    files d' !! CREDENTIAL_FILE_NAME = Some {| contents := json; mode := 384 |}.
Proof.
  pose proof temp_is_not_final as Hne. unfold write_steps.
  destruct (to_json f) as [json|]; [| left; destruct ok as [|[|ok]]; cbn; [done | done | by rewrite take_nil]].
  destruct ok as [|[|[|[|[|ok]]]]]; cbn; try by left.
  - left. destruct part; cbn; [by rewrite lookup_insert_ne | done].
  - left. by rewrite lookup_insert_ne.
  - left. by rewrite lookup_alter_ne, lookup_insert_ne.
  - right. exists json. split_and!; [done | lia |].
    rewrite lookup_alter_eq, lookup_insert_eq. cbn. by rewrite lookup_delete_ne, lookup_insert_eq.
Qed.

Lemma steps_prefix_file `{FileCodec} umask_mode f ok part d k :
  let d' := foldl (fs_step umask_mode) d (take k (write_steps f ok part)) in
  files d' !! CREDENTIAL_FILE_NAME = files d !! CREDENTIAL_FILE_NAME \/
  exists json, to_json f = Some json /\
    files d' !! CREDENTIAL_FILE_NAME = Some {| contents := json; mode := 384 |}.
Proof.
  pose proof (foldl_prefix_file umask_mode f (S k) part d) as Hk.
  pose proof (foldl_prefix_file umask_mode f ok part d) as Hok.
  unfold write_steps in *. destruct (to_json f) as [json|].
  - destruct ok as [|[|[|[|[|ok]]]]]; destruct k as [|[|[|[|k]]]]; cbn [take] in *; try (by left);
      rewrite ?take_nil in *; try (destruct part as [p|]; cbn [take] in *; rewrite ?take_nil in * );
      repeat match goal with
      | Hx : _ \/ (exists _, _) |- _ => destruct Hx as [Hx | (j & Hj & _ & Hx)]; [left; exact Hx | right; eauto]
      end; try (by left).
  - left. destruct ok as [|[|ok]]; cbn; rewrite ?take_nil; [by destruct k.. |]. by destruct k; cbn; rewrite ?take_nil.
Qed.

(** ** Properties *)

(** The decoder reads back what the encoder prints. *)
Class FileCodecLaws `{FileCodec} : Prop :=
  file_round_trip : forall f json, to_json f = Some json -> from_json json = Some f.

(** The credential file is replaced atomically: at every moment of a write,
    however many of its calls succeed and whatever a failing one leaves, the
    file under the published name is the previous one, untouched, or the
    complete new one with owner-only permissions. *)
Theorem credential_file_atomic `{FileCodecLaws} (umask_mode : N) (f : CredentialFile) (ok k : nat)
    (part : option string) (d : Dir) :
  let d' := foldl (fs_step umask_mode) d (take k (write_steps f ok part)) in
  files d' !! CREDENTIAL_FILE_NAME = files d !! CREDENTIAL_FILE_NAME \/
  (read_from d' = Some f /\ exists x, files d' !! CREDENTIAL_FILE_NAME = Some x /\ mode x = 384%N).
Proof.
  intros d'. destruct (steps_prefix_file umask_mode f ok part d k) as [? | (json & Hj & Hd)]; [by left |].
  right. fold d' in Hd. unfold read_from. rewrite Hd. cbn. rewrite (file_round_trip _ _ Hj). eauto.
Qed.

(** A write that succeeds leaves the file to be read. *)
Lemma write_lands `{FileCodecLaws} umask_mode f ok part d :
  write_succeeds f ok = true -> read_from (foldl (fs_step umask_mode) d (write_steps f ok part)) = Some f.
Proof.
  unfold write_succeeds, write_steps, read_from. destruct (to_json f) as [json|] eqn:Hj; [| done].
  intros Hok%Nat.leb_le. destruct ok as [|[|[|[|[|n]]]]]; try lia. cbn. pose proof temp_is_not_final as Hne.
  rewrite lookup_alter_eq, lookup_insert_eq. cbn. rewrite lookup_delete_ne by done.
  rewrite lookup_insert_eq. cbn. by apply file_round_trip.
Qed.

Lemma issue_ok `{FileCodecLaws} c ttl e b d :
  dir b = Some d -> (5 <= writes e)%nat -> (forall f, is_Some (to_json f)) ->
  let '(cred, reg) := issue_credential (random e) (t_issue e) (t_lock e) ttl (credentials_of b) in
  exists d', issue_bootstrap c ttl e b
    = (Ok (Some (file_of c e cred)),
       {| credentials_of := reg; dir := Some d'; file_expiry := Some (expires_at cred) |}) /\
    read_from d' = Some (file_of c e cred).
Proof.
  intros Hd Hw Hj. destruct (issue_credential _ _ _ _ _) as [cred reg] eqn:Hc.
  unfold issue_bootstrap. rewrite Hd, Hc. set (f := file_of c e cred).
  destruct (Hj f) as [json Hjson].
  assert (Hok : write_succeeds f (writes e) = true)
    by (unfold write_succeeds; rewrite Hjson; by apply Nat.leb_le).
  rewrite Hok. eexists. split; [done |]. by apply write_lands.
Qed.

Lemma file_of_token c e cred : fc_token (cf_credential (file_of c e cred)) = token cred.
Proof. unfold file_of. by destruct (carrier c) as [[]|]. Qed.

(** What one issue leaves behind. *)
Definition reissued `{FileCodec} (c : BootConfig) (e : IssueEnv) (b b' : Boot) : Prop :=
  match dir b with
  | None => b' = b
  | Some d =>
      let f := file_of c e (issue (random e) (t_issue e) BOOTSTRAP_LEASE_MS) in
      exists d', dir b' = Some d' /\
        if write_succeeds f (writes e)
        then read_from d' = Some f /\ file_expiry b' = Some (t_issue e + BOOTSTRAP_LEASE_MS)%N /\
          forall t, (t < t_issue e + BOOTSTRAP_LEASE_MS)%N ->
            (authenticate t (fc_token (cf_credential f)) (credentials_of b')).1 = Ok tt
        else files d' !! CREDENTIAL_FILE_NAME = files d !! CREDENTIAL_FILE_NAME /\
          file_expiry b' = file_expiry b
  end.

Lemma reissue_outcome `{FileCodecLaws} c e b :
  length (random e) = 16%nat -> reissued c e b (reissue c e b).
Proof.
  intros Hr. unfold reissued, reissue, issue_bootstrap. destruct (dir b) as [d|]; [| done].
  pose proof (fun t => authenticate_issued (random e) (t_issue e) (t_lock e) BOOTSTRAP_LEASE_MS t
                         (credentials_of b) Hr) as Ha.
  pose proof (eq_refl : (issue_credential (random e) (t_issue e) (t_lock e) BOOTSTRAP_LEASE_MS (credentials_of b)).1
                = issue (random e) (t_issue e) BOOTSTRAP_LEASE_MS) as Hc.
  destruct (issue_credential _ _ _ _ _) as [cred reg]. cbn [fst] in Hc. subst cred.
  set (cred := issue (random e) (t_issue e) BOOTSTRAP_LEASE_MS) in *. set (f := file_of c e cred).
  destruct (write_succeeds f (writes e)) eqn:Hok; cbn [snd dir file_expiry credentials_of]; eexists; (split; [done |]).
  - split_and!; [by apply write_lands | done |].
    intros t Hlt. unfold f. rewrite file_of_token. by destruct (Ha t Hlt) as (s2 & -> & _).
  - split; [| done]. destruct (foldl_prefix_file (umask c) f (writes e) (torn e) d) as [Hold | (json & Hj & Hw & _)]; [done |].
    exfalso. unfold write_succeeds in Hok. rewrite Hj in Hok. apply Nat.leb_gt in Hok. lia.
Qed.

(** Maintenance keeps a usable credential on disk: after it runs at [now],
    when its write succeeds, the file is there and its token is valid for more
    than a minute; and if it had to write, the token in the file opens one
    handshake at any moment before it expires. *)
Theorem maintenance_keeps_credential `{FileCodecLaws} (c : BootConfig) (now : N) (e : IssueEnv)
    (b : Boot) (d : Dir) :
  dir b = Some d -> (5 <= writes e)%nat -> (forall f, is_Some (to_json f)) ->
  length (random e) = 16%nat -> (now <= t_issue e)%N ->
  let b' := maintain c now e b in
  exists d' f x, dir b' = Some d' /\ read_from d' = Some f /\ file_expiry b' = Some x /\
    (now + REFRESH_LEAD_MS < x)%N /\
    (b' = b \/ forall t, (t < x)%N ->
       (authenticate t (fc_token (cf_credential f)) (credentials_of b')).1 = Ok tt).
Proof.
  intros Hd Hw Hj Hr Ht. cbn zeta. unfold maintain. rewrite Hd.
  pose proof (issue_ok c BOOTSTRAP_LEASE_MS e b d Hd Hw Hj) as Hi.
  pose proof (fun t => authenticate_issued (random e) (t_issue e) (t_lock e) BOOTSTRAP_LEASE_MS t
                         (credentials_of b) Hr) as Ha.
  destruct (issue_credential _ _ _ _ _) as [cred reg] eqn:Hc. destruct Hi as (d' & Hi & Hf).
  assert (Hx : expires_at cred = (t_issue e + BOOTSTRAP_LEASE_MS)%N) by (by inv Hc).
  assert (Hnew : exists d0 f x, dir (reissue c e b) = Some d0 /\ read_from d0 = Some f /\
            file_expiry (reissue c e b) = Some x /\ (now + REFRESH_LEAD_MS < x)%N /\
            (reissue c e b = b \/ forall t, (t < x)%N ->
               (authenticate t (fc_token (cf_credential f)) (credentials_of (reissue c e b))).1 = Ok tt)).
  { unfold reissue. rewrite Hi. cbn. exists d', (file_of c e cred), (expires_at cred).
    split_and!; try done; [rewrite Hx; unfold REFRESH_LEAD_MS, BOOTSTRAP_LEASE_MS; lia |].
    right. intros t Hlt. rewrite file_of_token. destruct (Ha t) as (s2 & -> & _); [by rewrite <- Hx | done]. }
  destruct (read_from d) as [f|] eqn:Hread; [| exact Hnew].
  destruct (file_expiry b) as [x|] eqn:Hexp; [| exact Hnew]. cbn [orb].
  destruct (N.leb_spec (x - now) REFRESH_LEAD_MS); [exact Hnew |].
  exists d, f, x. split_and!; try done; [lia | by left].
Qed.

(** ** A codec *)

Module Binary.
(** Files as the binary digits of their number. *)
#[export] Instance FileCredential_eq_dec : EqDecision FileCredential.
Proof. solve_decision. Defined.
#[export] Instance CredentialFile_eq_dec : EqDecision CredentialFile.
Proof. solve_decision. Defined.
#[export] Instance CredentialFile_countable : Countable CredentialFile.
Proof.
  apply (inj_countable'
    (fun f => (cf_schema_version f, daemon_version f, cf_pid f, cf_claim_port f, cf_port f, pipe_name f,
               socket_path f, fc_token (cf_credential f), fc_expires_at (cf_credential f), issued_at f))
    (fun '(a, b, c, d, e, f, g, h, i, j) =>
       {| cf_schema_version := a; daemon_version := b; cf_pid := c; cf_claim_port := d; cf_port := e;
          pipe_name := f; socket_path := g;
          cf_credential := {| fc_token := h; fc_expires_at := i |}; issued_at := j |})).
  by intros [? ? ? ? ? ? ? [] ?].
Defined.

Fixpoint bits (p : positive) : string :=
  match p with
  | xH => EmptyString
  | xO p => String.String "0"%char (bits p)
  | xI p => String.String "1"%char (bits p)
  end.
Fixpoint unbits (s : string) : positive :=
  match s with
  | EmptyString => xH
  | String.String c s => if Ascii.eqb c "0"%char then xO (unbits s) else xI (unbits s)
  end.
Lemma unbits_bits p : unbits (bits p) = p.
Proof. induction p as [p IH | p IH |]; cbn; congruence. Qed.

#[export] Instance codec : FileCodec := {|
  to_json := fun f => Some (bits (encode f));
  from_json := fun s => decode (unbits s)
|}.
#[export] Instance codec_laws : FileCodecLaws.
Proof. intros f json [= <-]. cbn. by rewrite unbits_bits, decode_encode. Qed.

Definition config : BootConfig :=
  {| boot_version := "0.1.0"; boot_pid := 4242; boot_claim_port := 37771; boot_port := 37771;
     carrier := Some (UnixSocket "d-1.sock"); umask := 420 |}.
Definition supply (t : N) : IssueEnv :=
  {| random := repeat x00 16; t_issue := t; t_lock := t; t_stamp := t; writes := 5; torn := None |}.
Definition empty_boot : Boot :=
  {| credentials_of := empty_registry; dir := Some {| dir_mode := 493; files := ∅ |}; file_expiry := None |}.

Lemma maintenance_keeps_credential_witness :
  exists f, from_option read_from None (dir (maintain config 1000 (supply 1000) empty_boot)) = Some f.
Proof.
  destruct (maintenance_keeps_credential config 1000 (supply 1000) empty_boot {| dir_mode := 493; files := ∅ |})
    as (d' & f & x & Hd & Hf & _).
  - reflexivity.
  - cbn. lia.
  - intros f. eexists. reflexivity.
  - reflexivity.
  - cbn. lia.
  - exists f. rewrite Hd. exact Hf.
Defined.

Lemma credential_file_atomic_witness :
  let d := {| dir_mode := 493; files := ∅ |} in
  let f := new_file "0.1.0" 4242 37771 37771 "lt_" 0 0 in
  let d' := foldl (fs_step 420) d (take 4 (write_steps f 5 None)) in
  files d' !! CREDENTIAL_FILE_NAME = files d !! CREDENTIAL_FILE_NAME \/
  (read_from d' = Some f /\ exists x, files d' !! CREDENTIAL_FILE_NAME = Some x /\ mode x = 384%N).
Proof. apply (credential_file_atomic 420). Defined.
End Binary.
