(* ===== verification/DaemonServer.v ===== *)
(** * The daemon's envelope server

    Model of [crates/daemon/src/server.rs]: the peer-identity policy, the
    activations of a connection, the handling of one envelope (replay check,
    validation, [Hello], [Invocation]), the event envelopes, the life of a
    connection with its teardown, and the maintenance of the bootstrap
    credential.  [unique_token] of [envelope.rs] is here too.

    The state of one connection ([SessionState]) is threaded with the server's:
    [Server] holds what the connections share ([daemon]), the counter of the
    message ids and the clock they and the timestamps are stamped from.  The
    transport (what arrives, whether a send succeeds) is an argument. *)
From Stdlib Require Import NArith ZArith Ascii Lia Strings.Byte.
From stdpp Require Import base strings gmap list option pretty.
From S2P Require Import Prelude Text Civil Credential Bootstrap Server Broker AgentBridge.
From S2P Require Import EventRouter Scheduler Terminal Browser Envelope DaemonState.
From S2P Require Import TerminalCapability HostCapabilities Dispatch.

Definition SERVER_COMPONENT : string := "dsh-desktop-shell".
Definition SERVER_FACET : string := "daemon".
Definition SHELL_COMPONENT : string := "dsh-desktop-shell".
Definition SHELL_FACET : string := "shell".
Definition LEASE_MAX_SECONDS : N := 3600.
Definition TERMINAL_OUTPUT_EVENT : string := "terminal.output".

(** ** Who is on the other end *)

Inductive PeerIdentityPolicy := PolicyOff | Strict (expected_shell : option string).

(** [PeerIdentityPolicy::allows]; [fold_case] as in [image_matches]. *)
Definition allows (fold_case : bool) (p : PeerIdentityPolicy) (i : option PeerIdentity) : bool :=
  match p with
  | PolicyOff => true
  | Strict expected =>
      match i, expected with
      | Some i, Some e => image_matches fold_case i e
      | _, _ => false
      end
  end.

Inductive ActivationAuthority := ShellControl | ParticipantAuthority.

#[export] Instance ActivationAuthority_eq_dec : EqDecision ActivationAuthority.
Proof. solve_decision. Defined.

Record Activation := {
  a_activation_id : string;
  authority : ActivationAuthority;
  a_agent_id : string;
  a_generation : N;
  a_granted : list ProtocolCoordinate;
  hello_id : string
}.

Record SessionState := {
  s_activations : gmap string Activation;
  s_authority : option ActivationAuthority;
  s_identity : option PeerIdentity;
  seen_ids : gset string;
  s_next_generation : N
}.

(** [SessionState::new] *)
Definition new_session (i : option PeerIdentity) : SessionState :=
  {| s_activations := ∅; s_authority := None; s_identity := i; seen_ids := ∅; s_next_generation := 0 |}.

(** ** Ids *)

(** [{n:0wx}] *)
Fixpoint hex_digits (fuel : nat) (n : N) (acc : string) : string :=
  match fuel with
  | O => acc
  | S fuel =>
      let acc := String.String (hex_digit (n mod 16)) acc in
      if (n <? 16)%N then acc else hex_digits fuel (n / 16) acc
  end.

Fixpoint zeros (k : nat) : string :=
  match k with O => EmptyString | S k => String.String "0" (zeros k) end.

Definition lower_hex (w : nat) (n : N) : string :=
  let body := hex_digits (S (N.to_nat (N.log2 n))) n EmptyString in
  zeros (w - String.length body) +:+ body.

(** [unique_token], from the nanoseconds and the value of [ID_COUNTER]. *)
Definition unique_token (prefix : string) (nanos counter : N) : string :=
  prefix +:+ "-" +:+ lower_hex 16 nanos +:+ "-" +:+ lower_hex 4 counter.

(** [message.chars().take(k).collect()], on the UTF-8 bytes. *)
Fixpoint take_chars (k : nat) (s : list ascii) : list ascii :=
  match s with
  | [] => []
  | c :: s =>
      if ((128 <=? code c) && (code c <? 192))%N then c :: take_chars k s
      else match k with O => [] | S k => c :: take_chars k s end
  end.

(** ** Mappings *)

(** [broker_error_mapping] *)
Definition broker_error_mapping (e : BrokerError) : ErrorCode * bool :=
  match e with
  | UnknownCapability | UnknownProvider => (Unavailable, true)
  | GenerationMismatch => (StaleGeneration, false)
  | Broker.Conflict => (Envelope.Conflict, false)
  | NotGranted | LeaseExpired | LeaseRevoked | ScopeMismatch => (Unauthorized, false)
  end.

(** [coordinate_to_capability] *)
Definition coordinate_to_capability (c : ProtocolCoordinate) : CapabilityId :=
  {| Broker.api_version := Envelope.api_version c; Broker.kind := coordinate_kind c |}.

Definition policy_denied (c : ProtocolCoordinate) : UnavailableCapability :=
  {| unavailable_coordinate := c; unavailable_reason := ReasonPolicyDenied |}.

(** The event payloads of [terminal.rs] and [browser.rs]. *)
Record TerminalOutputEvent := {
  toe_schema_version : N; toe_session_id : string; toe_seq : N; toe_data : string;
  toe_timestamp : N
}.
Record BrowserEventPayload := {
  bep_schema_version : N; bep_session_id : string; bep_kind : string; bep_at : N;
  bep_url : option string
}.

(** [BrowserEventPayload::from] *)
Definition browser_event_payload (e : BrowserLifecycleEvent) : BrowserEventPayload :=
  {| bep_schema_version := BROWSER_SCHEMA_VERSION; bep_session_id := life_session_id e;
     bep_kind := BrowserCap.lifecycle_as_str (life_kind e); bep_at := occurred_at e;
     bep_url := life_url e |}.

(** The serializers of the payloads the server builds, and [Value::Null]. *)
Class ServerWire (Value : Type) := {
  agreement_to_value : AgreementPayload -> Value;
  output_to_value : TerminalOutputEvent -> Value;
  lifecycle_to_value : BrowserEventPayload -> Value;
  null : Value
}.

(** [serde_json::from_slice::<Envelope>], with the text of the error, and the
    ["id"] string of a frame that is any JSON value. *)
Class EnvelopeWire (Value : Type) := {
  envelope_from_slice : list byte -> result string (Envelope Value);
  id_from_slice : list byte -> option string
}.

Section ServerModel.
Context {Value C P OS RT Report Binding : Type} `{clock_c : !Clock C} `{pty : !PtyPlatform P OS}
  `{clock_os : !Clock OS} `{mr : !ManagedRuntime RT Report Binding} `{tw : !TerminalWire Value}
  `{bw : !BrowserCap.BrowserWire Value} `{rw : !RuntimeCap.RuntimeWire Value Report Binding}
  `{dw : !DaemonWire Value} `{sw : !ServerWire Value} `{sd : !Serde Value}
  `{ew : !EnvelopeWire Value} `{fc : !FileCodec}.
Abbreviation Daemon := (Daemon Value C P OS RT).
Abbreviation Env := (Envelope Value).

(** The facts the server is configured with, and those of the process. *)
Record Config := {
  policy : PeerIdentityPolicy;
  fold_case : bool;
  snapshot_of : Daemon -> DaemonStatusSnapshot
}.

Record Server := { daemon : Daemon; id_counter : N; stamps : C }.

(** The server and one connection's session. *)
Record World := { server : Server; session : SessionState }.

Definition set_daemon (d : Daemon) (w : World) : World :=
  {| server := {| daemon := d; id_counter := id_counter (server w); stamps := stamps (server w) |};
     session := session w |}.
Definition set_session (s : SessionState) (w : World) : World := {| server := server w; session := s |}.

(** A computation of the server does not fail. *)
Definition Srv (A : Type) : Type := M World Empty_set A.

(** [SystemTime::now()], in nanoseconds since the epoch. *)
Definition stamp : Srv N := fun w =>
  let '(t, c) := clock_read (stamps (server w)) in
  (Ok t, {| server := {| daemon := daemon (server w); id_counter := id_counter (server w); stamps := c |};
            session := session w |}).

(** [ID_COUNTER.fetch_add(1, ..)] *)
Definition fetch_counter : Srv N := fun w =>
  (Ok (id_counter (server w)),
   {| server := {| daemon := daemon (server w); id_counter := u64_add (id_counter (server w)) 1;
                   stamps := stamps (server w) |};
      session := session w |}).

Definition new_token (prefix : string) : Srv string :=
  nanos ← stamp;
  n ← fetch_counter;
  mret (unique_token prefix nanos n).

(** [new_message_id], [new_activation_id] *)
Definition new_message_id : Srv string := new_token "msg".
Definition new_activation_id : Srv string := new_token "act".

(** [now_timestamp] *)
Definition now_timestamp : Srv string :=
  t ← stamp;
  mret (String.string_of_list_ascii (now_timestamp_like (Z.of_N (t / 1000000)))).

(** [state.next_generation] and its increment. *)
Definition next_reply_generation : Srv N := fun w =>
  let s := session w in
  (Ok (s_next_generation s),
   set_session {| s_activations := s_activations s; s_authority := s_authority s;
                  s_identity := s_identity s; seen_ids := seen_ids s;
                  s_next_generation := u64_add (s_next_generation s) 1 |} w).

(** [self.participant] *)
Definition server_participant (a : option string) : Participant :=
  {| component := SERVER_COMPONENT; facet := SERVER_FACET; participant_activation := a |}.

(** [error_result] *)
Definition error_result (correlation reply : string) (cap : option ProtocolCoordinate)
    (m : option string) (c : ErrorCode) (message : string) (retry : bool) : Srv Env :=
  g ← next_reply_generation;
  id ← new_message_id;
  t ← now_timestamp;
  mret {| protocol := PROTOCOL; env_id := id; Envelope.kind := Result; reply_to := Some reply;
          participant := server_participant None; timestamp := t; generation := g;
          capability := cap; method := m; payload := None;
          error := Some {| error_code := c;
                           error_message := String.string_of_list_ascii
                             (take_chars 512 (String.list_ascii_of_string message));
                           error_retryable := retry; correlation_id := correlation |} |}.

(** [return vec![self.error_result(state, &envelope.id, &envelope.id, ..)]] *)
Definition refuse (env : Env) (cap : option ProtocolCoordinate) (m : option string) (c : ErrorCode)
    (message : string) (retry : bool) : Srv (list Env) :=
  r ← error_result (env_id env) (env_id env) cap m c message retry;
  mret [r].

(** ** [Hello] *)

(** The authority class of a claim. *)
Definition authority_of (cfg : Config) (p : Participant) (i : option PeerIdentity) : ActivationAuthority :=
  if bool_decide (component p = SHELL_COMPONENT) && bool_decide (facet p = SHELL_FACET)
     && allows (fold_case cfg) (policy cfg) i
  then ShellControl else ParticipantAuthority.

Definition negotiation_of (aid : string) (g : list ProtocolCoordinate) : AgentNegotiationResult :=
  {| neg_activation_id := aid; neg_agreed := true; neg_granted := map coordinate_to_capability g;
     neg_conformance := Known;
     neg_lease_constraints := Some {| AgentBridge.max_seconds := LEASE_MAX_SECONDS;
                                      AgentBridge.approval_required := None |};
     neg_scope := default_scope |}.

(** The broker registration of a negotiation: the generation and what stays
    granted ([false]: nothing). *)
Definition register_grants (a : ActivationAuthority) (agent aid : string)
    (g : list ProtocolCoordinate) : Srv (N * bool) := fun w =>
  if bool_decide (g = []) then (Ok (0%N, true), w)
  else
    let '(r, b) := broker_grant_from_negotiation agent (negotiation_of aid g)
                     (broker (daemon (server w))) in
    (Ok match r with
        | Ok grant => (ag_generation grant, true)
        | Err (BridgeBroker Broker.Conflict) => (0%N, bool_decide (a = ShellControl))
        | Err _ => (0%N, false)
        end,
     set_daemon (set_broker b (daemon (server w))) w).

Definition record_activation (x : Activation) (s : SessionState) : SessionState :=
  {| s_activations := <[a_activation_id x := x]> (s_activations s);
     s_authority := Some (authority x); s_identity := s_identity s; seen_ids := seen_ids s;
     s_next_generation := s_next_generation s |}.

(** [handle_hello] *)
Definition handle_hello (cfg : Config) (env : Env) : Srv (list Env) :=
  match v ← payload env; if hello_from_value v is Ok h then Some h else None with
  | None => mret []
  | Some hello =>
      aid ← new_activation_id;
      let agent := (component (participant env) +:+ "-" +:+ facet (participant env))%string in
      s ← gets session;
      let a := authority_of cfg (participant env) (s_identity s) in
      if match s_authority s with Some e => negb (bool_decide (e = a)) | None => false end then
        refuse env None None Unauthorized
          "this connection already established a different participant authority; open a new connection"
          false
      else
        let requested := List.filter catalog_supports (supports hello) in
        let denied := map policy_denied (List.filter (fun c => negb (catalog_supports c)) (supports hello)) in
        gk ← register_grants a agent aid requested;
        let granted := if (gk.2 : bool) then requested else [] in
        let unavailable := if (gk.2 : bool) then denied else denied ++ map policy_denied requested in
        modify (fun w => set_session (record_activation
          {| a_activation_id := aid; authority := a; a_agent_id := agent; a_generation := gk.1;
             a_granted := granted; hello_id := env_id env |} (session w)) w);;
        g ← next_reply_generation;
        id ← new_message_id;
        t ← now_timestamp;
        mret [{| protocol := PROTOCOL; env_id := id; Envelope.kind := Agreement;
                 reply_to := Some (env_id env); participant := server_participant (Some aid);
                 timestamp := t; generation := g; capability := None; method := None;
                 payload := Some (agreement_to_value
                   {| activation_id := aid; granted := granted; unavailable := unavailable;
                      lease_constraints :=
                        if bool_decide (granted = []) then None
                        else Some {| max_seconds := Some LEASE_MAX_SECONDS; approval_required := None |} |});
                 error := None |}]
  end.

(** ** [Invocation] *)

(** The broker gate of an activation: [None] when it passes. *)
Definition activation_gate (x : Activation) (cap : ProtocolCoordinate) : Srv (option BrokerError) := fun w =>
  if (a_generation x =? 0)%N then (Ok None, w)
  else
    let '(r, b) := enforce_dispatch (coordinate_to_capability cap) (a_agent_id x) (a_generation x)
                     default_scope (broker (daemon (server w))) in
    (Ok (if r is Err e then Some e else None), set_daemon (set_broker b (daemon (server w))) w).

(** [dispatch_capability(&context, ..)] *)
Definition run_handler (cfg : Config) (key : N) (cap : ProtocolCoordinate) (m : string) (v : Value) :
    Srv (result DaemonMethodError Value) := fun w =>
  let d := daemon (server w) in
  let '(r, d') := dispatch (snapshot_of cfg d) key cap m v d in
  (Ok r, set_daemon d' w).

(** The reply to a dispatched method. *)
Definition reply_of (env : Env) (aid : string) (cap : ProtocolCoordinate) (m : string)
    (r : result DaemonMethodError Value) : Srv (list Env) :=
  match r with
  | Ok v =>
      g ← next_reply_generation;
      id ← new_message_id;
      t ← now_timestamp;
      mret [{| protocol := PROTOCOL; env_id := id; Envelope.kind := Result; reply_to := Some (env_id env);
               participant := server_participant (Some aid); timestamp := t; generation := g;
               capability := Some cap; method := Some m; payload := Some v; error := None |}]
  | Err (MethodNotFound c m) =>
      refuse env (Some c) (Some m) Unavailable
        ("method " +:+ dq +:+ m +:+ dq +:+ " is not implemented for " +:+ Envelope.api_version c +:+ "/"
           +:+ coordinate_kind c) false
  | Err (InvalidPayload _ _ message) => refuse env (Some cap) (Some m) MalformedMessage message false
  | Err (MethodConflict _ _ message) => refuse env (Some cap) (Some m) Envelope.Conflict message false
  | Err (MethodFailed c message retry) => refuse env (Some cap) (Some m) c message retry
  end.

(** [handle_invocation]; validation has ensured a capability and a method. *)
Definition handle_invocation (cfg : Config) (key : N) (env : Env) : Srv (list Env) :=
  match capability env, method env with
  | Some cap, Some m =>
      match participant_activation (participant env) with
      | None => refuse env (Some cap) (Some m) Unauthorized
                  "Invocation without an Agreement: participant.activationId is missing" false
      | Some aid =>
          s ← gets session;
          match s_activations s !! aid with
          | None => refuse env (Some cap) (Some m) Unauthorized
                      ("no Agreement for activation " +:+ dq +:+ aid +:+ dq +:+ ": negotiate Hello → Agreement first")
                      false
          | Some x =>
              if negb (bool_decide (cap ∈ a_granted x)) then
                refuse env (Some cap) (Some m) Unauthorized
                  ("capability " +:+ Envelope.api_version cap +:+ "/" +:+ coordinate_kind cap
                     +:+ " is not granted by the Agreement for activation " +:+ dq +:+ aid +:+ dq) false
              else if (a_generation x =? 0)%N && negb (bool_decide (authority x = ShellControl)) then
                refuse env (Some cap) (Some m) Unauthorized "broker-relaxed activations are Shell-only" false
              else
                gate ← activation_gate x cap;
                match gate with
                | Some e =>
                    refuse env (Some cap) (Some m) (broker_error_mapping e).1 (broker_error_display e)
                      (broker_error_mapping e).2
                | None =>
                    r ← run_handler cfg key cap m (default null (payload env));
                    reply_of env aid cap m r
                end
          end
      end
  | _, _ => mret []
  end.

(** ** [handle_envelope] *)

Definition see_id (id : string) (s : SessionState) : SessionState :=
  {| s_activations := s_activations s; s_authority := s_authority s; s_identity := s_identity s;
     seen_ids := {[id]} ∪ seen_ids s; s_next_generation := s_next_generation s |}.

(** [issues.iter().map(..).collect().join("; ")] *)
Definition issues_text (l : list ValidationIssue) : string :=
  String.concat "; " (map (fun i => issue_path i +:+ ": " +:+ issue_message i)%string l).

Definition handle_envelope (cfg : Config) (key : N) (env : Env) : Srv (list Env) :=
  s ← gets session;
  modify (fun w => set_session (see_id (env_id env) (session w)) w);;
  if bool_decide (env_id env ∈ seen_ids s) then
    refuse env (capability env) (method env) MalformedMessage
      ("message id " +:+ dq +:+ env_id env +:+ dq +:+ " already used on this connection (replay)") false
  else
    match validate_envelope env with
    | Err issues =>
        if len_within ID_MIN_LEN ID_MAX_LEN (env_id env) then
          refuse env (capability env) (method env) MalformedMessage
            ("envelope validation failed: " +:+ issues_text issues) false
        else mret []
    | Ok _ =>
        match Envelope.kind env with
        | Hello => handle_hello cfg env
        | Invocation => handle_invocation cfg key env
        | _ => mret []
        end
    end.

(** ** Events *)

(** [EventEnvelopeTemplate::build] *)
Definition build_event (e : RouterEvent) : Srv Env :=
  id ← new_message_id;
  t ← now_timestamp;
  match e with
  | EventRouter.Terminal out =>
      at' ← stamp;
      mret {| protocol := PROTOCOL; env_id := id; Envelope.kind := Event; reply_to := None;
              participant := server_participant None; timestamp := t; generation := 0;
              capability := Some (coordinate TERMINAL_API_VERSION TERMINAL_KIND);
              method := Some TERMINAL_OUTPUT_EVENT;
              payload := Some (output_to_value
                {| toe_schema_version := TERMINAL_SCHEMA_VERSION; toe_session_id := out_session_id out;
                   toe_seq := EventRouter.seq out; toe_data := data out; toe_timestamp := at' / 1000000 |});
              error := None |}
  | EventRouter.Browser life =>
      mret {| protocol := PROTOCOL; env_id := id; Envelope.kind := Event; reply_to := None;
              participant := server_participant None; timestamp := t; generation := 0;
              capability := Some (coordinate BROWSER_API_VERSION BROWSER_KIND);
              method := Some (BrowserCap.event_method (life_kind life));
              payload := Some (lifecycle_to_value (browser_event_payload life)); error := None |}
  end.

(** ** The life of a connection *)

(** The sends of the replies of one frame: [None] when one fails. *)
Fixpoint send_all (replies : list Env) (sends : list bool) : option (list bool) :=
  match replies with
  | [] => Some sends
  | _ :: replies =>
      match sends with
      | false :: _ => None
      | true :: sends => send_all replies sends
      | [] => send_all replies []
      end
  end.

(** The replies to one frame. *)
Definition handle_frame (cfg : Config) (key : N) (bytes : list byte) : Srv (list Env) :=
  match envelope_from_slice bytes with
  | Ok env => handle_envelope cfg key env
  | Err e =>
      match id_from_slice bytes with
      | Some id =>
          if len_within ID_MIN_LEN ID_MAX_LEN id then
            r ← error_result id id None None MalformedMessage
                  ("frame is not a valid envelope: " +:+ e) false;
            mret [r]
          else mret []
      | None => mret []
      end
  end.

(** The loop of [serve_connection] over the frames that arrive before the peer
    closes: [true] when it ends because the peer closed, [false] when it returns
    on a failed send. *)
Fixpoint serve_loop (cfg : Config) (key : N) (frames : list (list byte)) (sends : list bool) : Srv bool :=
  match frames with
  | [] => mret true
  | bytes :: frames =>
      replies ← handle_frame cfg key bytes;
      match send_all replies sends with
      | None => mret false
      | Some sends => serve_loop cfg key frames sends
      end
  end.

Definition on_server_router (f : EventRouter -> EventRouter) (s : Server) : Server :=
  {| daemon := set_router (f (router (daemon s))) (daemon s); id_counter := id_counter s;
     stamps := stamps s |}.

(** [for activation_id in state.activations.keys()] *)
Definition revoke_activations (aids : list string) (b : Broker Value C) : Broker Value C :=
  foldl (fun b aid => (revoke_agent_grants (E := Empty_set) aid Disconnect b).2) b aids.

(** What follows the loop when the peer closed. *)
Definition teardown (bc : BootConfig) (ie : IssueEnv) (key : N) (s : SessionState)
    (srv : Server) (boot : Boot) : Server * Boot :=
  let d := daemon srv in
  let d := set_browser (release_connection_ownership key (browser d)) d in
  let d := set_broker (revoke_activations (map_to_list (s_activations s)).*1 (broker d)) d in
  ({| daemon := d; id_counter := id_counter srv; stamps := stamps srv |}, reissue bc ie boot).

(** [serve_connection]: the connection's event subscriber lives as long as the
    loop; the rest of the teardown runs only when the peer closed. *)
Definition serve_connection (cfg : Config) (bc : BootConfig) (ie : IssueEnv)
    (peer : option PeerIdentity) (frames : list (list byte)) (sends : list bool)
    (srv : Server) (boot : Boot) : Server * Boot :=
  let '(key, r) := EventRouter.register (router (daemon srv)) in
  let srv := on_server_router (fun _ => r) srv in
  match serve_loop cfg key frames sends {| server := srv; session := new_session peer |} with
  | (Ok closed, w) =>
      let srv := on_server_router (fun r => drop_subscriber key (unsubscribe_all key r)) (server w) in
      if (closed : bool) then teardown bc ie key (session w) srv boot else (srv, boot)
  | (Err e, _) => match e with end
  end.
End ServerModel.

Arguments Config : clear implicits.
Arguments Server : clear implicits.
Arguments World : clear implicits.
