(* ===== verification/DaemonServerFacts.v ===== *)
(** * The envelope server: authorization

    What a connection can make the daemon do: frames of the handlers, the
    invariant of a connection's session, and the authorization of everything
    that changes a resource. *)
From Stdlib Require Import NArith ZArith Ascii Lia Strings.Byte.
From stdpp Require Import base strings gmap list option.
From S2P Require Import Prelude Text Civil Credential Bootstrap Server Broker BrokerFacts.
From S2P Require Import AgentBridge BrokerInvariants BrokerProps EventRouter Scheduler.
From S2P Require Import Terminal TerminalFacts Browser Envelope DaemonState TerminalCapability.
From S2P Require Import HostCapabilities Dispatch DaemonServer.

Section Facts.
Context {Value C P OS RT Report Binding : Type} `{clock_c : !Clock C} `{pty : !PtyPlatform P OS}
  `{clock_os : !Clock OS} `{mr : !ManagedRuntime RT Report Binding} `{tw : !TerminalWire Value}
  `{bw : !BrowserCap.BrowserWire Value} `{rw : !RuntimeCap.RuntimeWire Value Report Binding}
  `{dw : !DaemonWire Value} `{sw : !ServerWire Value} `{sd : !Serde Value}
  `{ew : !EnvelopeWire Value} `{fc : !FileCodec}.
Abbreviation Daemon := (Daemon Value C P OS RT).
Abbreviation World := (World Value C P OS RT).
Abbreviation Config := (Config Value C P OS RT).
Abbreviation Env := (Envelope Value).
Implicit Types (w : World) (env : Env) (cfg : Config).

(** ** Frames *)

(** The resources of the daemon: all of it but the broker and the clock. *)
Definition same_resources (d d' : Daemon) : Prop :=
  terminal d' = terminal d /\ browser d' = browser d /\ runtime d' = runtime d /\
  router d' = router d /\ scheduler d' = scheduler d.

(** Building a reply touches neither the daemon nor what the session records. *)
Record quiet (w w' : World) : Prop := {
  q_daemon : daemon (server w') = daemon (server w);
  q_activations : s_activations (session w') = s_activations (session w);
  q_authority : s_authority (session w') = s_authority (session w);
  q_identity : s_identity (session w') = s_identity (session w);
  q_seen : seen_ids (session w') = seen_ids (session w)
}.

#[export] Instance quiet_preorder : PreOrder quiet.
Proof.
  split; [by intros w; split |].
  intros w1 w2 w3 [? ? ? ? ?] [? ? ? ? ?]. split; congruence.
Qed.

Lemma stamp_quiet : steps_in quiet (stamp (Value := Value) (P := P) (OS := OS) (RT := RT)).
Proof. intros w. unfold stamp. by destruct (clock_read _). Qed.

Lemma fetch_counter_quiet : steps_in quiet (fetch_counter (Value := Value) (C := C) (P := P) (OS := OS) (RT := RT)).
Proof. by intros w. Qed.

Lemma next_reply_generation_quiet :
  steps_in quiet (next_reply_generation (Value := Value) (C := C) (P := P) (OS := OS) (RT := RT)).
Proof. by intros w. Qed.

#[local] Hint Resolve stamp_quiet fetch_counter_quiet next_reply_generation_quiet : dsh.

Lemma new_token_quiet p : steps_in quiet (new_token (Value := Value) (P := P) (OS := OS) (RT := RT) p).
Proof. unfold new_token. auto 10 with dsh typeclass_instances. Qed.

Lemma now_timestamp_quiet : steps_in quiet (now_timestamp (Value := Value) (P := P) (OS := OS) (RT := RT)).
Proof. unfold now_timestamp. auto 10 with dsh typeclass_instances. Qed.

#[local] Hint Resolve new_token_quiet now_timestamp_quiet : dsh.

Lemma refuse_quiet env cap m c msg retry : steps_in quiet (refuse (P := P) (OS := OS) (RT := RT) env cap m c msg retry).
Proof. unfold refuse, error_result, new_message_id. auto 10 with dsh typeclass_instances. Qed.

Lemma same_resources_refl d : same_resources d d.
Proof. by split_and!. Qed.

Lemma quiet_resources w w' : quiet w w' -> same_resources (daemon (server w)) (daemon (server w')).
Proof. intros [-> _ _ _ _]. apply same_resources_refl. Qed.

(** A computation of the server succeeds. *)
Lemma srv_ok {A} (m : Srv A) w : exists a, m w = (Ok a, (m w).2).
Proof. destruct (m w) as [[a|[]] w']. by exists a. Qed.

Lemma bind_run {A B} (m : Srv A) (k : A -> Srv B) w a w1 :
  m w = (Ok a, w1) -> (m ≫= k) w = k a w1.
Proof. unfold mbind, M_bind. by intros ->. Qed.

(** ** Authorization of an invocation *)

(** The broker accepts the activation for the capability, now. *)
Definition gate_open (x : Activation) (cap : ProtocolCoordinate) w : Prop :=
  a_generation x <> 0%N /\
  (enforce_dispatch (coordinate_to_capability cap) (a_agent_id x) (a_generation x) default_scope
     (broker (daemon (server w)))).1 = Ok tt.

Definition authorized w env : Prop :=
  exists cap aid x, capability env = Some cap /\ participant_activation (participant env) = Some aid /\
    s_activations (session w) !! aid = Some x /\ cap ∈ a_granted x /\
    ((a_generation x = 0%N /\ authority x = ShellControl) \/ gate_open x cap w).

Lemma activation_gate_effect x cap w :
  exists r b, activation_gate x cap w = (Ok r, set_daemon (set_broker b (daemon (server w))) w) /\
    (r = None -> a_generation x = 0%N \/ gate_open x cap w).
Proof.
  unfold activation_gate, gate_open. destruct (N.eqb_spec (a_generation x) 0) as [Hz|Hz].
  - exists None, (broker (daemon (server w))). split; [| by left]. by destruct w as [[[] ? ?] ?].
  - destruct (enforce_dispatch _ _ _ _ _) as [[[]|e] b]; cbn; eexists _, b; (split; [done |]); try done.
    intros _. by right.
Qed.

(** What the session records is not touched by an invocation. *)
Definition same_session w w' : Prop :=
  s_activations (session w') = s_activations (session w) /\
  s_authority (session w') = s_authority (session w) /\
  s_identity (session w') = s_identity (session w) /\ seen_ids (session w') = seen_ids (session w).

Lemma quiet_session w w' : quiet w w' -> same_session w w'.
Proof. by intros [_ ? ? ? ?]. Qed.

Lemma reply_of_quiet env aid cap m r : steps_in quiet (reply_of (P := P) (OS := OS) (RT := RT) env aid cap m r).
Proof.
  unfold reply_of. destruct r as [v | [c m' | c m' msg | c m' msg | c msg retry]];
    try (apply refuse_quiet). unfold new_message_id. auto 10 with dsh typeclass_instances.
Qed.

Lemma handle_invocation_effect cfg key env w :
  let w' := (handle_invocation cfg key env w).2 in
  same_session w w' /\
  (same_resources (daemon (server w)) (daemon (server w')) \/ authorized w env).
Proof.
  assert (Hq : forall w', quiet w w' -> same_session w w' /\
            (same_resources (daemon (server w)) (daemon (server w')) \/ authorized w env)).
  { intros w' H. split; [by apply quiet_session | left; by apply quiet_resources]. }
  cbn zeta. unfold handle_invocation.
  destruct (capability env) as [cap|] eqn:Hcap; [| by apply Hq].
  destruct (method env) as [m|]; [| by apply Hq].
  destruct (participant_activation (participant env)) as [aid|] eqn:Haid; [| by apply Hq, refuse_quiet].
  cbv [mbind M_bind gets].
  destruct (s_activations (session w) !! aid) as [x|] eqn:Hx; [| by apply Hq, refuse_quiet].
  case_bool_decide as Hin; cbn [negb]; [| by apply Hq, refuse_quiet].
  destruct (N.eqb_spec (a_generation x) 0 : reflect _ _) as [Hz|Hz]; cbn [andb];
    [case_bool_decide as Hsh; cbn [negb]; [| by apply Hq, refuse_quiet] |].
  all: destruct (activation_gate_effect x cap w) as (r & b & -> & Hgate).
  all: set (w1 := set_daemon (set_broker b (daemon (server w))) w).
  all: assert (Hs1 : same_session w w1) by (by split_and!).
  all: destruct r as [e|].
  1,3: pose proof (refuse_quiet env (Some cap) (Some m) (broker_error_mapping e).1 (broker_error_display e)
                    (broker_error_mapping e).2 w1) as Hq1; destruct Hq1 as [Hd ? ? ? ?];
       (split; [split_and!; cbn in *; congruence | left; rewrite Hd; by split_and!]).
  all: unfold run_handler; destruct (dispatch _ key cap m _ _) as [r d'];
       pose proof (reply_of_quiet env aid cap m r (set_daemon d' w1)) as [Hd ? ? ? ?];
       (split; [split_and!; cbn in *; congruence | right]);
       exists cap, aid, x; split_and!; try done.
  - by left.
  - destruct (Hgate eq_refl); [done | by right].
Qed.

(** ** [Hello] *)

Lemma register_grants_effect a agent aid g w :
  exists gen kept b, register_grants a agent aid g w
    = (Ok (gen, kept), set_daemon (set_broker b (daemon (server w))) w).
Proof.
  unfold register_grants. case_bool_decide.
  - exists 0%N, true, (broker (daemon (server w))). by destruct w as [[[] ? ?] ?].
  - destruct (broker_grant_from_negotiation _ _ _) as [[ag|e] b].
    + by exists (ag_generation ag), true, b.
    + destruct e as [| | | | | |be]; try by (exists 0%N, false, b).
      destruct be; try by (exists 0%N, false, b). by exists 0%N, (bool_decide (a = ShellControl)), b.
Qed.

(** The activation a [Hello] records, if it records one. *)
Definition new_activation cfg env w w' : Prop :=
  exists x, s_activations (session w') = <[a_activation_id x := x]> (s_activations (session w)) /\
    s_authority (session w') = Some (authority x) /\
    authority x = authority_of cfg (participant env) (s_identity (session w)) /\
    (s_authority (session w) = None \/ s_authority (session w) = Some (authority x)) /\
    Forall (fun c => c ∈ all) (a_granted x).

Lemma filter_catalog l : Forall (fun c => c ∈ all) (List.filter catalog_supports l).
Proof.
  apply Forall_forall. intros c Hc. apply filter_In in Hc as [_ Hc].
  by apply bool_decide_eq_true in Hc.
Qed.

Lemma handle_hello_effect cfg env w :
  let w' := (handle_hello cfg env w).2 in
  same_resources (daemon (server w)) (daemon (server w')) /\
  s_identity (session w') = s_identity (session w) /\ seen_ids (session w') = seen_ids (session w) /\
  ((s_activations (session w') = s_activations (session w) /\
    s_authority (session w') = s_authority (session w)) \/ new_activation cfg env w w').
Proof.
  assert (Hq : forall w', quiet w w' ->
    same_resources (daemon (server w)) (daemon (server w')) /\
    s_identity (session w') = s_identity (session w) /\ seen_ids (session w') = seen_ids (session w) /\
    ((s_activations (session w') = s_activations (session w) /\
      s_authority (session w') = s_authority (session w)) \/ new_activation cfg env w w')).
  { intros w' H. pose proof (quiet_resources _ _ H). destruct H. split_and!; try done. by left. }
  cbn zeta. unfold handle_hello.
  destruct (payload env ≫= _) as [hello|]; [| by apply Hq].
  pose proof (new_token_quiet "act" w) as Hw1.
  destruct (srv_ok new_activation_id w) as [aid Haid]. rewrite (bind_run _ _ _ _ _ Haid).
  change (quiet w (new_activation_id w).2) in Hw1. set (w1 := (new_activation_id w).2) in *.
  rewrite (bind_run (gets session) _ w1 (session w1) w1 eq_refl).
  set (a := authority_of cfg (participant env) (s_identity (session w1))).
  destruct (match s_authority (session w1) with Some e => _ | None => _ end) eqn:Hmix.
  { apply Hq. etrans; [exact Hw1 | apply refuse_quiet]. }
  destruct (register_grants_effect a (component (participant env) +:+ "-" +:+ facet (participant env))%string
              aid (List.filter catalog_supports (supports hello)) w1) as (gen & kept & b & Hreg).
  rewrite (bind_run _ _ _ _ _ Hreg). cbn [fst snd].
  set (x := {| a_activation_id := aid |}). set (w2 := set_daemon _ w1).
  set (w3 := set_session (record_activation x (session w2)) w2).
  rewrite (bind_run _ _ w2 tt w3 eq_refl).
  match goal with |- context [(?m w3).2] => assert (Ht : steps_in quiet m) end;
    [unfold new_message_id; auto 10 with dsh typeclass_instances | specialize (Ht w3)].
  destruct Hw1 as [Hd1 Ha1 Hau1 Hi1 Hs1], Ht as [Hd3 Ha3 Hau3 Hi3 Hs3].
  split_and!.
  - rewrite Hd3. cbn. rewrite Hd1. by split_and!.
  - by rewrite Hi3.
  - by rewrite Hs3.
  - right. exists x. rewrite Ha3, Hau3. cbn. rewrite Ha1. unfold a. rewrite Hi1. split_and!; try done.
    + rewrite <- Hau1. destruct (s_authority (session w1)) as [e|]; [| by left].
      right. apply negb_false_iff, bool_decide_eq_true in Hmix. rewrite Hmix. unfold a. by rewrite Hi1.
    + destruct kept; [apply filter_catalog | constructor].
Qed.

(** ** The session's invariant *)

(** One authority class for the connection, the one its peer is entitled to;
    only catalog capabilities are granted. *)
Definition session_inv cfg (peer : option PeerIdentity) (s : SessionState) : Prop :=
  s_identity s = peer /\
  forall aid x, s_activations s !! aid = Some x ->
    a_activation_id x = aid /\ s_authority s = Some (authority x) /\
    (authority x = ShellControl -> allows (fold_case cfg) (policy cfg) peer = true) /\
    Forall (fun c => c ∈ all) (a_granted x).

Lemma authority_of_shell cfg p i : authority_of cfg p i = ShellControl -> allows (fold_case cfg) (policy cfg) i = true.
Proof. unfold authority_of. destruct (_ && _ && _) eqn:E; [| done]. intros _. by apply andb_prop in E as [_ ?]. Qed.

(** The shape of [handle_envelope]: the id is recorded first. *)
Definition seen_world env w : World := set_session (see_id (env_id env) (session w)) w.

Lemma handle_envelope_cases cfg key env w :
  (env_id env ∈ seen_ids (session w) /\ quiet (seen_world env w) (handle_envelope cfg key env w).2) \/
  ((env_id env ∉ seen_ids (session w)) /\
   ((quiet (seen_world env w) (handle_envelope cfg key env w).2) \/
    (validate_envelope env = Ok tt /\
     ((Envelope.kind env = Hello /\ handle_envelope cfg key env w = handle_hello cfg env (seen_world env w)) \/
      (Envelope.kind env = Invocation /\
       handle_envelope cfg key env w = handle_invocation cfg key env (seen_world env w)))))).
Proof.
  unfold handle_envelope. rewrite (bind_run (gets session) _ w (session w) w eq_refl).
  rewrite (bind_run _ _ w tt (seen_world env w) eq_refl).
  case_bool_decide as Hin; [left; split; [done | apply refuse_quiet] |]. right. split; [done |].
  destruct (validate_envelope env) as [[]|issues].
  - destruct (Envelope.kind env); try (by left); right; auto.
  - left. destruct (len_within _ _ _); [apply refuse_quiet | done].
Qed.

Lemma handle_envelope_inv cfg key peer env w :
  session_inv cfg peer (session w) -> session_inv cfg peer (session (handle_envelope cfg key env w).2).
Proof.
  intros [Hp Hact].
  assert (Hseen : forall w', same_session (seen_world env w) w' -> session_inv cfg peer (session w')).
  { intros w' (Ha & Hau & Hi & _). unfold session_inv. rewrite Ha, Hau, Hi. by split. }
  destruct (handle_envelope_cases cfg key env w) as [[_ Hq] | [_ [Hq | [_ [[_ ->] | [_ ->]]]]]].
  - by apply Hseen, quiet_session.
  - by apply Hseen, quiet_session.
  - destruct (handle_hello_effect cfg env (seen_world env w)) as (_ & Hi & _ & [[Ha Hau] | Hnew]).
    { unfold session_inv. rewrite Ha, Hau, Hi. by split. }
    destruct Hnew as (x & Ha & Hau & Hx & Hold & Hg). cbn in Ha, Hx, Hold. rewrite Hp in Hx.
    split; [by rewrite Hi |]. intros aid y. rewrite Ha, Hau.
    destruct (decide (aid = a_activation_id x)) as [->|Hne].
    + rewrite lookup_insert_eq. intros [= <-]. split_and!; try done. rewrite Hx. apply authority_of_shell.
    + rewrite lookup_insert_ne by done. intros Hy. destruct (Hact aid y Hy) as (? & Hs & ? & ?).
      split_and!; try done. destruct Hold as [Hold | Hold]; congruence.
  - destruct (handle_invocation_effect cfg key env (seen_world env w)) as [Hs _]. by apply Hseen.
Qed.

(** ** A connection's history *)

(** The worlds of one connection: its envelopes, and anything the rest of the
    daemon does in between. *)
Inductive conn_reach cfg (key : N) (peer : option PeerIdentity) : World -> Prop :=
| cr_start srv : conn_reach cfg key peer {| server := srv; session := new_session peer |}
| cr_envelope w env : conn_reach cfg key peer w -> conn_reach cfg key peer (handle_envelope cfg key env w).2
| cr_others w srv : conn_reach cfg key peer w -> conn_reach cfg key peer {| server := srv; session := session w |}.

Lemma conn_reach_inv cfg key peer w : conn_reach cfg key peer w -> session_inv cfg peer (session w).
Proof.
  induction 1 as [srv | w env _ IH | w srv _ IH]; [by split | by apply handle_envelope_inv | done].
Qed.

(** C2.  Nothing happens without authority: an envelope changes a terminal, a
    browser session, the managed runtime, an event subscription or a wake only
    if it is a valid invocation with an id new to its connection, of a catalog
    capability that the activation it names was granted on this same connection,
    and at that moment the broker accepts that activation's agent and
    generation, or the activation is the Shell's own and the policy accepts the
    process on the other end.  Under a strict policy a peer whose image does not
    match the expected Shell is thus always subject to the broker. *)
Theorem connection_runs_only_authorized cfg key peer w env :
  conn_reach cfg key peer w ->
  let w' := (handle_envelope cfg key env w).2 in
  same_resources (daemon (server w)) (daemon (server w')) \/
  ((env_id env ∉ seen_ids (session w)) /\ validate_envelope env = Ok tt /\ Envelope.kind env = Invocation /\
   exists cap aid x, capability env = Some cap /\ participant_activation (participant env) = Some aid /\
     s_activations (session w) !! aid = Some x /\ cap ∈ a_granted x /\ cap ∈ all /\
     ((authority x = ShellControl /\ allows (fold_case cfg) (policy cfg) peer = true) \/
      (enforce_dispatch (coordinate_to_capability cap) (a_agent_id x) (a_generation x) default_scope
         (broker (daemon (server w)))).1 = Ok tt)).
Proof.
  intros Hr. cbn zeta. destruct (conn_reach_inv _ _ _ _ Hr) as [_ Hact].
  destruct (handle_envelope_cases cfg key env w) as [[_ Hq] | [Hid [Hq | [Hv [[_ ->] | [Hk ->]]]]]].
  - left. by apply quiet_resources in Hq.
  - left. by apply quiet_resources in Hq.
  - left. by destruct (handle_hello_effect cfg env (seen_world env w)).
  - destruct (handle_invocation_effect cfg key env (seen_world env w)) as [_ [? | Hauth]]; [by left |].
    right. split_and!; try done. destruct Hauth as (cap & aid & x & Hc & Ha & Hx & Hg & Hgate).
    destruct (Hact aid x Hx) as (_ & _ & Hshell & Hall). exists cap, aid, x. split_and!; try done.
    + eapply Forall_forall in Hall; [done |]. by apply list_elem_of_In.
    + destruct Hgate as [[_ Hs] | [_ Hg']]; [left; auto | by right].
Qed.

(** A connection has one identity: all its activations have the authority
    class that its peer established first, the Shell's class only for a peer the
    policy accepts, and nothing outside the catalog is ever granted. *)
Theorem connection_authority_fixed cfg key peer w aid x :
  conn_reach cfg key peer w -> s_activations (session w) !! aid = Some x ->
  a_activation_id x = aid /\ s_authority (session w) = Some (authority x) /\
  (authority x = ShellControl -> allows (fold_case cfg) (policy cfg) peer = true) /\
  Forall (fun c => c ∈ all) (a_granted x).
Proof. intros Hr Hx. destruct (conn_reach_inv _ _ _ _ Hr) as [_ Hact]. by apply Hact. Qed.

(** ** Replays *)

Lemma handle_envelope_sees cfg key env w :
  seen_ids (session (handle_envelope cfg key env w).2) = {[env_id env]} ∪ seen_ids (session w).
Proof.
  destruct (handle_envelope_cases cfg key env w) as [[_ Hq] | [_ [Hq | [_ [[_ ->] | [_ ->]]]]]].
  - by rewrite (q_seen _ _ Hq).
  - by rewrite (q_seen _ _ Hq).
  - by destruct (handle_hello_effect cfg env (seen_world env w)) as (_ & _ & -> & _).
  - by destruct (handle_invocation_effect cfg key env (seen_world env w)) as [(_ & _ & _ & ->) _].
Qed.

Lemma handle_envelope_replay cfg key env w :
  env_id env ∈ seen_ids (session w) ->
  exists r, (handle_envelope cfg key env w).1 = Ok [r] /\ Envelope.kind r = Result /\
    reply_to r = Some (env_id env) /\ payload r = None /\
    exists e, error r = Some e /\ error_code e = MalformedMessage /\ correlation_id e = env_id env.
Proof.
  intros Hin. unfold handle_envelope. rewrite (bind_run (gets session) _ w (session w) w eq_refl).
  rewrite (bind_run _ _ w tt (seen_world env w) eq_refl), bool_decide_true by done.
  unfold refuse, error_result, new_message_id.
  set (w1 := seen_world env w). clearbody w1.
  destruct (srv_ok next_reply_generation w1) as [g Hg].
  set (w2 := (next_reply_generation w1).2) in *. clearbody w2.
  destruct (srv_ok (new_token "msg") w2) as [id Hid].
  set (w3 := (new_token "msg" w2).2) in *. clearbody w3.
  destruct (srv_ok now_timestamp w3) as [t Ht].
  set (w4 := (now_timestamp w3).2) in *. clearbody w4.
  unfold mbind, M_bind. rewrite Hg, Hid, Ht. cbn. eexists. split_and!; try done. eexists. by split_and!.
Qed.

(** The envelopes of a connection, one after the other. *)
Fixpoint handle_all cfg (key : N) (envs : list Env) w : World :=
  match envs with
  | [] => w
  | env :: envs => handle_all cfg key envs (handle_envelope cfg key env w).2
  end.

Lemma handle_all_sees cfg key envs w id :
  id ∈ seen_ids (session w) -> id ∈ seen_ids (session (handle_all cfg key envs w)).
Proof.
  revert w. induction envs as [|env envs IH]; intros w Hid; [done |]. apply IH.
  rewrite handle_envelope_sees. set_solver.
Qed.

(** C20.  A message id is acted on once per connection: whatever came in between,
    an envelope with the id of an earlier one leaves the whole daemon, the
    activations and the authority of the connection as they are, and is answered
    by one malformed-message error that names it. *)
Theorem replay_has_no_effect cfg key env envs env' w :
  env_id env' = env_id env ->
  let w1 := handle_all cfg key envs (handle_envelope cfg key env w).2 in
  let w2 := (handle_envelope cfg key env' w1).2 in
  daemon (server w2) = daemon (server w1) /\
  s_activations (session w2) = s_activations (session w1) /\
  s_authority (session w2) = s_authority (session w1) /\
  exists r, (handle_envelope cfg key env' w1).1 = Ok [r] /\ Envelope.kind r = Result /\
    reply_to r = Some (env_id env') /\ payload r = None /\
    exists e, error r = Some e /\ error_code e = MalformedMessage /\ correlation_id e = env_id env'.
Proof.
  intros Heq w1 w2.
  assert (Hin : env_id env' ∈ seen_ids (session w1)).
  { apply handle_all_sees. rewrite handle_envelope_sees, Heq. set_solver. }
  destruct (handle_envelope_cases cfg key env' w1) as [[_ Hq] | [Hno _]]; [| done].
  destruct Hq as [Hd Ha Hau _ _]. split_and!; try done. by apply handle_envelope_replay.
Qed.
End Facts.

(** ** A daemon to run *)

Module Toy.
Import Loopback.

(** Payloads that are already decoded; a clock that stands still. *)
Inductive Json := JHello (h : HelloPayload) | JAgreement (a : AgreementPayload) | JObject | JNull.

#[export] Instance still : Clock unit := fun c => (1000%N, c).

#[export] Instance serde : Serde Json := {|
  is_object := fun v => if v is JNull then false else true;
  hello_from_value := fun v => if v is JHello h then Ok h else Err "not a hello"%string;
  agreement_from_value := fun v => if v is JAgreement a then Ok a else Err "not an agreement"%string;
  coordinate_to_string := fun c => (Envelope.api_version c +:+ " " +:+ coordinate_kind c)%string;
  requirement_to_string := fun r =>
    (Envelope.api_version (requirement_coordinate r) +:+ " " +:+ coordinate_kind (requirement_coordinate r))%string;
  unavailable_to_string := fun u =>
    (Envelope.api_version (unavailable_coordinate u) +:+ " " +:+ coordinate_kind (unavailable_coordinate u))%string
|}.
#[export] Instance terminal_wire : TerminalWire Json := {|
  create_from_value := fun v => if v is JNull then Err "null"%string else
    Ok {| create_schema_version := 1; create_mode := "human_surface"; create_cols := 80; create_rows := 24;
          create_shell := None; create_cwd := None; create_agent := None |};
  write_from_value := fun _ => Err "not a write"%string;
  resize_from_value := fun _ => Err "not a resize"%string;
  close_from_value := fun _ => Err "not a close"%string;
  report_to_value := fun _ => JObject; terminal_status_to_value := fun _ _ => JObject; empty_object := JObject
|}.
#[export] Instance browser_wire : BrowserCap.BrowserWire Json := {|
  BrowserCap.create_from_value := fun _ => Err "not a create"%string;
  BrowserCap.close_from_value := fun _ => Err "not a close"%string;
  BrowserCap.navigate_from_value := fun _ => Err "not a navigation"%string;
  BrowserCap.load_failed_from_value := fun _ => Err "not a failure"%string;
  BrowserCap.report_to_value := fun _ => JObject; BrowserCap.list_to_value := fun _ => JObject;
  BrowserCap.status_to_value := fun _ _ => JObject
|}.
#[export] Instance runtime_wire : RuntimeCap.RuntimeWire Json unit unit := {|
  RuntimeCap.start_from_value := fun _ => Err "not a start"%string;
  RuntimeCap.status_from_value := fun _ => Err "not a status"%string;
  RuntimeCap.stop_from_value := fun _ => Err "not a stop"%string;
  RuntimeCap.restart_from_value := fun _ => Err "not a restart"%string;
  RuntimeCap.binding_from_value := fun _ => Err "not a binding"%string;
  RuntimeCap.report_value := fun _ => JObject; RuntimeCap.binding_value := fun _ => JObject;
  RuntimeCap.show := fun _ => EmptyString
|}.
#[export] Instance runtime_off : ManagedRuntime unit unit unit := {|
  start_managed_environment := fun _ => throw Environment.StateUnavailable;
  get_managed_runtime_status := fun _ => throw Environment.StateUnavailable;
  stop_managed_environment := fun _ _ => throw Environment.StateUnavailable;
  restart_managed_environment := fun _ _ => throw Environment.StateUnavailable;
  verified_surface_binding := fun _ _ => throw Environment.StateUnavailable;
  has_live_generation := fun _ => false; read_catalog := fun _ => Err Environment.Corrupt
|}.
#[export] Instance daemon_wire : DaemonWire Json := {|
  pong_value := fun _ => JObject; status_value := fun _ => JObject;
  wake_from_value := fun _ => Err "not a wake"%string;
  cancel_from_value := fun _ => Err "not a cancel"%string;
  registered_value := fun _ => JObject; cancelled_value := fun _ => JObject
|}.
#[export] Instance server_wire : ServerWire Json := {|
  agreement_to_value := JAgreement; output_to_value := fun _ => JObject;
  lifecycle_to_value := fun _ => JObject; null := JNull
|}.

Definition terminal_coordinate := coordinate TERMINAL_API_VERSION TERMINAL_KIND.
Definition agent : Participant :=
  {| component := "agent"; facet := "worker"; participant_activation := None |}.

(** A [Hello] for the terminal, and an invocation under the activation it gets. *)
Definition hello : Envelope Json :=
  {| protocol := PROTOCOL; env_id := "hello-01"; Envelope.kind := Hello; reply_to := None;
     participant := agent; timestamp := "2026-08-31T09:30:00Z"; generation := 0; capability := None;
     method := None; error := None;
     payload := Some (JHello {| instance_id := "instance"; supports := [terminal_coordinate]; requires := [] |}) |}.
Definition the_activation : string := unique_token "act" 1000 0.
Definition create : Envelope Json :=
  {| protocol := PROTOCOL; env_id := "create-1"; Envelope.kind := Invocation; reply_to := None;
     participant := {| component := "agent"; facet := "worker"; participant_activation := Some the_activation |};
     timestamp := "2026-08-31T09:30:00Z"; generation := 0; capability := Some terminal_coordinate;
     method := Some "terminal.create"%string; payload := Some JObject; error := None |}.

#[export] Instance envelope_wire : EnvelopeWire Json := {|
  envelope_from_slice := fun b => match b with [x01] => Ok hello | [x02] => Ok create | _ => Err "bytes"%string end;
  id_from_slice := fun _ => None
|}.

Definition config : Config Json unit nat N unit :=
  {| policy := Strict (Some "/opt/dsh/shell"%string); fold_case := false;
     snapshot_of := fun _ =>
       {| version := "0.1.0"; snapshot_pid := 1; started_at := ""; uptime_seconds := 0; claim_port := 0;
          port := 0; connections := 1; snapshot_credentials_issued := 1; activations := 0%nat;
          scheduler_stats := Scheduler.stats Scheduler.new_inner; terminals := 0%nat; browsers := 0%nat;
          snapshot_managed_runtimes := 0%nat |} |}.
Definition srv : Server Json unit nat N unit :=
  {| daemon := {| terminal := new_terminal_host (5%N : N); browser := new_browser_host; runtime := tt;
                  router := (EventRouter.register EventRouter.spawn).2; broker := with_clock tt;
                  scheduler := Scheduler.new_inner; wall := tt |};
     id_counter := 0; stamps := tt |}.
Definition fresh : World Json unit nat N unit := {| server := srv; session := new_session None |}.
Definition greeted : World Json unit nat N unit := (handle_envelope config 0 hello fresh).2.

Lemma greeted_reachable : conn_reach config 0 None greeted.
Proof. apply cr_envelope, cr_start. Qed.

(** The invocation creates a terminal, under the lease the [Hello] gave. *)
Example create_runs :
  terminal_session_count (terminal (daemon (server (handle_envelope config 0 create greeted).2))) = 1%nat.
Proof. vm_compute. reflexivity. Qed.

Lemma connection_runs_only_authorized_witness :
  same_resources (daemon (server greeted)) (daemon (server (handle_envelope config 0 create greeted).2)) \/
  s_activations (session greeted) !! the_activation <> None.
Proof.
  destruct (connection_runs_only_authorized config 0 None greeted create greeted_reachable)
    as [H | (_ & _ & _ & cap & aid & x & _ & Ha & Hx & _)]; [left; exact H | right].
  cbn in Ha. injection Ha as <-. rewrite Hx. discriminate.
Defined.

Lemma connection_authority_fixed_witness :
  exists x, s_activations (session greeted) !! the_activation = Some x /\
    s_authority (session greeted) = Some (authority x).
Proof.
  assert (H : is_Some (s_activations (session greeted) !! the_activation)) by (vm_compute; eexists; reflexivity).
  destruct H as [x Hx]. exists x. split; [exact Hx |].
  apply (connection_authority_fixed config 0 None greeted the_activation x greeted_reachable Hx).
Defined.

Lemma replay_has_no_effect_witness :
  let w1 := handle_all config 0 [create] (handle_envelope config 0 hello fresh).2 in
  daemon (server (handle_envelope config 0 hello w1).2) = daemon (server w1).
Proof. apply (replay_has_no_effect config 0 hello [create] hello fresh eq_refl). Defined.
End Toy.
