(* ===== verification/ConnectionLife.v ===== *)
(** * The end of a connection

    What [serve_connection] leaves behind: the broker frames of the capability
    handlers, the activations of the connection as the broker knows them, and
    the teardown on both ways out of the loop. *)
From Stdlib Require Import NArith ZArith Ascii Lia Strings.Byte.
From stdpp Require Import base strings gmap list option.
From S2P Require Import Prelude Text Civil Credential Bootstrap Server Broker BrokerFacts.
From S2P Require Import AgentBridge BrokerInvariants BrokerProps EventRouter.
From S2P Require Import Scheduler Terminal TerminalFacts Browser Envelope DaemonState.
From S2P Require Import TerminalCapability HostCapabilities Dispatch DaemonServer.
From S2P Require Import DaemonServerFacts.

Section Life.
Context {Value C P OS RT Report Binding : Type} `{clock_c : !Clock C} `{pty : !PtyPlatform P OS}
  `{clock_os : !Clock OS} `{mr : !ManagedRuntime RT Report Binding} `{tw : !TerminalWire Value}
  `{bw : !BrowserCap.BrowserWire Value} `{rw : !RuntimeCap.RuntimeWire Value Report Binding}
  `{dw : !DaemonWire Value} `{sw : !ServerWire Value} `{sd : !Serde Value}
  `{ew : !EnvelopeWire Value} `{fc : !FileCodec}.
Abbreviation Daemon := (Daemon Value C P OS RT).
Abbreviation World := (World Value C P OS RT).
Abbreviation Config := (Config Value C P OS RT).
Abbreviation Server := (Server Value C P OS RT).
Abbreviation Env := (Envelope Value).
Implicit Types (w : World) (env : Env) (cfg : Config) (d : Daemon) (b : Broker Value C).

(** ** The broker under the handlers *)

(** A handler leaves the broker as it is, except for the clock its gate reads. *)
Definition broker_kept d d' : Prop := same_but_clock (broker d) (broker d').

#[local] Instance broker_kept_preorder : PreOrder broker_kept.
Proof. split; [intros d; apply same_but_clock_refl |]. unfold broker_kept. intros d1 d2 d3 ? ?. by etrans. Qed.

Lemma daemon_now_kept : steps_in broker_kept (daemon_now (Value := Value) (C := C) (P := P) (OS := OS) (RT := RT)).
Proof. intros d. unfold daemon_now. destruct (clock_read _). apply same_but_clock_refl. Qed.

Lemma on_router_kept f : steps_in broker_kept (on_router (Value := Value) (C := C) (P := P) (OS := OS) (RT := RT) f).
Proof. intros d. apply same_but_clock_refl. Qed.

Lemma on_browser_kept {A} (m : M _ _ A) :
  steps_in broker_kept (BrowserCap.on_browser (Value := Value) (C := C) (P := P) (OS := OS) (RT := RT) m).
Proof. apply steps_in_map_err, steps_in_zoom. intros d. apply same_but_clock_refl. Qed.

Lemma on_terminal_kept {A} (m : M _ _ A) :
  steps_in broker_kept (on_terminal (Value := Value) (C := C) (P := P) (OS := OS) (RT := RT) m).
Proof. apply steps_in_map_err, steps_in_zoom. intros d. apply same_but_clock_refl. Qed.

Lemma on_runtime_kept {A} (m : M _ _ A) :
  steps_in broker_kept (RuntimeCap.on_runtime (Value := Value) (C := C) (P := P) (OS := OS) (RT := RT) m).
Proof. apply steps_in_map_err, steps_in_zoom. intros d. apply same_but_clock_refl. Qed.

Lemma resolve_kept id :
  steps_in broker_kept (RuntimeCap.resolve (Value := Value) (C := C) (P := P) (OS := OS) (RT := RT) id).
Proof. intros d. apply same_but_clock_refl. Qed.

Lemma on_scheduler_kept {A} c m (x : M _ _ A) :
  steps_in broker_kept (on_scheduler (Value := Value) (C := C) (P := P) (OS := OS) (RT := RT) c m x).
Proof. apply steps_in_map_err, steps_in_zoom. intros d. apply same_but_clock_refl. Qed.

Lemma gate_binding_kept x :
  steps_in broker_kept (gate_binding (Value := Value) (C := C) (P := P) (OS := OS) (RT := RT) x).
Proof.
  destruct x as [x|]; [| apply steps_in_ret; typeclasses eauto].
  apply steps_in_map_err, steps_in_zoom. intros d. apply enforce_dispatch_frame.
Qed.

Lemma check_owner_kept conn sid :
  steps_in broker_kept (check_owner (Value := Value) (C := C) (P := P) (OS := OS) (RT := RT) conn sid).
Proof.
  intros d. unfold check_owner. destruct (_ !! _) as [o|]; [destruct (negb _) |]; apply same_but_clock_refl.
Qed.

Lemma browser_check_owner_kept conn sid :
  steps_in broker_kept (BrowserCap.check_owner (Value := Value) (C := C) (P := P) (OS := OS) (RT := RT) conn sid).
Proof.
  intros d. unfold BrowserCap.check_owner. destruct (_ !! _) as [o|]; [destruct (negb _) | destruct (Browser.get _ _).1];
    apply same_but_clock_refl.
Qed.

#[local] Hint Resolve daemon_now_kept on_router_kept on_browser_kept on_terminal_kept on_runtime_kept
  resolve_kept on_scheduler_kept gate_binding_kept check_owner_kept browser_check_owner_kept
  same_but_clock_refl : dsh.






(** ** The activations as the broker knows them *)




Lemma same_but_clock_register b b' : same_but_clock b b' -> register_le b b'.
Proof. intros [c ->]. intros agent aid s Hs. exists s. by split_and!. Qed.





(** The broker operations the daemon runs: all but a lease handed out by hand. *)
Definition daemon_op (op : broker_op Value) : Prop := match op with OpLease _ => False | _ => True end.

(** The broker under the computations of the server goes through such
    operations and the clock's readings only. *)
Definition broker_evolves w w' : Prop :=
  rtc (evolves daemon_op) (broker (daemon (server w))) (broker (daemon (server w'))).

#[local] Instance broker_evolves_preorder : PreOrder broker_evolves.
Proof. unfold broker_evolves. split; [by intros w | intros w1 w2 w3 ? ?; by etrans]. Qed.











(** ** Disconnect *)






(** The world in which a connection starts. *)
Definition connected (peer : option PeerIdentity) (srv : Server) : N * World :=
  let '(key, r) := EventRouter.register (router (daemon srv)) in
  (key, {| server := on_server_router (fun _ => r) srv; session := new_session peer |}).

Lemma serve_connection_run cfg bc ie peer frames sends srv boot :
  let '(key, w0) := connected peer srv in
  let w := (serve_loop cfg key frames sends w0).2 in
  let srv1 := on_server_router (fun r => drop_subscriber key (unsubscribe_all key r)) (server w) in
  exists closed, serve_loop cfg key frames sends w0 = (Ok closed, w) /\
    serve_connection cfg bc ie peer frames sends srv boot
      = if (closed : bool) then teardown bc ie key (session w) srv1 boot else (srv1, boot).
Proof.
  unfold connected, serve_connection. destruct (EventRouter.register _) as [key r].
  set (w0 := {| server := _ |}). destruct (srv_ok (serve_loop cfg key frames sends) w0) as [closed Hc].
  exists closed. split; [done |]. by rewrite Hc.
Qed.



(** C35.  A failed send strands the Shell: the connection that used up the token
    in the credential file, and to which one reply could not be sent, ends
    without the teardown.  The broker and the browser owners stay as they are,
    no credential is issued, and until a minute before the used token expires
    the maintenance does nothing and a new handshake with the token in the file
    is refused as a replay. *)
Theorem failed_send_strands_shell cfg bc ie peer frames sends srv reg (dir0 : Dir) f x t now ie' :
  read_from dir0 = Some f ->
  credentials reg !! fc_token (cf_credential f) = Some {| ic_expires_at := x; used := false |} ->
  (authenticate t (fc_token (cf_credential f)) reg).1 = Ok tt ->
  (now + REFRESH_LEAD_MS < x)%N ->
  let '(key, w0) := connected peer srv in
  let w := (serve_loop cfg key frames sends w0).2 in
  (serve_loop cfg key frames sends w0).1 = Ok false ->
  let boot := {| credentials_of := (authenticate t (fc_token (cf_credential f)) reg).2;
                 dir := Some dir0; file_expiry := Some x |} in
  let '(srv', boot') := serve_connection cfg bc ie peer frames sends srv boot in
  broker (daemon srv') = broker (daemon (server w)) /\
  browser (daemon srv') = browser (daemon (server w)) /\
  maintain bc now ie' boot' = boot' /\
  (authenticate now (fc_token (cf_credential f)) (credentials_of boot')).1 = Err Replay.
Proof.
  intros Hf Hreg Hauth Hnow. set (boot := {| dir := Some dir0 |}). cbv zeta.
  pose proof (serve_connection_run cfg bc ie peer frames sends srv boot) as Hrun.
  destruct (connected peer srv) as [key w0]. destruct Hrun as (closed & Hloop & ->). rewrite Hloop. cbn [fst snd].
  intros [= ->]. split_and!; [done | done | |].
  - unfold maintain. cbn. rewrite Hf. cbn.
    destruct (N.leb_spec (x - now) REFRESH_LEAD_MS); [lia | done].
  - cbn. unfold authenticate in *. destruct (is_valid_format _) eqn:Hv; [| done]. cbn [negb] in *.
    rewrite Hreg in *. cbn [ic_expires_at used] in *. destruct (x <=? t)%N; [done |]. cbn.
    rewrite lookup_insert_eq. cbn. destruct (N.leb_spec x now); [lia | done].
Qed.
End Life.

(** ** A connection that negotiates, creates a terminal and goes away *)

Module Leaving.
Import Toy Loopback Binary.

Definition frames : list (list byte) := [[x01]; [x02]].
Definition strict := Toy.config.
Definition boot_config := Binary.config.



(** The file after one issue, and the registry that knows its token. *)
Definition issued : Boot := reissue boot_config (supply 1000) empty_boot.
Definition issued_dir : Dir := default {| dir_mode := 0; files := ∅ |} (dir issued).
Definition issued_file : CredentialFile :=
  file_of boot_config (supply 1000) (Credential.issue (random (supply 1000)) 1000 BOOTSTRAP_LEASE_MS).

Lemma failed_send_strands_shell_witness :
  let boot := {| credentials_of := (authenticate 2000 (fc_token (cf_credential issued_file)) (credentials_of issued)).2;
                 dir := Some issued_dir; file_expiry := Some 3601000%N |} in
  let boot' := (serve_connection strict boot_config (supply 2000) None frames [false] srv boot).2 in
  (authenticate 5000 (fc_token (cf_credential issued_file)) (credentials_of boot')).1 = Err Replay.
Proof.
  assert (Hread : read_from issued_dir = Some issued_file) by (vm_compute; reflexivity).
  assert (Hreg : credentials (credentials_of issued) !! fc_token (cf_credential issued_file)
                 = Some {| ic_expires_at := 3601000; used := false |}) by (vm_compute; reflexivity).
  assert (Hauth : (authenticate 2000 (fc_token (cf_credential issued_file)) (credentials_of issued)).1 = Ok tt)
    by (vm_compute; reflexivity).
  pose proof (failed_send_strands_shell strict boot_config (supply 2000) None frames [false] srv
    (credentials_of issued) issued_dir issued_file 3601000 2000 5000 (supply 5000) Hread Hreg Hauth eq_refl) as Hf.
  destruct (connected None srv) as [key w0] eqn:Hc.
  assert (Hloop : (serve_loop strict key frames [false] w0).1 = Ok false)
    by (injection Hc as <- <-; vm_compute; reflexivity).
  specialize (Hf Hloop). cbv zeta in Hf |- *.
  destruct (serve_connection strict boot_config (supply 2000) None frames [false] srv _) as [srv' boot'].
  destruct Hf as (_ & _ & _ & Hreplay). exact Hreplay.
Defined.
End Leaving.
