(* ===== verification/DaemonMain.v ===== *)
(** * The daemon's process entry

    Model of [crates/daemon/src/main.rs] with [bind_with_policy] of [server.rs]:
    the arguments, the expected Shell, the start-up sequence with its exit codes,
    and the loop that gives every connection its thread.

    The directories of the machine are a map from paths to [Dir]; what the
    operating system answers (variables, the bind, the lock, the carrier) is the
    record [Host]. *)
From Stdlib Require Import NArith ZArith Lia Strings.Byte.
From stdpp Require Import base strings gmap list option pretty.
From S2P Require Import Prelude Text Civil Credential Bootstrap DaemonServer.

Definition CLAIM_PORT : N := 37771.
Definition CATALOG_FILE_NAME : string := "environment-catalog-v1.json".

(** The exit codes. *)
Definition EXIT_SUCCESS : N := 0.
Definition EXIT_FAILURE : N := 1.
Definition EXIT_USAGE : N := 2.
Definition EXIT_ALREADY_RUNNING : N := 3.
Definition EXIT_LOCK_CONFLICT : N := 4.

(** ** Arguments *)

Record Options := {
  data_dir_override : option string; claim_port_override : option N; policy_off : bool
}.

Definition default_options : Options :=
  {| data_dir_override := None; claim_port_override := None; policy_off := false |}.

(** The loop of [main] over the arguments: the options, or the exit code. *)
Fixpoint parse_args (args : list string) (o : Options) : result N Options :=
  match args with
  | [] => Ok o
  | arg :: rest =>
      if bool_decide (arg = "--data-dir") then
        match rest with
        | [] => Err EXIT_USAGE
        | value :: rest =>
            parse_args rest {| data_dir_override := Some value; claim_port_override := claim_port_override o;
                               policy_off := policy_off o |}
        end
      else if bool_decide (arg = "--claim-port") then
        match rest with
        | [] => Err EXIT_USAGE
        | value :: rest =>
            match parse_unsigned 10 65535 (txt value) with
            | Some port => parse_args rest {| data_dir_override := data_dir_override o;
                                              claim_port_override := Some port; policy_off := policy_off o |}
            | None => Err EXIT_USAGE
            end
        end
      else if bool_decide (arg = "--peer-identity-policy") then
        match rest with
        | [] => Err EXIT_USAGE
        | value :: rest =>
            if bool_decide (value = "strict") then
              parse_args rest {| data_dir_override := data_dir_override o;
                                 claim_port_override := claim_port_override o; policy_off := false |}
            else if bool_decide (value = "off") then
              parse_args rest {| data_dir_override := data_dir_override o;
                                 claim_port_override := claim_port_override o; policy_off := true |}
            else Err EXIT_USAGE
        end
      else if bool_decide (arg = "--version") then Err EXIT_SUCCESS
      else if bool_decide (arg = "-h") || bool_decide (arg = "--help") then Err EXIT_SUCCESS
      else Err EXIT_USAGE
  end%string.

(** ** Start-up *)

Inductive BindError := AddrInUse | BindIo.

(** What the process finds and what the operating system answers. *)
Record Host := {
  unix : bool;
  windows : bool;
  vars : EnvVars;
  shell_override : option string;             (* [DSH_SHELL_EXPECTED_PATH] *)
  exe_dir : option string;                    (* [current_exe()] and its parent *)
  join : string -> string -> string;          (* [Path::join] *)
  parent : string -> option string;           (* [Path::parent] *)
  is_file : string -> bool;
  bind_on : N -> result BindError N;          (* [LocalServer::bind_on]: the port *)
  tag_nanos : N;                              (* the clock of [carrier_instance_tag] *)
  carrier_bind : string -> bool;              (* the bind of the pipe or the socket *)
  boot_id : string * N;                       (* the version and the process id *)
  lock_answers : bool * bool * bool;          (* of [InstanceGuard::acquire] *)
  lock_dir_made : bool;                       (* [create_dir_all] *)
  unlock_answer : bool;
  issue_answers : IssueEnv;
  umask_of : N
}.

(** [SHELL_BINARY_CANDIDATES] *)
Definition SHELL_BINARY_CANDIDATES (h : Host) : list string :=
  if unix h then ["dsh-desktop-shell"; "DSH Desktop Shell"]%string
  else ["dsh-desktop-shell.exe"; "DSH Desktop Shell.exe"]%string.

(** [expected_shell_path] *)
Definition expected_shell_path (h : Host) : option string :=
  match non_empty (shell_override h) with
  | Some path => Some path
  | None =>
      match exe_dir h with
      | None => None
      | Some dir => List.find (is_file h) (map (join h dir) (SHELL_BINARY_CANDIDATES h))
      end
  end.

(** [default_catalog_path] *)
Definition default_catalog_path (h : Host) : option string :=
  match data_dir (unix h) (join h) (vars h) with
  | Some dir => Some (join h dir CATALOG_FILE_NAME)
  | None => None
  end.

Definition policy_of (h : Host) (o : Options) : PeerIdentityPolicy :=
  if policy_off o then PolicyOff else Strict (expected_shell_path h).

(** The directories of the machine. *)
Abbreviation Disk := (gmap string Dir).

Definition new_dir : Dir := {| dir_mode := 493; files := ∅ |}.
Definition dir_at (path : string) (disk : Disk) : Dir := default new_dir (disk !! path).

(** What [bind_with_policy] returns of the server. *)
Record Bound := {
  bound_port : N;
  bound_claim_port : N;
  bound_catalog : string;
  credential_dir : option string;
  bound_carrier : option CarrierEndpoint;
  bound_policy : PeerIdentityPolicy
}.

(** [carrier_instance_tag]: the process id and the low 48 bits of the clock. *)
Definition carrier_instance_tag (h : Host) : string :=
  (pretty (snd (boot_id h)) +:+ "-" +:+ lower_hex 0 (N.land (tag_nanos h) 281474976710655))%string.

(** [attach_peer_identity_carrier]: a pipe that cannot be bound is an error, a
    socket is not. *)
Definition attach_peer_identity_carrier (h : Host) (dir : option string) : result BindError (option CarrierEndpoint) :=
  if windows h then
    let name := ("dsh-desktop-daemon-" +:+ carrier_instance_tag h)%string in
    if carrier_bind h name then Ok (Some (NamedPipe name)) else Err BindIo
  else if unix h then
    match dir with
    | None => Ok None
    | Some dir =>
        let path := join h dir ("d-" +:+ carrier_instance_tag h +:+ ".sock")%string in
        if carrier_bind h path then Ok (Some (UnixSocket path)) else Ok None
    end
  else Ok None.

(** [DaemonServer::bind_with_policy] *)
Definition bind_with_policy (h : Host) (port : N) (catalog : string) (p : PeerIdentityPolicy) :
    result BindError Bound :=
  actual ← bind_on h port;
  let dir := parent h catalog in
  carrier ← attach_peer_identity_carrier h dir;
  Ok {| bound_port := actual; bound_claim_port := if (port =? 0)%N then actual else port; bound_catalog := catalog;
        credential_dir := dir; bound_carrier := carrier; bound_policy := p |}.

Section Start.
Context `{FileCodec}.

(** [InstanceGuard::acquire] in [dir] *)
Definition take_lock (h : Host) (dir : string) : M Disk N unit := fun disk =>
  if negb (lock_dir_made h) then (Err EXIT_LOCK_CONFLICT, disk)
  else
    let '(create, remove, again) := lock_answers h in
    match acquire (pretty (snd (boot_id h))) create remove again (umask_of h) (dir_at dir disk) with
    | (Ok _, d) => (Ok tt, <[dir := d]> disk)
    | (Err _, d) => (Err EXIT_LOCK_CONFLICT, <[dir := d]> disk)
    end.

(** The drop of the guard when [main] returns. *)
Definition drop_lock (h : Host) (dir : string) (disk : Disk) : Disk :=
  <[dir := release_lock (unlock_answer h) (dir_at dir disk)]> disk.

(** What runs after the start: the server and its credentials. *)
Record Started := { bound : Bound; lock_dir : string; boot : Boot }.

Definition boot_config (h : Host) (s : Bound) : BootConfig :=
  {| boot_version := fst (boot_id h); boot_pid := snd (boot_id h); boot_claim_port := bound_claim_port s;
     boot_port := bound_port s; carrier := bound_carrier s; umask := umask_of h |}.

(** The credential file, in the directory of the server; when it cannot be
    written [main] returns and the lock is dropped. *)
Definition first_credential (h : Host) (dir : string) (s : Bound) : M Disk N Started := fun disk =>
  let b := {| credentials_of := empty_registry; Bootstrap.dir := option_map (fun p => dir_at p disk) (credential_dir s);
              file_expiry := None |} in
  let '(r, b') := issue_bootstrap (boot_config h s) BOOTSTRAP_LEASE_MS (issue_answers h) b in
  let disk := match credential_dir s, Bootstrap.dir b' with
              | Some p, Some d => <[p := d]> disk
              | _, _ => disk
              end in
  match r with
  | Ok (Some _) => (Ok {| bound := s; lock_dir := dir; boot := b' |}, disk)
  | Ok None | Err _ => (Err EXIT_FAILURE, drop_lock h dir disk)
  end.

(** [main], up to its loop *)
Definition start (h : Host) (args : list string) : M Disk N Started :=
  o ← lift (parse_args args default_options);
  dir ← lift (match data_dir_override o with
              | Some dir => Ok dir
              | None => ok_or EXIT_FAILURE (data_dir (unix h) (join h) (vars h))
              end);
  catalog ← lift (ok_or EXIT_FAILURE (default_catalog_path h));
  s ← lift (map_err (fun e => match e with AddrInUse => EXIT_ALREADY_RUNNING | BindIo => EXIT_FAILURE end)
              (bind_with_policy h (default CLAIM_PORT (claim_port_override o)) catalog (policy_of h o)));
  take_lock h dir;;
  first_credential h dir s.
End Start.

(** ** The serving loop *)

(** One round of the loop over the connections of the transport: the connections
    that get a thread, and those that have had one. *)
Fixpoint serve_round (ids : list N) (served : gset N) : list N * gset N :=
  match ids with
  | [] => ([], served)
  | id :: ids =>
      if bool_decide (id ∈ served) then serve_round ids served
      else let '(spawned, served) := serve_round ids ({[id]} ∪ served) in (id :: spawned, served)
  end.

(** The rounds, one after the other. *)
Fixpoint serve_rounds (rounds : list (list N)) (served : gset N) : list N * gset N :=
  match rounds with
  | [] => ([], served)
  | ids :: rounds =>
      let '(spawned, served) := serve_round ids served in
      let '(more, served) := serve_rounds rounds served in
      (spawned ++ more, served)
  end.

(** ** Theorems *)

(** Whether the directories of the start resolve. *)
Definition dirs_resolve (h : Host) (o : Options) : bool :=
  match data_dir (unix h) (join h) (vars h) with Some _ => true | None => false end.

Section StartFacts.
Context `{FileCodecLaws}.

(** A second daemon leaves no trace: with valid arguments and the port in use it
    exits with the code for a running daemon (or for a failure, when the data
    directory does not resolve), and neither the lock nor the credential file of
    the running one is touched. *)
Theorem second_daemon_leaves_no_trace h args o disk :
  parse_args args default_options = Ok o -> bind_on h (default CLAIM_PORT (claim_port_override o)) = Err AddrInUse ->
  start h args disk = (Err (if dirs_resolve h o then EXIT_ALREADY_RUNNING else EXIT_FAILURE), disk).
Proof.
  intros Ho Hb. unfold start, dirs_resolve. unfold_monad. rewrite Ho. unfold default_catalog_path.
  destruct (data_dir (unix h) (join h) (vars h)) as [base|]; [| by destruct (data_dir_override o)].
  unfold bind_with_policy. rewrite Hb. by destruct (data_dir_override o).
Qed.

(** What the issue has written. *)
Lemma issue_written c ttl e b f b' :
  issue_bootstrap c ttl e b = (Ok (Some f), b') ->
  exists d d', dir b = Some d /\ dir b' = Some d' /\ read_from d' = Some f /\
    (forall name, name <> CREDENTIAL_FILE_NAME -> name <> TEMP_FILE_NAME -> files d' !! name = files d !! name) /\
    exists cred, f = file_of c e cred /\ file_expiry b' = Some (expires_at cred).
Proof.
  unfold issue_bootstrap. destruct (dir b) as [d|]; [| done]. destruct (issue_credential _ _ _ _ _) as [cred reg].
  unfold write_succeeds, write_steps. destruct (to_json (file_of c e cred)) as [json|] eqn:Hj; [| done].
  destruct (Nat.leb_spec 5 (writes e)) as [Hw|Hw]; [| done]. destruct (writes e) as [|[|[|[|[|n]]]]]; try lia.
  intros [= <- <-]. eexists d, _. split_and!; [done | reflexivity | | | by exists cred].
  - pose proof temp_is_not_final as Hne. unfold read_from. cbn. rewrite lookup_alter_eq, lookup_insert_eq. cbn.
    rewrite lookup_delete_ne by done. rewrite lookup_insert_eq. cbn. by apply file_round_trip.
  - intros name Hn Ht. cbn. rewrite lookup_alter_eq, lookup_insert_eq. cbn.
    by rewrite lookup_delete_ne, lookup_insert_ne, lookup_alter_ne, lookup_insert_ne by done.
Qed.

Lemma lock_taken h dir disk u disk' :
  take_lock h dir disk = (Ok u, disk') ->
  exists d x, disk' = <[dir := d]> disk /\ files d !! LOCK_FILE_NAME = Some x /\ contents x = pretty (snd (boot_id h)).
Proof.
  unfold take_lock. destruct (lock_dir_made h); [| done]. cbn [negb].
  destruct (lock_answers h) as [[create remove] again]. unfold acquire.
  destruct (files (dir_at dir disk) !! LOCK_FILE_NAME); [destruct remove, again | destruct create]; try done;
    intros [= <- <-]; eexists _, _; (split_and!; [done | apply lookup_insert_eq | done]).
Qed.

(** A daemon that has started: the credential file is in the server's directory,
    as the server published it (its port and carrier), its lock file names it, and
    no other directory was touched. *)
Theorem started_daemon h args disk s disk' :
  start h args disk = (Ok s, disk') ->
  exists p f, credential_dir (bound s) = Some p /\ read_from (dir_at p disk') = Some f /\
    (exists cred, f = file_of (boot_config h (bound s)) (issue_answers h) cred) /\
    (exists x, files (dir_at (lock_dir s) disk') !! LOCK_FILE_NAME = Some x /\ contents x = pretty (snd (boot_id h))) /\
    forall path, path <> p -> path <> lock_dir s -> disk' !! path = disk !! path.
Proof.
  unfold start. intros (o & d1 & (Ho & ->)%lift_ok & Hrest)%bind_ok.
  apply bind_ok in Hrest as (dir & d2 & (Hdir & ->)%lift_ok & Hrest).
  apply bind_ok in Hrest as (catalog & d3 & (Hcat & ->)%lift_ok & Hrest).
  apply bind_ok in Hrest as (b & d4 & (Hb & ->)%lift_ok & Hrest).
  apply bind_ok in Hrest as (u & d5 & Hlock & Hrest).
  apply lock_taken in Hlock as (d & x & -> & Hx & Hpid). unfold first_credential in Hrest.
  destruct (issue_bootstrap _ _ _ _) as [[[f|]|] b'] eqn:Hi; try done. injection Hrest as <- <-. cbn [bound lock_dir].
  apply issue_written in Hi as (old & new & Hold & Hnew & Hread & Hkeep & cred & Hf & _). cbn in Hold.
  destruct (credential_dir b) as [p|]; [| done]. cbn in Hold. injection Hold as <-. rewrite Hnew.
  exists p, f. split_and!; [done | | by exists cred | |].
  - unfold dir_at. by rewrite lookup_insert_eq.
  - exists x. split; [| done]. unfold dir_at. destruct (decide (dir = p)) as [-> | Hne].
    + rewrite lookup_insert_eq. cbn. rewrite Hkeep by done. unfold dir_at. by rewrite lookup_insert_eq.
    + rewrite lookup_insert_ne, lookup_insert_eq by done. done.
  - intros path Hp Hd. by rewrite !lookup_insert_ne.
Qed.

(** A start that fails keeps no lock, as far as it can remove it: either nothing
    was touched, or the lock could not be taken, or it was removed again. *)
Theorem failed_start_releases h args disk code disk' :
  start h args disk = (Err code, disk') -> unlock_answer h = true ->
  disk' = disk \/ code = EXIT_LOCK_CONFLICT \/
  exists dir, files (dir_at dir disk') !! LOCK_FILE_NAME = None /\ code = EXIT_FAILURE.
Proof.
  unfold start. unfold_monad. intros Hs Hu. destruct (parse_args _ _) as [o|]; [| simplify_eq; by left].
  destruct (match data_dir_override o with Some _ => _ | None => _ end) as [dir|]; [| simplify_eq; by left].
  destruct (ok_or _ _) as [catalog|]; [| simplify_eq; by left].
  destruct (map_err _ _) as [b|]; [| simplify_eq; by left].
  destruct (take_lock h dir disk) as [[[]|e] d1] eqn:Hl.
  - unfold first_credential in Hs. right; right. exists dir.
    destruct (issue_bootstrap _ _ _ _) as [[[f|]|] b']; [done | |]; injection Hs as <- <-;
      (split; [| done]); unfold drop_lock; rewrite Hu; unfold dir_at; rewrite lookup_insert_eq; cbn; apply lookup_delete_eq.
  - injection Hs as <- <-. right; left. unfold take_lock in Hl. repeat case_match; by simplify_eq.
Qed.
End StartFacts.

(** ** Every connection gets one thread *)

Lemma serve_round_spec ids served :
  let '(spawned, served') := serve_round ids served in
  NoDup spawned /\ (forall id, id ∈ spawned <-> id ∈ ids /\ id ∉ served) /\ served' = served ∪ list_to_set spawned.
Proof.
  revert served. induction ids as [|id ids IH]; intros served; cbn [serve_round].
  { split_and!; [constructor | set_solver | set_solver]. }
  case_bool_decide as Hin.
  - specialize (IH served). destruct (serve_round ids served) as [sp served']. destruct IH as (Hn & Hs & ->).
    split_and!; [done | | done]. intros x. rewrite Hs. set_solver.
  - specialize (IH ({[id]} ∪ served)). destruct (serve_round ids _) as [sp served']. destruct IH as (Hn & Hs & ->).
    split_and!; [constructor; [rewrite Hs; set_solver | done] | | set_solver].
    intros x. rewrite elem_of_cons, Hs. destruct (decide (x = id)) as [-> | Hne]; set_solver.
Qed.

(** However the transport lists its connections from round to round, every one it
    ever lists is given exactly one thread. *)
Theorem each_connection_served_once rounds served :
  NoDup (serve_rounds rounds served).1 /\
  forall id, id ∈ (serve_rounds rounds served).1 <-> (exists ids, ids ∈ rounds /\ id ∈ ids) /\ id ∉ served.
Proof.
  revert served. induction rounds as [|ids rounds IH]; intros served; cbn [serve_rounds].
  { split; [constructor |]. set_solver. }
  pose proof (serve_round_spec ids served) as Hr. destruct (serve_round ids served) as [sp served1].
  destruct Hr as (Hn & Hs & ->). specialize (IH (served ∪ list_to_set sp)).
  destruct (serve_rounds rounds _) as [more served2]. cbn [fst] in *. destruct IH as [Hnm Hm]. split.
  - apply NoDup_app. split_and!; [done | | done]. intros id Hid. rewrite Hm. set_solver.
  - intros id. rewrite elem_of_app, Hs, Hm. setoid_rewrite elem_of_cons.
    destruct (decide (id ∈ ids)) as [Hi|Hi]; [set_solver |]. set_solver.
Qed.

(** ** The theorems at work *)
Module LocalStart.
Import Bootstrap.Binary.

Definition slash (a b : string) : string := (a +:+ "/" +:+ b)%string.
(** A Unix machine with a home directory, on which every call works. *)
Definition host : Host :=
  {| unix := true; windows := false;
     vars := {| DSH_DAEMON_DATA_DIR := Some "/data"%string; APPDATA := None; LOCALAPPDATA := None;
                XDG_DATA_HOME := None; HOME := None |};
     shell_override := None; exe_dir := Some "/opt/dsh"%string; join := slash;
     parent := fun path => if bool_decide (path = slash "/data" CATALOG_FILE_NAME) then Some "/data"%string else None;
     is_file := fun path => bool_decide (path = "/opt/dsh/DSH Desktop Shell"%string);
     bind_on := fun port => Ok port; tag_nanos := 1000; carrier_bind := fun _ => true; boot_id := ("0.1.0"%string, 42%N);
     lock_answers := (true, true, true); lock_dir_made := true; unlock_answer := true; issue_answers := supply 1000;
     umask_of := 420 |}.

Lemma started_daemon_witness :
  exists s disk f, start host [] ∅ = (Ok s, disk) /\ read_from (dir_at "/data" disk) = Some f.
Proof.
  assert (Hc : match start host [] ∅ with
               | (Ok s, _) => bool_decide (credential_dir (bound s) = Some "/data"%string)
               | _ => false
               end = true) by (vm_compute; reflexivity).
  destruct (start host [] ∅) as [[s|c] disk] eqn:Hs; [| discriminate]. apply bool_decide_eq_true in Hc.
  destruct (started_daemon host [] ∅ s disk Hs) as (p & f & Hp & Hf & _). exists s, disk, f. split; [reflexivity |].
  rewrite Hc in Hp. injection Hp as <-. exact Hf.
Defined.

(** By default the Shell next to the daemon is the one with authority. *)
Example strict_by_default :
  match (start host [] ∅).1 with
  | Ok s => bound_policy (bound s) = Strict (Some "/opt/dsh/DSH Desktop Shell"%string)
  | Err _ => False
  end.
Proof. vm_compute. reflexivity. Qed.

Definition busy : Host :=
  {| unix := true; windows := false; vars := vars host; shell_override := None; exe_dir := None; join := slash;
     parent := parent host; is_file := is_file host; bind_on := fun _ => Err AddrInUse; tag_nanos := 0;
     carrier_bind := fun _ => true; boot_id := boot_id host; lock_answers := (true, true, true);
     lock_dir_made := true; unlock_answer := true; issue_answers := supply 0; umask_of := 420 |}.

Lemma second_daemon_leaves_no_trace_witness :
  start busy ["--claim-port"; "4000"]%string ∅ = (Err EXIT_ALREADY_RUNNING, ∅).
Proof.
  exact (second_daemon_leaves_no_trace busy ["--claim-port"; "4000"]%string
    {| data_dir_override := None; claim_port_override := Some 4000%N; policy_off := false |} ∅ eq_refl eq_refl).
Defined.

(** [--data-dir] moves the lock file only: the credential file and the catalog stay
    in the default directory. *)
Example data_dir_only_moves_lock :
  match start host ["--data-dir"; "/elsewhere"]%string ∅ with
  | (Ok s, disk) =>
      read_from (dir_at "/elsewhere" disk) = None /\ option_map cf_port (read_from (dir_at "/data" disk)) = Some 37771%N /\
      option_map contents (files (dir_at "/elsewhere" disk) !! LOCK_FILE_NAME) = Some "42"%string
  | _ => False
  end.
Proof. vm_compute. by split_and!. Qed.

(** Two daemons on different ports share a data directory: the second takes the
    lock of the first, which is alive, and replaces its credential file. *)
Example other_port_takes_live_lock :
  match start host [] ∅ with
  | (Ok s, disk) =>
      match start host ["--claim-port"; "4000"]%string disk with
      | (Ok s', disk') => lock_dir s' = lock_dir s /\ option_map cf_port (read_from (dir_at "/data" disk)) = Some 37771%N /\
          option_map cf_port (read_from (dir_at "/data" disk')) = Some 4000%N
      | _ => False
      end
  | _ => False
  end.
Proof. vm_compute. by split_and!. Qed.
End LocalStart.
