(* ===== verification/ReplyFacts.v ===== *)
(** * What the daemon answers

    The replies of [handle_envelope] and the event envelopes conform to the
    schema the daemon itself validates against. *)
From Stdlib Require Import NArith ZArith Ascii Lia Strings.Byte.
From stdpp Require Import base strings gmap list option.
From S2P Require Import Prelude Text Civil Credential Bootstrap Server Broker AgentBridge.
From S2P Require Import EventRouter Scheduler Terminal TerminalFacts Browser Envelope.
From S2P Require Import EnvelopeFacts Timestamps DaemonState TerminalCapability.
From S2P Require Import HostCapabilities Dispatch DaemonServer DaemonServerFacts.

(** ** Ids and messages *)

Lemma zeros_length k : String.length (zeros k) = k.
Proof. induction k; cbn; congruence. Qed.

Lemma append_length (s t : string) : String.length (s +:+ t) = (String.length s + String.length t)%nat.
Proof. induction s as [|c s IH]; [done |]. change (S (String.length (s +:+ t)) = S (String.length s + String.length t)). by f_equal. Qed.

Lemma hex_digits_length fuel n acc k :
  (n < 16 ^ N.of_nat (S k))%N -> String.length (hex_digits fuel n acc) <= S k + String.length acc.
Proof.
  revert n acc k. induction fuel as [|fuel IH]; intros n acc k Hn; cbn; [lia |].
  destruct (N.ltb_spec n 16) as [|Hge]; cbn; [lia |].
  destruct k as [|k]; [cbn in Hn; lia |].
  specialize (IH (n / 16)%N (String.String (hex_digit (n mod 16)) acc) k). cbn in IH.
  enough (n / 16 < 16 ^ N.of_nat (S k))%N by (specialize (IH ltac:(done)); lia).
  apply N.Div0.div_lt_upper_bound. rewrite <- N.pow_succ_r'. by rewrite <- Nat2N.inj_succ.
Qed.

Lemma lower_hex_length w n k :
  (n < 16 ^ N.of_nat (S k))%N -> w <= String.length (lower_hex w n) <= Nat.max w (S k).
Proof.
  intros Hn. unfold lower_hex. rewrite append_length, zeros_length.
  pose proof (hex_digits_length (S (N.to_nat (N.log2 n))) n EmptyString k Hn) as H. cbn [String.length] in H.
  lia.
Qed.

(** The end of the year 9999, in nanoseconds. *)
Definition STAMP_LIMIT : N := 253402300800000000000.

Lemma unique_token_length prefix nanos n :
  String.length prefix = 3%nat -> (nanos < STAMP_LIMIT)%N -> (n <= U64_MAX)%N ->
  25 <= String.length (unique_token prefix nanos n) <= 38.
Proof.
  intros Hp Ht Hn. unfold unique_token. rewrite !append_length, Hp. cbn [String.length].
  pose proof (lower_hex_length 16 nanos 16) as H1. pose proof (lower_hex_length 4 n 15) as H2.
  assert (nanos < 16 ^ N.of_nat 17)%N as ?%H1 by (eapply N.lt_trans; [exact Ht | reflexivity]).
  assert (n < 16 ^ N.of_nat 16)%N as ?%H2 by (eapply N.le_lt_trans; [exact Hn | reflexivity]).
  lia.
Qed.

Lemma take_chars_count k s :
  length (List.filter (fun c => negb ((128 <=? code c) && (code c <? 192))%N) (take_chars k s)) <= k.
Proof.
  revert k. induction s as [|c s IH]; intros k; cbn; [lia |].
  destruct ((128 <=? code c) && (code c <? 192))%N eqn:Hc; cbn; [rewrite Hc; apply IH |].
  destruct k as [|k]; cbn; [lia |]. rewrite Hc. cbn. specialize (IH k). lia.
Qed.

Lemma truncated_message s :
  chars_count (String.string_of_list_ascii (take_chars 512 (String.list_ascii_of_string s))) <= ERROR_MESSAGE_MAX_LEN.
Proof. unfold chars_count. rewrite String.list_ascii_of_string_of_list_ascii. apply take_chars_count. Qed.

(** ** What the daemon relies on *)

(** The clock before the year 10000, at every reading. *)
Class ClockInRange (C : Type) `{!Clock C} : Prop :=
  clock_in_range : forall c, ((clock_read c).1 < STAMP_LIMIT)%N.

(** [serde_json] prints a struct as an object, reads an agreement back, and
    prints two unavailable capabilities alike only if their coordinates print
    alike. *)
Class WireLaws (Value Report Binding : Type) `{!Serde Value} `{!TerminalWire Value}
    `{!BrowserCap.BrowserWire Value} `{!RuntimeCap.RuntimeWire Value Report Binding}
    `{!DaemonWire Value} `{!ServerWire Value} : Prop := {
  wl_terminal : forall r, is_object (report_to_value r) = true;
  wl_terminals : forall l n, is_object (terminal_status_to_value l n) = true;
  wl_empty : is_object empty_object = true;
  wl_browser : forall r, is_object (BrowserCap.report_to_value r) = true;
  wl_browsers : forall l, is_object (BrowserCap.list_to_value l) = true;
  wl_browser_status : forall l n, is_object (BrowserCap.status_to_value l n) = true;
  wl_report : forall r, is_object (RuntimeCap.report_value (Value := Value) (Binding := Binding) r) = true;
  wl_binding : forall b, is_object (RuntimeCap.binding_value (Value := Value) (Report := Report) b) = true;
  wl_pong : forall v, is_object (pong_value v) = true;
  wl_status : forall s, is_object (status_value s) = true;
  wl_registered : forall r, is_object (registered_value r) = true;
  wl_cancelled : forall c, is_object (cancelled_value c) = true;
  wl_output : forall e, is_object (output_to_value e) = true;
  wl_lifecycle : forall e, is_object (lifecycle_to_value e) = true;
  wl_agreement : forall a, agreement_from_value (agreement_to_value a) = Ok a;
  wl_unavailable : forall u u', unavailable_to_string u = unavailable_to_string u' ->
    coordinate_to_string (unavailable_coordinate u) = coordinate_to_string (unavailable_coordinate u')
}.

(** ** Lists *)

(** What [g] tells apart, [f] does. *)
Lemma NoDup_map_finer {A B D} (f : A -> B) (g : A -> D) l :
  (forall x y, f x = f y -> g x = g y) -> NoDup (map g l) -> NoDup (map f l).
Proof.
  intros Hfg. induction l as [|x l IH]; cbn; [constructor |]. rewrite !list.NoDup_cons. intros [Hx Hl].
  split; [| auto]. intros (y & Hy & Hin)%list_elem_of_fmap. apply Hx, list_elem_of_fmap. eauto.
Qed.

Lemma filter_split {A} (p : A -> bool) (l : list A) :
  List.filter (fun x => negb (p x)) l ++ List.filter p l ≡ₚ l.
Proof.
  induction l as [|x l IH]; cbn; [done |]. destruct (p x); cbn; [| by constructor].
  etrans; [symmetry; apply Permutation_middle | by constructor].
Qed.

Lemma filter_sublist {A} (p : A -> bool) (l : list A) : sublist (List.filter p l) l.
Proof. induction l as [|x l IH]; cbn; [constructor |]. destruct (p x); by constructor. Qed.

Section Replies.
Context {Value C P OS RT Report Binding : Type} `{clock_c : !Clock C} `{pty : !PtyPlatform P OS}
  `{clock_os : !Clock OS} `{mr : !ManagedRuntime RT Report Binding} `{tw : !TerminalWire Value}
  `{bw : !BrowserCap.BrowserWire Value} `{rw : !RuntimeCap.RuntimeWire Value Report Binding}
  `{dw : !DaemonWire Value} `{sw : !ServerWire Value} `{sd : !Serde Value}
  `{ew : !EnvelopeWire Value} `{range : !ClockInRange C} `{laws : !WireLaws Value Report Binding}.
Abbreviation Daemon := (Daemon Value C P OS RT).
Abbreviation World := (World Value C P OS RT).
Abbreviation Config := (Config Value C P OS RT).
Abbreviation Env := (Envelope Value).
Implicit Types (w : World) (env : Env) (cfg : Config).

(** ** Handlers answer with objects *)

(** The outcomes of the handler of [m]. *)
Definition object (v : Value) : Prop := is_object v = true.
Definition names (c : ProtocolCoordinate) (m : string) (e : DaemonMethodError) : Prop :=
  match e with MethodNotFound c' m' => c' = c /\ m' = m | _ => True end.
Abbreviation answers c m := (yields (fun _ : Daemon => True) object (names c m)).
Abbreviation proceeds c m := (yields (fun _ : Daemon => True) (fun _ => True) (names c m)).

Lemma parse_proceeds {T} c m name (r : result string T) : proceeds c m (lift (parse_request name r)).
Proof. apply yields_lift. by destruct r. Qed.

Lemma check_proceeds c m b code msg retry : proceeds c m (throw_if b (failed code msg retry)).
Proof. by apply yields_throw_if. Qed.

Lemma gets_proceeds {A} c m (f : Daemon -> A) : proceeds c m (gets f).
Proof. by apply yields_gets. Qed.

Lemma modify_proceeds c m (f : Daemon -> Daemon) : proceeds c m (modify f).
Proof. by apply yields_modify. Qed.

Lemma on_router_proceeds c m f : proceeds c m (on_router f).
Proof. by apply yields_modify. Qed.

Lemma now_proceeds c m : proceeds c m (daemon_now (Value := Value) (C := C) (P := P) (OS := OS) (RT := RT)).
Proof. intros d _. split; [done |]. unfold daemon_now. by destruct (clock_read _). Qed.

Lemma on_browser_proceeds {A} c m (x : M _ _ A) :
  proceeds c m (BrowserCap.on_browser (Value := Value) (C := C) (P := P) (OS := OS) (RT := RT) x).
Proof. apply yields_map_err, yields_any; [done |]. by intros []. Qed.

Lemma on_terminal_proceeds {A} c m (x : M _ _ A) :
  proceeds c m (on_terminal (Value := Value) (C := C) (P := P) (OS := OS) (RT := RT) x).
Proof. apply yields_map_err, yields_any; [done |]. by intros []. Qed.

Lemma on_runtime_proceeds {A} c m (x : M _ _ A) :
  proceeds c m (RuntimeCap.on_runtime (Value := Value) (C := C) (P := P) (OS := OS) (RT := RT) x).
Proof. apply yields_map_err, yields_any; [done |]. by intros []. Qed.

Lemma on_scheduler_proceeds {A} c m c' m' (x : M _ _ A) :
  proceeds c m (on_scheduler (Value := Value) (C := C) (P := P) (OS := OS) (RT := RT) c' m' x).
Proof. apply yields_map_err, yields_any; [done |]. by intros []. Qed.

Lemma resolve_proceeds c m id :
  proceeds c m (RuntimeCap.resolve (Value := Value) (C := C) (P := P) (OS := OS) (RT := RT) id).
Proof.
  intros d _. split; [done |]. unfold RuntimeCap.resolve. cbn.
  destruct (host_environment id (runtime d)) as [|[| | |[]]]; done.
Qed.

Lemma validate_proceeds c m r : proceeds c m (lift (RuntimeCap.validate_request r)).
Proof. apply yields_lift. unfold RuntimeCap.validate_request. by destruct (_ || _). Qed.

Lemma gate_proceeds c m b :
  proceeds c m (gate_binding (Value := Value) (C := C) (P := P) (OS := OS) (RT := RT) b).
Proof.
  destruct b as [b|]; [| by apply yields_ret]. apply yields_map_err, yields_any; [done |]. by intros [].
Qed.

Lemma check_owner_proceeds c m conn sid :
  proceeds c m (check_owner (Value := Value) (C := C) (P := P) (OS := OS) (RT := RT) conn sid).
Proof. intros d _. split; [done |]. unfold check_owner. by repeat case_match; simplify_eq/=. Qed.

Lemma browser_check_owner_proceeds c m conn sid :
  proceeds c m (BrowserCap.check_owner (Value := Value) (C := C) (P := P) (OS := OS) (RT := RT) conn sid).
Proof. intros d _. split; [done |]. unfold BrowserCap.check_owner. by repeat case_match; simplify_eq/=. Qed.

Lemma then_answers {A} c m (x : M Daemon DaemonMethodError A) k :
  proceeds c m x -> (forall a, answers c m (k a)) -> answers c m (x ≫= k).
Proof. intros Hx Hk. eapply yields_bind; [exact Hx | auto]. Qed.

Lemma then_proceeds {A B} c m (x : M Daemon DaemonMethodError A) (k : A -> M Daemon DaemonMethodError B) :
  proceeds c m x -> (forall a, proceeds c m (k a)) -> proceeds c m (x ≫= k).
Proof. intros Hx Hk. eapply yields_bind; [exact Hx | auto]. Qed.

Lemma not_found_answers c m : answers c m (method_not_found (Value := Value) (C := C) (P := P) (OS := OS) (RT := RT) c m).
Proof. by apply yields_throw. Qed.

Lemma ret_answers c m v : is_object v = true -> answers c m (mret v).
Proof. intros H. apply yields_ret. exact H. Qed.

Create HintDb wire.
#[local] Hint Resolve parse_proceeds check_proceeds gets_proceeds modify_proceeds on_router_proceeds
  now_proceeds on_browser_proceeds on_terminal_proceeds on_runtime_proceeds on_scheduler_proceeds
  resolve_proceeds validate_proceeds gate_proceeds check_owner_proceeds browser_check_owner_proceeds
  then_answers then_proceeds not_found_answers ret_answers wl_terminal wl_terminals wl_empty wl_browser
  wl_browsers wl_browser_status wl_report wl_binding wl_pong wl_status wl_registered wl_cancelled : wire.

Lemma browser_answers conn c m v :
  answers c m (dispatch_browser (Value := Value) (C := C) (P := P) (OS := OS) (RT := RT) conn c m v).
Proof.
  unfold dispatch_browser, BrowserCap.handle_create, BrowserCap.handle_list, BrowserCap.handle_status,
    BrowserCap.handle_close, BrowserCap.handle_navigate, BrowserCap.handle_load_failed.
  repeat case_match; eauto 20 with wire.
Qed.

Lemma terminal_answers conn c m v :
  answers c m (dispatch_terminal (Value := Value) (C := C) (P := P) (OS := OS) (RT := RT) conn c m v).
Proof.
  unfold dispatch_terminal. destruct (terminal_method m) as [[]|]; cbn [terminal_call]; [.. | auto with wire];
    unfold handle_create, handle_write, handle_resize, handle_close, handle_status, authorize;
    eauto 20 with wire.
Qed.

Lemma runtime_answers c m v :
  answers c m (dispatch_runtime (Value := Value) (C := C) (P := P) (OS := OS) (RT := RT) c m v).
Proof.
  unfold dispatch_runtime, RuntimeCap.handle_start, RuntimeCap.handle_status, RuntimeCap.handle_stop,
    RuntimeCap.handle_restart, RuntimeCap.handle_binding, RuntimeCap.require_generation.
  repeat case_match; eauto 20 with wire.
Qed.

Lemma scheduler_answers c m v :
  answers c m (dispatch_scheduler (Value := Value) (C := C) (P := P) (OS := OS) (RT := RT) c m v).
Proof. unfold dispatch_scheduler. repeat case_match; eauto 20 with wire. Qed.

#[local] Hint Resolve browser_answers terminal_answers runtime_answers scheduler_answers : wire.

Lemma dispatch_answers snap conn c m v :
  answers c m (Dispatch.dispatch (Value := Value) (C := C) (P := P) (OS := OS) (RT := RT) snap conn c m v).
Proof. unfold Dispatch.dispatch. repeat case_match; eauto with wire. Qed.

(** ** Replies *)

(** The value of [ID_COUNTER] is a [u64]. *)
Definition counted w : Prop := (id_counter (server w) <= U64_MAX)%N.
Abbreviation makes Q := (yields counted Q (fun _ : Empty_set => False)).

Lemma stamp_makes : makes (fun t => (t < STAMP_LIMIT)%N) (stamp (Value := Value) (P := P) (OS := OS) (RT := RT)).
Proof.
  intros w Hw. unfold stamp. pose proof (clock_in_range (stamps (server w))) as Ht.
  destruct (clock_read _) as [t c]. by split.
Qed.

Lemma fetch_counter_makes :
  makes (fun n => (n <= U64_MAX)%N) (fetch_counter (Value := Value) (C := C) (P := P) (OS := OS) (RT := RT)).
Proof.
  intros w Hw. split; [| exact Hw]. apply u64_add_max.
Qed.

Lemma next_reply_generation_makes :
  makes (fun _ => True) (next_reply_generation (Value := Value) (C := C) (P := P) (OS := OS) (RT := RT)).
Proof. by intros w Hw. Qed.

Definition token_ok (s : string) : Prop := 25 <= String.length s <= 38.

Lemma new_token_makes p :
  String.length p = 3%nat -> makes token_ok (new_token (Value := Value) (P := P) (OS := OS) (RT := RT) p).
Proof.
  intros Hp. eapply yields_bind; [apply stamp_makes | intros t Ht].
  eapply yields_bind; [apply fetch_counter_makes | intros n Hn]. by apply yields_ret, unique_token_length.
Qed.

Lemma now_timestamp_makes :
  makes (fun t => is_rfc3339_timestamp t = true) (now_timestamp (Value := Value) (P := P) (OS := OS) (RT := RT)).
Proof.
  eapply yields_bind; [apply stamp_makes | intros t Ht]. apply yields_ret, stamped_accepted.
  unfold STAMP_LIMIT in Ht. split; [apply N2Z.is_nonneg |].
  change 253402300800000%Z with (Z.of_N 253402300800000). apply N2Z.inj_lt.
  apply N.Div0.div_lt_upper_bound. lia.
Qed.

Lemma token_len_ok s : token_ok s -> len_ok ID_MIN_LEN ID_MAX_LEN s /\ len_ok 1 128 s.
Proof. unfold token_ok, len_ok, ID_MIN_LEN, ID_MAX_LEN. lia. Qed.

(** The three stamps every reply takes. *)
Lemma stamped_reply (k : N -> string -> string -> Env) (Q : list Env -> Prop) :
  (forall g id t, token_ok id -> is_rfc3339_timestamp t = true -> Q [k g id t]) ->
  makes Q (g ← next_reply_generation (Value := Value) (C := C) (P := P) (OS := OS) (RT := RT);
           id ← new_message_id; t ← now_timestamp; mret [k g id t]).
Proof.
  intros HQ. eapply yields_bind; [apply next_reply_generation_makes | intros g _].
  eapply yields_bind; [by apply new_token_makes | intros id Hid].
  eapply yields_bind; [apply now_timestamp_makes | intros t Ht]. by apply yields_ret, HQ.
Qed.

Definition one_reply (Q : Env -> Prop) (l : list Env) : Prop := exists r, l = [r] /\ Q r.
Definition conforms env (r : Env) : Prop := envelope_ok r /\ reply_to r = Some (env_id env).
Definition results env (r : Env) : Prop := conforms env r /\ Envelope.kind r = Result.

Lemma server_names a :
  component (server_participant a) <> "" /\ facet (server_participant a) <> "".
Proof. by split. Qed.

(** A refusal: everything conforms but for the capability and the method, which
    are the ones given. *)
Lemma refuse_makes env cap m c msg retry (Q : Env -> Prop) :
  len_ok ID_MIN_LEN ID_MAX_LEN (env_id env) ->
  (forall r, reply_to r = Some (env_id env) -> Envelope.kind r = Result -> capability r = cap -> method r = m ->
     (exists e, error r = Some e /\ error_code e = c) ->
     (capability_ok r -> method_ok r -> envelope_ok r) -> Q r) ->
  makes (one_reply Q) (refuse (P := P) (OS := OS) (RT := RT) env cap m c msg retry).
Proof.
  intros Hid HQ. unfold refuse, error_result. intros w Hw.
  eapply (yields_bind counted (fun r => Q r)); [| intros r Hr; apply yields_ret; by exists r | done].
  eapply yields_bind; [apply next_reply_generation_makes | intros g _].
  eapply yields_bind; [by apply new_token_makes | intros id Htok].
  eapply yields_bind; [apply now_timestamp_makes | intros t Ht]. apply yields_ret, HQ; try done; [by eexists |].
  intros Hc Hm. destruct (token_len_ok _ Htok) as [Hl _]. destruct (server_names None) as [Hn1 Hn2].
  unfold envelope_ok. cbn. split_and!; try done.
  split_and!; [by exists (env_id env) | done | done |]. right. split; [done |]. eexists.
  split_and!; [done | apply truncated_message | done].
Qed.

Lemma refuse_conforms env cap m c msg retry :
  len_ok ID_MIN_LEN ID_MAX_LEN (env_id env) -> coordinate_ok cap -> text_matches METHOD m ->
  makes (one_reply (results env)) (refuse (P := P) (OS := OS) (RT := RT) env (Some cap) (Some m) c msg retry).
Proof.
  intros Hid Hc Hm. apply refuse_makes; [done |]. intros r Hr Hk Hcap Hmeth _ Hok.
  split; [split; [apply Hok | done] | done]; [by exists cap | by exists m].
Qed.

Lemma reply_of_conforms env aid cap m r :
  len_ok ID_MIN_LEN ID_MAX_LEN (env_id env) -> coordinate_ok cap -> text_matches METHOD m ->
  len_ok 1 128 aid -> match r with Ok v => object v | Err e => names cap m e end ->
  makes (one_reply (results env)) (reply_of (P := P) (OS := OS) (RT := RT) env aid cap m r).
Proof.
  intros Hid Hc Hm Haid Hr.
  destruct r as [v | [c' m' | ? ? ? | ? ? ? | ? ? ?]]; cbn [reply_of];
    [| destruct Hr as [-> ->]; by apply refuse_conforms | by apply refuse_conforms..].
  apply stamped_reply. intros g id t Htok Ht. eexists. split; [done |]. split; [split; [| done] | done].
  destruct (token_len_ok _ Htok) as [Hl _]. destruct (server_names (Some aid)) as [Hn1 Hn2].
  unfold envelope_ok. cbn. split_and!; try done; [by intros a [= <-] |].
  split_and!; [by exists (env_id env) | by exists cap | by exists m |]. left. split; [done |]. by exists v.
Qed.

Lemma handle_invocation_conforms cfg key env :
  envelope_ok env -> Envelope.kind env = Invocation ->
  makes (one_reply (results env)) (handle_invocation cfg key env).
Proof.
  intros (_ & Hid & _ & _ & Haid & _ & Hk) Hkind. rewrite Hkind in Hk.
  destruct Hk as (_ & _ & (cap & Hcap & Hc) & (m & Hmeth & Hm) & _).
  unfold handle_invocation. rewrite Hcap, Hmeth.
  pose proof (fun c msg retry => refuse_conforms env cap m c msg retry Hid Hc Hm) as Href.
  destruct (participant_activation (participant env)) as [aid|]; [| apply Href].
  specialize (Haid aid eq_refl).
  eapply (yields_bind _ (fun _ => True)); [by apply yields_gets | intros s _].
  destruct (s_activations s !! aid) as [x|]; [| apply Href].
  destruct (negb _); [apply Href |]. destruct (_ && _); [apply Href |].
  eapply (yields_bind _ (fun _ => True)); [| intros [e|] _; [apply Href |]].
  { intros w Hw. unfold activation_gate. destruct (_ =? _)%N; [done |]. by destruct (enforce_dispatch _ _ _ _ _). }
  eapply (yields_bind _ (fun r => match r with Ok v => object v | Err e => names cap m e end)).
  - intros w Hw. unfold run_handler.
    pose proof (dispatch_answers (snapshot_of cfg (daemon (server w))) key cap m (default null (payload env))
                  (daemon (server w)) I) as [_ Hr].
    by destruct (Dispatch.dispatch _ _ _ _ _ _).
  - intros r Hr. by apply reply_of_conforms.
Qed.

(** The agreement built from a valid [Hello]. *)
Lemma agreement_conforms aid (l : list ProtocolCoordinate) (kept : bool) :
  token_ok aid -> Forall coordinate_ok l -> NoDup (map coordinate_to_string l) ->
  let requested := List.filter catalog_supports l in
  let denied := map policy_denied (List.filter (fun c => negb (catalog_supports c)) l) in
  let granted := if kept then requested else [] in
  let unavailable := if kept then denied else denied ++ map policy_denied requested in
  agreement_payload_ok
    {| activation_id := aid; Envelope.granted := granted; Envelope.unavailable := unavailable;
       lease_constraints := if bool_decide (granted = []) then None
                            else Some {| max_seconds := Some LEASE_MAX_SECONDS; approval_required := None |} |}.
Proof.
  intros Haid Hok Hnd requested denied granted unavailable.
  assert (Hsub : forall p, Forall coordinate_ok (List.filter p l)).
  { clear - Hok. intros p. induction Hok as [|c k Hc _ IH]; cbn; [constructor |]. destruct (p c); [by constructor | done]. }
  assert (Hfine : forall k, NoDup (map coordinate_to_string k) -> NoDup (map unavailable_to_string (map policy_denied k))).
  { intros k Hk. eapply NoDup_map_finer; [apply wl_unavailable |]. by rewrite map_map. }
  unfold agreement_payload_ok. cbn. split_and!.
  - by apply token_len_ok in Haid as [_ ?].
  - destruct kept; [apply Hsub | constructor].
  - destruct kept; [| constructor]. eapply sublist_NoDup; [exact Hnd |].
    apply fmap_sublist, filter_sublist.
  - unfold unavailable, denied. destruct kept; [| rewrite Forall_app; split];
      apply Forall_fmap; eapply Forall_impl; eauto.
  - unfold unavailable, denied. destruct kept; [| rewrite <- map_app]; apply Hfine.
    + eapply sublist_NoDup; [exact Hnd | apply fmap_sublist, filter_sublist].
    + eapply NoDup_Permutation_proper; [| exact Hnd]. apply Permutation_map, filter_split.
  - intros c m. case_bool_decide; [done |]. intros [= <-] [= <-]. done.
Qed.

(** The Hello asks for another authority than the one the connection has. *)
Definition changes_authority cfg env w : Prop :=
  exists e, s_authority (session w) = Some e /\
    e <> authority_of cfg (participant env) (s_identity (session w)).

(** The answer to it. *)
Definition refused_hello (r : Env) : Prop :=
  Envelope.kind r = Result /\ capability r = None /\ (exists e, error r = Some e /\ error_code e = Unauthorized).

Definition hello_reply cfg env w (r : Env) : Prop :=
  reply_to r = Some (env_id env) /\
  (changes_authority cfg env w /\ refused_hello r \/
   ~ changes_authority cfg env w /\ Envelope.kind r = Agreement /\ envelope_ok r).

Lemma handle_hello_conforms cfg env w :
  envelope_ok env -> Envelope.kind env = Hello -> counted w ->
  match (handle_hello cfg env w).1 with Ok l => one_reply (hello_reply cfg env w) l | Err _ => False end.
Proof.
  intros (_ & Hid & _ & _ & _ & _ & Hk) Hkind Hw. rewrite Hkind in Hk.
  destruct Hk as (_ & _ & _ & _ & v & p & Hpay & Hp & _ & Hcoord & Hnd & _).
  unfold handle_hello. rewrite Hpay. cbn [mbind option_bind]. rewrite Hp.
  destruct (srv_ok new_activation_id w) as [aid Hrun]. rewrite (bind_run _ _ _ _ _ Hrun).
  pose proof (new_token_quiet "act" w : quiet w (new_activation_id w).2) as Hq.
  destruct (new_token_makes "act" eq_refl w Hw) as [Hw1 Haid].
  change (new_token "act" w) with (new_activation_id w) in Hw1, Haid. rewrite Hrun in Hw1, Haid, Hq. cbn [fst snd] in *.
  set (w1 := (new_activation_id w).2) in *. rewrite (bind_run (gets session) _ w1 (session w1) w1 eq_refl).
  destruct (match s_authority (session w1) with Some e => _ | None => _ end) eqn:Hch;
    rewrite (q_authority _ _ Hq), (q_identity _ _ Hq) in Hch.
  { assert (Hchg : changes_authority cfg env w).
    { destruct (s_authority (session w)) as [e|] eqn:He; [| done]. apply negb_true_iff, bool_decide_eq_false in Hch. by exists e. }
    match goal with |- context [(?m w1).1] => assert (Hm : makes (one_reply (hello_reply cfg env w)) m) end.
    { apply refuse_makes; [done |]. intros r Hr Hkr Hcap _ He _. split; [done |]. left. by split. }
    apply (Hm w1 Hw1). }
  assert (Hchg : ~ changes_authority cfg env w).
  { intros (e & He & Hne). rewrite He in Hch. by apply negb_false_iff, bool_decide_eq_true in Hch. }
  match goal with |- context [(?m w1).1] => assert (Hm : makes (one_reply (hello_reply cfg env w)) m) end; [| apply (Hm w1 Hw1)].
  eapply (yields_bind _ (fun _ => True)); [| intros [gen kept] _].
  { intros w2 Hw2. unfold register_grants. case_bool_decide; [done |].
    by destruct (broker_grant_from_negotiation _ _ _). }
  eapply (yields_bind _ (fun _ => True)); [by apply yields_modify | intros _ _].
  apply stamped_reply. intros g id t Htok Ht. eexists. split; [done |]. split; [done |]. right. split_and!; [done | done |].
  destruct (token_len_ok _ Htok) as [Hl _], (token_len_ok _ Haid) as [_ Hla].
  destruct (server_names (Some aid)) as [Hn1 Hn2].
  unfold envelope_ok. cbn. split_and!; try done; [by intros a [= <-] |].
  split_and!; try done; [by exists (env_id env) |].
  eexists _, _. split_and!; [done | apply wl_agreement | by apply (agreement_conforms aid (supports p) kept)].
Qed.

(** C7.  The daemon speaks its own protocol: a valid envelope with an id new to
    its connection gets exactly one reply if it is a Hello or an Invocation and
    none otherwise, and the reply names the envelope it answers.  The reply to an
    Invocation is a Result that passes the daemon's own validation, whatever the
    handler did.  The reply to a Hello is an Agreement that passes it, except
    exactly when the connection has established an authority and the Hello asks
    for another: then it is a Result with the code Unauthorized and without the
    capability a Result must have, so it does not pass. *)
Theorem replies_conform cfg key env w :
  (id_counter (server w) <= U64_MAX)%N ->
  validate_envelope env = Ok tt -> (env_id env ∉ seen_ids (session w)) ->
  match (handle_envelope cfg key env w).1 with
  | Ok replies =>
      match Envelope.kind env with
      | Invocation => exists r, replies = [r] /\ reply_to r = Some (env_id env) /\
          Envelope.kind r = Result /\ validate_envelope r = Ok tt
      | Hello => exists r, replies = [r] /\ reply_to r = Some (env_id env) /\
          (changes_authority cfg env w /\ refused_hello r /\ validate_envelope r <> Ok tt \/
           ~ changes_authority cfg env w /\ Envelope.kind r = Agreement /\ validate_envelope r = Ok tt)
      | _ => replies = []
      end
  | Err e => False
  end.
Proof.
  intros Hw Hv Hnew. unfold handle_envelope. rewrite (bind_run (gets session) _ w (session w) w eq_refl).
  rewrite (bind_run _ _ w tt (seen_world env w) eq_refl), bool_decide_false, Hv by done.
  apply validate_envelope_ok in Hv. assert (Hs : counted (seen_world env w)) by exact Hw.
  destruct (Envelope.kind env) eqn:Hk; try done.
  - pose proof (handle_hello_conforms cfg env (seen_world env w) Hv Hk Hs) as Hr.
    destruct (handle_hello _ _ _).1; [| done]. destruct Hr as (r & -> & Hto & Hr). exists r. split_and!; [done | done |].
    destruct Hr as [[Hc Hr] | (Hc & Hr & Hok)]; [left | right]; (split_and!; [exact Hc | exact Hr |]).
    + rewrite validate_envelope_ok. intros (_ & _ & _ & _ & _ & _ & Hres). destruct Hr as (Hkr & Hcap & _).
      rewrite Hkr in Hres. destruct Hres as (_ & (c & Hcr & _) & _). congruence.
    + by apply validate_envelope_ok.
  - destruct (handle_invocation_conforms cfg key env Hv Hk (seen_world env w) Hs) as [_ Hr].
    destruct (handle_invocation _ _ _ _).1; [| done]. destruct Hr as (r & -> & [Hok ?] & ?).
    exists r. split_and!; try done. by apply validate_envelope_ok.
Qed.
End Replies.

Module Answering.
Import Toy Loopback.

#[export] Instance still_in_range : ClockInRange unit.
Proof. intros c. reflexivity. Qed.

#[export] Instance toy_laws : WireLaws Json unit unit.
Proof. by split. Qed.

Lemma replies_conform_witness :
  exists r, (handle_envelope Toy.config 0 Toy.create greeted).1 = Ok [r] /\ validate_envelope r = Ok tt.
Proof.
  assert (Hc : (id_counter (server greeted) <= U64_MAX)%N) by (vm_compute; discriminate).
  assert (Hv : validate_envelope Toy.create = Ok tt) by (vm_compute; reflexivity).
  assert (Hn : env_id Toy.create ∉ seen_ids (session greeted))
    by (apply (bool_decide_unpack _); vm_compute; exact I).
  pose proof (replies_conform Toy.config 0 Toy.create greeted Hc Hv Hn) as H.
  destruct (handle_envelope Toy.config 0 Toy.create greeted).1 as [l|[]].
  destruct H as (r & -> & _ & _ & Hr). exists r. split; [reflexivity | exact Hr].
Defined.
End Answering.
