(* ===== verification/ShellEnvironment.v ===== *)
(** * The Shell's environments

    Model of the environment part of [apps/desktop/src-tauri/src/commands.rs]:
    the shape check of an environment with its issues, the launch preview, the
    strict check of the launch target and the lexical normalization of its path.
    [DshEnvironment] has the fields of the managed runtime's environment, so it
    is the record of [Environment]; that both read the same catalog file is what
    the theorems relate.  Paths are Unix paths. *)
From Stdlib Require Import NArith ZArith Lia.
From stdpp Require Import base strings list option pretty.
From S2P Require Import Prelude Text Environment.

Definition MAX_LAUNCH_PATH_CHARS : nat := 4096.

Definition DshEnvironment : Type := ManagedEnvironment.

(** [harness_repository_path], [harness_cwd], [is_attached],
    [fixed_loopback_port], [runtime_state] *)
Definition harness_repository_path (e : DshEnvironment) : option text :=
  match mode (harness e) with Repository => Some (path (harness e)) | _ => None end.

Definition harness_cwd (e : DshEnvironment) : option text :=
  c ← cwd (harness e); if bool_decide (c = []) then None else Some c.

Definition is_attached (e : DshEnvironment) : bool :=
  match ownership e with Attached => true | Managed => false end.

Definition fixed_loopback_port (e : DshEnvironment) : option N :=
  if negb (bool_decide (host (endpoint e) = txt "127.0.0.1")) then None
  else match port (endpoint e) with Fixed p => Some p | Named _ => None end.

Definition runtime_state (e : DshEnvironment) : string :=
  match ownership e with Managed => "stopped" | Attached => "unavailable" end.

(** ** Shape check *)

Record ValidationIssue := { field : string; code : string; message : string }.

Definition issue (c : bool) (f k m : string) : list ValidationIssue :=
  if c then [{| field := f; code := k; message := m |}] else [].

(** [char::is_control]: the general category [Cc]. *)
Definition is_control (c : N) : bool := ((c <=? 31) || (127 <=? c) && (c <=? 159))%N.

Record LaunchArgumentPreview := { category : string; display : text }.

Record LaunchPreview := {
  source : string;
  preview_executable : text;
  preview_cwd : option text;
  preview_ownership : Ownership;
  preview_endpoint : text;
  arguments : list LaunchArgumentPreview
}.

Record EnvironmentValidation := {
  valid : bool;
  issues : list ValidationIssue;
  launch_preview : option LaunchPreview
}.

Definition argument (c : string) (d : text) : LaunchArgumentPreview := {| category := c; display := d |}.

(** [build_launch_preview] *)
Definition build_launch_preview (e : DshEnvironment) : LaunchPreview :=
  let port := match port (endpoint e) with Named _ => txt "0" | Fixed v => txt (pretty v) end in
  {| source := match mode (harness e) with
               | Repository => "repository" | Executable => "executable" | Command => "command" end;
     preview_executable := default (path (harness e)) (node_path e);
     preview_cwd := cwd (harness e);
     preview_ownership := ownership e;
     preview_endpoint := txt "http://127.0.0.1:" ++ port;
     arguments :=
       (if node_path e is Some _ then [argument "repository-entry" (txt "[prebuilt-entry]")] else []) ++
       (if is_managed e then
          (if bool_decide (profile e = txt "default") then []
           else [argument "profile" (txt "--profile"); argument "profile" (profile e)]) ++
          [argument "command" (txt "web"); argument "endpoint-policy" (txt "--host");
           argument "endpoint-policy" (txt "127.0.0.1"); argument "endpoint-policy" (txt "--port");
           argument "endpoint-policy" port; argument "browser-policy" (txt "--no-open")] ++
          map (fun _ => argument "user-extra" (txt "[redacted]")) (args (harness e))
        else []) |}.

Section Validation.
Context `{Fs}.

(** The issues [validate_environment_value] pushes, in order. *)
Definition environment_issues (e : DshEnvironment) : list ValidationIssue :=
  let harness_path := trim (path (harness e)) in
  issue (negb (schema_version e =? 1)%N) "schemaVersion" "UNSUPPORTED_VERSION"
    "Only schemaVersion 1 is supported." ++
  issue (negb (is_valid_id (id e))) "id" "MALFORMED_VALUE"
    "Use 2-64 lowercase letters, digits, or hyphens." ++
  issue (is_blank (label e) || (128 <? length (label e))%nat) "label" "MALFORMED_VALUE"
    "Label must contain 1-128 characters." ++
  (if bool_decide (harness_path = []) then
     issue true "harness.path" "UNAVAILABLE" "Select an existing DSH launch source."
   else if (MAX_LAUNCH_PATH_CHARS <? length harness_path)%nat then
     issue true "harness.path" "MALFORMED_VALUE" "The launch source path is longer than 4096 characters."
   else
     issue (existsb is_control harness_path) "harness.path" "MALFORMED_VALUE"
       "The launch source path must not contain control characters.") ++
  match cwd (harness e) with
  | Some c =>
      issue (negb (is_blank c) && ((MAX_LAUNCH_PATH_CHARS <? length c)%nat || existsb is_control c))
        "harness.cwd" "MALFORMED_VALUE"
        "The working directory must be a 1-4096 character path without control characters."
  | None => []
  end ++
  issue (is_blank (dsh_home e)) "dshHome" "MALFORMED_VALUE" "DSH_HOME is required." ++
  issue (is_blank (profile e)) "profile" "MALFORMED_VALUE" "Profile is required." ++
  issue (negb (bool_decide (host (endpoint e) = txt "127.0.0.1"))) "endpoint.host" "UNAUTHORIZED"
    "Only the loopback host 127.0.0.1 is allowed." ++
  issue (negb (is_valid_port (port (endpoint e)))) "endpoint.port" "MALFORMED_VALUE"
    "Port must be auto or an integer from 1024 to 65535." ++
  issue (64 <? length (args (harness e)))%nat "harness.args" "MALFORMED_VALUE"
    "At most 64 extra arguments are allowed." ++
  issue (existsb is_reserved_argument (args (harness e))) "harness.args" "UNAUTHORIZED"
    "Host, port, trusted-host, and browser-open policy are Supervisor-owned." ++
  match node_path e with
  | Some np =>
      if is_blank np || negb (is_absolute np) then
        issue true "nodePath" "MALFORMED_VALUE" "Node path must be an absolute executable path."
      else
        issue (negb (bool_decide (mode (harness e) = Repository)) || negb (is_managed e))
          "nodePath" "UNAUTHORIZED" "Node path is only allowed for a Managed prebuilt source checkout."
  | None => []
  end.

(** [validate_environment_value] *)
Definition validate_environment_value (e : DshEnvironment) : EnvironmentValidation :=
  let l := environment_issues e in
  {| valid := bool_decide (l = []); issues := l;
     launch_preview := if bool_decide (l = []) then Some (build_launch_preview e) else None |}.
End Validation.

(** ** The launch target *)

(** [std::path::Component] on Unix. *)
Inductive Component := RootDir | CurDir | ParentDir | Normal (s : text).

#[export] Instance Component_eq_dec : EqDecision Component.
Proof. solve_decision. Defined.

Definition component_of (s : text) : option Component :=
  if bool_decide (s = []) || bool_decide (s = txt ".") then None
  else if bool_decide (s = txt "..") then Some ParentDir
  else Some (Normal s).

(** [Path::components]: a dot is kept only at the front of a relative path. *)
Definition components (p : text) : list Component :=
  let segments := split_char 47 p in
  (if starts_with (txt "/") p then [RootDir]
   else if bool_decide (head segments = Some (txt ".")) then [CurDir] else [])
  ++ omap component_of segments.

(** What pushing a component appends to a path built from components; pushing
    the root replaces the path. *)
Definition push (p : list Component) (c : Component) : list Component :=
  match c with RootDir => [RootDir] | _ => p ++ [c] end.

(** The body of the loop of [normalize_path]. *)
Definition normalize_step (p : list Component) (c : Component) : list Component :=
  match c with
  | CurDir => p
  | ParentDir => match last p with Some (Normal _) => removelast p | _ => push p ParentDir end
  | other => push p other
  end.

(** [normalize_path], on the components. *)
Definition normalize_path (p : list Component) : list Component := foldl normalize_step [] p.

Definition component_text (c : Component) : text :=
  match c with RootDir => [] | CurDir => txt "." | ParentDir => txt ".." | Normal s => s end.

(** [as_os_str] *)
Definition path_text (p : list Component) : text :=
  match p with
  | [RootDir] => txt "/"
  | _ => mjoin (imap (fun i c => (if (i =? 0)%nat then [] else txt "/") ++ component_text c) p)
  end.

(** [is_safe_command_name] *)
Definition is_ascii_alphanumeric (c : N) : bool :=
  (is_ascii_lowercase c || is_ascii_digit c || (65 <=? c) && (c <=? 90))%N.

Definition is_safe_command_name (value : text) : bool :=
  match value with
  | first :: _ =>
      is_ascii_alphanumeric first &&
      forallb (fun c => is_ascii_alphanumeric c || (c =? 46) || (c =? 95) || (c =? 45) || (c =? 43))%N value
  | [] => false
  end.

(** [metadata(path).permissions().mode() & 0o111 != 0], [false] when there is no
    metadata. *)
Class ExecutableBit := executable_bit : text -> bool.

Section LaunchTarget.
Context `{Fs} `{ExecutableBit}.

(** [is_executable_file] *)
Definition is_executable_file (p : text) : bool := is_file p && executable_bit p.

Definition invalid_launch_target {A} (message : string) : result string A := Err message.

(** [validate_launch_target]; the error is the message of the [CommandError]. *)
Definition validate_launch_target (e : DshEnvironment) : result string unit :=
  let raw := trim (path (harness e)) in
  if is_attached e then Ok tt
  else if bool_decide (raw = []) then invalid_launch_target "The launch source is empty."
  else
    let normalized := path_text (normalize_path (components raw)) in
    match mode (harness e) with
    | Command =>
        if is_absolute raw && is_file normalized && is_executable_file normalized then Ok tt
        else if is_safe_command_name raw then Ok tt
        else invalid_launch_target "A command source must be a program name or an absolute executable path."
    | m =>
        if negb (is_absolute raw) then invalid_launch_target "The launch source must be an absolute path."
        else if bool_decide (normalized = []) then
          invalid_launch_target "The launch source does not resolve to a path."
        else
          match m with
          | Repository =>
              if negb (is_dir normalized) then
                invalid_launch_target "The repository source must point at an existing checkout directory."
              else Ok tt
          | _ =>
              if negb (is_file normalized) then
                invalid_launch_target "The executable source must point at an existing file."
              else if negb (is_executable_file normalized) then
                invalid_launch_target "The executable source is not an executable file."
              else Ok tt
          end
    end.
End LaunchTarget.

(** ** Lemmas *)

Lemma issue_nil c f k m : issue c f k m = [] <-> c = false.
Proof. by destruct c. Qed.

Lemma app_nil {A} (l k : list A) : l ++ k = [] <-> l = [] /\ k = [].
Proof. split; [apply app_eq_nil | by intros [-> ->]]. Qed.

Lemma drop_while_nil {A} (p : A -> bool) l : drop_while p l = [] <-> forallb p l = true.
Proof.
  induction l as [|x l IH]; cbn; [done |]. destruct (p x); cbn; [exact IH | done].
Qed.

Lemma drop_while_head {A} (p : A -> bool) l x k : drop_while p l = x :: k -> p x = false.
Proof.
  induction l as [|y l IH]; cbn; [done |]. destruct (p y) eqn:Hy; [exact IH |]. by intros [= <- _].
Qed.

(** [trim().is_empty()] *)
Lemma trim_nil s : trim s = [] <-> is_blank s = true.
Proof.
  unfold trim, trim_end, trim_start, is_blank. rewrite <- drop_while_nil.
  destruct (drop_while is_whitespace s) as [|x k] eqn:Hd; [done |].
  pose proof (drop_while_head _ _ _ _ Hd) as Hx. split; [| done]. intros Hn.
  apply (f_equal (@rev N)) in Hn. rewrite rev_involutive in Hn. cbn [rev] in Hn.
  apply drop_while_nil in Hn. rewrite forallb_app in Hn. apply andb_prop in Hn as [_ Hn].
  cbn in Hn. by rewrite Hx in Hn.
Qed.

(** ** Properties *)

Section Properties.
Context `{Fs}.

Lemma path_issues_nil (p : text) k1 m1 k2 m2 k3 m3 f :
  (if bool_decide (trim p = []) then issue true f k1 m1
   else if (MAX_LAUNCH_PATH_CHARS <? length (trim p))%nat then issue true f k2 m2
   else issue (existsb is_control (trim p)) f k3 m3) = [] <->
  is_blank p = false /\ length (trim p) <= MAX_LAUNCH_PATH_CHARS /\ existsb is_control (trim p) = false.
Proof.
  rewrite <- not_true_iff_false, <- trim_nil. case_bool_decide as Hp; [naive_solver |].
  destruct (Nat.ltb_spec MAX_LAUNCH_PATH_CHARS (length (trim p))); [| rewrite issue_nil; tauto].
  split; [done | lia].
Qed.

Lemma cwd_issues_nil (o : option text) f k m :
  match o with
  | Some c => issue (negb (is_blank c) && ((MAX_LAUNCH_PATH_CHARS <? length c)%nat || existsb is_control c)) f k m
  | None => []
  end = [] <->
  forall c, o = Some c -> is_blank c = false -> length c <= MAX_LAUNCH_PATH_CHARS /\ existsb is_control c = false.
Proof.
  destruct o as [c|]; [| naive_solver]. rewrite issue_nil, andb_false_iff, negb_false_iff, orb_false_iff, Nat.ltb_ge.
  split; [intros [Hb | Hc] c' [= <-]; [congruence | done] |].
  intros Hc. destruct (is_blank c) eqn:Hb; [by left | right]. by apply Hc.
Qed.

Lemma node_issues_nil (o : option text) (c : bool) f k1 m1 k2 m2 :
  match o with
  | Some np => if is_blank np || negb (is_absolute np) then issue true f k1 m1 else issue c f k2 m2
  | None => []
  end = [] <->
  match o with Some np => negb (is_blank np || negb (is_absolute np)) && negb c | None => true end = true.
Proof. destruct o as [np|]; [| done]. destruct (_ || _); [done |]. by rewrite issue_nil; destruct c. Qed.

(** What the Shell checks beyond the managed runtime. *)
Definition launch_paths_ok (e : DshEnvironment) : Prop :=
  let p := trim (path (harness e)) in
  length p <= MAX_LAUNCH_PATH_CHARS /\ existsb is_control p = false /\
  forall c, cwd (harness e) = Some c -> is_blank c = false ->
    length c <= MAX_LAUNCH_PATH_CHARS /\ existsb is_control c = false.

(** The two programs agree on what an environment is: the Shell finds no issue
    exactly when the managed runtime's own check accepts the environment and its
    launch paths are short and free of control characters. *)
Lemma shell_validation_agrees (e : DshEnvironment) :
  valid (validate_environment_value e) = true <-> is_valid e = true /\ launch_paths_ok e.
Proof.
  unfold validate_environment_value, environment_issues, is_valid, launch_paths_ok, CATALOG_SCHEMA_VERSION.
  cbn [valid]. rewrite bool_decide_eq_true, !app_nil, path_issues_nil, cwd_issues_nil, node_issues_nil, !issue_nil.
  rewrite !andb_true_iff, !negb_true_iff, !negb_false_iff, !orb_false_iff. naive_solver.
Qed.

(** What the user is shown of the arguments. *)
Definition shown (e : DshEnvironment) : list text := map display (arguments (build_launch_preview e)).
Definition redacted (l : list text) : list text := map (fun _ => txt "[redacted]") l.

Lemma shown_managed e :
  is_managed e = true -> node_path e = None ->
  shown e = (if bool_decide (profile e = txt "default") then [] else [txt "--profile"; profile e])
            ++ [txt "web"; txt "--host"; txt "127.0.0.1"; txt "--port";
                match port (endpoint e) with Named _ => txt "0" | Fixed v => txt (pretty v) end;
                txt "--no-open"] ++ redacted (args (harness e)).
Proof.
  intros Hm Hn. unfold shown, build_launch_preview, redacted. cbn [arguments]. rewrite Hm, Hn.
  case_bool_decide; cbn [app]; cbn [map argument display]; by rewrite map_map.
Qed.

Lemma recipe_arguments e spec :
  build_launch_spec e = Ok spec -> mode (harness e) <> Repository ->
  is_managed e = true /\ node_path e = None /\
  spec_args spec = dsh_arguments e (txt (pretty (default 0%N (managed_expected_port e)))).
Proof.
  unfold build_launch_spec. intros Hs Hmode. destruct (is_managed e) eqn:Hm; [| done].
  destruct (is_valid e) eqn:Hv; [| done]. cbn [negb] in Hs.
  assert (Hn : node_path e = None).
  { unfold is_valid in Hv. rewrite !andb_true_iff in Hv. destruct Hv as [_ Hnp].
    destruct (node_path e); [| done]. apply andb_prop in Hnp as [_ Hnp].
    rewrite bool_decide_false in Hnp by done. done. }
  rewrite Hn in Hs. cbn in Hs. rewrite (bool_decide_false (mode (harness e) = Repository)) in Hs by done.
  cbn in Hs. injection Hs as <-. done.
Qed.

(** The launch preview against the recipe, for a program source: with the
    default profile the preview shows the arguments the supervisor passes, the
    user's own redacted; with any other profile it shows a [web] command that
    the supervisor does not pass. *)
Theorem preview_against_recipe (e : DshEnvironment) (spec : LaunchSpec) :
  build_launch_spec e = Ok spec -> mode (harness e) <> Repository ->
  exists port_argument, let rest := [txt "--host"; txt "127.0.0.1"; txt "--port"; port_argument; txt "--no-open"] in
    (profile e = txt "default" ->
       spec_args spec = txt "web" :: rest ++ args (harness e) /\
       shown e = txt "web" :: rest ++ redacted (args (harness e))) /\
    (profile e <> txt "default" ->
       spec_args spec = txt "--profile" :: profile e :: rest ++ args (harness e) /\
       shown e = txt "--profile" :: profile e :: txt "web" :: rest ++ redacted (args (harness e))).
Proof.
  intros Hs Hmode. destruct (recipe_arguments e spec Hs Hmode) as (Hm & Hn & ->).
  rewrite (shown_managed e Hm Hn). exists (txt (pretty (default 0%N (managed_expected_port e)))). cbn zeta.
  assert (Hp : match port (endpoint e) with Named _ => txt "0" | Fixed v => txt (pretty v) end
               = txt (pretty (default 0%N (managed_expected_port e)))).
  { unfold managed_expected_port. by destruct (port (endpoint e)). }
  rewrite Hp. unfold dsh_arguments.
  split; intros Hd; [rewrite bool_decide_true by done | rewrite bool_decide_false by done]; done.
Qed.
End Properties.

(** ** Normalization *)

(** The root, the parent segments nothing could resolve, and names. *)
Definition lexical (p : list Component) : Prop :=
  exists k ns, p = RootDir :: repeat ParentDir k ++ map Normal ns.

Lemma normalize_step_lexical p c : lexical p -> c <> RootDir -> lexical (normalize_step p c).
Proof.
  intros (k & ns & ->) Hc. destruct c as [| | |s]; [done | by exists k, ns | |]; cbn [normalize_step push].
  - induction ns as [|n ns _] using rev_ind.
    + cbn [map]. rewrite app_nil_r. assert (Hl : last (RootDir :: repeat ParentDir k) <> None /\
        forall n, last (RootDir :: repeat ParentDir k) <> Some (Normal n)).
      { rewrite last_cons. destruct k as [|k]; [done |].
        replace (repeat ParentDir (S k)) with (repeat ParentDir k ++ [ParentDir]) by (by rewrite <- repeat_cons).
        by rewrite last_snoc. }
      destruct Hl as [_ Hl]. exists (S k), []. cbn [map]. rewrite app_nil_r.
      destruct (last (RootDir :: repeat ParentDir k)) as [[]|] eqn:E; try by edestruct Hl.
      all: cbn [push app]; by rewrite <- repeat_cons.
    + rewrite map_app. cbn [map]. rewrite app_comm_cons, app_assoc, last_snoc, removelast_last.
      by exists k, ns.
  - exists k, (ns ++ [s]). rewrite map_app. cbn [map app]. by rewrite app_assoc.
Qed.

Lemma normalize_lexical p rest : lexical p -> Forall (fun c => c <> RootDir) rest -> lexical (foldl normalize_step p rest).
Proof.
  intros Hp Hr. revert p Hp. induction Hr as [|c rest Hc _ IH]; intros p Hp; [done |].
  by apply IH, normalize_step_lexical.
Qed.

Lemma normalize_names p ns : foldl normalize_step p (map Normal ns) = p ++ map Normal ns.
Proof.
  revert p. induction ns as [|n ns IH]; intros p; cbn; [by rewrite app_nil_r |].
  by rewrite IH, <- app_assoc.
Qed.

Lemma normalize_lexical_id p : lexical p -> normalize_path p = p.
Proof.
  intros (k & ns & ->). unfold normalize_path. cbn [foldl normalize_step push]. rewrite foldl_app.
  assert (Hk : foldl normalize_step [RootDir] (repeat ParentDir k) = RootDir :: repeat ParentDir k).
  { induction k as [|k IH]; [done |]. cbn [repeat]. rewrite repeat_cons, foldl_app, IH. cbn [foldl].
    destruct k as [|k]; [done |].
    assert (Hl : last (RootDir :: repeat ParentDir (S k)) = Some ParentDir).
    { cbn [repeat]. by rewrite repeat_cons, app_comm_cons, last_snoc. }
    unfold normalize_step. by rewrite Hl. }
  by rewrite Hk, normalize_names.
Qed.

(** Normalizing an absolute path is idempotent and leaves no dot and no
    parent segment after a name; the parent segments that remain are those that
    would go above the root. *)
Theorem normalize_path_lexical (rest : list Component) :
  Forall (fun c => c <> RootDir) rest ->
  lexical (normalize_path (RootDir :: rest)) /\
  normalize_path (normalize_path (RootDir :: rest)) = normalize_path (RootDir :: rest).
Proof.
  intros Hr. assert (Hl : lexical (normalize_path (RootDir :: rest))).
  { apply (normalize_lexical [RootDir]); [by exists 0, [] | done]. }
  split; [done | by apply normalize_lexical_id].
Qed.

(** The parent of the root survives. *)
Example parent_of_root_survives :
  path_text (normalize_path (components (txt "/a/../../etc/./x"))) = txt "/../etc/x".
Proof. by vm_compute. Qed.

(** ** Witnesses *)

Module LocalShell.
#[export] Instance fs : Fs := {|
  is_absolute := starts_with (txt "/"); is_file := fun _ => true; is_dir := fun _ => true;
  join := fun a b => a ++ txt "/" ++ b; from_file_path := fun p => Some (txt "file://" ++ p);
  path_dirs := None; on_windows := false |}.

Definition env : DshEnvironment :=
  {| schema_version := 1; id := txt "local"; label := txt "Local";
     harness := {| mode := Executable; path := txt "/opt/dsh"; cwd := None; args := [txt "--verbose"] |};
     dsh_home := txt "/home/u/.dsh"; profile := txt "work"; node_path := None;
     endpoint := {| host := txt "127.0.0.1"; port := Named (txt "auto") |}; ownership := Managed;
     policy := None |}.

Lemma preview_against_recipe_witness :
  exists spec, build_launch_spec env = Ok spec /\ length (shown env) = S (length (spec_args spec)).
Proof.
  eexists. split; [vm_compute; reflexivity |].
  edestruct (preview_against_recipe env) as (p & _ & H); [vm_compute; reflexivity | discriminate |].
  destruct H as [H1 H2]; [vm_compute; discriminate |]. rewrite H2.
  vm_compute in H1 |- *. reflexivity.
Defined.

Lemma normalize_path_lexical_witness : lexical (normalize_path [RootDir; Normal (txt "a"); ParentDir]).
Proof. apply (normalize_path_lexical [Normal (txt "a"); ParentDir]). repeat constructor; discriminate. Defined.
End LocalShell.
