(* ===== verification/CatalogStore.v ===== *)
(** * The Shell's environment catalog

    Model of [apps/desktop/src-tauri/src/environment_store.rs] on a disk with
    files, directories and modes.  Every call to the operating system is one
    [syscall]; what it does is decided by the machine, which may let it work,
    make it fail after a part of its effect, or stop the process there, so a
    theorem that quantifies over the machine speaks of every error and of every
    crash point.  A path is its components; symbolic links are not modelled. *)
From Stdlib Require Import NArith ZArith Lia.
From stdpp Require Import base strings list option sorting gmap.
From S2P Require Import Prelude Text Json Environment ShellEnvironment.

(** ** The disk *)

Definition FilePath : Type := list Component.

Definition component_code (c : Component) : nat + text :=
  match c with RootDir => inl 0 | CurDir => inl 1 | ParentDir => inl 2 | Normal s => inr s end.
Definition component_decode (x : nat + text) : Component :=
  match x with inl 0 => RootDir | inl 1 => CurDir | inl _ => ParentDir | inr s => Normal s end.
#[export] Program Instance Component_countable : Countable Component :=
  inj_countable' component_code component_decode _.
Next Obligation. by intros []. Qed.

Record File := { content : list N; file_mode : N }.

Record Disk := {
  files : gmap FilePath File;
  dirs : gmap FilePath N;  (* the mode of each directory *)
  calls : nat              (* system calls made so far *)
}.

(** What becomes of a call: [Fails n] reports an error and [Stops n] ends the
    process, both after [n] bytes of a transfer. *)
Inductive Fault := Works | Fails (n : nat) | Stops (n : nat).

Class Machine := { fault : nat -> Fault; create_mode : N; create_dir_mode : N }.

Inductive StoreError := CorruptCatalog | InvalidCatalogEnvironment | Capacity | NotFound | Unavailable.

(** How a store operation ends early. *)
Inductive Halt := Failed (e : StoreError) | Stopped.

Abbreviation Io := (M Disk Halt).

Definition set_files (f : gmap FilePath File) (d : Disk) : Disk :=
  {| files := f; dirs := dirs d; calls := calls d |}.
Definition set_dirs (f : gmap FilePath N) (d : Disk) : Disk :=
  {| files := files d; dirs := f; calls := calls d |}.
Definition called (d : Disk) : Disk :=
  {| files := files d; dirs := dirs d; calls := S (calls d) |}.

Section Calls.
Context {machine : Machine}.

(** One call: [full] is its effect, [None] when the disk refuses it, and
    [partly n] what is left of it after [n] bytes. *)
Definition syscall {A} (full : Disk -> option (A * Disk)) (partly : nat -> Disk -> Disk) : Io (option A) :=
  fun d =>
    match fault (calls d) with
    | Works => match full d with
               | Some (a, d') => (Ok (Some a), called d')
               | None => (Ok None, called d)
               end
    | Fails n => (Ok None, called (partly n d))
    | Stops n => (Err Stopped, called (partly n d))
    end.

(** A call whose effect is all or nothing. *)
Definition at_once {A} (full : Disk -> option (A * Disk)) : Io (option A) :=
  syscall full (fun _ d => d).

Definition parent (p : FilePath) : option FilePath :=
  match last p with None | Some RootDir => None | Some _ => Some (removelast p) end.

Definition file_name (p : FilePath) : option text :=
  match last p with Some (Normal s) => Some s | _ => None end.

Definition with_file_name (p : FilePath) (s : text) : FilePath :=
  (match file_name p with Some _ => removelast p | None => p end) ++ [Normal s].

(** The path and the directories above it. *)
Fixpoint ancestors (p : FilePath) : list FilePath :=
  match p with [] => [] | c :: p => [c] :: map (cons c) (ancestors p) end.

(** [Path::exists]: an error counts as absence. *)
Definition path_exists (p : FilePath) : Io bool :=
  r ← at_once (fun d => Some (bool_decide (is_Some (files d !! p) \/ is_Some (dirs d !! p)), d));
  mret (default false r).

(** [fs::read] *)
Definition read (p : FilePath) : Io (option (list N)) :=
  at_once (fun d => f ← files d !! p; Some (content f, d)).

(** [fs::create_dir_all] *)
Definition create_dir_all (p : FilePath) : Io (option unit) :=
  at_once (fun d =>
    if existsb (fun a => bool_decide (is_Some (files d !! a))) (ancestors p) then None
    else Some (tt, set_dirs (foldr (fun a m => if m !! a is Some _ then m else <[a := create_dir_mode]> m)
                                   (dirs d) (ancestors p)) d)).

(** [fs::set_permissions] on a directory and on a file. *)
Definition set_dir_permissions (p : FilePath) (m : N) : Io (option unit) :=
  at_once (fun d => _ ← dirs d !! p; Some (tt, set_dirs (<[p := m]> (dirs d)) d)).

Definition set_permissions (p : FilePath) (m : N) : Io (option unit) :=
  at_once (fun d => f ← files d !! p;
    Some (tt, set_files (<[p := {| content := content f; file_mode := m |}]> (files d)) d)).

(** [OpenOptions::new().create(true).truncate(true).write(true).open]: an
    existing file keeps its mode. *)
Definition open_truncated (p : FilePath) : Io (option unit) :=
  at_once (fun d =>
    dir ← parent p; _ ← dirs d !! dir;
    if dirs d !! p is Some _ then None
    else Some (tt, set_files (<[p := {| content := [];
           file_mode := match files d !! p with Some f => file_mode f | None => create_mode end |}]> (files d)) d)).

Definition append (p : FilePath) (b : list N) (d : Disk) : Disk :=
  match files d !! p with
  | Some f => set_files (<[p := {| content := content f ++ b; file_mode := file_mode f |}]> (files d)) d
  | None => d
  end.

(** [write_all] on a handle at the end of the file. *)
Definition write_all (p : FilePath) (b : list N) : Io (option unit) :=
  syscall (fun d => Some (tt, append p b d)) (fun n => append p (take n b)).

(** [sync_all] and opening for reading: no effect that a later call can see. *)
Definition sync_all : Io (option unit) := at_once (fun d => Some (tt, d)).
Definition open_existing (p : FilePath) : Io (option unit) :=
  at_once (fun d => _ ← files d !! p; Some (tt, d)).
Definition open_directory (p : FilePath) : Io (option unit) :=
  at_once (fun d => _ ← dirs d !! p; Some (tt, d)).

Definition copied (from to : FilePath) (n : option nat) (d : Disk) : Disk :=
  match files d !! from with
  | Some f => set_files (<[to := {| content := match n with Some n => take n (content f) | None => content f end;
                                   file_mode := file_mode f |}]> (files d)) d
  | None => d
  end.

(** [fs::copy]: the content and the mode. *)
Definition copy (from to : FilePath) : Io (option unit) :=
  syscall (fun d => _ ← files d !! from; if dirs d !! to is Some _ then None else Some (tt, copied from to None d))
          (fun n => copied from to (Some n)).

(** [fs::remove_file] *)
Definition remove_file (p : FilePath) : Io (option unit) :=
  at_once (fun d => _ ← files d !! p; Some (tt, set_files (delete p (files d)) d)).

(** [fs::rename] of a file *)
Definition rename (from to : FilePath) : Io (option unit) :=
  at_once (fun d => f ← files d !! from;
    if dirs d !! to is Some _ then None
    else Some (tt, set_files (<[to := f]> (delete from (files d))) d)).

(** [map_err(|_| StoreError::Unavailable)?] *)
Definition or_unavailable {A} (m : Io (option A)) : Io A :=
  r ← m; match r with Some a => mret a | None => throw (Failed Unavailable) end.

(** ** The store *)

Class CatalogJson := {
  to_vec_pretty : EnvironmentCatalog -> option (list N);
  from_slice : list N -> option EnvironmentCatalog
}.

Context `{Fs} {json : CatalogJson}.

(** [sidecar_path] *)
Definition sidecar_path (p : FilePath) (suffix : string) : result Halt FilePath :=
  name ← ok_or (Failed Unavailable) (file_name p);
  Ok (with_file_name p (name ++ txt "." ++ txt suffix)).

(** [restrict_directory], [restrict_file] and [sync_directory] on Unix *)
Definition restrict_directory (p : FilePath) : Io unit := or_unavailable (set_dir_permissions p 448).
Definition restrict_file (p : FilePath) : Io unit := or_unavailable (set_permissions p 384).
Definition sync_directory (p : FilePath) : Io unit :=
  or_unavailable (open_directory p);; or_unavailable sync_all.

(** The first part of [write_catalog]: the new catalog in the side file. *)
Definition stage_catalog (next : FilePath) (payload : list N) : Io unit :=
  or_unavailable (open_truncated next);;
  or_unavailable (write_all next payload);;
  or_unavailable (write_all next [10%N]);;
  or_unavailable sync_all;;
  restrict_file next.

(** The second: the previous catalog, when there is one, is copied to the backup
    and removed. *)
Definition retire_previous (p backup : FilePath) : Io unit :=
  or_unavailable (copy p backup);;
  restrict_file backup;;
  or_unavailable (open_existing backup);;
  or_unavailable sync_all;;
  or_unavailable (remove_file p).

(** [let _ =]: the result is dropped, but the process can end in the call. *)
Definition ignore {A} (m : Io A) : Io unit := fun d =>
  match m d with
  | (Err Stopped, d') => (Err Stopped, d')
  | (_, d') => (Ok tt, d')
  end.

(** The third: the side file takes its place. *)
Definition install_catalog (p next backup : FilePath) (had_previous : bool) : Io unit :=
  renamed ← rename next p;
  match renamed with
  | Some _ => mret tt
  | None =>
      (if had_previous then (_ ← copy backup p; ignore (restrict_file p)) else mret tt);;
      throw (Failed Unavailable)
  end.

(** [write_catalog] *)
Definition write_catalog (p : FilePath) (c : EnvironmentCatalog) : Io unit :=
  dir ← lift (ok_or (Failed Unavailable) (parent p));
  or_unavailable (create_dir_all dir);;
  restrict_directory dir;;
  next ← lift (sidecar_path p "next");
  backup ← lift (sidecar_path p "bak");
  payload ← lift (ok_or (Failed Unavailable) (to_vec_pretty c));
  stage_catalog next payload;;
  had_previous ← path_exists p;
  (if (had_previous : bool) then retire_previous p backup else mret tt);;
  install_catalog p next backup had_previous;;
  sync_directory dir.

(** The loop of [validate_catalog]. *)
Fixpoint validate_from (ids : list text) (es : list DshEnvironment) : option (list text) :=
  match es with
  | [] => Some ids
  | e :: es =>
      if bool_decide (id e ∈ ids) || negb (valid (validate_environment_value e)) then None
      else validate_from (id e :: ids) es
  end.

(** [validate_catalog] *)
Definition validate_catalog (c : EnvironmentCatalog) : result StoreError unit :=
  if negb (cat_schema_version c =? CATALOG_SCHEMA_VERSION)%N
     || (MAX_ENVIRONMENTS <? length (environments c))%nat then Err CorruptCatalog
  else
    match validate_from [] (environments c) with
    | None => Err CorruptCatalog
    | Some ids =>
        match active_environment_id c with
        | Some active => if bool_decide (active ∈ ids) then Ok tt else Err CorruptCatalog
        | None => Ok tt
        end
    end.

Definition store {A} (r : result StoreError A) : Io A := lift (map_err Failed r).

(** [load_catalog] *)
Definition load_catalog (p : FilePath) : Io EnvironmentCatalog :=
  there ← path_exists p;
  if negb there then mret default_catalog
  else
    bytes ← or_unavailable (read p);
    catalog ← store (ok_or CorruptCatalog (from_slice bytes));
    store (validate_catalog catalog);;
    mret catalog.

(** [EnvironmentCatalog::active_environment] *)
Definition active_environment (c : EnvironmentCatalog) : option DshEnvironment :=
  i ← active_environment_id c; catalog_environment c i.

Definition with_revision (r : N) (active : option text) (es : list DshEnvironment) (c : EnvironmentCatalog) :
    EnvironmentCatalog :=
  {| cat_schema_version := cat_schema_version c; revision := r; active_environment_id := active;
     environments := es |}.

(** [catalog.revision.checked_add(1).ok_or(StoreError::Capacity)] *)
Definition next_revision (c : EnvironmentCatalog) : result StoreError N :=
  ok_or Capacity (u64_checked_add (revision c) 1).

(** The end of every change: the checks, then the write. *)
Definition commit (p : FilePath) (c : EnvironmentCatalog) : Io EnvironmentCatalog :=
  store (validate_catalog c);;
  write_catalog p c;;
  mret c.

Definition by_id (a b : DshEnvironment) : Prop := text_compare (id a) (id b) <> Gt.
#[export] Instance by_id_dec : RelDecision by_id.
Proof. intros a b. unfold by_id. destruct (text_compare (id a) (id b)); solve_decision. Defined.

(** What [save_environment] makes of the environments: the entry with this id is
    replaced, or a new one added, and the list is sorted by id. *)
Definition put_environment (e : DshEnvironment) (es : list DshEnvironment) :
    result StoreError (list DshEnvironment) :=
  match list_find (fun x => id x = id e) es with
  | Some (i, _) => Ok (merge_sort by_id (<[i := e]> es))
  | None =>
      if (MAX_ENVIRONMENTS <=? length es)%nat then Err Capacity
      else Ok (merge_sort by_id (es ++ [e]))
  end.

(** [save_environment] *)
Definition save_environment (p : FilePath) (e : DshEnvironment) : Io EnvironmentCatalog :=
  if negb (valid (validate_environment_value e)) then throw (Failed InvalidCatalogEnvironment)
  else
    c ← load_catalog p;
    es ← store (put_environment e (environments c));
    r ← store (next_revision c);
    commit p (with_revision r (Some (id e)) es c).

(** [set_active_environment] *)
Definition set_active_environment (p : FilePath) (i : text) : Io EnvironmentCatalog :=
  c ← load_catalog p;
  if negb (existsb (fun e => bool_decide (id e = i)) (environments c)) then throw (Failed InvalidCatalogEnvironment)
  else if bool_decide (active_environment_id c = Some i) then mret c
  else
    r ← store (next_revision c);
    commit p (with_revision r (Some i) (environments c) c).

(** [remove_environment] *)
Definition remove_environment (p : FilePath) (i : text) : Io EnvironmentCatalog :=
  c ← load_catalog p;
  let kept := List.filter (fun e => negb (bool_decide (id e = i))) (environments c) in
  if (length kept =? length (environments c))%nat then throw (Failed NotFound)
  else
    r ← store (next_revision c);
    commit p (with_revision r (if bool_decide (active_environment_id c = Some i) then None
                               else active_environment_id c) kept c).
End Calls.
