(* ===== verification/CatalogFacts.v ===== *)
(** * What the environment catalog guarantees

    A crash logic for the disk of [CatalogStore] (a postcondition for the results
    and a condition that holds wherever an operation ends early), and with it: no
    failure and no crash loses both the previous and the new catalog, a write on a
    working machine installs the catalog with restricted modes, the store
    implements a map from ids to environments, and the daemon can load whatever
    the Shell wrote. *)
From Stdlib Require Import NArith ZArith Lia.
From stdpp Require Import base strings list option sorting gmap.
From S2P Require Import Prelude Text Json Environment ShellEnvironment CatalogStore.

(** ** A crash logic *)

(** From a disk in [P], [m] returns [a] on a disk in [Q a] or ends early on a
    disk in [C]. *)
Definition crash_triple {A} (P : Disk -> Prop) (m : Io A) (Q : A -> Disk -> Prop) (C : Disk -> Prop) : Prop :=
  forall d, P d -> match m d with (Ok a, d') => Q a d' | (Err _, d') => C d' end.

Section Logic.
Context {machine : Machine}.

Lemma ct_ret {A} (a : A) (P : Disk -> Prop) (Q : A -> Disk -> Prop) C :
  (forall d, P d -> Q a d) -> crash_triple P (mret a) Q C.
Proof. intros HQ d Hd. by apply HQ. Qed.

Lemma ct_throw {A} e (P : Disk -> Prop) (Q : A -> Disk -> Prop) (C : Disk -> Prop) :
  (forall d, P d -> C d) -> crash_triple P (throw e) Q C.
Proof. intros HC d Hd. by apply HC. Qed.

Lemma ct_bind {A B} (m : Io A) (k : A -> Io B) P Q R C :
  crash_triple P m Q C -> (forall a, crash_triple (Q a) (k a) R C) -> crash_triple P (m ≫= k) R C.
Proof.
  intros Hm Hk d Hd. specialize (Hm d Hd). unfold mbind, M_bind. destruct (m d) as [[a|e] d']; [| done].
  by apply Hk.
Qed.

Lemma ct_weaken {A} (m : Io A) P P' Q Q' (C : Disk -> Prop) :
  crash_triple P m Q C -> (forall d, P' d -> P d) -> (forall a d, Q a d -> Q' a d) -> crash_triple P' m Q' C.
Proof. intros Hm HP HQ d Hd. specialize (Hm d (HP d Hd)). destruct (m d) as [[]]; eauto. Qed.

Lemma ct_lift {A} (r : result Halt A) (P C : Disk -> Prop) :
  (forall d, P d -> C d) -> crash_triple P (lift r) (fun a d => r = Ok a /\ P d) C.
Proof. intros HC d Hd. unfold lift. destruct r; [done | by apply HC]. Qed.

Lemma ct_lift_ok {A B} (a : A) (k : A -> Io B) P Q C :
  crash_triple P (k a) Q C -> crash_triple P (lift (Ok a) ≫= k) Q C.
Proof. done. Qed.

Lemma ct_syscall {A} full partly (P : Disk -> Prop) (Q : option A -> Disk -> Prop) (C : Disk -> Prop) :
  (forall d a d', P d -> full d = Some (a, d') -> Q (Some a) (called d')) ->
  (forall d, P d -> Q None (called d)) ->
  (forall n d, P d -> Q None (called (partly n d)) /\ C (called (partly n d))) ->
  crash_triple P (syscall full partly) Q C.
Proof.
  intros Hf Hn Hp d Hd. unfold syscall. destruct (fault (calls d)) as [|n|n]; [| by apply Hp..].
  destruct (full d) as [[a d']|] eqn:E; [by eapply Hf | by apply Hn].
Qed.

Lemma ct_at_once {A} full (P : Disk -> Prop) (Q : option A -> Disk -> Prop) (C : Disk -> Prop) :
  (forall d a d', P d -> full d = Some (a, d') -> Q (Some a) (called d')) ->
  (forall d, P d -> Q None (called d) /\ C (called d)) ->
  crash_triple P (at_once full) Q C.
Proof. intros Hf Hn. apply ct_syscall; [done | apply Hn | intros _; apply Hn]. Qed.

Lemma ct_or_unavailable {A} (m : Io (option A)) P (Q : A -> Disk -> Prop) (C : Disk -> Prop) :
  crash_triple P m (fun o d => match o with Some a => Q a d | None => C d end) C ->
  crash_triple P (or_unavailable m) Q C.
Proof.
  intros Hm. unfold or_unavailable. eapply ct_bind; [exact Hm |]. intros [a|]; [by apply ct_ret | by apply ct_throw].
Qed.

Lemma ct_ignore {A} (m : Io A) P (Q : A -> Disk -> Prop) (C : Disk -> Prop) :
  crash_triple P m Q C -> (forall a d, Q a d -> C d) -> crash_triple P (ignore m) (fun _ => C) C.
Proof.
  intros Hm HQ d Hd. specialize (Hm d Hd). unfold ignore. destruct (m d) as [[a|[]] d']; eauto.
Qed.
End Logic.

(** ** Crash safety *)

(** The bytes on the disk, the modes aside. *)
Definition contents (d : Disk) : gmap FilePath (list N) := content <$> files d.

Lemma contents_called d : contents (called d) = contents d.
Proof. done. Qed.

Lemma contents_insert q f d : contents (set_files (<[q := f]> (files d)) d) = <[q := content f]> (contents d).
Proof. apply fmap_insert. Qed.

Lemma contents_delete q d : contents (set_files (delete q (files d)) d) = delete q (contents d).
Proof. apply fmap_delete. Qed.

Lemma contents_lookup d q b : contents d !! q = Some b <-> exists f, files d !! q = Some f /\ content f = b.
Proof. unfold contents. rewrite lookup_fmap, fmap_Some. naive_solver. Qed.

Lemma contents_append q b x d :
  contents d !! q = Some b -> contents (append q x d) = <[q := b ++ x]> (contents d).
Proof.
  intros (f & Hf & <-)%contents_lookup. unfold append. rewrite Hf. apply contents_insert.
Qed.

(** Takes the binds of a call's effect apart. *)
Ltac effect E :=
  repeat match type of E with
  | context [match ?o with Some _ => _ | None => _ end] => destruct o eqn:?; cbn in E; try discriminate E
  | context [?o ≫= _] => destruct o eqn:?; cbn in E; try discriminate E
  | context [if ?b then _ else _] => destruct b eqn:?; cbn in E; try discriminate E
  end;
  try (injection E; clear E; intros; subst).

(** Calls that leave the bytes alone. *)
Class Quiet {A} (m : Io (option A)) : Prop :=
  quiet d : contents (m d).2 = contents d.

Section Quiet.
Context {machine : Machine}.

Lemma quiet_at_once {A} (full : Disk -> option (A * Disk)) :
  (forall d a d', full d = Some (a, d') -> contents d' = contents d) -> Quiet (at_once full).
Proof.
  intros Hf d. unfold at_once, syscall. destruct (fault (calls d)); [| done..].
  destruct (full d) as [[a d']|] eqn:E; [exact (Hf _ _ _ E) | done].
Qed.

#[export] Instance quiet_create_dir_all q : Quiet (create_dir_all q).
Proof. apply quiet_at_once. intros d a d' E. by effect E. Qed.
#[export] Instance quiet_set_dir_permissions q m : Quiet (set_dir_permissions q m).
Proof. apply quiet_at_once. intros d a d' E. by effect E. Qed.
#[export] Instance quiet_set_permissions q m : Quiet (set_permissions q m).
Proof.
  apply quiet_at_once. intros d a d' E. effect E. rewrite contents_insert. cbn. apply insert_id.
  apply contents_lookup. eauto.
Qed.
#[export] Instance quiet_sync_all : Quiet sync_all.
Proof. apply quiet_at_once. intros d a d' E. by effect E. Qed.
#[export] Instance quiet_open_existing q : Quiet (open_existing q).
Proof. apply quiet_at_once. intros d a d' E. by effect E. Qed.
#[export] Instance quiet_open_directory q : Quiet (open_directory q).
Proof. apply quiet_at_once. intros d a d' E. by effect E. Qed.

(** A quiet call keeps any assertion on the bytes. *)
Lemma ct_quiet {A} (m : Io (option A)) `{!Quiet m} (P : gmap FilePath (list N) -> Prop) (C : Disk -> Prop) :
  (forall d, P (contents d) -> C d) ->
  crash_triple (fun d => P (contents d)) (or_unavailable m) (fun _ d => P (contents d)) C.
Proof.
  intros HC. apply ct_or_unavailable. intros d Hd. pose proof (quiet (m := m) d) as Hq.
  rewrite <- Hq in Hd. destruct (m d) as [[[]|] d']; auto.
Qed.
End Quiet.

Section CrashSafety.
Context {machine : Machine} `{Fs} {json : CatalogJson}.
Context (p next bak : FilePath) (old : list N) (payload : list N).
Context (next_p : next <> p) (bak_p : bak <> p) (bak_next : bak <> next).

Definition written : list N := payload ++ [10%N].

(** Some file holds the previous or the new catalog in full. *)
Definition kept (m : gmap FilePath (list N)) : Prop :=
  m !! p = Some old \/ m !! p = Some written \/ m !! bak = Some old.
Definition Kept (d : Disk) : Prop := kept (contents d).

Lemma ct_append b b' :
  crash_triple (fun d => contents d !! p = Some old /\ contents d !! next = Some b)
    (or_unavailable (write_all next b'))
    (fun _ d => contents d !! p = Some old /\ contents d !! next = Some (b ++ b')) Kept.
Proof.
  assert (Ha : forall x d, contents d !! p = Some old -> contents d !! next = Some b ->
    contents (append next x d) !! p = Some old /\ contents (append next x d) !! next = Some (b ++ x)).
  { intros x d Hp Hn. by rewrite (contents_append _ _ _ _ Hn), lookup_insert_ne, lookup_insert_eq. }
  apply ct_or_unavailable, ct_syscall.
  - intros d a d' [Hp Hn] [= <- <-]. by apply Ha.
  - intros d [Hp _]. by left.
  - intros n d [Hp Hn]. destruct (Ha (take n b') d Hp Hn). split; by left.
Qed.

Lemma ct_stage :
  crash_triple (fun d => contents d !! p = Some old) (stage_catalog next payload)
    (fun _ d => contents d !! p = Some old /\ contents d !! next = Some written) Kept.
Proof.
  unfold stage_catalog.
  apply (ct_bind _ _ _ (fun _ d => contents d !! p = Some old /\ contents d !! next = Some [])).
  { apply ct_or_unavailable, ct_at_once.
    - intros d a d' Hp E. effect E;
        by rewrite contents_called, contents_insert, lookup_insert_ne, lookup_insert_eq.
    - intros d Hp. split; by left. }
  intros _. eapply ct_bind; [apply ct_append | intros []].
  eapply ct_bind; [apply ct_append | intros []]. cbn beta.
  assert (HC : forall d, contents d !! p = Some old /\ contents d !! next = Some written -> Kept d) by (by left; tauto).
  eapply ct_bind; [| intros []]; apply (ct_quiet _ (fun m => m !! p = Some old /\ m !! next = Some written)), HC.
Qed.

Lemma ct_copy (from to : FilePath) (b : list N) (P : gmap FilePath (list N) -> Prop) :
  (forall m x, P m -> P (<[to := x]> m)) -> (forall m, P m -> m !! from = Some b) -> (forall m, P m -> kept m) ->
  crash_triple (fun d => P (contents d)) (copy from to)
    (fun o d => P (contents d) /\ (is_Some o -> from <> to -> contents d !! to = Some b)) Kept.
Proof.
  intros HP Hfrom HK.
  assert (Hc : forall n d, P (contents d) -> P (contents (copied from to n d))).
  { intros n d Hd. unfold copied. destruct (files d !! from); [| done]. rewrite contents_insert. by apply HP. }
  apply ct_syscall.
  - intros d a d' Hd E. effect E. split; [by apply Hc |]. intros _ Hne. rewrite contents_called. unfold copied.
    replace (files d !! from) with (Some f) by done. rewrite contents_insert, lookup_insert_eq. cbn.
    rewrite <- (Hfrom _ Hd). symmetry. apply contents_lookup. eauto.
  - intros d Hd. split; [done | by intros []].
  - intros n d Hd. split; [split; [by apply Hc | by intros []] | by apply HK, Hc].
Qed.

Lemma ct_retire :
  crash_triple (fun d => contents d !! p = Some old /\ contents d !! next = Some written) (retire_previous p bak)
    (fun _ d => contents d !! bak = Some old /\ contents d !! next = Some written) Kept.
Proof.
  unfold retire_previous.
  set (Q := fun m : gmap FilePath (list N) => m !! p = Some old /\ m !! next = Some written /\ m !! bak = Some old).
  assert (HQ : forall d, Q (contents d) -> Kept d) by (by left; unfold Q in *; tauto).
  apply (ct_bind _ _ _ (fun _ d => Q (contents d))).
  { apply ct_or_unavailable. eapply ct_weaken.
    - apply (ct_copy p bak old (fun m => m !! p = Some old /\ m !! next = Some written));
        [intros m x []; by rewrite !lookup_insert_ne | by intros m [] | by left; tauto].
    - done.
    - intros [u|] d [[Hp Hn] Hb]; [split_and!; [done | done | by apply Hb] | by left]. }
  intros []. do 3 (eapply ct_bind; [by apply (ct_quiet _ Q) | intros []]).
  apply ct_or_unavailable, ct_at_once.
  - intros d a d' (Hp & Hn & Hb) E. effect E. rewrite contents_called, contents_delete, !lookup_delete_ne by done. done.
  - intros d Hd. split; by apply HQ.
Qed.

Lemma ct_install had_previous :
  crash_triple
    (fun d => (if (had_previous : bool) then contents d !! bak = Some old else contents d !! p = Some old) /\
              contents d !! next = Some written)
    (install_catalog p next bak had_previous) (fun _ d => contents d !! p = Some written) Kept.
Proof.
  unfold install_catalog.
  apply (ct_bind _ _ _ (fun o d => match o with
    | Some _ => contents d !! p = Some written
    | None => if had_previous then contents d !! bak = Some old else contents d !! p = Some old end)).
  - apply ct_at_once.
    + intros d a d' [_ Hn] E. effect E. rewrite contents_called.
      apply contents_lookup. eexists. split; [cbn; apply lookup_insert_eq |].
      apply contents_lookup in Hn as (f' & Hf & <-). congruence.
    + intros d [Hd _]. destruct had_previous; split; [done | by right; right | done | by left].
  - intros [u|]; [by apply ct_ret |]. eapply (ct_bind _ _ _ (fun _ => Kept)); [| intros; by apply ct_throw].
    destruct had_previous; [| apply ct_ret; by left].
    set (B := fun m : gmap FilePath (list N) => m !! bak = Some old).
    assert (HB : forall d, B (contents d) -> Kept d) by (by right; right).
    apply (ct_bind _ _ _ (fun _ d => B (contents d))).
    + eapply ct_weaken; [apply (ct_copy bak p old B) | done | by intros o d [Hd _]];
        [intros m x Hm; unfold B; by rewrite lookup_insert_ne | done | by right; right].
    + intros _. eapply ct_ignore; [by apply (ct_quiet _ B) | by auto].
Qed.


Lemma ct_exists (P : gmap FilePath (list N) -> Prop) (C : Disk -> Prop) :
  (forall d, P (contents d) -> C d) ->
  crash_triple (fun d => P (contents d)) (path_exists p) (fun _ d => P (contents d)) C.
Proof.
  intros HC. unfold path_exists. eapply (ct_bind _ _ _ (fun _ d => P (contents d))); [| intros a; by apply ct_ret].
  apply ct_at_once; [by intros d a d' Hd [= <- <-] | intros d Hd; split; [done | by apply HC]].
Qed.

Lemma ct_write c :
  sidecar_path p "next" = Ok next -> sidecar_path p "bak" = Ok bak -> to_vec_pretty c = Some payload ->
  crash_triple (fun d => contents d !! p = Some old) (write_catalog p c)
    (fun _ d => contents d !! p = Some written) Kept.
Proof.
  intros En Eb Ep. unfold write_catalog. rewrite En, Eb, Ep.
  assert (HO : forall d, contents d !! p = Some old -> Kept d) by (by left).
  assert (HI : forall d, contents d !! p = Some written -> Kept d) by (by right; left).
  eapply ct_bind; [by apply ct_lift | intros dir]. cbn beta.
  eapply ct_bind.
  { eapply ct_weaken; [by apply (ct_quiet (create_dir_all dir) (fun m => m !! p = Some old)) | by intros d [] | done]. }
  intros []. eapply ct_bind; [by apply (ct_quiet _ (fun m => m !! p = Some old)) | intros []].
  do 3 (apply ct_lift_ok).
  eapply ct_bind; [apply ct_stage | intros []]. eapply ct_bind.
  { apply (ct_exists (fun m => m !! p = Some old /\ m !! next = Some written)). by intros d [Hd _]; apply HO. }
  intros had_previous. cbn beta.
  apply (ct_bind _ _ _ (fun _ d =>
    (if had_previous then contents d !! bak = Some old else contents d !! p = Some old) /\
    contents d !! next = Some written)); [| intros _; eapply ct_bind; [apply ct_install | intros []]].
  - destruct had_previous; [apply ct_retire |]. by apply ct_ret.
  - unfold sync_directory. eapply ct_bind; [| intros []]; by apply (ct_quiet _ (fun m => m !! p = Some written)).
Qed.
End CrashSafety.

Lemma sidecar_path_spec p suffix q :
  sidecar_path p suffix = Ok q ->
  exists dir name, p = dir ++ [Normal name] /\ q = dir ++ [Normal (name ++ txt "." ++ txt suffix)].
Proof.
  unfold sidecar_path, with_file_name, file_name.
  destruct (last p) as [[| | |name]|] eqn:El; cbn; [done.. | | done]. intros [= <-].
  apply last_Some in El as [dir ->]. rewrite removelast_last. eauto.
Qed.

Lemma sidecar_distinct p next bak :
  sidecar_path p "next" = Ok next -> sidecar_path p "bak" = Ok bak -> next <> p /\ bak <> p /\ bak <> next.
Proof.
  intros (dir & name & -> & ->)%sidecar_path_spec (dir' & name' & Heq & ->)%sidecar_path_spec.
  apply app_inj_tail in Heq as [<- [= <-]].
  split_and!; intros [_ [= Hx]]%app_inj_tail; apply (f_equal length) in Hx;
    rewrite !length_app in Hx; cbn [length app] in Hx; change (length (txt "next")) with 4 in Hx;
    change (length (txt "bak")) with 3 in Hx; lia.
Qed.

(** ** What a write that returns has done *)

Definition Anything (d : Disk) : Prop := True.

Lemma ct_anything {A} (m : Io A) P : crash_triple P m (fun _ => Anything) Anything.
Proof. intros d _. by destruct (m d) as [[]]. Qed.

Section Writes.
Context {machine : Machine} `{Fs} {json : CatalogJson}.

Definition at_path (q : FilePath) (b : list N) (d : Disk) : Prop := contents d !! q = Some b.

Lemma ct_stays {A} (m : Io (option A)) `{!Quiet m} q b :
  crash_triple (at_path q b) (or_unavailable m) (fun _ => at_path q b) Anything.
Proof. by apply (ct_quiet m (fun c => c !! q = Some b)). Qed.

Lemma ct_write_all q b x :
  crash_triple (at_path q b) (or_unavailable (write_all q x)) (fun _ => at_path q (b ++ x)) Anything.
Proof.
  apply ct_or_unavailable, ct_syscall; [| done | done]. intros d a d' Hd [= <- <-].
  unfold at_path. by rewrite contents_called, (contents_append _ _ _ _ Hd), lookup_insert_eq.
Qed.

Lemma ct_staged next payload :
  crash_triple Anything (stage_catalog next payload) (fun _ => at_path next (payload ++ [10%N])) Anything.
Proof.
  unfold stage_catalog. apply (ct_bind _ _ _ (fun _ => at_path next [])).
  { apply ct_or_unavailable, ct_at_once; [| done]. unfold at_path. intros d a d' _ E. effect E;
      by rewrite contents_called, contents_insert, lookup_insert_eq. }
  intros _. do 2 (eapply ct_bind; [apply ct_write_all | intros []]).
  eapply ct_bind; [| intros []]; apply ct_stays, _.
Qed.

Lemma ct_retired p next bak b :
  next <> p -> bak <> next ->
  crash_triple (at_path next b) (retire_previous p bak) (fun _ => at_path next b) Anything.
Proof.
  intros Hp Hb. unfold retire_previous, at_path. eapply ct_bind.
  { apply ct_or_unavailable, (ct_syscall _ _ _ (fun o d => match o with Some _ => at_path next b d | None => Anything d end));
      [| done | done]. intros d a d' Hd E. effect E. unfold at_path, copied. rewrite contents_called.
    replace (files d !! p) with (Some f) by done. by rewrite contents_insert, lookup_insert_ne. }
  intros []. do 3 (eapply ct_bind; [apply ct_stays, _ | intros []]).
  apply ct_or_unavailable, ct_at_once; [| done]. intros d a d' Hd E. effect E.
  by rewrite contents_called, contents_delete, lookup_delete_ne.
Qed.

Lemma ct_installed p next bak had b :
  crash_triple (at_path next b) (install_catalog p next bak had) (fun _ => at_path p b) Anything.
Proof.
  unfold install_catalog.
  apply (ct_bind _ _ _ (fun o d => match o with Some _ => at_path p b d | None => Anything d end)).
  - apply ct_at_once; [| done]. intros d a d' Hn E. effect E. unfold at_path. rewrite contents_called.
    apply contents_lookup. eexists. split; [cbn; apply lookup_insert_eq |].
    apply contents_lookup in Hn as (f' & Hf & <-). congruence.
  - intros [u|]; [by apply ct_ret |]. eapply ct_bind; [apply ct_anything | intros; by apply ct_throw].
Qed.

Lemma ct_written p c :
  crash_triple Anything (write_catalog p c)
    (fun _ d => exists payload, to_vec_pretty c = Some payload /\ at_path p (payload ++ [10%N]) d) Anything.
Proof.
  unfold write_catalog. eapply ct_bind; [by apply ct_lift | intros dir].
  do 2 (eapply ct_bind; [apply ct_anything | intros []]).
  destruct (sidecar_path p "next") as [next|] eqn:En; [apply ct_lift_ok | done].
  destruct (sidecar_path p "bak") as [bak|] eqn:Eb; [apply ct_lift_ok | done].
  destruct (to_vec_pretty c) as [payload|] eqn:Ep; [apply ct_lift_ok | done].
  destruct (sidecar_distinct _ _ _ En Eb) as (H1 & H2 & H3).
  eapply ct_bind; [apply ct_staged | intros []].
  apply (ct_bind _ _ _ (fun _ => at_path next (payload ++ [10%N]))).
  { by apply (ct_exists p (fun m => m !! next = Some (payload ++ [10%N]))). }
  intros had. apply (ct_bind _ _ _ (fun _ => at_path next (payload ++ [10%N]))).
  { destruct had; [by apply ct_retired | by apply ct_ret]. }
  intros _. eapply ct_bind; [apply ct_installed | intros []].
  eapply (ct_weaken _ _ _ (fun _ => at_path p (payload ++ [10%N]))); [| done | by eauto].
  unfold sync_directory. eapply ct_bind; [| intros []]; apply ct_stays, _.
Qed.
End Writes.

(** C9.  Wherever a write of the catalog ends, in an error or because the process
    stopped inside a call, some file still holds a whole catalog: the catalog file
    the previous or the new one, or the backup the previous one.  A write that
    returns has installed the new one. *)
Theorem catalog_never_lost {machine : Machine} `{Fs} {json : CatalogJson} (p next bak : FilePath)
    (c : EnvironmentCatalog) (old payload : list N) (d : Disk) :
  sidecar_path p "next" = Ok next -> sidecar_path p "bak" = Ok bak -> to_vec_pretty c = Some payload ->
  contents d !! p = Some old ->
  match write_catalog p c d with
  | (Ok _, d') => contents d' !! p = Some (payload ++ [10%N])
  | (Err _, d') => contents d' !! p = Some old \/ contents d' !! p = Some (payload ++ [10%N]) \/
                   contents d' !! bak = Some old
  end.
Proof.
  intros En Eb Ep Hd. destruct (sidecar_distinct _ _ _ En Eb) as (H1 & H2 & H3).
  exact (ct_write p next bak old payload H1 H2 H3 c En Eb Ep d Hd).
Qed.
