(* ===== verification/CatalogSpec.v ===== *)
(** * The environment catalog as a map

    The abstract catalog: a map from ids to environments, a selected id and a
    revision.  On a machine whose calls work, the store of [CatalogStore]
    implements it, errors included. *)
From Stdlib Require Import NArith ZArith Lia.
From stdpp Require Import base strings list option sorting gmap.
From S2P Require Import Prelude Text Json Environment ShellEnvironment CatalogStore CatalogFacts.

(** ** The abstract catalog *)

Record Catalog := { entries : gmap text DshEnvironment; selected : option text; rev_no : N }.

Inductive StoreOp := Save (e : DshEnvironment) | Activate (i : text) | Remove (i : text).

Section Spec.
Context `{Fs}.

Definition bump (r : N) : result StoreError N := ok_or Capacity (u64_checked_add r 1).

Definition spec_step (op : StoreOp) (s : Catalog) : result StoreError Catalog :=
  match op with
  | Save e =>
      if negb (valid (validate_environment_value e)) then Err InvalidCatalogEnvironment
      else if bool_decide (entries s !! id e = None) && (MAX_ENVIRONMENTS <=? size (entries s))%nat then Err Capacity
      else r ← bump (rev_no s); Ok {| entries := <[id e := e]> (entries s); selected := Some (id e); rev_no := r |}
  | Activate i =>
      if bool_decide (entries s !! i = None) then Err InvalidCatalogEnvironment
      else if bool_decide (selected s = Some i) then Ok s
      else r ← bump (rev_no s); Ok {| entries := entries s; selected := Some i; rev_no := r |}
  | Remove i =>
      if bool_decide (entries s !! i = None) then Err NotFound
      else
        r ← bump (rev_no s);
        Ok {| entries := delete i (entries s);
              selected := if bool_decide (selected s = Some i) then None else selected s; rev_no := r |}
  end.

Definition by_ids (es : list DshEnvironment) : gmap text DshEnvironment :=
  list_to_map (map (fun e => (id e, e)) es).

Definition abstract (c : EnvironmentCatalog) : Catalog :=
  {| entries := by_ids (environments c); selected := active_environment_id c; rev_no := revision c |}.

Definition run_op {machine : Machine} {json : CatalogJson} (p : FilePath) (op : StoreOp) : Io EnvironmentCatalog :=
  match op with
  | Save e => save_environment p e
  | Activate i => set_active_environment p i
  | Remove i => remove_environment p i
  end.

(** ** The lists behind the map *)

Definition usable (es : list DshEnvironment) : Prop :=
  Forall (fun e => valid (validate_environment_value e) = true) es /\ NoDup (map id es).

Lemma validate_from_some seen es ids :
  validate_from seen es = Some ids <->
  usable es /\ (forall x, x ∈ map id es -> x ∉ seen) /\ ids = rev_append (map id es) seen.
Proof.
  revert seen. induction es as [|e es IH]; intros seen; cbn [validate_from map rev_append].
  - split; [intros [= ->] | by intros (_ & _ & ->)].
    split_and!; [by split; constructor | by intros x ?%elem_of_nil | done].
  - case_bool_decide as Hin; cbn [orb].
    { split; [done |]. intros (_ & Hx & _). by destruct (Hx (id e)); [left |]. }
    destruct (valid (validate_environment_value e)) eqn:Hv; cbn [negb].
    2: { split; [done |]. intros ((Hf & _) & _). inversion Hf. congruence. }
    rewrite IH. unfold usable. cbn [map]. rewrite Forall_cons, NoDup_cons. split.
    + intros ((Hf & Hnd) & Hx & ->). split_and!; try done.
      * intros He. apply (Hx _ He). by left.
      * intros x [-> | Hm]%elem_of_cons; [done |]. intros Hs. apply (Hx x Hm). by right.
    + intros (((_ & Hf) & He & Hnd) & Hx & ->). split_and!; try done.
      intros x Hm [-> | Hs]%elem_of_cons; [done |]. apply (Hx x); [by right | done].
Qed.

(** What [validate_catalog] accepts. *)
Lemma validate_catalog_ok c :
  validate_catalog c = Ok tt <->
  cat_schema_version c = 1%N /\ length (environments c) <= MAX_ENVIRONMENTS /\ usable (environments c) /\
  forall i, active_environment_id c = Some i -> i ∈ map id (environments c).
Proof.
  unfold validate_catalog, CATALOG_SCHEMA_VERSION.
  destruct (N.eqb_spec (cat_schema_version c) 1) as [Hs|]; cbn [negb orb]; [| naive_solver].
  destruct (Nat.ltb_spec MAX_ENVIRONMENTS (length (environments c))); [naive_solver lia |].
  destruct (validate_from [] (environments c)) as [ids|] eqn:Hf.
  - apply validate_from_some in Hf as (Hu & _ & ->).
    assert (Hi : forall x, x ∈ rev_append (map id (environments c)) [] <-> x ∈ map id (environments c)).
    { intros x. rewrite rev_append_rev, app_nil_r, !list_elem_of_In. symmetry. apply in_rev. }
    destruct (active_environment_id c) as [a|]; [| naive_solver].
    case_bool_decide as Ha; rewrite Hi in Ha; naive_solver.
  - split; [done |]. intros (_ & _ & Hu & _).
    assert (Hn : validate_from [] (environments c) = Some (rev_append (map id (environments c)) []))
      by (apply validate_from_some; split_and!; [done | by intros x _ ?%elem_of_nil | done]).
    congruence.
Qed.

Lemma by_ids_lookup es i e :
  NoDup (map id es) -> by_ids es !! i = Some e <-> e ∈ es /\ id e = i.
Proof.
  intros Hnd. unfold by_ids. rewrite <- elem_of_list_to_map.
  - rewrite list_elem_of_fmap. naive_solver.
  - by rewrite <- list_fmap_compose.
Qed.

Lemma by_ids_none es i : NoDup (map id es) -> by_ids es !! i = None <-> i ∉ map id es.
Proof.
  intros Hnd. rewrite eq_None_not_Some. apply not_iff_compat. unfold is_Some.
  setoid_rewrite (by_ids_lookup es i _ Hnd). rewrite list_elem_of_fmap. naive_solver.
Qed.

Lemma by_ids_size es : NoDup (map id es) -> size (by_ids es) = length es.
Proof.
  intros Hnd. unfold by_ids. rewrite map_size_list_to_map; [by rewrite length_map |].
  by rewrite <- list_fmap_compose.
Qed.

Lemma by_ids_perm es es' : NoDup (map id es) -> es ≡ₚ es' -> by_ids es' = by_ids es.
Proof.
  intros Hnd Hp. symmetry. unfold by_ids. apply list_to_map_proper; [by rewrite <- list_fmap_compose |].
  by rewrite Hp.
Qed.

(** The entry of an id replaced or added. *)
Lemma put_environment_spec e es :
  usable es -> length es <= MAX_ENVIRONMENTS -> valid (validate_environment_value e) = true ->
  match put_environment e es with
  | Ok es' => (by_ids es !! id e = None -> length es < MAX_ENVIRONMENTS) /\
              usable es' /\ length es' <= MAX_ENVIRONMENTS /\ id e ∈ map id es' /\
              by_ids es' = <[id e := e]> (by_ids es)
  | Err x => x = Capacity /\ by_ids es !! id e = None /\ MAX_ENVIRONMENTS <= length es
  end.
Proof.
  intros [Hval Hnd] Hlen He. unfold put_environment.
  assert (Hfinish : forall rest, NoDup (id e :: map id rest) ->
    Forall (fun e => valid (validate_environment_value e) = true) rest ->
    length rest < MAX_ENVIRONMENTS -> delete (id e) (by_ids rest) = delete (id e) (by_ids es) ->
    forall es', es' ≡ₚ e :: rest ->
    usable es' /\ length es' <= MAX_ENVIRONMENTS /\ id e ∈ map id es' /\ by_ids es' = <[id e := e]> (by_ids es)).
  { intros rest Hr Hf Hl Hd es' Hp. split_and!; [split | | |].
    - rewrite Hp. by constructor.
    - by rewrite Hp.
    - rewrite Hp. exact Hl.
    - rewrite Hp. by left.
    - rewrite (by_ids_perm (e :: rest)) by done. change (by_ids (e :: rest)) with (<[id e := e]> (by_ids rest)).
      by rewrite <- (insert_delete_eq (by_ids rest)), Hd, insert_delete_eq. }
  destruct (list_find (fun x => id x = id e) es) as [[i x]|] eqn:Hfind.
  - apply list_find_Some in Hfind as (Hi & Hx & _).
    apply list_elem_of_split_length in Hi as (l1 & l2 & -> & ->).
    rewrite insert_app_r_alt, Nat.sub_diag by done. cbn [insert list_insert].
    assert (Hp : l1 ++ x :: l2 ≡ₚ x :: l1 ++ l2) by (by rewrite Permutation_middle).
    rewrite <- (by_ids_perm _ _ Hnd Hp) in Hfinish |- *. rewrite Hp in Hnd, Hval, Hlen.
    rewrite map_cons, Hx in Hnd. apply Forall_cons in Hval as [_ Hval].
    split.
    { intros Hn. exfalso. apply by_ids_none in Hn; rewrite map_cons, Hx in *; [apply Hn; left | done]. }
    apply (Hfinish (l1 ++ l2)); [done | done | exact Hlen | |].
    + change (by_ids (x :: l1 ++ l2)) with (<[id x := x]> (by_ids (l1 ++ l2))). by rewrite Hx, delete_insert_eq.
    + by rewrite merge_sort_Permutation, Permutation_middle.
  - apply list_find_None in Hfind.
    assert (Hn : id e ∉ map id es).
    { rewrite list_elem_of_fmap. intros (x & Hid & Hx). by rewrite Forall_forall in Hfind; destruct (Hfind x Hx). }
    destruct (Nat.leb_spec MAX_ENVIRONMENTS (length es)) as [Hc|Hc]; [by rewrite by_ids_none |].
    split; [done |]. apply (Hfinish es); [by constructor | done | done | done |].
    by rewrite merge_sort_Permutation, Permutation_app_comm.
Qed.

(** The entries of an id dropped. *)
Lemma without_spec i es :
  usable es -> let kept := List.filter (fun e => negb (bool_decide (id e = i))) es in
  (length kept = length es <-> by_ids es !! i = None) /\ usable kept /\ length kept <= length es /\
  by_ids kept = delete i (by_ids es) /\ (forall j, j ∈ map id es -> j <> i -> j ∈ map id kept).
Proof.
  intros [Hval Hnd]. induction es as [|e es IH]; cbn [List.filter length].
  { split_and!; [by split | by split; constructor | done | | by intros j ?%elem_of_nil]. unfold by_ids. cbn.
    by rewrite delete_empty. }
  apply Forall_cons in Hval as [He Hval]. rewrite map_cons in Hnd. apply NoDup_cons in Hnd as [Hni Hnd].
  destruct (IH Hval Hnd) as (Hl & [Hv' Hn'] & Hle & Hd & Hj). change (by_ids (e :: es)) with (<[id e := e]> (by_ids es)).
  rewrite map_cons. case_bool_decide as Hi; cbn [negb].
  - rewrite <- Hi in *. assert (Hnone : by_ids es !! id e = None) by (by apply by_ids_none).
    rewrite lookup_insert_eq, delete_insert_eq. split_and!; [split; [lia | done] | done | lia | done |].
    intros j [-> | Hm]%elem_of_cons; [done | by apply Hj].
  - rewrite lookup_insert_ne, delete_insert_ne by done. cbn [length].
    change (by_ids (e :: ?l)) with (<[id e := e]> (by_ids l)). split_and!.
    + rewrite <- Hl. lia.
    + split; [by constructor |]. rewrite map_cons. constructor; [| done]. intros Hm. apply Hni. revert Hm.
      rewrite !list_elem_of_fmap. intros (x & Hx & Hm). exists x. split; [done |].
      apply list_elem_of_In in Hm. apply filter_In in Hm as [Hm _]. by apply list_elem_of_In.
    + lia.
    + by rewrite <- Hd.
    + intros j [-> | Hm]%elem_of_cons Hne; rewrite map_cons; [left | right; by apply Hj].
Qed.

End Spec.

(** ** What the daemon reads *)

(** [serde_json] reads back what it wrote, a final newline included. *)
Class CatalogJsonLaws {json : CatalogJson} : Prop := {
  json_total c : is_Some (to_vec_pretty c);
  json_back c b : to_vec_pretty c = Some b -> from_slice (b ++ [10%N]) = Some c
}.

(** The file at [p] holds the catalog [c], which is valid. *)
Definition Holds `{Fs} {json : CatalogJson} (p : FilePath) (c : EnvironmentCatalog) (d : Disk) : Prop :=
  validate_catalog c = Ok tt /\ exists b, contents d !! p = Some b /\ from_slice b = Some c.

Section Daemon.
Context `{Fs} {machine : Machine} {json : CatalogJson} {laws : CatalogJsonLaws}.

Lemma daemon_validates seen es ids :
  validate_from seen es = Some ids -> Environment.validate_from seen es = Ok ids.
Proof.
  revert seen. induction es as [|e es IH]; intros seen; cbn [validate_from Environment.validate_from]; [by intros [= ->] |].
  destruct (bool_decide (id e ∈ seen)); cbn [orb]; [done |].
  destruct (valid (validate_environment_value e)) eqn:Hv; cbn [negb]; [| done].
  apply shell_validation_agrees in Hv as [-> _]. apply IH.
Qed.

Lemma daemon_accepts c : validate_catalog c = Ok tt -> Environment.validate_catalog c = Ok tt.
Proof.
  unfold validate_catalog, Environment.validate_catalog. destruct (_ || _); [done |].
  destruct (validate_from [] (environments c)) as [ids|] eqn:Hf; [| done].
  rewrite (daemon_validates _ _ _ Hf). destruct (active_environment_id c); [| done]. by destruct (bool_decide _).
Qed.

Lemma ct_load p :
  crash_triple Anything (load_catalog p) (fun c d => c = default_catalog \/ Holds p c d) Anything.
Proof.
  unfold load_catalog. eapply ct_bind; [apply ct_anything | intros []]; [| apply ct_ret; by left]. cbn [negb].
  apply (ct_bind _ _ _ (fun b d => contents d !! p = Some b)).
  { apply ct_or_unavailable, ct_at_once; [| done]. intros d b d' _ E. effect E.
    rewrite contents_called. apply contents_lookup. eauto. }
  intros b. unfold store. eapply ct_bind; [by apply ct_lift | intros c].
  eapply ct_bind; [by apply ct_lift | intros []]. apply ct_ret. intros d (Hv & Hc & Hd). right.
  split; [by destruct (validate_catalog c) as [[]|] | exists b]. split; [done |]. by destruct (from_slice b); simplify_eq/=.
Qed.

Lemma ct_commit p c : crash_triple Anything (commit p c) (fun c' d => c' = c /\ Holds p c d) Anything.
Proof.
  unfold commit, store. destruct (validate_catalog c) as [[]|] eqn:Hv; [apply ct_lift_ok | done].
  eapply ct_bind; [apply ct_written | intros []]. apply ct_ret.
  intros d (payload & Hp & Hd). split; [done | split; [done |]]. exists (payload ++ [10%N]).
  split; [done | by apply json_back].
Qed.

Lemma ct_changed p c' :
  crash_triple Anything (commit p c') (fun c d => Holds p c d) Anything.
Proof. eapply ct_weaken; [apply ct_commit | done | by intros a d [-> Hd]]. Qed.

Lemma ct_run_op p op : crash_triple Anything (run_op p op) (fun c d => Holds p c d) Anything.
Proof.
  assert (Hc : forall P c, crash_triple P (commit p c) (fun c d => Holds p c d) Anything).
  { intros P c. by eapply ct_weaken; [apply ct_changed | |]. }
  assert (Hr : forall P c f, crash_triple P (r ← store (next_revision c); commit p (f r)) (fun c d => Holds p c d) Anything).
  { intros P c f. eapply ct_bind; [apply ct_anything | intros r; apply Hc]. }
  destruct op as [e|i|i]; cbn [run_op].
  - unfold save_environment. destruct (negb _); [by apply ct_throw |].
    eapply ct_bind; [apply ct_load | intros c]. eapply ct_bind; [apply ct_anything | intros es]. apply Hr.
  - unfold set_active_environment. eapply ct_bind; [apply ct_load | intros c].
    destruct (negb _) eqn:Hm; [by apply ct_throw |]. case_bool_decide; [| apply Hr].
    apply ct_ret. by intros d [-> | Hd].
  - unfold remove_environment. eapply ct_bind; [apply ct_load | intros c].
    destruct (_ =? _)%nat; [by apply ct_throw | apply Hr].
Qed.
End Daemon.

(** Whatever the Shell saves, the daemon loads: when a store operation
    returns a catalog, on any machine, the daemon's own reader accepts the bytes
    then in the file and returns the same catalog. *)
Theorem daemon_loads_what_shell_saves `{Fs} {machine : Machine} {json : CatalogJson} {laws : CatalogJsonLaws}
    (p : FilePath) (op : StoreOp) (d d' : Disk) (c : EnvironmentCatalog) :
  run_op p op d = (Ok c, d') -> Environment.load_catalog true (contents d' !! p) from_slice = Ok c.
Proof.
  intros Hr. pose proof (ct_run_op p op d I) as Ht. rewrite Hr in Ht.
  destruct Ht as (Hv & b & -> & Hb). unfold Environment.load_catalog. cbn. rewrite Hb. cbn.
  by rewrite (daemon_accepts _ Hv).
Qed.

(** ** The store implements the map *)

Section Working.
Context `{Fs} {machine : Machine} {json : CatalogJson} {laws : CatalogJsonLaws}.
Context (works : forall i, fault i = Works).
Context (dir : FilePath) (name : text).

Let p : FilePath := dir ++ [Normal name].
Let next : FilePath := dir ++ [Normal (name ++ txt "." ++ txt "next")].
Let bak : FilePath := dir ++ [Normal (name ++ txt "." ++ txt "bak")].

(** Nothing stands in the way: no file where a directory has to be, no directory
    where a file has to be. *)
Definition Ready (d : Disk) : Prop :=
  Forall (fun a => files d !! a = None) (ancestors dir) /\
  dirs d !! p = None /\ dirs d !! next = None /\ dirs d !! bak = None.

(** The store on the disk stands for the abstract catalog. *)
Definition Represents (s : Catalog) (d : Disk) : Prop :=
  Ready d /\ exists c, validate_catalog c = Ok tt /\ abstract c = s /\
    match files d !! p with
    | Some f => from_slice (content f) = Some c
    | None => c = default_catalog
    end.

Definition Never (d : Disk) : Prop := False.

(** A call that the disk does not refuse. *)
Lemma ct_works {A} full partly (P : Disk -> Prop) (Q : option A -> Disk -> Prop) :
  (forall d, P d -> exists a d', full d = Some (a, d') /\ Q (Some a) (called d')) ->
  crash_triple P (syscall full partly) Q Never.
Proof. intros Hf d Hd. unfold syscall. rewrite works. by destruct (Hf d Hd) as (a & d' & -> & HQ). Qed.

Lemma ct_does {A} full partly (P : Disk -> Prop) (Q : A -> Disk -> Prop) :
  (forall d, P d -> exists a d', full d = Some (a, d') /\ Q a (called d')) ->
  crash_triple P (or_unavailable (syscall full partly)) Q Never.
Proof.
  intros Hf. apply ct_or_unavailable.
  apply (ct_works full partly P (fun o d => match o with Some a => Q a d | None => Never d end)), Hf.
Qed.

Lemma ancestors_short q a : a ∈ ancestors q -> 0 < length a <= length q.
Proof.
  revert a. induction q as [|c q IH]; intros a; cbn [ancestors]; [by intros ?%elem_of_nil |].
  intros [-> | (b & -> & Hb)%list_elem_of_fmap]%elem_of_cons; [cbn; lia |]. apply IH in Hb. cbn. lia.
Qed.

Lemma ancestors_self q : q <> [] -> q ∈ ancestors q.
Proof.
  induction q as [|c q IH]; [done |]. intros _. cbn [ancestors]. destruct q as [|c' q]; [by left |].
  right. apply list_elem_of_fmap. eexists. split; [done |]. by apply IH.
Qed.

Lemma sibling_not_ancestor s a : a ∈ ancestors dir -> dir ++ [Normal s] <> a.
Proof. intros [_ Hl]%ancestors_short Heq. subst a. rewrite length_app in Hl. cbn in Hl. lia. Qed.

(** The files changed are the three siblings. *)
Lemma ready_set_files f d :
  Ready d -> (forall q, q <> p -> q <> next -> q <> bak -> f !! q = files d !! q) -> Ready (set_files f d).
Proof.
  intros (Ha & Hd) Hf. split; [| done]. apply Forall_forall. intros a Hin. cbn. rewrite Hf.
  - by rewrite Forall_forall in Ha; apply Ha.
  - by apply not_eq_sym, sibling_not_ancestor.
  - by apply not_eq_sym, sibling_not_ancestor.
  - by apply not_eq_sym, sibling_not_ancestor.
Qed.

Lemma mkdirs_lookup (l : list FilePath) (m : gmap FilePath N) q :
  let m' := foldr (fun a m => if m !! a is Some _ then m else <[a := create_dir_mode]> m) m l in
  (q ∉ l -> m' !! q = m !! q) /\ (q ∈ l -> is_Some (m' !! q)).
Proof.
  induction l as [|a l [IH1 IH2]]; cbn [foldr]; [split; [done | by intros ?%elem_of_nil] |].
  set (m' := foldr _ m l) in *. destruct (m' !! a) eqn:E; split.
  - intros [_ Hq]%not_elem_of_cons. by apply IH1.
  - intros [-> | Hq]%elem_of_cons; [by rewrite E | by apply IH2].
  - intros [Ha Hq]%not_elem_of_cons. rewrite lookup_insert_ne by done. by apply IH1.
  - intros Hq. destruct (decide (a = q)) as [->|]; [by rewrite lookup_insert_eq |].
    rewrite lookup_insert_ne by done. apply IH2. by apply elem_of_cons in Hq as [->|].
Qed.

Definition Prepared (d : Disk) : Prop := Ready d /\ dirs d !! dir = Some 448%N.

Lemma prepared_set_files f d :
  Prepared d -> (forall q, q <> p -> q <> next -> q <> bak -> f !! q = files d !! q) -> Prepared (called (set_files f d)).
Proof. intros [Hr Hd] Hf. split; [by apply (ready_set_files f d) | done]. Qed.

Lemma ct_mkdirs :
  dir <> [] ->
  crash_triple Ready (or_unavailable (create_dir_all dir)) (fun _ d => Ready d /\ is_Some (dirs d !! dir)) Never.
Proof.
  intros Hne. apply ct_does. intros d (Ha & Hp & Hn & Hb). exists tt. eexists. split.
  - rewrite (proj2 (existsb_not_elem _ _)); [done |]. intros a Hin. rewrite Forall_forall in Ha.
    by rewrite (Ha a Hin).
  - pose proof (mkdirs_lookup (ancestors dir) (dirs d)) as Hl. split; [split_and!; [done | ..] |].
    all: cbn. 1-3: rewrite (proj1 (Hl _)); [done |]; intros Hin; by eapply sibling_not_ancestor.
    by apply Hl, ancestors_self.
Qed.

Lemma ct_restrict_directory :
  crash_triple (fun d => Ready d /\ is_Some (dirs d !! dir)) (restrict_directory dir) (fun _ => Prepared) Never.
Proof.
  apply ct_does. intros d [(Ha & Hp & Hn & Hb) [m Hm]]. exists tt. eexists.
  split; [by rewrite Hm |]. split; [| apply lookup_insert_eq].
  split_and!; [done | ..]; cbn; rewrite lookup_insert_ne; try done; intros Heq;
    apply (f_equal length) in Heq; unfold p, next, bak in Heq; rewrite length_app in Heq; cbn in Heq; lia.
Qed.

Lemma parent_snoc s : parent (dir ++ [Normal s]) = Some dir.
Proof. unfold parent. rewrite last_snoc. cbn. by rewrite removelast_last. Qed.

Lemma sidecar_of suffix : sidecar_path p suffix = Ok (dir ++ [Normal (name ++ txt "." ++ txt suffix)]).
Proof. unfold sidecar_path, with_file_name, file_name, p. rewrite last_snoc. cbn. by rewrite removelast_last. Qed.

Lemma siblings : next <> p /\ bak <> p /\ bak <> next.
Proof. exact (sidecar_distinct p next bak (sidecar_of _) (sidecar_of _)). Qed.

Definition file600 (b : list N) : File := {| content := b; file_mode := 384%N |}.

Lemma ct_stage_works payload :
  crash_triple Prepared (stage_catalog next payload)
    (fun _ d => Prepared d /\ files d !! next = Some (file600 (payload ++ [10%N]))) Never.
Proof.
  destruct siblings as (Hnp & _ & Hbn). unfold stage_catalog.
  set (At b := fun d => Prepared d /\ exists m, files d !! next = Some {| content := b; file_mode := m |}).
  assert (Hput : forall f d, Prepared d -> Prepared (called (set_files (<[next := f]> (files d)) d))).
  { intros f d Hd. apply prepared_set_files; [done |]. intros q _ Hq _. by rewrite lookup_insert_ne. }
  apply (ct_bind _ _ _ (fun _ => At [])); [| intros _; apply (ct_bind _ _ _ (fun _ => At payload))].
  - apply ct_does. intros d Hd. exists tt. eexists. split.
    + destruct Hd as [(_ & _ & Hn & _) Hdir]. rewrite (parent_snoc _ : parent next = _). cbn. rewrite Hdir. cbn. by rewrite Hn.
    + split; [by apply Hput |]. eexists. cbn. apply lookup_insert_eq.
  - apply ct_does. intros d [Hd [m Hm]]. exists tt. eexists. split; [done |]. unfold append. rewrite Hm.
    split; [by apply Hput |]. exists m. cbn. apply lookup_insert_eq.
  - intros _. apply (ct_bind _ _ _ (fun _ => At (payload ++ [10%N]))).
    + apply ct_does. intros d [Hd [m Hm]]. exists tt. eexists. split; [done |]. unfold append. rewrite Hm.
      split; [by apply Hput |]. exists m. cbn. apply lookup_insert_eq.
    + intros _. apply (ct_bind _ _ _ (fun _ => At (payload ++ [10%N]))).
      * apply ct_does. intros d Hd. by exists tt, d.
      * intros _. apply ct_does. intros d [Hd [m Hm]]. exists tt. eexists. split; [by rewrite Hm |].
        split; [by apply Hput |]. cbn. apply lookup_insert_eq.
Qed.

Lemma ct_retire_works f :
  crash_triple (fun d => (Prepared d /\ files d !! next = Some f) /\ is_Some (files d !! p)) (retire_previous p bak)
    (fun _ d => Prepared d /\ files d !! next = Some f) Never.
Proof.
  destruct siblings as (Hnp & Hbp & Hbn). unfold retire_previous.
  set (At := fun d => (Prepared d /\ files d !! next = Some f) /\ is_Some (files d !! p) /\ is_Some (files d !! bak)).
  assert (Hput : forall g d, Prepared d /\ files d !! next = Some f -> is_Some (files d !! p) ->
    At (called (set_files (<[bak := g]> (files d)) d))).
  { intros g d [Hd Hn] Hp. split_and!; cbn.
    - apply prepared_set_files; [done |]. intros q _ _ Hq. by rewrite lookup_insert_ne.
    - by rewrite lookup_insert_ne.
    - by rewrite lookup_insert_ne.
    - by rewrite lookup_insert_eq. }
  apply (ct_bind _ _ _ (fun _ => At)); [| intros _; apply (ct_bind _ _ _ (fun _ => At))].
  - apply ct_does. intros d [Hd Hp]. exists tt. eexists. destruct Hp as [g Hg]. split.
    + rewrite Hg. cbn. destruct Hd as [[(_ & _ & _ & Hb) _] _]. by rewrite Hb.
    + unfold copied. rewrite Hg. apply Hput; [done | by rewrite Hg].
  - apply ct_does. intros d (Hd & Hp & [g Hg]). exists tt. eexists. split; [by rewrite Hg |]. by apply Hput.
  - intros _. apply (ct_bind _ _ _ (fun _ => At)); [apply ct_does | intros _; apply (ct_bind _ _ _ (fun _ => At));
      [apply ct_does | intros _]].
    + intros d (Hd & Hp & [g Hg]). exists tt, d. split; [by rewrite Hg | exact (conj Hd (conj Hp (mk_is_Some _ _ Hg)))].
    + intros d Hd. by exists tt, d.
    + apply ct_does. intros d ([Hd Hn] & [g Hg] & _). exists tt. eexists. split; [by rewrite Hg |].
      split; [| by cbn; rewrite lookup_delete_ne]. apply prepared_set_files; [done |].
      intros q Hq _ _. by rewrite lookup_delete_ne.
Qed.

Lemma ct_write_works c payload :
  dir <> [] -> to_vec_pretty c = Some payload ->
  crash_triple Ready (write_catalog p c)
    (fun _ d => Prepared d /\ files d !! p = Some (file600 (payload ++ [10%N]))) Never.
Proof.
  destruct siblings as (Hnp & Hbp & Hbn). intros Hne Hp. unfold write_catalog.
  rewrite !sidecar_of, Hp. rewrite (parent_snoc name : parent p = _). apply ct_lift_ok. fold next bak.
  set (f := file600 (payload ++ [10%N])). set (At := fun d => Prepared d /\ files d !! next = Some f).
  eapply ct_bind; [by apply ct_mkdirs | intros []]. eapply ct_bind; [apply ct_restrict_directory | intros []].
  do 3 (apply ct_lift_ok). apply (ct_bind _ _ _ (fun _ => At)); [apply ct_stage_works | intros _].
  apply (ct_bind _ _ _ (fun b d => At d /\ b = bool_decide (is_Some (files d !! p)))).
  { unfold path_exists. eapply (ct_bind _ _ _ (fun o d => At d /\ o = Some (bool_decide (is_Some (files d !! p))))).
    - apply ct_works. intros d [Hd Hf]. eexists _, d. split; [done |]. split; [done |]. f_equal.
      destruct Hd as [(_ & -> & _) _]. apply bool_decide_ext. split; [by intros [|[]] | by left].
    - intros o. apply ct_ret. by intros d [Hd ->]. }
  intros had. apply (ct_bind _ _ _ (fun _ => At)).
  { destruct had; [| apply ct_ret; by intros d [Hd _]]. eapply ct_weaken; [apply (ct_retire_works f) | | done].
    intros d [Hd Hb]. split; [done |]. symmetry in Hb. by apply bool_decide_eq_true in Hb. }
  intros _. apply (ct_bind _ _ _ (fun _ d => Prepared d /\ files d !! p = Some f)).
  - unfold install_catalog. apply (ct_bind _ _ _ (fun o d => is_Some o /\ Prepared d /\ files d !! p = Some f)).
    + apply ct_works. intros d [Hd Hf]. eexists _, _. split.
      * rewrite Hf. cbn. destruct Hd as [(_ & -> & _) _]. done.
      * split; [done |]. split; [| apply lookup_insert_eq]. apply prepared_set_files; [done |].
        intros q Hq Hq' _. by rewrite lookup_insert_ne, lookup_delete_ne.
    + intros [u|]; [apply ct_ret; by intros d [_ Hd] |]. by intros d [[] _].
  - intros _. unfold sync_directory. apply (ct_bind _ _ _ (fun _ d => Prepared d /\ files d !! p = Some f)).
    + apply ct_does. intros d Hd. exists tt, d. destruct Hd as [[Hr Hdir] Hf]. by rewrite Hdir.
    + intros _. apply ct_does. intros d Hd. by exists tt, d.
Qed.

Definition Stored (c : EnvironmentCatalog) (d : Disk) : Prop :=
  Ready d /\ validate_catalog c = Ok tt /\
  match files d !! p with Some f => from_slice (content f) = Some c | None => c = default_catalog end.

Lemma load_works c d : Stored c d -> exists d', load_catalog p d = (Ok c, d') /\ Stored c d'.
Proof.
  intros (Hr & Hv & Hf). unfold load_catalog, path_exists, read, or_unavailable, at_once, syscall, store, mbind, M_bind.
  rewrite works. cbn. destruct Hr as (Ha & Hp & Hn & Hb). rewrite Hp. destruct (files d !! p) as [f|] eqn:Ef.
  - rewrite bool_decide_true by eauto. cbn. rewrite works, Ef. cbn. unfold lift. rewrite Hf. cbn. rewrite Hv. cbn.
    eexists. split; [done |]. split_and!; [done.. |]. cbn. by rewrite Ef.
  - rewrite bool_decide_false by (by intros [[]|[]]). cbn. subst c. eexists. split; [done |].
    split_and!; [done.. |]. cbn. by rewrite Ef.
Qed.

Lemma commit_works c d :
  dir <> [] -> validate_catalog c = Ok tt -> Ready d -> exists d', commit p c d = (Ok c, d') /\ Stored c d'.
Proof.
  intros Hne Hv Hr. destruct (json_total c) as [payload Hp].
  pose proof (ct_write_works c payload Hne Hp d Hr) as Hw. unfold commit, store, lift, mbind, M_bind.
  rewrite Hv. cbn. destruct (write_catalog p c d) as [[u|] d']; [| done].
  destruct Hw as [[Hr' _] Hf]. exists d'. split; [done |]. split_and!; [done | done |].
  rewrite Hf. by apply json_back.
Qed.

Lemma change_works c d (f : N -> EnvironmentCatalog) :
  dir <> [] -> Stored c d -> (forall r, validate_catalog (f r) = Ok tt) ->
  match next_revision c with
  | Ok r => exists d', (r ← store (next_revision c); commit p (f r)) d = (Ok (f r), d') /\ Stored (f r) d'
  | Err e => (r ← store (next_revision c); commit p (f r)) d = (Err (Failed e), d)
  end.
Proof.
  intros Hne Hs Hf. unfold store, lift, mbind at 1, M_bind at 1. destruct (next_revision c) as [r|e]; [| done]. cbn.
  by apply commit_works; [| apply Hf | apply Hs].
Qed.

Lemma validated c es a r :
  cat_schema_version c = 1%N -> length es <= MAX_ENVIRONMENTS -> usable es ->
  (forall i, a = Some i -> i ∈ map id es) -> validate_catalog (with_revision r a es c) = Ok tt.
Proof. intros. by apply validate_catalog_ok. Qed.

(** What the abstract step and the store's result have to agree on. *)
Definition matches (s : Catalog) (spec : result StoreError Catalog)
    (out : result Halt EnvironmentCatalog * Disk) : Prop :=
  match spec, out with
  | Ok s', (Ok c, d') => abstract c = s' /\ Represents s' d'
  | Err e, (Err (Failed e'), d') => e' = e /\ Represents s d'
  | _, _ => False
  end.

Lemma stored_represents c d : Stored c d -> Represents (abstract c) d.
Proof. intros (Hr & Hv & Hf). split; [done |]. by exists c. Qed.

Lemma change_matches c d es a :
  dir <> [] -> Stored c d ->
  length es <= MAX_ENVIRONMENTS -> usable es -> (forall i, a = Some i -> i ∈ map id es) ->
  matches (abstract c)
    (r ← bump (revision c); Ok {| entries := by_ids es; selected := a; rev_no := r |})
    ((r ← store (next_revision c); commit p (with_revision r a es c)) d).
Proof.
  intros Hne Hs Hl Hu Ha. pose proof Hs as (_ & (Hv & _)%validate_catalog_ok & _).
  pose proof (change_works c d (fun r => with_revision r a es c) Hne Hs
    ltac:(intros r; by apply validated)) as Hc.
  change (bump (revision c)) with (next_revision c). destruct (next_revision c) as [r|e].
  - destruct Hc as (d' & -> & Hs'). cbn. split; [done |]. by apply stored_represents in Hs'.
  - rewrite Hc. cbn. split; [done | by apply stored_represents].
Qed.

(** The store's operations, each after its load. *)
Lemma save_matches e c d :
  dir <> [] -> Stored c d -> matches (abstract c) (spec_step (Save e) (abstract c)) (save_environment p e d).
Proof.
  intros Hne Hs. unfold save_environment. cbn [spec_step].
  destruct (valid (validate_environment_value e)) eqn:He; cbn [negb]; [| by split; [| apply stored_represents]].
  destruct (load_works c d Hs) as (d1 & Hl & Hs1). unfold mbind at 2, M_bind at 1. rewrite Hl.
  pose proof Hs1 as (_ & (_ & Hlen & Hu & _)%validate_catalog_ok & _).
  pose proof (put_environment_spec e (environments c) Hu Hlen He) as Hput.
  cbn [abstract entries rev_no]. rewrite by_ids_size by apply Hu.
  unfold store at 1, mbind at 2, M_bind at 1. destruct (put_environment e (environments c)) as [es|x].
  - destruct Hput as (Hroom & Hu' & Hlen' & Hin & <-).
    assert (Hb : bool_decide (by_ids (environments c) !! id e = None) && (MAX_ENVIRONMENTS <=? length (environments c))%nat = false).
    { apply andb_false_iff. case_bool_decide as Hn; [right | by left]. apply Nat.leb_gt. by apply Hroom. }
    rewrite Hb. apply change_matches; [done.. |]. by intros i [= <-].
  - destruct Hput as (-> & Hn & Hfull). rewrite bool_decide_true by done.
    rewrite (proj2 (Nat.leb_le _ _)) by done. cbn. split; [done | by apply stored_represents].
Qed.

Lemma member_of es i :
  NoDup (map id es) -> existsb (fun e => bool_decide (id e = i)) es = negb (bool_decide (by_ids es !! i = None)).
Proof.
  intros Hnd. case_bool_decide as Hn; cbn [negb].
  - apply by_ids_none in Hn; [| done]. apply existsb_not_elem. intros e He. apply bool_decide_eq_false. intros <-.
    apply Hn, list_elem_of_fmap. eauto.
  - apply existsb_elem. destruct (by_ids es !! i) as [e|] eqn:E; [| done].
    apply by_ids_lookup in E as [He <-]; [| done]. exists e. by rewrite bool_decide_true.
Qed.

Lemma activate_matches i c d :
  dir <> [] -> Stored c d -> matches (abstract c) (spec_step (Activate i) (abstract c)) (set_active_environment p i d).
Proof.
  intros Hne Hs. unfold set_active_environment. cbn [spec_step].
  destruct (load_works c d Hs) as (d1 & Hl & Hs1). unfold mbind at 2, M_bind at 1. rewrite Hl.
  pose proof Hs1 as (_ & (_ & Hlen & Hu & _)%validate_catalog_ok & _).
  rewrite member_of by apply Hu. cbn [abstract entries selected rev_no]. case_bool_decide as Hn; cbn [negb].
  { split; [done | by apply stored_represents]. }
  case_bool_decide; [by split; [| apply stored_represents] |].
  apply change_matches; [done.. |]. intros j [= <-]. apply dec_stable.
  intros Hj. apply Hn, by_ids_none; [apply Hu | done].
Qed.

Lemma remove_matches i c d :
  dir <> [] -> Stored c d -> matches (abstract c) (spec_step (Remove i) (abstract c)) (remove_environment p i d).
Proof.
  intros Hne Hs. unfold remove_environment. cbn [spec_step].
  destruct (load_works c d Hs) as (d1 & Hl & Hs1). unfold mbind at 2, M_bind at 1. rewrite Hl.
  pose proof Hs1 as (_ & (_ & Hlen & Hu & Hact)%validate_catalog_ok & _).
  destruct (without_spec i (environments c) Hu) as (Hsame & Hu' & Hle & Hdel & Hin). cbn zeta.
  cbn [abstract entries selected rev_no]. rewrite <- Hdel.
  destruct (Nat.eqb_spec (length (List.filter (fun e => negb (bool_decide (id e = i))) (environments c)))
                         (length (environments c))) as [Heq|Hne'].
  - rewrite bool_decide_true by (by apply Hsame). split; [done | by apply stored_represents].
  - rewrite bool_decide_false by (by rewrite <- Hsame).
    apply change_matches; [done | done | exact (Nat.le_trans _ _ _ Hle Hlen) | done |].
    intros j Hj. case_bool_decide; [done |]. apply Hin; [by apply Hact | congruence].
Qed.
Lemma run_op_matches op s d :
  dir <> [] -> Represents s d -> matches s (spec_step op s) (run_op p op d).
Proof.
  intros Hne (Hr & c & Hv & <- & Hf). assert (Hs : Stored c d) by done.
  destruct op as [e|i|i]; [by apply save_matches | by apply activate_matches | by apply remove_matches].
Qed.
End Working.

(** C36.  The store implements the catalog as a map: on a machine whose calls
    work, from a disk that represents an abstract catalog, every operation ends as
    the abstract step says, with the same error or with the new catalog, returned
    and on the disk. *)
Theorem store_refines_map `{Fs} {machine : Machine} {json : CatalogJson} {laws : CatalogJsonLaws}
    (dir : FilePath) (name : text) (op : StoreOp) (s : Catalog) (d : Disk) :
  (forall i, fault i = Works) -> dir <> [] -> Represents dir name s d ->
  match spec_step op s, run_op (dir ++ [Normal name]) op d with
  | Ok s', (Ok c, d') => abstract c = s' /\ Represents dir name s' d'
  | Err e, (Err (Failed e'), d') => e' = e /\ Represents dir name s d'
  | _, _ => False
  end.
Proof. intros Hw Hne Hs. exact (run_op_matches Hw dir name op s d Hne Hs). Qed.

(** ** Witnesses *)

Module LocalCatalog.
Definition mode_code (m : HarnessMode) : nat :=
  match m with Repository => 0 | Executable => 1 | Command => 2 end.
Definition mode_decode (n : nat) : HarnessMode :=
  match n with 0 => Repository | 1 => Executable | _ => Command end.
Definition port_code (q : EndpointPort) : text + N := match q with Named s => inl s | Fixed n => inr n end.
Definition port_decode (x : text + N) : EndpointPort := match x with inl s => Named s | inr n => Fixed n end.
Definition ownership_code (o : Ownership) : bool := match o with Managed => true | Attached => false end.
Definition ownership_decode (b : bool) : Ownership := if b then Managed else Attached.

Definition environment_code (e : DshEnvironment) :=
  (schema_version e, id e, label e,
   (mode_code (mode (harness e)), path (harness e), cwd (harness e), args (harness e)),
   dsh_home e, profile e, node_path e, (host (endpoint e), port_code (port (endpoint e))),
   ownership_code (ownership e),
   (fun q => (auto_restart_on_crash q, allow_native_adapter q)) <$> policy e).

Definition environment_decode x : DshEnvironment :=
  let '(v, i, l, (m, p, c, a), h, pr, n, (ho, po), o, q) := x in
  {| schema_version := v; id := i; label := l;
     harness := {| mode := mode_decode m; path := p; cwd := c; args := a |};
     dsh_home := h; profile := pr; node_path := n; endpoint := {| host := ho; port := port_decode po |};
     ownership := ownership_decode o;
     policy := (fun y : option bool * option bool =>
                  {| auto_restart_on_crash := y.1; allow_native_adapter := y.2 |}) <$> q |}.

Lemma environment_back e : environment_decode (environment_code e) = e.
Proof. by destruct e as [? ? ? [[] ? ? ?] ? ? ? [? []] [] [[]|]]. Qed.

Definition catalog_code (c : EnvironmentCatalog) :=
  (cat_schema_version c, revision c, active_environment_id c, map environment_code (environments c)).

Fixpoint to_bits (p : positive) : list N :=
  match p with xH => [] | xO p => 48%N :: to_bits p | xI p => 49%N :: to_bits p end.
Fixpoint of_bits (b : list N) : positive :=
  match b with [] => xH | x :: b => if (x =? 48)%N then xO (of_bits b) else if (x =? 49)%N then xI (of_bits b) else xH end.

Lemma bits_back p : of_bits (to_bits p ++ [10%N]) = p.
Proof. induction p as [p IH|p IH|]; cbn; by rewrite ?IH. Qed.

#[export] Instance codec : CatalogJson := {|
  to_vec_pretty := fun c => Some (to_bits (encode (catalog_code c)));
  from_slice := fun b =>
    '(v, r, a, es) ← decode (of_bits b);
    Some {| cat_schema_version := v; revision := r; active_environment_id := a;
            environments := map environment_decode es |} |}.

#[export] Instance codec_laws : CatalogJsonLaws.
Proof.
  split; [by eauto |]. intros c b [= <-]. cbn. rewrite bits_back, decode_encode. cbn.
  destruct c as [v r a es]. cbn. do 2 f_equal. rewrite map_map. rewrite <- (map_id es) at 2.
  apply map_ext, environment_back.
Qed.

Import LocalShell.

Definition sound : Machine := {| fault := fun _ => Works; create_mode := 420; create_dir_mode := 493 |}.
(** The process ends in the [n]th call. *)
Definition dies_at (n : nat) : Machine :=
  {| fault := fun i => if (i =? n)%nat then Stops 0 else Works; create_mode := 420; create_dir_mode := 493 |}.

Definition dir : FilePath := [RootDir; Normal (txt "data")].
Definition file : FilePath := dir ++ [Normal (txt "environments.json")].
Definition empty : Disk := {| files := ∅; dirs := ∅; calls := 0 |}.
Definition saved : Disk := (@run_op _ sound _ file (Save env) empty).2.
Definition restarted (d : Disk) : Disk := {| files := files d; dirs := dirs d; calls := 0 |}.

Lemma store_refines_map_witness :
  match @run_op _ sound _ file (Save env) empty with
  | (Ok c, d') => selected (abstract c) = Some (txt "local") /\ Represents dir (txt "environments.json") (abstract c) d'
  | _ => False
  end.
Proof.
  pose proof (store_refines_map (machine := sound) dir (txt "environments.json") (Save env)
    (abstract default_catalog) empty) as Hs.
  lapply Hs; [clear Hs; intros Hs | done]. lapply Hs; [clear Hs; intros Hs | done].
  lapply Hs; [clear Hs; intros Hs |].
  - assert (Hspec : spec_step (Save env) (abstract default_catalog) =
      Ok {| entries := {[id env := env]}; selected := Some (txt "local"); rev_no := 1 |}) by (by vm_compute).
    rewrite Hspec in Hs. change (dir ++ [Normal (txt "environments.json")]) with file in Hs.
    destruct (@run_op _ sound _ file (Save env) empty) as [[c|[]] d']; [| done..].
    destruct Hs as [Ha Hr]. rewrite Ha. by split.
  - split.
    + split; [apply List.Forall_forall; intros a _; apply lookup_empty | by split_and!].
    + exists default_catalog. by split_and!.
Defined.

Lemma catalog_never_lost_witness :
  match @write_catalog (dies_at 13) _ file default_catalog (restarted saved) with
  | (Ok _, d') => True
  | (Err _, d') => contents d' !! file = contents saved !! file \/ is_Some (contents d' !! file) \/
                   contents d' !! (dir ++ [Normal (txt "environments.json.bak")]) = contents saved !! file
  end.
Proof.
  assert (Hold : exists old, contents saved !! file = Some old).
  { assert (Hb : bool_decide (is_Some (contents saved !! file)) = true) by (by vm_compute).
    apply bool_decide_eq_true in Hb as [old Ho]. by exists old. }
  destruct Hold as [old Ho].
  pose proof (catalog_never_lost (machine := dies_at 13) file (dir ++ [Normal (txt "environments.json.next")])
    (dir ++ [Normal (txt "environments.json.bak")]) default_catalog old
    (to_bits (encode (catalog_code default_catalog))) (restarted saved)) as Hc.
  specialize (Hc eq_refl eq_refl eq_refl Ho). rewrite Ho.
  destruct (write_catalog file default_catalog (restarted saved)) as [[u|e] d']; [done |].
  destruct Hc as [Hc | [Hc | Hc]]; [by left | right; left; by rewrite Hc | by right; right].
Defined.

Lemma daemon_loads_what_shell_saves_witness :
  exists c, Environment.load_catalog true (contents saved !! file) from_slice = Ok c.
Proof.
  assert (Hr : exists c, (@run_op _ sound _ file (Save env) empty).1 = Ok c) by (eexists; vm_compute; reflexivity).
  destruct Hr as [c Hr]. exists c.
  apply (daemon_loads_what_shell_saves (machine := sound) file (Save env) empty saved c).
  rewrite (surjective_pairing (run_op file (Save env) empty)), Hr. reflexivity.
Defined.

(** The window of [write_catalog]: a process that ends between the removal of the
    catalog and the rename leaves no catalog file, and the next start reads an
    empty catalog without an error, although the backup holds the previous one
    and the side file the new one. *)
Definition interrupted : Disk := (@write_catalog (dies_at 13) _ file default_catalog (restarted saved)).2.

Example crash_reads_as_empty :
  (contents saved !! file <> None) /\
  (@load_catalog sound _ _ file (restarted interrupted)).1 = Ok default_catalog /\
  contents interrupted !! (dir ++ [Normal (txt "environments.json.bak")]) = contents saved !! file.
Proof.
  split_and!; [apply (bool_decide_unpack _); vm_compute; exact I | by vm_compute |].
  apply (bool_decide_unpack _). vm_compute. exact I.
Qed.

(** Two saves later the previous catalog is in no file. *)
Definition other : DshEnvironment :=
  {| schema_version := 1; id := txt "other"; label := txt "Other"; harness := harness env;
     dsh_home := dsh_home env; profile := profile env; node_path := None; endpoint := endpoint env;
     ownership := Managed; policy := None |}.
Definition two_later : Disk :=
  (@run_op _ sound _ file (Save other) (@run_op _ sound _ file (Save other) (restarted interrupted)).2).2.

Example crash_then_saves_lose_catalog :
  match (@load_catalog sound _ _ file (restarted two_later)).1 with
  | Ok c => map id (environments c) = [txt "other"]
  | Err _ => False
  end /\
  Forall (fun kv => content kv.2 <> default [] (contents saved !! file)) (map_to_list (files two_later)).
Proof.
  split; [by vm_compute |]. apply (bool_decide_unpack _). vm_compute. exact I.
Qed.
End LocalCatalog.
