(* ===== verification/SurfacePolicy.v ===== *)
(** * The navigation policy of the DSH surface

    Model of [apps/desktop/src-tauri/src/dsh_surface_policy.rs].  The URL type of
    the [url] crate is the interface [UrlLib]; the address parsers of the standard
    library, which decide what a loopback host is, are written out. *)
From Stdlib Require Import NArith ZArith Lia.
From stdpp Require Import base strings list option pretty.
From S2P Require Import Prelude Text Environment ShellEnvironment.

Definition POLICY_SCHEMA_VERSION : N := 1.
Definition MAX_CANDIDATE_URL_LENGTH : N := 2048.

(** What the code asks of a parsed URL. *)
Class UrlLib := {
  Url : Type;
  url_parse : text -> option Url;
  url_scheme : Url -> text;
  url_username : Url -> text;
  url_password : Url -> option text;
  url_host : Url -> option text;             (* [host_str] *)
  url_port : Url -> option N;                (* [port_or_known_default] *)
  url_origin : Url -> text;                  (* [origin().ascii_serialization()] *)
  url_text : Url -> text                     (* [as_str] *)
}.

(** ** Addresses *)

(** [Parser::read_number] *)
Fixpoint read_digits (radix limit : N) (max_digits : nat) (acc : option N) (count : nat) (s : text) :
    option (N * nat * text) :=
  match s with
  | c :: rest =>
      match to_digit radix c with
      | Some v =>
          let n := (default 0 acc * radix + v)%N in
          if (limit <? n)%N || (max_digits <=? count)%nat then None
          else read_digits radix limit max_digits (Some n) (S count) rest
      | None => n ← acc; Some (n, count, s)
      end
  | [] => n ← acc; Some (n, count, s)
  end.

Definition read_number (radix limit : N) (max_digits : nat) (allow_zero_prefix : bool) (s : text) :
    option (N * text) :=
  '(n, count, rest) ← read_digits radix limit max_digits None 0 s;
  if negb allow_zero_prefix && bool_decide (head s = Some 48%N) && (1 <? count)%nat then None
  else Some (n, rest).

(** [Parser::read_separator]: the separator before every item but the first. *)
Definition read_separator {A} (sep : N) (index : nat) (inner : text -> option (A * text)) (s : text) :
    option (A * text) :=
  if (0 <? index)%nat then
    match s with c :: rest => if (c =? sep)%N then inner rest else None | [] => None end
  else inner s.

(** [Parser::read_ipv4_addr] *)
Fixpoint read_octets (todo index : nat) (s : text) : option (list N * text) :=
  match todo with
  | O => Some ([], s)
  | S todo =>
      '(n, s) ← read_separator 46 index (read_number 10 255 3 false) s;
      '(ns, s) ← read_octets todo (S index) s;
      Some (n :: ns, s)
  end.

Definition read_ipv4_addr (s : text) : option (list N * text) := read_octets 4 0 s.

(** [str::parse::<Ipv4Addr>] *)
Definition parse_ipv4 (s : text) : option (list N) :=
  if (15 <? length s)%nat then None
  else match read_ipv4_addr s with Some (a, []) => Some a | _ => None end.

Definition ipv4_is_loopback (a : list N) : bool := bool_decide (head a = Some 127%N).

(** [read_groups] of [Parser::read_ipv6_addr]: the groups, whether an embedded
    IPv4 address ended them, and the rest. *)
Fixpoint read_groups (todo index : nat) (s : text) : list N * bool * text :=
  match todo with
  | O => ([], false, s)
  | S todo' =>
      match (if (0 <? todo')%nat then read_separator 58 index read_ipv4_addr s else None) with
      | Some ([a; b; c; d], s) => ([(a * 256 + b)%N; (c * 256 + d)%N], true, s)
      | _ =>
          match read_separator 58 index (read_number 16 65535 4 true) s with
          | Some (n, s) => let '(ns, v4, s) := read_groups todo' (S index) s in (n :: ns, v4, s)
          | None => ([], false, s)
          end
      end
  end.

(** [Parser::read_ipv6_addr] *)
Definition read_ipv6_addr (s : text) : option (list N * text) :=
  let '(head_groups, head_ipv4, rest) := read_groups 8 0 s in
  if (length head_groups =? 8)%nat then Some (head_groups, rest)
  else if head_ipv4 then None
  else
    match rest with
    | 58%N :: 58%N :: rest =>
        let '(tail_groups, _, rest) := read_groups (8 - (length head_groups + 1)) 0 rest in
        Some (head_groups ++ repeat 0%N (8 - length head_groups - length tail_groups) ++ tail_groups, rest)
    | _ => None
    end.

(** [str::parse::<Ipv6Addr>] *)
Definition parse_ipv6 (s : text) : option (list N) :=
  match read_ipv6_addr s with Some (a, []) => Some a | _ => None end.

Definition ipv6_is_loopback (a : list N) : bool := bool_decide (a = [0; 0; 0; 0; 0; 0; 0; 1]%N).

(** [str::ends_with], [strip_suffix] *)
Definition ends_with (suf s : text) : bool := starts_with (rev suf) (rev s).
Definition strip_suffix (suf s : text) : option text :=
  if ends_with suf s then Some (take (length s - length suf) s) else None.

(** [is_loopback_host] *)
Definition is_loopback_host (host : text) : bool :=
  let normalized := default host (v ← strip_prefix (txt "[") host; strip_suffix (txt "]") v) in
  if eq_ignore_ascii_case normalized (txt "localhost") || ends_with (txt ".localhost") (to_ascii_lowercase normalized)
  then true
  else if match parse_ipv4 normalized with Some a => ipv4_is_loopback a | None => false end then true
  else match parse_ipv6 normalized with Some a => ipv6_is_loopback a | None => false end.

(** [raw_authority] *)
Fixpoint take_until (stop : N -> bool) (s : text) : text :=
  match s with c :: s => if stop c then [] else c :: take_until stop s | [] => [] end.

Definition raw_authority (candidate : text) : option text :=
  '(_, remainder) ← split_at_first (txt "://") candidate;
  Some (take_until (fun c => (c =? 47) || (c =? 63) || (c =? 35))%N remainder).

(** ** Policy and decisions *)

Inductive NavigationKind := MainFrame | NewWindow | Download | Permission.
Inductive NavigationDisposition := AllowInSurface | DelegateExternal | Deny.
Inductive NavigationReason :=
| SameOrigin | ExternalHttpUserAction | ExternalNavigationNoUserGesture | InvalidUrl | CredentialsForbidden
| SchemeForbidden | LoopbackOriginMismatch | NewWindowDenied | DownloadDenied | PermissionDenied | PolicyUnavailable.

#[export] Instance NavigationKind_eq_dec : EqDecision NavigationKind.
Proof. solve_decision. Defined.
#[export] Instance NavigationDisposition_eq_dec : EqDecision NavigationDisposition.
Proof. solve_decision. Defined.

Record AllowedOrigin := { ao_scheme : text; ao_host : text; ao_port : N }.

Record DshSurfacePolicy := {
  pol_schema_version : N;
  pol_environment_id : text;
  pol_surface_label : string;
  allowed_origin : AllowedOrigin;
  same_origin_main_frame : string;
  external_http_navigation : string;
  pol_new_window : string;
  pol_downloads : string;
  pol_permissions : string;
  pol_privileged_ipc : string;
  pol_dom_injection : string;
  pol_renderer_patch : string;
  automatic_external_open : bool
}.

Record DshSurfaceNavigationRequest := {
  nav_schema_version : N;
  nav_environment_id : text;
  candidate_url : text;
  navigation_kind : NavigationKind;
  user_gesture : bool
}.

Record DshSurfaceNavigationDecision := {
  dec_schema_version : N;
  dec_environment_id : text;
  dec_navigation_kind : NavigationKind;
  candidate_origin : option text;
  disposition : NavigationDisposition;
  reason : NavigationReason;
  user_gesture_required : bool;
  user_confirmation_required : bool;
  privileged_ipc : string;
  open_automatically : bool
}.

Inductive DshSurfacePolicyError := FixedEndpointRequired.

(** [derive_policy] *)
Definition derive_policy (e : DshEnvironment) : result DshSurfacePolicyError DshSurfacePolicy :=
  port ← ok_or FixedEndpointRequired (fixed_loopback_port e);
  Ok {| pol_schema_version := POLICY_SCHEMA_VERSION; pol_environment_id := id e;
        pol_surface_label := "dsh-surface";
        allowed_origin := {| ao_scheme := txt "http"; ao_host := txt "127.0.0.1"; ao_port := port |};
        same_origin_main_frame := "allow"; external_http_navigation := "delegate_with_user_action";
        pol_new_window := "deny"; pol_downloads := "deny"; pol_permissions := "deny";
        pol_privileged_ipc := "denied"; pol_dom_injection := "denied"; pol_renderer_patch := "denied";
        automatic_external_open := false |}.

(** [decision], [deny] *)
Definition decision (q : DshSurfaceNavigationRequest) (origin : option text) (d : NavigationDisposition)
    (r : NavigationReason) (gesture confirmation : bool) : DshSurfaceNavigationDecision :=
  {| dec_schema_version := POLICY_SCHEMA_VERSION; dec_environment_id := nav_environment_id q;
     dec_navigation_kind := navigation_kind q; candidate_origin := origin; disposition := d; reason := r;
     user_gesture_required := gesture; user_confirmation_required := confirmation;
     privileged_ipc := "denied"; open_automatically := false |}.

Definition deny (q : DshSurfaceNavigationRequest) (origin : option text) (r : NavigationReason) :
    DshSurfaceNavigationDecision := decision q origin Deny r false false.

Section Policy.
Context {lib : UrlLib}.

Definition http_or_https (u : Url) : bool :=
  bool_decide (url_scheme u = txt "http") || bool_decide (url_scheme u = txt "https").

(** [safe_parsed_origin], [safe_origin] *)
Definition safe_parsed_origin (u : Url) : option text :=
  if negb (http_or_https u) then None
  else
    let origin := url_origin u in
    if negb (bool_decide (origin = txt "null")) && (utf8_len origin <=? 256)%N then Some origin else None.

Definition safe_origin (candidate : text) : option text :=
  if (MAX_CANDIDATE_URL_LENGTH <? utf8_len candidate)%N then None
  else u ← url_parse candidate; safe_parsed_origin u.

(** [format!("{}:{}", host, port)] *)
Definition exact_authority (o : AllowedOrigin) : text := ao_host o ++ txt ":" ++ txt (pretty (ao_port o)).

Definition same_origin (o : AllowedOrigin) (candidate : text) (u : Url) : bool :=
  bool_decide (url_scheme u = ao_scheme o) && bool_decide (url_host u = Some (ao_host o)) &&
  bool_decide (url_port u = Some (ao_port o)) && bool_decide (raw_authority candidate = Some (exact_authority o)).

(** [evaluate_navigation] *)
Definition evaluate_navigation (e : DshEnvironment) (q : DshSurfaceNavigationRequest) : DshSurfaceNavigationDecision :=
  if negb (nav_schema_version q =? POLICY_SCHEMA_VERSION)%N || negb (bool_decide (nav_environment_id q = id e))
  then deny q None PolicyUnavailable
  else
    match derive_policy e with
    | Err _ => deny q None PolicyUnavailable
    | Ok policy =>
        match navigation_kind q with
        | NewWindow => deny q (safe_origin (candidate_url q)) NewWindowDenied
        | Download => deny q (safe_origin (candidate_url q)) DownloadDenied
        | Permission => deny q (safe_origin (candidate_url q)) PermissionDenied
        | MainFrame =>
            if bool_decide (candidate_url q = []) || (MAX_CANDIDATE_URL_LENGTH <? utf8_len (candidate_url q))%N
            then deny q None InvalidUrl
            else
              match url_parse (candidate_url q) with
              | None => deny q None InvalidUrl
              | Some u =>
                  let origin := safe_parsed_origin u in
                  if negb (bool_decide (url_username u = [])) || bool_decide (is_Some (url_password u))
                  then deny q origin CredentialsForbidden
                  else if negb (http_or_https u) then deny q origin SchemeForbidden
                  else if same_origin (allowed_origin policy) (candidate_url q) u
                  then decision q origin AllowInSurface SameOrigin false false
                  else if match url_host u with Some h => is_loopback_host h | None => false end
                  then deny q origin LoopbackOriginMismatch
                  else if negb (user_gesture q) then deny q origin ExternalNavigationNoUserGesture
                  else decision q origin DelegateExternal ExternalHttpUserAction true true
              end
        end
    end.
End Policy.

(** ** What the policy decides *)

Section Decisions.
Context {lib : UrlLib}.

(** A main-frame request for this environment, with a usable URL that carries no
    credentials. *)
Definition plain_request (e : DshEnvironment) (q : DshSurfaceNavigationRequest) (port : N) (u : Url) : Prop :=
  nav_schema_version q = 1%N /\ nav_environment_id q = id e /\ navigation_kind q = MainFrame /\
  fixed_loopback_port e = Some port /\
  candidate_url q <> [] /\ (utf8_len (candidate_url q) <= 2048)%N /\ url_parse (candidate_url q) = Some u /\
  url_username u = [] /\ url_password u = None.

(** The URL is the surface's own origin, parsed and as written. *)
Definition own_origin (q : DshSurfaceNavigationRequest) (port : N) (u : Url) : Prop :=
  url_scheme u = txt "http" /\ url_host u = Some (txt "127.0.0.1") /\ url_port u = Some port /\
  raw_authority (candidate_url q) = Some (txt "127.0.0.1:" ++ txt (pretty port)).

Definition external (u : Url) : Prop :=
  (url_scheme u = txt "http" \/ url_scheme u = txt "https") /\
  forall h, url_host u = Some h -> is_loopback_host h = false.

Lemma same_origin_iff q port u :
  same_origin {| ao_scheme := txt "http"; ao_host := txt "127.0.0.1"; ao_port := port |} (candidate_url q) u = true
  <-> own_origin q port u.
Proof.
  unfold same_origin, own_origin, exact_authority. cbn [ao_scheme ao_host ao_port].
  rewrite !andb_true_iff, !bool_decide_eq_true.
  change (txt "127.0.0.1" ++ txt ":" ++ txt (pretty port)) with (txt "127.0.0.1:" ++ txt (pretty port)). tauto.
Qed.

Lemma http_or_https_iff u : http_or_https u = true <-> url_scheme u = txt "http" \/ url_scheme u = txt "https".
Proof. unfold http_or_https. by rewrite orb_true_iff, !bool_decide_eq_true. Qed.

(** The main-frame branch, after the guards. *)
Lemma evaluate_plain e q port u :
  plain_request e q port u ->
  disposition (evaluate_navigation e q) =
    (if negb (http_or_https u) then Deny
     else if same_origin {| ao_scheme := txt "http"; ao_host := txt "127.0.0.1"; ao_port := port |} (candidate_url q) u
     then AllowInSurface
     else if match url_host u with Some h => is_loopback_host h | None => false end then Deny
     else if negb (user_gesture q) then Deny else DelegateExternal).
Proof.
  intros (Hv & Hid & Hk & Hp & Hne & Hlen & Hu & Hn & Hpw). unfold evaluate_navigation, derive_policy.
  rewrite Hv, Hid, Hk, Hp, Hu, Hn, Hpw, !bool_decide_true, (bool_decide_false (candidate_url q = [])) by done. cbn [orb negb].
  rewrite (proj2 (N.ltb_ge MAX_CANDIDATE_URL_LENGTH _)) by exact Hlen. cbn -[same_origin http_or_https is_loopback_host].
  destruct (http_or_https u); [| done]. cbn [negb]. destruct (same_origin _ _ _); [done |].
  destruct (match url_host u with Some h => is_loopback_host h | None => false end); [done |].
  by destruct (user_gesture q).
Qed.

(** Everything else is denied. *)
Lemma evaluate_other e q :
  (forall port u, ~ plain_request e q port u) -> disposition (evaluate_navigation e q) = Deny.
Proof.
  intros Hno. unfold evaluate_navigation, derive_policy.
  destruct (N.eqb_spec (nav_schema_version q) POLICY_SCHEMA_VERSION) as [Hv|]; [| done].
  case_bool_decide as Hid; [| done]. cbn [orb negb].
  destruct (fixed_loopback_port e) as [port|] eqn:Hp; [| done]. cbn [ok_or mbind result_bind].
  cbn -[safe_origin safe_parsed_origin http_or_https same_origin is_loopback_host].
  destruct (navigation_kind q) eqn:Hk; [| done..].
  case_bool_decide as Hne; [done |]. cbn [orb].
  destruct (N.ltb_spec MAX_CANDIDATE_URL_LENGTH (utf8_len (candidate_url q))) as [|Hlen]; [done |].
  destruct (url_parse (candidate_url q)) as [u|] eqn:Hu; [| done].
  case_bool_decide as Hn; [| done]. cbn [orb negb]. destruct (url_password u) as [w|] eqn:Hw; [by rewrite bool_decide_true |].
  by destruct (Hno port u).
Qed.

Lemma plain_or_not e q : (exists port u, plain_request e q port u) \/ (forall port u, ~ plain_request e q port u).
Proof.
  unfold plain_request.
  destruct (fixed_loopback_port e) as [port|]; [| right; naive_solver].
  destruct (url_parse (candidate_url q)) as [u|]; [| right; naive_solver].
  destruct (decide (nav_schema_version q = 1%N /\ nav_environment_id q = id e /\ navigation_kind q = MainFrame /\
    candidate_url q <> [] /\ (utf8_len (candidate_url q) <= 2048)%N /\ url_username u = [] /\ url_password u = None));
    [left; naive_solver | right; naive_solver].
Qed.

Lemma plain_unique e q port u port' u' : plain_request e q port u -> plain_request e q port' u' -> port' = port /\ u' = u.
Proof. unfold plain_request. intuition congruence. Qed.

(** Every decision is built by [decision]. *)
Lemma evaluate_shape e q :
  exists o d r g c, evaluate_navigation e q = decision q o d r g c /\ (d = DelegateExternal -> g = true /\ c = true).
Proof.
  assert (Hdeny : forall o r, exists o' d r' g c, deny q o r = decision q o' d r' g c /\ (d = DelegateExternal -> g = true /\ c = true))
    by (intros o r; by exists o, Deny, r, false, false).
  assert (Hdec : forall o d r g c, (d = DelegateExternal -> g = true /\ c = true) ->
    exists o' d' r' g' c', decision q o d r g c = decision q o' d' r' g' c' /\ (d' = DelegateExternal -> g' = true /\ c' = true))
    by (intros o d r g c Hg; by exists o, d, r, g, c).
  unfold evaluate_navigation. destruct (_ || _); [apply Hdeny |]. destruct (derive_policy e); [| apply Hdeny].
  destruct (navigation_kind q); [| apply Hdeny..]. destruct (_ || _); [apply Hdeny |].
  destruct (url_parse _); [| apply Hdeny].
  repeat match goal with |- context [if ?b then _ else _] => destruct b end; try apply Hdeny; by apply Hdec.
Qed.
End Decisions.

(** What the navigation policy decides: a navigation stays in the surface
    exactly when it is a main-frame request without credentials whose URL is the
    environment's own loopback origin, parsed and as written; it is handed to the
    system browser exactly when such a request is for another http or https
    origin that is not loopback and the user acted, and then the user has to
    confirm; privileged IPC is denied and nothing opens by itself in every case. *)
Theorem navigation_policy_decides {lib : UrlLib} (e : DshEnvironment) (q : DshSurfaceNavigationRequest) :
  let d := evaluate_navigation e q in
  (disposition d = AllowInSurface <-> exists port u, plain_request e q port u /\ own_origin q port u) /\
  (disposition d = DelegateExternal <->
     exists port u, plain_request e q port u /\ ~ own_origin q port u /\ external u /\ user_gesture q = true) /\
  (disposition d = DelegateExternal -> user_gesture_required d = true /\ user_confirmation_required d = true) /\
  privileged_ipc d = "denied" /\ open_automatically d = false.
Proof.
  cbn zeta. destruct (evaluate_shape e q) as (o & d & r & g & c & Hs & Hg).
  assert (Htail : (disposition (evaluate_navigation e q) = DelegateExternal ->
      user_gesture_required (evaluate_navigation e q) = true /\ user_confirmation_required (evaluate_navigation e q) = true) /\
    privileged_ipc (evaluate_navigation e q) = "denied" /\ open_automatically (evaluate_navigation e q) = false)
    by (rewrite Hs; by split_and!).
  apply and_assoc. split; [| exact Htail]. clear o d r g c Hs Hg Htail.
  destruct (plain_or_not e q) as [(port & u & Hp)|Hno].
  - rewrite (evaluate_plain _ _ _ _ Hp). pose proof (same_origin_iff q port u) as Ho.
    pose proof (http_or_https_iff u) as Hh. unfold external.
    assert (Hex : forall P : N -> Url -> Prop, (exists port u, plain_request e q port u /\ P port u) <-> P port u).
    { intros P. split; [| by eauto]. intros (port' & u' & Hp' & HP).
      by destruct (plain_unique _ _ _ _ _ _ Hp Hp') as [-> ->]. }
    rewrite !Hex.
    assert (Hloop : match url_host u with Some h => is_loopback_host h | None => false end = false <->
      forall h, url_host u = Some h -> is_loopback_host h = false)
      by (destruct (url_host u); naive_solver).
    assert (Hhttp : own_origin q port u -> http_or_https u = true)
      by (intros Hown; apply Hh; left; apply Hown).
    destruct (http_or_https u), (same_origin _ _ _),
      (match url_host u with Some h => is_loopback_host h | None => false end), (user_gesture q); cbn; naive_solver.
  - rewrite (evaluate_other _ _ Hno). split; split; [done | naive_solver | done | naive_solver].
Qed.

(** ** Witnesses *)

(** The policy at work on hosts. *)
Example loopback_hosts :
  map (fun h => is_loopback_host (txt h))
    ["localhost"; "LOCALHOST"; "api.localhost"; "127.0.0.1"; "127.255.1.2"; "[::1]"; "::1"; "0:0:0:0:0:0:0:1";
     "128.0.0.1"; "127.0.0.01"; "127.0.0.1.example"; "[::2]"; "example.org"; "[::ffff:127.0.0.1]"]
  = [true; true; true; true; true; true; true; true; false; false; false; false; false; false].
Proof. by vm_compute. Qed.
