(* ===== verification/Surface.v ===== *)
(** * The DSH surface

    Model of [apps/desktop/src-tauri/src/dsh_surface.rs]: the record of the
    surface behind its lock, the child web view it stands for, and the operations
    on both.  What the native side answers is an argument of each operation; what
    the web view does on its own (navigations, page loads, completed navigations)
    are events, which run the closures the mount installed.  A command runs as one
    step; events happen between commands. *)
From Stdlib Require Import NArith ZArith QArith Lia.
From stdpp Require Import base strings list option.
From S2P Require Import Prelude Text Environment ShellEnvironment SurfacePolicy.

Definition SCHEMA_VERSION : N := 1.
Definition SURFACE_LABEL : string := "dsh-surface".

(** ** Requests *)

(** An [f64]. *)
Inductive F64 := Finite (q : Q) | NotFinite.

(** [(lo..=hi).contains(&v)] *)
Definition f64_within (lo hi : Q) (v : F64) : bool :=
  match v with Finite q => Qle_bool lo q && Qle_bool q hi | NotFinite => false end.

Record DshSurfaceBounds := { x : F64; y : F64; width : F64; height : F64 }.

(** [DshSurfaceBounds::is_valid]: the ranges exclude what is not finite. *)
Definition bounds_valid (b : DshSurfaceBounds) : bool :=
  forallb (fun v => match v with Finite _ => true | NotFinite => false end) [x b; y b; width b; height b] &&
  f64_within 0 32768 (x b) && f64_within 0 32768 (y b) &&
  f64_within 320 16384 (width b) && f64_within 240 16384 (height b).

(** [valid_common] *)
Definition valid_common (version : N) (environment_id : text) (generation : N) : bool :=
  (version =? SCHEMA_VERSION)%N && is_valid_id environment_id && (0 <? generation)%N.

Record SurfaceTarget := { schema_version : N; environment_id : text; expected_generation : N }.

(** [DshSurfaceMountRequest] and [DshSurfaceLayoutRequest] *)
Record DshSurfaceMountRequest := { target : SurfaceTarget; bounds : DshSurfaceBounds; visible : bool }.

(** [is_valid] of the status, reload and unmount requests, and of the other two. *)
Definition target_valid (t : SurfaceTarget) : bool :=
  valid_common (schema_version t) (environment_id t) (expected_generation t).
Definition mount_valid (q : DshSurfaceMountRequest) : bool := target_valid (target q) && bounds_valid (bounds q).

(** ** State *)

Inductive SurfaceLifecycleState :=
| Unmounted | Mounting | Loading | SurfaceReady | Hidden | SurfaceFailed | Stale | UnsupportedPlatform.

#[export] Instance SurfaceLifecycleState_eq_dec : EqDecision SurfaceLifecycleState.
Proof. solve_decision. Defined.

Definition lifecycle_as_str (s : SurfaceLifecycleState) : string :=
  match s with
  | Unmounted => "unmounted" | Mounting => "mounting" | Loading => "loading" | SurfaceReady => "ready"
  | Hidden => "hidden" | SurfaceFailed => "error" | Stale => "stale" | UnsupportedPlatform => "unsupported_platform"
  end.

Inductive SurfacePlatform := OnWindows | Macos | Linux | OtherPlatform.

(** [SurfacePlatform::current] *)
Definition current_platform (windows macos linux : bool) : SurfacePlatform :=
  if windows then OnWindows else if macos then Macos else if linux then Linux else OtherPlatform.

Definition platform_as_str (p : SurfacePlatform) : string :=
  match p with OnWindows => "windows" | Macos => "macos" | Linux => "linux" | OtherPlatform => "other" end.

Record SurfaceErrorReport := { err_code : string; err_reason : string; err_message : string }.

Record SurfaceRecord := {
  rec_environment_id : text;
  rec_generation : N;
  rec_port : N;
  rec_state : SurfaceLifecycleState;
  rec_bounds : option DshSurfaceBounds;
  rec_visible : bool;
  rec_error : option SurfaceErrorReport
}.

(** [SurfaceRecord::report]: the fields that vary; the policy and the origin's
    scheme and host are constants. *)
Record DshSurfaceStatus := { st_record : SurfaceRecord; st_platform : SurfacePlatform }.

Inductive DshSurfaceError := MalformedRequest | StaleSurfaceGeneration | SurfaceUnavailable | SurfaceStateUnavailable.

Section Surface.
Context {lib : UrlLib} (platform : SurfacePlatform).

(** The child web view: what the closures captured, the gate's flag, whether the
    deny hooks are in place, whether the Shell has called [navigate] on it, and
    the URLs its gate let load, newest first. *)
Record WebView := {
  wv_environment_id : text;
  wv_generation : N;
  wv_port : N;
  wv_blocked : bool;
  wv_hooks : bool;
  wv_visible : bool;
  wv_navigated : bool;
  documents : list Url
}.

Record Surface := { record : option SurfaceRecord; webview : option WebView }.

Definition set_record (r : option SurfaceRecord) (s : Surface) : Surface :=
  {| record := r; webview := webview s |}.
Definition set_webview (w : option WebView) (s : Surface) : Surface :=
  {| record := record s; webview := w |}.

Definition report (r : SurfaceRecord) : DshSurfaceStatus := {| st_record := r; st_platform := platform |}.

Definition Op A := M Surface DshSurfaceError A.

(** [DshSurfaceState::replace] *)
Definition replace_record (r : SurfaceRecord) : Op DshSurfaceStatus :=
  modify (set_record (Some r));; mret (report r).

Definition with_state (s : SurfaceLifecycleState) (e : option SurfaceErrorReport) (r : SurfaceRecord) : SurfaceRecord :=
  {| rec_environment_id := rec_environment_id r; rec_generation := rec_generation r; rec_port := rec_port r;
     rec_state := s; rec_bounds := rec_bounds r; rec_visible := rec_visible r; rec_error := e |}.

Definition belongs (i : text) (g : N) (r : SurfaceRecord) : bool :=
  bool_decide (rec_environment_id r = i) && (rec_generation r =? g)%N.

(** [DshSurfaceState::transition] *)
Definition transition (i : text) (g : N) (state : SurfaceLifecycleState) (e : option SurfaceErrorReport)
    (s : Surface) : Surface :=
  match record s with
  | Some r =>
      if belongs i g r then
        set_record (Some (with_state (if bool_decide (state = SurfaceReady) && negb (rec_visible r) then Hidden else state) e r)) s
      else s
  | None => s
  end.

(** [surface_operation_failed] *)
Definition surface_operation_failed {A} (i : text) (g : N) (why : string) : Op A :=
  modify (transition i g SurfaceFailed
    (Some {| err_code := "UNAVAILABLE"; err_reason := why; err_message := "Native DSH Surface operation failed." |}));;
  throw SurfaceUnavailable.

(** [unsupported_platform_record] *)
Definition unsupported_platform_record (i : text) (g port : N) : SurfaceRecord :=
  {| rec_environment_id := i; rec_generation := g; rec_port := port; rec_state := UnsupportedPlatform;
     rec_bounds := None; rec_visible := false;
     rec_error := Some {| err_code := "UNAVAILABLE"; err_reason := "unsupported_platform";
                          err_message := "Native DSH Surface is not enabled on this platform." |} |}.

Record VerifiedSurfaceBinding := { b_generation : N; b_port : N; b_url : Url }.

(** ** The gates *)

(** [is_bootstrap_url] *)
Definition is_bootstrap_url (u : Url) : bool :=
  bool_decide (url_scheme u = txt "about") && bool_decide (url_text u = txt "about:blank").

(** [is_exact_surface_origin] *)
Definition is_exact_surface_origin (u : Url) (port : N) : bool :=
  bool_decide (url_scheme u = txt "http") && bool_decide (url_username u = []) &&
  bool_decide (url_password u = None) && bool_decide (url_host u = Some (txt "127.0.0.1")) &&
  bool_decide (url_port u = Some port).

(** The closure of [on_navigation]: what it lets load, and the flag it leaves. *)
Definition on_navigation (u : Url) (w : WebView) : WebView :=
  let allowed := is_bootstrap_url u || is_exact_surface_origin u (wv_port w) in
  {| wv_environment_id := wv_environment_id w; wv_generation := wv_generation w; wv_port := wv_port w;
     wv_blocked := negb allowed; wv_hooks := wv_hooks w; wv_visible := wv_visible w; wv_navigated := wv_navigated w;
     documents := if allowed then u :: documents w else documents w |}.

(** [on_new_window], [on_download] and the permission handler. *)
Definition on_new_window : bool := false.
Definition on_download : bool := false.
Definition on_permission : bool := false.

Inductive PageLoadEvent := Started | Finished.

(** The closure of [on_page_load]. *)
Definition on_page_load (w : WebView) (event : PageLoadEvent) (u : Url) (s : Surface) : Surface :=
  if negb (is_exact_surface_origin u (wv_port w)) then s
  else transition (wv_environment_id w) (wv_generation w)
         (match event with Started => Loading | Finished => SurfaceReady end) None s.

(** The handler of [NavigationCompleted], installed with the deny hooks. *)
Definition on_navigation_completed (succeeded : bool) (s : Surface) : Surface :=
  match webview s with
  | Some w =>
      if negb (wv_hooks w) then s
      else
        let denied := wv_blocked w in
        let w' := {| wv_environment_id := wv_environment_id w; wv_generation := wv_generation w; wv_port := wv_port w;
                     wv_blocked := false; wv_hooks := wv_hooks w; wv_visible := wv_visible w;
                     wv_navigated := wv_navigated w; documents := documents w |} in
        let s := set_webview (Some w') s in
        if negb succeeded && negb denied then
          transition (wv_environment_id w) (wv_generation w) SurfaceFailed
            (Some {| err_code := "UNAVAILABLE"; err_reason := "surface_operation_failed";
                     err_message := "Native DSH Surface navigation failed." |}) s
        else s
  | None => s
  end.

(** ** Operations *)

(** What the native calls of one command answer; [abandon_ok] is the answer to
    the [close] a failed mount makes and whose error it ignores. *)
Record Native := {
  has_shell_window : bool; add_child_ok : bool; hide_ok : bool; hooks_ok : bool; navigate_ok : bool;
  abandon_ok : bool; close_ok : bool; layout_ok : bool; reload_ok : bool
}.

Context (n : Native).

(** [close_existing] *)
Definition close_existing : Op unit :=
  s ← gets (fun s => s);
  match webview s with
  | Some _ => if close_ok n then modify (set_webview None) else throw SurfaceUnavailable
  | None => mret tt
  end.

(** The record's new state in [update_existing_layout]. *)
Definition layout_state (visible : bool) (s : SurfaceLifecycleState) : SurfaceLifecycleState :=
  match visible, s with
  | false, (SurfaceReady | Hidden) => Hidden
  | true, Hidden => SurfaceReady
  | _, other => other
  end.

(** [update_existing_layout] *)
Definition update_existing_layout (b : DshSurfaceBounds) (v : bool) : Op DshSurfaceStatus :=
  s ← gets (fun s => s);
  match webview s with
  | None => throw SurfaceUnavailable
  | Some w =>
      if negb (layout_ok n) then throw SurfaceUnavailable
      else
        modify (set_webview (Some
          {| wv_environment_id := wv_environment_id w; wv_generation := wv_generation w; wv_port := wv_port w;
             wv_blocked := wv_blocked w; wv_hooks := wv_hooks w; wv_visible := v; wv_navigated := wv_navigated w;
             documents := documents w |}));;
        match record s with
        | None => throw SurfaceUnavailable
        | Some r =>
            replace_record {| rec_environment_id := rec_environment_id r; rec_generation := rec_generation r;
                              rec_port := rec_port r; rec_state := layout_state v (rec_state r);
                              rec_bounds := Some b; rec_visible := v; rec_error := rec_error r |}
        end
  end.

(** [state.current()?.map(|record| record.report()).ok_or(StateUnavailable)] *)
Definition current_report : Op DshSurfaceStatus :=
  s ← gets (fun s => s);
  match record s with Some r => mret (report r) | None => throw SurfaceStateUnavailable end.

(** [let _ = webview.close()]: a close that fails leaves the view. *)
Definition abandon (s : Surface) : Surface := if abandon_ok n then set_webview None s else s.

Definition on_view (f : WebView -> WebView) (s : Surface) : Surface := set_webview (f <$> webview s) s.

(** The fields the steps of a mount set. *)
Definition shown (v : bool) (w : WebView) : WebView :=
  {| wv_environment_id := wv_environment_id w; wv_generation := wv_generation w; wv_port := wv_port w;
     wv_blocked := wv_blocked w; wv_hooks := wv_hooks w; wv_visible := v; wv_navigated := wv_navigated w;
     documents := documents w |}.
Definition hooked (w : WebView) : WebView :=
  {| wv_environment_id := wv_environment_id w; wv_generation := wv_generation w; wv_port := wv_port w;
     wv_blocked := wv_blocked w; wv_hooks := true; wv_visible := wv_visible w; wv_navigated := wv_navigated w;
     documents := documents w |}.
Definition navigated (w : WebView) : WebView :=
  {| wv_environment_id := wv_environment_id w; wv_generation := wv_generation w; wv_port := wv_port w;
     wv_blocked := wv_blocked w; wv_hooks := wv_hooks w; wv_visible := wv_visible w; wv_navigated := true;
     documents := documents w |}.

(** [mount_windows_surface] *)
Definition mount_windows_surface (b : VerifiedSurfaceBinding) (q : DshSurfaceMountRequest) : Op DshSurfaceStatus :=
  let i := environment_id (target q) in
  let g := expected_generation (target q) in
  if negb (has_shell_window n) then throw SurfaceUnavailable
  else if negb (add_child_ok n) then surface_operation_failed i g "surface_create_failed"
  else
    modify (set_webview (Some {| wv_environment_id := i; wv_generation := g; wv_port := b_port b; wv_blocked := false;
                                 wv_hooks := false; wv_visible := true; wv_navigated := false; documents := [] |}));;
    if negb (visible q) && negb (hide_ok n) then
      modify abandon;; surface_operation_failed i g "surface_operation_failed"
    else
      (if visible q then mret tt else modify (on_view (shown false)));;
      if negb (hooks_ok n) then
        modify abandon;; surface_operation_failed i g "surface_create_failed"
      else
        modify (on_view hooked);;
        modify (transition i g Loading None);;
        modify (on_view navigated);;
        if negb (navigate_ok n) then
          modify abandon;; surface_operation_failed i g "surface_operation_failed"
        else
          modify (on_view (on_navigation (b_url b)));;
          current_report.

(** The end of [mount_surface], once no other view is open. *)
Definition install_surface (b : VerifiedSurfaceBinding) (q : DshSurfaceMountRequest) : Op DshSurfaceStatus :=
  let i := environment_id (target q) in
  let g := expected_generation (target q) in
  replace_record {| rec_environment_id := i; rec_generation := g; rec_port := b_port b; rec_state := Mounting;
                    rec_bounds := Some (bounds q); rec_visible := visible q; rec_error := None |};;
  match platform with
  | OnWindows => mount_windows_surface b q
  | _ => replace_record (unsupported_platform_record i g (b_port b))
  end.

(** [mount_surface] *)
Definition mount_surface (b : VerifiedSurfaceBinding) (q : DshSurfaceMountRequest) : Op DshSurfaceStatus :=
  let i := environment_id (target q) in
  let g := expected_generation (target q) in
  if negb (mount_valid q) || negb (g =? b_generation b)%N then throw MalformedRequest
  else
    s ← gets (fun s => s);
    match record s with
    | Some r =>
        if belongs i g r && (rec_port r =? b_port b)%N && bool_decide (is_Some (webview s))
        then update_existing_layout (bounds q) (visible q)
        else close_existing;; install_surface b q
    | None => close_existing;; install_surface b q
    end.

(** [matching_record] *)
Definition matching_record (i : text) (g port : N) : Op SurfaceRecord :=
  s ← gets (fun s => s);
  match record s with
  | Some r => if belongs i g r && (rec_port r =? port)%N then mret r else throw StaleSurfaceGeneration
  | None => throw SurfaceUnavailable
  end.

(** [get_surface_status] *)
Definition get_surface_status (b : VerifiedSurfaceBinding) (t : SurfaceTarget) : Op DshSurfaceStatus :=
  if negb (target_valid t) || negb (expected_generation t =? b_generation b)%N then throw MalformedRequest
  else
    s ← gets (fun s => s);
    let blank state e := report
      {| rec_environment_id := environment_id t; rec_generation := expected_generation t; rec_port := b_port b;
         rec_state := state; rec_bounds := None; rec_visible := false; rec_error := e |} in
    mret match record s with
         | Some r =>
             if belongs (environment_id t) (expected_generation t) r && (rec_port r =? b_port b)%N then report r
             else blank Stale (Some {| err_code := "STALE_GENERATION"; err_reason := "stale_generation";
                    err_message := "The previous DSH Surface belongs to another generation." |})
         | None => blank Unmounted None
         end.

(** [update_surface_layout] *)
Definition update_surface_layout (b : VerifiedSurfaceBinding) (q : DshSurfaceMountRequest) : Op DshSurfaceStatus :=
  let t := target q in
  if negb (mount_valid q) || negb (expected_generation t =? b_generation b)%N then throw MalformedRequest
  else
    r ← matching_record (environment_id t) (expected_generation t) (b_port b);
    if bool_decide (rec_state r = UnsupportedPlatform) then mret (report r)
    else update_existing_layout (bounds q) (visible q).

(** [reload_surface] *)
Definition reload_surface (b : VerifiedSurfaceBinding) (t : SurfaceTarget) : Op DshSurfaceStatus :=
  let i := environment_id t in
  let g := expected_generation t in
  if negb (target_valid t) || negb (g =? b_generation b)%N then throw MalformedRequest
  else
    matching_record i g (b_port b);;
    s ← gets (fun s => s);
    match webview s with
    | None => throw SurfaceUnavailable
    | Some _ =>
        modify (transition i g Loading None);;
        if negb (reload_ok n) then surface_operation_failed i g "surface_operation_failed"
        else current_report
    end.

(** [force_unmount] *)
Definition force_unmount (i : text) (g : N) : Op unit :=
  close_existing;;
  modify (fun s =>
    match record s with
    | Some r =>
        if belongs i g r then
          set_record (Some {| rec_environment_id := rec_environment_id r; rec_generation := rec_generation r;
                              rec_port := rec_port r; rec_state := Unmounted; rec_bounds := None;
                              rec_visible := false; rec_error := None |}) s
        else s
    | None => s
    end).

(** [unmount_surface] *)
Definition unmount_surface (t : SurfaceTarget) : Op DshSurfaceStatus :=
  if negb (target_valid t) then throw MalformedRequest
  else
    s ← gets (fun s => s);
    match record s with
    | None => throw SurfaceUnavailable
    | Some r =>
        if negb (belongs (environment_id t) (expected_generation t) r) then throw StaleSurfaceGeneration
        else force_unmount (environment_id t) (expected_generation t);; current_report
    end.

(** [sanitize_about_path] *)
Definition sanitize_about_path (rest : text) : text :=
  if bool_decide (rest = []) then []
  else if (utf8_len rest <=? 32)%N &&
          forallb (fun c => is_ascii_alphanumeric c || (c =? 45) || (c =? 95))%N rest then rest
  else txt "<redacted>".
End Surface.
