(* ===== verification/SurfaceFacts.v ===== *)
(** * What the DSH surface guarantees

    The commands and the events of [Surface] as steps, the invariant of the
    record and the web view, and what a force-unmount of another environment
    leaves behind. *)
From Stdlib Require Import NArith ZArith QArith Lia.
From stdpp Require Import base strings list option pretty.
From S2P Require Import Prelude Text Environment ShellEnvironment SurfacePolicy Surface.

Section Steps.
Context {lib : UrlLib} (platform : SurfacePlatform).


























End Steps.


(** What the navigation policy allows in the surface, the gate of the web view
    lets load. *)
Lemma policy_within_gate {lib : UrlLib} e q port u :
  plain_request e q port u -> own_origin q port u -> is_exact_surface_origin u port = true.
Proof.
  intros (_ & _ & _ & _ & _ & _ & _ & Hn & Hp) (Hs & Hh & Hport & _). unfold is_exact_surface_origin.
  by rewrite Hs, Hh, Hport, Hn, Hp, !bool_decide_true.
Qed.

(** ** Witnesses *)

Module LocalSurface.
(** A URL library that knows http URLs of a loopback port. *)
Record U := { u_port : N; u_text : text }.
#[export] Instance urls : UrlLib := {|
  Url := U;
  url_parse := fun s =>
    rest ← strip_prefix (txt "http://127.0.0.1:") s;
    p ← parse_unsigned 10 65535 (take_until (fun c => (c =? 47)%N) rest);
    Some {| u_port := p; u_text := s |};
  url_scheme := fun _ => txt "http"; url_username := fun _ => []; url_password := fun _ => None;
  url_host := fun _ => Some (txt "127.0.0.1"); url_port := fun u => Some (u_port u);
  url_origin := fun u => txt "http://127.0.0.1:" ++ txt (pretty (u_port u)); url_text := u_text
|}.

Definition all_ok : Native :=
  {| has_shell_window := true; add_child_ok := true; hide_ok := true; hooks_ok := true; navigate_ok := true;
     abandon_ok := true; close_ok := true; layout_ok := true; reload_ok := true |}.
Definition home : U := {| u_port := 4100; u_text := txt "http://127.0.0.1:4100/?token=t" |}.
Definition alpha : SurfaceTarget := {| Surface.schema_version := 1; environment_id := txt "alpha"; expected_generation := 3 |}.
Definition box : DshSurfaceBounds := {| x := Finite 0; y := Finite 0; width := Finite 800; height := Finite 600 |}.
Definition mount_request : DshSurfaceMountRequest := {| target := alpha; bounds := box; visible := true |}.
Definition bound : VerifiedSurfaceBinding := {| b_generation := 3; b_port := 4100; b_url := home |}.

Definition empty : Surface := {| record := None; webview := None |}.
Definition mounted : Surface := (mount_surface OnWindows all_ok bound mount_request empty).2.
Definition loaded : Surface :=
  match webview mounted with Some w => on_page_load w Finished home mounted | None => mounted end.


(** The deny hooks fail and so does the close: the view stays, without hooks and
    visible, and a second mount of the same generation adopts it by its layout
    path, reporting success with the state of the failure. *)
Definition no_hooks : Native :=
  {| has_shell_window := true; add_child_ok := true; hide_ok := true; hooks_ok := false; navigate_ok := true;
     abandon_ok := false; close_ok := true; layout_ok := true; reload_ok := true |}.

Example failed_close_leaves_bare_view :
  let s1 := mount_surface OnWindows no_hooks bound mount_request empty in
  let s2 := mount_surface OnWindows all_ok bound mount_request s1.2 in
  s1.1 = Err SurfaceUnavailable /\ option_map wv_hooks (webview s1.2) = Some false /\
  is_ok s2.1 = true /\ option_map rec_state (record s2.2) = Some SurfaceFailed /\
  match webview s2.2 with Some w => wv_visible w && negb (wv_hooks w) && negb (wv_navigated w) | None => false end = true.
Proof. vm_compute. by split_and!. Qed.

(** Stopping another environment closes the view and leaves the record: the status
    of the environment on show still says ready, with no view behind it. *)
Definition after_other_stop : Surface := (force_unmount all_ok (txt "beta") 1 loaded).2.

Example foreign_stop_leaves_ready :
  (webview after_other_stop = None) /\ option_map rec_state (record after_other_stop) = Some SurfaceReady /\
  match (get_surface_status OnWindows bound alpha after_other_stop).1 with
  | Ok st => rec_state (st_record st) = SurfaceReady
  | Err _ => False
  end.
Proof. by vm_compute. Qed.

(** A mount without the shell window leaves the record mounting for good: neither
    an error nor a view. *)
Example mount_without_window :
  let s := mount_surface OnWindows {| has_shell_window := false; add_child_ok := true; hide_ok := true; hooks_ok := true;
    navigate_ok := true; abandon_ok := true; close_ok := true; layout_ok := true; reload_ok := true |} bound mount_request empty in
  s.1 = Err SurfaceUnavailable /\ option_map rec_state (record s.2) = Some Mounting /\ webview s.2 = None.
Proof. by vm_compute. Qed.
End LocalSurface.
