(* ===== verification/FileManager.v ===== *)
(** * The Shell's file manager

    Model of [apps/desktop/src-tauri/src/file_manager.rs] on a Unix file tree with
    symbolic links.  A node is found under its physical path, the names from the
    root of the file system with no link among them; [canonicalize] walks a path
    to it, following links up to the system's budget.  Permissions are not
    modelled: which calls of a request fail is an argument of it. *)
From Stdlib Require Import NArith ZArith Lia.
From Stdlib Require Import Strings.Byte.
From stdpp Require Import base strings list option sorting gmap pretty.
From S2P Require Import Prelude Text Json Environment ShellEnvironment.

(** ** The file tree *)

Definition Path : Type := list text.

Inductive Node :=
| Directory
| Regular (bytes : list byte) (modified : N)
| Link (target : text)
| Special.

Abbreviation Tree := (gmap Path Node).

Definition node (t : Tree) (p : Path) : option Node :=
  match p with [] => Some Directory | _ => t !! p end.

Definition is_directory (t : Tree) (p : Path) : bool := match node t p with Some Directory => true | _ => false end.

Inductive IoError := IoNotFound | IoOther (what : string).

Definition LINK_BUDGET : nat := 40.

(** The walk of [realpath] from the directory [base]; with [create], the last
    name may be missing, as for an [open] that creates. *)
Fixpoint walk (budget : nat) (create : bool) (t : Tree) : Path -> list Component -> result IoError Path :=
  fix go (base : Path) (todo : list Component) : result IoError Path :=
    match todo with
    | [] => Ok base
    | RootDir :: rest => go [] rest
    | CurDir :: rest => go base rest
    | ParentDir :: rest => go (removelast base) rest
    | Normal s :: rest =>
        let p := base ++ [s] in
        match node t p with
        | None => if create && bool_decide (rest = []) then Ok p else Err IoNotFound
        | Some Directory => go p rest
        | Some (Link target) =>
            match budget with
            | O => Err (IoOther "too many levels of symbolic links")
            | S budget => walk budget create t base (components target ++ rest)
            end
        | Some _ => if bool_decide (rest = []) then Ok p else Err (IoOther "not a directory")
        end
    end.

(** [fs::canonicalize] of a path as components, from the working directory. *)
Definition canonicalize (t : Tree) (cwd : Path) (p : list Component) : result IoError Path :=
  match p with [] => Err IoNotFound | _ => walk LINK_BUDGET false t cwd p end.

(** ** Roots *)

Definition FS_SCHEMA_VERSION : N := 1.
Definition MAX_DIR_ENTRIES : nat := 2000.
Definition MAX_EDITABLE_BYTES : N := 2097152.

Record RootSpec := { root_id : text; root_label : string; root_target : option text; root_reason : option string }.

Inductive FsError :=
| FsMalformed (reason : string) | FsUnavailable (reason : string) | FsConflict | FsIo (message : string).

Definition fs_error_code (e : FsError) : string :=
  match e with
  | FsMalformed _ => "MALFORMED_MESSAGE" | FsUnavailable _ => "UNAVAILABLE" | FsConflict => "CONFLICT"
  | FsIo _ => "UNAVAILABLE"
  end.

Definition fs_error_message (e : FsError) : string :=
  match e with
  | FsMalformed r | FsUnavailable r => r
  | FsConflict => "the file changed on disk since it was opened"
  | FsIo m => m
  end.

Definition fs_error_retryable (e : FsError) : bool := match e with FsIo _ => true | _ => false end.

(** [roots_for] *)
Definition roots_for (environment : option DshEnvironment) : list RootSpec :=
  match environment with
  | None =>
      [{| root_id := txt "repo"; root_label := "Repository"; root_target := None; root_reason := Some "no active environment" |};
       {| root_id := txt "dsh-home"; root_label := "DSH home"; root_target := None; root_reason := Some "no active environment" |}]
  | Some e =>
      [{| root_id := txt "repo"; root_label := "Repository"; root_target := harness_repository_path e;
          root_reason := Some "this environment does not point at a repository" |};
       {| root_id := txt "dsh-home"; root_label := "DSH home"; root_target := Some (dsh_home e); root_reason := None |};
       {| root_id := txt "harness-cwd"; root_label := "Harness cwd"; root_target := harness_cwd e;
          root_reason := Some "this environment has no working directory" |}]
  end.

(** [root_kind] *)
Definition root_kind (i : text) : string :=
  if bool_decide (i = txt "repo") then "repository" else if bool_decide (i = txt "dsh-home") then "dshHome" else "cwd".

Record FsRootReport := {
  rr_id : text; rr_label : string; rr_kind : string; rr_path : option text; rr_available : bool; rr_reason : option string
}.

(** [list_roots]: the reports of the roots. *)
Definition list_roots (t : Tree) (cwd : Path) (environment : option DshEnvironment) : list FsRootReport :=
  map (fun spec =>
    match root_target spec with
    | Some p =>
        match canonicalize t cwd (components p) with
        | Ok _ => {| rr_id := root_id spec; rr_label := root_label spec; rr_kind := root_kind (root_id spec);
                     rr_path := Some p; rr_available := true; rr_reason := None |}
        | Err _ => {| rr_id := root_id spec; rr_label := root_label spec; rr_kind := root_kind (root_id spec);
                      rr_path := Some p; rr_available := false; rr_reason := Some "the directory does not exist" |}
        end
    | None => {| rr_id := root_id spec; rr_label := root_label spec; rr_kind := root_kind (root_id spec);
                 rr_path := None; rr_available := false; rr_reason := root_reason spec |}
    end) (roots_for environment).

(** [root_path] *)
Definition root_path (environment : option DshEnvironment) (i : text) : result FsError text :=
  spec ← ok_or (FsMalformed "unknown root") (List.find (fun s => bool_decide (root_id s = i)) (roots_for environment));
  ok_or (FsUnavailable "this environment does not provide the requested root") (root_target spec).

(** ** Containment *)

(** [relative.replace('\\', '/')] *)
Definition forward_slashes (s : text) : text := map (fun c => if (c =? 92)%N then 47%N else c) s.

Definition has_char (c : N) (s : text) : bool := existsb (fun x => (x =? c)%N) s.

(** The loop of [validate_relative] over the segments. *)
Fixpoint accept_segments (segments : list text) : result FsError (list text) :=
  match segments with
  | [] => Ok []
  | s :: rest =>
      if bool_decide (s = []) || bool_decide (s = txt ".") then accept_segments rest
      else if bool_decide (s = txt "..") then Err (FsMalformed "parent segments are not accepted")
      else if has_char 92 s || has_char 58 s then Err (FsMalformed "the path component is not accepted")
      else if bool_decide (head (components s) = Some RootDir) then Err (FsMalformed "the path component is not accepted")
      else names ← accept_segments rest; Ok (s :: names)
  end.

(** [validate_relative] *)
Definition validate_relative (relative : text) : result FsError (list text) :=
  if bool_decide (relative = []) || bool_decide (relative = txt ".") then Ok []
  else if (4096 <? utf8_len relative)%N then Err (FsMalformed "the path is too long")
  else
    let normalized := forward_slashes relative in
    if starts_with (txt "/") normalized then Err (FsMalformed "absolute paths are not accepted")
    else if has_char 58 normalized || starts_with (txt "//") normalized
    then Err (FsMalformed "absolute, UNC and device paths are not accepted")
    else accept_segments (split_char 47 normalized).

(** [canonical.starts_with(&canonical_root)] compares components. *)
Definition is_within (root p : Path) : bool := bool_decide (take (length root) p = root).

(** [resolve_in]: joining an empty path leaves a trailing slash, which only a
    directory can have. *)
Definition resolve_in (t : Tree) (cwd : Path) (root relative : text) : result FsError (Path * Path) :=
  match canonicalize t cwd (components root) with
  | Err _ => Err (FsUnavailable "the root directory does not exist")
  | Ok canonical_root =>
      names ← validate_relative relative;
      match (if bool_decide (names = []) && negb (is_directory t canonical_root)
             then Err (IoOther "not a directory")
             else walk LINK_BUDGET false t [] (RootDir :: map Normal (canonical_root ++ names))) with
      | Err IoNotFound => Err (FsUnavailable "the path does not exist")
      | Err (IoOther e) => Err (FsIo ("cannot resolve the path: " +:+ e))
      | Ok canonical =>
          if negb (is_within canonical_root canonical) then Err (FsMalformed "the requested path escapes the root")
          else Ok (canonical_root, canonical)
      end
  end.

(** What the calls that look at a file answer: [canonicalize] of the root and of
    the path, [metadata], and the reading of the contents or of the entries. *)
Record LookCalls := { root_ok : bool; target_ok : bool; metadata_ok : bool; contents_ok : bool }.

Definition looks_ok (k : LookCalls) : bool := root_ok k && target_ok k && metadata_ok k && contents_ok k.

(** [resolve_in] with the failures of its calls. *)
Definition resolve_with (k : LookCalls) (t : Tree) (cwd : Path) (root relative : text) : result FsError (Path * Path) :=
  if negb (root_ok k) then Err (FsUnavailable "the root directory does not exist")
  else
    found ← resolve_in t cwd root relative;
    if negb (target_ok k) then Err (FsIo "cannot resolve the path: i/o error") else Ok found.

(** [fs::metadata] of a resolved path. *)
Definition metadata_of (k : LookCalls) (t : Tree) (p : Path) : result FsError Node :=
  if negb (metadata_ok k) then Err (FsIo "i/o error") else ok_or (FsIo "no such file or directory") (node t p).

(** [relative_path_string] *)
Definition trim_start_char (c : N) (s : text) : text := drop_while (fun x => (x =? c)%N) s.

Definition relative_path_string (relative : text) : text :=
  let normalized := forward_slashes relative in
  if bool_decide (normalized = []) || bool_decide (normalized = txt ".") then txt "." else trim_start_char 47 normalized.

(** ** Reading *)

(** The order in which the system lists a directory, and Unicode lower case. *)
Class Listing := {
  dir_entries : Tree -> Path -> list (text * Node);
  to_lowercase : text -> text
}.

Record FsEntryReport := { entry_name : text; entry_kind : string; entry_size : N; entry_hidden : bool }.

Record FsDirReport := { dr_root_id : text; dr_path : text; entries : list FsEntryReport; truncated : bool }.

(** [metadata().len()] of an entry, which does not follow a link. *)
Definition node_size (n : Node) : N :=
  match n with
  | Regular b _ => N.of_nat (length b)
  | Link target => utf8_len target
  | Directory | Special => 0
  end.

Definition entry_of (name : text) (n : Node) : FsEntryReport :=
  {| entry_name := name;
     entry_kind := match n with Link _ => "link" | Directory => "dir" | _ => "file" end;
     entry_size := node_size n; entry_hidden := starts_with (txt ".") name |}.

(** The loop of [read_dir_in]. *)
Fixpoint collect (show_hidden : bool) (acc : list FsEntryReport) (raw : list (text * Node)) :
    list FsEntryReport * bool :=
  match raw with
  | [] => (acc, false)
  | (name, n) :: raw =>
      if starts_with (txt ".") name && negb show_hidden then collect show_hidden acc raw
      else if (MAX_DIR_ENTRIES <=? length acc)%nat then (acc, true)
      else collect show_hidden (acc ++ [entry_of name n]) raw
  end.

Section Files.
Context {listing : Listing}.

(** The comparison of [sort_by]. *)
Definition entry_compare (a b : FsEntryReport) : comparison :=
  let is_dir e := bool_decide (entry_kind e = "dir") in
  match is_dir a, is_dir b with
  | true, false => Lt
  | false, true => Gt
  | _, _ =>
      match text_compare (to_lowercase (entry_name a)) (to_lowercase (entry_name b)) with
      | Eq => text_compare (entry_name a) (entry_name b)
      | c => c
      end
  end.

Definition entry_le (a b : FsEntryReport) : Prop := entry_compare a b <> Gt.
#[export] Instance entry_le_dec : RelDecision entry_le.
Proof. intros a b. unfold entry_le. destruct (entry_compare a b); solve_decision. Defined.

(** [read_dir_in] *)
Definition read_dir_in (k : LookCalls) (t : Tree) (cwd : Path) (root i relative : text) (show_hidden : bool) :
    result FsError FsDirReport :=
  '(_, directory) ← resolve_with k t cwd root relative;
  n ← metadata_of k t directory;
  if negb (match n with Directory => true | _ => false end) then Err (FsUnavailable "the path is not a directory")
  else if negb (contents_ok k) then Err (FsIo "i/o error")
  else
    let '(found, cut) := collect show_hidden [] (dir_entries t directory) in
    Ok {| dr_root_id := i; dr_path := relative_path_string relative; entries := merge_sort entry_le found;
          truncated := cut |}.

Definition read_dir (k : LookCalls) (t : Tree) (cwd : Path) (environment : option DshEnvironment) (i relative : text)
    (show_hidden : bool) : result FsError FsDirReport :=
  root ← root_path environment i; read_dir_in k t cwd root i relative show_hidden.
End Files.

Record FsFileReport := {
  fr_root_id : text; fr_path : text; fr_size : N; fr_encoding : string; fr_read_only : bool;
  fr_reason : option string; fr_content : text
}.

Definition BOM : list byte := [xef; xbb; xbf].
Definition has_bom (b : list byte) : bool := bool_decide (take 3 b = BOM).

(** [strip_bom] *)
Definition strip_bom (b : list byte) : list byte := if has_bom b then drop 3 b else b.

(** [read_prefix] *)
Definition read_prefix (b : list byte) (limit : N) : list byte := take (N.to_nat limit) b.

Definition OVERSIZE : string := "the file is larger than the 2 MiB editing limit".
Definition NOT_UTF8 : string := "the file is not valid UTF-8".

(** [read_file_in] *)
Definition read_file_in (k : LookCalls) (t : Tree) (cwd : Path) (root i relative : text) : result FsError FsFileReport :=
  '(_, p) ← resolve_with k t cwd root relative;
  n ← metadata_of k t p;
  match n with
  | Directory => Err (FsUnavailable "the path is a directory")
  | Regular b _ =>
      if negb (contents_ok k) then Err (FsIo "cannot read the file") else
      let size := N.of_nat (length b) in
      let oversize := (MAX_EDITABLE_BYTES <? size)%N in
      let bytes := if oversize then read_prefix b MAX_EDITABLE_BYTES else b in
      let '(encoding, content) :=
        match from_utf8 (strip_bom bytes) with
        | Some s => (if has_bom bytes then "utf-8-bom" else "utf-8", s)
        | None => ("binary", from_utf8_lossy (strip_bom bytes))
        end in
      let binary := bool_decide (encoding = "binary") in
      Ok {| fr_root_id := i; fr_path := relative_path_string relative; fr_size := size; fr_encoding := encoding;
            fr_read_only := oversize || binary;
            fr_reason := if oversize then Some OVERSIZE else if binary then Some NOT_UTF8 else None;
            fr_content := content |}
  | _ => Err (FsUnavailable "the path is not a regular file")
  end.

Definition read_file (k : LookCalls) (t : Tree) (cwd : Path) (environment : option DshEnvironment) (i relative : text) :
    result FsError FsFileReport :=
  root ← root_path environment i; read_file_in k t cwd root i relative.

Record FsStatReport := {
  sr_root_id : text; sr_path : text; sr_size : N; sr_modified_unix_ms : N; sr_editable : bool; sr_reason : option string
}.

(** The bytes of a character whose end is missing. *)
Definition truncated_char (b : list byte) : bool :=
  match b with
  | [b0] => byte_in 194 244 b0
  | [b0; b1] => byte_in 224 244 b0 && second_ok b0 b1
  | [b0; b1; b2] => byte_in 240 244 b0 && second_ok b0 b1 && is_cont b2
  | _ => false
  end.

(** [from_utf8] fails with [error_len() == None]: all is well up to an incomplete
    character at the end. *)
Definition ends_in_char (b : list byte) : bool :=
  existsb (fun k => bool_decide (is_Some (from_utf8 (take (length b - k) b))) && truncated_char (drop (length b - k) b))
    [1; 2; 3].

(** [editability] *)
Definition editability (k : LookCalls) (b : list byte) : result FsError (bool * option string) :=
  if (MAX_EDITABLE_BYTES <? N.of_nat (length b))%N then Ok (false, Some OVERSIZE)
  else if negb (contents_ok k) then Err (FsIo "cannot read the file")
  else
    let probe := strip_bom (read_prefix b 8192) in
    Ok match from_utf8 probe with
       | Some _ => (true, None)
       | None => if ends_in_char probe then (true, None) else (false, Some NOT_UTF8)
       end.

(** [stat_in] *)
Definition stat_in (k : LookCalls) (t : Tree) (cwd : Path) (root i relative : text) : result FsError FsStatReport :=
  '(_, p) ← resolve_with k t cwd root relative;
  n ← metadata_of k t p;
  match n with
  | Regular b m =>
      '(editable, reason) ← editability k b;
      Ok {| sr_root_id := i; sr_path := relative_path_string relative; sr_size := N.of_nat (length b);
            sr_modified_unix_ms := m; sr_editable := editable; sr_reason := reason |}
  | _ => Err (FsUnavailable "the path is not a regular file")
  end.

Definition stat (k : LookCalls) (t : Tree) (cwd : Path) (environment : option DshEnvironment) (i relative : text) :
    result FsError FsStatReport :=
  root ← root_path environment i; stat_in k t cwd root i relative.

(** ** Writing *)

Record WriteBaseline := { base_size : N; base_modified : N }.
#[export] Instance WriteBaseline_eq_dec : EqDecision WriteBaseline.
Proof. solve_decision. Defined.

(** What the calls of a write answer: the look at the file before, the calls on
    the temporary file (a failing [write_all] has written some of the bytes), and
    the look at the file again after the rename. *)
Record WriteCalls := {
  before : LookCalls;
  create_ok : bool; written : option nat; sync_ok : bool; rename_ok : bool; remove_ok : bool;
  again : LookCalls
}.

(** [temp_sibling] *)
Definition temp_sibling (p : Path) (tag : string) (pid : N) : Path :=
  removelast p ++ [txt "." ++ default (txt "file") (last p) ++ txt "." ++ txt tag ++ txt "." ++ txt (pretty pid)].

(** [File::create]: the file it creates or truncates, which a link may lead
    elsewhere. *)
Definition create_target (t : Tree) (p : Path) : option Path :=
  match walk LINK_BUDGET true t (removelast p) (map Normal (from_option (fun s => [s]) [] (last p))) with
  | Ok q => match node t q with Some Directory | Some Special => None | _ => Some q end
  | Err _ => None
  end.

(** [fs::rename] of the name [from], the link itself when it is one. *)
Definition rename_node (from to : Path) (t : Tree) : option Tree :=
  n ← t !! from; Some (<[to := n]> (delete from t)).

(** [fs::remove_file] *)
Definition remove_node (calls : WriteCalls) (p : Path) (t : Tree) : Tree :=
  match t !! p with
  | Some Directory | None => t
  | Some _ => if remove_ok calls then delete p t else t
  end.

(** The closure of [write_file_in]: whether it succeeded, and the tree. *)
Definition persist (calls : WriteCalls) (now : N) (temp p : Path) (b : list byte) (t : Tree) : bool * Tree :=
  match (if create_ok calls then create_target t temp else None) with
  | None => (false, t)
  | Some q =>
      match written calls with
      | Some n => (false, <[q := Regular (take n b) now]> t)
      | None =>
          let t := <[q := Regular b now]> t in
          if negb (sync_ok calls) then (false, t)
          else if negb (rename_ok calls) then (false, t)
          else match rename_node temp p t with Some t => (true, t) | None => (false, t) end
      end
  end.

(** The checks of [write_file_in]: the file it will replace. *)
Definition check_write (k : LookCalls) (cwd : Path) (root relative content : text)
    (expected : option WriteBaseline) (force : bool) (t : Tree) : result FsError Path :=
  if (MAX_EDITABLE_BYTES <? N.of_nat (length (utf8_encode content)))%N
  then Err (FsMalformed "the content is larger than the 2 MiB editing limit")
  else
    '(_, p) ← resolve_with k t cwd root relative;
    n ← metadata_of k t p;
    match n with
    | Regular b m =>
        '(editable, reason) ← editability k b;
        if negb editable
        then Err (FsMalformed (default "the file is not editable through this surface" reason))
        else if negb force && match expected with
                              | Some e => negb (bool_decide (e = {| base_size := N.of_nat (length b); base_modified := m |}))
                              | None => false
                              end
        then Err FsConflict
        else Ok p
    | _ => Err (FsUnavailable "the path is not a regular file")
    end.

(** [write_file_in] *)
Definition write_file_in (calls : WriteCalls) (now pid : N) (cwd : Path) (root i relative content : text)
    (expected : option WriteBaseline) (force : bool) : M Tree FsError FsStatReport := fun t =>
  match check_write (before calls) cwd root relative content expected force t with
  | Err e => (Err e, t)
  | Ok p =>
      let temp := temp_sibling p "dsh-write" pid in
      match persist calls now temp p (utf8_encode content) t with
      | (false, t') => (Err (FsIo "cannot write the file"), remove_node calls temp t')
      | (true, t') => (stat_in (again calls) t' cwd root i relative, t')
      end
  end.

Definition write_file (calls : WriteCalls) (now pid : N) (cwd : Path) (environment : option DshEnvironment)
    (i relative content : text) (expected : option WriteBaseline) (force : bool) : M Tree FsError FsStatReport :=
  root ← lift (root_path environment i);
  write_file_in calls now pid cwd root i relative content expected force.

(** ** Requests *)

(** [valid_root_id] *)
Definition valid_root_id (value : text) : bool :=
  negb (bool_decide (value = [])) && (utf8_len value <=? 32)%N &&
  forallb (fun b => is_ascii_lowercase b || is_ascii_digit b || (b =? 45)%N) value.

(** [is_valid] of the requests; a list-roots request has no root id. *)
Definition fs_request_valid (version : N) (i : option text) : bool :=
  (version =? FS_SCHEMA_VERSION)%N && from_option valid_root_id true i.

(** [FsWriteFileRequest::baseline] *)
Definition baseline (size modified : option N) : option WriteBaseline :=
  s ← size; m ← modified; Some {| base_size := s; base_modified := m |}.
