(* ===== verification/FileManagerFacts.v ===== *)
(** * What the file manager guarantees

    Resolution ends at a physical path inside the root; a write changes only the
    file, atomically, when nothing stands at its temporary name; what is saved
    reads back; a listing is sorted and complete up to its bound. *)
From Stdlib Require Import NArith ZArith Lia.
From Stdlib Require Import Strings.Byte.
From stdpp Require Import base strings list option sorting gmap pretty.
From S2P Require Import Prelude Text Json Environment ShellEnvironment FileManager.

(** ** Physical paths *)

(** The path and everything above it are directories. *)
Definition dir_path (t : Tree) (p : Path) : Prop := forall q r, p = q ++ r -> node t q = Some Directory.

(** A path with no link in it: directories above, and no link at the end. *)
Definition physical (t : Tree) (p : Path) : Prop :=
  (forall q r, p = q ++ r -> r <> [] -> node t q = Some Directory) /\
  exists n, node t p = Some n /\ forall target, n <> Link target.

Lemma dir_path_root t : dir_path t [].
Proof. intros q r H. by destruct q. Qed.

Lemma dir_path_removelast t p : dir_path t p -> dir_path t (removelast p).
Proof.
  intros Hp. destruct p as [|s p _] using rev_ind; [done |]. rewrite removelast_last.
  intros q r ->. apply (Hp q (r ++ [s])). by rewrite app_assoc.
Qed.

Lemma dir_path_snoc t p s : dir_path t p -> node t (p ++ [s]) = Some Directory -> dir_path t (p ++ [s]).
Proof.
  intros Hp Hn q r Heq. destruct r as [|x r _] using rev_ind; [by rewrite app_nil_r in Heq; subst |].
  rewrite app_assoc in Heq. apply app_inj_tail in Heq as [-> _]. by apply (Hp q r).
Qed.

Lemma dir_path_physical t p : dir_path t p -> physical t p.
Proof.
  intros Hp. split; [by intros q r Heq _; apply (Hp q r) |]. exists Directory.
  split; [apply (Hp p []); by rewrite app_nil_r | done].
Qed.

Lemma leaf_physical t p s n :
  dir_path t p -> node t (p ++ [s]) = Some n -> (forall target, n <> Link target) -> physical t (p ++ [s]).
Proof.
  intros Hp Hn Hl. split; [| by exists n]. intros q r Heq Hr. destruct r as [|x r _] using rev_ind; [done |].
  rewrite app_assoc in Heq. apply app_inj_tail in Heq as [-> _]. by apply (Hp q r).
Qed.

(** A walk ends at a physical path, or with [create] at a missing name below a
    directory. *)
Definition destination (create : bool) (t : Tree) (p : Path) : Prop :=
  physical t p \/ create = true /\ node t p = None /\ exists q s, p = q ++ [s] /\ dir_path t q.

Lemma walk_destination budget create t base todo p :
  dir_path t base -> walk budget create t base todo = Ok p -> destination create t p.
Proof.
  revert base todo. induction budget as [|budget IHb]; intros base todo; revert base;
    induction todo as [|c todo IH]; intros base Hb; cbn [walk].
  1,3: intros [= <-]; left; by apply dir_path_physical.
  all: destruct c as [| | |s]; cbn [walk].
  1,5: intros H; eapply IH; [apply dir_path_root | exact H].
  1,4: intros H; by eapply IH.
  1,3: intros H; eapply IH; [by apply dir_path_removelast | exact H].
  all: destruct (node t (base ++ [s])) as [[]|] eqn:Hn; try done.
  all: try (intros H; eapply IH; [by apply dir_path_snoc | exact H]).
  all: try (case_bool_decide; [intros [= <-]; left; by eapply leaf_physical | done]).
  all: try (intros H; by eapply IHb).
  all: destruct create; cbn [andb]; [| done]; case_bool_decide; [| done]; intros [= <-]; right; by eauto 10.
Qed.

Lemma walk_physical budget t base todo p :
  dir_path t base -> walk budget false t base todo = Ok p -> physical t p.
Proof. intros Hb Hw. by destruct (walk_destination _ _ _ _ _ _ Hb Hw) as [|[[=] _]]. Qed.

(** Walking down a directory. *)
Lemma walk_down budget create t p rest :
  dir_path t p -> walk budget create t [] (map Normal p ++ rest) = walk budget create t p rest.
Proof.
  revert rest. induction p as [|s p IH] using rev_ind; intros rest Hp; [done |].
  rewrite map_app, <- app_assoc. cbn [map app].
  rewrite IH by (rewrite <- (removelast_last p s); by apply dir_path_removelast).
  assert (Hn : node t (p ++ [s]) = Some Directory) by (apply (Hp _ []); by rewrite app_nil_r).
  destruct budget; cbn [walk]; by rewrite Hn.
Qed.

(** Nothing lies below what is not a directory. *)
Lemma walk_below budget create t p c rest q :
  physical t p -> walk budget create t [] (map Normal p ++ c :: rest) = Ok q -> dir_path t p.
Proof.
  intros [Hp (n & Hn & Hl)]. destruct p as [|s p _] using rev_ind; [intros _; apply dir_path_root |].
  assert (Hd : dir_path t p).
  { intros x r ->. apply (Hp x (r ++ [s])); [by rewrite app_assoc | by destruct r]. }
  rewrite map_app, <- app_assoc. cbn [map app]. rewrite walk_down by done.
  destruct n as [|b m|target|].
  - intros _. by apply dir_path_snoc.
  - destruct budget; cbn [walk]; rewrite Hn, bool_decide_false by done; done.
  - by destruct (Hl target).
  - destruct budget; cbn [walk]; rewrite Hn, bool_decide_false by done; done.
Qed.

Lemma walk_root budget create t rest : walk budget create t [] (RootDir :: rest) = walk budget create t [] rest.
Proof. by destruct budget. Qed.

Lemma canonicalize_physical t cwd c p : dir_path t cwd -> canonicalize t cwd c = Ok p -> physical t p.
Proof. intros Hc. unfold canonicalize. destruct c; [done |]. by apply walk_physical. Qed.

Lemma resolve_in_spec t cwd root relative r p :
  dir_path t cwd -> resolve_in t cwd root relative = Ok (r, p) ->
  dir_path t r /\ physical t p /\ r `prefix_of` p /\
  exists names, validate_relative relative = Ok names /\
    walk LINK_BUDGET false t [] (map Normal (r ++ names)) = Ok p.
Proof.
  intros Hc. unfold resolve_in. destruct (canonicalize t cwd (components root)) as [r'|] eqn:Hr; [| done].
  apply canonicalize_physical in Hr; [| done].
  destruct (validate_relative relative) as [names|]; [| done]. cbn [mbind result_bind].
  destruct (bool_decide (names = []) && negb (is_directory t r')) eqn:Hd; [done |]. rewrite walk_root.
  destruct (walk LINK_BUDGET false t [] (map Normal (r' ++ names))) as [q|[]] eqn:Hw; [| done..].
  destruct (is_within r' q) eqn:Hin; cbn [negb]; [| done]. intros [= -> ->].
  split_and!; [| by eapply walk_physical; [apply dir_path_root |] | | by eauto].
  - rewrite map_app in Hw. destruct names as [|s names].
    + cbn in Hd. apply negb_false_iff in Hd. unfold is_directory in Hd.
      destruct (node t r) as [[]|] eqn:Hn; try done. intros q' x Heq.
      destruct x as [|y x]; [by rewrite app_nil_r in Heq; subst |]. by apply (proj1 Hr q' (y :: x)).
    + by eapply walk_below.
  - apply bool_decide_eq_true in Hin. exists (drop (length r) p). rewrite <- Hin at 1. by rewrite take_drop.
Qed.

(** The names a relative path may have. *)
Lemma accept_segments_spec segments names :
  accept_segments segments = Ok names -> Forall (fun s => s <> [] /\ s <> txt "." /\ s <> txt "..") names.
Proof.
  revert names. induction segments as [|s rest IH]; intros names; cbn [accept_segments]; [by intros [= <-] |].
  case_bool_decide; cbn [orb]; [apply IH |]. case_bool_decide; [apply IH |]. case_bool_decide; [done |].
  destruct (_ || _); [done |]. case_bool_decide; [done |].
  destruct (accept_segments rest) as [names'|] eqn:E; [| done]. intros [= <-]. constructor; [done | by apply IH].
Qed.

Lemma validate_relative_spec relative names :
  validate_relative relative = Ok names -> Forall (fun s => s <> [] /\ s <> txt "." /\ s <> txt "..") names.
Proof.
  unfold validate_relative. destruct (_ || _); [by intros [= <-] |]. destruct (_ <? _)%N; [done |].
  destruct (starts_with _ _); [done |]. destruct (_ || _); [done |]. apply accept_segments_spec.
Qed.

(** Containment: whatever links the tree has and whatever the request says,
    a path that resolves is the root's physical directory or physically below it,
    with a directory and no link at every step, and the request named it by plain
    names only. *)
Theorem resolve_contained (t : Tree) (cwd : Path) (root relative : text) (r p : Path) :
  dir_path t cwd -> resolve_in t cwd root relative = Ok (r, p) ->
  r `prefix_of` p /\ node t r = Some Directory /\
  (forall q x, p = q ++ x -> x <> [] -> node t q = Some Directory) /\
  (exists n, node t p = Some n /\ forall target, n <> Link target) /\
  exists names, validate_relative relative = Ok names /\ Forall (fun s => s <> txt ".." /\ s <> txt "." /\ s <> []) names.
Proof.
  intros Hc Hr. destruct (resolve_in_spec _ _ _ _ _ _ Hc Hr) as (Hd & [Hp1 Hp2] & Hpre & names & Hn & _).
  split_and!; [done | by apply (Hd r []); rewrite app_nil_r | done | done |]. exists names. split; [done |].
  eapply Forall_impl; [by apply validate_relative_spec with relative | naive_solver].
Qed.

(** ** Similar trees *)

(** The same nodes up to what regular files hold. *)
Definition same_kind (a b : option Node) : Prop :=
  match a, b with Some (Regular _ _), Some (Regular _ _) => True | _, _ => a = b end.
Definition similar (t t' : Tree) : Prop := forall p, same_kind (node t p) (node t' p).

Lemma walk_similar budget create t t' base todo :
  similar t t' -> walk budget create t base todo = walk budget create t' base todo.
Proof.
  intros Hs. revert base todo. induction budget as [|budget IHb]; intros base todo; revert base;
    induction todo as [|c todo IH]; intros base; [done | | done |].
  all: destruct c as [| | |s]; cbn [walk]; [apply IH | apply IH | apply IH |].
  all: specialize (Hs (base ++ [s])); unfold same_kind in Hs;
    destruct (node t (base ++ [s])) as [[]|], (node t' (base ++ [s])) as [[]|]; simplify_eq; try done.
  all: try apply IH. all: apply IHb.
Qed.

Lemma canonicalize_similar t t' cwd c : similar t t' -> canonicalize t cwd c = canonicalize t' cwd c.
Proof. intros Hs. unfold canonicalize. destruct c; [done |]. by apply walk_similar. Qed.

Lemma is_directory_similar t t' p : similar t t' -> is_directory t p = is_directory t' p.
Proof.
  intros Hs. specialize (Hs p). unfold same_kind, is_directory in *.
  by destruct (node t p) as [[]|], (node t' p) as [[]|]; simplify_eq.
Qed.

Lemma resolve_similar t t' cwd root relative :
  similar t t' -> resolve_in t cwd root relative = resolve_in t' cwd root relative.
Proof.
  intros Hs. unfold resolve_in. rewrite (canonicalize_similar t t' cwd (components root) Hs).
  destruct (canonicalize t' cwd (components root)) as [r|]; [| reflexivity].
  generalize LINK_BUDGET as budget. intros budget.
  destruct (validate_relative relative) as [names|]; cbn [mbind result_bind]; [| reflexivity].
  by rewrite (walk_similar _ _ _ _ _ _ Hs), (is_directory_similar _ _ _ Hs).
Qed.

(** ** Writing *)

Lemma node_insert_ne (t : Tree) p q n : p <> q -> node (<[p := n]> t) q = node t q.
Proof. intros Hne. destruct q; [done |]. cbn [node]. by rewrite lookup_insert_ne. Qed.

Lemma node_insert_eq (t : Tree) p n : p <> [] -> node (<[p := n]> t) p = Some n.
Proof. intros Hne. destruct p; [done |]. cbn [node]. by rewrite lookup_insert_eq. Qed.

Lemma similar_insert (t : Tree) p b m b' m' :
  node t p = Some (Regular b m) -> similar t (<[p := Regular b' m']> t).
Proof.
  intros Hp q. destruct (decide (p = q)) as [->|Hne].
  - rewrite Hp, node_insert_eq by (by intros ->). done.
  - rewrite node_insert_ne by done. unfold same_kind. by destruct (node t q) as [[]|].
Qed.

Lemma temp_sibling_snoc dir s tag pid :
  exists s', temp_sibling (dir ++ [s]) tag pid = dir ++ [s'] /\ s' <> s.
Proof.
  unfold temp_sibling. rewrite removelast_last, last_snoc. cbn [default from_option].
  eexists. split; [reflexivity |]. intros Hs. apply (f_equal length) in Hs. rewrite !length_app in Hs.
  change (length (txt ".")) with 1 in Hs. change (Datatypes.id s) with s in Hs. lia.
Qed.

(** With nothing at the temporary name, that is the file created. *)
Lemma create_target_fresh (t : Tree) dir s :
  dir_path t dir -> t !! (dir ++ [s]) = None -> create_target t (dir ++ [s]) = Some (dir ++ [s]).
Proof.
  intros Hd Hn. unfold create_target. rewrite removelast_last, last_snoc. cbn [from_option map].
  assert (Hnode : node t (dir ++ [s]) = None) by (by destruct dir).
  generalize LINK_BUDGET as budget. intros budget. destruct budget; cbn [walk]; rewrite Hnode; cbn; by rewrite Hnode.
Qed.

(** Every call of the write itself works. *)
Definition writes_ok (calls : WriteCalls) : bool :=
  create_ok calls && negb (bool_decide (is_Some (written calls))) && sync_ok calls && rename_ok calls.

Lemma remove_node_absent (calls : WriteCalls) (q : Path) (t : Tree) : t !! q = None -> remove_node calls q t = t.
Proof. intros Hn. unfold remove_node. by rewrite Hn. Qed.

(** What [persist] and the clean-up do then. *)
Lemma persist_fresh (calls : WriteCalls) (now : N) (dir : Path) (s s' : text) (b : list byte) (t : Tree) :
  dir_path t dir -> s' <> s -> t !! (dir ++ [s']) = None ->
  let p := dir ++ [s] in let temp := dir ++ [s'] in
  match persist calls now temp p b t with
  | (true, t') => t' = <[p := Regular b now]> t
  | (false, t') => writes_ok calls = false /\
      (remove_node calls temp t' = t \/ remove_ok calls = false /\ delete temp (remove_node calls temp t') = t)
  end.
Proof.
  intros Hd Hs Hn p temp. unfold persist, writes_ok.
  assert (Hclean : forall part, remove_node calls temp (<[temp := Regular part now]> t) = t \/
    remove_ok calls = false /\ delete temp (remove_node calls temp (<[temp := Regular part now]> t)) = t).
  { intros part. unfold remove_node. rewrite lookup_insert_eq.
    destruct (remove_ok calls); [left | right]; [| split; [done |]]; by rewrite delete_insert_id. }
  destruct (create_ok calls).
  2:{ split; [done |]. left. by apply remove_node_absent. }
  unfold temp at 1. rewrite create_target_fresh by done. fold temp.
  destruct (written calls) as [n|]; [split; [done | apply Hclean] |].
  destruct (sync_ok calls); cbn [negb]; [| split; [done | apply Hclean]].
  destruct (rename_ok calls); cbn [negb]; [| split; [done | apply Hclean]].
  unfold rename_node. rewrite lookup_insert_eq. cbn. by rewrite delete_insert_id.
Qed.

Lemma resolved_regular t cwd root relative r p b m :
  dir_path t cwd -> resolve_in t cwd root relative = Ok (r, p) -> node t p = Some (Regular b m) ->
  exists dir s, p = dir ++ [s] /\ dir_path t dir /\ r `prefix_of` dir.
Proof.
  intros Hc Hr Hn. destruct (resolve_in_spec _ _ _ _ _ _ Hc Hr) as (Hd & [Hp _] & [x ->] & _).
  destruct x as [|s x _] using rev_ind.
  - rewrite app_nil_r in Hn. rewrite (Hd r []) in Hn by (by rewrite app_nil_r). done.
  - exists (r ++ x), s. rewrite app_assoc. split_and!; [done | | by eexists].
    intros q y Heq. apply (Hp q (y ++ [s])); [by rewrite !app_assoc, Heq | by destruct y].
Qed.

(** The looks, when their calls work and when they may not. *)
Lemma looks_ok_inv k : looks_ok k = true ->
  root_ok k = true /\ target_ok k = true /\ metadata_ok k = true /\ contents_ok k = true.
Proof. unfold looks_ok. rewrite !andb_true_iff. tauto. Qed.

Lemma resolve_with_ok k t cwd root relative found :
  resolve_with k t cwd root relative = Ok found -> resolve_in t cwd root relative = Ok found.
Proof.
  unfold resolve_with. destruct (root_ok k); [| done]. cbn. destruct (resolve_in t cwd root relative); [| done]. cbn.
  by destruct (target_ok k).
Qed.

Lemma looks_resolve k t cwd root relative :
  looks_ok k = true -> resolve_with k t cwd root relative = resolve_in t cwd root relative.
Proof.
  intros (H1 & H2 & _)%looks_ok_inv. unfold resolve_with. rewrite H1, H2. cbn. by destruct (resolve_in t cwd root relative).
Qed.

Lemma looks_metadata k t p n : looks_ok k = true -> node t p = Some n -> metadata_of k t p = Ok n.
Proof. intros (_ & _ & H & _)%looks_ok_inv Hn. unfold metadata_of. by rewrite H, Hn. Qed.

Lemma metadata_of_ok k t p n : metadata_of k t p = Ok n -> node t p = Some n.
Proof. unfold metadata_of. destruct (metadata_ok k); [| done]. cbn. destruct (node t p); [by intros [= ->] | done]. Qed.

Lemma looks_editability k b : looks_ok k = true -> exists e, editability k b = Ok e.
Proof. intros (_ & _ & _ & H)%looks_ok_inv. unfold editability. rewrite H. cbn. destruct (_ <? _)%N; by eexists. Qed.

(** A stat of a regular file reports it, or one of its calls failed. *)
Lemma stat_regular k t cwd root i relative r p b m :
  resolve_in t cwd root relative = Ok (r, p) -> node t p = Some (Regular b m) ->
  match stat_in k t cwd root i relative with
  | Ok st => sr_size st = N.of_nat (length b) /\ sr_modified_unix_ms st = m
  | Err _ => looks_ok k = false
  end.
Proof.
  intros Hr Hn. unfold stat_in. destruct (looks_ok k) eqn:Hk.
  - rewrite looks_resolve, Hr by done. cbn. rewrite (looks_metadata _ _ _ _ Hk Hn). cbn.
    by destruct (looks_editability k b Hk) as [[] ->].
  - destruct (resolve_with k t cwd root relative) as [[r' p']|] eqn:E; [| done]. apply resolve_with_ok in E.
    rewrite Hr in E. injection E as <- <-. cbn. destruct (metadata_of k t p) as [n|] eqn:Em; [| done].
    apply metadata_of_ok in Em. rewrite Hn in Em. injection Em as <-. cbn. by destruct (editability k b) as [[]|].
Qed.

(** The file may be replaced: the content fits, the file is editable, and the
    baseline is the file's unless the write is forced. *)
Definition may_replace (content : text) (expected : option WriteBaseline) (force : bool) (b : list byte) (m : N) : Prop :=
  (N.of_nat (length (utf8_encode content)) <= MAX_EDITABLE_BYTES)%N /\
  (forall k, looks_ok k = true -> exists reason, editability k b = Ok (true, reason)) /\
  (force = true \/ expected = None \/ expected = Some {| base_size := N.of_nat (length b); base_modified := m |}).

Lemma check_write_ok k cwd root relative content expected force t r p q :
  resolve_in t cwd root relative = Ok (r, p) -> check_write k cwd root relative content expected force t = Ok q ->
  q = p /\ (N.of_nat (length (utf8_encode content)) <= MAX_EDITABLE_BYTES)%N /\
  exists b m, node t p = Some (Regular b m).
Proof.
  intros Hr. unfold check_write. destruct (N.ltb_spec MAX_EDITABLE_BYTES (N.of_nat (length (utf8_encode content)))); [done |].
  destruct (resolve_with k t cwd root relative) as [[r' p']|] eqn:E; [| done]. apply resolve_with_ok in E.
  rewrite Hr in E. injection E as <- <-. cbn. destruct (metadata_of k t p) as [n|] eqn:Em; [| done].
  apply metadata_of_ok in Em. cbn. destruct n as [|b m|target|]; try done.
  destruct (editability k b) as [[[] reason]|]; [| done..]. cbn. destruct (_ && _); [done |]. intros [= <-]. eauto.
Qed.

Lemma check_write_may k cwd root relative content expected force t r p b m :
  resolve_in t cwd root relative = Ok (r, p) -> node t p = Some (Regular b m) -> looks_ok k = true ->
  may_replace content expected force b m -> check_write k cwd root relative content expected force t = Ok p.
Proof.
  intros Hr Hn Hk (Hl & He & Hb). unfold check_write. apply N.ltb_ge in Hl. rewrite Hl, looks_resolve, Hr by done. cbn.
  rewrite (looks_metadata _ _ _ _ Hk Hn). cbn. destruct (He k Hk) as [reason ->]. cbn.
  destruct Hb as [-> | [-> | ->]]; [done | by rewrite andb_false_r |]. by rewrite bool_decide_true, andb_false_r.
Qed.

(** What a save leaves. *)
Definition save_outcome (calls : WriteCalls) (now pid : N) (content : text) (t t' : Tree) (p : Path)
    (out : result FsError FsStatReport) : Prop :=
  let temp := temp_sibling p "dsh-write" pid in
  let replaced := <[p := Regular (utf8_encode content) now]> t in
  match out with
  | Ok st => t' = replaced /\ sr_size st = N.of_nat (length (utf8_encode content))
  | Err _ =>
      t' = t \/ (remove_ok calls = false /\ delete temp t' = t) \/
      (t' = replaced /\ looks_ok (again calls) = false)
  end.

Lemma save_effect (calls : WriteCalls) (now pid : N) (cwd : Path) (root i relative content : text)
    (expected : option WriteBaseline) (force : bool) (t t' : Tree) (r p : Path) (out : result FsError FsStatReport) :
  dir_path t cwd -> resolve_in t cwd root relative = Ok (r, p) ->
  t !! temp_sibling p "dsh-write" pid = None ->
  write_file_in calls now pid cwd root i relative content expected force t = (out, t') ->
  (forall q, t' !! q <> t !! q -> (q = p \/ q = temp_sibling p "dsh-write" pid) /\ r `prefix_of` q) /\
  save_outcome calls now pid content t t' p out /\
  (forall b m, node t p = Some (Regular b m) -> may_replace content expected force b m ->
     looks_ok (before calls) = true -> writes_ok calls = true -> looks_ok (again calls) = true -> is_ok out = true).
Proof.
  intros Hc Hr Ht. unfold write_file_in.
  destruct (check_write (before calls) cwd root relative content expected force t) as [q|e] eqn:Hadm.
  2:{ intros [= <- <-]. split_and!; [done | by left |]. intros b m Hn Hmay Hk _ _.
      by rewrite (check_write_may _ _ _ _ _ _ _ _ _ _ _ _ Hr Hn Hk Hmay) in Hadm. }
  destruct (check_write_ok _ _ _ _ _ _ _ _ _ _ _ Hr Hadm) as (-> & _ & b0 & m0 & Hn).
  destruct (resolved_regular _ _ _ _ _ _ _ _ Hc Hr Hn) as (dir & s & -> & Hdir & Hpre). unfold save_outcome.
  destruct (temp_sibling_snoc dir s "dsh-write" pid) as (s' & Hts & Hs). rewrite Hts in *.
  assert (Hin : forall x, r `prefix_of` dir ++ [x]) by (intros x; by apply prefix_app_r).
  pose proof (persist_fresh calls now dir s s' (utf8_encode content) t Hdir Hs Ht) as Hp. cbn zeta in Hp.
  destruct (persist calls now (dir ++ [s']) (dir ++ [s]) (utf8_encode content) t) as [[] t1].
  - subst t1. pose proof (stat_regular (again calls) (<[dir ++ [s] := Regular (utf8_encode content) now]> t) cwd root i relative r
      (dir ++ [s]) (utf8_encode content) now) as Hst.
    specialize (Hst ltac:(rewrite <- Hr; symmetry; apply resolve_similar; by eapply similar_insert)
                    ltac:(apply node_insert_eq; by destruct dir)).
    intros [= <- <-]. split; [| destruct (stat_in _ _ _ _ _ _); split; [naive_solver | done | naive_solver |]].
    + intros q Hq. destruct (decide (q = dir ++ [s])) as [->|Hne]; [by split; [left |] |]. by rewrite lookup_insert_ne in Hq.
    + intros b m _ _ _ _ Hk. congruence.
  - destruct Hp as [Hw Hp]. intros [= <- <-].
    split_and!; [| naive_solver | intros b m _ _ _ Hw'; congruence].
    intros q Hq. destruct (decide (q = dir ++ [s'])) as [->|Hne]; [by split; [right |] |]. exfalso. apply Hq.
    destruct Hp as [-> | [_ Hp]]; [done |].
    apply (f_equal (fun m : Tree => m !! q)) in Hp. by rewrite lookup_delete_ne in Hp.
Qed.

(** C14.  A save is confined and atomic, when nothing stands at the temporary name
    before it.  It changes no node but the file itself and the temporary name
    beside it, both inside the root.  When it is reported done the file holds the
    new bytes and nothing else has changed.  When it is reported failed the tree is
    as it was, unless the clean-up failed, and then only the temporary name was
    added, or unless a call of the look at the file after the rename failed: then
    the file holds the new bytes although the save is reported failed.  It is
    reported done if all its calls work, the content fits, the file is editable
    and the baseline matches or the save is forced. *)
Theorem save_confined_and_atomic (calls : WriteCalls) (now pid : N) (cwd : Path) (root i relative content : text)
    (expected : option WriteBaseline) (force : bool) (t t' : Tree) (r p : Path) (out : result FsError FsStatReport) :
  dir_path t cwd -> resolve_in t cwd root relative = Ok (r, p) ->
  t !! temp_sibling p "dsh-write" pid = None ->
  write_file_in calls now pid cwd root i relative content expected force t = (out, t') ->
  let temp := temp_sibling p "dsh-write" pid in
  let replaced := <[p := Regular (utf8_encode content) now]> t in
  (forall q, t' !! q <> t !! q -> (q = p \/ q = temp) /\ r `prefix_of` q) /\
  match out with
  | Ok st => t' = replaced /\ sr_size st = N.of_nat (length (utf8_encode content))
  | Err _ =>
      t' = t \/ (remove_ok calls = false /\ delete temp t' = t) \/
      (t' = replaced /\ looks_ok (again calls) = false)
  end /\
  (forall b m, node t p = Some (Regular b m) -> may_replace content expected force b m ->
     looks_ok (before calls) = true -> writes_ok calls = true -> looks_ok (again calls) = true -> is_ok out = true).
Proof. apply save_effect. Qed.

(** C37.  What is saved reads back: when nothing stands at the temporary name
    before a save and the save is reported done, reading the same path, if the
    calls of the read work, returns the text, as plain UTF-8 and editable, unless
    the text itself begins with a byte order mark. *)
Theorem saved_file_reads_back (calls : WriteCalls) (k : LookCalls) (now pid : N) (cwd : Path) (root i relative content : text)
    (expected : option WriteBaseline) (force : bool) (t t' : Tree) (r p : Path) (st : FsStatReport) :
  dir_path t cwd -> resolve_in t cwd root relative = Ok (r, p) ->
  t !! temp_sibling p "dsh-write" pid = None ->
  forallb scalar content = true -> has_bom (utf8_encode content) = false -> looks_ok k = true ->
  write_file_in calls now pid cwd root i relative content expected force t = (Ok st, t') ->
  exists rep, read_file_in k t' cwd root i relative = Ok rep /\ fr_content rep = content /\
    fr_encoding rep = "utf-8" /\ fr_read_only rep = false /\ fr_size rep = sr_size st.
Proof.
  intros Hc Hr Ht Hsc Hb Hk Hw.
  destruct (save_effect _ _ _ _ _ _ _ _ _ _ _ _ _ _ _ Hc Hr Ht Hw) as (_ & [-> ->] & _).
  assert (Hold : (MAX_EDITABLE_BYTES <? N.of_nat (length (utf8_encode content)))%N = false /\
                 exists b m, node t p = Some (Regular b m)).
  { unfold write_file_in in Hw. destruct (check_write _ _ _ _ _ _ _ t) as [q|] eqn:Hadm; [| done].
    destruct (check_write_ok _ _ _ _ _ _ _ _ _ _ _ Hr Hadm) as (_ & Hl & ?). split; [by apply N.ltb_ge | done]. }
  destruct Hold as (Hlen & b & m & Hn). unfold read_file_in. rewrite looks_resolve by done.
  rewrite <- (resolve_similar t) by (by eapply similar_insert). rewrite Hr. cbn [mbind result_bind].
  assert (Hne : p <> []) by (by intros ->).
  rewrite (looks_metadata k _ p (Regular (utf8_encode content) now) Hk) by (by apply node_insert_eq).
  destruct (looks_ok_inv k Hk) as (_ & _ & _ & ->). cbn [mbind result_bind negb].
  rewrite Hlen. unfold strip_bom. rewrite Hb, from_utf8_encode by done. cbn. eexists. by split_and!.
Qed.

(** ** Listings *)

Section Order.
Context {listing : Listing}.

#[export] Instance entry_le_total : Total entry_le.
Proof.
  intros a b. unfold entry_le, entry_compare.
  destruct (bool_decide (entry_kind a = "dir")), (bool_decide (entry_kind b = "dir")); [| by left | by right |].
  all: rewrite (text_compare_opp (to_lowercase (entry_name a)) (to_lowercase (entry_name b))),
         (text_compare_opp (entry_name a) (entry_name b)).
  all: destruct (text_compare (to_lowercase (entry_name a)) (to_lowercase (entry_name b))),
         (text_compare (entry_name a) (entry_name b)); cbn; naive_solver.
Qed.

Definition shown_entries (show_hidden : bool) (raw : list (text * Node)) : list FsEntryReport :=
  map (fun kv => entry_of kv.1 kv.2) (List.filter (fun kv => negb (starts_with (txt ".") kv.1 && negb show_hidden)) raw).

Lemma collect_spec show_hidden acc raw :
  length acc <= MAX_DIR_ENTRIES ->
  collect show_hidden acc raw =
    (take MAX_DIR_ENTRIES (acc ++ shown_entries show_hidden raw),
     (MAX_DIR_ENTRIES <? length acc + length (shown_entries show_hidden raw))%nat).
Proof.
  revert acc. induction raw as [|[name n] raw IH]; intros acc Hl; cbn [collect].
  { unfold shown_entries. cbn [List.filter map length]. rewrite app_nil_r, Nat.add_0_r, take_ge by done.
    f_equal. symmetry. by apply Nat.ltb_ge. }
  assert (Hs : shown_entries show_hidden ((name, n) :: raw) =
    (if starts_with (txt ".") name && negb show_hidden then [] else [entry_of name n]) ++ shown_entries show_hidden raw).
  { unfold shown_entries. cbn [List.filter fst]. by destruct (starts_with (txt ".") name && negb show_hidden). }
  rewrite Hs. destruct (starts_with (txt ".") name && negb show_hidden); [by apply IH |].
  destruct (Nat.leb_spec MAX_DIR_ENTRIES (length acc)) as [Hge|Hlt].
  - rewrite take_app_le by lia. rewrite take_ge by lia. f_equal. symmetry. apply Nat.ltb_lt.
    rewrite length_app. cbn [length]. lia.
  - rewrite IH by (rewrite length_app; cbn [length]; lia). rewrite <- app_assoc. f_equal.
    rewrite !length_app. cbn [length]. f_equal. lia.
Qed.
End Order.

(** A directory listing holds the visible entries, each with the kind of the
    entry itself (a link is a link), directories first and then by name, all of
    them up to the bound; it says that it was cut exactly when there are more. *)
Theorem listing_sorted_and_bounded {listing : Listing} (k : LookCalls) (t : Tree) (cwd : Path) (root i relative : text)
    (show_hidden : bool) (rep : FsDirReport) (r p : Path) :
  resolve_in t cwd root relative = Ok (r, p) -> read_dir_in k t cwd root i relative show_hidden = Ok rep ->
  let visible := shown_entries show_hidden (dir_entries t p) in
  entries rep ≡ₚ take MAX_DIR_ENTRIES visible /\ Sorted entry_le (entries rep) /\
  length (entries rep) <= MAX_DIR_ENTRIES /\ (truncated rep = true <-> MAX_DIR_ENTRIES < length visible).
Proof.
  intros Hr. unfold read_dir_in. destruct (resolve_with k t cwd root relative) as [[r' p']|] eqn:E; [| done].
  apply resolve_with_ok in E. rewrite Hr in E. injection E as <- <-. cbn [mbind result_bind].
  destruct (metadata_of k t p) as [n|]; [| done]. cbn [mbind result_bind]. destruct n; cbn [negb]; try done.
  destruct (contents_ok k); cbn [negb]; [| done]. rewrite collect_spec by (cbn [length]; lia). intros [= <-].
  cbn [entries truncated app length].
  split_and!; [apply merge_sort_Permutation | apply Sorted_merge_sort, _ | | apply Nat.ltb_lt].
  rewrite merge_sort_Permutation, length_take. lia.
Qed.

(** ** Witnesses *)

Module LocalFiles.
#[export] Instance order : Listing := {|
  dir_entries := fun t p => omap (fun kv : Path * Node =>
    match strip_prefix (mjoin (map (fun s => txt "/" ++ s) p)) (mjoin (map (fun s => txt "/" ++ s) kv.1)) with
    | Some _ => if (length kv.1 =? S (length p))%nat then s ← last kv.1; Some (s, kv.2) else None
    | None => None
    end) (map_to_list t);
  to_lowercase := to_ascii_lowercase |}.

Definition p1 (s : string) : Path := [txt s].
Definition repo : Path := [txt "home"; txt "repo"].
Definition old_text : list byte := utf8_encode (txt "old").
Definition works : LookCalls := {| root_ok := true; target_ok := true; metadata_ok := true; contents_ok := true |}.
Definition good : WriteCalls :=
  {| before := works; create_ok := true; written := None; sync_ok := true; rename_ok := true; remove_ok := true; again := works |}.

Definition tree : Tree :=
  {[ [txt "home"] := Directory; repo := Directory; repo ++ [txt "a.txt"] := Regular old_text 5;
     repo ++ [txt "out"] := Link (txt "/etc"); repo ++ [txt "in"] := Link (txt "a.txt");
     [txt "etc"] := Directory; [txt "etc"; txt "passwd"] := Regular [] 1 ]}.

Definition saved := write_file_in good 9 7 [] (txt "/home/repo") (txt "repo") (txt "in") (txt "new") None false tree.

(** Through a link inside the root, and not through one that leaves it. *)
Example resolve_links :
  resolve_in tree [] (txt "/home/repo") (txt "in") = Ok (repo, repo ++ [txt "a.txt"]) /\
  resolve_in tree [] (txt "/home/repo") (txt "out/passwd") = Err (FsMalformed "the requested path escapes the root") /\
  resolve_in tree [] (txt "/home/repo") (txt "../etc") = Err (FsMalformed "parent segments are not accepted").
Proof. by vm_compute. Qed.

Lemma cwd_ok : dir_path tree [].
Proof. apply dir_path_root. Qed.

Lemma resolve_contained_witness : repo `prefix_of` repo ++ [txt "a.txt"] /\ node tree repo = Some Directory.
Proof.
  assert (Hr : resolve_in tree [] (txt "/home/repo") (txt "in") = Ok (repo, repo ++ [txt "a.txt"])) by (by vm_compute).
  destruct (resolve_contained tree [] (txt "/home/repo") (txt "in") _ _ cwd_ok Hr) as (H1 & H2 & _). by split.
Defined.

Lemma save_confined_and_atomic_witness :
  saved.2 = <[repo ++ [txt "a.txt"] := Regular (utf8_encode (txt "new")) 9]> tree.
Proof.
  assert (Hr : resolve_in tree [] (txt "/home/repo") (txt "in") = Ok (repo, repo ++ [txt "a.txt"])) by (by vm_compute).
  assert (Ht : tree !! temp_sibling (repo ++ [txt "a.txt"]) "dsh-write" 7 = None) by (by vm_compute).
  pose proof (save_confined_and_atomic good 9 7 [] (txt "/home/repo") (txt "repo") (txt "in") (txt "new") None false
    tree saved.2 _ _ saved.1 cwd_ok Hr Ht (surjective_pairing _)) as (_ & Hs & _).
  assert (Hok : exists st, saved.1 = Ok st) by (eexists; vm_compute; reflexivity).
  destruct Hok as [st Hst]. rewrite Hst in Hs. apply Hs.
Defined.

Lemma saved_file_reads_back_witness :
  exists rep, read_file_in works saved.2 [] (txt "/home/repo") (txt "repo") (txt "in") = Ok rep /\ fr_content rep = txt "new".
Proof.
  assert (Hr : resolve_in tree [] (txt "/home/repo") (txt "in") = Ok (repo, repo ++ [txt "a.txt"])) by (by vm_compute).
  assert (Ht : tree !! temp_sibling (repo ++ [txt "a.txt"]) "dsh-write" 7 = None) by (by vm_compute).
  assert (Hok : exists st, saved.1 = Ok st) by (eexists; vm_compute; reflexivity). destruct Hok as [st Hst].
  destruct (saved_file_reads_back good works 9 7 [] (txt "/home/repo") (txt "repo") (txt "in") (txt "new") None false
    tree saved.2 _ _ st cwd_ok Hr Ht) as (rep & H1 & H2 & _); [by vm_compute | by vm_compute | by vm_compute | |].
  - fold saved. rewrite <- Hst. apply surjective_pairing.
  - exists rep. exact (conj H1 H2).
Defined.

Lemma listing_sorted_and_bounded_witness :
  exists rep, read_dir_in works tree [] (txt "/home/repo") (txt "repo") [] false = Ok rep /\ length (entries rep) <= MAX_DIR_ENTRIES.
Proof.
  assert (Hr : resolve_in tree [] (txt "/home/repo") [] = Ok (repo, repo)) by (by vm_compute).
  assert (Hok : exists rep, read_dir_in works tree [] (txt "/home/repo") (txt "repo") [] false = Ok rep)
    by (eexists; vm_compute; reflexivity).
  destruct Hok as [rep Hrep]. exists rep. split; [done |].
  apply (listing_sorted_and_bounded works tree [] (txt "/home/repo") (txt "repo") [] false rep _ _ Hr Hrep).
Defined.

(** A link planted at the temporary name: the bytes go where it points, outside
    the root, and the saved file becomes that link. *)
Definition planted : Tree :=
  <[temp_sibling (repo ++ [txt "a.txt"]) "dsh-write" 7 := Link (txt "/etc/passwd")]> tree.

Example planted_link_escapes :
  let out := write_file_in good 9 7 [] (txt "/home/repo") (txt "repo") (txt "a.txt") (txt "new") None false planted in
  out.2 !! [txt "etc"; txt "passwd"] = Some (Regular (utf8_encode (txt "new")) 9) /\
  out.2 !! (repo ++ [txt "a.txt"]) = Some (Link (txt "/etc/passwd")).
Proof. by vm_compute. Qed.

(** The [metadata] after the rename fails: the save is reported failed and the
    file has been replaced, so a retry with the old baseline is a conflict. *)
Definition unlooked : WriteCalls :=
  {| before := works; create_ok := true; written := None; sync_ok := true; rename_ok := true; remove_ok := true;
     again := {| root_ok := true; target_ok := true; metadata_ok := false; contents_ok := true |} |}.
Definition old_baseline : option WriteBaseline := Some {| base_size := 3; base_modified := 5 |}.

Example failed_look_hides_save :
  let save calls := write_file_in calls 9 7 [] (txt "/home/repo") (txt "repo") (txt "a.txt") (txt "new") old_baseline false in
  (save unlooked tree).1 = Err (FsIo "i/o error") /\
  (save unlooked tree).2 !! (repo ++ [txt "a.txt"]) = Some (Regular (utf8_encode (txt "new")) 9) /\
  (save good (save unlooked tree).2).1 = Err FsConflict.
Proof. by vm_compute. Qed.

(** A file that is only later not UTF-8 is read as binary and read-only, and yet
    counts as editable. *)
Definition late_binary : Tree := <[repo ++ [txt "a.txt"] := Regular (repeat x61 (N.to_nat 8192) ++ [xff]) 5]> tree.

Example late_binary_is_editable :
  match read_file_in works late_binary [] (txt "/home/repo") (txt "repo") (txt "a.txt"),
        stat_in works late_binary [] (txt "/home/repo") (txt "repo") (txt "a.txt") with
  | Ok rep, Ok st => fr_read_only rep = true /\ sr_editable st = true
  | _, _ => False
  end.
Proof. by vm_compute. Qed.
End LocalFiles.
