(* ===== verification/Trail.v ===== *)
(** * The append-only trails of the Shell

    [notification.rs] and [usage.rs] of [apps/desktop/src-tauri/src] keep their
    records in a file of JSON lines with the same three functions:
    [append_record], [roll_cap] and [read_records].  They are modelled once, for
    any record type with a line codec; what the calls of an append answer, a
    write that stops part way included, is an argument. *)
From Stdlib Require Import NArith ZArith Lia.
From Stdlib Require Import Strings.Byte.
From S2P Require Import Prelude Text.
From stdpp Require Import base strings list option gmap.

(** [serde_json] on one record. *)
Class LineCodec (R : Type) := { to_line : R -> option text; of_line : text -> option R }.

(** The trail file: [None] when it does not exist. *)
Definition Trail : Type := option (list byte).

(** What the calls answer: [Some n] is a write that failed after [n] bytes. *)
Record TrailCalls := {
  directory_ok : bool;          (* [create_dir_all] and [restrict_directory] *)
  open_ok : bool;
  appended : option nat;
  sync_ok : bool;
  restrict_ok : bool;
  read_ok : bool;               (* [read_to_string] in [roll_cap] *)
  reopen_ok : bool;
  rewritten : option nat;
  resync_ok : bool
}.

Definition all_calls_work : TrailCalls :=
  {| directory_ok := true; open_ok := true; appended := None; sync_ok := true; restrict_ok := true;
     read_ok := true; reopen_ok := true; rewritten := None; resync_ok := true |}.

(** The lines of a byte string, without their newlines. *)
Fixpoint split_newlines (b : list byte) : list (list byte) :=
  match b with
  | [] => [[]]
  | x :: b =>
      if bool_decide (x = x0a) then [] :: split_newlines b
      else match split_newlines b with [] => [[x]] | l :: ls => (x :: l) :: ls end
  end.

(** [strip_suffix(b"\r")] *)
Definition strip_cr (l : list byte) : list byte :=
  match last l with Some c => if bool_decide (c = x0d) then removelast l else l | None => l end.

(** [BufRead::lines]: every line that ended in a newline, less a carriage return,
    and what follows the last one unless it is empty. *)
Definition buf_lines (b : list byte) : list (list byte) :=
  let parts := split_newlines b in
  map strip_cr (removelast parts) ++
  match last parts with Some [] | None => [] | Some l => [l] end.

(** [map_while(Result::ok)] *)
Fixpoint while_utf8 (ls : list (list byte)) : list text :=
  match ls with
  | l :: ls => match from_utf8 l with Some s => s :: while_utf8 ls | None => [] end
  | [] => []
  end.

Section Trails.
Context {R : Type} {codec : LineCodec R} (cap : nat).

(** [read_records] *)
Definition read_records (t : Trail) : list R :=
  match t with
  | None => []
  | Some b => omap of_line (List.filter (fun l => negb (is_blank l)) (while_utf8 (buf_lines b)))
  end.

Definition unlines (ls : list text) : text := flat_map (fun l => l ++ [10%N]) ls.

(** [roll_cap] *)
Definition roll_cap (c : TrailCalls) : M Trail unit unit := fun t =>
  match (if read_ok c then t ≫= from_utf8 else None) with
  | None => (Ok tt, t)
  | Some content =>
      let lines := List.filter (fun l => negb (bool_decide (l = []))) (split_char 10 content) in
      if (length lines <=? cap)%nat then (Ok tt, t)
      else
        let payload := utf8_encode (unlines (drop (length lines - cap) lines)) in
        if negb (reopen_ok c) then (Err tt, t)
        else match rewritten c with
             | Some n => (Err tt, Some (take n payload))
             | None => (if resync_ok c then Ok tt else Err tt, Some payload)
             end
  end.

(** [append_record] *)
Definition append_record (c : TrailCalls) (r : R) : M Trail unit unit :=
  throw_if (negb (directory_ok c)) tt;;
  payload ← lift (ok_or tt (to_line r));
  throw_if (negb (open_ok c)) tt;;
  let bytes := utf8_encode (payload ++ [10%N]) in
  modify (fun t => Some (default [] t ++ match appended c with Some n => take n bytes | None => bytes end));;
  throw_if (bool_decide (is_Some (appended c)) || negb (sync_ok c)) tt;;
  throw_if (negb (restrict_ok c)) tt;;
  roll_cap c.
End Trails.

(** ** What a trail holds *)

(** A line as the codec writes it. *)
Definition clean_line (l : text) : Prop :=
  is_blank l = false /\ (10%N ∉ l) /\ last l <> Some 13%N /\ forallb scalar l = true.

(** The records JSON can carry exactly. *)
Class Storable (R : Type) := storable : R -> Prop.

(** On those the codec writes one clean line and reads it back. *)
Class LineCodecLaws (R : Type) {codec : LineCodec R} {st : Storable R} : Prop := {
  line_total r : storable r -> is_Some (to_line r);
  line_clean r l : storable r -> to_line r = Some l -> clean_line l;
  line_back r l : storable r -> to_line r = Some l -> of_line l = Some r
}.

Section Facts.
Context {R : Type} {codec : LineCodec R} {st : Storable R} {laws : LineCodecLaws R} (cap : nat).

(** A trail of complete lines. *)
Definition holds (rs : list R) (t : Trail) : Prop :=
  Forall storable rs /\ exists ls, mapM to_line rs = Some ls /\ default [] t = utf8_encode (unlines ls).

Lemma split_newlines_line l rest :
  x0a ∉ l -> split_newlines (l ++ x0a :: rest) = l :: split_newlines rest.
Proof.
  induction l as [|x l IH]; cbn [app split_newlines]; [by rewrite bool_decide_true |].
  intros [Hx Hl]%not_elem_of_cons. rewrite bool_decide_false by congruence. by rewrite IH.
Qed.

Lemma clean_bytes l : clean_line l -> x0a ∉ utf8_encode l.
Proof.
  intros (_ & Hn & _ & Hs) Hin. apply Hn. by apply (utf8_encode_byte l x0a) in Hin.
Qed.

Lemma newline_bytes l : utf8_encode (l ++ [10%N]) = utf8_encode l ++ [x0a].
Proof. by rewrite utf8_encode_app. Qed.

Lemma unlines_cons l ls : utf8_encode (unlines (l :: ls)) = utf8_encode l ++ x0a :: utf8_encode (unlines ls).
Proof. unfold unlines. cbn [flat_map]. by rewrite utf8_encode_app, newline_bytes, <- app_assoc. Qed.

Lemma split_unlines ls :
  Forall clean_line ls -> split_newlines (utf8_encode (unlines ls)) = map utf8_encode ls ++ [[]].
Proof.
  induction 1 as [|l ls Hl _ IH]; [done |].
  rewrite unlines_cons, split_newlines_line, IH by (by apply clean_bytes). done.
Qed.

Lemma strip_cr_clean l : clean_line l -> strip_cr (utf8_encode l) = utf8_encode l.
Proof.
  intros (_ & _ & Hcr & Hs). unfold strip_cr. destruct (last (utf8_encode l)) as [c|] eqn:Hl; [| done].
  case_bool_decide as Hc; [| done]. subst c. exfalso. apply Hcr. clear Hcr.
  destruct l as [|c l _] using rev_ind; [done |]. rewrite last_snoc. f_equal.
  rewrite utf8_encode_app in Hl. cbn [utf8_encode flat_map] in Hl. rewrite app_nil_r in Hl.
  rewrite forallb_app in Hs. apply andb_prop in Hs as [_ Hs]. cbn in Hs. rewrite andb_true_r in Hs.
  assert (Hin : x0d ∈ utf8_encode [c]).
  { cbn [utf8_encode flat_map]. rewrite app_nil_r. destruct (utf8_char c) as [|y ys] eqn:Hy using rev_ind.
    - unfold utf8_char in Hy. repeat case_match; done.
    - rewrite app_assoc, last_snoc in Hl. injection Hl as ->. apply elem_of_app. right. by left. }
  apply utf8_encode_byte in Hin; [| cbn; by rewrite Hs | done]. by apply list_elem_of_singleton in Hin as <-.
Qed.

Lemma buf_lines_unlines ls :
  Forall clean_line ls -> buf_lines (utf8_encode (unlines ls)) = map utf8_encode ls.
Proof.
  intros Hls. unfold buf_lines. rewrite split_unlines by done. rewrite removelast_last, last_snoc, app_nil_r.
  induction Hls as [|l ls Hl _ IH]; [done |]. cbn [map]. by rewrite strip_cr_clean, IH.
Qed.

Lemma while_utf8_encode ls : Forall clean_line ls -> while_utf8 (map utf8_encode ls) = ls.
Proof.
  induction 1 as [|l ls (_ & _ & _ & Hs) _ IH]; [done |]. cbn [map while_utf8].
  by rewrite from_utf8_encode, IH.
Qed.

Lemma to_lines_clean rs ls : Forall storable rs -> mapM to_line rs = Some ls -> Forall clean_line ls.
Proof.
  intros Hs H. apply mapM_Some in H. induction H as [|r l rs ls Hr _ IH]; [done |].
  apply Forall_cons in Hs as [Hr' Hs]. constructor; [by eapply line_clean | by apply IH].
Qed.

Lemma omap_of_lines rs ls : Forall storable rs -> mapM to_line rs = Some ls -> omap of_line ls = rs.
Proof.
  intros Hs H. apply mapM_Some in H. induction H as [|r l rs ls Hr _ IH]; [done |].
  apply Forall_cons in Hs as [Hr' Hs]. cbn. by rewrite (line_back _ _ Hr' Hr), (IH Hs).
Qed.

Lemma filter_clean ls : Forall clean_line ls -> List.filter (fun l => negb (is_blank l)) ls = ls.
Proof. induction 1 as [|l ls (Hb & _) _ IH]; [done |]. cbn [List.filter]. by rewrite Hb, IH. Qed.

(** A trail that holds records reads as them. *)
Lemma holds_read rs t : holds rs t -> read_records t = rs.
Proof.
  intros (Hs & ls & Hm & Ht). pose proof (to_lines_clean _ _ Hs Hm) as Hc. unfold read_records.
  destruct t as [b|]; cbn in Ht.
  - subst b. by rewrite buf_lines_unlines, while_utf8_encode, filter_clean, (omap_of_lines rs).
  - destruct ls as [|l ls]; [by rewrite <- (omap_of_lines _ _ Hs Hm) |]. by rewrite unlines_cons in Ht; destruct (utf8_encode l).
Qed.

Lemma clean_nonempty l : clean_line l -> l <> [].
Proof. intros (Hb & _) ->. done. Qed.

Lemma split_char_line l rest : (10%N ∉ l) -> split_char 10 (l ++ 10%N :: rest) = l :: split_char 10 rest.
Proof.
  induction l as [|x l IH]; cbn [app split_char]; [done |].
  intros [Hx Hl]%not_elem_of_cons. rewrite (proj2 (N.eqb_neq x 10)) by congruence. by rewrite IH.
Qed.

Lemma split_char_unlines ls : Forall clean_line ls -> split_char 10 (unlines ls) = ls ++ [[]].
Proof.
  induction 1 as [|l ls (_ & Hn & _) _ IH]; [done |].
  unfold unlines in *. cbn [flat_map]. rewrite <- app_assoc. cbn [app]. by rewrite split_char_line, IH.
Qed.

Lemma filter_nonempty ls :
  Forall clean_line ls -> List.filter (fun l => negb (bool_decide (l = []))) (ls ++ [[]]) = ls.
Proof.
  induction 1 as [|l ls Hl _ IH]; [done |]. cbn [app List.filter].
  rewrite bool_decide_false by (by apply clean_nonempty). by rewrite IH.
Qed.

Lemma scalar_unlines ls : Forall clean_line ls -> forallb scalar (unlines ls) = true.
Proof.
  induction 1 as [|l ls (_ & _ & _ & Hs) _ IH]; [done |].
  unfold unlines in *. cbn [flat_map]. by rewrite !forallb_app, Hs, IH.
Qed.

(** The newest [cap] records. *)
Definition newest (rs : list R) : list R := drop (length rs - cap) rs.

Lemma mapM_drop (f : R -> option text) n rs ls : mapM f rs = Some ls -> mapM f (drop n rs) = Some (drop n ls).
Proof.
  rewrite !mapM_Some. intros H. by apply Forall2_drop.
Qed.

Lemma holds_roll c rs t :
  holds rs t -> read_ok c = true -> reopen_ok c = true -> rewritten c = None -> resync_ok c = true ->
  exists t', roll_cap cap c t = (Ok tt, t') /\ holds (newest rs) t'.
Proof.
  intros (Hst & ls & Hm & Ht) Hrd Hro Hrw Hrs. pose proof (to_lines_clean _ _ Hst Hm) as Hc.
  assert (Hlen : length ls = length rs) by (apply mapM_Some, Forall2_length in Hm; done).
  assert (Hsame : length rs <= cap -> holds (newest rs) t).
  { intros Hle. unfold newest. replace (length rs - cap) with 0 by lia. split; [done | by exists ls]. }
  unfold roll_cap. rewrite Hrd. destruct t as [b|]; cbn in Ht |- *; [subst b |].
  - rewrite from_utf8_encode by (by apply scalar_unlines). rewrite split_char_unlines, filter_nonempty by done.
    destruct (decide (length rs <= cap)) as [Hle|Hgt].
    { rewrite (proj2 (Nat.leb_le _ _)) by (change (@length text ls <= cap); by rewrite Hlen). eexists. split; [reflexivity | by apply Hsame]. }
    rewrite (proj2 (Nat.leb_gt _ _)) by (change (cap < @length text ls); rewrite Hlen; lia). rewrite Hro, Hrw, Hrs. cbn [negb]. eexists. split; [reflexivity |]. split; [by apply Forall_drop |]. exists (drop (length ls - cap) ls).
    split; [| done]. unfold newest. rewrite Hlen. by apply mapM_drop.
  - eexists. split; [reflexivity |]. apply Hsame. destruct ls as [|l ls]; [rewrite <- Hlen; cbn; lia |].
    rewrite unlines_cons in Ht. by destruct (utf8_encode l).
Qed.

(** An append on working calls adds the record and keeps the newest. *)
Lemma holds_append rs r t :
  storable r -> holds rs t -> exists t', append_record cap all_calls_work r t = (Ok tt, t') /\ holds (newest (rs ++ [r])) t'.
Proof.
  intros Hr (Hst & ls & Hm & Ht). destruct (line_total r Hr) as [l Hl]. unfold append_record. unfold_monad. cbn [directory_ok all_calls_work negb].
  rewrite Hl. cbn -[roll_cap]. apply holds_roll; [| done..]. split; [by apply Forall_app; split; [| repeat constructor] |]. exists (ls ++ [l]).
  split; [apply mapM_Some; apply mapM_Some in Hm; by apply Forall2_app; [| repeat constructor] |]. cbn. rewrite Ht. unfold unlines.
  by rewrite flat_map_app, !utf8_encode_app; cbn [flat_map]; rewrite app_nil_r, utf8_encode_app.
Qed.

Lemma newest_bounded rs : length (newest rs) <= cap.
Proof. unfold newest. rewrite length_drop. lia. Qed.
End Facts.

(** ** A codec

    Any countable type of records has a line codec that satisfies the laws: its
    code in binary, least bit first. *)
Fixpoint code_line (p : positive) : text :=
  match p with xH => [49%N] | xO p => 48%N :: code_line p | xI p => 49%N :: code_line p end.

Fixpoint line_code (l : text) : positive :=
  match l with
  | [] | [_] => xH
  | c :: l => if (c =? 48)%N then xO (line_code l) else xI (line_code l)
  end.

Lemma code_line_nonempty p : code_line p <> [].
Proof. by destruct p. Qed.

Lemma line_code_line p : line_code (code_line p) = p.
Proof.
  induction p as [p IH|p IH|]; [| |done]; cbn [code_line line_code]; pose proof (code_line_nonempty p);
    destruct (code_line p); by rewrite ?IH.
Qed.

Lemma code_line_digits p : Forall (fun c => c = 48%N \/ c = 49%N) (code_line p).
Proof. induction p; cbn [code_line]; constructor; auto. Qed.

Lemma code_line_clean p : clean_line (code_line p).
Proof.
  pose proof (code_line_digits p) as Hd. rewrite Forall_forall in Hd. repeat split.
  - pose proof (code_line_nonempty p). destruct (code_line p) as [|c l]; [done |].
    unfold is_blank. cbn [forallb]. by destruct (Hd c ltac:(left)) as [-> | ->].
  - intros Hin. by destruct (Hd _ Hin).
  - intros Hl. apply last_Some_elem_of in Hl. by destruct (Hd _ Hl).
  - apply forallb_forall. intros c Hin%list_elem_of_In. by destruct (Hd _ Hin) as [-> | ->].
Qed.

Definition countable_codec {R : Type} `{Countable R} : LineCodec R :=
  {| to_line := fun r => Some (code_line (encode r)); of_line := fun l => decode (line_code l) |}.

Lemma countable_codec_laws {R : Type} `{Countable R} {st : Storable R} : @LineCodecLaws R countable_codec st.
Proof.
  constructor; cbn.
  - intros r _. by eexists.
  - intros r l _ [= <-]. apply code_line_clean.
  - intros r l _ [= <-]. by rewrite line_code_line, decode_encode.
Qed.
