(* ===== verification/Notification.v ===== *)
(** * The notification registry

    Model of [apps/desktop/src-tauri/src/notification.rs]: the content policy, the
    folding of repeated keys, the audit trail and the watcher of the managed
    runtime's state.  The registry behind its lock and the trail file are one
    state; the clock and the answers of the file calls are arguments. *)
From Stdlib Require Import NArith ZArith Lia.
From Stdlib Require Import Strings.Byte.
From S2P Require Import Prelude Text Json Environment ShellEnvironment Trail.
From stdpp Require Import base strings list option gmap sorting pretty.

Definition DEDUPE_TTL_MS : N := 60000.
Definition AUDIT_CAP : nat := 1000.
Definition DEDUPE_MAP_LIMIT : nat := 1024.
Definition SOURCE_APP : text := txt "shell".
Definition SOURCE_RUNTIME : text := txt "managed_runtime".
Definition MAX_TITLE_CHARS : nat := 128.
Definition MAX_BODY_CHARS : nat := 512.
Definition MAX_DEDUPE_KEY_CHARS : nat := 128.
Definition RUNTIME_CHANGE_STATES : list text := [txt "healthy"; txt "crashed"; txt "safe_stop"; txt "stopped"].

Inductive NotificationEvent := TurnCompleted | ApprovalRequired | QuestionRequired | RuntimeChanged | ScheduleResult.
Inductive ContentPolicy := TitleOnly | RedactedSummary | ExplicitBody.

Definition delivers_body (p : ContentPolicy) : bool := match p with ExplicitBody => true | _ => false end.

Record NotificationRequest := {
  req_schema_version : N; req_event : NotificationEvent; req_title : text; req_body : option text;
  req_content_policy : ContentPolicy; req_dedupe_key : option text
}.

Record NotificationReport := {
  rep_id : text; rep_event : NotificationEvent; rep_title : text; rep_content_policy : ContentPolicy;
  delivered_body : option text; rep_created_at_unix_ms : N; rep_dedupe_key : option text; deduplicated : bool
}.

Record NotificationRecord := {
  nr_id : text; nr_event : NotificationEvent; nr_title : text; nr_content_policy : ContentPolicy;
  nr_body : option text; nr_created_at_unix_ms : N; nr_dedupe_key : option text; nr_source : text
}.

Inductive NotificationError := MalformedNotification | AuditUnavailable | NotificationClockUnavailable.

Record NotificationCore := {
  sequence : N;
  dedupe_until : gmap text N;
  dismissed : gset text;
  last_runtime_state : gmap text text
}.

Record Registry := { core : NotificationCore; trail : Trail }.

Definition initial : Registry :=
  {| core := {| sequence := 0; dedupe_until := ∅; dismissed := ∅; last_runtime_state := ∅ |}; trail := None |}.

Definition set_core (f : NotificationCore -> NotificationCore) (s : Registry) : Registry :=
  {| core := f (core s); trail := trail s |}.

Abbreviation Op := (M Registry NotificationError).

(** [validate_request] *)
Definition validate_request (q : NotificationRequest) : bool :=
  if negb (req_schema_version q =? 1)%N then false
  else if (length (req_title q) =? 0)%nat || (MAX_TITLE_CHARS <? length (req_title q))%nat then false
  else if match req_dedupe_key q with
          | Some key => (length key =? 0)%nat || (MAX_DEDUPE_KEY_CHARS <? length key)%nat
          | None => false
          end then false
  else match req_content_policy q with
       | TitleOnly | RedactedSummary => bool_decide (req_body q = None)
       | ExplicitBody => match req_body q with None => true | Some body => (length body <=? MAX_BODY_CHARS)%nat end
       end.

(** [next_id]; [wrapping_add] *)
Definition next_id (now : N) : Op text := fun s =>
  let seq := u64_add (sequence (core s)) 1 in
  (Ok (txt "notif-" ++ txt (pretty now) ++ txt "-" ++ txt (pretty seq)),
   set_core (fun c => {| sequence := seq; dedupe_until := dedupe_until c; dismissed := dismissed c;
                         last_runtime_state := last_runtime_state c |}) s).

Definition with_windows (w : gmap text N) (c : NotificationCore) : NotificationCore :=
  {| sequence := sequence c; dedupe_until := w; dismissed := dismissed c; last_runtime_state := last_runtime_state c |}.

(** Whether the window of a key is open. *)
Definition window_open (key : text) (now : N) (c : NotificationCore) : bool :=
  match dedupe_until c !! key with Some until => (now <? until)%N | None => false end.

(** [dedupe_check] *)
Definition dedupe_check (key : text) (now : N) (c : NotificationCore) : bool * NotificationCore :=
  if window_open key now c then (true, c)
  else
    let w := if (DEDUPE_MAP_LIMIT <=? size (dedupe_until c))%nat
             then filter (fun kv => (now < kv.2)%N) (dedupe_until c) else dedupe_until c in
    (false, with_windows (<[key := u64_saturating_add now DEDUPE_TTL_MS]> w) c).

Section Operations.
Context {codec : LineCodec NotificationRecord}.

(** [append_record(path, &record)?] *)
Definition audit (calls : TrailCalls) (r : NotificationRecord) : Op unit :=
  zoom trail (fun t s => {| core := core s; trail := t |})
    (map_err_m (fun _ => AuditUnavailable) (append_record AUDIT_CAP calls r)).

Definition report_of (r : NotificationRecord) : NotificationReport :=
  {| rep_id := nr_id r; rep_event := nr_event r; rep_title := nr_title r; rep_content_policy := nr_content_policy r;
     delivered_body := nr_body r; rep_created_at_unix_ms := nr_created_at_unix_ms r;
     rep_dedupe_key := nr_dedupe_key r; deduplicated := false |}.

(** The record of a request: the body only under [ExplicitBody]. *)
Definition record_of (i : text) (q : NotificationRequest) (now : N) (source : text) : NotificationRecord :=
  {| nr_id := i; nr_event := req_event q; nr_title := req_title q; nr_content_policy := req_content_policy q;
     nr_body := if delivers_body (req_content_policy q) then Some (default [] (req_body q)) else None;
     nr_created_at_unix_ms := now; nr_dedupe_key := req_dedupe_key q; nr_source := source |}.

(** [request.dedupe_key().is_some_and(|key| dedupe_check(&mut core, key, now))] *)
Definition fold_check (key : option text) (now : N) : Op bool := fun s =>
  match key with
  | Some key => let '(folded, c) := dedupe_check key now (core s) in (Ok folded, set_core (fun _ => c) s)
  | None => (Ok false, s)
  end.

(** [notify] *)
Definition notify (calls : TrailCalls) (clock : option N) (q : NotificationRequest) (source : text) :
    Op NotificationReport :=
  throw_if (negb (validate_request q)) MalformedNotification;;
  now ← lift (ok_or NotificationClockUnavailable clock);
  folded ← fold_check (req_dedupe_key q) now;
  i ← next_id now;
  if (folded : bool) then
    mret {| rep_id := i; rep_event := req_event q; rep_title := req_title q; rep_content_policy := req_content_policy q;
            delivered_body := None; rep_created_at_unix_ms := now; rep_dedupe_key := req_dedupe_key q;
            deduplicated := true |}
  else
    let r := record_of i q now source in
    audit calls r;;
    mret (report_of r).

(** The order of [list]: newest first, then by id, both descending. *)
Definition newer (a b : NotificationReport) : Prop :=
  match (rep_created_at_unix_ms a ?= rep_created_at_unix_ms b)%N with
  | Gt => True
  | Lt => False
  | Eq => text_compare (rep_id a) (rep_id b) <> Lt
  end.
#[export] Instance newer_dec : RelDecision newer.
Proof.
  intros a b. unfold newer. destruct (rep_created_at_unix_ms a ?= rep_created_at_unix_ms b)%N; [| apply _ ..].
  destruct (text_compare (rep_id a) (rep_id b)); solve_decision.
Defined.

(** [list] *)
Definition list_notifications (s : Registry) : list NotificationReport :=
  merge_sort newer
    (map report_of (List.filter (fun r => negb (bool_decide (nr_id r ∈ dismissed (core s)))) (read_records (trail s)))).

(** [is_valid_notification_id] *)
Definition is_valid_notification_id (value : text) : bool :=
  match Text.strip_prefix (txt "notif-") value with
  | None => false
  | Some rest =>
      negb (bool_decide (rest = [])) && (utf8_len rest <=? 128)%N &&
      forallb (fun b => is_ascii_lowercase b || is_ascii_digit b || (b =? 45)%N) rest
  end.

(** [dismiss] *)
Definition dismiss (i : text) : Op unit :=
  throw_if (negb (is_valid_notification_id i)) MalformedNotification;;
  modify (set_core (fun c => {| sequence := sequence c; dedupe_until := dedupe_until c;
                                dismissed := {[ i ]} ∪ dismissed c; last_runtime_state := last_runtime_state c |})).

(** [runtime_change_report] *)
Definition runtime_change_report (calls : TrailCalls) (clock : option N) (environment state : text) :
    Op (option NotificationReport) :=
  if negb (bool_decide (state ∈ RUNTIME_CHANGE_STATES)) then mret None
  else
    s ← gets (fun s => s);
    modify (set_core (fun c => {| sequence := sequence c; dedupe_until := dedupe_until c; dismissed := dismissed c;
                                  last_runtime_state := <[environment := state]> (last_runtime_state c) |}));;
    if bool_decide (last_runtime_state (core s) !! environment = Some state) then mret None
    else
      now ← lift (ok_or NotificationClockUnavailable clock);
      i ← next_id now;
      let r := {| nr_id := i; nr_event := RuntimeChanged; nr_title := txt "Managed runtime " ++ state;
                  nr_content_policy := TitleOnly; nr_body := None; nr_created_at_unix_ms := now;
                  nr_dedupe_key := None; nr_source := SOURCE_RUNTIME |} in
      audit calls r;;
      mret (Some (report_of r)).

(** [maybe_emit_runtime_change]: the report handed to the web view, if any. *)
Definition maybe_emit_runtime_change (calls : TrailCalls) (clock : option N) (environment state : text) :
    Op (list NotificationReport) :=
  report ← runtime_change_report calls clock environment state;
  mret (match report with Some r => [r] | None => [] end).
End Operations.

(** ** What the notification registry guarantees

    The audit record of a delivery, the spacing of deliveries under one key, and
    what becomes of a delivery whose audit failed. *)

Section Facts.
Context {codec : LineCodec NotificationRecord}.

Lemma next_id_windows now s : dedupe_until (core (next_id now s).2) = dedupe_until (core s).
Proof. done. Qed.

Lemma audit_core calls r s : core (audit calls r s).2 = core s.
Proof. unfold audit, zoom, map_err_m. by destruct (append_record AUDIT_CAP calls r (trail s)). Qed.

(** Splits on how the audit of a delivery ends; it leaves the registry alone. *)
Ltac audited Ha :=
  cbn -[audit dedupe_check window_open];
  match goal with
  | |- context [audit ?c ?r ?st] => pose proof (audit_core c r st) as Ha; destruct (audit c r st) as [[] ?]
  end.

(** The windows a delivery leaves. *)
Lemma notify_windows calls now q source s :
  validate_request q = true ->
  dedupe_until (core (notify calls (Some now) q source s).2) =
    match req_dedupe_key q with
    | Some key => dedupe_until (dedupe_check key now (core s)).2
    | None => dedupe_until (core s)
    end.
Proof.
  intros Hv. unfold notify, fold_check. unfold_monad. rewrite Hv. cbn -[dedupe_check next_id audit].
  destruct (req_dedupe_key q) as [key|]; cbn -[dedupe_check next_id audit].
  - destruct (dedupe_check key now (core s)) as [[] c]; cbn -[audit]; [done |].
    audited Ha; cbn in Ha |- *; by rewrite Ha.
  - audited Ha; cbn in Ha |- *; by rewrite Ha.
Qed.

(** A delivery is folded exactly when its key's window is open. *)
Lemma notify_folds calls now q source s rep s' :
  notify calls (Some now) q source s = (Ok rep, s') ->
  rep_dedupe_key rep = req_dedupe_key q /\ rep_created_at_unix_ms rep = now /\
  deduplicated rep = match req_dedupe_key q with Some key => window_open key now (core s) | None => false end.
Proof.
  unfold notify, fold_check, dedupe_check. unfold_monad. destruct (validate_request q); [| done].
  cbn -[audit window_open]. destruct (req_dedupe_key q) as [key|] eqn:Hk; cbn -[audit window_open].
  - destruct (window_open key now (core s)); cbn -[audit].
    + by intros [= <- <-].
    + audited Ha; [| done]. by intros [= <- <-].
  - audited Ha; [| done]. by intros [= <- <-].
Qed.

(** ** Spacing *)

(** A run of the registry: the audited deliveries so far, newest first, and the
    latest time; the clock does not go back. *)
Inductive deliveries : Registry -> list (N * option text) -> N -> Prop :=
| deliveries_start : deliveries initial [] 0
| deliveries_ok s log last calls now q source rep s' :
    deliveries s log last -> (last <= now)%N ->
    notify calls (Some now) q source s = (Ok rep, s') ->
    deliveries s' (if deduplicated rep then log else (now, rep_dedupe_key rep) :: log) now
| deliveries_failed s log last calls clock q source e s' :
    deliveries s log last -> from_option (fun now => (last <= now)%N) True clock ->
    notify calls clock q source s = (Err e, s') ->
    deliveries s' log (default last clock)
| deliveries_dismiss s log last i : deliveries s log last -> deliveries (dismiss i s).2 log last
| deliveries_runtime s log last calls clock environment state :
    deliveries s log last -> deliveries (runtime_change_report calls clock environment state s).2 log last.

(** A past delivery of a key has its window over, or still recorded. *)
Definition remembered (w : gmap text N) (now : N) (d : N * option text) : Prop :=
  match d.2 with
  | Some key => (u64_saturating_add d.1 DEDUPE_TTL_MS <= now)%N \/
                exists until, w !! key = Some until /\ (u64_saturating_add d.1 DEDUPE_TTL_MS <= until)%N
  | None => True
  end.

Lemma remembered_later w now now' d : (now <= now')%N -> remembered w now d -> remembered w now' d.
Proof. unfold remembered. destruct d.2; [| done]. intros Hle [? | ?]; [left; lia | by right]. Qed.

Lemma remembered_check key now c d :
  remembered (dedupe_until c) now d -> remembered (dedupe_until (dedupe_check key now c).2) now d.
Proof.
  unfold remembered, dedupe_check. destruct d.2 as [k|]; [| done]. intros [Hover | (until & Hw & Hle)]; [by left |].
  destruct (window_open key now c) eqn:Ho; [right; by exists until |]. cbn [snd with_windows dedupe_until].
  destruct (decide (key = k)) as [->|Hne].
  - left. unfold window_open in Ho. rewrite Hw in Ho. apply N.ltb_ge in Ho. lia.
  - destruct (decide (until <= now)%N); [left; lia |]. right. exists until. split; [| done].
    rewrite lookup_insert_ne by done. destruct (DEDUPE_MAP_LIMIT <=? size (dedupe_until c))%nat; [| done].
    apply map_lookup_filter_Some. cbn. split; [done | lia].
Qed.

Lemma dismiss_windows i s : dedupe_until (core (dismiss i s).2) = dedupe_until (core s).
Proof. unfold dismiss. unfold_monad. by destruct (is_valid_notification_id i). Qed.

Lemma runtime_windows calls clock environment state s :
  dedupe_until (core (runtime_change_report calls clock environment state s).2) = dedupe_until (core s).
Proof.
  unfold runtime_change_report. destruct (negb _); [done |]. unfold_monad. case_bool_decide; [done |].
  destruct clock as [now|]; [| done]. cbn -[audit].
  audited Ha; cbn in Ha |- *; by rewrite Ha.
Qed.

Lemma failed_windows calls clock q source s e s' :
  notify calls clock q source s = (Err e, s') ->
  dedupe_until (core s') = dedupe_until (core s) \/
  exists now key, clock = Some now /\ dedupe_until (core s') = dedupe_until (dedupe_check key now (core s)).2.
Proof.
  destruct (validate_request q) eqn:Hv; [| unfold notify; unfold_monad; rewrite Hv; intros [= _ <-]; by left].
  destruct clock as [now|]; [| unfold notify; unfold_monad; rewrite Hv; intros [= _ <-]; by left].
  intros Hn. pose proof (notify_windows calls now q source s Hv) as Hw. rewrite Hn in Hw. cbn in Hw.
  destruct (req_dedupe_key q) as [key|]; [right; by exists now, key | by left].
Qed.

Lemma deliveries_remembered s log last :
  deliveries s log last -> Forall (remembered (dedupe_until (core s)) last) log.
Proof.
  induction 1 as [|s log last calls now q source rep s' _ IH Hle Hn|s log last calls clock q source e s' _ IH Hle Hn
    |s log last i _ IH|s log last calls clock environment state _ IH].
  - done.
  - assert (Hv : validate_request q = true).
    { destruct (validate_request q) eqn:Hv; [done |]. unfold notify in Hn. unfold_monad. by rewrite Hv in Hn. }
    pose proof (notify_windows calls now q source s Hv) as Hw. rewrite Hn in Hw. cbn in Hw. rewrite Hw.
    destruct (notify_folds _ _ _ _ _ _ _ Hn) as (Hkey & _ & Hf).
    assert (Hold : Forall (remembered (dedupe_until (core s')) now) log).
    { eapply Forall_impl; [exact IH |]. intros d Hd. apply (remembered_later _ _ now) in Hd; [| done]. rewrite Hw.
      destruct (req_dedupe_key q); [by apply remembered_check | done]. }
    rewrite <- Hw. destruct (deduplicated rep); [done |]. constructor; [| done]. rewrite Hkey. unfold remembered. cbn.
    destruct (req_dedupe_key q) as [key|]; [| done]. right. rewrite Hw. unfold dedupe_check. rewrite <- Hf. cbn.
    exists (u64_saturating_add now DEDUPE_TTL_MS). split; [apply lookup_insert_eq | done].
  - eapply Forall_impl; [exact IH |]. intros d Hd.
    assert (Hd' : remembered (dedupe_until (core s)) (default last clock) d).
    { eapply remembered_later; [| exact Hd]. by destruct clock; cbn in Hle |- *. }
    destruct (failed_windows _ _ _ _ _ _ _ Hn) as [-> | (now & key & -> & ->)]; [done | by apply remembered_check].
  - by rewrite dismiss_windows.
  - by rewrite runtime_windows.
Qed.

(** Deliveries under one key are a window apart: when a notification is
    delivered and not folded, every earlier delivery of its key is at least sixty
    seconds old, whatever deliveries, failed audits, dismissals and runtime
    reports came between and however the map of windows was pruned, as long as
    the clock does not go back. *)
Theorem deliveries_spaced s log last calls now q source rep s' key :
  deliveries s log last -> (last <= now)%N -> notify calls (Some now) q source s = (Ok rep, s') ->
  req_dedupe_key q = Some key -> deduplicated rep = false ->
  Forall (fun d => d.2 = Some key -> (u64_saturating_add d.1 DEDUPE_TTL_MS <= now)%N) log.
Proof.
  intros Hd Hle Hn Hkey Hnot. eapply Forall_impl; [by apply deliveries_remembered in Hd |].
  intros [at_ k] Hr Hk. cbn in Hk. subst k. apply (remembered_later _ _ now) in Hr; [| done].
  destruct (notify_folds _ _ _ _ _ _ _ Hn) as (_ & _ & Hf). rewrite Hkey, Hnot in Hf.
  destruct Hr as [? | (until & Hw & ?)]; [done |]. unfold window_open in Hf. rewrite Hw in Hf.
  symmetry in Hf. apply N.ltb_ge in Hf. cbn in *. lia.
Qed.

(** The window a delivery opens is open until it ends, its audit failed or not. *)
Lemma failed_window calls now q source s e s' key :
  notify calls (Some now) q source s = (Err e, s') -> e <> MalformedNotification -> req_dedupe_key q = Some key ->
  validate_request q = true /\ dedupe_until (core s') !! key = Some (u64_saturating_add now DEDUPE_TTL_MS).
Proof.
  intros Hn He Hk. destruct (validate_request q) eqn:Hv.
  - split; [done |]. pose proof (notify_windows calls now q source s Hv) as Hw. rewrite Hn, Hk in Hw. cbn in Hw.
    rewrite Hw. unfold dedupe_check. destruct (window_open key now (core s)) eqn:Ho; [| apply lookup_insert_eq].
    unfold notify, fold_check, dedupe_check in Hn. rewrite Hk in Hn. unfold_monad. rewrite Hv in Hn.
    cbn -[window_open] in Hn. by rewrite Ho in Hn.
  - unfold notify in Hn. unfold_monad. rewrite Hv in Hn. cbn in Hn. by injection Hn as <-.
Qed.

(** A delivery whose audit failed is folded when it is tried again: the window
    was opened before the record was written. *)
Lemma failed_delivery_is_folded calls calls' now now' q source s s1 key :
  notify calls (Some now) q source s = (Err AuditUnavailable, s1) -> req_dedupe_key q = Some key ->
  (now' < u64_saturating_add now DEDUPE_TTL_MS)%N ->
  exists rep s2, notify calls' (Some now') q source s1 = (Ok rep, s2) /\ deduplicated rep /\
                 delivered_body rep = None /\ trail s2 = trail s1.
Proof.
  intros Hn Hk Hlt. destruct (failed_window _ _ _ _ _ _ _ _ Hn (fun H => ltac:(discriminate H)) Hk) as [Hv Hw].
  unfold notify, fold_check, dedupe_check, window_open. unfold_monad. rewrite Hv, Hk. cbn -[lookup].
  rewrite Hw, (proj2 (N.ltb_lt _ _)) by done. by do 2 eexists.
Qed.
End Facts.

(** ** The trail of a delivery *)

(** A record of text, numbers and booleans: JSON carries every one. *)
#[local] Instance all_storable : Storable NotificationRecord := fun _ => True.

Section Audit.
Context {codec : LineCodec NotificationRecord} {laws : LineCodecLaws NotificationRecord}.

Lemma audit_ok rs r s :
  holds rs (trail s) ->
  exists t, audit all_calls_work r s = (Ok tt, {| core := core s; trail := t |}) /\ holds (newest AUDIT_CAP (rs ++ [r])) t.
Proof.
  intros Hh. destruct (holds_append AUDIT_CAP rs r (trail s) I Hh) as (t & Ha & Ht).
  unfold audit, zoom, map_err_m. rewrite Ha. by exists t.
Qed.

(** What a valid delivery does when the calls of its audit succeed.  Inside
    its key's window it is folded: the report carries no body and the trail is as
    it was.  Otherwise exactly one record is added to the trail, which keeps its
    newest thousand records and reads back as them; the record carries the body
    under [explicit_body] alone, and the report says what the record says. *)
Theorem notify_audits rs now q source s :
  validate_request q = true -> holds rs (trail s) ->
  exists rep s', notify all_calls_work (Some now) q source s = (Ok rep, s') /\
    if deduplicated rep
    then (exists key, req_dedupe_key q = Some key /\ window_open key now (core s) = true) /\
         delivered_body rep = None /\ trail s' = trail s
    else exists r, rep = report_of r /\ read_records (trail s') = newest AUDIT_CAP (rs ++ [r]) /\
         nr_source r = source /\ nr_title r = req_title q /\ nr_created_at_unix_ms r = now /\
         nr_body r = match req_content_policy q with ExplicitBody => Some (default [] (req_body q)) | _ => None end.
Proof.
  intros Hv Hh. unfold notify, fold_check, dedupe_check. unfold_monad. rewrite Hv. cbn -[audit window_open next_id].
  assert (Hdeliver : forall i s1, trail s1 = trail s ->
    exists rep s', (let '(res, s2) := audit all_calls_work (record_of i q now source) s1 in
       match res with Ok _ => (Ok (report_of (record_of i q now source)), s2) | Err e => (Err e, s2) end) = (Ok rep, s') /\
      deduplicated rep = false /\ exists r, rep = report_of r /\ read_records (trail s') = newest AUDIT_CAP (rs ++ [r]) /\
         nr_source r = source /\ nr_title r = req_title q /\ nr_created_at_unix_ms r = now /\
         nr_body r = match req_content_policy q with ExplicitBody => Some (default [] (req_body q)) | _ => None end).
  { intros i s1 Ht. rewrite <- Ht in Hh. destruct (audit_ok rs (record_of i q now source) s1 Hh) as (t & -> & Hnew).
    do 2 eexists. split; [reflexivity |]. split; [done |]. eexists. split; [reflexivity |].
    split; [by apply holds_read |]. cbn. by destruct (req_content_policy q). }
  destruct (req_dedupe_key q) as [key|] eqn:Hk; [destruct (window_open key now (core s)) eqn:Ho |];
    cbn -[audit window_open next_id].
  - do 2 eexists. split; [reflexivity |]. cbn. split; [by exists key | done].
  - edestruct Hdeliver as (rep & s' & Hd & Hf & Hr); [| exists rep, s'; split; [exact Hd | by rewrite Hf]]. done.
  - edestruct Hdeliver as (rep & s' & Hd & Hf & Hr); [| exists rep, s'; split; [exact Hd | by rewrite Hf]]. done.
Qed.

(** ** The runtime watcher *)

(** The reads of one environment's state, each with its time; what each reports. *)
Fixpoint watch (environment : text) (reads : list (N * text)) (s : Registry) : list (option NotificationReport) * Registry :=
  match reads with
  | [] => ([], s)
  | (now, state) :: reads =>
      match runtime_change_report all_calls_work (Some now) environment state s with
      | (Ok report, s) => let '(reports, s) := watch environment reads s in (report :: reports, s)
      | (Err _, s) => watch environment reads s
      end
  end.

(** The states that differ from the one before. *)
Fixpoint changes (last : option text) (states : list text) : list text :=
  match states with
  | [] => []
  | state :: states => (if bool_decide (last = Some state) then [] else [state]) ++ changes (Some state) states
  end.

Definition stable (state : text) : bool := bool_decide (state ∈ RUNTIME_CHANGE_STATES).

Lemma runtime_reports rs now environment state s :
  holds rs (trail s) -> stable state = true ->
  exists report s', runtime_change_report all_calls_work (Some now) environment state s = (Ok report, s') /\
    last_runtime_state (core s') !! environment = Some state /\
    if bool_decide (last_runtime_state (core s) !! environment = Some state)
    then report = None /\ holds rs (trail s')
    else (exists r, report = Some r /\ rep_title r = txt "Managed runtime " ++ state) /\
         exists rs', holds rs' (trail s').
Proof.
  unfold stable. intros Hh Hs. unfold runtime_change_report. rewrite Hs. clear Hs. unfold_monad. cbn [negb].
  case_bool_decide as Hsame; cbn -[audit].
  - do 2 eexists. split; [reflexivity |]. cbn. split; [apply lookup_insert_eq | done].
  - match goal with |- context [audit _ ?r ?st] => destruct (audit_ok rs r st) as (t & -> & Ht); [done |] end.
    do 2 eexists. split; [reflexivity |]. cbn. split; [apply lookup_insert_eq |]. split; [by eexists | by eexists].
Qed.

(** The watcher reports each change between stable states once: over any
    sequence of reads of one environment, with the calls of the trail succeeding,
    the titles reported are those of the stable states read, in order, less the
    ones equal to the stable state read before. *)
Theorem watcher_reports_changes environment reads s rs :
  holds rs (trail s) ->
  omap (fun r => rep_title <$> r) (watch environment reads s).1 =
  map (fun state => txt "Managed runtime " ++ state)
    (changes (last_runtime_state (core s) !! environment) (List.filter stable (map snd reads))).
Proof.
  revert s rs. induction reads as [|[now state] reads IH]; intros s rs Hh; [done |].
  cbn [watch map List.filter snd]. destruct (stable state) eqn:Hst.
  - destruct (runtime_reports rs now environment state s Hh Hst) as (report & s' & -> & Hlast & Hrep).
    cbn [changes]. case_bool_decide.
    + destruct Hrep as [-> Hh']. specialize (IH s' rs Hh'). rewrite Hlast in IH.
      destruct (watch environment reads s'). by cbn in IH |- *.
    + destruct Hrep as [(r & -> & Htitle) (rs' & Hh')]. specialize (IH s' rs' Hh'). rewrite Hlast in IH.
      destruct (watch environment reads s'). cbn in IH |- *. by rewrite Htitle, IH.
  - unfold runtime_change_report, stable in *. rewrite Hst. cbn [negb]. cbv [mret M_ret].
    specialize (IH s rs Hh). by destruct (watch environment reads s).
Qed.
End Audit.

(** ** The theorems at work *)
Module LocalNotifications.
#[local] Instance event_eq : EqDecision NotificationEvent := ltac:(solve_decision).
#[local] Instance policy_eq : EqDecision ContentPolicy := ltac:(solve_decision).

Definition event_code (e : NotificationEvent) : N :=
  match e with TurnCompleted => 0 | ApprovalRequired => 1 | QuestionRequired => 2 | RuntimeChanged => 3 | ScheduleResult => 4 end.
Definition event_of (n : N) : NotificationEvent :=
  match n with 0%N => TurnCompleted | 1%N => ApprovalRequired | 2%N => QuestionRequired | 3%N => RuntimeChanged
  | _ => ScheduleResult end.
Definition policy_code (p : ContentPolicy) : N := match p with TitleOnly => 0 | RedactedSummary => 1 | ExplicitBody => 2 end.
Definition policy_of (n : N) : ContentPolicy := match n with 0%N => TitleOnly | 1%N => RedactedSummary | _ => ExplicitBody end.

#[local] Instance record_eq : EqDecision NotificationRecord := ltac:(solve_decision).
#[local] Instance record_countable : Countable NotificationRecord.
Proof.
  refine (inj_countable
    (fun r => [Some (nr_id r); Some [event_code (nr_event r); policy_code (nr_content_policy r); nr_created_at_unix_ms r];
               Some (nr_title r); nr_body r; nr_dedupe_key r; Some (nr_source r)])
    (fun l => match l with
              | [Some i; Some [e; p; at_]; Some title; body; key; Some source] =>
                  Some {| nr_id := i; nr_event := event_of e; nr_title := title; nr_content_policy := policy_of p;
                          nr_body := body; nr_created_at_unix_ms := at_; nr_dedupe_key := key; nr_source := source |}
              | _ => None
              end) _).
  by intros [? [] ? [] ? ? ? ?].
Defined.

#[local] Instance codec : LineCodec NotificationRecord := countable_codec.
#[local] Instance laws : LineCodecLaws NotificationRecord := countable_codec_laws.

Definition ask (body : option text) : NotificationRequest :=
  {| req_schema_version := 1; req_event := TurnCompleted; req_title := txt "done"; req_body := body;
     req_content_policy := match body with Some _ => ExplicitBody | None => TitleOnly end;
     req_dedupe_key := Some (txt "turn") |}.

(** The disk is full at the first delivery. *)
Definition full : TrailCalls :=
  {| directory_ok := true; open_ok := true; appended := Some 0; sync_ok := true; restrict_ok := true;
     read_ok := true; reopen_ok := true; rewritten := None; resync_ok := true |}.

Definition first := notify all_calls_work (Some 1000%N) (ask None) SOURCE_APP initial.
Definition again := notify all_calls_work (Some 61000%N) (ask None) SOURCE_APP first.2.

Lemma deliveries_spaced_witness :
  exists rep rep', again.1 = Ok rep' /\ deduplicated rep' = false /\
  Forall (fun d => d.2 = Some (txt "turn") -> (u64_saturating_add d.1 DEDUPE_TTL_MS <= 61000)%N)
    [(1000%N, rep_dedupe_key rep)].
Proof.
  assert (H1 : exists rep s1, first = (Ok rep, s1) /\ deduplicated rep = false).
  { vm_compute. do 2 eexists. split; reflexivity. }
  assert (H2 : exists rep' s2, again = (Ok rep', s2) /\ deduplicated rep' = false).
  { vm_compute. do 2 eexists. split; reflexivity. }
  destruct H1 as (rep & s1 & H1 & Hd). destruct H2 as (rep' & s2 & H2 & Hd'). exists rep, rep'.
  split; [rewrite H2; reflexivity |].
  split; [exact Hd' |].
  assert (Hlog : (if deduplicated rep then [] else [(1000%N, rep_dedupe_key rep)]) = [(1000%N, rep_dedupe_key rep)])
    by (by rewrite Hd).
  rewrite <- Hlog.
  apply (deliveries_spaced s1 _ 1000 all_calls_work 61000 (ask None) SOURCE_APP rep' s2 (txt "turn")).
  - apply (deliveries_ok initial [] 0 all_calls_work 1000 (ask None) SOURCE_APP rep s1).
    + apply deliveries_start.
    + lia.
    + exact H1.
  - lia.
  - unfold again in H2. rewrite H1 in H2. exact H2.
  - reflexivity.
  - exact Hd'.
Defined.

Lemma notify_audits_witness :
  exists rep s', notify all_calls_work (Some 5%N) (ask (Some (txt "body"))) SOURCE_APP initial = (Ok rep, s') /\
  delivered_body rep = Some (txt "body").
Proof.
  destruct (notify_audits [] 5 (ask (Some (txt "body"))) SOURCE_APP initial) as (rep & s' & Hn & _).
  - reflexivity.
  - split; [constructor | by exists []].
  - exists rep, s'. split; [exact Hn |]. vm_compute in Hn. by injection Hn as <- _.
Defined.

(** Healthy, through starting, and healthy again: one report. *)
Lemma watcher_reports_changes_witness :
  omap (fun r => rep_title <$> r)
    (watch (txt "env") [(1%N, txt "healthy"); (2%N, txt "starting"); (3%N, txt "healthy"); (4%N, txt "stopped")] initial).1
  = [txt "Managed runtime healthy"; txt "Managed runtime stopped"].
Proof.
  rewrite (watcher_reports_changes (txt "env") _ initial []).
  - vm_compute. reflexivity.
  - split; [constructor | by exists []].
Defined.

(** A delivery on a full disk fails; the retry a second later is answered as a
    duplicate, and the trail has no record of it. *)
Example failed_then_folded :
  match notify full (Some 1000%N) (ask None) SOURCE_APP initial with
  | (Err AuditUnavailable, s) =>
      match notify all_calls_work (Some 2000%N) (ask None) SOURCE_APP s with
      | (Ok rep, s') => deduplicated rep = true /\ read_records (trail s') = []
      | _ => False
      end
  | _ => False
  end.
Proof. vm_compute. split; reflexivity. Qed.

(** A transition whose audit fails is not reported by the next read either. *)
Example failed_transition_is_lost :
  match runtime_change_report full (Some 1000%N) (txt "env") (txt "crashed") initial with
  | (Err AuditUnavailable, s) => (runtime_change_report all_calls_work (Some 2000%N) (txt "env") (txt "crashed") s).1 = Ok None
  | _ => False
  end.
Proof. vm_compute. reflexivity. Qed.

(** An append cut short leaves half a line; the next record joins it and is lost
    to every reader. *)
Example torn_append_swallows_next :
  let torn := {| directory_ok := true; open_ok := true; appended := Some 3; sync_ok := true; restrict_ok := true;
                 read_ok := true; reopen_ok := true; rewritten := None; resync_ok := true |} in
  match notify torn (Some 1000%N) (ask None) SOURCE_APP initial with
  | (Err AuditUnavailable, s) =>
      let '(r, s') := notify all_calls_work (Some 70000%N) (ask None) SOURCE_APP s in
      (exists rep, r = Ok rep /\ deduplicated rep = false) /\ length (read_records (trail s')) = 0
  | _ => False
  end.
Proof. vm_compute. split; [eexists; split; reflexivity | reflexivity]. Qed.
End LocalNotifications.
