(* ===== verification/DaemonClient.v ===== *)
(** * The Shell's connection to the daemon

    Model of [apps/desktop/src-tauri/src/daemon_client.rs] up to the start-up:
    the errors, the negotiation, the invocations with the worker thread that owns
    the transport, and the bridge of daemon events.

    The threads share the state [Client]: the command queue, the worker's table of
    pending invocations, the reply channels (capacity one, by the number of the
    call that waits on them) and the event queue.  Every function below is one
    step of one thread; what the transport answers is an argument.  The envelopes
    sent and received are kept as history. *)
From Stdlib Require Import NArith Ascii Lia.
From S2P Require Import Prelude Text Credential Envelope DaemonState TerminalCapability Dispatch DaemonServer.
From stdpp Require Import base strings list option gmap.

Definition EVENT_QUEUE_CAPACITY : nat := 512.

(** ** Errors *)

Inductive DaemonCommandError :=
| NotConnected
| TransportFailed (message : string)
| InvocationTimeout
| MalformedResponse (message : string)
| Remote (code : ErrorCode) (message : string) (retryable : bool).

(** [impl Display for DaemonCommandError] *)
Definition command_error_display (e : DaemonCommandError) : string :=
  match e with
  | NotConnected => "daemon is not connected"
  | TransportFailed m => "daemon transport: " +:+ m
  | InvocationTimeout => "daemon invocation timed out"
  | MalformedResponse m => "daemon response is malformed: " +:+ m
  | Remote c m r =>
      "daemon error " +:+ error_code_display c +:+ " (retryable=" +:+ (if r then "true" else "false") +:+ "): " +:+ m
  end.

(** [wire_code], [message], [retryable], [is_connection_class] *)
Definition wire_code (e : DaemonCommandError) : string :=
  match e with Remote c _ _ => error_code_display c | _ => error_code_display Unavailable end.

Definition command_error_message (e : DaemonCommandError) : string :=
  match e with
  | NotConnected => "The daemon is not connected."
  | TransportFailed m => "Daemon transport failed: " +:+ m
  | InvocationTimeout => "The daemon did not answer in time."
  | MalformedResponse m => "Daemon response is malformed: " +:+ m
  | Remote _ m _ => m
  end.

Definition command_error_retryable (e : DaemonCommandError) : bool :=
  match e with
  | Remote _ _ r => r
  | NotConnected | TransportFailed _ | InvocationTimeout => true
  | MalformedResponse _ => false
  end.

Definition is_connection_class (e : DaemonCommandError) : bool :=
  match e with NotConnected | TransportFailed _ | InvocationTimeout => true | _ => false end.

Inductive DaemonStartupError :=
| SpawnFailed (message : string)
| CredentialTimeout
| CredentialIo
| InvalidCredential (message : string)
| StartupTransport (e : TransportError)
| Negotiation (message : string).

(** [shell_capabilities] *)
Definition shell_capabilities : list ProtocolCoordinate :=
  [coordinate TERMINAL_API_VERSION TERMINAL_KIND; coordinate BROWSER_API_VERSION BROWSER_KIND;
   coordinate RUNTIME_API_VERSION RUNTIME_KIND; coordinate DAEMON_API_VERSION DAEMON_KIND;
   coordinate SCHEDULER_API_VERSION SCHEDULER_KIND].

(** The serializers the client uses: a hello payload, and [json!({})]. *)
Class ClientWire (Value : Type) := { hello_to_value : HelloPayload -> Value; empty_payload : Value }.

Definition shell_participant (activation : option string) : Participant :=
  {| component := SHELL_COMPONENT; facet := SHELL_FACET; participant_activation := activation |}.

Section ClientModel.
Context {Value : Type} `{sd : !Serde Value} `{cw : !ClientWire Value}.
Abbreviation Env := (Envelope Value).

(** ** Negotiation *)

(** The [Hello] of [connect_transport], stamped with an id and a timestamp. *)
Definition client_hello (nanos : N) (id time : string) : Env :=
  {| protocol := PROTOCOL; env_id := id; kind := Hello; reply_to := None; participant := shell_participant None;
     timestamp := time; generation := 0; capability := None; method := None;
     payload := Some (hello_to_value {| instance_id := "shell-" +:+ lower_hex 16 nanos;
                                        supports := shell_capabilities; requires := [] |});
     error := None |}.

(** The loop that drains events before the reply: what [recv_json] answers, in
    order; the list ends when the peer has closed. *)
Fixpoint first_reply (inbox : list (result TransportError (option Env))) : result DaemonStartupError Env :=
  match inbox with
  | [] | Ok None :: _ => Err (StartupTransport TClosed)
  | Err e :: _ => Err (StartupTransport e)
  | Ok (Some env) :: inbox => if kind env is Event then first_reply inbox else Ok env
  end.

Definition kind_debug (k : EnvelopeKind) : string :=
  match k with
  | Hello => "Hello" | Agreement => "Agreement" | Invocation => "Invocation" | Result => "Result" | Event => "Event"
  end.

(** The checks on the reply. *)
Definition accept_agreement (hello reply : Env) : result DaemonStartupError AgreementPayload :=
  if kind reply is Agreement then
    if negb (bool_decide (reply_to reply = Some (env_id hello))) then
      Err (Negotiation "Agreement does not correlate with the Hello")
    else
      match validate_envelope reply with
      | Err issues => Err (Negotiation ("Agreement failed frame validation: " +:+ issues_text issues))
      | Ok _ =>
          match v ← payload reply; if agreement_from_value v is Ok a then Some a else None with
          | None => Err (Negotiation "Agreement payload is not an agreementPayload")
          | Some a =>
              if bool_decide (granted a = []) then Err (Negotiation "the daemon granted no capabilities") else Ok a
          end
      end
  else Err (Negotiation ("expected Agreement, got " +:+ kind_debug (kind reply))).

(** ** The client and its worker *)

Inductive ClientReply := ReplyResult (env : Env) | TransportClosed.

Inductive ClientCommand :=
| Invoke (env : Env) (call : N)
| Abandon (id : string).

(** One [invoke] in progress: built, queued and waiting, or over. *)
Inductive CallState :=
| Built (env : Env)
| Waiting (env : Env)
| Finished (env : Env) (outcome : result DaemonCommandError Value).

Inductive WorkerPhase := Draining | Polling | Exited.

Record Client := {
  cl_activation : string;
  cl_generation : N;
  cl_id_counter : N;                      (* [ID_COUNTER] of the process *)
  handle : bool;                       (* the [DaemonClient] still exists *)
  stop : bool;
  cl_phase : WorkerPhase;
  commands : list ClientCommand;
  pending : gmap string N;
  replies : gmap N ClientReply;
  calls : gmap N CallState;
  next_call : N;
  events : list Env;
  sent : list Env;
  received : list Env
}.

(** The client [connect_transport] returns. *)
Definition new_client (a : AgreementPayload) (counter : N) : Client :=
  {| cl_activation := activation_id a; cl_generation := 1; cl_id_counter := counter; handle := true; stop := false;
     cl_phase := Draining; commands := []; pending := ∅; replies := ∅; calls := ∅; next_call := 0; events := [];
     sent := []; received := [] |}.

(** [connect_transport], over the inbox, when the hello was sent ([send_ok]). *)
Definition connect_transport (nanos counter : N) (time : string) (send_ok : result TransportError unit)
    (inbox : list (result TransportError (option Env))) : result DaemonStartupError Client :=
  let hello := client_hello nanos (unique_token "msg" nanos counter) time in
  match send_ok with
  | Err e => Err (StartupTransport e)
  | Ok _ =>
      reply ← first_reply inbox;
      a ← accept_agreement hello reply;
      Ok (new_client a (u64_add counter 1))
  end.

Definition set_calls (f : gmap N CallState -> gmap N CallState) (s : Client) : Client :=
  {| cl_activation := cl_activation s; cl_generation := cl_generation s; cl_id_counter := cl_id_counter s;
     handle := handle s; stop := stop s; cl_phase := cl_phase s; commands := commands s; pending := pending s;
     replies := replies s; calls := f (calls s); next_call := next_call s; events := events s; sent := sent s;
     received := received s |}.

Definition set_queue (q : list ClientCommand) (s : Client) : Client :=
  {| cl_activation := cl_activation s; cl_generation := cl_generation s; cl_id_counter := cl_id_counter s;
     handle := handle s; stop := stop s; cl_phase := cl_phase s; commands := q; pending := pending s;
     replies := replies s; calls := calls s; next_call := next_call s; events := events s; sent := sent s;
     received := received s |}.

Definition set_phase (p : WorkerPhase) (s : Client) : Client :=
  {| cl_activation := cl_activation s; cl_generation := cl_generation s; cl_id_counter := cl_id_counter s;
     handle := handle s; stop := stop s; cl_phase := p; commands := commands s; pending := pending s;
     replies := replies s; calls := calls s; next_call := next_call s; events := events s; sent := sent s;
     received := received s |}.

Definition set_pending (p : gmap string N) (s : Client) : Client :=
  {| cl_activation := cl_activation s; cl_generation := cl_generation s; cl_id_counter := cl_id_counter s;
     handle := handle s; stop := stop s; cl_phase := cl_phase s; commands := commands s; pending := p;
     replies := replies s; calls := calls s; next_call := next_call s; events := events s; sent := sent s;
     received := received s |}.

Definition put_reply (call : N) (r : ClientReply) (s : Client) : Client :=
  {| cl_activation := cl_activation s; cl_generation := cl_generation s; cl_id_counter := cl_id_counter s;
     handle := handle s; stop := stop s; cl_phase := cl_phase s; commands := commands s; pending := pending s;
     replies := <[call := r]> (replies s); calls := calls s; next_call := next_call s; events := events s;
     sent := sent s; received := received s |}.

(** The worker returns: its queue and its table are dropped. *)
Definition exit_worker (s : Client) : Client := set_phase Exited (set_queue [] (set_pending ∅ s)).

(** ** [invoke] *)

(** The envelope, with the next generation and a fresh id. *)
Definition invoke_build (nanos : N) (time : string) (cap : ProtocolCoordinate) (m : string) (v : Value)
    (s : Client) : Client :=
  let env :=
    {| protocol := PROTOCOL; env_id := unique_token "msg" nanos (cl_id_counter s); kind := Invocation; reply_to := None;
       participant := shell_participant (Some (cl_activation s)); timestamp := time; generation := cl_generation s;
       capability := Some cap; method := Some m; payload := Some v; error := None |} in
  {| cl_activation := cl_activation s; cl_generation := u64_add (cl_generation s) 1;
     cl_id_counter := u64_add (cl_id_counter s) 1; handle := handle s; stop := stop s; cl_phase := cl_phase s;
     commands := commands s; pending := pending s; replies := replies s;
     calls := <[next_call s := Built env]> (calls s); next_call := (next_call s + 1)%N; events := events s;
     sent := sent s; received := received s |}.

Definition gone : DaemonCommandError := TransportFailed "client worker is gone".

(** [self.commands.send(..)], which fails when the worker has returned. *)
Definition invoke_send (call : N) (s : Client) : Client :=
  match calls s !! call with
  | Some (Built env) =>
      match cl_phase s with
      | Exited => set_calls <[call := Finished env (Err gone)]> s
      | _ => set_calls <[call := Waiting env]> (set_queue (commands s ++ [Invoke env call]) s)
      end
  | _ => s
  end.

(** Whether the sender of a call's reply channel still exists. *)
Definition sender_alive (call : N) (s : Client) : bool :=
  existsb (fun c => match c with Invoke _ k => (k =? call)%N | Abandon _ => false end) (commands s)
  || existsb (fun kv => (kv.2 =? call)%N) (map_to_list (pending s)).

(** What [invoke] makes of the answer. *)
Definition outcome_of (r : ClientReply) : result DaemonCommandError Value :=
  match r with
  | ReplyResult reply =>
      match error reply with
      | Some e => Err (Remote (error_code e) (error_message e) (error_retryable e))
      | None => Ok (default empty_payload (payload reply))
      end
  | TransportClosed => Err (TransportFailed "client transport closed before the invocation was sent")
  end.

(** [recv_timeout]: the answer, when there is one, the end of a channel whose
    sender is gone, or, at the deadline, giving up and abandoning the entry. *)
Definition invoke_recv (call : N) (deadline : bool) (s : Client) : Client :=
  match calls s !! call with
  | Some (Waiting env) =>
      match replies s !! call with
      | Some r => set_calls <[call := Finished env (outcome_of r)]> s
      | None =>
          if negb (sender_alive call s) then set_calls <[call := Finished env (Err gone)]> s
          else if deadline then
            let s := match cl_phase s with Exited => s | _ => set_queue (commands s ++ [Abandon (env_id env)]) s end in
            set_calls <[call := Finished env (Err InvocationTimeout)]> s
          else s
      end
  | _ => s
  end.

(** [shutdown], and the last handle going away when no call borrows it. *)
Definition shutdown (s : Client) : Client :=
  {| cl_activation := cl_activation s; cl_generation := cl_generation s; cl_id_counter := cl_id_counter s;
     handle := handle s; stop := true; cl_phase := cl_phase s; commands := commands s; pending := pending s;
     replies := replies s; calls := calls s; next_call := next_call s; events := events s; sent := sent s;
     received := received s |}.

Definition finished (c : CallState) : bool := match c with Finished _ _ => true | _ => false end.

Definition drop_client (s : Client) : Client :=
  if forallb (fun kv => finished kv.2) (map_to_list (calls s)) then
    {| cl_activation := cl_activation s; cl_generation := cl_generation s; cl_id_counter := cl_id_counter s;
       handle := false; stop := stop s; cl_phase := cl_phase s; commands := commands s; pending := pending s;
       replies := replies s; calls := calls s; next_call := next_call s; events := events s; sent := sent s;
       received := received s |}
  else s.

(** ** [worker_loop] *)

Definition log_sent (env : Env) (s : Client) : Client :=
  {| cl_activation := cl_activation s; cl_generation := cl_generation s; cl_id_counter := cl_id_counter s;
     handle := handle s; stop := stop s; cl_phase := cl_phase s; commands := commands s; pending := pending s;
     replies := replies s; calls := calls s; next_call := next_call s; events := events s; sent := sent s ++ [env];
     received := received s |}.

(** One turn of the loop that drains the commands. *)
Definition worker_drain (send_ok : bool) (s : Client) : Client :=
  match cl_phase s, commands s with
  | Draining, Invoke env call :: rest =>
      let s := set_queue rest s in
      if send_ok then set_pending (<[env_id env := call]> (pending s)) (log_sent env s)
      else exit_worker (put_reply call TransportClosed s)
  | Draining, Abandon id :: rest => set_pending (delete id (pending s)) (set_queue rest s)
  | Draining, [] => if handle s then set_phase Polling s else exit_worker s
  | _, _ => s
  end.

(** [while !stop.load(..)] *)
Definition loop_head (s : Client) : Client := if stop s then exit_worker s else set_phase Draining s.

Definition push_event (env : Env) (s : Client) : Client :=
  {| cl_activation := cl_activation s; cl_generation := cl_generation s; cl_id_counter := cl_id_counter s;
     handle := handle s; stop := stop s; cl_phase := cl_phase s; commands := commands s; pending := pending s;
     replies := replies s; calls := calls s; next_call := next_call s;
     events := if (length (events s) <? EVENT_QUEUE_CAPACITY)%nat then events s ++ [env] else events s;
     sent := sent s; received := received s |}.

Definition log_received (env : Env) (s : Client) : Client :=
  {| cl_activation := cl_activation s; cl_generation := cl_generation s; cl_id_counter := cl_id_counter s;
     handle := handle s; stop := stop s; cl_phase := cl_phase s; commands := commands s; pending := pending s;
     replies := replies s; calls := calls s; next_call := next_call s; events := events s; sent := sent s;
     received := env :: received s |}.

(** What the worker does with an envelope. *)
Definition route (env : Env) (s : Client) : Client :=
  match kind env with
  | Event => push_event env s
  | Result =>
      match reply_to env with
      | Some id =>
          match pending s !! id with
          | Some call => put_reply call (ReplyResult env) (set_pending (delete id (pending s)) s)
          | None => s
          end
      | None => s
      end
  | _ => s
  end.

(** [recv_timeout] of the worker: [Some None] is a frame that is no envelope. *)
Definition worker_poll (r : result TransportError (option (option Env))) (s : Client) : Client :=
  match cl_phase s with
  | Polling =>
      match r with
      | Err _ => exit_worker s
      | Ok (Some (Some env)) => loop_head (route env (log_received env s))
      | Ok (Some None) | Ok None => loop_head s
      end
  | _ => s
  end.

(** ** Events *)

(** [daemon_event_target] *)
Definition daemon_event_target (env : Env) : option (string * Value) :=
  if kind env is Event then
    cap ← capability env;
    m ← method env;
    v ← payload env;
    if bool_decide (coordinate_kind cap = "Terminal") && bool_decide (m = "terminal.output")
    then Some ("terminal://output", v)
    else if bool_decide (coordinate_kind cap = "Browser") then Some ("browser://event", v)
    else None
  else None.

(** The bridge thread: the next event, and what it emits. *)
Definition bridge_step (s : Client) : list (string * Value) * Client :=
  match events s with
  | env :: rest =>
      (match daemon_event_target env with Some e => [e] | None => [] end,
       {| cl_activation := cl_activation s; cl_generation := cl_generation s; cl_id_counter := cl_id_counter s;
          handle := handle s; stop := stop s; cl_phase := cl_phase s; commands := commands s; pending := pending s;
          replies := replies s; calls := calls s; next_call := next_call s; events := rest; sent := sent s;
          received := received s |})
  | [] => ([], s)
  end.

(** Another connection of the process draws an id. *)
Definition draw_id (s : Client) : Client :=
  {| cl_activation := cl_activation s; cl_generation := cl_generation s; cl_id_counter := u64_add (cl_id_counter s) 1;
     handle := handle s; stop := stop s; cl_phase := cl_phase s; commands := commands s; pending := pending s;
     replies := replies s; calls := calls s; next_call := next_call s; events := events s; sent := sent s;
     received := received s |}.

(** The threads together, until 2^64 ids have been drawn. *)
Inductive client_step (s : Client) : Client -> Prop :=
| step_build nanos time cap m v :
    handle s = true -> (cl_id_counter s < U64_MAX)%N -> client_step s (invoke_build nanos time cap m v s)
| step_draw : (cl_id_counter s < U64_MAX)%N -> client_step s (draw_id s)
| step_send call : client_step s (invoke_send call s)
| step_recv call deadline : client_step s (invoke_recv call deadline s)
| step_shutdown : client_step s (shutdown s)
| step_drop : client_step s (drop_client s)
| step_drain send_ok : client_step s (worker_drain send_ok s)
| step_poll r : client_step s (worker_poll r s)
| step_bridge : client_step s (bridge_step s).2.
End ClientModel.

Arguments Client : clear implicits.
Arguments ClientCommand : clear implicits.
Arguments ClientReply : clear implicits.
Arguments CallState : clear implicits.
