(* ===== verification/DaemonClientFacts.v ===== *)
(** * What the Shell's client guarantees

    Message ids are unique; every answer reaches the invocation it is for, and no
    other; the worker's table does not leak; and the client and the daemon of
    [DaemonServer] understand each other. *)
From Stdlib Require Import NArith ZArith Ascii Lia.
From S2P Require Import Prelude Text Civil Credential Bootstrap Server Broker AgentBridge EventRouter Scheduler Terminal.
From S2P Require Import TerminalFacts Browser Envelope EnvelopeFacts DaemonState TerminalCapability HostCapabilities Dispatch.
From S2P Require Import DaemonServer DaemonServerFacts ReplyFacts DaemonClient.
From stdpp Require Import base strings list option gmap.

(** ** Message ids *)

(** The value of a hexadecimal digit, and of digits after a value. *)
Definition hex_value (c : ascii) : N := if (code c <? 58)%N then (code c - 48)%N else (code c - 87)%N.
Definition hex_read (v : N) (s : string) : N :=
  fold_left (fun v c => 16 * v + hex_value c)%N (String.list_ascii_of_string s) v.

Lemma hex_value_digit d : (d < 16)%N -> hex_value (hex_digit d) = d.
Proof.
  intros Hd. apply below_16_cases in Hd. cbn in Hd. repeat (destruct Hd as [<- | Hd]; [reflexivity |]). done.
Qed.

Lemma hex_digit_not_dash d : (d < 16)%N -> hex_digit d <> "-"%char.
Proof.
  intros Hd. apply below_16_cases in Hd. cbn in Hd. repeat (destruct Hd as [<- | Hd]; [done |]). done.
Qed.

Lemma hex_read_digits fuel n acc :
  (n < 16 ^ N.of_nat fuel)%N -> fuel <> 0 -> hex_read 0 (hex_digits fuel n acc) = hex_read n acc.
Proof.
  revert n acc. induction fuel as [|fuel IH]; intros n acc Hn Hf; [done |]. cbn [hex_digits].
  assert (Hmod : (n mod 16 < 16)%N) by (by apply N.mod_lt).
  assert (Hstep : forall v, hex_read v (String.String (hex_digit (n mod 16)) acc) = hex_read (16 * v + n mod 16) acc).
  { intros v. unfold hex_read. cbn [String.list_ascii_of_string fold_left]. by rewrite hex_value_digit. }
  destruct (N.ltb_spec n 16) as [Hlt | Hge].
  - rewrite Hstep. by rewrite N.mod_small.
  - assert (fuel <> 0) by (intros ->; change (16 ^ N.of_nat 1)%N with 16%N in Hn; lia). rewrite IH; [| | done].
    + rewrite Hstep. f_equal. rewrite (N.div_mod n 16) at 3 by done. lia.
    + apply N.Div0.div_lt_upper_bound. rewrite <- N.pow_succ_r'. by rewrite <- Nat2N.inj_succ.
Qed.

Lemma hex_read_zeros k s : hex_read 0 (zeros k +:+ s) = hex_read 0 s.
Proof. induction k as [|k IH]; [done |]. exact IH. Qed.

Lemma hex_read_lower w n : hex_read 0 (lower_hex w n) = n.
Proof.
  unfold lower_hex. rewrite hex_read_zeros, hex_read_digits; [done | | done].
  rewrite Nat2N.inj_succ, N2Nat.id. destruct (N.eq_dec n 0%N) as [-> | Hn]; [done |].
  eapply N.lt_le_trans; [apply N.log2_spec; lia |]. apply N.pow_le_mono_l. lia.
Qed.

(** A string without a dash. *)
Definition dashless (s : string) : Prop := ("-"%char ∉ String.list_ascii_of_string s).

Lemma dashless_digits fuel n acc : dashless acc -> dashless (hex_digits fuel n acc).
Proof.
  revert n acc. induction fuel as [|fuel IH]; intros n acc Ha; cbn [hex_digits]; [done |].
  assert (dashless (String.String (hex_digit (n mod 16)) acc)).
  { unfold dashless. cbn. apply not_elem_of_cons. split; [| done].
    intros H. symmetry in H. revert H. by apply hex_digit_not_dash, N.mod_lt. }
  destruct (n <? 16)%N; auto.
Qed.

Lemma list_ascii_app (s t : string) :
  String.list_ascii_of_string (s +:+ t) = String.list_ascii_of_string s ++ String.list_ascii_of_string t.
Proof.
  induction s as [|c s IH]; [done |]. change (String c s +:+ t) with (String c (s +:+ t)).
  cbn [String.list_ascii_of_string]. by rewrite IH.
Qed.

Lemma dashless_lower w n : dashless (lower_hex w n).
Proof.
  unfold lower_hex, dashless. rewrite list_ascii_app, elem_of_app. intros [Hz | Hd].
  - induction (w - _)%nat as [|k IH]; [by apply elem_of_nil in Hz |]. cbn in Hz.
    apply elem_of_cons in Hz as [Hz | Hz]; [done | auto].
  - revert Hd. apply dashless_digits. unfold dashless. cbn. apply not_elem_of_nil.
Qed.

Lemma dash_split (a b c d : list ascii) :
  ("-"%char ∉ a) -> ("-"%char ∉ c) -> a ++ "-"%char :: b = c ++ "-"%char :: d -> a = c /\ b = d.
Proof.
  revert c. induction a as [|x a IH]; intros [|y c]; cbn; intros Ha Hc H.
  - by injection H as ->.
  - injection H as <- _. apply not_elem_of_cons in Hc as [? _]. done.
  - injection H as -> _. apply not_elem_of_cons in Ha as [? _]. done.
  - apply not_elem_of_cons in Ha as [_ Ha], Hc as [_ Hc]. injection H as -> H.
    by destruct (IH c Ha Hc H) as [-> ->].
Qed.

(** Ids drawn from different values of the counter differ. *)
Lemma unique_token_inj p n c n' c' : unique_token p n c = unique_token p n' c' -> c = c'.
Proof.
  intros H. apply (f_equal String.list_ascii_of_string) in H. unfold unique_token in H.
  rewrite !list_ascii_app in H. apply app_inv_head in H. cbn in H. injection H as H.
  apply dash_split in H as [_ H]; [| apply dashless_lower..].
  assert (Hs : lower_hex 4 c = lower_hex 4 c').
  { rewrite <- (String.string_of_list_ascii_of_string (lower_hex 4 c)), H.
    apply String.string_of_list_ascii_of_string. }
  by rewrite <- (hex_read_lower 4 c), Hs, hex_read_lower.
Qed.

(** ** The threads of a client *)
Section Threads.
Context {Value : Type} `{sd : !Serde Value} `{cw : !ClientWire Value}.
Abbreviation Env := (Envelope Value).
Abbreviation Client := (Client Value).
Implicit Types (s : Client) (env : Env) (k : N).

Definition env_of (st : CallState Value) : Env :=
  match st with Built env | Waiting env | Finished env _ => env end.

(** A call whose invocation has been queued. *)
Definition known s k env : Prop :=
  calls s !! k = Some (Waiting env) \/ exists r, calls s !! k = Some (Finished env r).

(** A reply is an answer to an invocation that went out. *)
Definition answer_to s env (reply : Env) : Prop :=
  env ∈ sent s /\ reply ∈ received s /\ kind reply = Result /\ reply_to reply = Some (env_id env).

Record client_inv s : Prop := {
  inv_calls k st : calls s !! k = Some st -> (k < next_call s)%N /\
    exists n c, env_id (env_of st) = unique_token "msg" n c /\ (c < cl_id_counter s)%N;
  inv_unique k k' st st' :
    calls s !! k = Some st -> calls s !! k' = Some st' -> env_id (env_of st) = env_id (env_of st') -> k = k';
  inv_queue l1 env k l2 : commands s = l1 ++ Invoke env k :: l2 ->
    known s k env /\ replies s !! k = None /\ (forall id, pending s !! id <> Some k) /\
    (env_id env ∉ map env_id (sent s)) /\ (forall env', Invoke env' k ∉ l2) /\
    (calls s !! k = Some (Waiting env) \/ Abandon (env_id env) ∈ l2);
  inv_pending id k : pending s !! id = Some k ->
    exists env, id = env_id env /\ known s k env /\ env ∈ sent s /\ replies s !! k = None /\
                (calls s !! k = Some (Waiting env) \/ Abandon id ∈ commands s);
  inv_replies k r : replies s !! k = Some r ->
    exists env, known s k env /\ match r with ReplyResult reply => answer_to s env reply | TransportClosed => True end;
  inv_finished k env r : calls s !! k = Some (Finished env r) ->
    match r with
    | Ok _ | Err (Remote _ _ _) => exists reply, answer_to s env reply /\ r = outcome_of (ReplyResult reply)
    | Err _ => True
    end;
  inv_sent : NoDup (map env_id (sent s));
  inv_sent_known env : env ∈ sent s -> exists k, known s k env;
  inv_exited : cl_phase s = Exited -> commands s = [] /\ pending s = ∅
}.

Lemma known_lookup s k env : known s k env -> exists st, calls s !! k = Some st /\ env_of st = env.
Proof. intros [H | [r H]]; eauto. Qed.

(** Two calls with the same id are one. *)
Lemma known_unique s k k' env env' :
  client_inv s -> known s k env -> known s k' env' -> env_id env = env_id env' -> k = k'.
Proof.
  intros Hi (st & Hk & <-)%known_lookup (st' & Hk' & <-)%known_lookup He. by eapply inv_unique.
Qed.

Lemma known_same s k env env' : known s k env -> known s k env' -> env = env'.
Proof. intros (st & Hk & <-)%known_lookup (st' & Hk' & <-)%known_lookup. congruence. Qed.

(** The invariant looks at a state through these parts alone. *)
Lemma client_inv_parts s s' :
  calls s' = calls s -> next_call s' = next_call s -> (cl_id_counter s <= cl_id_counter s')%N ->
  commands s' = commands s -> pending s' = pending s -> replies s' = replies s -> sent s' = sent s ->
  (forall e, e ∈ received s -> e ∈ received s') -> (cl_phase s' = Exited -> cl_phase s = Exited) ->
  client_inv s -> client_inv s'.
Proof.
  intros Hc Hn Hid Hq Hp Hr Hs Hrec Hph [H1 H2 H3 H4 H5 H6 H7 H8 H9].
  assert (Hk : forall k env, known s' k env <-> known s k env) by (intros; unfold known; by rewrite Hc).
  assert (Ha : forall env reply, answer_to s env reply -> answer_to s' env reply).
  { intros env reply (? & ? & ?). unfold answer_to. rewrite Hs. split_and!; naive_solver. }
  split.
  - intros k st. rewrite Hc, Hn. intros (? & n & c & ? & ?)%H1. split; [done |]. exists n, c. split; [done | lia].
  - intros k k' st st'. rewrite Hc. apply H2.
  - intros l1 env k l2. rewrite Hq, Hr, Hp, Hs, Hc, Hk. apply H3.
  - intros id k. rewrite Hp. intros (env & ? & ? & ? & ? & ?)%H4. exists env. rewrite Hk, Hs, Hr, Hc, Hq. done.
  - intros k r. rewrite Hr. intros (env & ? & ?)%H5. exists env. rewrite Hk. split; [done |]. destruct r; auto.
  - intros k env r. rewrite Hc. intros Hf%H6. destruct r as [v|[]]; try done; naive_solver.
  - by rewrite Hs.
  - intros env. rewrite Hs. intros [k Hk']%H8. exists k. by apply Hk.
  - rewrite Hq, Hp. auto.
Qed.

Lemma inv_new a counter : client_inv (new_client (Value := Value) a counter).
Proof.
  split; cbn; try done; try (intros; by rewrite ?lookup_empty in *).
  - intros [|? l1] env k l2; discriminate.
  - constructor.
  - intros env H. by apply elem_of_nil in H.
Qed.

Lemma inv_exit s : client_inv s -> client_inv (exit_worker s).
Proof.
  intros [H1 H2 H3 H4 H5 H6 H7 H8 H9]. split; cbn; try done.
  intros [|? l1] env k l2; discriminate.
Qed.

(** The calls before the next one. *)
Lemma next_call_fresh s : client_inv s -> calls s !! next_call s = None.
Proof.
  intros Hi. destruct (calls s !! next_call s) as [st|] eqn:H; [| done].
  apply (inv_calls s Hi) in H as [H _]. lia.
Qed.

Lemma inv_build nanos time cap m v s :
  (cl_id_counter s < U64_MAX)%N -> client_inv s -> client_inv (invoke_build nanos time cap m v s).
Proof.
  intros Hlt Hi. pose proof (next_call_fresh s Hi) as Hfresh. destruct Hi as [H1 H2 H3 H4 H5 H6 H7 H8 H9].
  assert (Hadd : u64_add (cl_id_counter s) 1 = (cl_id_counter s + 1)%N) by (apply u64_add_small; lia).
  assert (Hne : forall k st, calls s !! k = Some st -> k <> next_call s) by (intros k st ? ->; congruence).
  assert (Hkn : forall k env, known s k env -> known (invoke_build nanos time cap m v s) k env).
  { intros k env [H | [r H]]; unfold known; cbn; rewrite lookup_insert_ne by (symmetry; eauto); eauto. }
  assert (Hw : forall k env, calls s !! k = Some (Waiting env) ->
            calls (invoke_build nanos time cap m v s) !! k = Some (Waiting env)).
  { intros k env H. cbn. rewrite lookup_insert_ne; [done | symmetry; eauto]. }
  split.
  - intros k st. cbn. rewrite Hadd. destruct (decide (k = next_call s)) as [-> | Hk].
    + rewrite lookup_insert_eq. intros [= <-]. split; [lia |]. do 2 eexists. split; [reflexivity | lia].
    + rewrite lookup_insert_ne by done. intros (? & n & c & ? & ?)%H1. split; [lia |]. exists n, c. split; [done | lia].
  - intros k k' st st'. cbn.
    destruct (decide (k = next_call s)) as [-> | Hk], (decide (k' = next_call s)) as [-> | Hk'];
      rewrite ?lookup_insert_eq, ?lookup_insert_ne by done; try done.
    + intros [= <-] (_ & n & c & -> & Hc)%H1 He. cbn in He. apply unique_token_inj in He. lia.
    + intros (_ & n & c & -> & Hc)%H1 [= <-] He. cbn in He. apply unique_token_inj in He. lia.
    + by apply H2.
  - intros l1 env k l2 (? & ? & ? & ? & ? & Hor)%H3. split_and!; auto. destruct Hor; auto.
  - intros id k (env & ? & ? & ? & ? & Hor)%H4. exists env. split_and!; auto. destruct Hor; auto.
  - intros k r (env & ? & Hr)%H5. exists env. split; [auto |]. destruct r; done.
  - intros k env r. cbn. destruct (decide (k = next_call s)) as [-> | Hk]; [by rewrite lookup_insert_eq |].
    rewrite lookup_insert_ne by done. apply H6.
  - exact H7.
  - intros env (k & ?)%H8. eauto.
  - exact H9.
Qed.

(** The state of one call changes and nothing else does. *)
Lemma inv_call s k0 env0 r :
  client_inv s -> known s k0 env0 \/ calls s !! k0 = Some (Built env0) ->
  (forall id, pending s !! id = Some k0 -> Abandon id ∈ commands s) ->
  (forall l1 env l2, commands s = l1 ++ Invoke env k0 :: l2 -> Abandon (env_id env) ∈ l2) ->
  match r with
  | Ok _ | Err (Remote _ _ _) => exists reply, answer_to s env0 reply /\ r = outcome_of (ReplyResult reply)
  | Err _ => True
  end ->
  client_inv (set_calls <[k0 := Finished env0 r]> s).
Proof.
  intros Hi Hst Hp Hq Hf. destruct Hi as [H1 H2 H3 H4 H5 H6 H7 H8 H9].
  assert (Hlook : exists st, calls s !! k0 = Some st /\ env_of st = env0).
  { destruct Hst as [(st & ? & ?)%known_lookup | ?]; eauto. }
  destruct Hlook as (st0 & Hst0 & He0).
  assert (Hkn : forall k env, known s k env -> known (set_calls <[k0 := Finished env0 r]> s) k env).
  { intros k env Hk. destruct (decide (k = k0)) as [-> | Hne].
    - apply known_lookup in Hk as (st & Hst' & <-). simplify_eq. right. eexists. cbn. apply lookup_insert_eq.
    - destruct Hk as [H | [r' H]]; unfold known; cbn; rewrite lookup_insert_ne by done; eauto. }
  assert (Hw : forall k env, k <> k0 -> calls s !! k = Some (Waiting env) ->
            <[k0 := Finished env0 r]> (calls s) !! k = Some (Waiting env)).
  { intros k env Hne H. by rewrite lookup_insert_ne. }
  split.
  - intros k st. cbn. destruct (decide (k = k0)) as [-> | Hne].
    + rewrite lookup_insert_eq. intros [= <-]. cbn. rewrite <- He0. by apply H1.
    + rewrite lookup_insert_ne by done. apply H1.
  - intros k k' st st'. cbn. destruct (decide (k = k0)) as [-> | Hne], (decide (k' = k0)) as [-> | Hne'];
      rewrite ?lookup_insert_eq, ?lookup_insert_ne by done; try done.
    + intros [= <-] Hk'. cbn. rewrite <- He0. by apply H2.
    + intros Hk [= <-]. cbn. rewrite <- He0. by apply H2.
    + apply H2.
  - intros l1 env k l2 Hc. cbn in Hc. destruct (H3 _ _ _ _ Hc) as (? & ? & ? & ? & ? & Hor). split_and!; auto. cbn.
    destruct (decide (k = k0)) as [-> | Hne]; [right; by eapply Hq |]. destruct Hor; auto.
  - intros id k Hpk. cbn in Hpk. destruct (H4 _ _ Hpk) as (env & ? & ? & ? & ? & Hor). exists env. split_and!; auto. cbn.
    destruct (decide (k = k0)) as [-> | Hne]; [right; by apply Hp |]. destruct Hor; auto.
  - intros k r' (env & ? & Hr)%H5. exists env. split; [auto |]. destruct r'; done.
  - intros k env r'. cbn. destruct (decide (k = k0)) as [-> | Hne].
    + rewrite lookup_insert_eq. intros [= <- <-]. destruct r as [v|[]]; try done; exact Hf.
    + rewrite lookup_insert_ne by done. apply H6.
  - exact H7.
  - intros env (k & ?)%H8. eauto.
  - exact H9.
Qed.

Lemma built_unqueued s k env :
  client_inv s -> calls s !! k = Some (Built env) ->
  (forall id, pending s !! id <> Some k) /\ (forall env', Invoke env' k ∉ commands s) /\ replies s !! k = None /\
  (env_id env ∉ map env_id (sent s)).
Proof.
  intros Hi Hb. assert (Hno : forall env', known s k env' -> False).
  { intros env' [H | [r H]]; congruence. }
  split_and!.
  - intros id (env' & _ & Hk & _)%(inv_pending s Hi). eauto.
  - intros env' (l1 & l2 & Hc)%list_elem_of_split. destruct (inv_queue s Hi _ _ _ _ Hc) as [Hk _]. eauto.
  - destruct (replies s !! k) as [r|] eqn:Hr; [| done]. apply (inv_replies s Hi) in Hr as (env' & Hk & _). by apply Hno in Hk.
  - intros (e & He & Hin)%list_elem_of_fmap. apply (inv_sent_known s Hi) in Hin as (k' & Hk').
    pose proof (known_lookup _ _ _ Hk') as (st & Hst & <-).
    assert (k = k') as <- by (eapply (inv_unique s Hi); [exact Hb | exact Hst | exact He]). eauto.
Qed.

Lemma inv_send_step k s : client_inv s -> client_inv (invoke_send k s).
Proof.
  intros Hi. unfold invoke_send. destruct (calls s !! k) as [[env|env|env r]|] eqn:Hk; try exact Hi.
  destruct (built_unqueued s k env Hi Hk) as (Hp & Hq & Hr & Hs).
  assert (Hgone : client_inv (set_calls <[k := Finished env (Err gone)]> s)).
  { apply inv_call; [done | by right | by intros id ?%Hp | | done].
    intros l1 env' l2 Hc. exfalso. apply (Hq env'). rewrite Hc. set_solver. }
  assert (Hgo : cl_phase s <> Exited ->
            client_inv (set_calls <[k := Waiting env]> (set_queue (commands s ++ [Invoke env k]) s))).
  2: { destruct (cl_phase s) eqn:?; [apply Hgo; congruence | apply Hgo; congruence | exact Hgone]. }
  clear Hgone. intros Hph. destruct Hi as [H1 H2 H3 H4 H5 H6 H7 H8 H9].
  set (s' := set_calls _ _).
  assert (Hc : calls s' = <[k := Waiting env]> (calls s)) by done.
  assert (Hkn : forall k' env', known s k' env' -> known s' k' env').
  { intros k' env' [H | [r H]]; unfold known; rewrite Hc, lookup_insert_ne by congruence; eauto. }
  assert (Hkk : known s' k env) by (left; rewrite Hc; apply lookup_insert_eq).
  split.
  - intros k' st. rewrite Hc. destruct (decide (k' = k)) as [-> | Hne].
    + rewrite lookup_insert_eq. intros [= <-]. by apply H1 in Hk.
    + rewrite lookup_insert_ne by done. apply H1.
  - intros k' k'' st st'. rewrite Hc. destruct (decide (k' = k)) as [-> | Hne], (decide (k'' = k)) as [-> | Hne'];
      rewrite ?lookup_insert_eq, ?lookup_insert_ne by done; try done.
    + intros [= <-] H. by apply (H2 _ _ _ _ Hk H).
    + intros H [= <-]. by apply (H2 _ _ _ _ H Hk).
    + apply H2.
  - intros l1 env' k' l2 Hq'. cbn in Hq'.
    destruct l2 as [|c l2 _] using rev_ind.
    + apply app_inj_tail in Hq' as [Hl [= <- <-]]. split_and!; try done; [set_solver |]. left. rewrite Hc. apply lookup_insert_eq.
    + rewrite app_comm_cons, app_assoc in Hq'. apply app_inj_tail in Hq' as [Hl <-].
      destruct (H3 _ _ _ _ Hl) as (? & ? & ? & ? & Hnot & Hor).
      assert (k' <> k) by (intros ->; apply (Hq env'); rewrite Hl; set_solver).
      split_and!; auto; [intros env'' Hin; apply elem_of_app in Hin as [Hin | Hin]; [by eapply Hnot |]; set_solver |].
      rewrite Hc, lookup_insert_ne by done. destruct Hor; [by left | right; set_solver].
  - intros id k' Hp'. change (pending s !! id = Some k') in Hp'. destruct (H4 _ _ Hp') as (env' & ? & ? & ? & ? & Hor).
    exists env'. split_and!; auto. assert (k' <> k) by (intros ->; by eapply Hp).
    rewrite Hc, lookup_insert_ne by done. destruct Hor; [by left | right; cbn; set_solver].
  - intros k' r (env' & ? & ?)%H5. exists env'. split; [auto |]. destruct r; done.
  - intros k' env' r. rewrite Hc. destruct (decide (k' = k)) as [-> | Hne]; [by rewrite lookup_insert_eq |].
    rewrite lookup_insert_ne by done. apply H6.
  - exact H7.
  - intros env' (k' & ?)%H8. eauto.
  - intros H. by apply Hph in H.
Qed.

Lemma alive_spec k s :
  sender_alive k s = true <-> (exists env, Invoke env k ∈ commands s) \/ exists id, pending s !! id = Some k.
Proof.
  unfold sender_alive. rewrite orb_true_iff, !existsb_exists. split.
  - intros [([env k'|] & Hin & Hk) | ([id k'] & Hin & Hk)]; [| done |].
    + apply N.eqb_eq in Hk as ->. left. exists env. by apply list_elem_of_In.
    + apply N.eqb_eq in Hk. cbn in Hk. subst k'. right. exists id. by apply elem_of_map_to_list, list_elem_of_In.
  - intros [(env & Hin) | (id & Hp)]; [left; exists (Invoke env k) | right; exists (id, k)]; cbn; rewrite N.eqb_refl.
    + split; [by apply list_elem_of_In | done].
    + split; [by apply list_elem_of_In, elem_of_map_to_list | done].
Qed.

(** The sender of a reply is gone once there is a reply. *)
Lemma replied_not_alive s k r : client_inv s -> replies s !! k = Some r -> sender_alive k s = false.
Proof.
  intros Hi Hr. apply not_true_is_false. rewrite alive_spec. intros [(env & Hin) | (id & Hp)].
  - apply list_elem_of_split in Hin as (l1 & l2 & Hc). destruct (inv_queue s Hi _ _ _ _ Hc) as (_ & ? & _). congruence.
  - apply (inv_pending s Hi) in Hp as (env & _ & _ & _ & ? & _). congruence.
Qed.

(** A call without a sender. *)
Lemma inv_call_unsent s k env r :
  client_inv s -> known s k env -> sender_alive k s = false ->
  match r with
  | Ok _ | Err (Remote _ _ _) => exists reply, answer_to s env reply /\ r = outcome_of (ReplyResult reply)
  | Err _ => True
  end ->
  client_inv (set_calls <[k := Finished env r]> s).
Proof.
  intros Hi Hk Ha Hr. assert (Hno : ~ sender_alive k s = true) by congruence. rewrite alive_spec in Hno.
  apply inv_call; [done | by left | | | done].
  - intros id Hp. exfalso. eauto.
  - intros l1 env' l2 Hc. exfalso. apply Hno. left. exists env'. rewrite Hc. set_solver.
Qed.

Lemma inv_abandon s id :
  client_inv s -> cl_phase s <> Exited -> client_inv (set_queue (commands s ++ [Abandon id]) s).
Proof.
  intros [H1 H2 H3 H4 H5 H6 H7 H8 H9] Hph. split; try done.
  - intros l1 env k l2 Hc. cbn in Hc. destruct l2 as [|c l2 _] using rev_ind.
    { apply app_inj_tail in Hc as [_ [=]]. }
    rewrite app_comm_cons, app_assoc in Hc. apply app_inj_tail in Hc as [Hc <-].
    destruct (H3 _ _ _ _ Hc) as (? & ? & ? & ? & Hnot & Hor). split_and!; auto.
    + intros env' Hin. apply elem_of_app in Hin as [Hin | Hin]; [by eapply Hnot | set_solver].
    + destruct Hor; [by left | right; set_solver].
  - intros id' k Hp. destruct (H4 _ _ Hp) as (env & ? & ? & ? & ? & Hor). exists env. split_and!; auto.
    destruct Hor; [by left | right; cbn; set_solver].
Qed.

Lemma inv_recv_step k deadline s : client_inv s -> client_inv (invoke_recv k deadline s).
Proof.
  intros Hi. unfold invoke_recv. destruct (calls s !! k) as [[env|env|env r]|] eqn:Hk; try exact Hi.
  assert (Hkn : known s k env) by (by left).
  destruct (replies s !! k) as [r|] eqn:Hr.
  { apply inv_call_unsent; [done | done | by eapply replied_not_alive |].
    destruct (inv_replies s Hi _ _ Hr) as (env' & Hk' & Ha). rewrite (known_same _ _ _ _ Hk' Hkn) in Ha.
    destruct r as [reply|]; [| done]. unfold outcome_of. destruct (error reply) eqn:?; exists reply; unfold outcome_of;
      by case_match; simplify_eq. }
  destruct (sender_alive k s) eqn:Ha; cbn [negb]; [| by apply inv_call_unsent].
  destruct deadline; [| exact Hi].
  assert (Hph : cl_phase s <> Exited).
  { intros Hx. apply (inv_exited s Hi) in Hx as [Hc Hp]. unfold sender_alive in Ha. rewrite Hc, Hp, map_to_list_empty in Ha. done. }
  replace (match cl_phase s with Exited => s | _ => set_queue (commands s ++ [Abandon (env_id env)]) s end)
    with (set_queue (commands s ++ [Abandon (env_id env)]) s) by (by destruct (cl_phase s)).
  apply inv_call; [by apply inv_abandon | by left | | | done].
  - intros id (env' & -> & Hk' & _)%(inv_pending s Hi). rewrite (known_same _ _ _ _ Hk' Hkn). cbn. set_solver.
  - intros l1 env' l2 Hc. destruct (inv_queue _ (inv_abandon s (env_id env) Hi Hph) _ _ _ _ Hc) as (Hk' & _).
    change (known s k env') in Hk'. rewrite (known_same _ _ _ _ Hk' Hkn). cbn in Hc.
    destruct l2 as [|c l2 _] using rev_ind; [by apply app_inj_tail in Hc as [_ [=]] |].
    rewrite app_comm_cons, app_assoc in Hc. apply app_inj_tail in Hc as [_ <-]. set_solver.
Qed.

Lemma inv_drain_step ok s : client_inv s -> client_inv (worker_drain ok s).
Proof.
  intros Hi. unfold worker_drain. destruct (cl_phase s) eqn:Hph; try exact Hi.
  destruct (commands s) as [|[env k|id] rest] eqn:Hc.
  { destruct (handle s); [| by apply inv_exit]. eapply client_inv_parts; [.. | exact Hi]; done. }
  - destruct (inv_queue s Hi [] env k rest Hc) as (Hkn & Hr & Hp & Hs & Hnot & Hor).
    assert (Hrest : forall l1 env' k' l2, rest = l1 ++ Invoke env' k' :: l2 -> k' <> k /\
              commands s = (Invoke env k :: l1) ++ Invoke env' k' :: l2).
    { intros l1 env' k' l2 ->. split; [| by rewrite Hc]. intros ->. apply (Hnot env'). set_solver. }
    destruct Hi as [H1 H2 H3 H4 H5 H6 H7 H8 H9].
    destruct ok.
    + split; try done.
      * intros l1 env' k' l2 Hq. cbn in Hq. destruct (Hrest _ _ _ _ Hq) as [Hne Hq'].
        destruct (H3 _ _ _ _ Hq') as (Hk' & ? & Hp' & Hs' & ? & ?). split_and!; try done.
        -- intros id. cbn. destruct (decide (id = env_id env)) as [-> | Hid];
             [rewrite lookup_insert_eq; congruence | rewrite lookup_insert_ne by done; apply Hp'].
        -- cbn. rewrite map_app. intros [? | Hin%list_elem_of_singleton]%elem_of_app; [done |]. apply Hne.
           eapply (known_unique s); [by split | exact Hk' | exact Hkn | done].
      * intros id k' Hp'. cbn in Hp'. destruct (decide (id = env_id env)) as [-> | Hid].
        -- rewrite lookup_insert_eq in Hp'. injection Hp' as <-. exists env. split_and!; try done. cbn. set_solver.
        -- rewrite lookup_insert_ne in Hp' by done. destruct (H4 _ _ Hp') as (env' & ? & ? & ? & ? & Hor').
           exists env'. split_and!; try done; cbn; [set_solver |]. destruct Hor' as [? | Hin]; [by left | right].
           rewrite Hc in Hin. by apply elem_of_cons in Hin as [? | ?].
      * intros k' r (env' & ? & Ha)%H5. exists env'. split; [done |]. destruct r; [| done].
        destruct Ha as (? & ? & ? & ?). split_and!; try done. cbn. set_solver.
      * intros k' env' r Hf%H6. destruct r as [v|[]]; try done; destruct Hf as (reply & (? & ? & ? & ?) & ?);
          exists reply; (split; [| done]); split_and!; try done; cbn; set_solver.
      * cbn. rewrite map_app. apply NoDup_app. split_and!; [done | | apply NoDup_singleton].
        intros x Hx Hx'%list_elem_of_singleton. by subst x.
      * intros env' Hin. cbn in Hin. apply elem_of_app in Hin as [Hin | Hin%list_elem_of_singleton]; [by apply H8 |].
        subst env'. by exists k.
      * intros Hx. cbn in Hx. congruence.
    + split; try done.
      * intros [|? l1] env' k' l2; discriminate.
      * intros k' r. cbn. destruct (decide (k' = k)) as [-> | Hne].
        -- rewrite lookup_insert_eq. intros [= <-]. by exists env.
        -- rewrite lookup_insert_ne by done. intros (env' & ? & Ha)%H5. exists env'. split; [done |]. by destruct r.
  - destruct Hi as [H1 H2 H3 H4 H5 H6 H7 H8 H9]. split; try done.
    + intros l1 env' k' l2 Hq. cbn in Hq.
      destruct (H3 (Abandon id :: l1) env' k' l2) as (? & ? & Hp & ? & ? & ?); [by rewrite Hc, Hq |].
      split_and!; try done. intros id' Hd. cbn in Hd. apply lookup_delete_Some in Hd as [_ Hd]. by apply Hp in Hd.
    + intros id' k' Hd. cbn in Hd. apply lookup_delete_Some in Hd as [Hne Hd].
      destruct (H4 _ _ Hd) as (env' & ? & ? & ? & ? & Hor). exists env'. split_and!; try done.
      destruct Hor as [? | Hin]; [by left | right]. rewrite Hc in Hin. by apply elem_of_cons in Hin as [[= ?] | ?].
    + intros Hx. cbn in Hx. congruence.
Qed.

Lemma inv_loop_head s : client_inv s -> client_inv (loop_head s).
Proof.
  intros Hi. unfold loop_head. destruct (stop s); [by apply inv_exit |]. eapply client_inv_parts; [.. | exact Hi]; done.
Qed.

Lemma inv_route env s : client_inv s -> env ∈ received s -> client_inv (route env s).
Proof.
  intros Hi Hrec. unfold route. destruct (kind env) eqn:Hkind; try exact Hi.
  2: { eapply client_inv_parts; [.. | exact Hi]; done. }
  destruct (reply_to env) as [id|] eqn:Hto; [| exact Hi]. destruct (pending s !! id) as [k|] eqn:Hp; [| exact Hi].
  destruct (inv_pending s Hi _ _ Hp) as (env0 & -> & Hkn & Hsent & Hnone & Hor).
  pose proof (known_unique s) as Huniq.
  destruct Hi as [H1 H2 H3 H4 H5 H6 H7 H8 H9]. split; try done.
  - intros l1 env' k' l2 Hq. destruct (H3 _ _ _ _ Hq) as (? & ? & Hp' & ? & ? & ?). split_and!; try done.
    + cbn. rewrite lookup_insert_ne; [done |]. intros <-. by apply Hp' in Hp.
    + intros id' Hd. cbn in Hd. apply lookup_delete_Some in Hd as [_ Hd]. by apply Hp' in Hd.
  - intros id' k' Hd. cbn in Hd. apply lookup_delete_Some in Hd as [Hne Hd].
    destruct (H4 _ _ Hd) as (env' & -> & Hk' & ? & ? & ?). exists env'. split_and!; try done. cbn.
    rewrite lookup_insert_ne; [done |]. intros <-. apply Hne. by rewrite (known_same _ _ _ _ Hk' Hkn).
  - intros k' r. cbn. destruct (decide (k' = k)) as [-> | Hne].
    + rewrite lookup_insert_eq. intros [= <-]. exists env0. split; [done |]. by split_and!.
    + rewrite lookup_insert_ne by done. intros (env' & ? & ?)%H5. exists env'. split; [done |]. by destruct r.
  - intros Hx. cbn in Hx |- *. destruct (H9 Hx) as [? ->]. by rewrite delete_empty.
Qed.

Lemma inv_poll_step r s : client_inv s -> client_inv (worker_poll r s).
Proof.
  intros Hi. unfold worker_poll. destruct (cl_phase s) eqn:Hph; try exact Hi.
  destruct r as [[[env|]|]|e]; try (by apply inv_loop_head); [| by apply inv_exit].
  apply inv_loop_head, inv_route; [| cbn; set_solver]. eapply client_inv_parts; [.. | exact Hi]; try done. cbn. set_solver.
Qed.

Lemma client_step_inv s s' : client_step s s' -> client_inv s -> client_inv s'.
Proof.
  intros Hstep Hi. destruct Hstep; auto using inv_build, inv_send_step, inv_recv_step, inv_drain_step, inv_poll_step.
  - eapply client_inv_parts; [.. | exact Hi]; try done. cbn. rewrite u64_add_small by lia. lia.
  - eapply client_inv_parts; [.. | exact Hi]; done.
  - unfold drop_client. case_match; [| done]. eapply client_inv_parts; [.. | exact Hi]; done.
  - unfold bridge_step. destruct (events s); [done |]. eapply client_inv_parts; [.. | exact Hi]; done.
Qed.

Lemma run_inv a counter s : rtc client_step (new_client a counter) s -> client_inv s.
Proof.
  intros Hr. pose proof (inv_new a counter) as Hi. induction Hr as [|s1 s2 s3 H12 _ IH]; [done |].
  by apply IH, (client_step_inv s1).
Qed.

(** C11.  Answers reach the call they are for.  Whatever the threads of a client
    do in whatever order, and whatever the transport delivers: a call that ends
    with the daemon's payload or the daemon's error ends with the content of a
    Result that was received and that names the id of that call's own
    invocation, and the invocation had been sent; no invocation is put on the
    wire twice, and no two calls share an id. *)
Theorem answers_reach_their_call a counter s :
  rtc client_step (new_client a counter) s ->
  (forall k env r, calls s !! k = Some (Finished env r) ->
     (exists v, r = Ok v) \/ (exists c m retry, r = Err (Remote c m retry)) ->
     exists reply, answer_to s env reply /\ r = outcome_of (ReplyResult reply)) /\
  NoDup (map env_id (sent s)) /\
  (forall k k' st st', calls s !! k = Some st -> calls s !! k' = Some st' ->
     env_id (env_of st) = env_id (env_of st') -> k = k').
Proof.
  intros Hr%run_inv. split_and!; [| apply inv_sent, Hr | apply (inv_unique s Hr)].
  intros k env r Hf. apply (inv_finished s Hr) in Hf. intros [[v ->] | (c & m & retry & ->)]; exact Hf.
Qed.

(** ** The worker's table *)

Definition waiting (st : CallState Value) : option string :=
  match st with Waiting env => Some (env_id env) | _ => None end.
Definition abandoned (c : ClientCommand Value) : option string :=
  match c with Abandon id => Some id | _ => None end.

Definition waiting_ids s : list string := omap (fun kv => waiting kv.2) (map_to_list (calls s)).
Definition abandoned_ids s : list string := omap abandoned (commands s).

Lemma pending_accounted s id k :
  client_inv s -> pending s !! id = Some k -> id ∈ waiting_ids s ++ abandoned_ids s.
Proof.
  intros Hi (env & -> & _ & _ & _ & [Hw | Ha])%(inv_pending s Hi); apply elem_of_app; [left | right].
  - apply list_elem_of_omap. exists (k, Waiting env). split; [by apply elem_of_map_to_list | done].
  - apply list_elem_of_omap. by exists (Abandon (env_id env)).
Qed.

(** The worker's table does not leak and its sends do not block: in every
    reachable state the pending entries are at most the calls still waiting and
    the abandonments still queued; a reply channel whose sender is queued or
    pending is empty, so that the one message it will carry fits; and a waiting
    call ends at its deadline. *)
Theorem pending_bounded a counter s :
  rtc client_step (new_client a counter) s ->
  size (pending s) <= length (waiting_ids s) + length (abandoned_ids s) /\
  (forall k, sender_alive k s = true -> replies s !! k = None) /\
  (forall k env, calls s !! k = Some (Waiting env) ->
     exists r, calls (invoke_recv k true s) !! k = Some (Finished env r)).
Proof.
  intros Hi%run_inv. split_and!.
  - rewrite <- length_app, <- size_dom.
    assert (Hsub : dom (pending s) ⊆ (list_to_set (waiting_ids s ++ abandoned_ids s) : gset string)).
    { intros id [k Hk]%elem_of_dom. apply elem_of_list_to_set. by eapply pending_accounted. }
    apply subseteq_size in Hsub. etrans; [exact Hsub |]. clear.
    induction (waiting_ids s ++ abandoned_ids s) as [|x l IH]; [by rewrite list_to_set_nil, size_empty |].
    rewrite list_to_set_cons. cbn [length].
    rewrite size_union_alt. rewrite size_singleton.
    etrans; [apply le_n_S, subseteq_size, subseteq_difference_l; reflexivity |]. lia.
  - intros k Ha. destruct (replies s !! k) as [r|] eqn:Hr; [| done].
    by rewrite (replied_not_alive s k r Hi Hr) in Ha.
  - intros k env Hk. unfold invoke_recv. rewrite Hk.
    destruct (replies s !! k) as [r|]; [| destruct (negb _)]; eexists; cbn; apply lookup_insert_eq.
Qed.
End Threads.

(** ** The client and the daemon *)

(** [serde_json] reads back the hello payload it printed, tells the five
    coordinates of the Shell apart, and prints [{}] as an object. *)
Class ClientWireLaws (Value : Type) `{!Serde Value} `{!ClientWire Value} : Prop := {
  cwl_hello h : hello_from_value (hello_to_value h) = Ok h;
  cwl_distinct : NoDup (map coordinate_to_string shell_capabilities)
}.




Section Together.
Context {Value C P OS RT Report Binding : Type} `{clock_c : !Clock C} `{pty : !PtyPlatform P OS}
  `{clock_os : !Clock OS} `{mr : !ManagedRuntime RT Report Binding} `{tw : !TerminalWire Value}
  `{bw : !BrowserCap.BrowserWire Value} `{rw : !RuntimeCap.RuntimeWire Value Report Binding}
  `{dw : !DaemonWire Value} `{sw : !ServerWire Value} `{sd : !Serde Value} `{cw : !ClientWire Value}
  `{ew : !EnvelopeWire Value} `{range : !ClockInRange C} `{laws : !WireLaws Value Report Binding}
  `{claws : !ClientWireLaws Value}.
Abbreviation World := (World Value C P OS RT).
Abbreviation Config := (Config Value C P OS RT).
Abbreviation Env := (Envelope Value).
Implicit Types (w : World) (env : Env) (cfg : Config).







(** The invocations the client builds for a coordinate and a method the schema
    accepts are valid. *)
Lemma built_ok nanos time cap m v (s : Client Value) :
  (nanos < STAMP_LIMIT)%N -> (cl_id_counter s <= U64_MAX)%N -> is_rfc3339_timestamp time = true ->
  coordinate_ok cap -> text_matches METHOD m -> is_object v = true -> len_ok 1 128 (cl_activation s) ->
  forall env, calls (invoke_build nanos time cap m v s) !! next_call s = Some (Built env) ->
  envelope_ok env /\ kind env = Invocation.
Proof.
  intros Hn Hc Ht Hcap Hm Hv Ha env. cbn. rewrite lookup_insert_eq. intros [= <-]. split; [| done].
  pose proof (unique_token_length "msg" nanos (cl_id_counter s) eq_refl Hn Hc) as Hl. unfold envelope_ok. cbn.
  split_and!; try done; [unfold len_ok, ID_MIN_LEN, ID_MAX_LEN; lia | by intros ? [= <-] |].
  split_and!; try done; [by exists cap | by exists m | by exists v].
Qed.

(** An invocation is answered: the daemon accepts what the client builds,
    whatever the handler does it sends one reply, and the worker hands that reply
    to the call that waits for it and forgets the entry. *)
Theorem invocation_answered cfg key nanos time cap m v (s s1 : Client Value) env k w :
  (nanos < STAMP_LIMIT)%N -> (cl_id_counter s <= U64_MAX)%N -> is_rfc3339_timestamp time = true ->
  coordinate_ok cap -> text_matches METHOD m -> is_object v = true -> len_ok 1 128 (cl_activation s) ->
  calls (invoke_build nanos time cap m v s) !! next_call s = Some (Built env) ->
  pending s1 !! env_id env = Some k -> cl_phase s1 = Polling ->
  (DaemonServer.id_counter (server w) <= U64_MAX)%N -> (env_id env ∉ seen_ids (session w)) ->
  exists r w', handle_envelope cfg key env w = (Ok [r], w') /\ validate_envelope r = Ok tt /\
    let s2 := worker_poll (Ok (Some (Some r))) s1 in
    replies s2 !! k = Some (ReplyResult r) /\ pending s2 !! env_id env = None /\ r ∈ received s2.
Proof.
  intros Hn Hc Ht Hcap Hm Hv Ha Hb Hp Hph Hw Hnew.
  destruct (built_ok nanos time cap m v s Hn Hc Ht Hcap Hm Hv Ha env Hb) as [Hok Hkind].
  unfold handle_envelope. rewrite (bind_run (gets session) _ w (session w) w eq_refl).
  rewrite (bind_run _ _ w tt (seen_world env w) eq_refl), bool_decide_false by done.
  rewrite (proj2 (validate_envelope_ok env) Hok), Hkind.
  destruct (handle_invocation_conforms cfg key env Hok Hkind (seen_world env w) Hw) as [_ Hr].
  destruct (handle_invocation cfg key env (seen_world env w)) as [[l|[]] w']. cbn in Hr.
  destruct Hr as (r & -> & [Hrok Hrto] & Hres). exists r, w'. split; [done |]. split; [by apply validate_envelope_ok |].
  unfold worker_poll, route. rewrite Hph, Hres, Hrto. cbn [pending log_received]. rewrite Hp. unfold loop_head.
  destruct (stop _); cbn; rewrite ?lookup_insert_eq, ?lookup_delete_eq, ?lookup_empty; split_and!; done || set_solver.
Qed.
End Together.

(** ** The theorems at work *)
Module LocalClient.
Import Toy Loopback Answering.

#[export] Instance client_wire : ClientWire Json := {| hello_to_value := JHello; empty_payload := JObject |}.
#[export] Instance client_laws : ClientWireLaws Json.
Proof. split; [done |]. apply (bool_decide_unpack _). vm_compute. exact I. Qed.

Definition now : string := "2026-08-31T09:30:00Z".
Definition agreed : AgreementPayload :=
  {| activation_id := "act-0001"; granted := shell_capabilities; unavailable := []; lease_constraints := None |}.

(** One invocation, from the build to the answer. *)
Definition s0 : Client Json := new_client agreed 0.
Definition s1 := invoke_build 1000 now terminal_coordinate "terminal.status" JObject s0.
Definition s2 := invoke_send 0 s1.
Definition s3 := worker_drain true s2.
Definition s4 := worker_drain true s3.
Definition asked : Envelope Json := default hello (env_of <$> calls s1 !! 0%N).
Definition answered : Envelope Json :=
  {| protocol := PROTOCOL; env_id := "reply-01"; Envelope.kind := Result; reply_to := Some (env_id asked);
     participant := server_participant None; timestamp := now; generation := 0; capability := Some terminal_coordinate;
     method := Some "terminal.status"%string; payload := Some JObject; error := None |}.
Definition s5 := worker_poll (Ok (Some (Some answered))) s4.
Definition s6 := invoke_recv 0 false s5.

Lemma run_to_s4 : rtc client_step s0 s4.
Proof.
  apply (rtc_l _ _ s1); [apply step_build; [done | reflexivity] |].
  apply (rtc_l _ _ s2); [apply step_send |]. apply (rtc_l _ _ s3); [apply step_drain |].
  apply (rtc_l _ _ s4); [apply step_drain | apply rtc_refl].
Qed.

Lemma run_to_s6 : rtc client_step s0 s6.
Proof.
  etrans; [exact run_to_s4 |].
  apply (rtc_l _ _ s5); [apply step_poll |]. apply (rtc_l _ _ s6); [apply step_recv | apply rtc_refl].
Qed.

Lemma answers_reach_their_call_witness : exists reply, answer_to s6 asked reply /\ Ok JObject = outcome_of (ReplyResult reply).
Proof.
  destruct (answers_reach_their_call agreed 0 s6 run_to_s6) as [H _].
  apply (H 0%N asked (Ok JObject)); [vm_compute; reflexivity | left; eexists; reflexivity].
Defined.

Lemma pending_bounded_witness : size (pending s4) = 1%nat /\ size (pending s4) <= length (waiting_ids s4) + length (abandoned_ids s4).
Proof.
  split; [vm_compute; reflexivity |].
  exact (proj1 (pending_bounded agreed 0 s4 run_to_s4)).
Defined.


Lemma invocation_answered_witness :
  exists r w', handle_envelope Toy.config 0 asked greeted = (Ok [r], w') /\
    replies (worker_poll (Ok (Some (Some r))) s4) !! 0%N = Some (ReplyResult r).
Proof.
  destruct (invocation_answered Toy.config 0 1000 now terminal_coordinate "terminal.status" JObject s0 s4 asked 0 greeted)
    as (r & w' & Hh & _ & Hr & _).
  - reflexivity.
  - vm_compute. discriminate.
  - reflexivity.
  - apply (validate_coordinate_nil _ ""). vm_compute. reflexivity.
  - apply valid_method_spec. vm_compute. reflexivity.
  - reflexivity.
  - unfold len_ok. vm_compute. lia.
  - reflexivity.
  - vm_compute. reflexivity.
  - reflexivity.
  - vm_compute. discriminate.
  - apply (bool_decide_unpack _). vm_compute. exact I.
  - exists r, w'. split; [exact Hh | exact Hr].
Defined.

(** A closed connection polls as if it were quiet: the worker goes round its loop
    without waiting and without noticing, until something has to be sent. *)
Example closed_connection_spins : cl_phase (worker_drain true (worker_poll (Ok None) s4)) = Polling.
Proof. vm_compute. reflexivity. Qed.
End LocalClient.
