(* ===== verification/Reconnect.v ===== *)
(** * Automatic reconnection

    Model of [BackoffState], [AutoReconnectConnector] and [DaemonClientState] of
    [apps/desktop/src-tauri/src/daemon_client.rs].  Connectors are numbers; any
    number of invocations run at once, each a program counter, and stop where the
    code waits: for the inner connector's answer and for the factory.  While the
    reconnect lock is held only its holder changes the connector, the epoch and
    the backoff, so that taking the lock and looking at them is one step.  Times
    are milliseconds of a clock that does not go back. *)
From Stdlib Require Import NArith Lia.
From S2P Require Import Prelude Envelope DaemonClient.
From stdpp Require Import base list option gmap.

Definition RECONNECT_BASE_INTERVAL : N := 2000.
Definition RECONNECT_MAX_INTERVAL : N := 30000.

(** ** [BackoffState] *)

Record BackoffState := { cap : N; base : N; interval : N; allowed_after : N }.

Definition new_backoff (b now : N) : BackoffState :=
  {| cap := N.max b RECONNECT_MAX_INTERVAL; base := b; interval := b; allowed_after := now |}.

(** [begin] *)
Definition begin_attempt (now : N) (b : BackoffState) : bool * BackoffState :=
  if (now <? allowed_after b)%N then (false, b)
  else (true, {| cap := cap b; base := base b; interval := N.min (interval b * 2) (cap b);
                 allowed_after := now + interval b |}).

(** [reset] *)
Definition reset (now : N) (b : BackoffState) : BackoffState :=
  {| cap := cap b; base := base b; interval := base b; allowed_after := now |}.

Section Connectors.
Context {Value : Type}.
Abbreviation Outcome := (result DaemonCommandError Value).

Definition connection_failure (r : Outcome) : option DaemonCommandError :=
  match r with Err e => if is_connection_class e then Some e else None | Ok _ => None end.

(** One [invoke]: the inner call in flight, the failure it recovers from, the
    factory running, the retry in flight, or the end with the connectors that
    were invoked and what they answered. *)
Inductive Invocation :=
| Invoking (conn epoch : N)
| Recovering (conn epoch : N) (original : DaemonCommandError)
| Connecting (conn : N) (original : DaemonCommandError)
| Retrying (conn : N) (original : DaemonCommandError) (fresh : N)
| Over (tried : list (N * Outcome)) (outcome : Outcome).

(** [AutoReconnectConnector], with the attempts of the factory, newest first. *)
Record AutoReconnect := {
  inner : N;
  epoch : N;
  reconnect_lock : option N;
  backoff : BackoffState;
  invocations : gmap N Invocation;
  connectors : N;                              (* the number of connectors made so far *)
  attempts : list (N * option bool);
  clock : N
}.

(** [with_base_interval]; [new] with [RECONNECT_BASE_INTERVAL]. *)
Definition with_base_interval (b now : N) : AutoReconnect :=
  {| inner := 0; epoch := 0; reconnect_lock := None; backoff := new_backoff b now; invocations := ∅;
     connectors := 1; attempts := []; clock := now |}.

Definition set_invocation (k : N) (i : Invocation) (s : AutoReconnect) : AutoReconnect :=
  {| inner := inner s; epoch := epoch s; reconnect_lock := reconnect_lock s; backoff := backoff s;
     invocations := <[k := i]> (invocations s); connectors := connectors s; attempts := attempts s; clock := clock s |}.

Definition set_lock (l : option N) (s : AutoReconnect) : AutoReconnect :=
  {| inner := inner s; epoch := epoch s; reconnect_lock := l; backoff := backoff s; invocations := invocations s;
     connectors := connectors s; attempts := attempts s; clock := clock s |}.

Definition set_backoff (b : BackoffState) (s : AutoReconnect) : AutoReconnect :=
  {| inner := inner s; epoch := epoch s; reconnect_lock := reconnect_lock s; backoff := b;
     invocations := invocations s; connectors := connectors s; attempts := attempts s; clock := clock s |}.

Definition set_attempts (l : list (N * option bool)) (s : AutoReconnect) : AutoReconnect :=
  {| inner := inner s; epoch := epoch s; reconnect_lock := reconnect_lock s; backoff := backoff s;
     invocations := invocations s; connectors := connectors s; attempts := l; clock := clock s |}.

Definition tick (now : N) (s : AutoReconnect) : AutoReconnect :=
  {| inner := inner s; epoch := epoch s; reconnect_lock := reconnect_lock s; backoff := backoff s;
     invocations := invocations s; connectors := connectors s; attempts := attempts s; clock := now |}.

(** [invoke] up to the inner call: [snapshot]. *)
Definition invoke_start (k : N) (s : AutoReconnect) : AutoReconnect :=
  match invocations s !! k with
  | None => set_invocation k (Invoking (inner s) (epoch s)) s
  | Some _ => s
  end.

(** The inner connector has answered. *)
Definition invoke_outcome (k : N) (r : Outcome) (s : AutoReconnect) : AutoReconnect :=
  match invocations s !! k with
  | Some (Invoking conn e) =>
      set_invocation k (match connection_failure r with
                        | Some original => Recovering conn e original
                        | None => Over [(conn, r)] r
                        end) s
  | _ => s
  end.

(** [recover] up to the factory or the retry. *)
Definition recover (k now : N) (s : AutoReconnect) : AutoReconnect :=
  match invocations s !! k with
  | Some (Recovering conn e original) =>
      let fail_original := set_invocation k (Over [(conn, Err original)] (Err original)) in
      match reconnect_lock s with
      | Some _ => fail_original s
      | None =>
          if negb (epoch s =? e)%N then
            set_invocation k (Retrying conn original (inner s)) (set_lock (Some k) s)
          else
            match begin_attempt now (backoff s) with
            | (false, _) => fail_original s
            | (true, b) =>
                set_invocation k (Connecting conn original)
                  (set_lock (Some k) (set_backoff b (set_attempts ((now, None) :: attempts s) s)))
            end
      end
  | _ => s
  end.

Definition close_attempt (ok : bool) (l : list (N * option bool)) : list (N * option bool) :=
  match l with (t, _) :: l => (t, Some ok) :: l | [] => [] end.

(** [install_fresh], with the connector the factory made. *)
Definition install_fresh (s : AutoReconnect) : AutoReconnect :=
  {| inner := connectors s; epoch := u64_add (epoch s) 1; reconnect_lock := reconnect_lock s; backoff := backoff s;
     invocations := invocations s; connectors := (connectors s + 1)%N; attempts := attempts s; clock := clock s |}.

(** The factory has returned. *)
Definition reconnected (k now : N) (ok : bool) (s : AutoReconnect) : AutoReconnect :=
  match invocations s !! k with
  | Some (Connecting conn original) =>
      let s := set_attempts (close_attempt ok (attempts s)) s in
      if ok then
        let s := install_fresh (set_backoff (reset now (backoff s)) s) in
        set_invocation k (Retrying conn original (inner s)) s
      else
        set_invocation k (Over [(conn, Err original)] (Err original)) (set_lock None s)
  | _ => s
  end.

(** The retry has answered. *)
Definition retry_outcome (k : N) (r : Outcome) (s : AutoReconnect) : AutoReconnect :=
  match invocations s !! k with
  | Some (Retrying conn original fresh) =>
      set_invocation k (Over [(conn, Err original); (fresh, r)] r) (set_lock None s)
  | _ => s
  end.

Inductive reconnect_step (s : AutoReconnect) : AutoReconnect -> Prop :=
| rs_start k : reconnect_step s (invoke_start k s)
| rs_outcome k r : reconnect_step s (invoke_outcome k r s)
| rs_recover k now : (clock s <= now)%N -> reconnect_step s (recover k now (tick now s))
| rs_reconnected k now ok : (clock s <= now)%N -> reconnect_step s (reconnected k now ok (tick now s))
| rs_retry k r : reconnect_step s (retry_outcome k r s).

(** ** [DaemonClientState] *)

(** [install], [connector] *)
Definition install {A} (c : A) (_ : option A) : option A := Some c.
Definition connector {A} (slot : option A) : option A := slot.
Definition is_connected {A} (slot : option A) : bool := if slot is Some _ then true else false.
End Connectors.

Arguments AutoReconnect : clear implicits.
Arguments Invocation : clear implicits.

(** ** Lemmas *)
Section Facts.
Context {Value : Type}.
Abbreviation AutoReconnect := (AutoReconnect Value).
Implicit Types (s : AutoReconnect).

(** Who may hold the lock. *)
Definition holds_lock (i : Invocation Value) : bool :=
  match i with Connecting _ _ | Retrying _ _ _ => true | _ => false end.

(** The connectors of an invocation in flight. *)
Definition invocation_ok (i : Invocation Value) : Prop :=
  match i with
  | Invoking _ _ => True
  | Recovering _ _ e | Connecting _ e => is_connection_class e = true
  | Retrying c e f => is_connection_class e = true /\ c <> f
  | Over [(c, r)] r' => r = r'
  | Over [(c, r); (f, r2)] r' => (exists e, r = Err e /\ is_connection_class e = true) /\ c <> f /\ r2 = r'
  | Over _ _ => False
  end.

(** The failed attempts in a row at the head of the log. *)
Fixpoint failures (l : list (N * option bool)) : N :=
  match l with (_, Some false) :: l => (1 + failures l)%N | _ => 0 end.

(** The gap after [k] failures in a row. *)
Definition gap (b : BackoffState) (k : N) : N := N.min (base b * 2 ^ k) (cap b).

(** Every attempt after a failed one waited out the gap. *)
Fixpoint spaced (b : BackoffState) (l : list (N * option bool)) : Prop :=
  match l with
  | [] => True
  | (t2, _) :: l' =>
      match l' with (t1, Some false) :: l'' => (t1 + gap b (failures l'') <= t2)%N | _ => True end /\ spaced b l'
  end.

(** The backoff against the log: closed when the last attempt is over. *)
Definition backoff_ok (b : BackoffState) (l : list (N * option bool)) : Prop :=
  match l with
  | [] | (_, Some true) :: _ => interval b = base b
  | (t, Some false) :: l' => interval b = gap b (failures l) /\ allowed_after b = (t + gap b (failures l'))%N
  | (t, None) :: l' => interval b = gap b (1 + failures l') /\ allowed_after b = (t + gap b (failures l'))%N
  end.

Record reconnect_inv s : Prop := {
  ri_lock k i : invocations s !! k = Some i -> (holds_lock i = true <-> reconnect_lock s = Some k);
  ri_lock_known k : reconnect_lock s = Some k -> exists i, invocations s !! k = Some i;
  ri_ok k i : invocations s !! k = Some i -> invocation_ok i;
  ri_inner : (inner s < connectors s)%N;
  ri_snapshot k c e : invocations s !! k = Some (Invoking c e) \/
      (exists o, invocations s !! k = Some (Recovering c e o)) ->
      (c < connectors s)%N /\ (c = inner s -> e = epoch s);
  ri_connecting k c o : invocations s !! k = Some (Connecting c o) ->
      (c < connectors s)%N /\ exists t l, attempts s = (t, None) :: l;
  ri_base : (base (backoff s) <= cap (backoff s))%N;
  ri_spaced : spaced (backoff s) (attempts s);
  ri_backoff : backoff_ok (backoff s) (attempts s);
  ri_open t l : attempts s = (t, None) :: l -> exists k c o, invocations s !! k = Some (Connecting c o)
}.

Lemma spaced_ext b b' l : base b = base b' -> cap b = cap b' -> spaced b l -> spaced b' l.
Proof.
  intros Hb Hc. induction l as [|[t2 o] l IH]; [done |]. cbn. unfold gap. rewrite Hb, Hc. intros [? ?]. auto.
Qed.

Lemma gap_double b k : N.min (gap b k * 2) (cap b) = gap b (1 + k).
Proof. unfold gap. rewrite N.add_1_l, N.pow_succ_r'. lia. Qed.

Lemma gap_zero b : (base b <= cap b)%N -> gap b 0 = base b.
Proof. unfold gap. rewrite N.pow_0_r. lia. Qed.

(** With no attempt open, the interval is the gap the next attempt leaves. *)
Lemma interval_gap b l :
  (base b <= cap b)%N -> (forall t l', l <> (t, None) :: l') -> backoff_ok b l -> interval b = gap b (failures l).
Proof.
  intros Hle Hopen Hb. destruct l as [|[t [[]|]] l]; cbn in Hb |- *; rewrite ?gap_zero by done; try done; [by destruct Hb |].
  by destruct (Hopen t l).
Qed.

Lemma reconnect_start b now : reconnect_inv (with_base_interval (Value := Value) b now).
Proof.
  split; cbn; try done; try (intros; by rewrite lookup_empty in *); [| lia].
  intros k c e [H | [o H]]; by rewrite lookup_empty in H.
Qed.

(** An invocation moves on without the lock. *)
Lemma inv_set s k i0 i :
  reconnect_inv s -> invocations s !! k = i0 -> (forall i1, i0 = Some i1 -> holds_lock i1 = false) ->
  holds_lock i = false -> invocation_ok i ->
  (forall c e, i = Invoking c e \/ (exists o, i = Recovering c e o) -> (c < connectors s)%N /\ (c = inner s -> e = epoch s)) ->
  reconnect_inv (set_invocation k i s).
Proof.
  intros [H1 H2 H3 H4 H5 H6 H7 H8 H9 H10] Hk Hi0 Hi Hok Hsnap.
  assert (Hl : reconnect_lock s <> Some k).
  { intros Hl. destruct (H2 _ Hl) as [i1 Hi1]. apply (H1 _ _ Hi1) in Hl. rewrite (Hi0 i1) in Hl by congruence. done. }
  split; try done.
  - intros k' i'. cbn. destruct (decide (k' = k)) as [-> | Hne].
    + rewrite lookup_insert_eq. intros [= <-]. rewrite Hi. split; [done | by intros]. 
    + rewrite lookup_insert_ne by done. apply H1.
  - intros k'. cbn. intros (i' & Hi')%H2. destruct (decide (k' = k)) as [-> | Hne].
    + rewrite lookup_insert_eq. eauto.
    + rewrite lookup_insert_ne by done. eauto.
  - intros k' i'. cbn. destruct (decide (k' = k)) as [-> | Hne].
    + rewrite lookup_insert_eq. by intros [= <-].
    + rewrite lookup_insert_ne by done. apply H3.
  - intros k' c e. cbn. destruct (decide (k' = k)) as [-> | Hne].
    + rewrite lookup_insert_eq. intros H. apply Hsnap. destruct H as [[= ->] | [o [= ->]]]; eauto.
    + rewrite lookup_insert_ne by done. apply H5.
  - intros k' c o. cbn. destruct (decide (k' = k)) as [-> | Hne].
    + rewrite lookup_insert_eq. by intros [= ->].
    + rewrite lookup_insert_ne by done. apply H6.
  - intros t l (k' & c & o & Hk')%H10. exists k', c, o. cbn. rewrite lookup_insert_ne; [done |]. intros <-.
    by apply (H1 _ _ Hk') in Hl || (apply Hl, (H1 _ _ Hk')).
Qed.

Lemma inv_tick now s : reconnect_inv s -> reconnect_inv (tick now s).
Proof. by intros []. Qed.

Lemma inv_start k s : reconnect_inv s -> reconnect_inv (invoke_start k s).
Proof.
  intros Hi. unfold invoke_start. destruct (invocations s !! k) eqn:Hk; [done |].
  apply (inv_set s k None); try done. intros c e [[= <- <-] | [o [=]]]. split; [apply (ri_inner s Hi) | done].
Qed.

Lemma inv_outcome k r s : reconnect_inv s -> reconnect_inv (invoke_outcome k r s).
Proof.
  intros Hi. unfold invoke_outcome. destruct (invocations s !! k) as [[c e| | | |]|] eqn:Hk; try done.
  pose proof (ri_snapshot s Hi k c e (or_introl Hk)) as Hs.
  destruct (connection_failure r) as [o|] eqn:Hr; eapply inv_set; try exact Hk; try done.
  - by intros ? [= <-].
  - destruct r as [|e']; [done |]. cbn in Hr. destruct (is_connection_class e') eqn:He; [| done]. by injection Hr as <-.
  - by intros c' e' [[=] | [o' [= <- <- <-]]].
  - by intros ? [= <-].
  - by intros c' e' [[=] | [o' [=]]].
Qed.

(** Without the lock no attempt is open. *)
Lemma closed_log s : reconnect_inv s -> reconnect_lock s = None -> forall t l, attempts s <> (t, None) :: l.
Proof.
  intros Hi Hl t l Ha. apply (ri_open s Hi) in Ha as (k & c & o & Hk).
  apply (ri_lock s Hi) in Hk. rewrite Hl in Hk. by destruct Hk as [Hk _]; specialize (Hk eq_refl).
Qed.

(** Only the holder of the lock is connecting or retrying. *)
Lemma lock_holder s k k' i :
  reconnect_inv s -> reconnect_lock s = Some k -> invocations s !! k' = Some i -> holds_lock i = true -> k' = k.
Proof. intros Hi Hl Hk Hh. apply (ri_lock s Hi k' i Hk) in Hh. congruence. Qed.

Lemma lock_free s k i : reconnect_inv s -> reconnect_lock s = None -> invocations s !! k = Some i -> holds_lock i = false.
Proof. intros Hi Hl Hk. destruct (holds_lock i) eqn:Hh; [| done]. apply (ri_lock s Hi k i Hk) in Hh. congruence. Qed.

(** The holder of a free lock. *)
Lemma take_lock s k i i' b l :
  reconnect_inv s -> reconnect_lock s = None -> invocations s !! k = Some i ->
  holds_lock i' = true -> invocation_ok i' ->
  base b = base (backoff s) -> cap b = cap (backoff s) -> spaced b l -> backoff_ok b l ->
  (forall c o, i' = Connecting c o -> (c < connectors s)%N /\ exists t l', l = (t, None) :: l') ->
  (forall t l', l = (t, None) :: l' -> exists c o, i' = Connecting c o) ->
  reconnect_inv (set_invocation k i' (set_lock (Some k) (set_backoff b (set_attempts l s)))).
Proof.
  intros Hi Hl Hk Hh Hok Hb Hc Hsp Hbo Hconn Hopen.
  assert (Hfree : forall k' i1, invocations s !! k' = Some i1 -> holds_lock i1 = false) by (intros; by eapply lock_free).
  destruct Hi as [H1 H2 H3 H4 H5 H6 H7 H8 H9 H10]. split; cbn.
  - intros k' i1. destruct (decide (k' = k)) as [-> | Hne].
    + rewrite lookup_insert_eq. intros [= <-]. by rewrite Hh.
    + rewrite lookup_insert_ne by done. intros Hi1. rewrite (Hfree _ _ Hi1). split; [done | congruence].
  - intros k' [= <-]. rewrite lookup_insert_eq. eauto.
  - intros k' i1. destruct (decide (k' = k)) as [-> | Hne].
    + rewrite lookup_insert_eq. by intros [= <-].
    + rewrite lookup_insert_ne by done. apply H3.
  - done.
  - intros k' c e. destruct (decide (k' = k)) as [-> | Hne].
    + rewrite lookup_insert_eq. by intros [[= ->] | [o [= ->]]].
    + rewrite lookup_insert_ne by done. apply H5.
  - intros k' c o. destruct (decide (k' = k)) as [-> | Hne].
    + rewrite lookup_insert_eq. intros [= ->]. by apply (Hconn c o).
    + rewrite lookup_insert_ne by done. intros Hi1. by apply Hfree in Hi1.
  - lia.
  - done.
  - done.
  - intros t l' (c & o & ->)%Hopen. exists k, c, o. apply lookup_insert_eq.
Qed.

Lemma inv_recover k now s : reconnect_inv s -> reconnect_inv (recover k now s).
Proof.
  intros Hi. unfold recover. destruct (invocations s !! k) as [[|c e o| | |]|] eqn:Hk; try done.
  pose proof (ri_ok s Hi _ _ Hk) as Hclass. cbn in Hclass.
  destruct (ri_snapshot s Hi k c e (or_intror (ex_intro _ o Hk))) as [Hc Hsnap].
  assert (Hgive : reconnect_inv (set_invocation k (Over [(c, Err o)] (Err o)) s)).
  { eapply inv_set; try exact Hk; try done; [by intros ? [= <-] |]. by intros ? ? [[=] | [? [=]]]. }
  destruct (reconnect_lock s) as [k'|] eqn:Hl; [done |].
  destruct (N.eqb_spec (epoch s) e) as [He | He]; cbn [negb].
  - unfold begin_attempt. destruct (N.ltb_spec now (allowed_after (backoff s))) as [|Hnow]; [done |].
    pose proof (closed_log s Hi Hl) as Hcl. pose proof (interval_gap _ _ (ri_base s Hi) Hcl (ri_backoff s Hi)) as Hint.
    eapply take_lock; try exact Hk; try done.
    + apply (spaced_ext (backoff s)); [done | done |]. cbn. split; [| apply (ri_spaced s Hi)].
      pose proof (ri_backoff s Hi) as Hb. destruct (attempts s) as [|[t [[]|]] l]; try done. cbn in Hb. destruct Hb as [_ Hb].
      lia.
    + cbn. split; [by rewrite Hint, gap_double | by rewrite Hint].
    + intros c' o' [= <- <-]. split; [done | eauto].
    + eauto.
  - replace (set_lock (Some k) s) with (set_lock (Some k) (set_backoff (backoff s) (set_attempts (attempts s) s))) by (by destruct s).
    eapply take_lock; try exact Hk; try done; [| apply (ri_spaced s Hi) | apply (ri_backoff s Hi)
      | intros t l Ha; by apply closed_log in Ha].
    cbn. split; [done |]. intros ->. by apply He; symmetry; apply Hsnap.
Qed.

(** The holder of the lock ends. *)
Lemma drop_lock s k i i' l :
  reconnect_inv s -> invocations s !! k = Some i -> holds_lock i = true ->
  holds_lock i' = false -> invocation_ok i' ->
  (forall c e, i' <> Invoking c e) -> (forall c e o, i' <> Recovering c e o) ->
  spaced (backoff s) l -> backoff_ok (backoff s) l -> (forall t l', l <> (t, None) :: l') ->
  reconnect_inv (set_invocation k i' (set_lock None (set_attempts l s))).
Proof.
  intros Hi Hk Hh Hh' Hok Hni Hnr Hsp Hbo Hopen.
  assert (Hl : reconnect_lock s = Some k) by (by apply (ri_lock s Hi k i Hk)).
  assert (Hother : forall k' i1, k' <> k -> invocations s !! k' = Some i1 -> holds_lock i1 = false).
  { intros k' i1 Hne Hi1. destruct (holds_lock i1) eqn:E; [| done]. by destruct Hne; eapply lock_holder. }
  destruct Hi as [H1 H2 H3 H4 H5 H6 H7 H8 H9 H10]. split; cbn; try done.
  - intros k' i1. destruct (decide (k' = k)) as [-> | Hne].
    + rewrite lookup_insert_eq. intros [= <-]. by rewrite Hh'.
    + rewrite lookup_insert_ne by done. intros Hi1. by rewrite (Hother _ _ Hne Hi1).
  - intros k' i1. destruct (decide (k' = k)) as [-> | Hne].
    + rewrite lookup_insert_eq. by intros [= <-].
    + rewrite lookup_insert_ne by done. apply H3.
  - intros k' c e. destruct (decide (k' = k)) as [-> | Hne].
    + rewrite lookup_insert_eq. intros [[= ?] | [o [= ?]]]; [by destruct (Hni c e) | by destruct (Hnr c e o)].
    + rewrite lookup_insert_ne by done. apply H5.
  - intros k' c o. destruct (decide (k' = k)) as [-> | Hne].
    + rewrite lookup_insert_eq. by intros [= ->].
    + rewrite lookup_insert_ne by done. intros Hi1. by apply (Hother _ _ Hne) in Hi1.
  - intros t l' ->. by destruct (Hopen t l').
Qed.

Lemma inv_reconnected k now ok s : reconnect_inv s -> reconnect_inv (reconnected k now ok s).
Proof.
  intros Hi. unfold reconnected. destruct (invocations s !! k) as [[| |c o| |]|] eqn:Hk; try done.
  destruct (ri_connecting s Hi _ _ _ Hk) as (Hc & t & l & Ha).
  pose proof (ri_ok s Hi _ _ Hk) as Hclass. cbn in Hclass.
  pose proof (ri_spaced s Hi) as Hsp. pose proof (ri_backoff s Hi) as Hbo. rewrite Ha in Hsp, Hbo. cbn in Hsp, Hbo.
  rewrite Ha. cbn [close_attempt]. destruct ok.
  2: { eapply drop_lock; try exact Hk; done. }
  assert (Hl : reconnect_lock s = Some k) by (by apply (ri_lock s Hi k _ Hk)).
  assert (Hother : forall k' i1, k' <> k -> invocations s !! k' = Some i1 -> holds_lock i1 = false).
  { intros k' i1 Hne Hi1. destruct (holds_lock i1) eqn:E; [| done]. by destruct Hne; eapply lock_holder. }
  destruct Hi as [H1 H2 H3 H4 H5 H6 H7 H8 H9 H10]. split; cbn.
  - intros k' i1. destruct (decide (k' = k)) as [-> | Hne].
    + rewrite lookup_insert_eq. by intros [= <-].
    + rewrite lookup_insert_ne by done. apply H1.
  - intros k' (i1 & Hi1)%H2. destruct (decide (k' = k)) as [-> | Hne];
      rewrite ?lookup_insert_eq, ?lookup_insert_ne by done; eauto.
  - intros k' i1. destruct (decide (k' = k)) as [-> | Hne].
    + rewrite lookup_insert_eq. intros [= <-]. cbn. split; [done | lia].
    + rewrite lookup_insert_ne by done. apply H3.
  - lia.
  - intros k' c' e. destruct (decide (k' = k)) as [-> | Hne].
    + rewrite lookup_insert_eq. by intros [[=] | [? [=]]].
    + rewrite lookup_insert_ne by done. intros [Hlt _]%H5. split; [lia |]. intros ->. lia.
  - intros k' c' o'. destruct (decide (k' = k)) as [-> | Hne].
    + by rewrite lookup_insert_eq.
    + rewrite lookup_insert_ne by done. intros Hi1. by apply (Hother _ _ Hne) in Hi1.
  - done.
  - exact (spaced_ext (backoff s) (reset now (backoff s)) ((t, Some true) :: l) eq_refl eq_refl Hsp).
  - done.
  - done.
Qed.

Lemma inv_retry k r s : reconnect_inv s -> reconnect_inv (retry_outcome k r s).
Proof.
  intros Hi. unfold retry_outcome. destruct (invocations s !! k) as [[| | |c o f|]|] eqn:Hk; try done.
  pose proof (ri_ok s Hi _ _ Hk) as [Hclass Hne].
  assert (Hl : reconnect_lock s = Some k) by (by apply (ri_lock s Hi k _ Hk)).
  assert (Hcl : forall t l, attempts s <> (t, None) :: l).
  { intros t l (k' & c' & o' & Hk')%(ri_open s Hi). assert (k' = k) as -> by (by eapply lock_holder). congruence. }
  replace (set_lock None s) with (set_lock None (set_attempts (attempts s) s)) by (by destruct s).
  eapply drop_lock; try exact Hk; try done; [| apply (ri_spaced s Hi) | apply (ri_backoff s Hi)].
  cbn. split_and!; [eauto | done | done].
Qed.

Lemma reconnect_step_inv s s' : reconnect_step s s' -> reconnect_inv s -> reconnect_inv s'.
Proof. intros [] Hi; auto using inv_start, inv_outcome, inv_recover, inv_reconnected, inv_retry, inv_tick. Qed.

Lemma reconnect_run_inv b now s : rtc reconnect_step (with_base_interval b now) s -> reconnect_inv s.
Proof.
  intros Hr. pose proof (reconnect_start b now) as Hi. induction Hr as [|s1 s2 s3 H12 _ IH]; [done |].
  by apply IH, (reconnect_step_inv s1).
Qed.

(** C22.  Recovery is bounded and single: however many invocations run at once
    and whatever fails, an invocation calls at most two connectors; it calls a
    second one only after the first failed as a connection, and never the one
    that failed; it answers with what the last connector it called answered.  At
    most one invocation at a time is reconnecting or retrying. *)
Theorem recovery_bounded b now s :
  rtc reconnect_step (with_base_interval b now) s ->
  (forall k tried r, invocations s !! k = Some (Over tried r) ->
     (exists c, tried = [(c, r)]) \/
     (exists c e f, tried = [(c, Err e); (f, r)] /\ is_connection_class e = true /\ f <> c)) /\
  (forall k k' i i', invocations s !! k = Some i -> invocations s !! k' = Some i' ->
     holds_lock i = true -> holds_lock i' = true -> k = k').
Proof.
  intros Hi%reconnect_run_inv. split.
  - intros k tried r Hk. apply (ri_ok s Hi) in Hk. cbn in Hk.
    destruct tried as [|[c r1] [|[f r2] [|]]]; try done; [left; subst; eauto |].
    destruct Hk as ((e & -> & He) & Hne & ->). right. exists c, e, f. split_and!; [done | done | congruence].
  - intros k k' i i' Hk Hk' Hh Hh'. apply (ri_lock s Hi k i Hk) in Hh.
    symmetry. by apply (lock_holder s k k' i').
Qed.

Lemma backoff_fixed s1 s2 :
  rtc reconnect_step s1 s2 -> base (backoff s2) = base (backoff s1) /\ cap (backoff s2) = cap (backoff s1).
Proof.
  induction 1 as [|s1 s2 s3 H12 _ [-> ->]]; [done |]. destruct H12 as [k|k r|k n|k n ok|k r];
    unfold invoke_start, invoke_outcome, recover, begin_attempt, reconnected, retry_outcome;
    repeat case_match; simplify_eq; done.
Qed.

(** A daemon that is down is not hammered: an attempt that fails after [k]
    failures in a row delays the next one by at least min(base * 2^k, cap), in
    every run of any number of failing invocations; with the default base that is
    2, 4, 8, 16 and then 30 seconds. *)
Theorem reconnects_spaced b now s l1 t2 o t1 l2 :
  rtc reconnect_step (with_base_interval b now) s ->
  attempts s = l1 ++ (t2, o) :: (t1, Some false) :: l2 ->
  (t1 + N.min (b * 2 ^ failures l2) (N.max b RECONNECT_MAX_INTERVAL) <= t2)%N.
Proof.
  intros Hr Ha. destruct (backoff_fixed _ _ Hr) as [Hb Hc]. cbn in Hb, Hc.
  pose proof (ri_spaced s (reconnect_run_inv _ _ _ Hr)) as Hsp. rewrite Ha in Hsp. clear Ha Hr.
  induction l1 as [|[t0 o0] l1 IH]; [| apply IH, Hsp]. cbn in Hsp. unfold gap in Hsp. rewrite Hb, Hc in Hsp. apply Hsp.
Qed.
End Facts.

(** ** The theorems at work *)
Module LocalReconnect.
Abbreviation State := (AutoReconnect unit).

(** Two invocations fail one after the other while the daemon is down. *)
Definition a0 : State := with_base_interval RECONNECT_BASE_INTERVAL 0.
Definition a1 := invoke_start 1 a0.
Definition a2 := invoke_outcome 1 (Err InvocationTimeout) a1.
Definition a3 := recover 1 100 (tick 100 a2).
Definition a4 := reconnected 1 400 false (tick 400 a3).
Definition a5 := invoke_start 2 a4.
Definition a6 := invoke_outcome 2 (Err NotConnected) a5.
Definition a7 := recover 2 3000 (tick 3000 a6).
Definition a8 := reconnected 2 3100 true (tick 3100 a7).
Definition a9 := retry_outcome 2 (Ok tt) a8.

Lemma run_to_a9 : rtc reconnect_step a0 a9.
Proof.
  apply (rtc_l _ _ a1); [apply rs_start |]. apply (rtc_l _ _ a2); [apply rs_outcome |].
  apply (rtc_l _ _ a3); [apply rs_recover; done |]. apply (rtc_l _ _ a4); [apply rs_reconnected; done |].
  apply (rtc_l _ _ a5); [apply rs_start |]. apply (rtc_l _ _ a6); [apply rs_outcome |].
  apply (rtc_l _ _ a7); [apply rs_recover; done |]. apply (rtc_l _ _ a8); [apply rs_reconnected; done |].
  apply (rtc_l _ _ a9); [apply rs_retry | apply rtc_refl].
Qed.

Lemma recovery_bounded_witness :
  exists c e f, [(0%N, Err NotConnected); (1%N, Ok tt)] = [(c, Err e); (f, Ok tt)] /\ is_connection_class e = true /\ f <> c.
Proof.
  destruct (recovery_bounded RECONNECT_BASE_INTERVAL 0 a9 run_to_a9) as [H _].
  destruct (H 2%N [(0%N, Err NotConnected); (1%N, Ok tt)] (Ok tt)) as [[c Hc] | H2];
    [vm_compute; reflexivity | discriminate Hc | exact H2].
Defined.

Lemma reconnects_spaced_witness : (100 + N.min (2000 * 2 ^ 0) 30000 <= 3000)%N.
Proof.
  apply (reconnects_spaced RECONNECT_BASE_INTERVAL 0 a9 [] 3000 (Some true) 100 []);
    [exact run_to_a9 | vm_compute; reflexivity].
Defined.

(** An invocation that timed out is sent again over the new connection, under a
    new message id: the daemon runs it a second time although it may have run it,
    or still be running it, the first time. *)
Example timed_out_invocation_runs_again :
  let b2 := invoke_outcome 1 (Err InvocationTimeout) (invoke_start 1 a0) in
  let b4 := reconnected 1 60100 true (tick 60100 (recover 1 60000 (tick 60000 b2))) in
  invocations (retry_outcome 1 (Ok tt) b4) !! 1%N = Some (Over [(0%N, Err InvocationTimeout); (1%N, Ok tt)] (Ok tt)).
Proof. vm_compute. reflexivity. Qed.

(** The slot holds the connector installed last, not the first. *)
Example last_install_wins : connector (install 2 (install 1 None)) = Some 2.
Proof. reflexivity. Qed.
End LocalReconnect.
