(* ===== verification/ShellStartup.v ===== *)
(** * How the Shell finds the daemon

    Model of the start-up part of [apps/desktop/src-tauri/src/daemon_client.rs]:
    locating and spawning the daemon, waiting for the credential file, reading
    its expiry, choosing the carrier, and [connect_shell], which composes them
    with the negotiation of [DaemonClient].  What the operating system answers is
    an argument. *)
From Stdlib Require Import NArith ZArith Ascii Lia.
From S2P Require Import Prelude Text Civil Credential Bootstrap Envelope Timestamps DaemonServer DaemonClient.
From stdpp Require Import base strings list option gmap.

Definition CREDENTIAL_WAIT_TIMEOUT : N := 10000.
Definition CREDENTIAL_POLL_INTERVAL : N := 100.

(** ** The expiry *)

(** A function that may panic. *)
Inductive Run (A : Type) := Returns (r : option A) | Panics.
Arguments Returns {A} _.
Arguments Panics {A}.

#[export] Instance Run_bind : MBind Run := fun A B f m =>
  match m with Returns (Some a) => f a | Returns None => Returns None | Panics => Panics end.

Definition byte_at (s : list ascii) (i : nat) : option ascii := s !! i.

(** [str::is_char_boundary] of text that is valid UTF-8. *)
Definition is_char_boundary (s : list ascii) (i : nat) : bool :=
  match byte_at s i with
  | Some c => negb ((128 <=? code c) && (code c <? 192))%N
  | None => (i =? length s)%nat
  end.

Definition decimal_value (l : list ascii) : N := foldl (fun v c => v * 10 + (code c - 48))%N 0%N l.

(** [digit(a..b)]: slicing text inside a character panics. *)
Definition digit (s : list ascii) (a b : nat) : Run N :=
  if is_char_boundary s a && is_char_boundary s b then
    let text := take (b - a) (drop a s) in
    Returns (if forallb is_digit text then Some (decimal_value text) else None)
  else Panics.

Fixpoint leading_digits (l : list ascii) : list ascii :=
  match l with c :: l => if is_digit c then c :: leading_digits l else [] | [] => [] end.

(** [10u64.pow(k)] in a release build *)
Definition u64_pow10 (k : nat) : N := (10 ^ N.of_nat k mod (U64_MAX + 1))%N.
Definition u32_wrap (n : N) : N := (n mod 4294967296)%N.

(** The fraction: its milliseconds, and the index behind it. *)
Definition read_fraction (s : list ascii) : Run (N * nat) :=
  match byte_at s 19 with
  | Some c =>
      if Ascii.eqb c "." then
        let digits := leading_digits (drop 20 s) in
        if (length digits =? 0)%nat then Returns None
        else
          let parsed := decimal_value digits in
          if (U64_MAX <? parsed)%N then Returns None
          else if (u64_pow10 (length digits) =? 0)%N then Panics
          else Returns (Some (u32_wrap ((parsed * 1000 mod (U64_MAX + 1)) / u64_pow10 (length digits)), 20 + length digits))
      else Returns (Some (0%N, 19))
  | None => Returns (Some (0%N, 19))
  end.

(** [parse_rfc3339_utc]: the time in nanoseconds since the epoch. *)
Definition parse_rfc3339_utc (value : string) : Run N :=
  let s := String.list_ascii_of_string value in
  if (length s <? 20)%nat || negb (bool_decide (byte_at s 10 = Some "T"%char))
     || negb (bool_decide (byte_at s 13 = Some ":"%char)) || negb (bool_decide (byte_at s 16 = Some ":"%char))
  then Returns None
  else
    year ← digit s 0 4;
    month ← digit s 5 7;
    day ← digit s 8 10;
    hour ← digit s 11 13;
    minute ← digit s 14 16;
    second ← digit s 17 19;
    '(millis, i) ← read_fraction s;
    if negb (bool_decide (byte_at s i = Some "Z"%char)) || negb (S i =? length s)%nat then Returns None
    else if ((month =? 0) || (12 <? month) || (day =? 0) || (31 <? day) || (23 <? hour) || (59 <? minute)
             || (59 <? second))%N then Returns None
    else
      let days := days_from_civil (Z.of_N year) (Z.of_N month) (Z.of_N day) in
      let seconds := (days * 86400 + Z.of_N (hour * 3600 + minute * 60 + second))%Z in
      Returns (Some (Z.to_N (Z.max seconds 0) * 1000000000 + u32_wrap (millis * 1000000))%N).

(** ** The daemon's process *)

(** [resolve_daemon_executable]: the variable, and the candidates beside the
    Shell's own executable, each with whether it is a file. *)
Definition resolve_daemon_executable (variable : option (string * bool)) (candidates : list (string * bool)) :
    result DaemonStartupError string :=
  let beside :=
    match List.find snd candidates with
    | Some (path, _) => Ok path
    | None => Err (SpawnFailed "cannot locate the daemon executable (DSH_DAEMON_EXE or the Shell directory)")
    end in
  match variable with
  | Some (path, is_file) => if negb (bool_decide (path = EmptyString)) && is_file then Ok path else beside
  | None => beside
  end.

(** [spawn_daemon] *)
Definition spawn_daemon (exe : option string) (variable : option (string * bool)) (candidates : list (string * bool))
    (spawned : bool) : result DaemonStartupError unit :=
  exe ← match exe with Some path => Ok path | None => resolve_daemon_executable variable candidates end;
  if spawned then Ok tt else Err (SpawnFailed ("cannot spawn " +:+ exe)).

(** [wait_for_credential]: each turn reads the file and then the clock, once more
    when the first reading was past the deadline.  [None] while it still waits. *)
Fixpoint wait_for_credential (deadline : N) (turns : list (option CredentialFile * N * N)) :
    option (result DaemonStartupError CredentialFile) :=
  match turns with
  | [] => None
  | (Some file, _, _) :: _ => Some (Ok file)
  | (None, now, again) :: turns =>
      if (now <? deadline)%N then wait_for_credential deadline turns
      else Some (Err (if (again <? deadline)%N then CredentialIo else CredentialTimeout))
  end.

(** ** The carrier *)

Inductive ChosenCarrier := OverPipe (name : string) | OverSocket (path : string) | OverTcp (port : N).

(** [connect_carrier]: the carrier the connection is made over, when [connects]
    says which endpoints accept one. *)
Definition connect_carrier (windows : bool) (connects : ChosenCarrier -> bool) (f : CredentialFile) : ChosenCarrier :=
  let tcp := OverTcp (cf_port f) in
  let preferred :=
    if windows then OverPipe <$> pipe_name f else OverSocket <$> socket_path f in
  match preferred with
  | Some c => if connects c then c else tcp
  | None => tcp
  end.

(** ** [connect_shell] *)

(** What the world answers to one start-up. *)
Record StartupWorld (Value : Type) := {
  daemon_running : bool;                                       (* [probe_claim_port] *)
  exe_variable : option (string * bool);
  exe_candidates : list (string * bool);
  spawn_ok : bool;
  turns : list (option CredentialFile * N * N);
  carrier_accepts : ChosenCarrier -> bool;
  (* the handshake over the carrier with the token, and what follows it *)
  authenticates : ChosenCarrier -> string -> result TransportError unit;
  hello_sent : result TransportError unit;
  inbox : list (result TransportError (option (Envelope Value)))
}.
Arguments daemon_running {Value} _.
Arguments exe_variable {Value} _.
Arguments exe_candidates {Value} _.
Arguments spawn_ok {Value} _.
Arguments turns {Value} _.
Arguments carrier_accepts {Value} _.
Arguments authenticates {Value} _.
Arguments hello_sent {Value} _.
Arguments inbox {Value} _.

Section Startup.
Context {Value : Type} `{sd : !Serde Value} `{cw : !ClientWire Value}.

(** [None] when it still waits or panicked. *)
Definition connect_shell (windows : bool) (exe : option string) (may_spawn : bool) (start nanos counter : N)
    (time : string) (w : StartupWorld Value) : option (result DaemonStartupError (Client Value)) :=
  match (if daemon_running w then Ok tt
         else if may_spawn then spawn_daemon exe (exe_variable w) (exe_candidates w) (spawn_ok w)
         else Err (SpawnFailed "the daemon is not running and spawning is disabled")) with
  | Err e => Some (Err e)
  | Ok _ =>
      match wait_for_credential (start + CREDENTIAL_WAIT_TIMEOUT) (turns w) with
      | None => None
      | Some (Err e) => Some (Err e)
      | Some (Ok file) =>
          match parse_rfc3339_utc (fc_expires_at (cf_credential file)) with
          | Panics => None
          | Returns None => Some (Err (InvalidCredential "not a UTC RFC 3339 timestamp"))
          | Returns (Some _) =>
              let carrier := connect_carrier windows (carrier_accepts w) file in
              match authenticates w carrier (fc_token (cf_credential file)) with
              | Err e => Some (Err (StartupTransport e))
              | Ok _ => Some (connect_transport nanos counter time (hello_sent w) (inbox w))
              end
          end
      end
  end.
End Startup.

(** ** Lemmas *)

Lemma digit_boundary c : is_digit c = true -> ((128 <=? code c) && (code c <? 192))%N = false.
Proof. unfold is_digit. rewrite andb_true_iff, !N.leb_le. intros [_ H]. destruct (N.leb_spec 128 (code c)); [lia | done]. Qed.

Lemma digit_value d : (0 <= d <= 9)%Z -> (code (digit_char d) - 48)%N = Z.to_N d.
Proof. intros Hd. rewrite code_digit by done. lia. Qed.

Lemma days_agree y m d : (0 <= y)%Z -> (0 <= m)%Z -> (0 <= d)%Z ->
  days_from_civil (Z.of_N (Z.to_N y)) (Z.of_N (Z.to_N m)) (Z.of_N (Z.to_N d)) = days_from_civil y m d.
Proof. intros. by rewrite !Z2N.id. Qed.

(** The digits of a number of two, three and four digits. *)
Lemma two_back n : (0 <= n <= 99)%Z ->
  (decimal_value [digit_char (n / 10); digit_char (n mod 10)] = Z.to_N n)%Z.
Proof.
  intros Hn. unfold decimal_value. cbn [foldl]. pose proof (mod10 n).
  assert (0 <= n / 10 <= 9)%Z by (Z.to_euclidean_division_equations; lia).
  rewrite !digit_value by done. Z.to_euclidean_division_equations. lia.
Qed.

Lemma fixed_three n : (0 <= n <= 999)%Z ->
  decimal_value (fixed 3 n) = Z.to_N n /\ length (fixed 3 n) = 3 /\ forallb is_digit (fixed 3 n) = true.
Proof.
  intros Hn. unfold decimal_value. cbn [fixed app foldl length forallb]. rewrite !is_digit_char by apply mod10.
  split_and!; [| done | done]. rewrite !digit_value by apply mod10. Z.to_euclidean_division_equations. lia.
Qed.

Lemma fixed_four n : (0 <= n <= 9999)%Z ->
  decimal_value (fixed 4 n) = Z.to_N n /\ length (fixed 4 n) = 4 /\ forallb is_digit (fixed 4 n) = true.
Proof.
  intros Hn. unfold decimal_value. cbn [fixed app foldl length forallb]. rewrite !is_digit_char by apply mod10.
  split_and!; [| done | done]. rewrite !digit_value by apply mod10. Z.to_euclidean_division_equations. lia.
Qed.

(** A slice of digits. *)
Lemma digit_slice (s : list ascii) a b :
  is_char_boundary s a = true -> is_char_boundary s b = true -> forallb is_digit (take (b - a) (drop a s)) = true ->
  digit s a b = Returns (Some (decimal_value (take (b - a) (drop a s)))).
Proof. intros Ha Hb Hd. unfold digit. by rewrite Ha, Hb, Hd. Qed.

(** The side conditions of [digit_slice] on a concrete layout. *)
Ltac layout_side :=
  unfold is_char_boundary; cbn [byte_at lookup list_lookup Nat.sub take drop forallb];
  repeat match goal with
         | H : is_digit ?c = true |- context [is_digit ?c] => rewrite H
         | H : is_digit ?c = true |- context [code ?c] => rewrite (digit_boundary c H)
         end;
  reflexivity.

(** The parser on the layout the daemon prints. *)
Lemma parse_layout y1 y2 y3 y4 m1 m2 d1 d2 h1 h2 n1 n2 s1 s2 f1 f2 f3 :
  forallb is_digit [y1; y2; y3; y4; m1; m2; d1; d2; h1; h2; n1; n2; s1; s2; f1; f2; f3] = true ->
  let month := decimal_value [m1; m2] in let day := decimal_value [d1; d2] in
  let hour := decimal_value [h1; h2] in let minute := decimal_value [n1; n2] in let second := decimal_value [s1; s2] in
  let millis := decimal_value [f1; f2; f3] in
  (1 <= month <= 12)%N -> (1 <= day <= 31)%N -> (hour <= 23)%N -> (minute <= 59)%N -> (second <= 59)%N -> (millis <= 999)%N ->
  parse_rfc3339_utc (of_bytes [y1; y2; y3; y4; "-"; m1; m2; "-"; d1; d2; "T"; h1; h2; ":"; n1; n2; ":"; s1; s2; "."; f1; f2; f3; "Z"]%char)
  = Returns (Some (Z.to_N (Z.max (days_from_civil (Z.of_N (decimal_value [y1; y2; y3; y4])) (Z.of_N month) (Z.of_N day) * 86400
                                  + Z.of_N (hour * 3600 + minute * 60 + second)) 0) * 1000000000 + millis * 1000000)%N).
Proof.
  intros Hall month day hour minute second millis Hm Hd Hh Hn Hs Hf. cbn [forallb] in Hall.
  repeat (apply andb_prop in Hall as [?Hdig Hall]).
  unfold parse_rfc3339_utc. rewrite of_bytes_list.
  change (20 <? 20)%nat with false. cbn [length Nat.ltb Nat.leb byte_at lookup list_lookup].
  rewrite !bool_decide_true by done. cbn [negb orb].
  rewrite (digit_slice _ 0 4), (digit_slice _ 5 7), (digit_slice _ 8 10), (digit_slice _ 11 13), (digit_slice _ 14 16),
    (digit_slice _ 17 19); try layout_side.
  cbn [Nat.sub take drop mbind Run_bind]. fold month day hour minute second.
  unfold read_fraction. cbn [byte_at lookup list_lookup drop]. rewrite Ascii.eqb_refl.
  replace (leading_digits [f1; f2; f3; "Z"%char]) with [f1; f2; f3]
    by (cbn [leading_digits]; repeat match goal with H : is_digit ?c = true |- context [is_digit ?c] => rewrite H end; reflexivity).
  cbn [length Nat.eqb Nat.add]. fold millis. clearbody month day hour minute second millis.
  repeat match goal with H : is_digit _ = true |- _ => clear H end. clear Hall.
  change (u64_pow10 3) with 1000%N.
  assert (Hlt : (U64_MAX <? millis)%N = false) by (apply N.ltb_ge; unfold U64_MAX; lia). rewrite Hlt. clear Hlt. change (1000 =? 0)%N with false. cbn [mbind Run_bind].
  cbn [byte_at lookup list_lookup]. rewrite bool_decide_true by done. cbn [negb orb Nat.eqb].
  rewrite N.mod_small by (unfold U64_MAX; lia). rewrite N.div_mul by done.
  destruct (N.eqb_spec month 0), (N.ltb_spec 12 month), (N.eqb_spec day 0), (N.ltb_spec 31 day), (N.ltb_spec 23 hour),
    (N.ltb_spec 59 minute), (N.ltb_spec 59 second); try lia. cbn [orb].
  unfold u32_wrap. rewrite (N.mod_small millis), (N.mod_small (millis * 1000000)) by lia. done.
Qed.

(** What the daemon prints is read back. *)
Lemma parse_printed y mo d h mi s ms :
  (0 <= y <= 9999)%Z -> (1 <= mo <= 12)%Z -> (1 <= d <= 31)%Z -> (0 <= h <= 23)%Z -> (0 <= mi <= 59)%Z ->
  (0 <= s <= 59)%Z -> (0 <= ms <= 999)%Z -> (0 <= days_from_civil y mo d)%Z ->
  parse_rfc3339_utc (of_bytes (Civil.timestamp y mo d h mi s ms)) =
  Returns (Some (Z.to_N ((days_from_civil y mo d * 86400 + h * 3600 + mi * 60 + s) * 1000 + ms) * 1000000)%N).
Proof.
  intros Hy Hmo Hd Hh Hmi Hs Hms Hdays. unfold Civil.timestamp.
  rewrite (zero_padded_fixed 3), (zero_padded_fixed 2) by (cbn; lia). rewrite !padded_two by lia.
  destruct (fixed_four y Hy) as (Vy & _ & _), (fixed_three ms Hms) as (Vm & _ & _). cbn [fixed app] in Vy, Vm |- *.
  rewrite parse_layout; rewrite ?two_back, ?Vy, ?Vm by lia; try lia.
  - rewrite !Z2N.id by lia. do 2 f_equal. rewrite Z.max_l by lia. lia.
  - cbn [forallb]. rewrite !is_digit_char; [done | ..]; try apply mod10; Z.to_euclidean_division_equations; lia.
Qed.

(** Every expiry the daemon writes is the instant it meant, to the millisecond. *)
Lemma expiry_round_trip (t : N) :
  (t < 253402300800000)%N -> parse_rfc3339_utc (rfc3339 t) = Returns (Some (t * 1000000)%N).
Proof.
  intros Ht. change (rfc3339 t) with (of_bytes (now_timestamp_like (Z.of_N t))).
  assert (Hz : (0 <= Z.of_N t < 253402300800000)%Z) by lia. unfold now_timestamp_like. rewrite Z.max_r by lia.
  pose proof (days_from_civil_from_days (Z.of_N t / 1000 / 86400)) as Hdays.
  pose proof (civil_ranges (Z.of_N t / 1000 / 86400)) as Hr.
  destruct (civil_from_days (Z.of_N t / 1000 / 86400)) as [[y m] d]. destruct Hr as (Hm & Hd & Hy).
  assert (Hy' : (1970 <= y <= 9999)%Z) by (apply Hy; clear - Hz; Z.to_euclidean_division_equations; lia).
  rewrite parse_printed; rewrite ?Hdays; try lia; try (clear - Hz; Z.to_euclidean_division_equations; lia).
  do 3 f_equal. clear - Hz. Z.to_euclidean_division_equations. lia.
Qed.

(** ** Waiting *)

(** The clock readings of the turns: each turn sleeps a poll interval, the second
    reading of a turn is not before the first. *)
Fixpoint paced (now : N) (l : list (option CredentialFile * N * N)) : Prop :=
  match l with
  | [] => True
  | (_, t, again) :: l => (now <= t <= again)%N /\ paced (t + CREDENTIAL_POLL_INTERVAL) l
  end.

(** Enough turns for the readings to pass the deadline: the wait ends, with a file
    that was read or with [CredentialTimeout]. *)
Lemma wait_ends now deadline l :
  paced now l -> l <> [] -> (deadline <= now + CREDENTIAL_POLL_INTERVAL * (N.of_nat (length l) - 1))%N ->
  exists r, wait_for_credential deadline l = Some r /\
    match r with Ok f => Exists (fun x => x.1.1 = Some f) l | Err e => e = CredentialTimeout end.
Proof.
  revert now. induction l as [|[[f t] again] l IH]; intros now Hp Hne Hlen; [done |].
  destruct f as [f|]; [exists (Ok f); split; [done | by left] |]. destruct Hp as [Ht Hp]. cbn [wait_for_credential].
  destruct (N.ltb_spec t deadline) as [Hd | Hd].
  - destruct l as [|x l]; [cbn in Hlen; lia |]. destruct (IH _ Hp) as (r & Hr & Hm); [done | cbn [length] in *; lia |].
    exists r. split; [done |]. destruct r; [by right | done].
  - rewrite (proj2 (N.ltb_ge again deadline)) by lia. by eexists.
Qed.

(** ** The Shell and the daemon's credential file *)

Section Meeting.
Context `{codec : FileCodec} `{claws : !FileCodecLaws}.

Lemma file_of_expiry c e cred : fc_expires_at (cf_credential (file_of c e cred)) = rfc3339 (expires_at cred).
Proof. unfold file_of. by destruct (carrier c) as [[]|]. Qed.

Lemma file_of_carrier c e cred :
  pipe_name (file_of c e cred) = match carrier c with Some (NamedPipe n) => Some n | _ => None end /\
  socket_path (file_of c e cred) = match carrier c with Some (UnixSocket p) => Some p | _ => None end.
Proof. unfold file_of. by destruct (carrier c) as [[]|]. Qed.

(** C21.  The Shell can use what the daemon leaves for it: when the daemon has
    issued its bootstrap credential, a Shell that polls the directory ends its
    wait with that file; the expiry it reads is the instant the daemon keeps, to
    the millisecond; it connects over the carrier the daemon published, when that
    accepts, and over TCP otherwise; and the token it presents authenticates at
    every moment before the expiry. *)
Theorem shell_finds_daemon windows connects c ttl e b d start turns :
  dir b = Some d -> (5 <= writes e)%nat -> (forall f, is_Some (to_json f)) -> length (random e) = 16%nat ->
  (t_issue e + ttl < 253402300800000)%N -> Forall (fun x => x.1.1 = None) turns ->
  Forall (fun x => (x.1.2 < start + CREDENTIAL_WAIT_TIMEOUT)%N) turns ->
  exists f b' d', issue_bootstrap c ttl e b = (Ok (Some f), b') /\ dir b' = Some d' /\
    wait_for_credential (start + CREDENTIAL_WAIT_TIMEOUT) (turns ++ [(read_from d', start, start)]) = Some (Ok f) /\
    parse_rfc3339_utc (fc_expires_at (cf_credential f)) = Returns (Some ((t_issue e + ttl) * 1000000)%N) /\
    connect_carrier windows connects f =
      match carrier c with
      | Some (NamedPipe n) => if windows && connects (OverPipe n) then OverPipe n else OverTcp (cf_port f)
      | Some (UnixSocket p) => if negb windows && connects (OverSocket p) then OverSocket p else OverTcp (cf_port f)
      | None => OverTcp (cf_port f)
      end /\
    forall t, (t < t_issue e + ttl)%N ->
      (authenticate t (fc_token (cf_credential f)) (credentials_of b')).1 = Ok tt.
Proof.
  intros Hd Hw Hj Hr Hlt Hnone Htime. pose proof (issue_ok c ttl e b d Hd Hw Hj) as Hi.
  pose proof (fun t => authenticate_issued (random e) (t_issue e) (t_lock e) ttl t (credentials_of b) Hr) as Ha.
  destruct (issue_credential _ _ _ _ _) as [cred reg] eqn:Hc. destruct Hi as (d' & Hi & Hf).
  assert (Hx : expires_at cred = (t_issue e + ttl)%N) by (by inv Hc).
  exists (file_of c e cred). eexists. exists d'. split; [exact Hi |]. split; [done |]. rewrite Hf. split_and!.
  - clear - Hnone Htime. induction turns as [|[[f t] again] l IH]; [done |]. cbn [app wait_for_credential].
    apply Forall_cons in Hnone as [Hf Hnone], Htime as [Ht Htime]. cbn in Hf, Ht. subst f.
    rewrite (proj2 (N.ltb_lt _ _)) by done. by apply IH.
  - by rewrite file_of_expiry, Hx, expiry_round_trip.
  - destruct (file_of_carrier c e cred) as [Hp Hs]. unfold connect_carrier. rewrite Hp, Hs.
    destruct (carrier c) as [[n|p]|], windows; done.
  - intros t Ht. rewrite file_of_token. cbn [credentials_of]. destruct (Ha t) as (s2 & -> & _); done.
Qed.
End Meeting.

(** ** The theorems at work *)
Module LocalStartup.
Import Bootstrap.Binary.

Definition boot : Boot := {| credentials_of := empty_registry; dir := Some {| dir_mode := 448; files := ∅ |}; file_expiry := None |}.
Definition setup : BootConfig :=
  {| boot_version := "0.1.0"; boot_pid := 7; boot_claim_port := 9; boot_port := 50001;
     carrier := Some (UnixSocket "/run/dsh.sock"); umask := 420 |}.

Lemma shell_finds_daemon_witness :
  exists f b', issue_bootstrap setup BOOTSTRAP_LEASE_MS (supply 1000) boot = (Ok (Some f), b') /\
    connect_carrier false (fun _ => true) f = OverSocket "/run/dsh.sock" /\
    parse_rfc3339_utc (fc_expires_at (cf_credential f)) = Returns (Some 3601000000000%N).
Proof.
  destruct (shell_finds_daemon false (fun _ => true) setup BOOTSTRAP_LEASE_MS (supply 1000) boot
              {| dir_mode := 448; files := ∅ |} 0 [(None, 5%N, 5%N)]) as (f & b' & d' & Hi & _ & _ & Hp & Hc & _).
  - reflexivity.
  - cbn. lia.
  - intros f. eexists. reflexivity.
  - reflexivity.
  - reflexivity.
  - repeat constructor.
  - repeat constructor.
  - exists f, b'. split; [exact Hi |]. split; [exact Hc | exact Hp].
Defined.

(** Text that is no timestamp fails closed, but not all of it: a character that
    spans a field boundary panics, and so does a fraction of sixty-four digits. *)
Definition chars (l : list N) : string := String.string_of_list_ascii (map ascii_of_N l).

Example field_boundary_panics :
  parse_rfc3339_utc (chars ([50; 48; 50; 195; 169] ++ map N_of_ascii (String.list_ascii_of_string "-08-1T09:30:00.000Z"))%N)
  = Panics.
Proof. vm_compute. reflexivity. Qed.

Example long_fraction_panics :
  parse_rfc3339_utc ("2026-08-31T09:30:00." +:+ zeros 63 +:+ "1Z") = Panics.
Proof. vm_compute. reflexivity. Qed.
End LocalStartup.
