(* ===== verification/UsageLedger.v ===== *)
(** * The usage ledger of the Shell

    Model of [apps/desktop/src-tauri/src/usage.rs]: validation, the session
    timers, the ledger (the trail of [Trail] with a cap of 4096), the import of
    the cost-meter ledger of DSH, and the snapshot with its totals.  An [f64] is
    the [spec_float] of the standard library at the width of binary64. *)
From Stdlib Require Import NArith ZArith Lia Floats.SpecFloat.
From S2P Require Import Prelude Text Civil Json Trail.
From stdpp Require Import base strings list option gmap sorting pretty.

Definition RECORDS_CAP : nat := 4096.
Definition MAX_SOURCE_CHARS : nat := 64.
Definition SOURCE_TERMINAL : text := txt "terminal".
Definition SOURCE_NOTIFICATION : text := txt "notification".
Definition SOURCE_RUNTIME : text := txt "runtime".
Definition SOURCE_DSH : text := txt "dsh".
Definition RUNTIME_END_STATES : list text := [txt "stopped"; txt "crashed"; txt "safe_stop"].

(** ** [f64] *)

Definition f64_add (a b : spec_float) : spec_float := SFadd 53 1024 a b.
Definition f64_is_finite (a : spec_float) : bool :=
  match a with S754_zero _ | S754_finite _ _ _ => true | _ => false end.

(** [u64 as f64], [i64 as f64] *)
Definition f64_of_Z (z : Z) : spec_float := binary_normalize 53 1024 z 0 false.

(** [f64::from_bits] *)
Definition f64_of_bits (bits : N) : spec_float :=
  let sign := N.testbit bits 63 in
  let e := (bits / 4503599627370496 mod 2048)%N in
  let m := (bits mod 4503599627370496)%N in
  if (e =? 2047)%N then (if (m =? 0)%N then S754_infinity sign else S754_nan)
  else
    let mantissa := if (e =? 0)%N then m else (m + 4503599627370496)%N in
    match mantissa with
    | N0 => S754_zero sign
    | Npos p => S754_finite sign p (Z.of_N (N.max e 1) - 1075)
    end.

(** [Value::as_f64] *)
Definition as_f64 (v : Value) : option spec_float :=
  match v with
  | Num (PosInt n) => Some (f64_of_Z (Z.of_N n))
  | Num (NegInt z) => Some (f64_of_Z z)
  | Num (Float bits) => Some (f64_of_bits bits)
  | _ => None
  end.

(** ** Records *)

Record UsagePeriod := { period_start : text; period_end : text }.

Record UsageRecord := {
  source : text; period : UsagePeriod; input_tokens : N; output_tokens : N; cache_read_tokens : option N;
  cost : option spec_float; currency : option text; is_estimate : bool; recorded_at_unix_ms : N
}.

Record UsageTotals := {
  total_input : N; total_output : N; total_cost : option spec_float; total_currency : option text; estimate_count : N
}.

Record UsageSnapshot := { generated_at_unix_ms : N; records : list UsageRecord; totals : UsageTotals }.

Record RecordRequest := {
  rq_source : text; start_unix_ms : N; end_unix_ms : N; rq_input_tokens : N; rq_output_tokens : N;
  rq_is_estimate : bool; rq_cost : option spec_float; rq_currency : option text
}.

Inductive UsageError := MalformedUsage | StoreUnavailable | UsageClockUnavailable.

Record UsageCore := {
  usage_sequence : N;
  terminal_sessions : gmap text N;
  runtime_sessions : gmap text N
}.

Record Collector := { usage_core : UsageCore; ledger : Trail }.

Definition new_collector : Collector :=
  {| usage_core := {| usage_sequence := 0; terminal_sessions := ∅; runtime_sessions := ∅ |}; ledger := None |}.

Abbreviation Op := (M Collector UsageError).

Definition set_usage (f : UsageCore -> UsageCore) (s : Collector) : Collector :=
  {| usage_core := f (usage_core s); ledger := ledger s |}.

(** [format_utc] *)
Definition format_utc (unix_ms : N) : text :=
  let ms := Z.of_N unix_ms in
  let days := (ms / 86400000)%Z in
  let millis := (ms mod 86400000)%Z in
  let '(year, month, day) := civil_from_days days in
  let hours := (millis / 3600000)%Z in
  let rest := (millis mod 3600000)%Z in
  let minutes := (rest / 60000)%Z in
  let rest := (rest mod 60000)%Z in
  map Ascii.N_of_ascii (Civil.timestamp year month day hours minutes (rest / 1000) (rest mod 1000)).

(** [is_valid_currency] *)
Definition is_valid_currency (c : text) : bool :=
  (utf8_len c =? 3)%N && forallb (fun b => (65 <=? b) && (b <=? 90))%N c.

(** [validate] *)
Definition validate (q : RecordRequest) (now : N) : result UsageError unit :=
  if (length (rq_source q) =? 0)%nat || (MAX_SOURCE_CHARS <? length (rq_source q))%nat then Err MalformedUsage
  else if (end_unix_ms q <? start_unix_ms q)%N then Err MalformedUsage
  else if (now <? end_unix_ms q)%N then Err MalformedUsage
  else if match rq_cost q with Some c => negb (f64_is_finite c) || SFltb c (S754_zero false) | None => false end
  then Err MalformedUsage
  else if match rq_currency q with Some c => negb (is_valid_currency c) | None => false end then Err MalformedUsage
  else Ok tt.

Section Operations.
Context {codec : LineCodec UsageRecord}.

Definition record_of (q : RecordRequest) (now : N) : UsageRecord :=
  {| source := rq_source q; period := {| period_start := format_utc (start_unix_ms q); period_end := format_utc (end_unix_ms q) |};
     input_tokens := rq_input_tokens q; output_tokens := rq_output_tokens q; cache_read_tokens := None;
     cost := rq_cost q; currency := rq_currency q; is_estimate := rq_is_estimate q; recorded_at_unix_ms := now |}.

(** [append_record] *)
Definition append (calls : TrailCalls) (r : UsageRecord) : Op unit :=
  zoom ledger (fun t s => {| usage_core := usage_core s; ledger := t |})
    (map_err_m (fun _ => StoreUnavailable) (append_record RECORDS_CAP calls r)).

(** [record_at]; the sequence wraps. *)
Definition record_at (calls : TrailCalls) (q : RecordRequest) (now : N) : Op text :=
  lift (validate q now);;
  modify (set_usage (fun c => {| usage_sequence := u64_add (usage_sequence c) 1; terminal_sessions := terminal_sessions c;
                                 runtime_sessions := runtime_sessions c |}));;
  s ← gets (fun s => s);
  append calls (record_of q now);;
  mret (txt "usage-" ++ txt (pretty now) ++ txt "-" ++ txt (pretty (usage_sequence (usage_core s)))).

(** [record] *)
Definition record (calls : TrailCalls) (clock : option N) (q : RecordRequest) : Op text :=
  now ← lift (ok_or UsageClockUnavailable clock); record_at calls q now.

(** An estimate without tokens or cost. *)
Definition estimate (what : text) (start finish : N) : RecordRequest :=
  {| rq_source := what; start_unix_ms := start; end_unix_ms := finish; rq_input_tokens := 0; rq_output_tokens := 0;
     rq_is_estimate := true; rq_cost := None; rq_currency := None |}.

(** [record_notification] *)
Definition record_notification (calls : TrailCalls) (clock : option N) : Op text :=
  now ← lift (ok_or UsageClockUnavailable clock);
  record_at calls (estimate SOURCE_NOTIFICATION now now) now.

Definition set_terminals (m : gmap text N) (c : UsageCore) : UsageCore :=
  {| usage_sequence := usage_sequence c; terminal_sessions := m; runtime_sessions := runtime_sessions c |}.
Definition set_runtimes (m : gmap text N) (c : UsageCore) : UsageCore :=
  {| usage_sequence := usage_sequence c; terminal_sessions := terminal_sessions c; runtime_sessions := m |}.

(** [entry(key).or_insert(now)] *)
Definition or_insert (key : text) (now : N) (m : gmap text N) : gmap text N :=
  match m !! key with Some _ => m | None => <[key := now]> m end.

(** [mark_terminal_session_start] *)
Definition mark_terminal_session_start (clock : option N) (session : text) : Op unit :=
  match clock with
  | None => mret tt
  | Some now => modify (set_usage (fun c => set_terminals (or_insert session now (terminal_sessions c)) c))
  end.

(** The end of a session that was open: the clock is read for its end and again
    by [record]. *)
Definition close_session (calls : TrailCalls) (clock clock' : option N) (what : text) (start : option N) : Op unit :=
  match start with
  | None => mret tt
  | Some start =>
      finish ← lift (ok_or UsageClockUnavailable clock);
      record calls clock' (estimate what start finish);;
      mret tt
  end.

(** [mark_terminal_session_end] *)
Definition mark_terminal_session_end (calls : TrailCalls) (clock clock' : option N) (session : text) : Op unit :=
  start ← gets (fun s => terminal_sessions (usage_core s) !! session);
  modify (set_usage (fun c => set_terminals (delete session (terminal_sessions c)) c));;
  close_session calls clock clock' SOURCE_TERMINAL start.

(** [observe_runtime_state] *)
Definition observe_runtime_state (calls : TrailCalls) (clock clock' : option N) (environment state : text) : Op unit :=
  if bool_decide (state = txt "healthy") then
    now ← lift (ok_or UsageClockUnavailable clock);
    modify (set_usage (fun c => set_runtimes (or_insert environment now (runtime_sessions c)) c))
  else if negb (bool_decide (state ∈ RUNTIME_END_STATES)) then mret tt
  else
    start ← gets (fun s => runtime_sessions (usage_core s) !! environment);
    modify (set_usage (fun c => set_runtimes (delete environment (runtime_sessions c)) c));;
    close_session calls clock clock' SOURCE_RUNTIME start.
End Operations.

(** ** The snapshot *)

(** One iteration of [aggregate]. *)
Definition add_record (t : UsageTotals) (r : UsageRecord) : UsageTotals :=
  let '(c, cur) :=
    match cost r with
    | None => (total_cost t, total_currency t)
    | Some x =>
        match total_cost t with
        | None => (Some x, currency r)
        | Some total => if bool_decide (total_currency t = currency r) then (Some (f64_add total x), total_currency t)
                        else (Some total, total_currency t)
        end
    end in
  {| total_input := u64_saturating_add (total_input t) (input_tokens r);
     total_output := u64_saturating_add (total_output t) (output_tokens r); total_cost := c; total_currency := cur;
     estimate_count := if is_estimate r then u64_saturating_add (estimate_count t) 1 else estimate_count t |}.

Definition no_totals : UsageTotals :=
  {| total_input := 0; total_output := 0; total_cost := None; total_currency := None; estimate_count := 0 |}.

(** [aggregate] *)
Definition aggregate (l : list UsageRecord) : UsageTotals := foldl add_record no_totals l.

(** The comparison of [sort_by]. *)
Definition record_compare (a b : UsageRecord) : comparison :=
  match (recorded_at_unix_ms b ?= recorded_at_unix_ms a)%N with
  | Eq => match text_compare (period_start (period b)) (period_start (period a)) with
          | Eq => text_compare (source a) (source b)
          | c => c
          end
  | c => c
  end.
Definition record_before (a b : UsageRecord) : Prop := record_compare a b <> Gt.
#[export] Instance record_before_dec : RelDecision record_before.
Proof. intros a b. unfold record_before. destruct (record_compare a b); solve_decision. Defined.

Definition recent (since : option N) (r : UsageRecord) : bool :=
  match since with Some s => (s <=? recorded_at_unix_ms r)%N | None => true end.

(** [snapshot_at_with] *)
Definition snapshot_at_with `{LineCodec UsageRecord} (t : Trail) (since : option N) (now : N) (extra : list UsageRecord) :
    UsageSnapshot :=
  let rs := merge_sort record_before (List.filter (recent since) (read_records t) ++ List.filter (recent since) extra) in
  {| generated_at_unix_ms := now; records := rs; totals := aggregate rs |}.

(** One session of the cost-meter ledger. *)
Definition session_record (money : text) (session : Value) : option UsageRecord :=
  at_ ← get (txt "at") session ≫= as_u64;
  Some {| source := SOURCE_DSH; period := {| period_start := format_utc at_; period_end := format_utc at_ |};
          input_tokens := default 0%N (get (txt "input") session ≫= as_u64);
          output_tokens := default 0%N (get (txt "output") session ≫= as_u64);
          cache_read_tokens := get (txt "cacheRead") session ≫= as_u64;
          cost := get (txt "cost") session ≫= as_f64; currency := Some money; is_estimate := false;
          recorded_at_unix_ms := at_ |}.

(** [dsh_records_from_ledger], from the text of the file. *)
Definition dsh_records_from_ledger `{SerdeJson} (file : option text) (since : option N) : list UsageRecord :=
  let parsed : option Value :=
    match file with
    | None => None
    | Some c => match from_str c with Ok v => Some v | Err _ => None end
    end in
  match parsed with
  | None => []
  | Some root =>
      let configured : option text := config ← get (txt "config") root; money ← get (txt "currency") config; as_str money in
      let days : option (list (text * Value)) := v ← get (txt "days") root; as_object v in
      flat_map (fun day : text * Value =>
        let sessions : option (list Value) := v ← get (txt "sessions") day.2; as_array v in
        List.filter (recent since) (omap (session_record (default (txt "CNY") configured)) (default [] sessions)))
        (default [] days)
  end.

(** [snapshot_with_dsh] *)
Definition snapshot_with_dsh `{SerdeJson} `{LineCodec UsageRecord} (t : Trail) (cost_meter : option (option text))
    (since : option N) (clock : option N) : result UsageError UsageSnapshot :=
  let extra := match cost_meter with Some file => dsh_records_from_ledger file since | None => [] end in
  now ← ok_or UsageClockUnavailable clock;
  Ok (snapshot_at_with t since now extra).

(** ** What a usage snapshot says, and which sessions the ledger records

    The snapshot of [UsageLedger] holds exactly the recent records of the ledger
    and of the imported sessions, newest first, with saturated totals and a cost
    in one currency; the runtime sessions a run of observations records are those
    its history opens and closes. *)

(** ** Order *)

#[export] Instance record_before_total : Total record_before.
Proof.
  intros a b. unfold record_before, record_compare.
  rewrite (N.compare_antisym (recorded_at_unix_ms b) (recorded_at_unix_ms a)).
  rewrite (text_compare_opp (period_start (period b)) (period_start (period a))), (text_compare_opp (source a) (source b)).
  destruct (recorded_at_unix_ms b ?= recorded_at_unix_ms a)%N; cbn; [| by left | by right].
  destruct (text_compare (period_start (period b)) (period_start (period a))); cbn; [| by left | by right].
  destruct (text_compare (source a) (source b)); naive_solver.
Qed.

Definition not_older (a b : UsageRecord) : Prop := (recorded_at_unix_ms b <= recorded_at_unix_ms a)%N.

Lemma before_not_older a b : record_before a b -> not_older a b.
Proof.
  unfold record_before, record_compare, not_older. intros H. apply N.compare_le_iff. intros Hc. by rewrite Hc in H.
Qed.

Lemma newest_first l : Sorted record_before l -> StronglySorted not_older l.
Proof.
  intros H. apply Sorted_StronglySorted; [intros x y z; unfold not_older; lia |].
  induction H as [|a l _ IH Hhd]; constructor; [done |]. destruct Hhd; constructor. by apply before_not_older.
Qed.

(** ** Totals *)

Definition sum_of (f : UsageRecord -> N) (l : list UsageRecord) : N := foldr (fun r n => (f r + n)%N) 0%N l.

(** The costs of the records in one currency, in their order. *)
Definition costs_in (c : option text) (l : list UsageRecord) : list spec_float :=
  omap (fun r => if bool_decide (currency r = c) then cost r else None) l.

(** What the totals say of the cost: the sum of the costs that share the
    currency of the first record that has one. *)
Fixpoint cost_total (l : list UsageRecord) : option spec_float * option text :=
  match l with
  | [] => (None, None)
  | r :: l =>
      match cost r with
      | None => cost_total l
      | Some x => (Some (foldl f64_add x (costs_in (currency r) l)), currency r)
      end
  end.


Lemma add_counts l t a b c :
  total_input t = N.min a U64_MAX -> total_output t = N.min b U64_MAX -> estimate_count t = N.min c U64_MAX ->
  let t' := foldl add_record t l in
  total_input t' = N.min (a + sum_of input_tokens l) U64_MAX /\
  total_output t' = N.min (b + sum_of output_tokens l) U64_MAX /\
  estimate_count t' = N.min (c + sum_of (fun r => N.b2n (is_estimate r)) l) U64_MAX.
Proof.
  revert t a b c. induction l as [|r l IH]; intros t a b c Ha Hb Hc; cbn [foldl sum_of foldr].
  - rewrite !N.add_0_r. done.
  - rewrite !N.add_assoc. apply IH; unfold add_record; repeat case_match; cbn; rewrite ?Ha, ?Hb, ?Hc;
      unfold u64_saturating_add; cbn [N.b2n]; lia.
Qed.

Lemma add_costs l t x c :
  total_cost t = Some x -> total_currency t = c ->
  let t' := foldl add_record t l in
  total_cost t' = Some (foldl f64_add x (costs_in c l)) /\ total_currency t' = c.
Proof.
  revert t x. induction l as [|r l IH]; intros t x Hx Hc; cbn [foldl]; [done |].
  assert (Hstep : total_cost (add_record t r) = Some (foldl f64_add x (costs_in c [r])) /\ total_currency (add_record t r) = c).
  { unfold add_record, costs_in. rewrite Hx, Hc. cbn. destruct (cost r) as [y|]; cbn.
    - rewrite (bool_decide_ext (c = currency r) (currency r = c)) by done. by case_bool_decide.
    - by case_bool_decide. }
  destruct Hstep as [H1 H2]. destruct (IH _ _ H1 H2) as [H3 H4]. split; [| done]. rewrite H3.
  unfold costs_in. change (r :: l) with ([r] ++ l). by rewrite omap_app, foldl_app.
Qed.

Lemma aggregate_costs l : (total_cost (aggregate l), total_currency (aggregate l)) = cost_total l.
Proof.
  unfold aggregate. assert (Hz : total_cost no_totals = None /\ total_currency no_totals = None) by done.
  revert Hz. generalize no_totals. induction l as [|r l IH]; intros t [H1 H2]; cbn [foldl cost_total]; [by rewrite H1, H2 |].
  destruct (cost r) as [x|] eqn:Hr.
  - destruct (add_costs l (add_record t r) x (currency r)) as [-> ->]; [| | done]; unfold add_record; rewrite Hr, H1; done.
  - apply IH. unfold add_record. by rewrite Hr, H1, H2.
Qed.

(** A usage snapshot holds exactly the records of the ledger and of the
    imported sessions that are recent enough, newest first; its token totals and
    its number of estimates are the sums over those records, saturated at the
    width of the counter; and its cost is the sum, in that order, of the costs in
    the currency of the first record that has one, labelled with it, so no two
    currencies are ever added. *)
Theorem usage_snapshot_exact `{LineCodec UsageRecord} t since now extra :
  let s := snapshot_at_with t since now extra in
  records s ≡ₚ List.filter (recent since) (read_records t ++ extra) /\
  StronglySorted not_older (records s) /\
  total_input (totals s) = N.min (sum_of input_tokens (records s)) U64_MAX /\
  total_output (totals s) = N.min (sum_of output_tokens (records s)) U64_MAX /\
  estimate_count (totals s) = N.min (N.of_nat (length (List.filter is_estimate (records s)))) U64_MAX /\
  (total_cost (totals s), total_currency (totals s)) = cost_total (records s).
Proof.
  cbv zeta. unfold snapshot_at_with. cbn [records totals].
  set (rs := merge_sort _ _). assert (Hn : sum_of (fun r => N.b2n (is_estimate r)) rs = N.of_nat (length (List.filter is_estimate rs))).
  { clearbody rs. induction rs as [|r rs IH]; [done |]. unfold sum_of in *. cbn [foldr List.filter]. rewrite IH.
    destruct (is_estimate r); cbn [length N.b2n]; lia. }
  destruct (add_counts rs no_totals 0 0 0) as (H1 & H2 & H3); [done.. |]. rewrite Hn in H3.
  split_and!; [| | done | done | done | apply aggregate_costs].
  - unfold rs. by rewrite merge_sort_Permutation, List.filter_app.
  - by apply newest_first, Sorted_merge_sort, _.
Qed.

(** ** Runtime sessions *)

Definition Observation : Type := N * text * text.

Definition ends (state : text) : bool := bool_decide (state ∈ RUNTIME_END_STATES).

(** Since when the environment has an open session after a history, latest
    observation first. *)
Fixpoint open_since (e : text) (h : list Observation) : option N :=
  match h with
  | [] => None
  | (now, e', state) :: h =>
      if negb (bool_decide (e = e')) then open_since e h
      else if bool_decide (state = txt "healthy") then Some (default now (open_since e h))
      else if ends state then None
      else open_since e h
  end.

(** The records a history closes, oldest first. *)
Fixpoint closed (h : list Observation) : list UsageRecord :=
  match h with
  | [] => []
  | (now, e, state) :: h =>
      closed h ++
      match open_since e h with
      | Some start => if ends state then [record_of (estimate SOURCE_RUNTIME start now) now] else []
      | None => []
      end
  end.

(** The clock of a history does not go back. *)
Fixpoint forwards (h : list Observation) : Prop :=
  match h with
  | (now, _, _) :: h => Forall (fun o : Observation => (o.1.1 <= now)%N) h /\ forwards h
  | [] => True
  end.

Lemma ends_not_healthy state : ends state = true -> bool_decide (state = txt "healthy") = false.
Proof. intros H. apply bool_decide_eq_false. intros ->. by vm_compute in H. Qed.

Lemma open_since_past e h s : open_since e h = Some s -> exists o, o ∈ h /\ o.1.1 = s.
Proof.
  revert s. induction h as [|[[now e'] state] h IH]; intros s; cbn; [done |].
  assert (Hold : forall s, open_since e h = Some s -> exists o, o ∈ (now, e', state) :: h /\ o.1.1 = s).
  { intros s' Hs. destruct (IH s' Hs) as (o & Ho & Hs'). exists o. split; [by right | done]. }
  destruct (negb _); [apply Hold |]. destruct (bool_decide _).
  - intros [= <-]. destruct (open_since e h) as [t|]; [by apply Hold |]. exists (now, e', state). split; [left | done].
  - destruct (ends state); [done | apply Hold].
Qed.

Section Run.
Context {codec : LineCodec UsageRecord} {st : Storable UsageRecord} {laws : LineCodecLaws UsageRecord}.

(** JSON carries a record without a cost. *)
Hypothesis costless_storable : forall r : UsageRecord, cost r = None -> storable r.

(** The observations in their order, each at its time on working calls. *)
Fixpoint observe_all (os : list Observation) (s : Collector) : list (result UsageError unit) * Collector :=
  match os with
  | [] => ([], s)
  | (now, e, state) :: os =>
      let '(r, s) := observe_runtime_state all_calls_work (Some now) (Some now) e state s in
      let '(rs, s) := observe_all os s in (r :: rs, s)
  end.

(** The collector agrees with a history. *)
Definition tracks (rs0 : list UsageRecord) (h : list Observation) (s : Collector) : Prop :=
  (forall e, runtime_sessions (usage_core s) !! e = open_since e h) /\
  holds (newest RECORDS_CAP (rs0 ++ closed h)) (ledger s).

Lemma newest_idem (rs l : list UsageRecord) :
  newest RECORDS_CAP (newest RECORDS_CAP rs ++ l) = newest RECORDS_CAP (rs ++ l).
Proof.
  unfold newest. generalize RECORDS_CAP as cap. intros cap. rewrite !drop_app, !length_app, !length_drop, drop_drop.
  f_equal; f_equal; lia.
Qed.

Lemma close_ok what start now s rs :
  what = SOURCE_RUNTIME \/ what = SOURCE_TERMINAL -> (start <= now)%N -> holds rs (ledger s) ->
  exists s', close_session all_calls_work (Some now) (Some now) what (Some start) s = (Ok tt, s') /\
    runtime_sessions (usage_core s') = runtime_sessions (usage_core s) /\
    terminal_sessions (usage_core s') = terminal_sessions (usage_core s) /\
    holds (newest RECORDS_CAP (rs ++ [record_of (estimate what start now) now])) (ledger s').
Proof.
  intros Hwhat Hle Hh.
  destruct (holds_append RECORDS_CAP rs (record_of (estimate what start now) now) (ledger s)) as (t & Ha & Ht);
    [by apply costless_storable | done |].
  assert (Hv : validate (estimate what start now) now = Ok tt).
  { unfold validate. cbn [estimate rq_source start_unix_ms end_unix_ms rq_cost rq_currency].
    rewrite (proj2 (N.ltb_ge now start)), (proj2 (N.ltb_ge now now)) by lia. by destruct Hwhat as [-> | ->]. }
  unfold close_session, record, record_at, append. unfold_monad. cbn [ok_or]. rewrite Hv. cbn [usage_core set_usage ledger].
  unfold zoom. cbn [ledger set_usage]. change (ledger (set_usage _ s)) with (ledger s). rewrite Ha. eexists. split; [reflexivity |]. done.
Qed.

(** An observation keeps the collector on its history. *)
Lemma observe_tracks rs0 h s now e state :
  forwards ((now, e, state) :: h) -> tracks rs0 h s ->
  exists s', observe_runtime_state all_calls_work (Some now) (Some now) e state s = (Ok tt, s') /\
    tracks rs0 ((now, e, state) :: h) s'.
Proof.
  intros [Hnow _] [Hopen Hh]. unfold observe_runtime_state. change (bool_decide (state ∈ RUNTIME_END_STATES)) with (ends state).
  destruct (bool_decide (state = txt "healthy")) eqn:Hhealthy.
  - assert (Hends : ends state = false).
    { destruct (ends state) eqn:E; [| done]. apply ends_not_healthy in E. congruence. }
    eexists. split; [reflexivity |]. split.
    + intros e'. cbn. unfold or_insert. rewrite Hhealthy, (Hopen e). destruct (decide (e' = e)) as [->|Hne].
      * rewrite bool_decide_true by done. cbn. destruct (open_since e h) as [x|] eqn:Hx; [by rewrite Hopen, Hx | by rewrite lookup_insert_eq].
      * rewrite bool_decide_false by done. cbn. destruct (open_since e h); [| rewrite lookup_insert_ne by done]; apply Hopen.
    + cbn [closed]. rewrite Hends. destruct (open_since e h); by rewrite app_nil_r.
  - destruct (ends state) eqn:Hends; cbn [negb].
    2:{ eexists. split; [reflexivity |]. split.
        - intros e'. cbn. rewrite Hhealthy, Hends. rewrite Hopen. by destruct (negb _).
        - cbn [closed]. rewrite Hends. destruct (open_since e h); by rewrite app_nil_r. }
    set (s1 := set_usage (fun c => set_runtimes (delete e (runtime_sessions c)) c) s).
    assert (Hs1 : forall e', runtime_sessions (usage_core s1) !! e' = open_since e' ((now, e, state) :: h)).
    { intros e'. cbn. rewrite Hhealthy, Hends. destruct (decide (e' = e)) as [->|Hne].
      - rewrite bool_decide_true by done. apply lookup_delete_eq.
      - rewrite bool_decide_false by done. cbn. rewrite lookup_delete_ne by done. apply Hopen. }
    unfold_monad. fold s1. rewrite (Hopen e). destruct (open_since e h) as [start|] eqn:Hstart.
    + destruct (close_ok SOURCE_RUNTIME start now s1 (newest RECORDS_CAP (rs0 ++ closed h))) as (s2 & -> & Hr & _ & Hl); [by left | | done |].
      { destruct (open_since_past _ _ _ Hstart) as (o & Ho & <-). rewrite Forall_forall in Hnow. by apply Hnow. }
      eexists. split; [reflexivity |]. split; [intros e'; by rewrite Hr, Hs1 |].
      cbn [closed]. rewrite Hstart, Hends, app_assoc. by rewrite newest_idem in Hl.
    + eexists. split; [reflexivity |]. split; [done |]. cbn [closed]. by rewrite Hstart, app_nil_r.
Qed.

Lemma observe_all_tracks os rs0 h s :
  forwards (rev os ++ h) -> tracks rs0 h s ->
  Forall (fun r => r = Ok tt) (observe_all os s).1 /\ tracks rs0 (rev os ++ h) (observe_all os s).2.
Proof.
  revert h s. induction os as [|[[now e] state] os IH]; intros h s Hf Ht; cbn [observe_all rev]; [by split; [constructor |] |].
  cbn [rev] in Hf. rewrite <- app_assoc in Hf |- *. cbn [app] in *.
  assert (Hfh : forwards ((now, e, state) :: h)).
  { clear -Hf. induction (rev os) as [|[[n e'] s'] l IH]; [done |]. apply IH, Hf. }
  destruct (observe_tracks rs0 h s now e state Hfh Ht) as (s1 & -> & Ht1).
  specialize (IH _ s1 Hf Ht1). destruct (observe_all os s1) as [rs s2]. cbn in *. destruct IH as [IH1 IH2].
  split; [by constructor | done].
Qed.

(** Over any run of observations of runtime states, with a clock that does
    not go back and a ledger that can be written, no observation fails and the
    ledger reads as the newest 4096 of its earlier records followed by one record
    per session the run closes: a session opens at the first healthy observation
    of its environment after the last end, closes at the next end, and is recorded
    with those two times, once. *)
Theorem runtime_sessions_recorded_once os rs0 t :
  forwards (rev os) -> holds rs0 t -> (length rs0 <= RECORDS_CAP)%nat ->
  let s := {| usage_core := usage_core new_collector; ledger := t |} in
  Forall (fun r => r = Ok tt) (observe_all os s).1 /\
  read_records (ledger (observe_all os s).2) = newest RECORDS_CAP (rs0 ++ closed (rev os)).
Proof.
  intros Hf Hh Hlen s. rewrite <- (app_nil_r (rev os)) in Hf.
  assert (Ht : tracks rs0 [] s).
  { split; [done |]. cbn [closed]. rewrite app_nil_r. unfold newest. by replace (length rs0 - RECORDS_CAP) with 0 by lia. }
  destruct (observe_all_tracks os rs0 [] s Hf Ht) as [H1 [_ H2]].
  rewrite app_nil_r in H2. split; [done |]. by apply holds_read.
Qed.
End Run.

(** ** Witnesses *)
Module LocalUsage.
(** A codec for the records without a cost. *)
Definition flat (r : UsageRecord) : list text :=
  [source r; period_start (period r); period_end (period r); [input_tokens r]; [output_tokens r];
   match cache_read_tokens r with Some n => [1%N; n] | None => [] end;
   match currency r with Some c => 1%N :: c | None => [] end;
   [N.b2n (is_estimate r)]; [recorded_at_unix_ms r]].

Definition unflat (l : list text) : option UsageRecord :=
  match l with
  | [s; a; b; [i]; [o]; c; m; [e]; [t]] =>
      Some {| source := s; period := {| period_start := a; period_end := b |}; input_tokens := i; output_tokens := o;
              cache_read_tokens := match c with [_; n] => Some n | _ => None end; cost := None;
              currency := match m with _ :: m => Some m | [] => None end;
              is_estimate := (e =? 1)%N; recorded_at_unix_ms := t |}
  | _ => None
  end.

#[local] Instance codec : LineCodec UsageRecord :=
  {| to_line := fun r => Some (code_line (encode (flat r))); of_line := fun l => decode (line_code l) ≫= unflat |}.
#[local] Instance costless : Storable UsageRecord := fun r => cost r = None.
#[local] Instance laws : LineCodecLaws UsageRecord.
Proof.
  constructor; cbn [to_line of_line codec].
  - intros r _. by eexists.
  - intros r l _ [= <-]. apply code_line_clean.
  - intros r l Hr [= <-]. rewrite line_code_line, decode_encode. destruct r as [s [a b] i o c x m e t]. cbn in Hr |- *.
    unfold storable, costless in Hr. cbn in Hr. subst x. by destruct c, m, e.
Defined.

(** Two environments: one session is closed once although its end is read twice,
    the other is still open. *)
Lemma runtime_sessions_recorded_once_witness :
  map (fun r => (source r, recorded_at_unix_ms r))
    (read_records (ledger (observe_all
      [(5%N, txt "a", txt "healthy"); (6%N, txt "b", txt "healthy"); (7%N, txt "a", txt "healthy");
       (9%N, txt "a", txt "stopped"); (9%N, txt "a", txt "stopped")] new_collector).2)) = [(SOURCE_RUNTIME, 9%N)].
Proof.
  destruct (runtime_sessions_recorded_once (fun r (H : cost r = None) => H)
    [(5%N, txt "a", txt "healthy"); (6%N, txt "b", txt "healthy"); (7%N, txt "a", txt "healthy");
     (9%N, txt "a", txt "stopped"); (9%N, txt "a", txt "stopped")] [] None) as [_ H].
  - cbn. repeat split; repeat constructor; cbn; lia.
  - split; [constructor | by exists []].
  - cbn [length]. lia.
  - change new_collector with {| usage_core := usage_core new_collector; ledger := None |}. rewrite H. vm_compute. reflexivity.
Defined.

(** The session is taken out of the table before its record is written: when the
    write fails it is lost, and no later end records it. *)
Example failed_close_loses_session :
  let broken := {| directory_ok := true; open_ok := false; appended := None; sync_ok := true; restrict_ok := true;
                   read_ok := true; reopen_ok := true; rewritten := None; resync_ok := true |} in
  let '(_, s1) := observe_runtime_state all_calls_work (Some 5%N) (Some 5%N) (txt "a") (txt "healthy") new_collector in
  let '(r2, s2) := observe_runtime_state broken (Some 9%N) (Some 9%N) (txt "a") (txt "stopped") s1 in
  let '(r3, s3) := observe_runtime_state all_calls_work (Some 10%N) (Some 10%N) (txt "a") (txt "stopped") s2 in
  r2 = Err StoreUnavailable /\ r3 = Ok tt /\ ledger s3 = None.
Proof. vm_compute. done. Qed.

Definition imported : UsageRecord :=
  {| source := SOURCE_DSH; period := {| period_start := format_utc 1; period_end := format_utc 1 |}; input_tokens := 1;
     output_tokens := 1; cache_read_tokens := None; cost := None; currency := Some (txt "CNY"); is_estimate := false;
     recorded_at_unix_ms := 1 |}.

(** The cap of the ledger does not bound a snapshot: the imported sessions come on top. *)
Example snapshot_outgrows_cap :
  length (records (snapshot_at_with None None 2 (replicate 4097 imported))) = S RECORDS_CAP.
Proof.
  unfold snapshot_at_with. cbn [records]. rewrite merge_sort_Permutation. vm_compute. reflexivity.
Qed.

(** A cost-meter ledger whose currency is not a code of three capitals. *)
#[local] Instance one_session : SerdeJson :=
  {| from_str := fun _ => Ok (obj [("config", obj [("currency", Str (txt "yuan"))]);
                                   ("days", obj [("2026-01-01", obj [("sessions", Array [obj [("at", Num (PosInt 7))]])])])]);
     to_string := fun _ => []; to_vec := fun _ => None |}.

Example imported_currency_unchecked :
  map (fun r => (is_valid_currency <$> currency r, recorded_at_unix_ms r)) (dsh_records_from_ledger (Some []) None) =
  [(Some false, 7%N)].
Proof. vm_compute. reflexivity. Qed.
End LocalUsage.
