(* ===== verification/GitPanel.v ===== *)
(** * The git panel of the Shell

    Model of [apps/desktop/src-tauri/src/git_panel.rs].  The git process is the
    interface [Git]: what a command line answers and what it does to the
    repository.  [ran] logs the command lines.  A slice that would cut a character
    is [Panicked]. *)
From Stdlib Require Import NArith ZArith Lia.
From Stdlib Require Import Strings.Byte.
From S2P Require Import Prelude Text FileManager ShellEnvironment.
From stdpp Require Import base strings list option gmap pretty.

Definition GIT_SCHEMA_VERSION : N := 1.
Definition MAX_TEXT_BYTES : N := 512 * 1024.
Definition MAX_STATUS_ENTRIES : nat := 2000.
Definition MAX_LOG_ENTRIES : N := 200.
Definition MAX_COMMIT_MESSAGE_BYTES : N := 8000.

Inductive GitError := Malformed (reason : text) | Unavailable (reason : text).

(** [code] and [message] of [GitError] *)
Definition git_error_code (e : GitError) : text :=
  match e with Malformed _ => txt "MALFORMED_MESSAGE" | Unavailable _ => txt "UNAVAILABLE" end.
Definition git_error_message (e : GitError) : text :=
  match e with Malformed r | Unavailable r => r end.

Inductive Fault := Refused (e : GitError) | Panicked.

Record GitEntry := {
  ge_path : text; index_status : text; worktree_status : text; staged : bool; unstaged : bool; untracked : bool
}.

Record GitStatusReport := {
  st_root : text; branch : option text; detached : bool; clean : bool; st_entries : list GitEntry; st_truncated : bool
}.

Record GitDiffReport := {
  df_root : text; df_scope : text; df_path : option text; df_text : text; additions : nat; deletions : nat; df_truncated : bool
}.

Record GitLogEntry := { hash : text; author : text; authored_at_unix_ms : N; subject : text }.
Record GitLogReport := { lg_root : text; lg_entries : list GitLogEntry; lg_truncated : bool }.
Record GitBranchesReport := { br_root : text; branches : list text; current : option text }.
Record GitMutationReport := {
  mu_root : text; operation : text; mu_path : option text; detail : option text; mu_status : GitStatusReport
}.

(** ** The git process *)

Record GitCall := { call_root : text; call_args : list text; call_env : list (text * text) }.
Record Output := { success : bool; stdout : list byte; stderr : list byte }.
Inductive SpawnError := NotFound | OtherSpawn (display : text).

Class Git := {
  Repo : Type;
  git : GitCall -> Repo -> result SpawnError Output * Repo
}.

Section Panel.
Context {G : Git}.

Record Panel := { repo : Repo; ran : list GitCall }.
Abbreviation Op := (M Panel Fault).

(** [repo_root] *)
Definition repo_root (is_dir : text -> bool) (environment : option DshEnvironment) : result GitError text :=
  e ← ok_or (Unavailable (txt "no active environment")) environment;
  root ← ok_or (Unavailable (txt "this environment does not point at a repository")) (harness_repository_path e);
  if is_dir root then Ok root else Err (Unavailable (txt "the repository directory does not exist")).

(** [validate_relative] *)
Definition validate_path (relative : text) : result GitError text :=
  let normalized := forward_slashes relative in
  if bool_decide (normalized = []) || (4096 <? utf8_len normalized)%N then Err (Malformed (txt "the path is not usable"))
  else if starts_with (txt "-") normalized then Err (Malformed (txt "the path is not usable"))
  else if starts_with (txt "/") normalized || has_char 58 normalized || starts_with (txt "//") normalized
  then Err (Malformed (txt "absolute, UNC and device paths are not accepted"))
  else if existsb (fun s => bool_decide (s = txt "..")) (split_char 47 normalized)
  then Err (Malformed (txt "parent segments are not accepted"))
  else Ok normalized.

(** [run_git_raw] *)
Definition run_git_raw (root : text) (args : list text) (optional_locks : bool) : Op Output := fun s =>
  let call := {| call_root := root; call_args := args;
                 call_env := (txt "GIT_TERMINAL_PROMPT", txt "0") ::
                             (if optional_locks then [(txt "GIT_OPTIONAL_LOCKS", txt "0")]
                              else [(txt "GIT_EDITOR", txt "true")]) |} in
  let '(r, repo') := git call (repo s) in
  (match r with
   | Ok o => Ok o
   | Err NotFound => Err (Refused (Unavailable (txt "git is not installed or not on PATH")))
   | Err (OtherSpawn d) => Err (Refused (Unavailable (txt "cannot run git: " ++ d)))
   end, {| repo := repo'; ran := ran s ++ [call] |}).

(** [str::lines] *)
Definition lines (s : text) : list text :=
  let parts := split_char 10 s in
  map (fun l => match last l with Some 13%N => removelast l | _ => l end) (removelast parts) ++
  match last parts with Some [] | None => [] | Some l => [l] end.

(** [output_or_reason] *)
Definition output_or_reason (o : Output) : result GitError text :=
  if success o then Ok (from_utf8_lossy (stdout o))
  else
    let first := trim (default [] (head (lines (from_utf8_lossy (stderr o))))) in
    Err (Unavailable (if bool_decide (first = []) then txt "git refused the command" else first)).

(** [run_git], [run_git_write] *)
Definition run_git (root : text) (args : list text) : Op text :=
  o ← run_git_raw root args true; map_err_m Refused (lift (output_or_reason o)).
Definition run_git_write (root : text) (args : list text) : Op text :=
  o ← run_git_raw root args false; map_err_m Refused (lift (output_or_reason o)).

(** ** Status *)

Record Scan := { sc_branch : option text; sc_detached : bool; sc_entries : list GitEntry; sc_truncated : bool }.
Definition no_scan : Scan := {| sc_branch := None; sc_detached := false; sc_entries := []; sc_truncated := false |}.

(** The header of the branch. *)
Definition scan_header (header : text) (s : Scan) : Scan :=
  let h := trim (default header (head (split_str (txt "...") header))) in
  let set b d := {| sc_branch := b; sc_detached := d; sc_entries := sc_entries s; sc_truncated := sc_truncated s |} in
  if starts_with (txt "HEAD") h then set (sc_branch s) true
  else match Text.strip_prefix (txt "No commits yet on ") h with
       | Some name => set (Some (trim name)) (sc_detached s)
       | None => set (Some h) (sc_detached s)
       end.

Definition ascii (c : N) : bool := (c <? 128)%N.

(** An entry: two status letters, a separator of one byte, the path. *)
Definition entry_of_record (r : text) : result Fault GitEntry :=
  match r with
  | i :: w :: sep :: path =>
      if ascii i && ascii w && ascii sep then
        let untracked := (i =? 63)%N in
        Ok {| ge_path := path; index_status := [i]; worktree_status := [w];
              staged := negb untracked && negb (i =? 32)%N; unstaged := negb untracked && negb (w =? 32)%N;
              untracked := untracked |}
      else Err Panicked
  | _ => Err Panicked
  end.

(** The loop over the records. *)
Fixpoint scan_records (records : list text) (s : Scan) : result Fault Scan :=
  match records with
  | [] => Ok s
  | r :: records =>
      match Text.strip_prefix (txt "## ") r with
      | Some header => scan_records records (scan_header header s)
      | None =>
          if (MAX_STATUS_ENTRIES <=? length (sc_entries s))%nat then
            Ok {| sc_branch := sc_branch s; sc_detached := sc_detached s; sc_entries := sc_entries s; sc_truncated := true |}
          else if (utf8_len r <? 4)%N then scan_records records s
          else
            e ← entry_of_record r;
            scan_records records {| sc_branch := sc_branch s; sc_detached := sc_detached s;
                                    sc_entries := sc_entries s ++ [e]; sc_truncated := sc_truncated s |}
      end
  end.

Definition STATUS_ARGS : list text :=
  [txt "status"; txt "--porcelain=v1"; txt "-z"; txt "--branch"; txt "--no-renames"; txt "--untracked-files=all"].

(** What [status_in] makes of the output. *)
Definition status_of (root raw : text) : result Fault GitStatusReport :=
  sc ← scan_records (List.filter (fun r => negb (bool_decide (r = []))) (split_char 0 raw)) no_scan;
  Ok {| st_root := root; branch := sc_branch sc; detached := sc_detached sc;
        clean := bool_decide (sc_entries sc = []); st_entries := sc_entries sc; st_truncated := sc_truncated sc |}.

(** [status_in] *)
Definition status_in (root : text) : Op GitStatusReport :=
  raw ← run_git root STATUS_ARGS; lift (status_of root raw).

(** ** Diff *)

(** The longest prefix of whole characters within a number of bytes. *)
Fixpoint cut_text (room : N) (s : text) : text :=
  match s with
  | [] => []
  | c :: s' => if (utf8_len [c] <=? room)%N then c :: cut_text (room - utf8_len [c]) s' else []
  end.

Definition count_lines (sign : text) (header : text) (s : text) : nat :=
  length (List.filter (fun l => starts_with sign l && negb (starts_with header l)) (lines s)).

(** [diff_in] *)
Definition diff_in (root : text) (path : option text) (staged : bool) : Op GitDiffReport :=
  let args := [txt "diff"; txt "--no-color"; txt "--unified=3"; txt "--no-ext-diff"] ++
              (if staged then [txt "--cached"] else []) in
  validated ← match path with
              | Some p => v ← map_err_m Refused (lift (validate_path p)); mret (Some v)
              | None => mret None
              end;
  raw ← run_git root (args ++ match validated with Some v => [txt "--"; v] | None => [] end);
  let truncated := (MAX_TEXT_BYTES <? utf8_len raw)%N in
  let t := if truncated then cut_text MAX_TEXT_BYTES raw else raw in
  mret {| df_root := root; df_scope := if staged then txt "staged" else txt "worktree"; df_path := validated; df_text := t;
          additions := count_lines (txt "+") (txt "+++") t; deletions := count_lines (txt "-") (txt "---") t;
          df_truncated := truncated |}.

(** ** Log and branches *)

(** [authored.parse::<u64>().unwrap_or(0) * 1000] in a release build *)
Definition authored_ms (t : text) : N := ((default 0 (parse_unsigned 10 U64_MAX t) * 1000) mod (U64_MAX + 1))%N.

(** The loop over the lines of the log. *)
Fixpoint scan_log (capped : nat) (ls : list text) (acc : list GitLogEntry) : list GitLogEntry * bool :=
  match ls with
  | [] => (acc, false)
  | l :: ls =>
      if (capped <=? length acc)%nat then (acc, true)
      else
        let fields := split_char 31 l in
        let field i := default [] (fields !! i) in
        if bool_decide (field 0 = []) then scan_log capped ls acc
        else scan_log capped ls (acc ++ [{| hash := field 0; author := field 1; authored_at_unix_ms := authored_ms (field 2);
                                            subject := field 3 |}])
  end.

(** [limit.clamp(1, MAX_LOG_ENTRIES)] *)
Definition clamp_limit (limit : N) : N := N.min (N.max limit 1) MAX_LOG_ENTRIES.

Definition log_args (limit : N) : list text :=
  [txt "log"; txt "--max-count=" ++ txt (pretty (clamp_limit limit)); txt "--format=%H%x1f%an%x1f%at%x1f%s"].

(** [log_in] *)
Definition log_in (root : text) (limit : N) : Op GitLogReport :=
  raw ← run_git root (log_args limit);
  let '(l, t) := scan_log (N.to_nat (clamp_limit limit)) (lines raw) [] in
  mret {| lg_root := root; lg_entries := l; lg_truncated := t |}.

(** The loop over the lines of [for-each-ref]. *)
Fixpoint scan_branches (ls : list text) (names : list text) (cur : option text) : list text * option text :=
  match ls with
  | [] => (names, cur)
  | l :: ls =>
      let fields := split_char 31 l in
      let name := trim (default [] (fields !! 0)) in
      if bool_decide (name = []) then scan_branches ls names cur
      else
        let marked := bool_decide (trim (default [] (fields !! 1)) = txt "*") in
        scan_branches ls (names ++ [name]) (if marked then Some name else cur)
  end.

Definition BRANCHES_ARGS : list text :=
  [txt "for-each-ref"; txt "--format=%(refname:short)%1f%(HEAD)"; txt "refs/heads"].

(** [branches_in] *)
Definition branches_in (root : text) : Op GitBranchesReport :=
  raw ← run_git root BRANCHES_ARGS;
  let '(names, cur) := scan_branches (lines raw) [] None in
  mret {| br_root := root; branches := names; current := cur |}.

(** ** Mutations *)

Definition HEAD_ARGS : list text := [txt "rev-parse"; txt "--verify"; txt "--quiet"; txt "HEAD"].

(** [has_head] *)
Definition has_head (root : text) : Op bool :=
  o ← run_git_raw root HEAD_ARGS true; mret (success o).

(** [mutation_report] *)
Definition mutation_report (root op : text) (path detail : option text) : Op GitMutationReport :=
  st ← status_in root;
  mret {| mu_root := root; operation := op; mu_path := path; detail := detail; mu_status := st |}.

(** The target of [stage_in] and [unstage_in]. *)
Definition target_of (verb : text) (path : option text) (all : bool) : result GitError text :=
  match path, all with
  | Some _, true => Err (Malformed (verb ++ txt " takes a path or all, not both"))
  | None, false => Err (Malformed (verb ++ txt " needs a path or all"))
  | Some p, false => validate_path p
  | None, true => Ok (txt ".")
  end.

(** [stage_in] *)
Definition stage_in (root : text) (path : option text) (all : bool) : Op GitMutationReport :=
  target ← map_err_m Refused (lift (target_of (txt "stage") path all));
  run_git_write root [txt "add"; txt "-A"; txt "--"; target];;
  mutation_report root (txt "stage") path None.

(** [unstage_in] *)
Definition unstage_in (root : text) (path : option text) (all : bool) : Op GitMutationReport :=
  target ← map_err_m Refused (lift (target_of (txt "unstage") path all));
  has ← has_head root;
  run_git_write root (if (has : bool) then [txt "restore"; txt "--staged"; txt "--"; target]
                      else [txt "rm"; txt "--cached"; txt "-r"; txt "-f"; txt "--"; target]);;
  mutation_report root (txt "unstage") path
    (if (has : bool) then None
     else Some (txt "the repository has no commits yet, so the index was reset with git rm --cached")).

(** [commit_in] *)
Definition commit_in (root message : text) : Op GitMutationReport :=
  let message := trim message in
  throw_if (bool_decide (message = [])) (Refused (Malformed (txt "a commit needs a message")));;
  throw_if (MAX_COMMIT_MESSAGE_BYTES <? utf8_len message)%N
    (Refused (Malformed (txt "the commit message is longer than 8000 bytes")));;
  st ← status_in root;
  throw_if (negb (existsb staged (st_entries st))) (Refused (Unavailable (txt "there is nothing staged to commit")));;
  run_git_write root [txt "commit"; txt "-m"; message];;
  mutation_report root (txt "commit") None None.

(** [discard_in] *)
Definition discard_in (root path : text) : Op GitMutationReport :=
  target ← map_err_m Refused (lift (validate_path path));
  run_git_write root [txt "restore"; txt "--worktree"; txt "--"; target];;
  mutation_report root (txt "discard") (Some target) None.

(** ** The panel *)

Inductive Request :=
| GitStatus
| GitDiff (path : option text) (staged : bool)
| GitLog (limit : option N)
| GitBranches
| GitStage (path : option text) (all : bool)
| GitUnstage (path : option text) (all : bool)
| GitCommit (message : text)
| GitDiscard (path : text).

Inductive Report :=
| StatusReport (r : GitStatusReport)
| DiffReport (r : GitDiffReport)
| LogReport (r : GitLogReport)
| BranchesReport (r : GitBranchesReport)
| MutationReport (r : GitMutationReport).

(** [status], [diff], [log], [branches], [stage], [unstage], [commit] and
    [discard], with the default of [GitLogRequest::limit]. *)
Definition handle (is_dir : text -> bool) (environment : option DshEnvironment) (q : Request) : Op Report :=
  root ← map_err_m Refused (lift (repo_root is_dir environment));
  match q with
  | GitStatus => r ← status_in root; mret (StatusReport r)
  | GitDiff p st => r ← diff_in root p st; mret (DiffReport r)
  | GitLog limit => r ← log_in root (default 50%N limit); mret (LogReport r)
  | GitBranches => r ← branches_in root; mret (BranchesReport r)
  | GitStage p all => r ← stage_in root p all; mret (MutationReport r)
  | GitUnstage p all => r ← unstage_in root p all; mret (MutationReport r)
  | GitCommit m => r ← commit_in root m; mret (MutationReport r)
  | GitDiscard p => r ← discard_in root p; mret (MutationReport r)
  end.
End Panel.
