(* ===== verification/GitFacts.v ===== *)
(** * What the git panel asks git, and what it reads from the answer

    Whatever git answers, a request of [GitPanel] runs only commands of a fixed
    form, with the caller's text as one checked path behind [--] or as the message
    of a commit; and the status parser inverts the documented porcelain format. *)
From Stdlib Require Import NArith ZArith Lia.
From Stdlib Require Import Strings.Byte.
From S2P Require Import Prelude Text FileManager ShellEnvironment GitPanel.
From stdpp Require Import base strings list option gmap pretty.

(** ** Paths *)

(** A path relative to the repository that git reads as a path. *)
Record safe_path (p : text) : Prop := {
  sp_nonempty : p <> [];
  sp_short : (utf8_len p <= 4096)%N;
  sp_no_option : starts_with (txt "-") p = false;
  sp_relative : starts_with (txt "/") p = false;
  sp_no_colon : (58%N ∉ p);
  sp_no_backslash : (92%N ∉ p);
  sp_no_parent : (txt ".." ∉ split_char 47 p)
}.

Lemma forward_no_backslash s : (92%N ∉ forward_slashes s).
Proof.
  unfold forward_slashes. intros (c & Hc & _)%list_elem_of_In%in_map_iff.
  destruct (N.eqb_spec c 92); [done | by destruct n].
Qed.

Lemma validate_path_safe relative p : validate_path relative = Ok p -> p = forward_slashes relative /\ safe_path p.
Proof.
  unfold validate_path. set (n := forward_slashes relative).
  destruct (bool_decide (n = []) || _) eqn:E1; [done |]. destruct (starts_with (txt "-") n) eqn:E2; [done |].
  destruct (_ || starts_with (txt "//") n) eqn:E3; [done |]. destruct (existsb _ _) eqn:E4; [done |]. intros [= <-].
  apply orb_false_iff in E1 as [E1 Hlen], E3 as [E3 _]. apply orb_false_iff in E3 as [E3 Ecolon].
  split; [done |]. split; [by apply bool_decide_eq_false in E1 | by apply N.ltb_ge in Hlen | done | done | | apply forward_no_backslash |].
  - intros Hin. unfold has_char in Ecolon. eapply existsb_not_elem in Ecolon; [| exact Hin]. by rewrite N.eqb_refl in Ecolon.
  - intros Hin. eapply existsb_not_elem in E4; [| exact Hin]. by rewrite bool_decide_true in E4.
Qed.

Lemma dot_safe : safe_path (txt ".").
Proof. split; try done; vm_compute; set_solver. Qed.

(** ** Commands *)

Definition READ_ENV : list (text * text) := [(txt "GIT_TERMINAL_PROMPT", txt "0"); (txt "GIT_OPTIONAL_LOCKS", txt "0")].
Definition WRITE_ENV : list (text * text) := [(txt "GIT_TERMINAL_PROMPT", txt "0"); (txt "GIT_EDITOR", txt "true")].

(** The commands that read. *)
Inductive reading : list text -> Prop :=
| reading_status : reading STATUS_ARGS
| reading_branches : reading BRANCHES_ARGS
| reading_head : reading HEAD_ARGS
| reading_log n : (1 <= n <= 200)%N ->
    reading [txt "log"; txt "--max-count=" ++ txt (pretty n); txt "--format=%H%x1f%an%x1f%at%x1f%s"]
| reading_diff (cached : bool) (p : option text) : (forall x, p = Some x -> safe_path x) ->
    reading ([txt "diff"; txt "--no-color"; txt "--unified=3"; txt "--no-ext-diff"] ++
             (if cached then [txt "--cached"] else []) ++ match p with Some x => [txt "--"; x] | None => [] end).

Definition names (p : option text) (all : bool) (x : text) : Prop :=
  match p with Some p => all = false /\ x = forward_slashes p | None => all = true /\ x = txt "." end /\ safe_path x.

(** The command that changes the repository, per request. *)
Inductive changing : Request -> list text -> Prop :=
| changing_stage p all x : names p all x -> changing (GitStage p all) [txt "add"; txt "-A"; txt "--"; x]
| changing_unstage p all x : names p all x -> changing (GitUnstage p all) [txt "restore"; txt "--staged"; txt "--"; x]
| changing_unborn p all x : names p all x ->
    changing (GitUnstage p all) [txt "rm"; txt "--cached"; txt "-r"; txt "-f"; txt "--"; x]
| changing_commit m : trim m <> [] -> (utf8_len (trim m) <= MAX_COMMIT_MESSAGE_BYTES)%N ->
    changing (GitCommit m) [txt "commit"; txt "-m"; trim m]
| changing_discard p x : names (Some p) false x -> changing (GitDiscard p) [txt "restore"; txt "--worktree"; txt "--"; x].

Section Commands.
Context {G : Git}.

Definition read_call (root : text) (c : GitCall) : Prop :=
  call_root c = root /\ call_env c = READ_ENV /\ reading (call_args c).
Definition write_call (root : text) (q : Request) (c : GitCall) : Prop :=
  call_root c = root /\ call_env c = WRITE_ENV /\ changing q (call_args c).

(** Only reads were added to the log. *)
Definition only_reads (root : text) (s s' : Panel) : Prop := exists l, ran s' = ran s ++ l /\ Forall (read_call root) l.

#[local] Instance only_reads_preorder root : PreOrder (only_reads root).
Proof.
  split.
  - intros s. exists []. by rewrite app_nil_r.
  - intros s1 s2 s3 (l & H1 & F1) (l' & H2 & F2). exists (l ++ l'). rewrite H2, H1, app_assoc. split; [done | by apply Forall_app].
Qed.

Lemma reads_raw root args : reading args -> steps_in (only_reads root) (run_git_raw root args true).
Proof.
  intros Hr s. unfold run_git_raw. destruct (git _ _) as [r repo']. eexists. split; [reflexivity |]. by repeat constructor.
Qed.

Lemma reads_run root args : reading args -> steps_in (only_reads root) (run_git root args).
Proof. intros Hr. unfold run_git. apply steps_in_bind; [apply _ | by apply reads_raw |]. intros o. apply steps_in_map_err, steps_in_lift, _. Qed.

Lemma reads_status root : steps_in (only_reads root) (status_in root).
Proof. unfold status_in. apply steps_in_bind; [apply _ | apply reads_run; constructor |]. intros raw. apply steps_in_lift, _. Qed.

(** A result that only decides how to go on. *)
Lemma steps_in_checked {S E F A B} (R : relation S) `{!PreOrder R} (f : E -> F) (r : result E A) (k : A -> M S F B) :
  (forall a, r = Ok a -> steps_in R (k a)) -> steps_in R (map_err_m f (lift r) ≫= k).
Proof. intros H s. unfold_monad. destruct r as [a|e]; cbn; [by apply H | reflexivity]. Qed.

(** Reads, at most one change of the given kind, reads. *)
Definition one_change {A} (root : text) (ok : GitCall -> Prop) (m : M Panel Fault A) : Prop := forall s,
  exists before change after, ran (m s).2 = ran s ++ before ++ change ++ after /\
    Forall (read_call root) before /\ Forall (read_call root) after /\ (change = [] \/ exists c, change = [c] /\ ok c).

Lemma one_change_reads {A} root ok (m : M Panel Fault A) : steps_in (only_reads root) m -> one_change root ok m.
Proof. intros H s. destruct (H s) as (l & Hl & Hf). exists l, [], []. rewrite app_nil_r. split_and!; auto. Qed.

Lemma one_change_after {A B} root ok (m : M Panel Fault A) (k : A -> M Panel Fault B) :
  steps_in (only_reads root) m -> (forall a, one_change root ok (k a)) -> one_change root ok (m ≫= k).
Proof.
  intros Hm Hk s. destruct (Hm s) as (l & Hl & Hf). unfold mbind, M_bind. destruct (m s) as [[a|e] s1]; cbn in *.
  - destruct (Hk a s1) as (b & c & d & Hr & Hb & Hd & Hc). exists (l ++ b), c, d. rewrite Hr, Hl, !app_assoc.
    split_and!; auto. by apply Forall_app.
  - exists l, [], []. rewrite app_nil_r. split_and!; auto.
Qed.

Lemma one_change_then {A B} root ok (m : M Panel Fault A) (k : A -> M Panel Fault B) :
  one_change root ok m -> (forall a, steps_in (only_reads root) (k a)) -> one_change root ok (m ≫= k).
Proof.
  intros Hm Hk s. destruct (Hm s) as (b & c & d & Hr & Hb & Hd & Hc). unfold mbind, M_bind.
  destruct (m s) as [[a|e] s1]; cbn in *.
  - destruct (Hk a s1) as (l & Hl & Hf). exists b, c, (d ++ l). rewrite Hl, Hr. rewrite <- !app_assoc.
    split_and!; auto. by apply Forall_app.
  - exists b, c, d. split_and!; auto.
Qed.

Lemma one_change_checked {A B E} root ok (f : E -> Fault) (r : result E A) (k : A -> M Panel Fault B) :
  (forall a, r = Ok a -> one_change root ok (k a)) -> one_change root ok (map_err_m f (lift r) ≫= k).
Proof.
  intros H s. unfold_monad. destruct r as [a|e]; cbn; [by apply H |]. exists [], [], []. rewrite app_nil_r. split_and!; auto.
Qed.

Lemma one_change_guard {B} root ok c e (k : unit -> M Panel Fault B) :
  (c = false -> one_change root ok (k tt)) -> one_change root ok (throw_if c e ≫= k).
Proof.
  intros H s. unfold_monad. destruct c; cbn; [| by apply H]. exists [], [], []. rewrite app_nil_r. split_and!; auto.
Qed.

Lemma write_changes root q args : changing q args -> one_change root (write_call root q) (run_git_write root args).
Proof.
  intros Hc s. unfold run_git_write, run_git_raw. unfold_monad. destruct (git _ _) as [r repo'].
  exists [], [{| call_root := root; call_args := args; call_env := WRITE_ENV |}], []. rewrite app_nil_r, app_nil_l.
  destruct r as [o|[]]; cbn; (split_and!; [done | constructor | constructor | right; eexists; split; [done | by split_and!]]).
Qed.

(** A change and the report that ends it. *)
Lemma change_and_report root q args op path detail :
  changing q args ->
  one_change root (write_call root q) (run_git_write root args ≫= fun _ => mutation_report root op path detail).
Proof.
  intros Hc. apply one_change_then; [by apply write_changes |]. intros _. unfold mutation_report.
  apply steps_in_bind; [apply _ | apply reads_status |]. intros st. apply steps_in_ret, _.
Qed.

Lemma target_names verb p all x : target_of verb p all = Ok x -> names p all x.
Proof.
  unfold target_of. destruct p as [p|], all; try done.
  - intros H. destruct (validate_path_safe _ _ H) as [-> Hs]. done.
  - intros [= <-]. split; [done | apply dot_safe].
Qed.

Lemma steps_in_when {S E A B} (R : relation S) `{!PreOrder R} (P : A -> Prop) (m : M S E A) (k : A -> M S E B) :
  steps_in R m -> (forall s a s', m s = (Ok a, s') -> P a) -> (forall a, P a -> steps_in R (k a)) -> steps_in R (m ≫= k).
Proof.
  intros Hm Hp Hk s. pose proof (Hm s) as H1. unfold mbind, M_bind. destruct (m s) as [[a|e] s1] eqn:E1; cbn in *; [| done].
  etrans; [exact H1 | by eapply Hk, Hp].
Qed.

Lemma diff_reads root p st : steps_in (only_reads root) (diff_in root p st).
Proof.
  unfold diff_in. apply (steps_in_when _ (fun v => forall x, v = Some x -> safe_path x)).
  - destruct p as [p|]; [| apply steps_in_ret, _]. apply steps_in_checked; [apply _ |]. intros v _. apply steps_in_ret, _.
  - intros s v s'. destruct p as [p|]; [| by intros [= <- <-]]. unfold_monad.
    destruct (validate_path p) as [y|e] eqn:Hv; cbn; [| done]. intros [= <- <-] x [= <-]. by destruct (validate_path_safe _ _ Hv).
  - intros v Hv. apply steps_in_bind; [apply _ | | intros raw; apply steps_in_ret, _].
    apply reads_run. rewrite <- app_assoc. by constructor.
Qed.

(** C18.  Whatever git answers, a request of the panel runs git only in the
    repository of the active environment and never through an option the caller
    chose: reads of fixed forms with the index locks off, and at most one command
    that changes something, only for the requests that ask for it and of the one
    form that belongs to the request, in which the caller's text is a checked
    relative path behind [--] or a non-empty message of bounded length. *)
Theorem git_commands_confined is_dir environment q (s : Panel) :
  exists calls, ran (handle is_dir environment q s).2 = ran s ++ calls /\
    (calls = [] \/ exists root, repo_root is_dir environment = Ok root /\
      exists before change after, calls = before ++ change ++ after /\
        Forall (read_call root) before /\ Forall (read_call root) after /\
        (change = [] \/ exists c, change = [c] /\ write_call root q c)).
Proof.
  unfold handle. unfold map_err_m at 1, lift at 1. unfold mbind at 1, M_bind at 1.
  destruct (repo_root is_dir environment) as [root|e]; cbn [map_err]; [| exists []; rewrite app_nil_r; auto].
  match goal with |- context [snd (?m s)] => assert (H : one_change root (write_call root q) m) end.
  { destruct q as [|p st|limit| |p all|p all|m|p].
    - apply one_change_reads, steps_in_bind; [apply _ | apply reads_status | intros; apply steps_in_ret, _].
    - apply one_change_reads, steps_in_bind; [apply _ | apply diff_reads | intros; apply steps_in_ret, _].
    - apply one_change_reads, steps_in_bind; [apply _ | | intros; apply steps_in_ret, _].
      unfold log_in. apply steps_in_bind; [apply _ | apply reads_run, reading_log; unfold clamp_limit, MAX_LOG_ENTRIES; lia |].
      intros raw. destruct (scan_log _ _ _). apply steps_in_ret, _.
    - apply one_change_reads, steps_in_bind; [apply _ | | intros; apply steps_in_ret, _].
      unfold branches_in. apply steps_in_bind; [apply _ | apply reads_run; constructor |].
      intros raw. destruct (scan_branches _ _ _). apply steps_in_ret, _.
    - apply one_change_then; [| intros; apply steps_in_ret, _]. unfold stage_in. apply one_change_checked. intros x Hx%target_names.
      apply change_and_report. by constructor.
    - apply one_change_then; [| intros; apply steps_in_ret, _]. unfold unstage_in. apply one_change_checked. intros x Hx%target_names.
      apply one_change_after; [| intros [|]; apply change_and_report; by constructor].
      unfold has_head. apply steps_in_bind; [apply _ | apply reads_raw; constructor | intros; apply steps_in_ret, _].
    - apply one_change_then; [| intros; apply steps_in_ret, _]. unfold commit_in.
      apply one_change_guard. intros Hm%bool_decide_eq_false. apply one_change_guard. intros Hl%N.ltb_ge.
      apply one_change_after; [apply reads_status |]. intros st. apply one_change_guard. intros _.
      apply change_and_report. by constructor.
    - apply one_change_then; [| intros; apply steps_in_ret, _]. unfold discard_in. apply one_change_checked. intros x Hx.
      apply change_and_report. constructor. split; [by destruct (validate_path_safe _ _ Hx) | by destruct (validate_path_safe _ _ Hx)]. }
  destruct (H s) as (b & c & a & Hr & Hb & Ha & Hc). exists (b ++ c ++ a). split; [exact Hr |]. right. exists root. split; [done |].
  exists b, c, a. split_and!; auto.
Qed.
End Commands.

(** ** The porcelain format *)

(** What [git status --porcelain=v1 -z --branch] prints: where HEAD is, and two
    letters, a space and a path per entry, each ended by NUL. *)
Inductive Head := OnBranch (name : text) (tracking : option text) | Unborn (name : text) | DetachedHead.

Definition print_head (h : Head) : text :=
  txt "## " ++ match h with
               | OnBranch n None => n
               | OnBranch n (Some t) => n ++ txt "..." ++ t
               | Unborn n => txt "No commits yet on " ++ n
               | DetachedHead => txt "HEAD (no branch)"
               end.

Definition print_entry (e : N * N * text) : text := let '(x, y, p) := e in x :: y :: 32%N :: p.

Definition print_status (h : Head) (es : list (N * N * text)) : text :=
  flat_map (fun r => r ++ [0%N]) (print_head h :: map print_entry es).

(** A name that git allows for a branch and that does not start with [HEAD]. *)
Record branch_name (n : text) : Prop := {
  bn_nonempty : n <> [];
  bn_chars : Forall (fun c => is_whitespace c = false /\ c <> 0%N) n;
  bn_dots : forall a b, n <> a ++ [46%N; 46%N] ++ b;
  bn_end : last n <> Some 46%N;
  bn_head : starts_with (txt "HEAD") n = false
}.

Definition head_ok (h : Head) : Prop :=
  match h with
  | OnBranch n t => branch_name n /\ forall x, t = Some x -> (0%N ∉ x)
  | Unborn n => branch_name n
  | DetachedHead => True
  end.

(** Letters of the format and a path git can report. *)
Definition entry_ok (e : N * N * text) : Prop :=
  let '(x, y, p) := e in x ∈ txt " MADRCUT?!" /\ y ∈ txt " MADRCUT?!" /\ p <> [] /\ (0%N ∉ p).

Definition entry_meant (e : N * N * text) : GitEntry :=
  let '(x, y, p) := e in
  {| ge_path := p; index_status := [x]; worktree_status := [y];
     staged := negb ((x =? 63)%N) && negb ((x =? 32)%N);
     unstaged := negb ((x =? 63)%N) && negb ((y =? 32)%N);
     untracked := (x =? 63)%N |}.

Lemma split_terminated c ls :
  Forall (fun l => (c ∉ l)) ls -> split_char c (flat_map (fun l => l ++ [c]) ls) = ls ++ [[]].
Proof.
  induction 1 as [|l ls Hl _ IH]; [done |]. cbn [flat_map]. rewrite <- app_assoc. cbn [app].
  induction l as [|x l IHl]; cbn [app split_char]; [by rewrite N.eqb_refl, IH |].
  apply not_elem_of_cons in Hl as [Hx Hl]. rewrite (proj2 (N.eqb_neq x c)) by congruence. by rewrite (IHl Hl).
Qed.

Lemma drop_while_none {A} (f : A -> bool) l : (forall c, head l = Some c -> f c = false) -> drop_while f l = l.
Proof. destruct l as [|c l]; [done |]. cbn. intros H. by rewrite (H c eq_refl). Qed.

(** Text that starts and ends with a visible character. *)
Lemma trim_visible s :
  (forall c, head s = Some c -> is_whitespace c = false) -> (forall c, last s = Some c -> is_whitespace c = false) -> trim s = s.
Proof.
  intros Hh Hl. unfold trim, trim_end, trim_start. rewrite (drop_while_none _ s Hh).
  rewrite (drop_while_none _ (rev s)); [apply rev_involutive |]. intros c Hc. apply Hl.
  destruct s as [|x s _] using rev_ind; [done |]. rewrite rev_app_distr in Hc. cbn in Hc. by rewrite last_snoc.
Qed.

Lemma branch_trim n : branch_name n -> trim n = n.
Proof.
  intros Hn. pose proof (bn_chars n Hn) as Hf. rewrite Forall_forall in Hf. apply trim_visible; intros c Hc; apply Hf.
  - destruct n; [done |]. injection Hc as ->. left.
  - by apply last_Some_elem_of.
Qed.

Lemma starts_with_cons x pat c s : starts_with (x :: pat) (c :: s) = bool_decide (c = x) && starts_with pat s.
Proof.
  unfold starts_with. cbn [length take]. destruct (decide (c = x)) as [->|Hne].
  - rewrite (bool_decide_true (x = x)) by done. cbn. apply bool_decide_ext. split; [by intros [= ->] | by intros ->].
  - rewrite (bool_decide_false (c = x)) by done. apply bool_decide_false. by intros [= ? _].
Qed.

(** Nothing before the dots of the tracking part matches them. *)
Lemma no_dots n rest :
  (forall a b, n <> a ++ [46%N; 46%N] ++ b) -> last n <> Some 46%N ->
  split_str (txt "...") (n ++ rest) =
  match split_str (txt "...") rest with p :: ps => (n ++ p) :: ps | [] => [n] end.
Proof.
  unfold split_str. change (txt "...") with [46; 46; 46]%N.
  assert (Hne : split_from [46; 46; 46]%N 0 rest <> []) by (destruct rest; cbn; repeat case_match; done).
  induction n as [|c n IH]; intros Hd Hl; cbn [app]; [by destruct (split_from _ 0 rest) |].
  assert (Hs : starts_with [46; 46; 46]%N (c :: n ++ rest) = false).
  { rewrite starts_with_cons. case_bool_decide as Hc; [subst c | done]. cbn [andb]. destruct n as [|d n]; [done |]. cbn [app].
    rewrite starts_with_cons. case_bool_decide as Hd'; [subst d | done]. by destruct (Hd [] n). }
  cbn [split_from]. rewrite Hs. rewrite IH.
  - by destruct (split_from _ 0 rest).
  - intros a b ->. by apply (Hd (c :: a) b).
  - destruct n; [done | by rewrite last_cons in Hl; destruct (last (n :: n0))].
Qed.

Definition head_meant (h : Head) : option text * bool :=
  match h with OnBranch n _ | Unborn n => (Some n, false) | DetachedHead => (None, true) end.

Lemma first_part n rest : branch_name n -> head (split_str (txt "...") (n ++ txt "..." ++ rest)) = Some n.
Proof.
  intros Hn. rewrite no_dots by apply Hn. unfold split_str. cbn [txt app split_from].
  change (txt "...") with [46; 46; 46]%N. cbn [app split_from]. rewrite !starts_with_cons, !bool_decide_true by done.
  unfold starts_with at 1. cbn [length take]. rewrite bool_decide_true by done. cbn [andb]. by rewrite app_nil_r.
Qed.

Lemma whole_part n : branch_name n -> split_str (txt "...") n = [n].
Proof.
  intros Hn. rewrite <- (app_nil_r n) at 1. rewrite no_dots by apply Hn. unfold split_str. cbn [split_from]. by rewrite app_nil_r.
Qed.

Lemma head_no_unborn n : branch_name n -> Text.strip_prefix (txt "No commits yet on ") n = None.
Proof.
  intros Hn. unfold Text.strip_prefix, starts_with. rewrite bool_decide_false; [done |]. intros Ht.
  pose proof (bn_chars n Hn) as Hf. rewrite Forall_forall in Hf. destruct (Hf 32%N) as [Hw _]; [| done].
  rewrite <- (take_drop (length (txt "No commits yet on ")) n), Ht. apply elem_of_app. left. vm_compute. set_solver.
Qed.

Lemma strip_own pre s : Text.strip_prefix pre (pre ++ s) = Some s.
Proof. unfold Text.strip_prefix, starts_with. by rewrite take_app_length, bool_decide_true, drop_app_length. Qed.

Lemma scan_head h s : head_ok h -> exists header,
  Text.strip_prefix (txt "## ") (print_head h) = Some header /\
  scan_header header {| sc_branch := None; sc_detached := false; sc_entries := s; sc_truncated := false |} =
  {| sc_branch := (head_meant h).1; sc_detached := (head_meant h).2; sc_entries := s; sc_truncated := false |}.
Proof.
  intros Hok. unfold print_head. rewrite strip_own. eexists. split; [reflexivity |]. unfold scan_header. destruct h as [n [t|]|n|]; cbn [head_ok head_meant fst snd] in *.
  - destruct Hok as [Hn _]. rewrite first_part by done. change (default _ (Some n)) with n.
    rewrite (branch_trim n Hn), (bn_head n Hn), (head_no_unborn n Hn). done.
  - destruct Hok as [Hn _]. rewrite whole_part by done. change (default n (head [n])) with n.
    rewrite (branch_trim n Hn), (bn_head n Hn), (head_no_unborn n Hn). done.
  - assert (Hsplit : split_str (txt "...") (txt "No commits yet on " ++ n) = [txt "No commits yet on " ++ n]).
    { rewrite no_dots; [by rewrite whole_part | | by vm_compute].
      intros a b E. assert (46%N ∈ txt "No commits yet on ") as H; [| vm_compute in H; set_solver].
      rewrite E. apply elem_of_app. right. left. }
    rewrite Hsplit. change (default ?x (head [?x])) with x.
    rewrite trim_visible; [| by intros c [= <-] |].
    2:{ intros c. rewrite last_app. pose proof (bn_chars n Hok) as Hf. rewrite Forall_forall in Hf.
        destruct (last n) as [d|] eqn:Hd; [| apply last_None in Hd; by destruct (bn_nonempty n Hok)].
        intros [= <-]. by apply Hf, last_Some_elem_of. }
    replace (starts_with (txt "HEAD") (txt "No commits yet on " ++ n)) with false by reflexivity.
    by rewrite strip_own, branch_trim.
  - done.
Qed.

Lemma letter_cases x : x ∈ txt " MADRCUT?!" -> x <> 35%N /\ (x <? 128)%N = true /\ x <> 0%N.
Proof. vm_compute (txt _). rewrite !elem_of_cons, elem_of_nil. intros H. destruct_or!; by subst. Qed.

Lemma scan_entry e r s :
  entry_ok e -> scan_records (print_entry e :: r) s =
  if (MAX_STATUS_ENTRIES <=? length (sc_entries s))%nat then
    Ok {| sc_branch := sc_branch s; sc_detached := sc_detached s; sc_entries := sc_entries s; sc_truncated := true |}
  else scan_records r {| sc_branch := sc_branch s; sc_detached := sc_detached s;
                         sc_entries := sc_entries s ++ [entry_meant e]; sc_truncated := sc_truncated s |}.
Proof.
  destruct e as [[x y] p]. intros (Hx & Hy & Hp & _). apply letter_cases in Hx as (Hx & Hax & _), Hy as (_ & Hay & _).
  cbn [scan_records print_entry]. replace (Text.strip_prefix (txt "## ") (x :: y :: 32%N :: p)) with (@None text).
  2:{ unfold Text.strip_prefix, starts_with. rewrite bool_decide_false; [done |]. vm_compute (txt _). cbn. congruence. }
  destruct (MAX_STATUS_ENTRIES <=? _)%nat; [done |].
  assert (Hlen : (utf8_len (x :: y :: 32%N :: p) <? 4)%N = false).
  { apply N.ltb_ge. unfold utf8_len. cbn [foldr]. rewrite Hax, Hay. cbn [N.ltb]. destruct p as [|c p]; [done |]. cbn [foldr].
    repeat case_match; lia. }
  rewrite Hlen. unfold entry_of_record, ascii. rewrite Hax, Hay. cbn [andb]. reflexivity.
Qed.

Lemma scan_entries es s :
  Forall entry_ok es -> (length (sc_entries s) <= MAX_STATUS_ENTRIES)%nat ->
  let room := (MAX_STATUS_ENTRIES - length (sc_entries s))%nat in
  scan_records (map print_entry es) s =
  Ok {| sc_branch := sc_branch s; sc_detached := sc_detached s;
        sc_entries := sc_entries s ++ map entry_meant (take room es); sc_truncated := sc_truncated s || (room <? length es)%nat |}.
Proof.
  intros Hes. revert s. induction Hes as [|e es He _ IH]; intros s Hs; cbv zeta.
  - cbn [map scan_records]. rewrite take_nil, app_nil_r, orb_false_r. by destruct s.
  - rewrite map_cons, scan_entry by done. destruct (Nat.leb_spec MAX_STATUS_ENTRIES (length (sc_entries s))) as [Hle|Hlt].
    + replace (MAX_STATUS_ENTRIES - _)%nat with 0%nat by lia. cbn [take map]. by rewrite app_nil_r, orb_true_r.
    + rewrite IH by (cbn [sc_entries]; rewrite length_app; cbn [length]; lia). cbn [sc_branch sc_detached sc_entries sc_truncated].
      rewrite length_app. cbn [length].
      destruct (MAX_STATUS_ENTRIES - length (sc_entries s))%nat as [|room] eqn:Hroom; [lia |].
      replace (MAX_STATUS_ENTRIES - (length (sc_entries s) + 1))%nat with room by lia.
      cbn [take map]. rewrite <- app_assoc. done.
Qed.

Lemma records_of h es :
  head_ok h -> Forall entry_ok es ->
  List.filter (fun r => negb (bool_decide (r = []))) (split_char 0 (print_status h es)) = print_head h :: map print_entry es.
Proof.
  intros Hh Hes. unfold print_status. rewrite split_terminated.
  - rewrite List.filter_app. replace (List.filter _ [[]]) with (@nil text) by done. rewrite app_nil_r.
    assert (Hne : Forall (fun r => negb (bool_decide (r = [])) = true) (print_head h :: map print_entry es)).
    { assert (Hcons : forall c (r : text), negb (bool_decide (c :: r = [])) = true)
        by (intros; by rewrite bool_decide_false).
      constructor; [apply Hcons |]. clear Hes. induction es as [|[[x y] p] es IH]; constructor; [apply Hcons | done]. }
    induction Hne as [|r l Hr _ IH]; [done |]. cbn [List.filter]. by rewrite Hr, IH.
  - constructor.
    + assert (Hname : forall n, branch_name n -> (0%N ∉ n)).
      { intros n Hn Hin. pose proof (bn_chars n Hn) as Hf. rewrite Forall_forall in Hf. by destruct (Hf _ Hin). }
      assert (Hmark : (0%N ∉ txt "## ")) by (vm_compute; set_solver).
      unfold print_head. rewrite elem_of_app. intros [H|H]; [done |]. destruct h as [n [t|]|n|]; cbn [head_ok] in Hh.
      * destruct Hh as [Hn Ht]. rewrite !elem_of_app in H. destruct H as [H|[H|H]]; [by apply (Hname n) | by vm_compute in H; set_solver | by apply (Ht t)].
      * exact (Hname n (proj1 Hh) H).
      * rewrite elem_of_app in H. destruct H as [H|H]; [by vm_compute in H; set_solver | by apply (Hname n)].
      * by vm_compute in H; set_solver.
    + induction Hes as [|[[x y] p] es (Hx & Hy & _ & Hp) _ IH]; [constructor |]. constructor; [| done]. cbn [print_entry].
      apply letter_cases in Hx as (_ & _ & Hx), Hy as (_ & _ & Hy). rewrite !not_elem_of_cons. auto.
Qed.

(** C38.  The status parser inverts the porcelain format: when git prints where
    HEAD is and the changed paths in the documented form, on a branch whose name
    does not start with [HEAD], the report names that branch, or says that HEAD is
    detached, and lists the entries with their meaning in their order, the first
    2000 of them and a mark when there are more. *)
Theorem status_round_trip {G : Git} root h es errors r' (s : Panel) :
  head_ok h -> Forall entry_ok es -> forallb scalar (print_status h es) = true ->
  git {| call_root := root; call_args := STATUS_ARGS; call_env := READ_ENV |} (repo s) =
    (Ok {| success := true; stdout := utf8_encode (print_status h es); stderr := errors |}, r') ->
  (status_in root s).1 =
  Ok {| st_root := root; branch := (head_meant h).1; detached := (head_meant h).2; clean := bool_decide (es = []);
        st_entries := map entry_meant (take MAX_STATUS_ENTRIES es);
        st_truncated := (MAX_STATUS_ENTRIES <? length es)%nat |}.
Proof.
  intros Hh Hes Hsc Hg. unfold status_in, run_git, run_git_raw. unfold_monad. fold READ_ENV. rewrite Hg.
  unfold output_or_reason. cbn [success stdout map_err fst]. rewrite from_utf8_lossy_encode by done. cbn [fst].
  unfold status_of. rewrite records_of by done. destruct (scan_head h [] Hh) as (header & Hp & Hsh).
  cbn [scan_records]. rewrite Hp. unfold no_scan. rewrite Hsh, scan_entries by (done || (cbn; lia)).
  cbn [sc_entries sc_branch sc_detached sc_truncated length mbind result_bind orb app]. rewrite Nat.sub_0_r.
  do 2 f_equal. destruct es; [by rewrite take_nil |]. done.
Qed.

(** ** Log *)

Lemma scan_log_complete capped ls acc : (length acc + length ls <= capped)%nat -> (scan_log capped ls acc).2 = false.
Proof.
  revert acc. induction ls as [|l ls IH]; intros acc H; cbn [scan_log length] in *; [done |].
  destruct (Nat.leb_spec capped (length acc)); [lia |]. case_match; apply IH; rewrite ?length_app; cbn [length]; lia.
Qed.

(** git prints at most the number of commits it was asked for, so the mark that
    there are more is never set. *)
Lemma log_never_truncated {G : Git} root limit (s : Panel) r s' :
  (forall c p o p', git c p = (Ok o, p') -> success o = true ->
     call_args c = log_args limit -> (length (lines (from_utf8_lossy (stdout o))) <= N.to_nat (clamp_limit limit))%nat) ->
  log_in root limit s = (Ok r, s') -> lg_truncated r = false.
Proof.
  intros Hgit. unfold log_in, run_git, run_git_raw. unfold_monad. destruct (git _ (repo s)) as [[o|[]] p'] eqn:Hg; cbn; try done.
  unfold output_or_reason. destruct (success o) eqn:Ho; cbn; [| done].
  pose proof (Hgit _ _ _ _ Hg Ho eq_refl) as Hlen. cbn in Hlen.
  pose proof (scan_log_complete (N.to_nat (clamp_limit limit)) (lines (from_utf8_lossy (stdout o))) []) as Hs.
  destruct (scan_log _ _ []) as [l t]. intros [= <- <-]. apply Hs. cbn [length]. exact Hlen.
Qed.

Module LocalGit.
(** A git that answers every command with the same text. *)
Definition says (t : text) : Git :=
  {| Repo := unit; git := fun _ r => (Ok {| success := true; stdout := utf8_encode t; stderr := [] |}, r) |}.

Definition fresh (t : text) : @Panel (says t) := @Build_Panel (says t) tt [].

Definition sample : text :=
  print_status (OnBranch (txt "main") (Some (txt "origin/main"))) [(32, 77, txt "a b"); (63, 63, txt "new")]%N.

Lemma main_name : branch_name (txt "main").
Proof.
  split; [done | | | done | done].
  - apply Forall_forall. intros c. vm_compute (txt _). rewrite !elem_of_cons, elem_of_nil. intros H. destruct_or!; by subst.
  - intros a b E. assert (46%N ∈ txt "main") as H; [| vm_compute in H; set_solver].
    rewrite E. apply elem_of_app. right. left.
Qed.

Lemma status_round_trip_witness :
  (@status_in (says sample) (txt "/r") (fresh sample)).1 =
  Ok {| st_root := txt "/r"; branch := Some (txt "main"); detached := false; clean := false;
        st_entries := map entry_meant [(32, 77, txt "a b"); (63, 63, txt "new")]%N; st_truncated := false |}.
Proof.
  apply (@status_round_trip (says sample) (txt "/r") (OnBranch (txt "main") (Some (txt "origin/main")))
           [(32, 77, txt "a b"); (63, 63, txt "new")]%N [] tt (fresh sample)).
  - split; [apply main_name |]. intros x [= <-]. vm_compute. set_solver.
  - repeat constructor; vm_compute; set_solver.
  - vm_compute. reflexivity.
  - reflexivity.
Defined.

(** A branch whose name starts with HEAD is reported as a detached HEAD. *)
Example headline_branch_is_detached :
  let t := print_status (OnBranch (txt "HEADLINE") None) [] in
  match (@status_in (says t) (txt "/r") (fresh t)).1 with Ok r => (branch r, detached r) | Err _ => (None, false) end = (None, true).
Proof. vm_compute. reflexivity. Qed.

(** The path of a discard may be the whole repository. *)
Example discard_takes_everything :
  let '(r, s) := @discard_in (says sample) (txt "/r") (txt ".") (fresh sample) in
  (exists rep, r = Ok rep) /\
  head (map call_args (ran s)) = Some [txt "restore"; txt "--worktree"; txt "--"; txt "."].
Proof. vm_compute. split; [by eexists | done]. Qed.

(** A staged path behind the first two thousand is not seen by the guard of a commit. *)
Example commit_misses_late_entry :
  let t := print_status (OnBranch (txt "main") None)
             (replicate 2000 (63, 63, txt "n")%N ++ [(77, 32, txt "staged")%N]) in
  (@commit_in (says t) (txt "/r") (txt "message") (fresh t)).1 =
  Err (Refused (Unavailable (txt "there is nothing staged to commit"))).
Proof. vm_compute. reflexivity. Qed.

(** An added line that starts with two plus signs is not counted. *)
Example plus_lines_uncounted :
  let t := txt "+++x" in
  match (@diff_in (says t) (txt "/r") None false (fresh t)).1 with Ok r => additions r | Err _ => 1 end = 0%nat.
Proof. vm_compute. reflexivity. Qed.

Example authored_wraps : authored_ms (txt "18446744073709552") = 384%N.
Proof. vm_compute. reflexivity. Qed.
End LocalGit.
