(* ===== verification/ShellBrowser.v ===== *)
(** * The browser bridge of the Shell

    Model of [apps/desktop/src-tauri/src/browser.rs]: requests, the bridge (the
    render-side session registry, the live windows, the agent bindings and the
    sessions under human control), the operations on it, authorization of agent
    interactions against the capability broker, takeover, and the mirror of page
    loads.  What the daemon, the web view and the clock answer are arguments; the
    correlation id, which only labels an error, is left out. *)
From Stdlib Require Import NArith ZArith Ascii Lia.
From S2P Require Import Prelude Text Json SurfacePolicy Broker AgentBridge Envelope Browser DaemonState TerminalCapability HostCapabilities Dispatch DaemonClient.
From stdpp Require Import base strings list option gmap pretty.

Definition BROWSER_WINDOW_LABEL_PREFIX : string := "browser-".
Definition INITIAL_URL : text := txt "https://example.com/".
Definition MAX_SELECTOR_LEN : nat := 512.
Definition MAX_INTERACT_TEXT_LEN : nat := 4096.
Definition MAX_KEY_LEN : nat := 64.
Definition MAX_SCROLL_DELTA : Z := 100000.

Definition browser_capability : CapabilityId :=
  {| Broker.api_version := "browser.dsh-desktop.local/v1alpha1"; Broker.kind := "Browser" |}.

(** ** Errors *)

Record BrowserCommandError := { bc_code : string; bc_message : string; bc_retryable : bool }.
Definition command_error (code message : string) (retry : bool) : BrowserCommandError :=
  {| bc_code := code; bc_message := message; bc_retryable := retry |}.

Definition malformed : BrowserCommandError :=
  command_error "MALFORMED_MESSAGE" "Browser request is malformed or the mode is not human_surface." false.
Definition not_supported : BrowserCommandError :=
  command_error "NOT_SUPPORTED" "This browser snapshot mode is not supported in M4." false.
Definition session_unavailable : BrowserCommandError :=
  command_error "UNAVAILABLE" "Browser session is unknown or already closed." false.
Definition state_unavailable : BrowserCommandError :=
  command_error "UNAVAILABLE" "Browser state is unavailable." true.
Definition unauthorized (message : string) (retry : bool) : BrowserCommandError := command_error "UNAUTHORIZED" message retry.
Definition unavailable (message : string) (retry : bool) : BrowserCommandError := command_error "UNAVAILABLE" message retry.
Definition from_daemon (e : DaemonCommandError) : BrowserCommandError :=
  command_error (wire_code e) (command_error_message e) (command_error_retryable e).
Definition daemon_unavailable : BrowserCommandError := from_daemon NotConnected.
Definition unavailable_response (method : string) : BrowserCommandError :=
  command_error "UNAVAILABLE" ("The daemon returned an unexpected " +:+ method +:+ " response.") false.

Definition map_browser_error (e : BrowserError) : BrowserCommandError :=
  match e with
  | NotFound | ClosedError => session_unavailable
  | InvalidUrl _ => malformed
  | Other => state_unavailable
  end.

Definition map_url_error (e : UrlError) : BrowserCommandError := malformed.

Definition map_broker_error (e : BrokerError) : BrowserCommandError :=
  match e with
  | UnknownCapability | NotGranted | LeaseExpired | LeaseRevoked | ScopeMismatch =>
      command_error "UNAUTHORIZED" "Agent is not authorized for browser automation." false
  | GenerationMismatch => command_error "STALE_GENERATION" "Agent browser request carries a stale generation." false
  | Broker.Conflict => command_error "CONFLICT" "Browser broker state conflict." false
  | UnknownProvider => command_error "UNAVAILABLE" "Browser provider is not registered." true
  end.

(** ** Requests *)

(** [validate_session_request] *)
Definition validate_session_request (schema : N) (sid : string) : bool :=
  (schema =? 1)%N && String.prefix "brw-" sid && (4 <? String.length sid)%nat && (String.length sid <=? 64)%nat &&
  forallb id_char_ok (String.list_ascii_of_string sid).

Record BrowserCreateRequest := { bcr_schema : N; bcr_mode : string }.
Definition create_is_valid (q : BrowserCreateRequest) : bool :=
  (bcr_schema q =? 1)%N && bool_decide (bcr_mode q = "human_surface").

Record BrowserNavigateRequest := { bnr_schema : N; bnr_session : string; bnr_url : text }.
Record BrowserCloseRequest := { bcl_schema : N; bcl_session : string }.

Record BrowserSnapshotRequest := { bsr_schema : N; bsr_session : string; bsr_mode : string }.
Definition snapshot_is_valid (q : BrowserSnapshotRequest) : bool :=
  (bsr_schema q =? 1)%N && bool_decide (bsr_mode q = "text").

(** The agent facts have the shape of the terminal's. *)
Record BrowserInteractRequest := {
  bi_schema : N; bi_session : string; bi_mode : string; action : string;
  selector : option text; typed : option text; key : option text; delta_x : option Z; delta_y : option Z;
  agent : TerminalAgentIdentity
}.

Definition in_bound (v : option text) (max : nat) : bool :=
  match v with Some t => negb (bool_decide (t = [])) && (length t <=? max)%nat | None => false end.
Definition in_delta_bounds (d : option Z) : bool :=
  match d with Some z => ((- MAX_SCROLL_DELTA <=? z) && (z <=? MAX_SCROLL_DELTA))%Z | None => true end.
Definition absent {A} (o : option A) : bool := match o with Some _ => false | None => true end.

(** [BrowserInteractRequest::is_valid] *)
Definition interact_is_valid (q : BrowserInteractRequest) : bool :=
  if negb (bi_schema q =? 1)%N || negb (bool_decide (bi_mode q = "agent_automation"))
     || negb (validate_session_request (bi_schema q) (bi_session q)) || negb (identity_is_valid (agent q))
  then false
  else if bool_decide (action q = "click") then
    in_bound (selector q) MAX_SELECTOR_LEN && absent (typed q) && absent (key q) && absent (delta_x q) && absent (delta_y q)
  else if bool_decide (action q = "type") then
    in_bound (selector q) MAX_SELECTOR_LEN && in_bound (typed q) MAX_INTERACT_TEXT_LEN &&
    absent (key q) && absent (delta_x q) && absent (delta_y q)
  else if bool_decide (action q = "scroll") then
    absent (selector q) && absent (typed q) && absent (key q) && (negb (absent (delta_x q)) || negb (absent (delta_y q))) &&
    in_delta_bounds (delta_x q) && in_delta_bounds (delta_y q)
  else if bool_decide (action q = "key") then
    in_bound (key q) MAX_KEY_LEN && absent (selector q) && absent (typed q) && absent (delta_x q) && absent (delta_y q)
  else false.

Record BrowserTakeoverRequest := { bt_schema : N; bt_session : string; bt_target : string }.
Definition takeover_is_valid (q : BrowserTakeoverRequest) : bool :=
  (bt_schema q =? 1)%N && bool_decide (bt_target q = "human") && validate_session_request (bt_schema q) (bt_session q).

(** ** The bridge *)

(** The Shell's report is the daemon's with a mark for platforms without deny hooks. *)
Definition public_report (windows : bool) (s : BrowserSession) : BrowserReport * bool := (browser_public_report s, negb windows).

Record Bridge := {
  b_registry : SessionRegistry;
  b_windows : gset string;
  bindings : gmap string AgentSessionBinding;
  human_controlled : gset string
}.

Definition new_bridge : Bridge := {| b_registry := new_registry; b_windows := ∅; bindings := ∅; human_controlled := ∅ |}.

Definition set_reg (r : SessionRegistry) (b : Bridge) : Bridge :=
  {| b_registry := r; b_windows := b_windows b; bindings := bindings b; human_controlled := human_controlled b |}.
Definition set_windows (w : gset string) (b : Bridge) : Bridge :=
  {| b_registry := b_registry b; b_windows := w; bindings := bindings b; human_controlled := human_controlled b |}.
Definition set_bindings (m : gmap string AgentSessionBinding) (b : Bridge) : Bridge :=
  {| b_registry := b_registry b; b_windows := b_windows b; bindings := m; human_controlled := human_controlled b |}.
Definition set_human (h : gset string) (b : Bridge) : Bridge :=
  {| b_registry := b_registry b; b_windows := b_windows b; bindings := bindings b; human_controlled := h |}.

Abbreviation BridgeOp A := (M Bridge BrowserCommandError A).

Definition on_registry {A} (m : M SessionRegistry BrowserError A) : BridgeOp A :=
  map_err_m map_browser_error (zoom b_registry set_reg m).

(** [create_session] *)
Definition create_session (now : N) (q : BrowserCreateRequest) : BridgeOp BrowserSession :=
  throw_if (negb (create_is_valid q)) malformed;; on_registry (create now).

(** [attach_daemon_session] *)
Definition session_state_of (s : string) : option SessionState :=
  if bool_decide (s = "created") then Some Created else if bool_decide (s = "loading") then Some Loading
  else if bool_decide (s = "ready") then Some Ready else if bool_decide (s = "closed") then Some Closed
  else if bool_decide (s = "error") then Some ErrorState else None.

Definition attach_daemon_session (r : BrowserReport) : BridgeOp BrowserSession :=
  st ← lift (ok_or state_unavailable (session_state_of (br_state r)));
  map_err_m (fun _ => state_unavailable)
    (zoom b_registry set_reg
       (attach (br_session_id r) st (br_current_url r) (br_created_at r) (br_last_activity r) (br_error r))).

(** [navigate_session] *)
Definition navigate_session (now now' : N) (q : BrowserNavigateRequest) : BridgeOp BrowserReport :=
  throw_if (negb (validate_session_request (bnr_schema q) (bnr_session q))) malformed;;
  url ← map_err_m map_url_error (lift (validate (bnr_url q)));
  s ← on_registry (navigate now now' (bnr_session q) url);
  mret (browser_public_report s).

(** [mark_browser_ready], [mark_browser_load_failed] *)
Definition mark_browser_ready (now : N) (sid : string) : BridgeOp BrowserSession := on_registry (mark_ready now sid).
Definition mark_browser_load_failed (now now' : N) (sid : string) (message : text) : BridgeOp BrowserSession :=
  on_registry (mark_load_failed now now' sid message).

(** [ignore]: [let _ = ...] *)
Definition ignore {A} (m : BridgeOp A) : BridgeOp unit := fun b => (Ok tt, (m b).2).

Definition require_window (sid : string) : BridgeOp unit :=
  open ← gets (fun b => bool_decide (sid ∈ b_windows b)); throw_if (negb open) session_unavailable.

(** [navigate_browser]; [parsed] and [went] are the answers of [Url::parse] and of
    the web view. *)
Definition navigate_browser (now now' : N) (parsed went : bool) (q : BrowserNavigateRequest) : BridgeOp BrowserReport :=
  throw_if (negb (validate_session_request (bnr_schema q) (bnr_session q))) malformed;;
  require_window (bnr_session q);;
  r ← navigate_session now now' q;
  throw_if (negb parsed) malformed;;
  if went then mret r
  else ignore (mark_browser_load_failed now now' (bnr_session q) (txt "navigation failed"));;
       throw (unavailable "Browser navigation failed." true).

(** [snapshot_browser]; [answer] is what the page answered. *)
Definition decode_snapshot `{SerdeJson} (encoded : text) : text :=
  match from_str encoded with Ok (Str s) => s | _ => encoded end.

Definition snapshot_browser `{SerdeJson} (now : N) (answer : option text) (q : BrowserSnapshotRequest) :
    BridgeOp (BrowserReport * text) :=
  if negb (snapshot_is_valid q) then
    throw (if (bsr_schema q =? 1)%N && validate_session_request (bsr_schema q) (bsr_session q) then not_supported else malformed)
  else
    require_window (bsr_session q);;
    s ← on_registry (get (bsr_session q));
    t ← lift (ok_or (unavailable "Browser snapshot is unavailable." true) (decode_snapshot <$> answer));
    ignore (on_registry (set_snapshot now (bsr_session q) t));;
    mret (browser_public_report s, t).

(** [close_session] *)
Definition close_session (now now' : N) (q : BrowserCloseRequest) : BridgeOp BrowserSession :=
  throw_if (negb (validate_session_request (bcl_schema q) (bcl_session q))) malformed;;
  on_registry (close now now' (bcl_session q)).

(** [mirror_page_finished] *)
Definition mirror_page_finished (now now' : N) (sid : string) (url : text) : BridgeOp BrowserSession := fun b =>
  let commanded := match (get sid (b_registry b)).1 with
                   | Ok s => bool_decide (b_current_url s = Some url) | Err _ => false end in
  if commanded then on_registry (mark_ready now sid) b
  else match zoom b_registry set_reg (record_navigation now now' sid url) b with
       | (Ok s, b') => (Ok s, b')
       | (Err _, b') => on_registry (mark_ready now sid) b'
       end.

(** [cleanup_browser] *)
Definition cleanup_browser (now now' : N) (sid : string) : BridgeOp unit :=
  modify (fun b => set_windows (b_windows b ∖ {[sid]}) b);;
  ignore (on_registry (close now now' sid)).

(** [drain_events] *)
Definition drain_bridge_events : BridgeOp (list BrowserEvent) := on_registry drain_events.

(** The title handler of a window: the label embeds the session id. *)
Definition window_label (sid : string) : string := BROWSER_WINDOW_LABEL_PREFIX +:+ sid.
Definition on_title_changed (now now' : N) (sid : string) (t : text) : BridgeOp unit :=
  ignore (on_registry (set_title now now' sid t)).

(** [is_allowed_navigation_url] *)
Definition is_allowed_navigation_url `{UrlLib} (u : Url) : bool :=
  if (N.of_nat MAX_URL_LEN <? utf8_len (url_text u))%N then false
  else if bool_decide (url_scheme u = txt "about") then bool_decide (url_text u = txt "about:blank")
  else (bool_decide (url_scheme u = txt "http") || bool_decide (url_scheme u = txt "https")) &&
       bool_decide (url_username u = []) && absent (url_password u).

(** [on_page_load]: whether the daemon is told of the navigation. *)
Definition on_page_load (now now' : N) (finished : bool) (sid : string) (url : text) : BridgeOp bool := fun b =>
  if finished && negb (bool_decide (url = txt "about:blank")) then
    let '(r, b') := mirror_page_finished now now' sid url b in
    (Ok match r with Ok _ => true | Err _ => false end, b')
  else (Ok false, b).

(** ** Sessions of the daemon *)

Class ShellBrowserWire (Value : Type) := {
  create_to_value : BrowserCreateRequest -> Value;
  close_to_value : BrowserCloseRequest -> Value;
  list_payload : Value;
  report_from_value : Value -> option BrowserReport;
  reports_from_value : Value -> option (list BrowserReport)
}.

(** What the native calls of a new window answer. *)
Record WindowCalls := { profile_ok : bool; built : bool; hooked : result BrowserCommandError unit; went : bool }.

(** [spawn_browser_window]; the hooks exist on Windows only. *)
Definition spawn_browser_window (on_windows : bool) (now now' : N) (calls : WindowCalls) (sid : string) : BridgeOp BrowserReport :=
  let fail_with message e := ignore (mark_browser_load_failed now now' sid (txt message));; throw e in
  throw_if (negb (profile_ok calls)) (unavailable "Application data directory is unavailable." true);;
  if negb (built calls) then fail_with "window creation failed" (unavailable "Browser window creation failed." false)
  else match (if on_windows then hooked calls else Ok tt) with
       | Err e => fail_with "deny hooks failed" e
       | Ok _ =>
           modify (fun b => set_windows ({[sid]} ∪ b_windows b) b);;
           r ← navigate_session now now' {| bnr_schema := 1; bnr_session := sid; bnr_url := INITIAL_URL |};
           if went calls then mret r
           else fail_with "navigation failed" (unavailable "Browser navigation failed." true)
       end.

Section Daemon.
Context {Value : Type} {wire : ShellBrowserWire Value}.
(** [DaemonConnector::invoke] on the browser coordinate. *)
Variable invoke : string -> Value -> result DaemonCommandError Value.

(** [invoke_browser_create], [invoke_browser_close] *)
Definition invoke_browser_create (q : BrowserCreateRequest) : result BrowserCommandError BrowserReport :=
  if negb (create_is_valid q) then Err malformed
  else v ← map_err from_daemon (invoke "browser.create" (create_to_value q));
       ok_or (unavailable_response "browser.create") (report_from_value v).

Definition invoke_browser_close (q : BrowserCloseRequest) : result BrowserCommandError BrowserReport :=
  if negb (validate_session_request (bcl_schema q) (bcl_session q)) then Err malformed
  else v ← map_err from_daemon (invoke "browser.close" (close_to_value q));
       ok_or (unavailable_response "browser.close") (report_from_value v).

(** [create_browser] *)
Definition create_browser (on_windows : bool) (now now' : N) (calls : WindowCalls) (q : BrowserCreateRequest) :
    BridgeOp BrowserReport :=
  throw_if (negb (create_is_valid q)) malformed;;
  r ← lift (invoke_browser_create q);
  s ← attach_daemon_session r;
  spawn_browser_window on_windows now now' calls (b_session_id s).

(** [close_browser] *)
Definition close_browser (now now' : N) (q : BrowserCloseRequest) : BridgeOp BrowserReport :=
  throw_if (negb (validate_session_request (bcl_schema q) (bcl_session q))) malformed;;
  r ← lift (invoke_browser_close q);
  close_session now now' q;;
  modify (fun b => set_windows (b_windows b ∖ {[bcl_session q]}) b);;
  mret r.

(** [list_browsers] of [browser.rs] *)
Definition list_browsers : result BrowserCommandError (list BrowserReport) :=
  v ← map_err from_daemon (invoke "browser.list" list_payload);
  ok_or (unavailable_response "browser.list") (reports_from_value v).

(** [close_orphan_sessions], on the bridge. *)
Definition close_orphan (now now' : N) (r : BrowserReport) : BridgeOp unit := fun b =>
  if bool_decide (br_state r = "closed") || bool_decide (br_session_id r ∈ b_windows b) then (Ok tt, b)
  else ignore (on_registry (close now now' (br_session_id r))) b.
Definition close_orphan_sessions (now now' : N) (rs : list BrowserReport) : BridgeOp unit :=
  for_each (close_orphan now now') rs.

(** The command [list_browsers] of [commands.rs] *)
Definition list_browsers_command (now now' : N) : BridgeOp (list BrowserReport) :=
  rs ← lift list_browsers; close_orphan_sessions now now' rs;; mret rs.
End Daemon.

(** ** Agent interactions *)

(** [interact_script] *)
Definition interact_script `{SerdeJson} (q : BrowserInteractRequest) : result BrowserCommandError text :=
  let json (t : text) : text := to_string (Str t) in
  if bool_decide (action q = "click") then
    s ← ok_or malformed (selector q);
    Ok (txt "(()=>{const el=document.querySelector(" ++ json s ++ txt ");if(!el)return{ok:false,error:'not_found'};const o={bubbles:true,cancelable:true,view:window};el.dispatchEvent(new MouseEvent('mousedown',o));el.dispatchEvent(new MouseEvent('mouseup',o));el.dispatchEvent(new MouseEvent('click',o));return{ok:true};})()")
  else if bool_decide (action q = "type") then
    s ← ok_or malformed (selector q);
    t ← ok_or malformed (typed q);
    Ok (txt "(()=>{const el=document.querySelector(" ++ json s ++ txt ");if(!el)return{ok:false,error:'not_found'};if(!(el instanceof HTMLInputElement||el instanceof HTMLTextAreaElement))return{ok:false,error:'not_editable'};const set=Object.getOwnPropertyDescriptor(el instanceof HTMLTextAreaElement?HTMLTextAreaElement.prototype:HTMLInputElement.prototype,'value').set;set.call(el," ++ json t ++ txt ");el.dispatchEvent(new InputEvent('input',{bubbles:true,inputType:'insertText',data:" ++ json t ++ txt "}));el.dispatchEvent(new Event('change',{bubbles:true}));return{ok:true};})()")
  else if bool_decide (action q = "scroll") then
    Ok (txt "(()=>{window.scrollBy(" ++ txt (pretty (default 0%Z (delta_x q))) ++ txt "," ++
        txt (pretty (default 0%Z (delta_y q))) ++ txt ");return{ok:true};})()")
  else if bool_decide (action q = "key") then
    k ← ok_or malformed (key q);
    Ok (txt "(()=>{const el=document.activeElement||document.body;const o={bubbles:true,cancelable:true,key:" ++ json k ++
        txt ",code:" ++ json k ++ txt "};el.dispatchEvent(new KeyboardEvent('keydown',o));el.dispatchEvent(new KeyboardEvent('keyup',o));return{ok:true};})()")
  else Err malformed.

(** [decode_interact_outcome]: the [ok] of the outcome, all that is used of it. *)
Definition decode_interact_outcome `{SerdeJson} (encoded : text) : result BrowserCommandError bool :=
  let inner := decode_snapshot encoded in
  match from_str inner with
  | Ok v => Ok (default false (ok ← Json.get (txt "ok") v; as_bool ok))
  | Err _ => Err (unavailable "Browser interact result is unreadable." false)
  end.

Section Agents.
Context {Value C : Type} `{!Clock C}.

Record Shell := { bridge : Bridge; sh_broker : Broker Value C }.
Definition set_bridge (b : Bridge) (s : Shell) : Shell := {| bridge := b; sh_broker := sh_broker s |}.
Definition set_sh_broker (b : Broker Value C) (s : Shell) : Shell := {| bridge := bridge s; sh_broker := b |}.
Abbreviation ShellOp A := (M Shell BrowserCommandError A).

Definition scope_elsewhere (q : BrowserInteractRequest) : bool :=
  match as_session_id (agent_scope (agent q)) with Some s => negb (bool_decide (s = bi_session q)) | None => false end.

(** [authorize_interact] up to the broker, the section on the bridge, *)
Definition authorize_check (q : BrowserInteractRequest) : BridgeOp unit :=
  throw_if (negb (interact_is_valid q)) malformed;;
  throw_if (scope_elsewhere q) (unauthorized "Agent scope targets a different session." false);;
  on_registry (get (bi_session q));;
  taken ← gets (fun b => bool_decide (bi_session q ∈ human_controlled b));
  throw_if taken (unauthorized "Browser session is human-controlled." false).

(** the section on the broker, *)
Definition authorize_gate (q : BrowserInteractRequest) : M (Broker Value C) BrowserCommandError unit :=
  let b := agent_binding_from (agent q) in
  map_err_m map_broker_error
    (enforce_dispatch browser_capability (bind_agent_id b) (bind_generation b) (bind_scope b)).

(** and the binding. *)
Definition authorize_bind (q : BrowserInteractRequest) (b : Bridge) : Bridge :=
  set_bindings (<[bi_session q := agent_binding_from (agent q)]> (bindings b)) b.

(** [authorize_interact], when nothing runs in between. *)
Definition authorize_interact (q : BrowserInteractRequest) : ShellOp unit :=
  zoom bridge set_bridge (authorize_check q);;
  zoom sh_broker set_sh_broker (authorize_gate q);;
  modify (fun s => set_bridge (authorize_bind q (bridge s)) s).

(** [take_over_browser]: the section on the bridge, which answers the activations
    to revoke, *)
Definition takeover_mark (q : BrowserTakeoverRequest) : BridgeOp (BrowserReport * list string) :=
  throw_if (negb (takeover_is_valid q)) malformed;;
  s ← on_registry (get (bt_session q));
  bound ← gets (fun b => match bindings b !! bt_session q with Some x => [bind_activation_id x] | None => [] end);
  modify (fun b => set_bindings (delete (bt_session q) (bindings b)) (set_human ({[bt_session q]} ∪ human_controlled b) b));;
  mret (browser_public_report s, bound).

(** and the section on the broker. *)
Definition takeover_revoke (activations : list string) (b : Broker Value C) : Broker Value C :=
  foldl (fun b a => (revoke_agent_grants (E := Empty_set) a HumanTakeover b).2) b activations.

Definition take_over_browser (q : BrowserTakeoverRequest) : ShellOp BrowserReport :=
  r ← zoom bridge set_bridge (takeover_mark q);
  modify (fun s => set_sh_broker (takeover_revoke r.2 (sh_broker s)) s);;
  mret r.1.

(** ** Concurrent commands

    Each command is a sequence of the sections above; the sections of different
    commands interleave.  [ran] logs the scripts handed to a page. *)
Inductive CommandState :=
| AtGate (q : BrowserInteractRequest)
| AtBind (q : BrowserInteractRequest)
| AtWindow (q : BrowserInteractRequest)
| AtScript (q : BrowserInteractRequest)
| AtReport (q : BrowserInteractRequest)
| AtRevoke (report : BrowserReport) (activations : list string)
| Finished (r : result BrowserCommandError BrowserReport).

Record Desk := { shell : Shell; commands : gmap N CommandState; scripts : list (N * BrowserInteractRequest) }.

Definition put_command (k : N) (c : CommandState) (s : Desk) : Desk :=
  {| shell := shell s; commands := <[k := c]> (commands s); scripts := scripts s |}.
Definition set_shell (x : Shell) (s : Desk) : Desk := {| shell := x; commands := commands s; scripts := scripts s |}.

(** [interact_browser] *)
Definition start_interact (k : N) (q : BrowserInteractRequest) (s : Desk) : Desk :=
  match (authorize_check q (bridge (shell s))).1 with
  | Ok _ => put_command k (AtGate q) s
  | Err e => put_command k (Finished (Err e)) s
  end.

Definition gate_interact (k : N) (s : Desk) : Desk :=
  match commands s !! k with
  | Some (AtGate q) =>
      let '(r, b) := authorize_gate q (sh_broker (shell s)) in
      put_command k (match r with Ok _ => AtBind q | Err e => Finished (Err e) end) (set_shell (set_sh_broker b (shell s)) s)
  | _ => s
  end.

Definition bind_interact (k : N) (s : Desk) : Desk :=
  match commands s !! k with
  | Some (AtBind q) => put_command k (AtWindow q) (set_shell (set_bridge (authorize_bind q (bridge (shell s))) (shell s)) s)
  | _ => s
  end.

Definition window_interact (k : N) (s : Desk) : Desk :=
  match commands s !! k with
  | Some (AtWindow q) =>
      if bool_decide (bi_session q ∈ b_windows (bridge (shell s))) then put_command k (AtScript q) s
      else put_command k (Finished (Err session_unavailable)) s
  | _ => s
  end.

(** [execute_interact] with the answer of the page, [None] when there is none. *)
Definition script_interact `{SerdeJson} (k : N) (answer : option text) (s : Desk) : Desk :=
  match commands s !! k with
  | Some (AtScript q) =>
      match interact_script q with
      | Err e => put_command k (Finished (Err e)) s
      | Ok _ =>
          let s := {| shell := shell s; commands := commands s; scripts := scripts s ++ [(k, q)] |} in
          let r := a ← ok_or (unavailable "Browser interact timed out." true) answer; decode_interact_outcome a in
          put_command k (match r with
                         | Ok true => AtReport q
                         | Ok false => Finished (Err (unavailable "Browser interact target was not found." false))
                         | Err e => Finished (Err e)
                         end) s
      end
  | _ => s
  end.

Definition report_interact (k : N) (s : Desk) : Desk :=
  match commands s !! k with
  | Some (AtReport q) =>
      let r := match (get (bi_session q) (b_registry (bridge (shell s)))).1 with
               | Ok x => Ok (browser_public_report x) | Err e => Err (map_browser_error e) end in
      put_command k (Finished r) s
  | _ => s
  end.

Definition start_takeover (k : N) (q : BrowserTakeoverRequest) (s : Desk) : Desk :=
  match takeover_mark q (bridge (shell s)) with
  | (Ok r, b) => put_command k (AtRevoke r.1 r.2) (set_shell (set_bridge b (shell s)) s)
  | (Err e, b) => put_command k (Finished (Err e)) (set_shell (set_bridge b (shell s)) s)
  end.

Definition revoke_takeover (k : N) (s : Desk) : Desk :=
  match commands s !! k with
  | Some (AtRevoke r l) =>
      put_command k (Finished (Ok r)) (set_shell (set_sh_broker (takeover_revoke l (sh_broker (shell s))) (shell s)) s)
  | _ => s
  end.
End Agents.

Arguments Shell : clear implicits.
Arguments Desk : clear implicits.
