(* ===== verification/ShellBrowserFacts.v ===== *)
(** * Who drives a browser session

    Authorization of an interaction decides its rules; a takeover stops every
    interaction that has not begun, whatever interleaves, and revokes the agent
    that is bound; and two schedules in which an interaction runs after it. *)
From Stdlib Require Import NArith ZArith Ascii Lia.
From S2P Require Import Prelude Text Json SurfacePolicy Broker BrokerFacts AgentBridge BrokerInvariants BrokerProps Envelope Browser DaemonState TerminalCapability HostCapabilities Dispatch DaemonClient ShellBrowser.
From stdpp Require Import base strings list option gmap pretty.

(** ** The other commands on the bridge *)

(** Everything else that touches the bridge, with what the environment answers. *)
Inductive BridgeCall :=
| LocalCreate (now : N) (q : BrowserCreateRequest)
| LocalAttach (r : BrowserReport)
| LocalSpawn (on_windows : bool) (now now' : N) (calls : WindowCalls) (sid : string)
| LocalNavigate (now now' : N) (parsed went : bool) (q : BrowserNavigateRequest)
| LocalSnapshot (json : SerdeJson) (now : N) (answer : option text) (q : BrowserSnapshotRequest)
| LocalClose (now now' : N) (q : BrowserCloseRequest)
| LocalForget (sid : string)
| LocalPageLoad (now now' : N) (finished : bool) (sid : string) (url : text)
| LocalTitle (now now' : N) (sid : string) (t : text)
| LocalCleanup (now now' : N) (sid : string)
| LocalOrphans (now now' : N) (rs : list BrowserReport)
| LocalDrain.

Definition run_bridge (c : BridgeCall) (b : Bridge) : Bridge :=
  match c with
  | LocalCreate now q => (create_session now q b).2
  | LocalAttach r => (attach_daemon_session r b).2
  | LocalSpawn w now now' calls sid => (spawn_browser_window w now now' calls sid b).2
  | LocalNavigate now now' parsed went q => (navigate_browser now now' parsed went q b).2
  | LocalSnapshot json now answer q => (snapshot_browser now answer q b).2
  | LocalClose now now' q => (close_session now now' q b).2
  | LocalForget sid => set_windows (b_windows b ∖ {[sid]}) b
  | LocalPageLoad now now' finished sid url => (on_page_load now now' finished sid url b).2
  | LocalTitle now now' sid t => (on_title_changed now now' sid t b).2
  | LocalCleanup now now' sid => (cleanup_browser now now' sid b).2
  | LocalOrphans now now' rs => (close_orphan_sessions now now' rs b).2
  | LocalDrain => (drain_bridge_events b).2
  end.

(** They leave who controls what alone. *)
Definition same_control (b b' : Bridge) : Prop :=
  bindings b' = bindings b /\ human_controlled b' = human_controlled b.
#[export] Instance same_control_preorder : PreOrder same_control.
Proof. split; [done |]. intros ??? [] []. split; congruence. Qed.

Lemma control_registry {A} (m : M SessionRegistry BrowserError A) : steps_in same_control (on_registry m).
Proof. apply steps_in_map_err, steps_in_zoom. done. Qed.

Lemma control_ignore {A} (m : M Bridge BrowserCommandError A) : steps_in same_control m -> steps_in same_control (ignore m).
Proof. intros H b. apply H. Qed.

Lemma control_windows f : steps_in same_control (modify (E := BrowserCommandError) (fun b => set_windows (f b) b)).
Proof. by apply steps_in_modify. Qed.

#[export] Hint Resolve control_registry control_ignore control_windows : dsh.

Ltac control :=
  repeat match goal with
  | |- steps_in same_control (_ ≫= _) => apply steps_in_bind; [apply _ | | intros ?]
  | |- steps_in same_control (mret _) => apply steps_in_ret, _
  | |- steps_in same_control (throw _) => apply steps_in_throw, _
  | |- steps_in same_control (throw_if _ _) => apply steps_in_throw_if, _
  | |- steps_in same_control (lift _) => apply steps_in_lift, _
  | |- steps_in same_control (gets _) => apply steps_in_gets, _
  | |- steps_in same_control (map_err_m _ _) => apply steps_in_map_err
  | |- steps_in same_control (zoom _ _ _) => apply steps_in_zoom; done
  | |- steps_in same_control (for_each _ _) => apply steps_in_for_each; [apply _ | intros ?]
  | |- steps_in same_control (on_registry _) => apply control_registry
  | |- steps_in same_control (ignore _) => apply control_ignore
  | |- steps_in same_control (modify _) => apply control_windows
  | |- steps_in same_control (match ?x with _ => _ end) => destruct x
  end.

Ltac run_control := intros ?b; match goal with |- same_control ?b (snd (?m ?b)) => revert b; change (steps_in same_control m); control end.

Lemma bridge_control c b : same_control b (run_bridge c b).
Proof.
  revert b. destruct c; unfold run_bridge.
  - unfold create_session. run_control.
  - unfold attach_daemon_session. run_control.
  - unfold spawn_browser_window, navigate_session, mark_browser_load_failed. run_control.
  - unfold navigate_browser, require_window, navigate_session, mark_browser_load_failed. run_control.
  - unfold snapshot_browser, require_window. run_control.
  - unfold close_session. run_control.
  - done.
  - intros b. unfold on_page_load, mirror_page_finished. destruct (_ && _); [| done].
    destruct (match (get sid (b_registry b)).1 with Ok _ => _ | Err _ => _ end).
    + pose proof (control_registry (mark_ready now sid) b) as H. destruct (on_registry _ b) as [[] ?]; exact H.
    + unfold zoom. destruct (record_navigation _ _ _ _ _) as [[r|e] reg]; [done |]. 
      pose proof (control_registry (mark_ready now sid) (set_reg reg b)) as H. destruct (on_registry _ _) as [[] ?]; exact H.
  - unfold on_title_changed. run_control.
  - unfold cleanup_browser. run_control.
  - unfold close_orphan_sessions. run_control.
    intros b'. unfold close_orphan. destruct (_ || _); [done |]. revert b'. run_control.
  - unfold drain_bridge_events. run_control.
Qed.

(** ** Interleaved commands *)
Section Desk.
Context {Value C : Type} `{!Clock C} `{!SerdeJson}.
Abbreviation Desk := (Desk Value C).

Inductive desk_step (s : Desk) : Desk -> Prop :=
| desk_interact k q : commands s !! k = None -> desk_step s (start_interact k q s)
| desk_gate k : desk_step s (gate_interact k s)
| desk_bind k : desk_step s (bind_interact k s)
| desk_window k : desk_step s (window_interact k s)
| desk_script k answer : desk_step s (script_interact k answer s)
| desk_report k : desk_step s (report_interact k s)
| desk_takeover k q : commands s !! k = None -> desk_step s (start_takeover k q s)
| desk_revoke k : desk_step s (revoke_takeover k s)
| desk_bridge c : desk_step s (set_shell (set_bridge (run_bridge c (bridge (shell s))) (shell s)) s)
| desk_broker op : desk_step s (set_shell (set_sh_broker (run_op op (sh_broker (shell s))) (shell s)) s).

(** An interaction that has passed the check and has not run yet. *)
Definition begun (c : option CommandState) (q : BrowserInteractRequest) : Prop :=
  c = Some (AtGate q) \/ c = Some (AtBind q) \/ c = Some (AtWindow q) \/ c = Some (AtScript q).

(** What a later state [s] keeps of a state [s0] in which the session is under
    human control. *)
Record controlled (sid : string) (s0 s : Desk) : Prop := {
  ct_human : sid ∈ human_controlled (bridge (shell s));
  ct_begun k q : bi_session q = sid -> begun (commands s !! k) q -> begun (commands s0 !! k) q;
  ct_scripts k q : bi_session q = sid -> (k, q) ∈ scripts s -> (k, q) ∈ scripts s0 \/ begun (commands s0 !! k) q
}.

(** One command moves, and the control of the session does not. *)
Lemma controlled_move sid s0 s s' k c :
  controlled sid s0 s -> sid ∈ human_controlled (bridge (shell s')) -> scripts s' = scripts s ->
  commands s' = <[k := c]> (commands s) -> (forall q, bi_session q = sid -> begun (Some c) q -> begun (commands s !! k) q) ->
  controlled sid s0 s'.
Proof.
  intros [Hh Hb Hs] Hh' Hs' Hc Hq. split; [done | | by rewrite Hs'].
  intros k' q Hsid Hbeg. rewrite Hc in Hbeg. destruct (decide (k' = k)) as [->|Hne].
  - rewrite lookup_insert_eq in Hbeg. by apply Hb, Hq.
  - rewrite lookup_insert_ne in Hbeg by done. by apply Hb.
Qed.

Lemma controlled_same sid s0 s s' :
  controlled sid s0 s -> sid ∈ human_controlled (bridge (shell s')) -> scripts s' = scripts s -> commands s' = commands s ->
  controlled sid s0 s'.
Proof. intros [Hh Hb Hs] Hh' Hs' Hc. split; [done | by rewrite Hc | by rewrite Hs']. Qed.

(** The check refuses a session under human control. *)
Lemma check_refuses q b : bi_session q ∈ human_controlled b -> exists e, (authorize_check q b).1 = Err e.
Proof.
  intros Hh. unfold authorize_check, on_registry, zoom, get. unfold_monad. destruct (negb (interact_is_valid q)); [by eexists |].
  destruct (scope_elsewhere q); [by eexists |]. destruct (sessions (b_registry b) !! bi_session q); cbn; [| by eexists].
  rewrite bool_decide_true by done. cbn. by eexists.
Qed.

Lemma mark_keeps_human q b sid :
  sid ∈ human_controlled b -> sid ∈ human_controlled (takeover_mark q b).2.
Proof.
  intros Hh. unfold takeover_mark, on_registry, zoom, get. unfold_monad. destruct (negb (takeover_is_valid q)); [done |].
  destruct (sessions (b_registry b) !! bt_session q); cbn; set_solver.
Qed.

Lemma no_begun_finished r q : ~ begun (Some (Finished r)) q.
Proof. by intros [?|[?|[?|?]]]. Qed.

Lemma controlled_step sid s0 s s' : controlled sid s0 s -> desk_step s s' -> controlled sid s0 s'.
Proof.
  intros Hc Hstep. pose proof (ct_human _ _ _ Hc) as Hh.
  destruct Hstep as [k q Hk|k|k|k|k answer|k|k q Hk|k|c|op].
  - unfold start_interact. destruct (authorize_check q _).1 as [[]|e] eqn:He.
    + apply (controlled_move sid s0 s _ k (AtGate q) Hc); try done. intros q' Hq' [[= <-]|[?|[?|?]]]; [| done..].
      destruct (check_refuses q (bridge (shell s))) as [e He']; [by rewrite Hq' | congruence].
    + apply (controlled_move sid s0 s _ k (Finished (Err e)) Hc); try done. by intros q' _ ?%no_begun_finished.
  - unfold gate_interact. destruct (commands s !! k) as [[q|q|q|q|q|r l|r]|] eqn:Hk; try done.
    destruct (authorize_gate q _) as [[[]|e] b]; [apply (controlled_move sid s0 s _ k (AtBind q) Hc) | apply (controlled_move sid s0 s _ k (Finished (Err e)) Hc)]; try done.
    + intros q' _ [?|[[= <-]|[?|?]]]; try done. rewrite Hk. by left.
    + by intros q' _ ?%no_begun_finished.
  - unfold bind_interact. destruct (commands s !! k) as [[q|q|q|q|q|r l|r]|] eqn:Hk; try done.
    apply (controlled_move sid s0 s _ k (AtWindow q) Hc); try done.
    intros q' _ [?|[?|[[= <-]|?]]]; try done. rewrite Hk. right. by left.
  - unfold window_interact. destruct (commands s !! k) as [[q|q|q|q|q|r l|r]|] eqn:Hk; try done.
    case_bool_decide; [apply (controlled_move sid s0 s _ k (AtScript q) Hc) | apply (controlled_move sid s0 s _ k (Finished (Err session_unavailable)) Hc)]; try done.
    + intros q' _ [?|[?|[?|[= <-]]]]; try done. rewrite Hk. do 2 right. by left.
    + by intros q' _ ?%no_begun_finished.
  - unfold script_interact. destruct (commands s !! k) as [[q|q|q|q|q|r l|r]|] eqn:Hk; try done.
    destruct (interact_script q) as [script|e]; [| apply (controlled_move sid s0 s _ k (Finished (Err e)) Hc); try done; by intros q' _ ?%no_begun_finished].
    match goal with |- controlled _ _ (put_command _ ?c ?s1) =>
      assert (Hc1 : controlled sid s0 s1); [| apply (controlled_move sid s0 s1 _ k c Hc1); try done] end.
    + destruct Hc as [_ Hb Hs]. split; [done | done |]. cbn [scripts]. intros k' q' Hq' [Hin|Hin%list_elem_of_singleton]%elem_of_app.
      * by apply Hs.
      * injection Hin as -> ->. right. apply Hb; [done |]. rewrite Hk. do 3 right. done.
    + intros q' _ Hb. exfalso. destruct (ok_or _ _ ≫= _) as [[]|]; by destruct Hb as [?|[?|[?|?]]].
  - unfold report_interact. destruct (commands s !! k) as [[q|q|q|q|q|r l|r]|] eqn:Hk; try done.
    eapply (controlled_move sid s0 s _ k _ Hc); try done. by intros q' _ ?%no_begun_finished.
  - unfold start_takeover. pose proof (mark_keeps_human q (bridge (shell s)) sid Hh) as Hm.
    destruct (takeover_mark q _) as [[r|e] b]; (eapply (controlled_move sid s0 s _ k _ Hc); try done; intros q' _ [?|[?|[?|?]]]; done).
  - unfold revoke_takeover. destruct (commands s !! k) as [[q|q|q|q|q|r l|r]|] eqn:Hk; try done.
    eapply (controlled_move sid s0 s _ k _ Hc); try done. by intros q' _ ?%no_begun_finished.
  - apply (controlled_same sid s0 s); try done. cbn. by destruct (bridge_control c (bridge (shell s))) as [_ ->].
  - by apply (controlled_same sid s0 s).
Qed.

Lemma rtc_controlled sid s0 s1 s : rtc desk_step s1 s -> controlled sid s0 s1 -> controlled sid s0 s.
Proof. induction 1 as [|s1 s2 s3 Hst _ IH]; [done |]. intros Hc. apply IH. by eapply controlled_step. Qed.

(** C16.  Once a session is under human control it stays so, and no interaction of
    an agent runs in its page any more except those that had already passed the
    check when control was taken: this holds for every interleaving of the
    commands of the bridge, of the sections of the interactions and takeovers, and
    of operations of the broker. *)
Theorem takeover_stops_interactions sid (s0 s : Desk) :
  sid ∈ human_controlled (bridge (shell s0)) -> rtc desk_step s0 s ->
  sid ∈ human_controlled (bridge (shell s)) /\
  forall k q, bi_session q = sid -> (k, q) ∈ scripts s -> (k, q) ∈ scripts s0 \/ begun (commands s0 !! k) q.
Proof.
  intros Hh Hrun. assert (Hc0 : controlled sid s0 s0) by (split; auto).
  assert (Hc : controlled sid s0 s) by (eapply rtc_controlled; done). split; apply Hc.
Qed.
End Desk.

(** ** Authorization *)
Section Authorize.
Context {Value C : Type} `{!Clock C}.
Implicit Types (s : Shell Value C) (q : BrowserInteractRequest).

(** When an interaction may run. *)
Record may_interact s q : Prop := {
  mi_valid : interact_is_valid q = true;
  mi_scope : scope_elsewhere q = false;
  mi_session : is_Some (sessions (b_registry (bridge s)) !! bi_session q);
  mi_control : (bi_session q ∉ human_controlled (bridge s));
  mi_gate : gate_verdict (sh_broker s) (clock_read (clock (sh_broker s))).1 browser_capability (agent_id (agent q))
              (agent_generation (agent q)) (TerminalCapability.to_broker_scope (agent_scope (agent q))) (Ok tt)
}.

Lemma check_run q b :
  authorize_check q b =
  (if negb (interact_is_valid q) then Err malformed
   else if scope_elsewhere q then Err (unauthorized "Agent scope targets a different session." false)
   else match sessions (b_registry b) !! bi_session q with
        | None => Err session_unavailable
        | Some _ => if bool_decide (bi_session q ∈ human_controlled b)
                    then Err (unauthorized "Browser session is human-controlled." false) else Ok tt
        end, b).
Proof.
  unfold authorize_check, on_registry, zoom, get. unfold_monad. destruct (negb (interact_is_valid q)); [done |].
  destruct (scope_elsewhere q); [done |]. destruct b as [r w m h]. cbn. destruct (sessions r !! bi_session q); cbn; [| done].
  by case_bool_decide.
Qed.

(** An interaction is authorized exactly when the request is well formed, its
    scope does not name another session, the session exists and is not under human
    control, and the broker's gate is open for the browser capability and the
    agent, generation and scope the request carries; then the session is bound to
    that agent and nothing else changes but the clock, and otherwise the bridge
    stays as it was. *)
Theorem authorize_interact_iff s q :
  let '(r, s') := authorize_interact q s in
  (r = Ok tt <-> may_interact s q) /\
  same_but_clock (sh_broker s) (sh_broker s') /\
  bridge s' = (if is_ok r then authorize_bind q (bridge s) else bridge s).
Proof.
  unfold authorize_interact. unfold zoom. unfold_monad. rewrite check_run.
  assert (Hset : set_bridge (bridge s) s = s) by (by destruct s). 
  destruct (interact_is_valid q) eqn:Hv; cbn [negb]; [| rewrite Hset; split_and!; [by split; [|intros []; congruence] | apply same_but_clock_refl | done]].
  destruct (scope_elsewhere q) eqn:Hsc; [rewrite Hset; split_and!; [by split; [|intros []; congruence] | apply same_but_clock_refl | done] |].
  destruct (sessions (b_registry (bridge s)) !! bi_session q) eqn:Hs;
    [| rewrite Hset; split_and!; [split; [done | intros [_ _ H _ _]; rewrite Hs in H; by destruct H] | apply same_but_clock_refl | done]].
  case_bool_decide as Hh; [rewrite Hset; split_and!; [by split; [|intros []] | apply same_but_clock_refl | done] |].
  rewrite Hset. unfold authorize_gate, map_err_m. cbn [agent_binding_from bind_agent_id bind_generation bind_scope].
  pose proof (gate_open_iff (sh_broker s) browser_capability (agent_id (agent q)) (agent_generation (agent q))
                (TerminalCapability.to_broker_scope (agent_scope (agent q)))) as Hg.
  pose proof (enforce_dispatch_frame (sh_broker s) browser_capability (agent_id (agent q)) (agent_generation (agent q))
                (TerminalCapability.to_broker_scope (agent_scope (agent q)))) as Hf.
  destruct (enforce_dispatch _ _ _ _ _) as [[[]|e] b']; cbn [fst snd map_err] in *.
  - split_and!; [| done | done]. split; [intros _; split; auto; by apply Hg | done].
  - split_and!; [| done | done]. split; [done |]. intros [_ _ _ _ H]. by apply Hg in H.
Qed.

(** A takeover revokes the activation that is bound: the gate is closed for its
    generation, for every capability and scope. *)
Lemma takeover_revokes_bound (q : BrowserTakeoverRequest) s r s' b st cap sc :
  take_over_browser q s = (Ok r, s') -> bindings (bridge s) !! bt_session q = Some b ->
  activations_of (sh_broker s) (bind_agent_id b) !! bind_activation_id b = Some st ->
  is_ok (enforce_dispatch cap (bind_agent_id b) (act_generation st) sc (sh_broker s')).1 = false /\
  bt_session q ∈ human_controlled (bridge s') /\ bindings (bridge s') !! bt_session q = None.
Proof.
  intros Ht Hb Ha. unfold take_over_browser, takeover_mark, on_registry, zoom, get in Ht. unfold_monad.
  destruct (negb (takeover_is_valid q)); [done |].
  destruct (sessions (b_registry (bridge s)) !! bt_session q); cbn in Ht; [| done].
  rewrite Hb in Ht. cbn in Ht. injection Ht as _ <-. cbn. split_and!; [| set_solver | apply lookup_delete_eq].
  pose proof (revoked_gate_closed (sh_broker s) _ _ st HumanTakeover cap sc
                (clock (revoke_agent_grants (E := Empty_set) (bind_activation_id b) HumanTakeover (sh_broker s)).2) Ha) as H.
  cbv zeta in H. by destruct (revoke_agent_grants _ _ _).2.
Qed.
End Authorize.

Module LocalDesk.
(** An agent with a workspace-wide lease of the browser. *)
Definition agent_facts (activation : string) : TerminalAgentIdentity :=
  {| agent_id := "agent-1"; agent_activation_id := activation; agent_generation := 1;
     agent_scope := {| as_session_id := None; as_workspace := Some "work"; as_domains := []; as_resources := [] |} |}.

Definition negotiated : AgentNegotiationResult :=
  {| neg_activation_id := "act-0001"; neg_agreed := true; neg_granted := [browser_capability]; neg_conformance := Known;
     neg_lease_constraints := Some {| AgentBridge.max_seconds := 60; AgentBridge.approval_required := None |};
     neg_scope := {| Broker.session_id := None; workspace := Some "work"; domains := []; resources := [] |} |}.

Definition broker : Broker unit N := (broker_grant_from_negotiation "agent-1" negotiated (with_clock 1000%N)).2.

Definition press (activation sid : string) : BrowserInteractRequest :=
  {| bi_schema := 1; bi_session := sid; bi_mode := "agent_automation"; action := "key"; selector := None; typed := None;
     key := Some (txt "Enter"); delta_x := None; delta_y := None; agent := agent_facts activation |}.
Definition take (sid : string) : BrowserTakeoverRequest := {| bt_schema := 1; bt_session := sid; bt_target := "human" |}.

(** Two sessions with their windows. *)
Definition calls : WindowCalls := {| profile_ok := true; built := true; hooked := Ok tt; went := true |}.
Definition two_sessions : Bridge :=
  let create := LocalCreate 5 {| bcr_schema := 1; bcr_mode := "human_surface" |} in
  foldl (fun b c => run_bridge c b) new_bridge
    [create; create; LocalSpawn true 6 6 calls "brw-5-1"; LocalSpawn true 6 6 calls "brw-5-2"].
Definition first : Shell unit N := {| bridge := two_sessions; sh_broker := broker |}.
Definition desk : Desk unit N := {| shell := first; commands := ∅; scripts := [] |}.

#[local] Instance answers : SerdeJson :=
  {| from_str := fun _ => Ok (obj [("ok", Bool true)]); to_string := fun _ => []; to_vec := fun _ => None |}.

Definition taken : Desk unit N := revoke_takeover 1 (start_takeover 1 (take "brw-5-1") desk).
Definition later : Desk unit N :=
  start_interact 3 (press "act-0001" "brw-5-2") (start_interact 2 (press "act-0001" "brw-5-1") taken).

Lemma takeover_stops_interactions_witness :
  "brw-5-1" ∈ human_controlled (bridge (shell later)) /\
  ~ ((2%N, press "act-0001" "brw-5-1") ∈ scripts later).
Proof.
  destruct (takeover_stops_interactions (Value := unit) (C := N) "brw-5-1" taken later) as [H1 H2].
  - apply (bool_decide_unpack _). vm_compute. exact I.
  - eapply rtc_l; [| eapply rtc_l; [| apply rtc_refl]].
    + apply (desk_interact taken 2 (press "act-0001" "brw-5-1")). vm_compute. reflexivity.
    + apply (desk_interact _ 3 (press "act-0001" "brw-5-2")). vm_compute. reflexivity.
  - split; [exact H1 |]. intros Hin. destruct (H2 2%N (press "act-0001" "brw-5-1") eq_refl Hin) as [H|[H|[H|[H|H]]]]; vm_compute in H; inversion H.
Defined.

(** The whole run of an interaction. *)
Definition drive (k : N) (s : Desk unit N) : Desk unit N :=
  script_interact k (Some []) (window_interact k (bind_interact k (gate_interact k s))).

(** An interaction that passed the check runs after the takeover is complete, and
    since it was not bound yet the takeover revoked nothing. *)
Example interaction_overtakes_takeover :
  let s := drive 2 (revoke_takeover 1 (start_takeover 1 (take "brw-5-1") (start_interact 2 (press "act-0001" "brw-5-1") desk))) in
  scripts s = [(2%N, press "act-0001" "brw-5-1")] /\
  bool_decide ("brw-5-1" ∈ human_controlled (bridge (shell s))) = true /\
  (authorize_interact (press "act-0001" "brw-5-2") (shell s)).1 = Ok tt.
Proof. vm_compute. done. Qed.

(** The gate does not look at the activation a request names, and a takeover
    revokes what was named: an agent that names another activation keeps its
    leases. *)
Example forged_activation_survives :
  let s := (authorize_interact (press "act-9999" "brw-5-1") first).2 in
  let s := (take_over_browser (take "brw-5-1") s).2 in
  (authorize_interact (press "act-0001" "brw-5-2") s).1 = Ok tt.
Proof. vm_compute. reflexivity. Qed.

(** With its own activation the agent is shut out of the other session too. *)
Example named_activation_revoked :
  let s := (authorize_interact (press "act-0001" "brw-5-1") first).2 in
  let s := (take_over_browser (take "brw-5-1") s).2 in
  (authorize_interact (press "act-0001" "brw-5-2") s).1 <> Ok tt.
Proof. vm_compute. done. Qed.

(** Listing while a session is being created closes it: the daemon knows the
    session and its window is not there yet.  The list still shows it open. *)
Example listing_closes_new_session :
  let newborn := browser_public_report (report {| id := "brw-5-9"; state := Created; current_url := None; created_at := 5;
                   last_activity := None; error := None; snapshot := None; title := None |}) in
  let b := (attach_daemon_session newborn new_bridge).2 in
  let b := run_bridge (LocalOrphans 6 6 [newborn]) b in
  ((fun s => state_as_str (Browser.state s)) <$> sessions (b_registry b) !! "brw-5-9") = Some "closed" /\
  (spawn_browser_window true 7 7 calls "brw-5-9" b).1 = Err session_unavailable.
Proof. vm_compute. done. Qed.
End LocalDesk.
