(* ===== verification/CommandErrors.v ===== *)
(** * The errors of the Shell's commands

    Model of [CommandError] of [apps/desktop/src-tauri/src/commands.rs] and of the
    proxy [managed_runtime.rs]: how the errors of the parts, and of the daemon
    behind them, become the code, message and retry mark the front end sees.  The
    correlation id is left out. *)
From Stdlib Require Import NArith ZArith Ascii Lia.
From S2P Require Import Prelude Text Json Broker Envelope Environment Trail Notification UsageLedger CatalogStore SurfacePolicy Surface FileManager GitPanel DaemonState HostCapabilities DaemonClient ShellEnvironment.
From stdpp Require Import base strings list option gmap pretty.

(** The characters of a Rust string. *)
Definition chars (s : string) : text := from_utf8_lossy (String.list_byte_of_string s).

Record CommandError := { ce_code : string; ce_message : text; ce_retryable : bool; ce_issues : list ValidationIssue }.

Definition command_error (code message : string) (retry : bool) : CommandError :=
  {| ce_code := code; ce_message := chars message; ce_retryable := retry; ce_issues := [] |}.

(** [truncate_error] *)
Definition truncate_error (t : text) (max : nat) : text :=
  if (length t <=? max)%nat then t else take max t ++ [8230%N].

(** [unavailable], [invalid_environment] *)
Definition command_unavailable (message : string) (retry : bool) : CommandError := command_error "UNAVAILABLE" message retry.
Definition invalid_environment (issues : list ValidationIssue) : CommandError :=
  {| ce_code := "MALFORMED_MESSAGE"; ce_message := chars "Environment validation failed."; ce_retryable := false;
     ce_issues := issues |}.

Definition malformed_setup_assist : CommandError := command_unavailable "Setup assistance request is malformed." false.
Definition malformed_fs_request : CommandError := command_error "MALFORMED_MESSAGE" "File manager request is malformed." false.
Definition malformed_managed_runtime_request : CommandError :=
  command_error "MALFORMED_MESSAGE" "Managed runtime request is invalid." false.
Definition malformed_notification_request : CommandError :=
  command_error "MALFORMED_MESSAGE" "Notification request is invalid." false.
Definition malformed_usage_request : CommandError := command_error "MALFORMED_MESSAGE" "Usage snapshot request is invalid." false.
Definition malformed_dsh_surface_lifecycle_request : CommandError :=
  command_error "MALFORMED_MESSAGE" "DSH Surface lifecycle request is invalid." false.

(** [from_git], [from_fs], [from_notification], [from_usage], [from_dsh_surface],
    [from_dsh_surface_policy], [from_store] *)
Definition from_git (e : GitError) : CommandError :=
  {| ce_code := match e with GitPanel.Malformed _ => "MALFORMED_MESSAGE" | GitPanel.Unavailable _ => "UNAVAILABLE" end;
     ce_message := truncate_error (git_error_message e) 512; ce_retryable := false; ce_issues := [] |}.

Definition from_fs (e : FsError) : CommandError :=
  {| ce_code := fs_error_code e; ce_message := truncate_error (chars (fs_error_message e)) 512;
     ce_retryable := fs_error_retryable e; ce_issues := [] |}.

Definition from_notification (e : NotificationError) : CommandError :=
  match e with
  | Notification.MalformedNotification => malformed_notification_request
  | _ => command_unavailable "Notification registry is unavailable." true
  end.

Definition from_usage (e : UsageError) : CommandError :=
  match e with
  | MalformedUsage => malformed_usage_request
  | StoreUnavailable | UsageClockUnavailable => command_unavailable "Usage ledger is unavailable." true
  end.

Definition from_dsh_surface (e : DshSurfaceError) : CommandError :=
  match e with
  | MalformedRequest => malformed_dsh_surface_lifecycle_request
  | StaleSurfaceGeneration => command_error "STALE_GENERATION" "The DSH Surface request targets a stale generation." false
  | SurfaceUnavailable | SurfaceStateUnavailable => command_unavailable "Native DSH Surface is unavailable." true
  end.

Definition from_dsh_surface_policy (e : DshSurfacePolicyError) : CommandError :=
  command_unavailable "DSH Surface policy requires a fixed loopback endpoint." false.

Definition from_store (e : StoreError) : CommandError :=
  match e with
  | CorruptCatalog => command_unavailable "Environment catalog failed integrity validation." false
  | InvalidCatalogEnvironment =>
      command_error "MALFORMED_MESSAGE" "Environment catalog contains an invalid environment." false
  | Capacity => command_error "CONFLICT" "Environment catalog capacity has been reached." false
  | CatalogStore.NotFound => command_error "NOT_FOUND" "Environment is not in the catalog." false
  | CatalogStore.Unavailable => command_unavailable "Environment catalog is unavailable." true
  end.

(** [from_managed_runtime] *)
Definition with_reason (lead : string) (reason : text) (max : nat) : CommandError :=
  {| ce_code := "UNAVAILABLE"; ce_message := chars lead ++ truncate_error reason max; ce_retryable := true; ce_issues := [] |}.

Definition from_managed_runtime (e : ManagedRuntimeError) : CommandError :=
  match e with
  | NotManaged => command_error "NOT_PROCESS_OWNER" "Managed lifecycle requires a Managed environment." false
  | InvalidEnvironment => invalid_environment []
  | UnsupportedSource =>
      command_unavailable "Managed start source is missing or is not a deepseek-harness checkout (entry or TS loader not found)." false
  | NodeOverrideUnsupported =>
      command_unavailable "Managed start needs an absolute existing Node executable (set nodePath or add node to PATH)." false
  | Environment.Conflict =>
      command_error "CONFLICT" "Another Managed environment or lifecycle transition is active." true
  | Environment.StaleGeneration =>
      command_error "STALE_GENERATION" "The Managed lifecycle request targets a stale generation." false
  | CandidateInvalid | CandidatePortMismatch =>
      command_unavailable "Managed endpoint candidate failed publication policy." false
  | ProcessExited => command_unavailable "Managed process exited before readiness." true
  | ReadinessTimeout => command_unavailable "Managed readiness timed out." true
  | EndpointStillReachable =>
      command_unavailable "Managed process stopped, but the previous endpoint remains reachable." true
  | SurfaceBindingUnavailable =>
      command_unavailable "Managed endpoint is not a verified current-generation Surface binding." true
  | Environment.SpawnFailed reason => with_reason "Managed process could not be started: " reason 400
  | ProcessTreeFailed reason => with_reason "Managed process tree could not be attached: " reason 400
  | RuntimeUnavailable reason => with_reason "" reason 400
  | StopFailed | StateUnavailable | ClockUnavailable => command_unavailable "Managed runtime is unavailable." true
  end.

(** ** [managed_runtime.rs] *)

(** [map_daemon_error] *)
Definition map_daemon_error (e : DaemonCommandError) : ManagedRuntimeError :=
  match e with
  | Remote code message _ =>
      match code with
      | Envelope.Conflict => Environment.Conflict
      | Envelope.StaleGeneration => Environment.StaleGeneration
      | MalformedMessage => InvalidEnvironment
      | NotProcessOwner => NotManaged
      | _ => RuntimeUnavailable (chars message)
      end
  | _ => StateUnavailable
  end.

Section Proxy.
Context {Value Report D : Type}.

(** The payloads, and the reports read back. *)
Class RuntimeProxyWire := {
  runtime_payload : text -> Value;                       (* schemaVersion and environmentId *)
  generation_payload : text -> N -> Value;               (* and expectedGeneration *)
  report_of_value : Value -> option Report;
  binding_of_value : Value -> option (N * N * N * text)  (* version, generation, port, URL *)
}.
Context {wire : RuntimeProxyWire}.

(** [DaemonConnector::invoke] on the runtime capability; [D] is what is behind
    the connection. *)
Variable invoke : string -> Value -> M D DaemonCommandError Value.
Abbreviation Call A := (M D ManagedRuntimeError A).

Definition forward_runtime (method : string) (payload : Value) : Call Value := map_err_m map_daemon_error (invoke method payload).

(** [invoke_report] *)
Definition invoke_report (method : string) (payload : Value) : Call Report :=
  v ← forward_runtime method payload;
  lift (ok_or StateUnavailable (report_of_value v)).

Definition managed_only {A} (e : DshEnvironment) (m : Call A) : Call A := throw_if (is_attached e) NotManaged;; m.

(** [start_managed_environment], [get_managed_runtime_status],
    [stop_managed_environment], [restart_managed_environment] *)
Definition proxy_start (e : DshEnvironment) : Call Report :=
  managed_only e (invoke_report "runtime.start" (runtime_payload (Environment.id e))).
Definition proxy_status (e : DshEnvironment) : Call Report :=
  managed_only e (invoke_report "runtime.status" (runtime_payload (Environment.id e))).
Definition proxy_stop (e : DshEnvironment) (gen : N) : Call Report :=
  managed_only e (invoke_report "runtime.stop" (generation_payload (Environment.id e) gen)).
Definition proxy_restart (e : DshEnvironment) (gen : N) : Call Report :=
  managed_only e (invoke_report "runtime.restart" (generation_payload (Environment.id e) gen)).

(** [verified_surface_binding] *)
Definition proxy_binding `{UrlLib} (e : DshEnvironment) (gen : N) : Call VerifiedSurfaceBinding :=
  managed_only e (
    throw_if (gen =? 0)%N Environment.StaleGeneration;;
    v ← forward_runtime "runtime.binding" (generation_payload (Environment.id e) gen);
    b ← lift (ok_or StateUnavailable (binding_of_value v));
    let '(version, generation, port, url) := b in
    throw_if (negb (version =? 1)%N) StateUnavailable;;
    throw_if (negb (generation =? gen)%N) Environment.StaleGeneration;;
    u ← lift (ok_or StateUnavailable (url_parse url));
    mret {| b_generation := generation; b_port := port; b_url := u |}).
End Proxy.
Arguments RuntimeProxyWire : clear implicits.
