(* ===== verification/ShellTerminal.v ===== *)
(** * The Shell's terminal commands

    Model of [apps/desktop/src-tauri/src/terminal.rs]: the checks the Shell makes
    before it forwards a terminal request, the forwarding, and the errors.  The
    request and report types have the fields of the daemon's, whose records are
    used; the checks of agent facts are the same text in both programs.  The
    correlation id is left out.  [D] is what is behind the connector. *)
From Stdlib Require Import NArith ZArith Ascii Lia.
From S2P Require Import Prelude Text Broker Envelope Terminal DaemonState TerminalCapability DaemonClient.
From stdpp Require Import base strings list option gmap pretty.

Definition SCHEMA_SHELLS : list string := ["default"; "cmd"; "powershell"; "pwsh"; "sh"; "bash"; "zsh"].
Definition MAX_CWD_CHARS : nat := 1024.

(** [is_schema_shell], [valid_geometry] *)
Definition is_schema_shell (shell : string) : bool := bool_decide (shell ∈ SCHEMA_SHELLS).
Definition valid_geometry (c w : N) : bool :=
  ((MIN_COLS <=? c) && (c <=? MAX_COLS) && ((MIN_ROWS <=? w) && (w <=? MAX_ROWS)))%N.

(** [str::chars().count()]: every byte but a continuation byte starts a
    character. *)
Definition chars_count (s : string) : nat :=
  length (filter (fun c => ((N_of_ascii c <? 128) || (192 <=? N_of_ascii c))%N = true) (String.list_ascii_of_string s)).

(** [TerminalCreateRequest::is_valid] *)
Definition shell_create_valid (r : TerminalCreateRequest) : bool :=
  (create_schema_version r =? TERMINAL_SCHEMA_VERSION)%N &&
  valid_geometry (create_cols r) (create_rows r) &&
  match create_shell r with Some shell => is_schema_shell shell | None => true end &&
  match create_cwd r with Some cwd => (chars_count cwd <=? MAX_CWD_CHARS)%nat | None => true end &&
  (if bool_decide (create_mode r = "human_surface")%string then negb (some (create_agent r))
   else if bool_decide (create_mode r = "agent_automation")%string then
     match create_agent r with Some a => identity_is_valid a | None => false end
   else false).

(** [validate_session_request] *)
Definition validate_session_request (r : TerminalCloseRequest) : bool :=
  (close_schema_version r =? TERMINAL_SCHEMA_VERSION)%N && String.prefix "pty-" (close_session_id r) &&
  (String.length (close_session_id r) <=? 64)%nat &&
  forallb (fun c => is_lower c || is_digit c || Ascii.eqb c "-") (String.list_ascii_of_string (close_session_id r)).

Definition session_request (version : N) (sid : string) : TerminalCloseRequest :=
  {| close_schema_version := version; close_session_id := sid |}.

(** The guards of [write_terminal] and [resize_terminal]. *)
Definition shell_write_valid (r : TerminalWriteRequest) : bool :=
  (write_schema_version r =? TERMINAL_SCHEMA_VERSION)%N &&
  validate_session_request (session_request (write_schema_version r) (write_session_id r)) &&
  negb (bool_decide (write_data r = "")%string) &&
  (N.of_nat (String.length (write_data r)) <=? MAX_WRITE_BYTES)%N.
Definition shell_resize_valid (r : TerminalResizeRequest) : bool :=
  (resize_schema_version r =? TERMINAL_SCHEMA_VERSION)%N &&
  validate_session_request (session_request (resize_schema_version r) (resize_session_id r)) &&
  valid_geometry (resize_cols r) (resize_rows r).

(** ** Errors *)

Record TerminalCommandError := { te_code : string; te_message : string; te_retryable : bool }.

Definition terminal_malformed : TerminalCommandError :=
  {| te_code := "MALFORMED_MESSAGE"; te_message := "Terminal request is malformed or the mode is not supported.";
     te_retryable := false |}.
Definition pty_command_error (kind message : string) (retry : bool) : TerminalCommandError :=
  {| te_code := kind; te_message := message; te_retryable := retry |}.
Definition terminal_from_daemon (e : DaemonCommandError) : TerminalCommandError :=
  {| te_code := wire_code e; te_message := command_error_message e; te_retryable := command_error_retryable e |}.
Definition from_daemon_unavailable : TerminalCommandError := terminal_from_daemon NotConnected.
Definition terminal_unavailable_response (method : string) : TerminalCommandError :=
  {| te_code := "UNAVAILABLE"; te_message := "The daemon returned an unexpected " +:+ method +:+ " response.";
     te_retryable := false |}.

(** ** Commands *)

(** [serde_json] on the Shell's side. *)
Class TerminalProxyWire (Value : Type) := {
  create_to_value : TerminalCreateRequest -> Value;
  write_to_value : TerminalWriteRequest -> Value;
  resize_to_value : TerminalResizeRequest -> Value;
  close_to_value : TerminalCloseRequest -> Value;
  status_request : Value;
  report_from_value : Value -> option TerminalReport;
  sessions_from_value : Value -> option (list TerminalReport)
}.

Section Commands.
Context {Value D : Type} `{!TerminalProxyWire Value}.
Variable invoke : TerminalCall -> Value -> M D DaemonCommandError Value.
Abbreviation Command A := (M D TerminalCommandError A).

Definition forward (m : TerminalCall) (payload : Value) : Command Value :=
  map_err_m terminal_from_daemon (invoke m payload).

(** [create_terminal], [write_terminal], [resize_terminal], [close_terminal] *)
Definition create_terminal (r : TerminalCreateRequest) : Command TerminalReport :=
  throw_if (negb (shell_create_valid r)) terminal_malformed;;
  v ← forward TCreate (create_to_value r);
  lift (ok_or (terminal_unavailable_response "terminal.create") (report_from_value v)).

Definition write_terminal (r : TerminalWriteRequest) : Command unit :=
  throw_if (negb (shell_write_valid r)) terminal_malformed;;
  forward TWrite (write_to_value r);;
  mret tt.

Definition resize_terminal (r : TerminalResizeRequest) : Command TerminalReport :=
  throw_if (negb (shell_resize_valid r)) terminal_malformed;;
  v ← forward TResize (resize_to_value r);
  lift (ok_or (terminal_unavailable_response "terminal.resize") (report_from_value v)).

Definition close_terminal (r : TerminalCloseRequest) : Command unit :=
  throw_if (negb (validate_session_request r)) terminal_malformed;;
  forward TClose (close_to_value r);;
  mret tt.

(** [status_terminal] *)
Definition status_terminal (r : TerminalCloseRequest) : Command TerminalReport :=
  throw_if (negb (validate_session_request r)) terminal_malformed;;
  v ← forward TStatus status_request;
  sessions ← lift (ok_or (terminal_unavailable_response "terminal.status") (sessions_from_value v));
  lift (ok_or (pty_command_error "UNAVAILABLE" "Terminal session is unknown or already closed." false)
          (List.find (fun s => bool_decide (tr_session_id s = close_session_id r)) sessions)).

(** [list_terminals] *)
Definition list_terminals : D -> list TerminalReport * D := fun d =>
  match invoke TStatus status_request d with
  | (Ok v, d) => (default [] (sessions_from_value v), d)
  | (Err _, d) => ([], d)
  end.
End Commands.
