(* ===== verification/Relay.v ===== *)
(** * What the Shell makes of a handler's error

    The daemon's reply to an invocation, read by the Shell's client: the outcome
    of a handler crosses the connection, and the Shell's proxies turn it into the
    error of a command.  The terminal commands against the daemon's terminal
    handlers, the runtime commands against its runtime handlers. *)
From Stdlib Require Import NArith ZArith Ascii Lia Strings.Byte.
From S2P Require Import Prelude Text Broker AgentBridge Envelope EventRouter Scheduler Environment UnixPty Terminal TerminalFacts.
From S2P Require Import Credential Bootstrap Server DaemonState TerminalCapability TerminalCapFacts HostCapabilities Dispatch DaemonServer DaemonClient.
From S2P Require Import ShellTerminal CommandErrors.
From stdpp Require Import base strings list option gmap pretty.

(** ** One reply *)

(** What reaches the caller of [invoke] for a handler's error. *)
Definition relayed_message (message : string) : string :=
  String.string_of_list_ascii (take_chars 512 (String.list_ascii_of_string message)).

Definition remote_of (e : DaemonMethodError) : DaemonCommandError :=
  match e with
  | MethodNotFound c m =>
      Remote Unavailable (relayed_message
        ("method " +:+ dq +:+ m +:+ dq +:+ " is not implemented for " +:+ Envelope.api_version c +:+ "/"
           +:+ coordinate_kind c)) false
  | InvalidPayload _ _ message => Remote MalformedMessage (relayed_message message) false
  | MethodConflict _ _ message => Remote Envelope.Conflict (relayed_message message) false
  | MethodFailed c message retry => Remote c (relayed_message message) retry
  end.

Section Reply.
Context {Value C P OS RT : Type} `{clock_c : !Clock C} `{cw : !ClientWire Value}.

Lemma refused env cap m c message retry w :
  exists reply w', refuse (Value := Value) (C := C) (P := P) (OS := OS) (RT := RT) env cap m c message retry w = (Ok [reply], w') /\
    outcome_of (ReplyResult reply) = Err (Remote c (relayed_message message) retry).
Proof.
  unfold refuse, error_result, new_message_id, new_token, now_timestamp, stamp, fetch_counter, next_reply_generation.
  cbv [mbind M_bind mret M_ret]. repeat destruct (clock_read _). eexists _, _. split; reflexivity.
Qed.

(** A value, or the error, of a handler is what [invoke] returns. *)
Lemma relayed env aid cap m r w :
  exists reply w', reply_of (Value := Value) (C := C) (P := P) (OS := OS) (RT := RT) env aid cap m r w = (Ok [reply], w') /\
    outcome_of (ReplyResult reply) = map_err remote_of r.
Proof.
  destruct r as [v | [c m' | c m' message | c m' message | c message retry]]; cbn [reply_of]; try apply refused.
  unfold new_message_id, new_token, now_timestamp, stamp, fetch_counter, next_reply_generation.
  cbv [mbind M_bind mret M_ret]. repeat destruct (clock_read _). eexists _, _. split; reflexivity.
Qed.
End Reply.

(** ** The terminal commands *)

Abbreviation anything := (fun _ => True).

Lemma yields_zoom {S T E A} (P : A -> Prop) (Q : E -> Prop) (get : S -> T) (set : T -> S -> S) m :
  yields anything P Q m -> yields anything P Q (zoom get set m).
Proof. intros Hm s _. destruct (Hm (get s) I) as [_ H]. unfold zoom. by destruct (m (get s)). Qed.

(** Not reported as malformed. *)
Definition clean (e : DaemonMethodError) : Prop := wire_code (remote_of e) <> "MALFORMED_MESSAGE"%string.

Lemma broker_error_clean e : clean (map_broker_error e).
Proof. by destruct e. Qed.

(** What the front end sees of a request. *)
Definition answered_malformed {D A} (m : M D TerminalCommandError A) (d : D) : Prop :=
  exists e d', m d = (Err e, d') /\ te_code e = "MALFORMED_MESSAGE"%string.

Section TerminalRelay.
Context {Value C P OS RT : Type} `{!Clock C} `{!PtyPlatform P OS} `{!Clock OS} `{!TerminalWire Value} `{!TerminalProxyWire Value}.
Abbreviation Daemon := (Daemon Value C P OS RT).
Implicit Types d : Daemon.

(** [invoke], served by the handlers of one connection. *)
Definition served (conn : N) (m : TerminalCall) (payload : Value) : M Daemon DaemonCommandError Value :=
  map_err_m remote_of (terminal_call m conn payload).

Lemma gate_binding_clean b : yields (S := Daemon) anything anything clean (gate_binding b).
Proof.
  destruct b as [b|]; [| by apply yields_ret]. apply yields_map_err, yields_any; [done |]. apply broker_error_clean.
Qed.

Lemma authorize_clean conn sid : yields (S := Daemon) anything anything clean (authorize conn sid).
Proof.
  eapply (yields_bind _ anything); [| intros _ _; eapply (yields_bind _ anything); [by apply yields_gets |]].
  - intros d _. unfold check_owner. destruct (owners (terminal d) !! sid) as [k|]; [| done].
    by destruct (negb (k =? conn)%N).
  - intros b _. apply gate_binding_clean.
Qed.

Lemma on_terminal_clean {A} (m : M (TerminalHost P OS) PtyError A) :
  yields anything anything (fun e => clean (map_pty_error e)) m ->
  yields (S := Daemon) anything anything clean (on_terminal m).
Proof. intros Hm. by apply yields_map_err, yields_zoom. Qed.

Lemma on_platform_yields {A} (Q : PtyError -> Prop) (c : M OS PtyError A) :
  yields anything anything Q c -> yields (S := PtyRegistry P OS) anything anything Q (on_platform c).
Proof. intros Hc r _. destruct (Hc (os r) I) as [_ H]. unfold on_platform. by destruct (c (os r)). Qed.

Lemma unix_ms_yields (Q : PtyError -> Prop) : yields (S := PtyRegistry P OS) anything anything Q unix_ms.
Proof. intros r _. unfold unix_ms. by destruct (clock_read (os r)). Qed.

(** How the calls of a platform fail: a write of an acceptable size as I/O or for
    want of its handle, a resize as I/O. *)
Class PtyFailures : Prop := {
  write_fails : forall p data, (N.of_nat (String.length data) <= MAX_WRITE_BYTES)%N ->
    yields anything anything (fun e => e = Io \/ e = Terminal.StateUnavailable) (platform_write (P := P) (OS := OS) p data);
  resize_fails : forall p c w, yields anything anything (fun e => e = Io) (platform_resize (P := P) (OS := OS) p c w)
}.
Context `{failures : PtyFailures}.

Abbreviation benign := (fun e => clean (map_pty_error e)).

Lemma io_benign {A} (m : M OS PtyError A) :
  yields anything anything (fun e => e = Io \/ e = Terminal.StateUnavailable) m -> yields anything anything benign m.
Proof.
  intros Hm s Hs. destruct (Hm s Hs) as [? H]. split; [done |]. destruct (m s) as [[|] ?]; [done |]. cbn in *.
  by destruct H as [-> | ->].
Qed.

Lemma session_benign sid : yields (S := PtyRegistry P OS) anything anything benign (Terminal.session sid).
Proof. intros r _. unfold Terminal.session. by destruct (sessions r !! sid). Qed.

Lemma locked_benign a : yields (S := PtyRegistry P OS) anything anything benign (locked a).
Proof. intros r _. unfold locked. by destruct (heap r !! a). Qed.

Ltac steps := repeat (eapply (yields_bind _ anything); [| intros ? _]).
Ltac next t := eapply (yields_bind _ anything); [t | intros ? _].

Lemma write_benign sid data :
  (N.of_nat (String.length data) <=? MAX_WRITE_BYTES)%N = true ->
  yields (S := PtyRegistry P OS) anything anything benign (Terminal.write sid data).
Proof.
  intros Hl. unfold Terminal.write. rewrite N.ltb_antisym, Hl. steps;
    [by intros ? | apply session_benign | apply locked_benign | by apply yields_throw_if | | apply unix_ms_yields |].
  - apply on_platform_yields, io_benign, write_fails. by apply N.leb_le.
  - by apply yields_modify.
Qed.

Lemma resize_benign sid c w :
  valid_geometry c w = true -> yields (S := PtyRegistry P OS) anything anything benign (Terminal.resize sid c w).
Proof.
  intros Hg. unfold Terminal.resize. change (geometry_ok c w) with (valid_geometry c w). rewrite Hg. steps;
    [by intros ? | apply session_benign | apply locked_benign | by apply yields_throw_if | | apply unix_ms_yields | |].
  - apply on_platform_yields, io_benign. intros o Ho. destruct (resize_fails (platform a1) c w o Ho) as [? H].
    split; [done |]. destruct (platform_resize _ _ _ o) as [[]]; [done | by left].
  - by apply yields_modify.
  - by apply yields_ret.
Qed.

Lemma close_benign sid : yields (S := PtyRegistry P OS) anything anything benign (Terminal.close sid).
Proof.
  unfold Terminal.close. steps; [by intros r _ |]. match goal with |- yields _ _ _ (match ?o with _ => _ end) => destruct o end;
    [| by apply yields_throw]. intros r _. unfold terminate_locked, locked. cbv [mbind M_bind].
  destruct (heap r !! _); [| done]. cbn. by destruct (terminate_session _ _).
Qed.

Lemma flush_benign sid : yields (S := TerminalHost P OS) anything anything benign (flush_console sid).
Proof. intros h _. unfold flush_console. by destruct (on_registry (Terminal.report sid) h) as [[]]. Qed.

Lemma session_request_checked version sid :
  validate_session_request (session_request version sid) = ((version =? TERMINAL_SCHEMA_VERSION)%N && valid_session_id sid).
Proof. unfold validate_session_request, valid_session_id. cbn. by rewrite !andb_assoc. Qed.

(** A guard of a handler that the Shell has already checked. *)
Lemma guarded {S A} (c : bool) e (k : M S DaemonMethodError A) :
  c = false -> yields anything anything clean k -> yields anything anything clean (throw_if c e;; k).
Proof. intros -> Hk. eapply (yields_bind _ anything); [by intros ? | by intros _ _]. Qed.

Lemma parsed {S T A} method (x : result string T) (t : T) (k : T -> M S DaemonMethodError A) :
  x = Ok t -> yields anything anything clean (k t) ->
  yields anything anything clean (r ← lift (parse_request method x); k r).
Proof. intros -> Hk s Hs. exact (Hk s Hs). Qed.

Lemma handle_write_clean conn v r :
  write_from_value v = Ok r -> shell_write_valid r = true ->
  yields (S := Daemon) anything anything clean (handle_write conn v).
Proof.
  unfold shell_write_valid. rewrite session_request_checked, !andb_true_iff.
  intros Hv (((Hs & _ & Hid) & Hd) & Hl). eapply parsed; [exact Hv |].
  apply guarded; [by rewrite Hs, Hid; destruct (bool_decide _) |].
  next ltac:(apply authorize_clean). next ltac:(by apply on_terminal_clean, yields_zoom, write_benign).
  by apply yields_ret.
Qed.

Lemma handle_resize_clean conn v r :
  resize_from_value v = Ok r -> shell_resize_valid r = true ->
  yields (S := Daemon) anything anything clean (handle_resize conn v).
Proof.
  unfold shell_resize_valid. rewrite session_request_checked, !andb_true_iff.
  intros Hv ((Hs & _ & Hid) & Hg). eapply parsed; [exact Hv |].
  apply guarded; [by rewrite Hs, Hid |].
  next ltac:(apply authorize_clean). next ltac:(by apply on_terminal_clean, yields_zoom, resize_benign).
  next ltac:(by apply yields_gets). by apply yields_ret.
Qed.

Lemma handle_close_clean conn v r :
  close_from_value v = Ok r -> validate_session_request r = true ->
  yields (S := Daemon) anything anything clean (handle_close conn v).
Proof.
  intros Hv Hr. destruct r as [version sid]. change (validate_session_request (session_request version sid) = true) in Hr.
  rewrite session_request_checked, andb_true_iff in Hr. destruct Hr as [Hs Hid].
  eapply parsed; [exact Hv |]. apply guarded; [cbn; by rewrite Hs, Hid |].
  next ltac:(apply authorize_clean). next ltac:(apply on_terminal_clean, flush_benign).
  next ltac:(apply on_terminal_clean, yields_zoom, close_benign). next ltac:(by apply yields_modify).
  next ltac:(by intros d _). by apply yields_ret.
Qed.

(** A command that checks, forwards and reads the answer. *)
Lemma checked_command {A} conn (m : TerminalCall) (v : Value) (valid : bool) (k : Value -> M Daemon TerminalCommandError A) d :
  (valid = true -> yields (S := Daemon) anything anything clean (terminal_call m conn v)) ->
  (forall a, yields anything anything (fun e => te_code e <> "MALFORMED_MESSAGE"%string) (k a)) ->
  answered_malformed (throw_if (negb valid) terminal_malformed;; a ← forward (served conn) m v; k a) d <-> valid = false.
Proof.
  intros Hm Hk. destruct valid.
  - split; [| done]. intros (e & d' & He & Hcode). exfalso. revert He Hcode.
    cbv [mbind M_bind throw_if negb forward served map_err_m]. destruct (Hm eq_refl d I) as [_ Hout].
    destruct (terminal_call m conn v d) as [[a|x] d1]; cbn in *; [| by intros [= <- <-]].
    destruct (Hk a d1 I) as [_ Hread]. intros He. by rewrite He in Hread.
  - split; [done |]. intros _. by exists terminal_malformed, d.
Qed.

(** The daemon's check of a create request is weaker than the Shell's. *)
Lemma shell_create_enough r :
  shell_create_valid r = true -> create_is_valid r = true /\ valid_geometry (create_cols r) (create_rows r) = true.
Proof.
  unfold shell_create_valid, create_is_valid. rewrite !andb_true_iff.
  intros ((((Hs & Hg) & _) & _) & Hm). by rewrite Hs, Hm.
Qed.

(** Past the geometry and the shell, creating a session fails as unavailable. *)
Lemma create_benign shell c w cwd path (r : PtyRegistry P OS) :
  valid_geometry c w = true -> resolve_shell (os r) shell = Ok path ->
  match (Terminal.create shell c w cwd r).1 with Ok _ => True | Err e => benign e end.
Proof.
  intros Hg Hp. unfold Terminal.create. change (geometry_ok c w) with (valid_geometry c w). rewrite Hg.
  cbv [mbind M_bind throw_if negb gets lift]. rewrite Hp. unfold unix_ms at 1. destruct (clock_read (os r)) as [t o].
  cbv [fetch_id unix_ms]. destruct (clock_read _) as [t' o']. destruct (event_sink _); [| done].
  unfold on_platform, map_err_m. by destruct (spawn _ _ _ _ _) as [[]].
Qed.

Lemma handle_create_clean conn v r d path :
  create_from_value v = Ok r -> shell_create_valid r = true ->
  resolve_shell (os (registry (terminal d))) (create_shell r) = Ok path ->
  match (handle_create conn v d).1 with Ok _ => True | Err e => clean e end.
Proof.
  intros Hv [Hd Hg]%shell_create_enough Hp. unfold handle_create. rewrite Hv.
  cbv [mbind M_bind throw_if negb lift parse_request map_err]. rewrite Hd.
  pose proof (gate_binding_frame (agent_binding_from <$> create_agent r) d) as Hframe.
  destruct (gate_binding_clean (agent_binding_from <$> create_agent r) d I) as [_ Hgate].
  destruct (gate_binding _ d) as [[[]|e] d1]; [| done]. cbn in Hframe.
  unfold on_terminal, map_err_m, zoom, host_create, on_registry, zoom. rewrite Hframe. cbv [mbind M_bind].
  pose proof (create_benign (create_shell r) (create_cols r) (create_rows r) (create_cwd r) path
                (registry (terminal d)) Hg Hp) as Hc.
  by destruct (Terminal.create _ _ _ _ _) as [[]].
Qed.

(** [serde_json] reads on one side what it printed on the other. *)
Class TerminalCodec : Prop := {
  create_round r : create_from_value (Value := Value) (create_to_value r) = Ok r;
  write_round r : write_from_value (Value := Value) (write_to_value r) = Ok r;
  resize_round r : resize_from_value (Value := Value) (resize_to_value r) = Ok r;
  close_round r : close_from_value (Value := Value) (close_to_value r) = Ok r
}.
Context `{codec : TerminalCodec}.

Lemma reading_fails {A} method (o : option A) :
  yields (S := Daemon) anything anything (fun e => te_code e <> "MALFORMED_MESSAGE"%string)
    (lift (ok_or (terminal_unavailable_response method) o)).
Proof. apply yields_lift. by destruct o. Qed.

(** C19.  Write, resize and close requests are answered as malformed exactly when
    they fail the Shell's own check, and a create request only then or when the
    daemon's host does not provide the shell: nothing the Shell lets through is
    refused as malformed behind it.  Of the platform this needs that a write within
    the size bound fails only as I/O or for want of its handle and a resize only as
    I/O, which the Unix and the Windows platform do, and of the JSON library that
    it reads a request back as it printed it. *)
Theorem shell_checks_suffice conn d :
  (forall r, answered_malformed (write_terminal (served conn) r) d <-> shell_write_valid r = false) /\
  (forall r, answered_malformed (resize_terminal (served conn) r) d <-> shell_resize_valid r = false) /\
  (forall r, answered_malformed (close_terminal (served conn) r) d <-> validate_session_request r = false) /\
  (forall r, answered_malformed (create_terminal (served conn) r) d ->
     shell_create_valid r = false \/
     exists e, resolve_shell (os (registry (terminal d))) (create_shell r) = Err e).
Proof.
  split_and!; intros r.
  - apply checked_command; [| by intros; apply yields_ret]. apply handle_write_clean, write_round.
  - apply checked_command; [| intros; apply reading_fails]. apply handle_resize_clean, resize_round.
  - apply checked_command; [| by intros; apply yields_ret]. apply handle_close_clean, close_round.
  - intros (e & d' & He & Hcode). destruct (shell_create_valid r) eqn:Hr; [right | by left].
    destruct (resolve_shell _ _) as [path|x] eqn:Hp; [exfalso | by exists x]. revert He Hcode.
    pose proof (handle_create_clean conn (create_to_value r) r d path (create_round r) Hr Hp) as Hout.
    unfold create_terminal. cbv [mbind M_bind throw_if forward served map_err_m terminal_call]. rewrite Hr. cbn [negb].
    destruct (handle_create conn _ d) as [[v|x] d1]; cbn in *; [| by intros [= <- <-]].
    destruct (reading_fails "terminal.create" (report_from_value v) d1 I) as [_ Hread]. cbn in Hread.
    intros He. injection He as He _. by rewrite He in Hread.
Qed.
End TerminalRelay.

(** ** The runtime commands *)

(** The command error of a failed runtime call. *)
Definition seen (show : text -> string) (e : RuntimeHostError) : CommandError :=
  from_managed_runtime (map_daemon_error (remote_of (RuntimeCap.host_error show e))).

(** The errors whose retry mark does not survive the way to the front end. *)
Definition marked_otherwise (e : RuntimeHostError) : Prop :=
  match e with
  | CatalogCorrupt | EnvironmentNotFound _ => True
  | ManagedError (NotManaged | CandidateInvalid | CandidatePortMismatch) => True
  | _ => False
  end.

#[export] Instance ErrorCode_eq_dec : EqDecision ErrorCode.
Proof. solve_decision. Defined.

(** The codes the runtime capability uses. *)
Definition runtime_code (c : ErrorCode) : Prop :=
  c = Unavailable \/ c = MalformedMessage \/ c = Envelope.Conflict \/ c = Envelope.StaleGeneration.

Lemma relayed_code c m r :
  runtime_code c ->
  let e := from_managed_runtime (map_daemon_error (Remote c m r)) in
  ce_code e = error_code_display c /\
  (c = Unavailable -> ce_message e = truncate_error (chars m) 400) /\
  ce_retryable e = bool_decide (c = Envelope.Conflict \/ c = Unavailable).
Proof.
  intros [-> | [-> | [-> | ->]]]; cbn [map_daemon_error from_managed_runtime]; (split; [done | split; [by intros | done]]).
Qed.

Lemma host_error_failed show e :
  exists c m r, RuntimeCap.host_error show e = MethodFailed c m r /\ runtime_code c /\
    (bool_decide (c = Envelope.Conflict \/ c = Unavailable) <> r <-> marked_otherwise e).
Proof.
  destruct e as [| | id | e]; [| | | destruct e]; cbn [RuntimeCap.host_error RuntimeCap.managed_error]; unfold failed;
    eexists _, _, _; (split; [reflexivity |]); (split; [unfold runtime_code; tauto |]); cbn; by split.
Qed.

(** The daemon's runtime errors reach the front end under the code the
    daemon gave them; an unavailable one keeps the first 400 characters of the
    daemon's diagnosis.  The retry mark is lost: the front end is told to retry
    exactly the conflicts and unavailable calls, which differs from the daemon's
    mark on five errors that retrying does not cure. *)
Theorem runtime_errors_relayed show e :
  exists c m r, remote_of (RuntimeCap.host_error show e) = Remote c m r /\
    ce_code (seen show e) = error_code_display c /\
    (c = Unavailable -> ce_message (seen show e) = truncate_error (chars m) 400) /\
    (ce_retryable (seen show e) = true <-> c = Envelope.Conflict \/ c = Unavailable) /\
    (ce_retryable (seen show e) <> r <-> marked_otherwise e).
Proof.
  destruct (host_error_failed show e) as (c & m & r & He & Hc & Hr). unfold seen. rewrite He. cbn [remote_of].
  destruct (relayed_code c (relayed_message m) r Hc) as (Hcode & Hm & Hretry).
  exists c, (relayed_message m), r. rewrite Hretry. split_and!; [done.. | | done]. apply bool_decide_eq_true.
Qed.

(** ** Samples *)

Module LocalRelay.

Inductive Frame :=
| FCreate (r : TerminalCreateRequest) | FWrite (r : TerminalWriteRequest) | FResize (r : TerminalResizeRequest)
| FClose (r : TerminalCloseRequest) | FReport (r : TerminalReport) | FSessions (l : list TerminalReport) | FEmpty.

#[export] Instance daemon_side : TerminalWire Frame := {|
  create_from_value := fun v => if v is FCreate r then Ok r else Err "not a create"%string;
  write_from_value := fun v => if v is FWrite r then Ok r else Err "not a write"%string;
  resize_from_value := fun v => if v is FResize r then Ok r else Err "not a resize"%string;
  close_from_value := fun v => if v is FClose r then Ok r else Err "not a close"%string;
  report_to_value := FReport;
  terminal_status_to_value := fun l _ => FSessions l;
  empty_object := FEmpty
|}.

#[export] Instance shell_side : TerminalProxyWire Frame := {|
  create_to_value := FCreate; write_to_value := FWrite; resize_to_value := FResize; close_to_value := FClose;
  status_request := FEmpty;
  report_from_value := fun v => if v is FReport r then Some r else None;
  sessions_from_value := fun v => if v is FSessions l then Some l else None
|}.

#[export] Instance codec : TerminalCodec (Value := Frame).
Proof. by split. Qed.

(** A host whose session 7 is a Unix terminal, with no [cmd] and a device that
    refuses a bell, and whose other sessions are Windows consoles that have lost
    their write handle. *)
Definition kernel (data : string) : list WriteRet :=
  if bool_decide (data = "bell")%string then [WriteFailed] else [Wrote (String.length data)].
Definition write_to (p : nat) (data : string) (now : N) : result PtyError unit :=
  let bytes := String.list_byte_of_string data in
  if (p =? 7)%nat then match unix_write now bytes (kernel data) with Some (r, _) => r | None => Err Io end
  else windows_write false bytes true 0.

#[export] Instance platform : PtyPlatform nat N := {|
  resolve_shell := fun _ s => if bool_decide (s = Some "cmd"%string) then Err InvalidShell else Ok "/bin/sh"%string;
  spawn := fun _ _ _ _ o => (Ok 7%nat, o);
  platform_write := fun p data o => (write_to p data o, o);
  platform_resize := fun p _ _ o => (if (p =? 7)%nat then unix_resize else windows_resize false, o);
  terminate_io := fun p o => (p, o);
  close_read := fun p o => (p, o)
|}.

Lemma length_list_byte s : length (String.list_byte_of_string s) = String.length s.
Proof. induction s as [|c s IH]; [done |]. exact (f_equal S IH). Qed.

#[export] Instance platform_failures : PtyFailures (P := nat) (OS := N).
Proof.
  split.
  - intros p data Hl o _. split; [done |]. cbn. unfold write_to. rewrite <- length_list_byte in Hl.
    destruct (p =? 7)%nat.
    + destruct (unix_write o _ (kernel data)) as [[[u|e] t]|] eqn:E; [done | left; by eapply unix_write_fails | by left].
    + destruct (windows_write _ _ _ _) eqn:E; [done | by eapply windows_write_fails].
  - intros p c w o _. cbn. by destruct (p =? 7)%nat.
Qed.

Definition host : Daemon Frame N nat N unit :=
  {| terminal := new_terminal_host (5%N : N); browser := new_browser_host; runtime := tt;
     router := EventRouter.spawn; broker := with_clock 1000%N; scheduler := Scheduler.new_inner; wall := 1000%N |}.

Definition open_with (shell : option string) : TerminalCreateRequest :=
  {| create_schema_version := 1; create_mode := "human_surface"; create_cols := 80; create_rows := 24;
     create_shell := shell; create_cwd := None; create_agent := None |}.
Definition opened : Daemon Frame N nat N unit := (create_terminal (served 3) (open_with None) host).2.

Definition type_in (sid data : string) : TerminalWriteRequest :=
  {| write_schema_version := 1; write_session_id := sid; write_data := data |}.

(** Writing works, an unknown session and a failing device are not malformed, an
    empty write is. *)
Example writes :
  (write_terminal (served 3) (type_in "pty-5-1" "ls") opened).1 = Ok tt /\
  map_err te_code (write_terminal (served 3) (type_in "pty-9-9" "ls") opened).1 = Err "UNAVAILABLE"%string /\
  map_err te_code (write_terminal (served 3) (type_in "pty-5-1" "bell") opened).1 = Err "UNAVAILABLE"%string /\
  map_err te_code (write_terminal (served 3) (type_in "pty-5-1" "") opened).1 = Err "MALFORMED_MESSAGE"%string /\
  map_err te_code (create_terminal (served 3) (open_with (Some "cmd"%string)) host).1 = Err "MALFORMED_MESSAGE"%string.
Proof. vm_compute. split_and!; reflexivity. Qed.

Lemma shell_checks_suffice_witness :
  (answered_malformed (write_terminal (served 3) (type_in "pty-5-1" "")) opened) /\
  ~ (answered_malformed (write_terminal (served 3) (type_in "pty-9-9" "ls")) opened).
Proof.
  destruct (shell_checks_suffice (P := nat) (OS := N) 3 opened) as (Hwrite & _).
  split; [apply Hwrite; reflexivity |]. rewrite Hwrite. vm_compute. discriminate.
Defined.

(** A daemon that refuses an attached environment for good is retried. *)
Example refusal_marked_retryable (show : text -> string) :
  ce_retryable (seen show (ManagedError NotManaged)) = true /\
  command_error_retryable (remote_of (RuntimeCap.host_error show (ManagedError NotManaged))) = false.
Proof. done. Qed.

(** The diagnosis of a source that cannot be started is dropped. *)
Example source_diagnosis_dropped (show : text -> string) :
  ce_message (seen show (ManagedError UnsupportedSource)) = chars "Environment validation failed.".
Proof. reflexivity. Qed.
End LocalRelay.
