(* ===== verification/Discovery.v ===== *)
(** * Setting an environment up

    Model of [discovery.rs], [setup_assist.rs] and [attached_health.rs] of
    [apps/desktop/src-tauri/src].  [discovery.rs]: which launch candidates the
    Shell offers; the launch recipe a candidate ends in is
    [Environment.build_launch_spec]; both ask the file system through [Fs], to
    which discovery adds what it reads beyond that.  The other two: the profiles
    of a home directory, whether a port is in use, whether an attached environment
    answers; a TCP connection attempt is a function of the port. *)
From Stdlib Require Import NArith ZArith Lia.
From stdpp Require Import base strings list option pretty sorting.
From S2P Require Import Prelude Text Json Environment ShellEnvironment.

Definition MAX_EXPLICIT_PATHS : nat := 16.
Definition MAX_CANDIDATES : nat := 64.
Definition MAX_PATH_LENGTH : nat := Z.to_nat 4096.
Definition DSH_ROOT_PACKAGE_NAME : text := txt "@deepseek-ai/dsh-root".
Definition REPO_ENTRY_REL : text := txt "apps/cli/src/bin.ts".
Definition REPO_LOADER_REL : text := txt "scripts/register-tsx-esm.mjs".

Record HarnessDiscoveryRequest := {
  hd_schema_version : N; explicit_paths : list text; include_dsh_path : bool; include_path : bool
}.

Inductive DiscoverySource := FromExplicit | FromDshPath | FromPath | FromGlobal.
Inductive CandidateMode := ExecutableCandidate | RepositoryCandidate.
Inductive CandidateStatus := Available | Missing | RequiresRecipe | Unverified.

Record RepositoryInfo := {
  repo_root : text; entry : text; loader : option text; needs_install : bool; needs_build : bool
}.

Record DiscoveryEvidence := { ev_code : string; ev_severity : string }.

Record HarnessCandidate := {
  cand_id : string; cand_source : DiscoverySource; cand_mode : CandidateMode; requested_path : text;
  canonical_path : option text; cand_status : CandidateStatus; launchable : bool; cand_version : option text;
  repository : option RepositoryInfo; cand_evidence : list DiscoveryEvidence
}.

Record HarnessDiscoveryReport := {
  report_version : N; scanned_sources : list DiscoverySource; deferred_sources : list DiscoverySource;
  candidates : list HarnessCandidate
}.

Inductive DiscoveryError := MalformedDiscovery.

(** [fs::canonicalize] as a string, the value of a JSON file, the execute bits
    of a file, the extension of a path, and Unicode lower case. *)
Class DiscoveryFs := {
  canonicalize : text -> option text;
  read_json : text -> option Value;
  any_execute_bit : text -> bool;
  extension : text -> option text;
  to_lowercase : text -> text;
  DSH_PATH : option text
}.

Section Discovery.
Context `{fs : Fs} `{dfs : DiscoveryFs}.

(** [validate_request] *)
Definition discovery_request_valid (r : HarnessDiscoveryRequest) : bool :=
  (hd_schema_version r =? 1)%N && (length (explicit_paths r) <=? MAX_EXPLICIT_PATHS)%nat &&
  negb (existsb (fun p => is_blank p || (MAX_PATH_LENGTH <? length p)%nat) (explicit_paths r)).

(** [path_string], [strip_verbatim_prefix], [canonicalize_path] *)
Definition path_string (p : text) : option text := if (length p <=? MAX_PATH_LENGTH)%nat then Some p else None.
Definition strip_verbatim_prefix (t : text) : text :=
  if on_windows then default t (Text.strip_prefix [92; 92; 63; 92]%N t) else t.
Definition canonicalize_path (p : text) : option text :=
  value ← canonicalize p;
  t ← path_string value;
  Some (strip_verbatim_prefix t).

(** [char::to_ascii_lowercase] *)
Definition ascii_lower (c : N) : N := if ((65 <=? c) && (c <=? 90))%N then (c + 32)%N else c.

(** [path_candidate_names], [is_directly_executable], [evidence] *)
Definition path_candidate_names : list text :=
  if on_windows then [txt "dsh.exe"; txt "dsh.cmd"; txt "dsh.bat"; txt "dsh.com"] else [txt "dsh"].
Definition is_directly_executable (p : text) : bool :=
  if on_windows then
    match extension p with Some x => bool_decide (map ascii_lower x = txt "exe") | None => false end
  else any_execute_bit p.
Definition evidence (code severity : string) : DiscoveryEvidence := {| ev_code := code; ev_severity := severity |}.

(** [read_package_identity] *)
Definition read_package_identity (p : text) : option (text * option text) :=
  value ← read_json (join p (txt "package.json"));
  name ← (Json.get (txt "name") value ≫= as_str : option text);
  Some (name, (Json.get (txt "version") value ≫= as_str : option text)).

Inductive RepoProbeError := NotADshRepo | EntryMissing.

(** [probe_repository] *)
Definition probe_repository (p : text) (requested : text) : result RepoProbeError (RepositoryInfo * option text) :=
  let has_workspace := is_file (join p (txt "pnpm-workspace.yaml")) in
  let has_entry := is_file (join p REPO_ENTRY_REL) in
  let has_loader := is_file (join p REPO_LOADER_REL) in
  let identity := read_package_identity p in
  if negb (bool_decide (fst <$> identity = Some DSH_ROOT_PACKAGE_NAME) || (has_workspace && has_entry && has_loader))
  then Err NotADshRepo
  else if negb has_entry then Err EntryMissing
  else
    Ok ({| repo_root := default requested (canonicalize_path p); entry := REPO_ENTRY_REL;
           loader := if has_loader then Some REPO_LOADER_REL else None;
           needs_install := negb (is_dir (join p (txt "node_modules")));
           needs_build := negb (is_file (join p (txt "apps/web/dist/index.html"))) |},
        identity ≫= snd).

(** [inspect_candidate] *)
Definition inspect_candidate (source : DiscoverySource) (p : text) (requested : text) : HarnessCandidate :=
  if is_dir p then
    match probe_repository p requested with
    | Ok (info, version) =>
        {| cand_id := ""; cand_source := source; cand_mode := RepositoryCandidate; requested_path := requested;
           canonical_path := canonicalize_path p; cand_status := Available; launchable := true;
           cand_version := version; repository := Some info;
           cand_evidence := evidence "REPO_RECOGNIZED" "info" ::
             match loader info with Some _ => [] | None => [evidence "LOADER_MISSING" "warning"] end |}
    | Err e =>
        {| cand_id := ""; cand_source := source; cand_mode := RepositoryCandidate; requested_path := requested;
           canonical_path := canonicalize_path p; cand_status := RequiresRecipe; launchable := false;
           cand_version := None; repository := None;
           cand_evidence := [evidence (match e with NotADshRepo => "NOT_A_DSH_REPO" | EntryMissing => "REPO_ENTRY_MISSING" end)
                               "error"] |}
    end
  else if is_file p then
    let ok := is_directly_executable p in
    {| cand_id := ""; cand_source := source; cand_mode := ExecutableCandidate; requested_path := requested;
       canonical_path := canonicalize_path p; cand_status := if ok then Available else Unverified; launchable := ok;
       cand_version := None; repository := None;
       cand_evidence := [if ok then evidence "FILE_CANDIDATE" "info" else evidence "WRAPPER_REQUIRES_ADAPTER" "warning"] |}
  else
    {| cand_id := ""; cand_source := source; cand_mode := ExecutableCandidate; requested_path := requested;
       canonical_path := None; cand_status := Missing; launchable := false; cand_version := None; repository := None;
       cand_evidence := [evidence "PATH_MISSING" "error"] |}.

(** [deduplication_key] *)
Definition deduplication_key (c : HarnessCandidate) : text :=
  let key := default (requested_path c) (canonical_path c) in
  if on_windows then to_lowercase key else key.

(** The loop over the inputs, with the candidates so far and the keys seen. *)
Fixpoint collect_candidates (seen : list text) (found : list HarnessCandidate) (inputs : list (DiscoverySource * text)) :
    list HarnessCandidate :=
  match inputs with
  | [] => found
  | (source, p) :: inputs =>
      if (MAX_CANDIDATES <=? length found)%nat then found
      else match path_string p with
           | None => collect_candidates seen found inputs
           | Some requested =>
               let c := inspect_candidate source p requested in
               if bool_decide (deduplication_key c ∈ seen) then collect_candidates seen found inputs
               else collect_candidates (deduplication_key c :: seen) (found ++ [c]) inputs
           end
  end.

(** [format!("candidate-{:04}", ..)] *)
Definition candidate_id (n : nat) : string :=
  let digits := pretty (N.of_nat n) in
  "candidate-" +:+ String.concat "" (replicate (4 - String.length digits) "0"%string) +:+ digits.

Definition set_id (i : string) (c : HarnessCandidate) : HarnessCandidate :=
  {| cand_id := i; cand_source := cand_source c; cand_mode := cand_mode c; requested_path := requested_path c;
     canonical_path := canonical_path c; cand_status := cand_status c; launchable := launchable c;
     cand_version := cand_version c; repository := repository c; cand_evidence := cand_evidence c |}.

(** The inputs of [discover_with_sources]. *)
Definition discovery_inputs (r : HarnessDiscoveryRequest) (dsh_path : option text) (dirs : list text) :
    list (DiscoverySource * text) :=
  map (pair FromExplicit) (explicit_paths r)
  ++ (if include_dsh_path r then match dsh_path with Some p => [(FromDshPath, p)] | None => [] end else [])
  ++ (if include_path r then
        map (pair FromPath) (filter (fun p => is_file p = true)
          (flat_map (fun d => map (join d) path_candidate_names) dirs))
      else []).

(** [discover_with_sources] *)
Definition discover_with_sources (r : HarnessDiscoveryRequest) (dsh_path : option text) (dirs : list text) :
    result DiscoveryError HarnessDiscoveryReport :=
  if negb (discovery_request_valid r) then Err MalformedDiscovery
  else
    Ok {| report_version := 1;
          scanned_sources := FromExplicit :: (if include_dsh_path r then [FromDshPath] else [])
                               ++ (if include_path r then [FromPath] else []);
          deferred_sources := [FromGlobal];
          candidates := imap (fun i => set_id (candidate_id (S i)))
                          (collect_candidates [] [] (discovery_inputs r dsh_path dirs)) |}.

(** [discover_harnesses] *)
Definition discover_harnesses (r : HarnessDiscoveryRequest) : result DiscoveryError HarnessDiscoveryReport :=
  discover_with_sources r (if include_dsh_path r then DSH_PATH else None)
    (if include_path r then default [] path_dirs else []).
End Discovery.

(** ** What discovery offers

    The candidates of a discovery, and the launch recipe behind a repository it
    calls launchable. *)

Section Facts.
Context `{fs : Fs} `{dfs : DiscoveryFs}.
Abbreviation keys := (map deduplication_key).

(** A candidate made from one of the inputs. *)
Definition stems_from (inputs : list (DiscoverySource * text)) (c : HarnessCandidate) : Prop :=
  exists source p, (source, p) ∈ inputs /\ c = inspect_candidate source p p.

Lemma stems_mono x inputs c : stems_from inputs c -> stems_from (x :: inputs) c.
Proof. intros (s & p & Hin & ->). exists s, p. split; [by right | done]. Qed.

Lemma path_string_some p q : path_string p = Some q -> q = p.
Proof. unfold path_string. destruct (_ <=? _)%nat; congruence. Qed.

(** The keys seen are those of the candidates found. *)
Definition tracks (seen : list text) (found : list HarnessCandidate) : Prop :=
  (forall k, k ∈ seen <-> k ∈ keys found) /\ NoDup (keys found) /\ (length found <= MAX_CANDIDATES)%nat.

Lemma keys_app (l l' : list HarnessCandidate) : keys (l ++ l') = keys l ++ keys l'.
Proof. apply map_app. Qed.

Lemma keys_snoc (l : list HarnessCandidate) c : keys (l ++ [c]) = keys l ++ [deduplication_key c].
Proof. apply keys_app. Qed.

Lemma tracks_push seen found c :
  tracks seen found -> (deduplication_key c ∉ seen) -> (length found < MAX_CANDIDATES)%nat ->
  tracks (deduplication_key c :: seen) (found ++ [c]).
Proof.
  intros (Hs & Hnd & _) Hc Hl. split_and!.
  - intros k. rewrite keys_snoc, elem_of_cons, elem_of_app, Hs, list_elem_of_singleton. tauto.
  - rewrite keys_snoc. apply NoDup_app. split_and!; [done | | by apply NoDup_singleton].
    intros k Hk ->%list_elem_of_singleton. by apply Hc, Hs.
  - rewrite length_app. cbn. lia.
Qed.

Lemma candidates_spec inputs seen found :
  tracks seen found ->
  exists new, collect_candidates seen found inputs = found ++ new /\
    NoDup (keys (found ++ new)) /\ (length (found ++ new) <= MAX_CANDIDATES)%nat /\
    Forall (stems_from inputs) new /\
    forall source p, (source, p) ∈ take (MAX_CANDIDATES - length found) inputs -> path_string p = Some p ->
      deduplication_key (inspect_candidate source p p) ∈ keys (found ++ new).
Proof.
  revert seen found. induction inputs as [|[source p] inputs IH]; intros seen found Ht; cbn [collect_candidates].
  { exists []. rewrite app_nil_r. destruct Ht as (_ & ? & ?). split_and!; [done.. | by constructor |].
    intros ? ?. rewrite take_nil. by intros ?%elem_of_nil. }
  destruct (Nat.leb_spec MAX_CANDIDATES (length found)) as [Hfull|Hroom].
  { exists []. rewrite app_nil_r. destruct Ht as (_ & ? & ?). split_and!; [done.. | by constructor |].
    intros ? ?. replace (MAX_CANDIDATES - length found)%nat with 0%nat by lia. by intros ?%elem_of_nil. }
  replace (MAX_CANDIDATES - length found)%nat with (S (MAX_CANDIDATES - S (length found))) by lia. cbn [take].
  assert (Hmore : forall n : nat, (MAX_CANDIDATES - S (length found) <= n)%nat ->
    forall x, x ∈ take (MAX_CANDIDATES - S (length found)) inputs -> x ∈ take n inputs).
  { intros n Hn x. replace (MAX_CANDIDATES - S (length found))%nat with ((MAX_CANDIDATES - S (length found)) `min` n)%nat by lia.
    rewrite <- take_take. apply subseteq_take. }
  destruct (path_string p) as [q|] eqn:Hq.
  2:{ destruct (IH seen found Ht) as (new & -> & Hnd & Hl & Hf & Hin). exists new. split_and!; [done.. | |].
      - eapply Forall_impl; [exact Hf | intros; by apply stems_mono].
      - intros s p' [[= -> ->] | Hx]%elem_of_cons; [by rewrite Hq | apply Hin]. eapply Hmore; [lia | done]. }
  apply path_string_some in Hq as Hqp. subst q.
  set (c := inspect_candidate source p p). case_bool_decide as Hseen.
  - destruct (IH seen found Ht) as (new & -> & Hnd & Hl & Hf & Hin). exists new. split_and!; [done.. | |].
    + eapply Forall_impl; [exact Hf | intros; by apply stems_mono].
    + intros s p' [[= -> ->] | Hx]%elem_of_cons; [intros _ | apply Hin; eapply Hmore; [lia | done]].
      rewrite keys_app. apply elem_of_app. left. by apply Ht.
  - destruct (IH (deduplication_key c :: seen) (found ++ [c])) as (new & -> & Hnd & Hl & Hf & Hin).
    { by apply tracks_push. }
    exists (c :: new). rewrite <- !app_assoc in *. cbn [app] in *. split_and!; [done.. | |].
    + constructor; [exists source, p; split; [by left | done] |].
      eapply Forall_impl; [exact Hf | intros; by apply stems_mono].
    + intros s p' [[= -> ->] | Hx]%elem_of_cons.
      * intros _. rewrite keys_app. apply elem_of_app. right. by left.
      * apply Hin. rewrite length_app. cbn [length]. eapply Hmore; [lia | done].
Qed.

Lemma keys_numbered (l : list HarnessCandidate) f : keys (imap (fun i => set_id (f i)) l) = keys l.
Proof. revert f. induction l as [|c l IH]; intros f; [done |]. cbn [imap]. rewrite !map_cons. f_equal. apply IH. Qed.

Lemma valid_explicit r p :
  discovery_request_valid r = true -> p ∈ explicit_paths r ->
  (length (explicit_paths r) <= MAX_EXPLICIT_PATHS)%nat /\ path_string p = Some p.
Proof.
  unfold discovery_request_valid, path_string. rewrite !andb_true_iff, Nat.leb_le, negb_true_iff, existsb_not_elem.
  intros [[_ Hl] Hp] Hin. split; [done |]. specialize (Hp p Hin). apply orb_false_iff in Hp as [_ Hp%Nat.ltb_ge].
  apply Nat.leb_le in Hp. by rewrite Hp.
Qed.

(** Whatever the environment holds, a discovery offers at most 64
    candidates, numbered in order and pairwise different places, each an honest
    inspection of a path that was asked for or is on the search path; and no path
    the user named is left out, however many the search path adds. *)
Theorem discovery_offers r dsh_path dirs report :
  discover_with_sources r dsh_path dirs = Ok report ->
  (length (candidates report) <= MAX_CANDIDATES)%nat /\
  NoDup (keys (candidates report)) /\
  (forall i c, candidates report !! i = Some c ->
     cand_id c = candidate_id (S i) /\
     exists source p, (source, p) ∈ discovery_inputs r dsh_path dirs /\ c = set_id (candidate_id (S i)) (inspect_candidate source p p)) /\
  (forall p, p ∈ explicit_paths r -> deduplication_key (inspect_candidate FromExplicit p p) ∈ keys (candidates report)).
Proof.
  unfold discover_with_sources. destruct (discovery_request_valid r) eqn:Hr; [cbn [negb] | done].
  intros H. injection H as <-. cbn [candidates].
  assert (Ht : tracks [] []) by (split_and!; [done | constructor | cbn; lia]).
  destruct (candidates_spec (discovery_inputs r dsh_path dirs) [] [] Ht) as (new & -> & Hnd & Hl & Hf & Hin). cbn [app] in *.
  rewrite length_imap, keys_numbered. split_and!; [done.. | |].
  - intros i c. rewrite list_lookup_imap. intros (c0 & Hc & ->)%fmap_Some. split; [done |].
    rewrite Forall_forall in Hf. destruct (Hf c0) as (source & p & Hsp & ->); [by eapply list_elem_of_lookup_2 |].
    by exists source, p.
  - intros p Hp. destruct (valid_explicit r p Hr Hp) as [Hlen Hps]. apply Hin; [| done].
    unfold discovery_inputs. rewrite take_app_ge by (rewrite length_map; cbn [length]; unfold MAX_EXPLICIT_PATHS, MAX_CANDIDATES in *; lia).
    apply elem_of_app. left. apply list_elem_of_In, in_map, list_elem_of_In, Hp.
Qed.

(** What a recognized repository has. *)
Lemma launchable_directory source p requested :
  is_dir p = true -> launchable (inspect_candidate source p requested) = true ->
  is_file (join p REPO_ENTRY_REL) = true /\
  exists info, repository (inspect_candidate source p requested) = Some info /\
    loader info = (if is_file (join p REPO_LOADER_REL) then Some REPO_LOADER_REL else None).
Proof.
  intros Hd. unfold inspect_candidate. rewrite Hd. unfold probe_repository.
  destruct (negb (_ || _)); [done |]. destruct (is_file (join p REPO_ENTRY_REL)); [| done]. cbn. eauto.
Qed.

(** A repository discovery calls launchable starts once Node is found: a
    valid managed environment that points at it gets the launch recipe that runs
    the repository's entry through its loader, unless the loader is missing, in
    which case the recipe needs [tsx] among the repository's modules. *)
Theorem launchable_repository_starts source p e node :
  is_dir p = true -> launchable (inspect_candidate source p p) = true ->
  is_managed e = true -> is_valid e = true -> mode (harness e) = Repository -> path (harness e) = p ->
  (forall np, non_empty (node_path e) = Some np -> is_absolute np = true /\ is_file np = true) ->
  resolve_node (non_empty (node_path e)) = Ok node ->
  (forall x, from_file_path (join p REPO_LOADER_REL) = Some x ->
     exists info, repository (inspect_candidate source p p) = Some info /\
     match loader info with
     | Some _ => exists spec, build_launch_spec e = Ok spec /\ executable spec = node /\
                   take 3 (spec_args spec) = [txt "--import"; x; join p REPO_ENTRY_REL]
     | None => if is_file (join p (txt "node_modules/tsx/package.json"))
               then exists spec, build_launch_spec e = Ok spec /\ executable spec = node
               else build_launch_spec e = Err UnsupportedSource
     end).
Proof.
  intros Hd Hlaunch Hm Hv Hmode Hp Hnode Hres x Hx. subst p.
  destruct (launchable_directory source _ _ Hd Hlaunch) as (Hentry & info & Hinfo & Hloader). exists info. split; [done |].
  assert (Hn : match non_empty (node_path e) with Some q => negb (is_absolute q) || negb (is_file q) | None => false end = false).
  { destruct (non_empty (node_path e)) as [np|]; [| done]. destruct (Hnode np eq_refl) as [-> ->]. done. }
  unfold build_launch_spec. rewrite Hm, Hv, Hmode, Hd, Hres, Hn, !bool_decide_eq_true_2 by done.
  unfold REPO_CLI_ENTRY_REL, REPO_ENTRY_REL, REPO_LOADER_REL in *. rewrite Hentry. cbn [negb andb orb]. rewrite Hloader.
  unfold loader_arg, REPO_TS_LOADER_REL. rewrite Hx.
  destruct (is_file (join (path (harness e)) (txt "scripts/register-tsx-esm.mjs"))); cbn [ok_or].
  - eexists. split; [reflexivity | done].
  - destruct (is_file (join (path (harness e)) (txt "node_modules/tsx/package.json"))); [| done].
    eexists. split; [reflexivity | done].
Qed.
End Facts.

(** ** A checkout *)

Module LocalTree.

Definition checkout : text := txt "/src/dsh".
Definition bare : text := txt "/src/bare".
Definition files : list text :=
  [txt "/src/dsh/apps/cli/src/bin.ts"; txt "/src/dsh/scripts/register-tsx-esm.mjs"; txt "/src/bare/apps/cli/src/bin.ts";
   txt "/usr/bin/node"; txt "/usr/bin/dsh"].

#[export] Instance tree : Fs := {|
  is_absolute := fun p => starts_with (txt "/") p;
  is_file := fun p => bool_decide (p ∈ files);
  is_dir := fun p => bool_decide (p ∈ [checkout; bare]);
  Environment.join := fun d n => d ++ txt "/" ++ n;
  from_file_path := fun p => Some (txt "file://" ++ p);
  path_dirs := Some [txt "/usr/bin"];
  on_windows := false
|}.

#[export] Instance disk : DiscoveryFs := {|
  canonicalize := fun p => if bool_decide (p ∈ checkout :: bare :: files) then Some p else None;
  read_json := fun p =>
    if bool_decide (p ∈ [checkout ++ txt "/package.json"; bare ++ txt "/package.json"])
    then Some (Object [(txt "name", Str DSH_ROOT_PACKAGE_NAME); (txt "version", Str (txt "1.2.0"))]) else None;
  any_execute_bit := fun p => bool_decide (p = txt "/usr/bin/dsh");
  extension := fun _ => None;
  to_lowercase := fun t => t;
  DSH_PATH := Some checkout
|}.

Definition ask : HarnessDiscoveryRequest :=
  {| hd_schema_version := 1; explicit_paths := [checkout; txt "/nowhere"]; include_dsh_path := true; include_path := true |}.

(** The checkout is named twice and offered once. *)
Example offered :
  (fun r => map (fun c => (cand_id c, requested_path c, launchable c)) (candidates r)) <$> (match discover_harnesses ask with Ok r => Some r | Err _ => None end)
  = Some [("candidate-0001"%string, checkout, true); ("candidate-0002"%string, txt "/nowhere", false);
          ("candidate-0003"%string, txt "/usr/bin/dsh", true)].
Proof. vm_compute. reflexivity. Qed.

Lemma discovery_offers_witness :
  exists report, discover_harnesses ask = Ok report /\ (length (candidates report) <= 64)%nat.
Proof.
  eexists. split; [reflexivity |].
  refine (proj1 (discovery_offers ask (Some checkout) [txt "/usr/bin"] _ _)). reflexivity.
Defined.

Definition from_repository (p : text) : ManagedEnvironment :=
  {| schema_version := 1; id := txt "local"; label := txt "Local";
     harness := {| mode := Repository; path := p; cwd := None; args := [] |};
     dsh_home := txt "/home/u/.dsh"; profile := txt "default"; node_path := None;
     endpoint := {| host := txt "127.0.0.1"; port := Named (txt "auto") |}; ownership := Managed; policy := None |}.

Lemma launchable_repository_starts_witness :
  exists spec, build_launch_spec (from_repository checkout) = Ok spec /\ executable spec = txt "/usr/bin/node".
Proof.
  destruct (launchable_repository_starts (fs := tree) (dfs := disk) FromExplicit checkout (from_repository checkout) (txt "/usr/bin/node")
              ltac:(vm_compute; reflexivity) ltac:(vm_compute; reflexivity) ltac:(vm_compute; reflexivity)
              ltac:(vm_compute; reflexivity) eq_refl eq_refl ltac:(intros np; vm_compute; discriminate)
              ltac:(vm_compute; reflexivity) _ eq_refl) as (info & Hinfo & H).
  vm_compute in Hinfo. injection Hinfo as <-. cbn [loader] in H. destruct H as (spec & Hs & He & _). exists spec. split; [exact Hs | exact He].
Defined.

(** A checkout without the loader is offered as available and launchable; the
    recipe refuses it. *)
Example available_without_loader :
  let c := inspect_candidate FromExplicit bare bare in
  cand_status c = Available /\ launchable c = true /\
  build_launch_spec (from_repository bare) = Err UnsupportedSource.
Proof. vm_compute. split_and!; reflexivity. Qed.
End LocalTree.

(** ** [setup_assist.rs] *)

Definition SETUP_SCHEMA_VERSION : N := 1.
Definition PROFILE_DIR_NAME : text := txt "profiles".
Definition PROFILE_ROOT_FILE : text := txt "cordis.yml".
Definition MAX_PROFILES : nat := 64.
Definition MAX_HOME_LENGTH : nat := Z.to_nat 4096.

Record DiscoverProfilesRequest := { dp_schema_version : N; dp_dsh_home : text }.
Record ProfileEntry := { profile_name : text; profile_path : text; has_root_config : bool }.
Record DiscoverProfilesReport := { dpr_schema_version : N; dpr_dsh_home : text; profiles : list ProfileEntry }.
Record ProbePortRequest := { pp_schema_version : N; pp_port : N }.
Record ProbePortReport := { ppr_schema_version : N; ppr_port : N; in_use : bool }.

Inductive SetupAssistError := MalformedSetup | HomeMissing | HomeNotDirectory | SetupIo (message : text).

(** A directory entry: its path, and its last component when it is UTF-8. *)
Record DirEntry := { de_path : text; de_name : option text }.

(** [fs::read_dir] and the entries it yields, each of which may fail. *)
Class DirListing := {
  path_exists : text -> bool;
  read_dir : text -> result text (list (result text DirEntry))
}.

Definition profile_compare (a b : ProfileEntry) : comparison := text_compare (profile_name a) (profile_name b).
Definition profile_le (a b : ProfileEntry) : Prop := profile_compare a b <> Gt.
#[export] Instance profile_le_dec : RelDecision profile_le.
Proof. intros a b. unfold profile_le. destruct (profile_compare a b); solve_decision. Defined.

(** [is_valid_profile_name] *)
Definition is_valid_profile_name (name : text) : bool :=
  negb (bool_decide (name = [])) && negb (bool_decide (name = txt ".")) && negb (bool_decide (name = txt "..")) &&
  (length name <=? 128)%nat && negb (bool_decide (47%N ∈ name)) && negb (bool_decide (92%N ∈ name)).

Section Setup.
Context `{fs : Fs} `{dl : DirListing}.

(** One entry of the loop of [discover_profiles]. *)
Definition profile_of (e : DirEntry) : option ProfileEntry :=
  if negb (is_dir (de_path e)) then None
  else match de_name e with
       | Some name =>
           if is_valid_profile_name name then
             Some {| profile_name := name; profile_path := de_path e;
                     has_root_config := is_file (join (de_path e) PROFILE_ROOT_FILE) |}
           else None
       | None => None
       end.

(** The loop. *)
Fixpoint scan_profiles (found : list ProfileEntry) (es : list (result text DirEntry)) :
    result SetupAssistError (list ProfileEntry) :=
  match es with
  | [] => Ok found
  | e :: es =>
      if (MAX_PROFILES <=? length found)%nat then Ok found
      else match e with
           | Err why => Err (SetupIo why)
           | Ok e => scan_profiles (match profile_of e with Some p => found ++ [p] | None => found end) es
           end
  end.

(** [discover_profiles] *)
Definition discover_profiles (r : DiscoverProfilesRequest) : result SetupAssistError DiscoverProfilesReport :=
  if negb (dp_schema_version r =? SETUP_SCHEMA_VERSION)%N || is_blank (dp_dsh_home r)
     || (MAX_HOME_LENGTH <? length (dp_dsh_home r))%nat then Err MalformedSetup
  else
    let home := trim (dp_dsh_home r) in
    if negb (path_exists home) then Err HomeMissing
    else if negb (is_dir home) then Err HomeNotDirectory
    else
      let dir := join home PROFILE_DIR_NAME in
      found ← (if is_dir dir then
                 es ← map_err SetupIo (read_dir dir);
                 ps ← scan_profiles [] es;
                 Ok (merge_sort profile_le ps)
               else Ok []);
      Ok {| dpr_schema_version := SETUP_SCHEMA_VERSION; dpr_dsh_home := home; profiles := found |}.

(** [probe_port]; [connect] is the bounded attempt on the loopback address. *)
Definition probe_port (connect : N -> bool) (r : ProbePortRequest) : result SetupAssistError ProbePortReport :=
  if negb (pp_schema_version r =? SETUP_SCHEMA_VERSION)%N then Err MalformedSetup
  else Ok {| ppr_schema_version := SETUP_SCHEMA_VERSION; ppr_port := pp_port r; in_use := connect (pp_port r) |}.
End Setup.

(** ** [attached_health.rs] *)

Definition PROBE_TIMEOUT_MS : N := 750.

Inductive AttachedState := AttachedUp | Detached.
Inductive Reachability := Reachable | Refused | TimedOutProbe | IoErrorProbe.
Inductive AttachedHealthError := NotAttached | FixedPortRequired | HealthClockUnavailable.

Record AttachedHealthReport := {
  ah_environment_id : text; ah_ownership : string; ah_state : AttachedState; reachability : Reachability;
  ah_identity : string; process_ownership : string; lifecycle_mutation : string; ah_port : N;
  ah_timeout_ms : N; latency_ms : option N; ah_observed_at : N; ah_evidence : string
}.

(** What a connection attempt gives: the time it took, or the kind of error. *)
Inductive Connect := Connected (ms : N) | ConnectionRefused | ConnectTimedOut | ConnectFailed.

(** [probe_with_connector]; the clock's milliseconds, when it is after 1970, and
    the attempt on a loopback port are arguments. *)
Definition probe_with_connector (clock_ms : option N) (connector : N -> N -> Connect) (e : DshEnvironment) :
    result AttachedHealthError AttachedHealthReport :=
  if negb (is_attached e) then Err NotAttached
  else
    port ← ok_or FixedPortRequired (fixed_loopback_port e);
    now ← ok_or HealthClockUnavailable clock_ms;
    let '(state, reach, latency, code) :=
      match connector port PROBE_TIMEOUT_MS with
      | Connected ms => (AttachedUp, Reachable, Some (ms `min` U64_MAX)%N, "TCP_REACHABLE_IDENTITY_UNVERIFIED"%string)
      | ConnectionRefused => (Detached, Refused, None, "TCP_CONNECTION_REFUSED"%string)
      | ConnectTimedOut => (Detached, TimedOutProbe, None, "TCP_CONNECT_TIMEOUT"%string)
      | ConnectFailed => (Detached, IoErrorProbe, None, "TCP_CONNECT_IO_ERROR"%string)
      end in
    Ok {| ah_environment_id := Environment.id e; ah_ownership := "attached"; ah_state := state; reachability := reach;
          ah_identity := "unverified"; process_ownership := "external"; lifecycle_mutation := "denied"; ah_port := port;
          ah_timeout_ms := PROBE_TIMEOUT_MS; latency_ms := latency; ah_observed_at := (now `min` U64_MAX)%N; ah_evidence := code |}.

(** ** Lemmas *)

#[export] Instance profile_le_total : Total profile_le.
Proof.
  intros a b. unfold profile_le, profile_compare. rewrite (text_compare_opp (profile_name a)).
  destruct (text_compare (profile_name a) (profile_name b)); cbn; naive_solver.
Qed.

Section SetupFacts.
Context `{fs : Fs} `{dl : DirListing}.

Lemma scan_profiles_ok es found :
  scan_profiles found (map Ok es) = Ok (found ++ take (MAX_PROFILES - length found) (omap profile_of es)).
Proof.
  revert found. induction es as [|e es IH]; intros found; [cbn; by rewrite take_nil, app_nil_r |].
  rewrite map_cons. cbn [scan_profiles]. destruct (Nat.leb_spec MAX_PROFILES (length found)) as [Hf|Hf].
  { replace (MAX_PROFILES - length found)%nat with 0%nat by lia. by rewrite take_0, app_nil_r. }
  rewrite IH. cbn [omap list_omap]. destruct (profile_of e) as [p|]; [| done].
  rewrite length_app. cbn [length]. replace (MAX_PROFILES - length found)%nat with (S (MAX_PROFILES - S (length found))) by lia.
  rewrite Nat.add_1_r. cbn [take]. by rewrite <- app_assoc.
Qed.

(** The profiles of a readable home are its first 64 directories with a proper
    name, in the order of the directory, sorted by name for the report: all of
    them when there are at most 64. *)
Lemma profiles_listed r es :
  let home := trim (dp_dsh_home r) in
  dp_schema_version r = SETUP_SCHEMA_VERSION -> is_blank (dp_dsh_home r) = false ->
  (length (dp_dsh_home r) <= MAX_HOME_LENGTH)%nat -> path_exists home = true -> is_dir home = true ->
  is_dir (join home PROFILE_DIR_NAME) = true -> read_dir (join home PROFILE_DIR_NAME) = Ok (map Ok es) ->
  exists report, discover_profiles r = Ok report /\ Sorted profile_le (profiles report) /\
    profiles report ≡ₚ take MAX_PROFILES (omap profile_of es).
Proof.
  intros home Hv Hb Hl Hx Hd Hp Hr. unfold discover_profiles. fold home. rewrite Hv, Hb, Hx, Hd, Hp, Hr.
  apply Nat.ltb_ge in Hl. rewrite Hl. cbn [N.eqb negb orb map_err mbind]. cbn. rewrite scan_profiles_ok. cbn [length app].
  eexists. split; [reflexivity |]. cbn [profiles]. split; [apply Sorted_merge_sort, _ | apply merge_sort_Permutation].
Qed.

(** A health report is given exactly for an attached environment on a fixed
    loopback port, and nothing else is contacted: another connector that agrees
    on that port gives the same report. *)
Lemma probe_contacts_one_port clock c1 c2 e :
  (forall p, fixed_loopback_port e = Some p -> is_attached e = true -> c1 p PROBE_TIMEOUT_MS = c2 p PROBE_TIMEOUT_MS) ->
  probe_with_connector clock c1 e = probe_with_connector clock c2 e.
Proof.
  intros H. unfold probe_with_connector. destruct (is_attached e); [cbn [negb] | done].
  destruct (fixed_loopback_port e) as [p|]; [cbn | done]. destruct clock; [cbn | done]. by rewrite (H p eq_refl eq_refl).
Qed.

(** Reaching the endpoint proves nothing about who answers. *)
Lemma probe_never_elevates clock c e report :
  probe_with_connector clock c e = Ok report ->
  ah_identity report = "unverified"%string /\ lifecycle_mutation report = "denied"%string /\
  (ah_state report = AttachedUp <-> exists p ms, fixed_loopback_port e = Some p /\ c p PROBE_TIMEOUT_MS = Connected ms).
Proof.
  unfold probe_with_connector. destruct (is_attached e); [cbn [negb] | done].
  destruct (fixed_loopback_port e) as [p|]; [cbn | done]. destruct clock as [now|]; [cbn | done].
  destruct (c p PROBE_TIMEOUT_MS) as [ms| | |] eqn:Hc; intros [= <-]; (split_and!; [done.. |]); cbn;
    split; try done; try (intros (q & m & [= <-] & Hm); congruence). by eauto.
Qed.
End SetupFacts.
