(* ===== verification/Diagnostics.v ===== *)
(** * Diagnostics without credentials

    Model of [apps/desktop/src-tauri/src/diagnostics.rs], of [surface_diagnostics]
    of [dsh_surface.rs] and of the report [managed_runtime.rs] reads from the
    daemon, with the theorem that the parts of that report the diagnostics must
    not show do not influence them. *)
From Stdlib Require Import NArith ZArith Lia.
From stdpp Require Import base strings list option.
From S2P Require Import Prelude Text Environment ShellEnvironment CatalogStore SurfacePolicy Surface CommandErrors.

(** ** The runtime's report, as the Shell decodes it *)

Record ManagedEndpointView := { ep_scheme : text; ep_host : text; ep_port : N; ep_source : text; ep_verification : text }.
Record RecoveryReportView := {
  rv_crash_count : N; rv_window_start : N; rv_budget : N; rv_safe_stop : bool; rv_last_crash_at : option N
}.
Record EvidenceView := { ev_code : text; ev_severity : text; ev_message : text }.

Record ManagedRuntimeReport := {
  mr_schema_version : N; mr_environment_id : text; mr_ownership : text; mr_state : text; mr_generation : N;
  mr_instance_id : option text; mr_process_ownership : text; mr_lifecycle_mutation : text; mr_readiness : text;
  mr_endpoint : option ManagedEndpointView; mr_stop_disposition : text; mr_recovery : option RecoveryReportView;
  mr_observed_at : N; mr_evidence : list EvidenceView
}.

(** ** Data of [diagnostics.rs] *)

Definition ENDPOINT_HOST : text := txt "127.0.0.1".
Definition MAX_EVIDENCE : nat := 8.

Record DiagnosticsRecovery := { dr_crash_count : N; dr_budget : N; dr_safe_stop : bool }.
Record EndpointView := { view_host : text; view_port : N }.

Record RuntimeReportView := {
  view_state : text; view_generation : N; view_readiness : text; view_process_ownership : text;
  view_endpoint : option EndpointView; view_recovery : option DiagnosticsRecovery; view_evidence : list EvidenceView
}.

Record RuntimeDiagnostics := {
  rd_state : text; rd_generation : N; rd_readiness : text;
  rd_endpoint : option N;                                (* the port; the host is [ENDPOINT_HOST] *)
  rd_recovery : option DiagnosticsRecovery
}.

Record SurfaceDiagnostics := {
  sd_state : string; sd_platform : string; sd_generation : N; sd_visible : bool; sd_error : option SurfaceErrorReport
}.

Record DiagnosticsReport := {
  diag_environment_id : text; diag_observed_at : N; diag_runtime : RuntimeDiagnostics; diag_surface : SurfaceDiagnostics;
  diag_revision : N; diag_active : option text; diag_retained : bool; diag_owned : bool; diag_evidence : list EvidenceView
}.

Inductive DiagnosticsError :=
| DiagnosticsMalformed | DiagnosticsNotFound | DiagnosticsNotManaged | DiagnosticsCatalog | DiagnosticsState | DiagnosticsClock.

(** [surface_diagnostics]; [platform] is [SurfacePlatform::current()]. *)
Definition surface_diagnostics (platform : SurfacePlatform) (r : option SurfaceRecord) : SurfaceDiagnostics :=
  match r with
  | Some r => {| sd_state := lifecycle_as_str (rec_state r); sd_platform := platform_as_str platform;
                 sd_generation := rec_generation r; sd_visible := rec_visible r; sd_error := rec_error r |}
  | None => {| sd_state := lifecycle_as_str Unmounted; sd_platform := platform_as_str platform; sd_generation := 0;
               sd_visible := false; sd_error := None |}
  end.

(** ** Operations *)

(** The report read back through [RuntimeReportView]. *)
Definition view_of (r : ManagedRuntimeReport) : RuntimeReportView :=
  {| view_state := mr_state r; view_generation := mr_generation r; view_readiness := mr_readiness r;
     view_process_ownership := mr_process_ownership r;
     view_endpoint := (fun e => {| view_host := ep_host e; view_port := ep_port e |}) <$> mr_endpoint r;
     view_recovery := (fun v => {| dr_crash_count := rv_crash_count v; dr_budget := rv_budget v; dr_safe_stop := rv_safe_stop v |})
                        <$> mr_recovery r;
     view_evidence := mr_evidence r |}.

(** [runtime_section_from_view] *)
Definition runtime_section_from_view (v : RuntimeReportView) : RuntimeDiagnostics * bool :=
  let '(endpoint, redacted) :=
    match view_endpoint v with
    | Some e => if bool_decide (view_host e = ENDPOINT_HOST) then (Some (view_port e), false) else (None, true)
    | None => (None, false)
    end in
  ({| rd_state := view_state v; rd_generation := view_generation v; rd_readiness := view_readiness v;
      rd_endpoint := endpoint; rd_recovery := view_recovery v |}, redacted).

(** [evidence_item] *)
Definition evidence_item (code severity message : string) : EvidenceView :=
  {| ev_code := txt code; ev_severity := txt severity; ev_message := txt message |}.

(** [if c && evidence.len() < MAX_EVIDENCE { evidence.push(..) }] *)
Definition push_evidence (c : bool) (item : EvidenceView) (l : list EvidenceView) : list EvidenceView :=
  if c && (length l <? MAX_EVIDENCE)%nat then l ++ [item] else l.

(** The loop over the runtime's own evidence. *)
Fixpoint copy_evidence (l items : list EvidenceView) : list EvidenceView :=
  match items with
  | [] => l
  | item :: items => if (MAX_EVIDENCE <=? length l)%nat then l else copy_evidence (l ++ [item]) items
  end.

Definition evidence_of (v : RuntimeReportView) (redacted retained active : bool) (surface : SurfaceDiagnostics) :
    list EvidenceView :=
  let l := [evidence_item "DIAGNOSTICS_COLLECTED" "info"
              "Diagnostics snapshot collected from Supervisor, Surface, catalog, and process state."] in
  let l := copy_evidence l (view_evidence v) in
  let l := push_evidence redacted (evidence_item "DIAGNOSTICS_ENDPOINT_REDACTED" "warning"
             "The runtime endpoint did not satisfy loopback policy and was redacted.") l in
  let l := match sd_error surface with
           | Some e => push_evidence true (evidence_item "SURFACE_ERROR" "error" (err_message e)) l
           | None => l
           end in
  let l := push_evidence true
             (if retained then evidence_item "PROCESS_RETAINED" "info" "The Supervisor retains a Desktop-owned process tree."
              else evidence_item "PROCESS_NOT_RETAINED" "info" "No Managed process tree is retained.") l in
  push_evidence true
    (if active then evidence_item "CATALOG_ACTIVE_ENVIRONMENT" "info" "The diagnosed environment is the active catalog selection."
     else evidence_item "CATALOG_INACTIVE_ENVIRONMENT" "info" "The diagnosed environment is not the active catalog selection.") l.

(** [collect_from_catalog]; [status] is [get_managed_runtime_status] and [clock]
    [unix_ms]. *)
Definition collect_from_catalog (c : EnvironmentCatalog)
    (status : DshEnvironment -> result ManagedRuntimeError ManagedRuntimeReport) (surface : SurfaceDiagnostics)
    (clock : option N) (i : text) : result DiagnosticsError DiagnosticsReport :=
  e ← ok_or DiagnosticsNotFound (catalog_environment c i);
  if is_attached e then Err DiagnosticsNotManaged
  else
    r ← map_err (fun x => match x with NotManaged => DiagnosticsNotManaged | _ => DiagnosticsState end) (status e);
    now ← ok_or DiagnosticsClock clock;
    let v := view_of r in
    let '(runtime, redacted) := runtime_section_from_view v in
    let retained := bool_decide (view_process_ownership v = txt "owned") in
    let active := bool_decide (active_environment_id c = Some i) in
    Ok {| diag_environment_id := i; diag_observed_at := now; diag_runtime := runtime; diag_surface := surface;
          diag_revision := revision c; diag_active := active_environment_id c; diag_retained := retained;
          diag_owned := retained; diag_evidence := evidence_of v redacted retained active surface |}.

(** [collect] *)
Definition collect (catalog : option EnvironmentCatalog)
    (status : DshEnvironment -> result ManagedRuntimeError ManagedRuntimeReport) (surface : SurfaceDiagnostics)
    (clock : option N) (i : text) : result DiagnosticsError DiagnosticsReport :=
  if negb (is_valid_id i) then Err DiagnosticsMalformed
  else
    c ← ok_or DiagnosticsCatalog catalog;
    collect_from_catalog c status surface clock i.

(** ** What the diagnostics may show *)

(** Endpoints the diagnostics do not tell apart: the same loopback port, or both
    elsewhere. *)
Definition same_endpoint (a b : option ManagedEndpointView) : Prop :=
  match a, b with
  | None, None => True
  | Some x, Some y =>
      (ep_host x = ENDPOINT_HOST <-> ep_host y = ENDPOINT_HOST) /\ (ep_host x = ENDPOINT_HOST -> ep_port x = ep_port y)
  | _, _ => False
  end.

(** Reports with the same public facts: instance, stop disposition, times,
    schemes, verification and endpoints elsewhere may differ. *)
Record same_public (a b : ManagedRuntimeReport) : Prop := {
  sp_state : mr_state a = mr_state b;
  sp_generation : mr_generation a = mr_generation b;
  sp_readiness : mr_readiness a = mr_readiness b;
  sp_process : mr_process_ownership a = mr_process_ownership b;
  sp_evidence : mr_evidence a = mr_evidence b;
  sp_recovery : view_recovery (view_of a) = view_recovery (view_of b);
  sp_endpoint : same_endpoint (mr_endpoint a) (mr_endpoint b)
}.

Definition same_answer (a b : result ManagedRuntimeError ManagedRuntimeReport) : Prop :=
  match a, b with Ok a, Ok b => same_public a b | Err x, Err y => x = y | _, _ => False end.

Lemma section_redacts a b :
  same_public a b -> runtime_section_from_view (view_of a) = runtime_section_from_view (view_of b).
Proof.
  intros [Hs Hg Hr Hp He Hrec Hep]. unfold runtime_section_from_view. cbn in *. rewrite Hs, Hg, Hr, Hrec.
  destruct (mr_endpoint a) as [x|], (mr_endpoint b) as [y|]; try done. cbn. destruct Hep as [Hiff Hport].
  repeat case_bool_decide; try tauto. by rewrite Hport.
Qed.

Lemma evidence_ext v w redacted retained active surface :
  view_evidence v = view_evidence w ->
  evidence_of v redacted retained active surface = evidence_of w redacted retained active surface.
Proof. intros H. unfold evidence_of. by rewrite H. Qed.

Lemma push_evidence_bound c item l : (length l <= MAX_EVIDENCE)%nat -> (length (push_evidence c item l) <= MAX_EVIDENCE)%nat.
Proof.
  intros Hl. unfold push_evidence. destruct c; [| done]. cbn [andb].
  destruct (Nat.ltb_spec (length l) MAX_EVIDENCE); [| done]. rewrite length_app. cbn. lia.
Qed.

Lemma copy_evidence_bound items l : (length l <= MAX_EVIDENCE)%nat -> (length (copy_evidence l items) <= MAX_EVIDENCE)%nat.
Proof.
  revert l. induction items as [|x items IH]; intros l Hl; [done |]. cbn [copy_evidence].
  destruct (Nat.leb_spec MAX_EVIDENCE (length l)); [done |]. apply IH. rewrite length_app. cbn. lia.
Qed.

Lemma evidence_bound v redacted retained active surface :
  (length (evidence_of v redacted retained active surface) <= MAX_EVIDENCE)%nat.
Proof.
  unfold evidence_of. do 2 apply push_evidence_bound.
  assert (H : (length (push_evidence redacted (evidence_item "DIAGNOSTICS_ENDPOINT_REDACTED" "warning"
             "The runtime endpoint did not satisfy loopback policy and was redacted.")
             (copy_evidence [evidence_item "DIAGNOSTICS_COLLECTED" "info"
              "Diagnostics snapshot collected from Supervisor, Surface, catalog, and process state."] (view_evidence v)))
             <= MAX_EVIDENCE)%nat).
  { apply push_evidence_bound, copy_evidence_bound. unfold MAX_EVIDENCE. cbn [length]. lia. }
  destruct (sd_error surface); [by apply push_evidence_bound | exact H].
Qed.

(** C39.  Diagnostics are redacted: what the runtime reports of instances, stop
    dispositions, times, addresses outside loopback and whatever else is not in
    the whitelist has no influence on them; an endpoint in them is a loopback one;
    and the evidence stays within its bound. *)
Theorem diagnostics_redact catalog status status' surface clock i :
  (forall e, same_answer (status e) (status' e)) ->
  collect catalog status surface clock i = collect catalog status' surface clock i /\
  forall report, collect catalog status surface clock i = Ok report ->
    (length (diag_evidence report) <= MAX_EVIDENCE)%nat /\
    (forall port, rd_endpoint (diag_runtime report) = Some port ->
       exists e r ep, status e = Ok r /\ mr_endpoint r = Some ep /\ ep_host ep = ENDPOINT_HOST /\ ep_port ep = port).
Proof.
  intros Hs. unfold collect, collect_from_catalog. destruct (is_valid_id i); [cbn [negb] | done].
  destruct catalog as [c|]; [cbn | done]. destruct (catalog_environment c i) as [e|]; [cbn | done].
  destruct (is_attached e); [done |]. specialize (Hs e).
  destruct (status e) as [a|x] eqn:Ha, (status' e) as [b|y]; cbn in Hs; try done; cbn; [| by subst].
  destruct clock as [now|]; [cbn | done]. rewrite <- (section_redacts a b Hs).
  destruct (runtime_section_from_view (view_of a)) as [runtime redacted] eqn:Hsec. split.
  - rewrite (sp_process _ _ Hs), (evidence_ext (view_of a) (view_of b)); [done |]. apply Hs.
  - intros report H. apply Ok_inj in H as <-. cbn [diag_evidence diag_runtime]. split; [apply evidence_bound |].
    intros port Hport. exists e, a. unfold runtime_section_from_view in Hsec. cbn in Hsec.
    destruct (mr_endpoint a) as [ep|]; cbn in Hsec; [| by simplify_eq/=].
    case_bool_decide as Hh; simplify_eq/=. by exists ep.
Qed.

(** ** A healthy environment *)

Module LocalDiagnostics.

Definition managed_local : DshEnvironment :=
  {| Environment.schema_version := 1; Environment.id := txt "local"; label := txt "Local";
     harness := {| mode := Executable; path := txt "dsh"; cwd := None; args := [] |};
     dsh_home := txt "/home/u/.dsh"; profile := txt "default"; node_path := None;
     endpoint := {| host := txt "127.0.0.1"; port := Named (txt "auto") |}; ownership := Managed; policy := None |}.

Definition store : EnvironmentCatalog :=
  {| cat_schema_version := 1; revision := 4; active_environment_id := Some (txt "local"); environments := [managed_local] |}.

(** The instance id and an endpoint's host and port. *)
Definition running (instance host : text) (port : N) : ManagedRuntimeReport :=
  {| mr_schema_version := 1; mr_environment_id := txt "local"; mr_ownership := txt "managed"; mr_state := txt "healthy";
     mr_generation := 3; mr_instance_id := Some instance; mr_process_ownership := txt "owned";
     mr_lifecycle_mutation := txt "allowed"; mr_readiness := txt "verified";
     mr_endpoint := Some {| ep_scheme := txt "http"; ep_host := host; ep_port := port; ep_source := txt "managed_process_output";
                            ep_verification := txt "owned_generation_output_and_tcp" |};
     mr_stop_disposition := txt "not_requested"; mr_recovery := None; mr_observed_at := 5; mr_evidence := [] |}.

Definition idle : SurfaceDiagnostics := surface_diagnostics Linux None.

(** Another instance at another address outside loopback: the same report. *)
Lemma diagnostics_redact_witness :
  collect (Some store) (fun _ => Ok (running (txt "secret") (txt "10.0.0.7") 443)) idle (Some 9%N) (txt "local")
  = collect (Some store) (fun _ => Ok (running (txt "other") (txt "10.0.0.8") 8443)) idle (Some 9%N) (txt "local").
Proof.
  apply (diagnostics_redact (Some store) _ (fun _ => Ok (running (txt "other") (txt "10.0.0.8") 8443)) idle (Some 9%N) (txt "local")).
  intros e. split; try reflexivity. split; [split | ]; intros H; vm_compute in H; discriminate H.
Defined.

Example redacted_codes :
  (fun r => (map ev_code (diag_evidence r), rd_endpoint (diag_runtime r))) <$>
    (match collect (Some store) (fun _ => Ok (running (txt "secret") (txt "10.0.0.7") 443)) idle (Some 9%N) (txt "local") with
     | Ok r => Some r | Err _ => None end)
  = Some ([txt "DIAGNOSTICS_COLLECTED"; txt "DIAGNOSTICS_ENDPOINT_REDACTED"; txt "PROCESS_RETAINED"; txt "CATALOG_ACTIVE_ENVIRONMENT"], None).
Proof. vm_compute. reflexivity. Qed.
End LocalDiagnostics.
