(* ===== verification/Commands.v ===== *)
(** * The runtime and surface commands

    Model of the commands of [apps/desktop/src-tauri/src/commands.rs] that drive
    the managed runtime and its surface: they check the request, look the
    environment up in the catalog, ask the daemon through the proxies of
    [managed_runtime.rs], and act on the Shell's own state, the surface, the
    notification registry and the usage ledger.  What a command reads of the world
    (the stored catalog, whether a connector is installed, the native calls, the
    clocks and files of the trails) is [Env]; a joined task does not fail. *)
From Stdlib Require Import NArith ZArith Ascii Lia.
From S2P Require Import Prelude Text Json Envelope Environment Trail Notification UsageLedger CatalogStore SurfacePolicy Surface SurfaceFacts DaemonClient ShellEnvironment CommandErrors Diagnostics.
From stdpp Require Import base strings list option gmap.

(** What the front end asks of the runtime. *)
Record RuntimeRequest := { rq_schema_version : N; rq_environment_id : text; rq_expected_generation : N }.

Record ShellSnapshot := { runtime_state_of : text; environment_of : option text; generation_of : N }.

Section Commands.
Context {Value D : Type} `{fs : Fs} `{eb : ExecutableBit} {lib : UrlLib} {wire : RuntimeProxyWire Value ManagedRuntimeReport}
  {note_codec : LineCodec NotificationRecord} {usage_codec : LineCodec UsageRecord}.

Record Env := {
  stored : result StoreError EnvironmentCatalog;
  connector : option (string -> Value -> M D DaemonCommandError Value);
  on_platform : SurfacePlatform;
  native : Native;
  note_calls : option TrailCalls;      (* none when the audit path is unavailable *)
  usage_calls : option TrailCalls;
  note_clock : option N;
  usage_clock : option N;
  usage_clock' : option N
}.

(** The Shell's state, and what is behind the connection. *)
Record Desk := { desk_surface : Surface; notes : Registry; usage : Collector; daemon_side : D }.

Definition set_desk_surface (s : Surface) (d : Desk) : Desk :=
  {| desk_surface := s; notes := notes d; usage := usage d; daemon_side := daemon_side d |}.
Definition set_notes (r : Registry) (d : Desk) : Desk :=
  {| desk_surface := desk_surface d; notes := r; usage := usage d; daemon_side := daemon_side d |}.
Definition set_collector (c : Collector) (d : Desk) : Desk :=
  {| desk_surface := desk_surface d; notes := notes d; usage := c; daemon_side := daemon_side d |}.
Definition set_daemon_side (x : D) (d : Desk) : Desk :=
  {| desk_surface := desk_surface d; notes := notes d; usage := usage d; daemon_side := x |}.

Context (env : Env).
Abbreviation Command A := (M Desk CommandError A).
Abbreviation connected_invoke := (string -> Value -> M D DaemonCommandError Value).

(** [let _ = ..]: the effects of a computation, whatever its result. *)
Definition ignoring {E A} (m : M Desk E A) : Command unit := fun d => (Ok tt, (m d).2).

Definition on_surface {A} (m : M Surface DshSurfaceError A) : Command A :=
  map_err_m from_dsh_surface (zoom desk_surface set_desk_surface m).
Definition ask {A} (m : M D ManagedRuntimeError A) : Command A :=
  map_err_m from_managed_runtime (zoom daemon_side set_daemon_side m).

(** The environment of a request, and the connector. *)
Definition catalog_entry (missing : string) (i : text) : Command DshEnvironment :=
  c ← lift (map_err from_store (stored env));
  lift (ok_or (command_unavailable missing false) (catalog_environment c i)).
Definition connected : Command connected_invoke :=
  lift (ok_or (command_unavailable "The daemon is not connected." true) (connector env)).

Definition runtime_request_valid (q : RuntimeRequest) : bool := (rq_schema_version q =? 1)%N && is_valid_id (rq_environment_id q).

(** [get_shell_snapshot] *)
Definition get_shell_snapshot : Command ShellSnapshot :=
  c ← lift (map_err from_store (stored env));
  invoke ← connected;
  match active_environment c with
  | Some e =>
      if is_attached e then
        mret {| runtime_state_of := chars (runtime_state e); environment_of := Some (Environment.id e); generation_of := 0 |}
      else
        report ← ask (proxy_status invoke e);
        mret {| runtime_state_of := mr_state report; environment_of := Some (Environment.id e);
                generation_of := mr_generation report |}
  | None => mret {| runtime_state_of := txt "unconfigured"; environment_of := None; generation_of := 0 |}
  end.

(** [start_managed_environment] *)
Definition start_managed_environment (q : RuntimeRequest) : Command ManagedRuntimeReport :=
  throw_if (negb (runtime_request_valid q)) malformed_managed_runtime_request;;
  e ← catalog_entry "Managed environment is unavailable." (rq_environment_id q);
  lift (map_err (fun m => command_error "MALFORMED_MESSAGE" m false) (validate_launch_target e));;
  invoke ← connected;
  ask (proxy_start invoke e).

(** [restart_managed_environment] *)
Definition restart_managed_environment (q : RuntimeRequest) : Command ManagedRuntimeReport :=
  throw_if (negb (runtime_request_valid q)) malformed_managed_runtime_request;;
  e ← catalog_entry "Managed environment is unavailable." (rq_environment_id q);
  invoke ← connected;
  report ← ask (proxy_restart invoke e (rq_expected_generation q));
  ignoring (on_surface (force_unmount (native env) (Environment.id e) (mr_generation report - 1)%N));;
  mret report.

(** [stop_managed_environment] *)
Definition stop_managed_environment (q : RuntimeRequest) : Command ManagedRuntimeReport :=
  throw_if (negb (runtime_request_valid q) || (rq_expected_generation q =? 0)%N) malformed_managed_runtime_request;;
  e ← catalog_entry "Managed environment is unavailable." (rq_environment_id q);
  on_surface (force_unmount (native env) (rq_environment_id q) (rq_expected_generation q));;
  invoke ← connected;
  ask (proxy_stop invoke e (rq_expected_generation q)).

(** [get_managed_runtime_status] *)
Definition get_managed_runtime_status (q : RuntimeRequest) : Command ManagedRuntimeReport :=
  throw_if (negb (runtime_request_valid q)) malformed_managed_runtime_request;;
  e ← catalog_entry "Managed environment is unavailable." (rq_environment_id q);
  invoke ← connected;
  report ← ask (proxy_status invoke e);
  match note_calls env with
  | Some calls => ignoring (zoom notes set_notes
                    (maybe_emit_runtime_change calls (note_clock env) (rq_environment_id q) (mr_state report)))
  | None => mret tt
  end;;
  match usage_calls env with
  | Some calls => ignoring (zoom usage set_collector
                    (observe_runtime_state calls (usage_clock env) (usage_clock' env) (rq_environment_id q) (mr_state report)))
  | None => mret tt
  end;;
  mret report.

(** The four commands on a verified binding. *)
Definition with_binding {A} (t : SurfaceTarget) (k : VerifiedSurfaceBinding -> Command A) : Command A :=
  e ← catalog_entry "Managed environment is unavailable." (environment_id t);
  invoke ← connected;
  b ← ask (proxy_binding invoke e (expected_generation t));
  k b.

(** [mount_dsh_surface], [get_dsh_surface_status], [update_dsh_surface_layout],
    [reload_dsh_surface] *)
Definition mount_dsh_surface (q : DshSurfaceMountRequest) : Command DshSurfaceStatus :=
  throw_if (negb (mount_valid q)) malformed_dsh_surface_lifecycle_request;;
  with_binding (target q) (fun b => on_surface (mount_surface (on_platform env) (native env) b q)).
Definition get_dsh_surface_status (t : SurfaceTarget) : Command DshSurfaceStatus :=
  throw_if (negb (target_valid t)) malformed_dsh_surface_lifecycle_request;;
  with_binding t (fun b => on_surface (get_surface_status (on_platform env) b t)).
Definition update_dsh_surface_layout (q : DshSurfaceMountRequest) : Command DshSurfaceStatus :=
  throw_if (negb (mount_valid q)) malformed_dsh_surface_lifecycle_request;;
  with_binding (target q) (fun b => on_surface (update_surface_layout (on_platform env) (native env) b q)).
Definition reload_dsh_surface (t : SurfaceTarget) : Command DshSurfaceStatus :=
  throw_if (negb (target_valid t)) malformed_dsh_surface_lifecycle_request;;
  with_binding t (fun b => on_surface (reload_surface (on_platform env) (native env) b t)).

(** [unmount_dsh_surface] *)
Definition unmount_dsh_surface (t : SurfaceTarget) : Command DshSurfaceStatus :=
  throw_if (negb (target_valid t)) malformed_dsh_surface_lifecycle_request;;
  e ← catalog_entry "Managed environment is unavailable." (environment_id t);
  throw_if (is_attached e) (from_managed_runtime NotManaged);;
  on_surface (unmount_surface (on_platform env) (native env) t).
End Commands.

(** ** What the runtime and surface commands guarantee

    A surface is mounted only where the daemon says the managed process of the
    requested generation listens; a view is closed before its process is stopped;
    the status command is not affected by the trails it writes. *)

Section Facts.
Context {Value D : Type} `{fs : Fs} `{eb : ExecutableBit} {lib : UrlLib} {wire : RuntimeProxyWire Value ManagedRuntimeReport}
  {note_codec : LineCodec NotificationRecord} {usage_codec : LineCodec UsageRecord}.
Abbreviation Desk := (Desk (D := D)).
Abbreviation Env := (Env (Value := Value) (D := D)).
Implicit Types (env : Env) (d : Desk).

(** ** Single steps *)

Lemma on_surface_ok {A} (m : M Surface DshSurfaceError A) d a d' :
  on_surface m d = (Ok a, d') <-> exists s, m (desk_surface d) = (Ok a, s) /\ d' = set_desk_surface s d.
Proof. unfold on_surface. by rewrite map_err_m_ok, zoom_ok. Qed.

Lemma ask_ok {A} (m : M D ManagedRuntimeError A) d a d' :
  ask m d = (Ok a, d') <-> exists x, m (daemon_side d) = (Ok a, x) /\ d' = set_daemon_side x d.
Proof. unfold ask. by rewrite map_err_m_ok, zoom_ok. Qed.

Lemma catalog_entry_ok env missing i d e d' :
  catalog_entry env missing i d = (Ok e, d') <->
  d' = d /\ exists c, stored env = Ok c /\ catalog_environment c i = Some e.
Proof.
  unfold catalog_entry, lift. cbv [mbind M_bind]. destruct (stored env) as [c|]; cbn; [| naive_solver].
  destruct (catalog_environment c i) eqn:Hc; cbn; naive_solver.
Qed.

(** The first steps of a command, which change nothing. *)
Lemma throw_if_bind {A} c x (m : M Desk CommandError A) d : (throw_if c x;; m) d = if c then (Err x, d) else m d.
Proof. by destruct c. Qed.

Lemma lift_bind {A B} (r : result CommandError A) (k : A -> M Desk CommandError B) d :
  (a ← lift r; k a) d = match r with Ok a => k a d | Err x => (Err x, d) end.
Proof. by destruct r. Qed.

Lemma catalog_bind {A} env missing i (k : DshEnvironment -> M Desk CommandError A) d :
  (e ← catalog_entry env missing i; k e) d =
  match (catalog_entry env missing i d).1 with Ok e => k e d | Err x => (Err x, d) end.
Proof.
  unfold catalog_entry, lift. cbv [mbind M_bind]. destruct (stored env) as [c|x]; cbn; [| done].
  by destruct (catalog_environment c i) as [e|].
Qed.

Lemma connected_bind {A} env (k : _ -> M Desk CommandError A) d :
  (f ← connected env; k f) d =
  match connector env with Some f => k f d | None => (Err (command_unavailable "The daemon is not connected." true), d) end.
Proof. unfold connected, lift. cbv [mbind M_bind]. by destruct (connector env). Qed.

Lemma connected_ok env d f d' : connected env d = (Ok f, d') <-> d' = d /\ connector env = Some f.
Proof. unfold connected, lift. destruct (connector env); cbn; naive_solver. Qed.

(** What the daemon answered for a verified binding. *)
Lemma proxy_binding_ok (invoke : string -> Value -> M D DaemonCommandError Value) e g x b x' :
  proxy_binding invoke e g x = (Ok b, x') ->
  is_attached e = false /\ b_generation b = g /\ (0 < g)%N /\
  exists v t, invoke "runtime.binding"%string (generation_payload (Environment.id e) g) x = (Ok v, x') /\
    binding_of_value v = Some (1%N, g, b_port b, t) /\ url_parse t = Some (b_url b).
Proof.
  unfold proxy_binding, managed_only, forward_runtime.
  intros (? & ? & [Ha ->]%throw_if_ok & (? & ? & [Hg ->]%throw_if_ok & H)%bind_ok)%bind_ok.
  apply bind_ok in H as (v & y1 & Hv%map_err_m_ok & H). apply bind_ok in H as ([[[ver gen] port] t] & y2 & [Hb%ok_or_ok ->]%lift_ok & H).
  apply bind_ok in H as (? & ? & [Hver%negb_false_iff%N.eqb_eq ->]%throw_if_ok & H).
  apply bind_ok in H as (? & ? & [Hgen%negb_false_iff%N.eqb_eq ->]%throw_if_ok & H).
  apply bind_ok in H as (u & ? & [Hu%ok_or_ok ->]%lift_ok & H). cbn in H. injection H as <- <-. subst.
  apply N.eqb_neq in Hg. split_and!; [done | done | lia |]. by exists v, t.
Qed.

(** ** Mounting *)

Definition record_for (i : text) (g port : N) (s : Surface) : Prop :=
  exists r, record s = Some r /\ rec_environment_id r = i /\ rec_generation r = g /\ rec_port r = port.

Lemma record_for_transition i g state e i' g' port s :
  record_for i' g' port s -> record_for i' g' port (transition i g state e s).
Proof.
  intros (r & Hr & Hi & Hg & Hp). unfold transition. rewrite Hr. destruct (belongs i g r); [| by exists r].
  eexists. split; [reflexivity |]. done.
Qed.

Lemma record_for_webview i g port w s : record_for i g port s -> record_for i g port (set_webview w s).
Proof. done. Qed.

Lemma current_report_ok platform s st s' : current_report platform s = (Ok st, s') -> s' = s.
Proof. unfold current_report, gets. cbv [mbind M_bind]. destruct (record s); [| done]. by intros [= _ <-]. Qed.

Lemma mount_windows_record platform n b q i g port s st s' :
  mount_windows_surface platform n b q s = (Ok st, s') -> record_for i g port s -> record_for i g port s'.
Proof.
  unfold mount_windows_surface, surface_operation_failed. intros H Hr.
  repeat match type of H with
  | (if ?c then _ else _) _ = _ => destruct c; [by cbn in H |]
  | ((if ?c then _ else _) ≫= _) _ = _ => destruct c
  | _ => apply bind_ok in H as ([] & ? & [= <-] & H)
  end; apply current_report_ok in H as ->; by apply record_for_webview, record_for_transition.
Qed.

Lemma mount_surface_record platform n b q s st s' :
  mount_surface platform n b q s = (Ok st, s') ->
  record_for (environment_id (target q)) (expected_generation (target q)) (b_port b) s'.
Proof.
  unfold mount_surface. destruct (negb (mount_valid q) || _); [done |].
  intros (s0 & s1 & [= <- <-] & H)%bind_ok.
  assert (Hinstall : forall st s1 s', (close_existing n;; install_surface platform n b q) s1 = (Ok st, s') ->
    record_for (environment_id (target q)) (expected_generation (target q)) (b_port b) s').
  { clear. intros st s1 s' (? & s2 & _ & H)%bind_ok. unfold install_surface, replace_record in H.
    cbv [mbind M_bind modify mret M_ret] in H. destruct platform.
    1: eapply mount_windows_record; [exact H |].
    all: try (injection H as _ <-). all: eexists; split; [reflexivity |]; done. }
  destruct (record s) as [r|] eqn:Hr; [| by eapply Hinstall].
  destruct (belongs _ _ r && _ && _) eqn:Hb; [| by eapply Hinstall]. apply andb_true_iff in Hb as [[Hb Hp%N.eqb_eq]%andb_true_iff _].
  unfold belongs in Hb. apply andb_true_iff in Hb as [Hi%bool_decide_eq_true Hg%N.eqb_eq].
  unfold update_existing_layout in H. apply bind_ok in H as (s0 & s1 & [= <- <-] & H).
  destruct (webview s); [| done]. destruct (negb (layout_ok n)); [done |].
  apply bind_ok in H as ([] & s1 & [= <-] & H). rewrite Hr in H.
  cbv [replace_record mbind M_bind modify mret M_ret] in H. injection H as _ <-. eexists. split; [reflexivity |]. done.
Qed.

(** C17.  A surface is mounted only on what the daemon verified: a successful mount
    means that the catalog holds the requested environment as a managed one, that
    the daemon answered the binding of exactly the requested generation, and that
    the surface's record is of that environment, generation and port. *)
Theorem mount_follows_daemon env q d st d' :
  mount_dsh_surface env q d = (Ok st, d') ->
  exists e c invoke v port t u,
    stored env = Ok c /\ catalog_environment c (environment_id (target q)) = Some e /\ is_attached e = false /\
    connector env = Some invoke /\
    invoke "runtime.binding"%string (generation_payload (Environment.id e) (expected_generation (target q))) (daemon_side d) = (Ok v, daemon_side d') /\
    binding_of_value v = Some (1%N, expected_generation (target q), port, t) /\ url_parse t = Some u /\
    record_for (environment_id (target q)) (expected_generation (target q)) port (desk_surface d').
Proof.
  unfold mount_dsh_surface, with_binding. intros (? & ? & [_ ->]%throw_if_ok & H)%bind_ok.
  apply bind_ok in H as (e & d1 & [-> (c & Hc & He)]%catalog_entry_ok & H).
  apply bind_ok in H as (invoke & d2 & [-> Hi]%connected_ok & H).
  apply bind_ok in H as (b & d3 & (y & Hb & ->)%ask_ok & H).
  apply on_surface_ok in H as (s & Hs & ->). apply mount_surface_record in Hs.
  apply proxy_binding_ok in Hb as (Ha & Hg & _ & v & t & Hv & Hbind & Hu).
  exists e, c, invoke, v, (b_port b), t, (b_url b). split_and!; done.
Qed.

(** ** Views and processes *)

Lemma close_existing_run n s :
  close_existing n s =
  if bool_decide (is_Some (webview s)) && negb (close_ok n) then (Err SurfaceUnavailable, s) else (Ok tt, set_webview None s).
Proof.
  unfold close_existing, gets. cbv [mbind M_bind]. destruct s as [r [w|]]; cbn; [by destruct (close_ok n) | done].
Qed.

Lemma force_unmount_run n i g s :
  webview (force_unmount n i g s).2 = None /\ (force_unmount n i g s).1 = Ok tt \/
  force_unmount n i g s = (Err SurfaceUnavailable, s) /\ close_ok n = false.
Proof.
  unfold force_unmount, modify. cbv [mbind M_bind]. rewrite close_existing_run.
  destruct (bool_decide _ && negb (close_ok n)) eqn:Hc.
  - right. split; [done |]. apply andb_true_iff in Hc as [_ Hc]. by apply negb_true_iff.
  - left. cbn. destruct (record s) as [r|]; [| done]. by destruct (belongs i g r).
Qed.

Lemma force_unmount_view n i g s s' : force_unmount n i g s = (Ok tt, s') -> webview s' = None.
Proof. destruct (force_unmount_run n i g s) as [[Hv _] | [-> _]]; [| done]. intros H. by rewrite H in Hv. Qed.

Lemma force_unmount_closes n i g s : close_ok n = true -> webview (force_unmount n i g s).2 = None.
Proof. destruct (force_unmount_run n i g s) as [[Hv _] | [_ Hc]]; congruence. Qed.

Lemma surface_bind {A B} (m : M Surface DshSurfaceError A) (k : A -> M Desk CommandError B) d :
  (a ← on_surface m; k a) d =
  match m (desk_surface d) with
  | (Ok a, s) => k a (set_desk_surface s d)
  | (Err x, s) => (Err (from_dsh_surface x), set_desk_surface s d)
  end.
Proof. unfold on_surface, map_err_m, zoom. cbv [mbind M_bind]. by destruct (m (desk_surface d)) as [[]]. Qed.

Lemma on_surface_state {A} (m : M Surface DshSurfaceError A) d : desk_surface (on_surface m d).2 = (m (desk_surface d)).2.
Proof. unfold on_surface, map_err_m, zoom. by destruct (m (desk_surface d)). Qed.

Lemma ask_surface {A} (m : M D ManagedRuntimeError A) d : desk_surface (ask m d).2 = desk_surface d.
Proof. unfold ask, map_err_m, zoom. by destruct (m (daemon_side d)). Qed.

(** A view never outlives its process by a command: when a stop has reached
    the daemon, with whatever result, the view was closed before; after a
    successful restart no view is open, provided the native close works; and
    neither starting nor reading the status touches the surface. *)
Theorem views_close_with_process env q d :
  (daemon_side (stop_managed_environment env q d).2 <> daemon_side d ->
   webview (desk_surface (stop_managed_environment env q d).2) = None) /\
  (forall report d', restart_managed_environment env q d = (Ok report, d') -> close_ok (native env) = true ->
   webview (desk_surface d') = None) /\
  desk_surface (start_managed_environment env q d).2 = desk_surface d /\
  desk_surface (get_managed_runtime_status env q d).2 = desk_surface d.
Proof.
  split_and!.
  - unfold stop_managed_environment. rewrite throw_if_bind. destruct (_ || _); [done |].
    rewrite catalog_bind. destruct (catalog_entry env _ _ d).1 as [e|x]; [| done]. rewrite surface_bind.
    destruct (force_unmount _ _ _ _) as [[[]|x] s] eqn:Hu; [| done]. apply force_unmount_view in Hu.
    rewrite connected_bind. destruct (connector env) as [invoke|]; [| done]. intros _. by rewrite ask_surface.
  - intros report d' H Hc. unfold restart_managed_environment in H.
    apply bind_ok in H as (? & ? & [_ ->]%throw_if_ok & H). apply bind_ok in H as (e & d1 & [-> _]%catalog_entry_ok & H).
    apply bind_ok in H as (invoke & d2 & [-> _]%connected_ok & H). apply bind_ok in H as (r & d3 & (y & _ & ->)%ask_ok & H).
    apply bind_ok in H as (? & d4 & H4 & [= <- <-]). unfold ignoring in H4. injection H4 as _ <-.
    rewrite on_surface_state. by apply force_unmount_closes.
  - unfold start_managed_environment. rewrite throw_if_bind. destruct (negb _); [done |].
    rewrite catalog_bind. destruct (catalog_entry env _ _ d).1 as [e|x]; [| done]. rewrite lift_bind.
    destruct (validate_launch_target e); cbn [map_err]; [| done]. rewrite connected_bind.
    destruct (connector env); [apply ask_surface | done].
  - unfold get_managed_runtime_status. rewrite throw_if_bind. destruct (negb _); [done |].
    rewrite catalog_bind. destruct (catalog_entry env _ _ d).1 as [e|x]; [| done]. rewrite connected_bind. destruct (connector env) as [invoke|]; [| done].
    cbv [mbind M_bind]. pose proof (ask_surface (proxy_status invoke e) d) as Hf.
    destruct (ask _ d) as [[r|] d1]; cbn in Hf; [| done].
    destruct (note_calls env), (usage_calls env); unfold ignoring, zoom; cbn;
      repeat match goal with |- context [let '(_, _) := ?x in _] => destruct x end; done.
Qed.

Lemma ignored_bind {E A B} (m : M Desk E A) (k : M Desk CommandError B) d : (ignoring m;; k) d = k (m d).2.
Proof. done. Qed.

(** The answer of the status command does not depend on the trails: neither a
    failing write nor their contents can change it. *)
Lemma status_ignores_trails env env' q d d' :
  stored env = stored env' -> connector env = connector env' -> daemon_side d = daemon_side d' ->
  (get_managed_runtime_status env q d).1 = (get_managed_runtime_status env' q d').1.
Proof.
  intros Hs Hc Hd. unfold get_managed_runtime_status. rewrite !throw_if_bind. destruct (negb _); [done |].
  rewrite !catalog_bind. assert (He : (catalog_entry env "Managed environment is unavailable." (rq_environment_id q) d).1
    = (catalog_entry env' "Managed environment is unavailable." (rq_environment_id q) d').1).
  { unfold catalog_entry, lift. cbv [mbind M_bind]. rewrite Hs. destruct (stored env'); [| done]. cbn. by destruct (catalog_environment _ _). }
  rewrite He. destruct (catalog_entry env' _ _ _).1 as [e|]; [| done]. rewrite !connected_bind, Hc.
  destruct (connector env') as [invoke|]; [| done]. unfold ask, map_err_m, zoom. cbv [mbind M_bind]. rewrite Hd.
  destruct (proxy_status invoke e (daemon_side d')) as [[r|x] y]; cbn; [| done].
  by destruct (note_calls env), (note_calls env'), (usage_calls env), (usage_calls env').
Qed.
End Facts.

(** ** A desk *)

Module LocalCommands.
Import LocalSurface.

#[export] Instance no_files : Fs :=
  {| is_absolute := fun _ => true; is_file := fun _ => false; is_dir := fun _ => false; Environment.join := fun a b => a ++ b;
     from_file_path := fun _ => None; path_dirs := None; on_windows := false |}.
#[export] Instance no_bits : ExecutableBit := fun _ => false.
#[export] Instance no_notes : LineCodec NotificationRecord := {| to_line := fun _ => None; of_line := fun _ => None |}.
#[export] Instance no_usage : LineCodec UsageRecord := {| to_line := fun _ => None; of_line := fun _ => None |}.

(** A value is a generation; the daemon counts its calls and holds generation 3. *)
Definition healthy (g : N) : ManagedRuntimeReport :=
  {| mr_schema_version := 1; mr_environment_id := txt "alpha"; mr_ownership := txt "managed"; mr_state := txt "healthy";
     mr_generation := g; mr_instance_id := None; mr_process_ownership := txt "owned"; mr_lifecycle_mutation := txt "allowed";
     mr_readiness := txt "verified"; mr_endpoint := None; mr_stop_disposition := txt "not_requested"; mr_recovery := None;
     mr_observed_at := 0; mr_evidence := [] |}.
#[export] Instance wire : RuntimeProxyWire N ManagedRuntimeReport :=
  {| runtime_payload := fun _ => 3%N; generation_payload := fun _ g => g; report_of_value := fun g => Some (healthy g);
     binding_of_value := fun g => Some (1%N, g, 4100%N, txt "http://127.0.0.1:4100/?token=t") |}.
Definition answer (m : string) (g : N) : M nat DaemonCommandError N := fun n =>
  if negb (g =? 3)%N then (Err (Remote Envelope.StaleGeneration "stale" false), S n)
  else if bool_decide (m = "runtime.restart")%string then (Ok 4%N, S n) else (Ok g, S n).

Definition alpha_environment : DshEnvironment :=
  {| Environment.schema_version := 1; Environment.id := txt "alpha"; label := txt "Alpha";
     harness := {| mode := Command; path := txt "dsh"; cwd := None; args := [] |};
     dsh_home := txt "/home/u/.dsh"; profile := txt "default"; node_path := None;
     endpoint := {| host := txt "127.0.0.1"; port := Named (txt "auto") |}; ownership := Managed; policy := None |}.

Definition world (close : bool) : Env (Value := N) (D := nat) :=
  {| stored := Ok {| cat_schema_version := 1; revision := 1; active_environment_id := None; environments := [alpha_environment] |};
     connector := Some answer; on_platform := OnWindows;
     native := {| has_shell_window := true; add_child_ok := true; hide_ok := true; hooks_ok := true; navigate_ok := true;
                  abandon_ok := true; close_ok := close; layout_ok := true; reload_ok := true |};
     note_calls := None; usage_calls := None; note_clock := None; usage_clock := None; usage_clock' := None |}.

Definition desk (s : Surface) : Desk (D := nat) :=
  {| desk_surface := s; notes := Notification.initial; usage := new_collector; daemon_side := 0%nat |}.
Definition runtime_request (g : N) : RuntimeRequest :=
  {| rq_schema_version := 1; rq_environment_id := txt "alpha"; rq_expected_generation := g |}.

Lemma mount_follows_daemon_witness :
  exists st d' e, mount_dsh_surface (world true) mount_request (desk empty) = (Ok st, d') /\ is_attached e = false /\
    record_for (txt "alpha") 3 4100 (desk_surface d').
Proof.
  assert (H : mount_dsh_surface (world true) mount_request (desk empty)
              = ((mount_dsh_surface (world true) mount_request (desk empty)).1, (mount_dsh_surface (world true) mount_request (desk empty)).2))
    by apply surjective_pairing.
  destruct (mount_dsh_surface (world true) mount_request (desk empty)).1 as [st|] eqn:E; [| vm_compute in E; discriminate E].
  destruct (mount_follows_daemon (world true) mount_request (desk empty) st _ H)
    as (e & c & invoke & v & port & t & u & _ & _ & Ha & Hi & Hv & Hb & _ & Hr).
  exists st, (mount_dsh_surface (world true) mount_request (desk empty)).2, e. split; [exact H |]. split; [exact Ha |].
  injection Hi as <-. vm_compute in Hv. injection Hv as <-. vm_compute in Hb. injection Hb as <- _. exact Hr.
Defined.

Lemma views_close_with_process_witness :
  webview (desk_surface (stop_managed_environment (world true) (runtime_request 3) (desk loaded)).2) = None.
Proof.
  apply (views_close_with_process (world true) (runtime_request 3) (desk loaded)). vm_compute. discriminate.
Defined.

(** A stop the daemon refuses as stale has already closed the view, and the
    record still says ready. *)
Example stale_stop_closes_view :
  let r := stop_managed_environment (world true) (runtime_request 2) (desk loaded) in
  map_err ce_code r.1 = Err "STALE_GENERATION"%string /\ (webview (desk_surface r.2) = None) /\
  option_map rec_state (record (desk_surface r.2)) = Some SurfaceReady.
Proof. vm_compute. split_and!; reflexivity. Qed.

(** A restart whose native close fails reports success and leaves the view of the
    retired generation open. *)
Example restart_leaves_view :
  let r := restart_managed_environment (world false) (runtime_request 3) (desk loaded) in
  is_ok r.1 = true /\ option_map wv_generation (webview (desk_surface r.2)) = Some 3%N.
Proof. vm_compute. split_and!; reflexivity. Qed.
End LocalCommands.
