(* ===== verification/Workbench.v ===== *)
(** * The workbench commands

    Model of the commands of [apps/desktop/src-tauri/src/commands.rs] behind the
    Shell's panels: the environment catalog, the surface policy, the set-up
    wizard, files, git, terminals, notifications and usage.  Each checks its
    request, loads the catalog where it needs the active environment, and calls
    the part that does the work.  The state [Bench] has what these parts keep; the
    catalog lives on the [Disk] of [CatalogStore] and the files of the panel in
    the [Tree] of [FileManager], each as its own component has it, so that a
    workspace that contains the catalog is not modelled. *)
From Stdlib Require Import NArith ZArith Ascii Lia.
From S2P Require Import Prelude Text Json Broker Envelope Environment Trail Notification UsageLedger CatalogStore CatalogSpec SurfacePolicy.
From S2P Require Import FileManager FileManagerFacts GitPanel DaemonState TerminalCapability DaemonClient ShellEnvironment CommandErrors ShellTerminal Discovery.
From stdpp Require Import base strings list option gmap.

Definition CATALOG_FILE_NAME : text := txt "environment-catalog-v1.json".

(** How a command ends without a value: it tells the front end, the git panel
    panicked, or the process ended in a system call. *)
Inductive Ending := Told (e : CommandError) | CommandPanicked | Died.

(** ** Errors *)

Definition setup_assist_io : CommandError := command_unavailable "Setup assistance could not inspect the environment." false.
Definition malformed_discovery : CommandError := command_error "MALFORMED_MESSAGE" "Harness discovery request is invalid." false.
Definition malformed_dsh_surface_policy_request : CommandError :=
  command_error "MALFORMED_MESSAGE" "DSH Surface policy request is invalid." false.
Definition malformed_dsh_surface_navigation_request : CommandError :=
  command_error "MALFORMED_MESSAGE" "DSH Surface navigation request is invalid." false.
Definition malformed_attached_health_request : CommandError :=
  command_error "MALFORMED_MESSAGE" "Attached health request is invalid." false.

(** [from_attached_health] *)
Definition from_attached_health (e : AttachedHealthError) : CommandError :=
  match e with
  | NotAttached => command_error "NOT_PROCESS_OWNER" "Health probe requires an Attached environment." false
  | FixedPortRequired => command_error "UNAVAILABLE" "Attached health requires a fixed loopback port." false
  | HealthClockUnavailable => command_unavailable "Attached health timestamp is unavailable." true
  end.

Definition from_setup_assist (e : SetupAssistError) : CommandError :=
  match e with MalformedSetup => malformed_setup_assist | _ => setup_assist_io end.

(** A store operation that ends early, a git operation that does. *)
Definition from_halt (h : Halt) : Ending := match h with Failed e => Told (from_store e) | Stopped => Died end.
Definition from_fault (f : GitPanel.Fault) : Ending :=
  match f with GitPanel.Refused e => Told (from_git e) | Panicked => CommandPanicked end.

(** ** State *)

Section Panels.
Context {Value D : Type} {G : Git} `{fs : Fs} `{eb : ExecutableBit} {machine : Machine} {json : CatalogJson} {lib : UrlLib}.
Context {listing : Listing} {note_codec : LineCodec NotificationRecord} {usage_codec : LineCodec UsageRecord}.
Context {wire : TerminalProxyWire Value} {serde : SerdeJson}.

Record Bench := {
  disk : Disk; tree : Tree; panel : Panel; notes : Registry; collector : Collector; peer : D
}.

Definition set_disk (x : Disk) (b : Bench) : Bench :=
  {| disk := x; tree := tree b; panel := panel b; notes := notes b; collector := collector b; peer := peer b |}.
Definition set_tree (x : Tree) (b : Bench) : Bench :=
  {| disk := disk b; tree := x; panel := panel b; notes := notes b; collector := collector b; peer := peer b |}.
Definition set_panel (x : Panel) (b : Bench) : Bench :=
  {| disk := disk b; tree := tree b; panel := x; notes := notes b; collector := collector b; peer := peer b |}.
Definition set_notes (x : Registry) (b : Bench) : Bench :=
  {| disk := disk b; tree := tree b; panel := panel b; notes := x; collector := collector b; peer := peer b |}.
Definition set_collector (x : Collector) (b : Bench) : Bench :=
  {| disk := disk b; tree := tree b; panel := panel b; notes := notes b; collector := x; peer := peer b |}.
Definition set_peer (x : D) (b : Bench) : Bench :=
  {| disk := disk b; tree := tree b; panel := panel b; notes := notes b; collector := collector b; peer := x |}.

(** What a command reads of the world: the application's data directory, the
    calls on the trails it holds, the clocks, the cost-meter file of a home, the
    working directory, the process id, and the calls on the files. *)
Record Desktop := {
  app_data_dir : option FilePath;
  note_calls : TrailCalls; usage_calls : TrailCalls;
  note_clock : option N; usage_clock : option N; usage_clock' : option N;
  cost_meter_file : text -> option text;
  working_dir : Path; process_id : N; look_calls : LookCalls; write_calls : WriteCalls; file_clock : N;
  daemon_invoke : option (TerminalCall -> Value -> M D DaemonCommandError Value)
}.

Context (w : Desktop).
Abbreviation Cmd := (M Bench Ending).

Definition told {A} (r : result CommandError A) : Cmd A := lift (map_err Told r).

(** ** The environment catalog *)

(** [catalog_path] *)
Definition catalog_path : result CommandError FilePath :=
  match app_data_dir w with
  | Some directory => Ok (directory ++ [Normal CATALOG_FILE_NAME])
  | None => Err (command_unavailable "Application data directory is unavailable." true)
  end.

Definition on_store {A} (m : FilePath -> Io A) : Cmd A :=
  p ← told catalog_path;
  map_err_m from_halt (zoom disk set_disk (m p)).

(** [environment_store::load_catalog(&catalog_path(&app)?).map_err(from_store)?] *)
Definition get_environment_catalog : Cmd EnvironmentCatalog := on_store load_catalog.

(** [save_environment] *)
Definition save_environment_command (e : DshEnvironment) : Cmd EnvironmentCatalog :=
  throw_if (negb (valid (validate_environment_value e))) (Told (invalid_environment (issues (validate_environment_value e))));;
  told (map_err (fun m => command_error "MALFORMED_MESSAGE" m false) (validate_launch_target e));;
  on_store (fun p => save_environment p e).

(** [set_active_environment] *)
Definition set_active_environment_command (version : N) (i : text) : Cmd EnvironmentCatalog :=
  throw_if (negb (version =? 1)%N || negb (is_valid_id i))
    (Told (command_unavailable "Environment activation request is malformed." false));;
  on_store (fun p => set_active_environment p i).

(** [remove_environment] *)
Definition remove_environment_command (i : text) : Cmd EnvironmentCatalog :=
  throw_if (negb (is_valid_id i)) (Told (command_unavailable "Environment removal request is malformed." false));;
  on_store (fun p => remove_environment p i).

(** ** The surface policy *)

Definition known_environment (missing : string) (i : text) : Cmd DshEnvironment :=
  c ← get_environment_catalog;
  told (ok_or (command_unavailable missing false) (catalog_environment c i)).

(** [get_dsh_surface_policy] *)
Definition get_dsh_surface_policy (version : N) (i : text) : Cmd DshSurfacePolicy :=
  throw_if (negb (version =? 1)%N || negb (is_valid_id i)) (Told malformed_dsh_surface_policy_request);;
  e ← known_environment "DSH Surface policy is unavailable." i;
  told (map_err from_dsh_surface_policy (derive_policy e)).

(** [evaluate_dsh_surface_navigation] *)
Definition evaluate_dsh_surface_navigation (q : DshSurfaceNavigationRequest) : Cmd DshSurfaceNavigationDecision :=
  throw_if (negb (nav_schema_version q =? 1)%N || negb (is_valid_id (nav_environment_id q)))
    (Told malformed_dsh_surface_navigation_request);;
  e ← known_environment "DSH Surface policy is unavailable." (nav_environment_id q);
  mret (evaluate_navigation e q).

(** ** The set-up wizard *)

(** [discover_harnesses], [discover_profiles], [probe_port] *)
Definition discover_harnesses_command `{DiscoveryFs} (q : HarnessDiscoveryRequest) : Cmd HarnessDiscoveryReport :=
  told (map_err (fun _ => malformed_discovery) (discover_harnesses q)).
Definition discover_profiles_command `{DirListing} (q : DiscoverProfilesRequest) : Cmd DiscoverProfilesReport :=
  told (map_err from_setup_assist (discover_profiles q)).
Definition probe_port_command (connect : N -> bool) (q : ProbePortRequest) : Cmd ProbePortReport :=
  told (map_err from_setup_assist (probe_port connect q)).

(** [probe_attached_environment] *)
Definition probe_attached_environment (clock_ms : option N) (connector : N -> N -> Connect) (version : N) (i : text) :
    Cmd AttachedHealthReport :=
  throw_if (negb (version =? 1)%N || negb (is_valid_id i)) (Told malformed_attached_health_request);;
  e ← known_environment "Attached environment is unavailable." i;
  told (map_err from_attached_health (probe_with_connector clock_ms connector e)).

(** ** Files and git *)

(** [if !request.is_valid() ..], then the active environment. *)
Definition with_active {A} (ok : bool) (k : option DshEnvironment -> Cmd A) : Cmd A :=
  throw_if (negb ok) (Told malformed_fs_request);;
  c ← get_environment_catalog;
  k (active_environment c).

(** A question to the files. *)
Definition of_tree {A} (f : Tree -> result FsError A) : Cmd A :=
  t ← gets tree; told (map_err from_fs (f t)).

(** [fs_list_roots], [fs_read_dir], [fs_stat], [fs_read_file], [fs_write_file] *)
Definition fs_list_roots (version : N) : Cmd (list FsRootReport) :=
  with_active (fs_request_valid version None) (fun e => t ← gets tree; mret (list_roots t (working_dir w) e)).
Definition fs_read_dir (version : N) (i relative : text) (show_hidden : bool) : Cmd FsDirReport :=
  with_active (fs_request_valid version (Some i)) (fun e =>
    of_tree (fun t => FileManager.read_dir (look_calls w) t (working_dir w) e i relative show_hidden)).
Definition fs_stat (version : N) (i relative : text) : Cmd FsStatReport :=
  with_active (fs_request_valid version (Some i)) (fun e => of_tree (fun t => stat (look_calls w) t (working_dir w) e i relative)).
Definition fs_read_file (version : N) (i relative : text) : Cmd FsFileReport :=
  with_active (fs_request_valid version (Some i)) (fun e => of_tree (fun t => read_file (look_calls w) t (working_dir w) e i relative)).
Definition fs_write_file (version : N) (i relative content : text) (size modified : option N) (force : bool) :
    Cmd FsStatReport :=
  with_active (fs_request_valid version (Some i)) (fun e =>
    map_err_m (fun x => Told (from_fs x)) (zoom tree set_tree
      (write_file (write_calls w) (file_clock w) (process_id w) (working_dir w) e i relative content
         (baseline size modified) force))).

(** [git_status], [git_diff], [git_log], [git_branches], [git_stage],
    [git_unstage], [git_commit] and [git_discard]: each is valid when its schema
    version is. *)
Definition git_command (version : N) (q : GitPanel.Request) : Cmd GitPanel.Report :=
  with_active (version =? GIT_SCHEMA_VERSION)%N (fun e =>
    map_err_m from_fault (zoom panel set_panel (GitPanel.handle is_dir e q))).

(** ** Notifications and usage *)

(** [let _ = ..] on the collector, when its path is available. *)
Definition count_usage {E A} (m : TrailCalls -> M Collector UsageError A) : M Bench E unit := fun b =>
  match app_data_dir w with
  | Some _ => (Ok tt, set_collector (m (usage_calls w) (collector b)).2 b)
  | None => (Ok tt, b)
  end.

(** [audit_path] and [records_path], which need the data directory only. *)
Definition audit_path : result NotificationError unit := _ ← ok_or AuditUnavailable (app_data_dir w); Ok tt.
Definition records_path : result UsageError unit := _ ← ok_or StoreUnavailable (app_data_dir w); Ok tt.

(** [notify_application] *)
Definition notify_application (version : N) (q : NotificationRequest) : Cmd NotificationReport :=
  throw_if (negb (version =? 1)%N) (Told malformed_notification_request);;
  told (map_err from_notification audit_path);;
  report ← map_err_m (fun x => Told (from_notification x)) (zoom notes set_notes (notify (note_calls w) (note_clock w) q SOURCE_APP));
  (if deduplicated report then mret tt else count_usage (fun calls => record_notification calls (usage_clock w)));;
  mret report.

(** [list_notifications] *)
Definition list_notifications_command : Cmd (list NotificationReport) :=
  told (map_err from_notification audit_path);; gets (fun b => list_notifications (notes b)).

(** [dismiss_notification] *)
Definition dismiss_notification (version : N) (i : text) : Cmd unit :=
  throw_if (negb (version =? 1)%N) (Told malformed_notification_request);;
  map_err_m (fun x => Told (from_notification x)) (zoom notes set_notes (dismiss i)).

(** [active_environment_dsh_home]: an unreadable catalog has no home. *)
Definition active_environment_dsh_home : Cmd (option text) := fun b =>
  match get_environment_catalog b with
  | (Ok c, b) => (Ok (dsh_home <$> active_environment c), b)
  | (Err (Told _), b) => (Ok None, b)
  | (Err x, b) => (Err x, b)
  end.

(** [get_usage_snapshot] *)
Definition get_usage_snapshot (version : N) (since : option N) : Cmd UsageSnapshot :=
  throw_if (negb (version =? 1)%N) (Told malformed_usage_request);;
  told (map_err from_usage records_path);;
  home ← active_environment_dsh_home;
  t ← gets (fun b => ledger (collector b));
  told (map_err from_usage (snapshot_with_dsh t (cost_meter_file w <$> home) since (usage_clock w))).

(** ** Terminals *)

Abbreviation TCmd := (M Bench TerminalCommandError).

(** A call of the terminal proxy over the connector. *)
Definition over_connector {A} (m : (TerminalCall -> Value -> M D DaemonCommandError Value) -> M D TerminalCommandError A) :
    TCmd A :=
  invoke ← lift (ok_or from_daemon_unavailable (daemon_invoke w));
  zoom peer set_peer (m invoke).

(** [create_terminal], [write_terminal], [resize_terminal], [close_terminal],
    [status_terminal], [list_terminals] *)
Definition create_terminal_command (r : TerminalCreateRequest) : TCmd TerminalReport :=
  report ← over_connector (fun invoke => create_terminal invoke r);
  modify (fun b => set_collector (mark_terminal_session_start (usage_clock w) (chars (tr_session_id report)) (collector b)).2 b);;
  mret report.
Definition write_terminal_command (r : TerminalWriteRequest) : TCmd unit :=
  over_connector (fun invoke => write_terminal invoke r).
Definition resize_terminal_command (r : TerminalResizeRequest) : TCmd TerminalReport :=
  over_connector (fun invoke => resize_terminal invoke r).
Definition close_terminal_command (r : TerminalCloseRequest) : TCmd unit :=
  over_connector (fun invoke => close_terminal invoke r);;
  count_usage (fun calls => mark_terminal_session_end calls (usage_clock w) (usage_clock' w) (chars (close_session_id r))).
Definition status_terminal_command (r : TerminalCloseRequest) : TCmd TerminalReport :=
  over_connector (fun invoke => status_terminal invoke r).
Definition list_terminals_command : Bench -> list TerminalReport * Bench := fun b =>
  match daemon_invoke w with
  | Some invoke => let '(l, d) := list_terminals invoke (peer b) in (l, set_peer d b)
  | None => ([], b)
  end.
End Panels.

(** ** The catalog commands against the map

    [spec_command] is what the front end may rely on: the abstract catalog of
    [CatalogSpec] behind the checks of the commands. *)

Inductive CatalogCommand := ShowCatalog | SaveEntry (e : DshEnvironment) | ActivateEntry (version : N) (i : text) | RemoveEntry (i : text).

Definition spec_command `{Fs} `{ExecutableBit} (q : CatalogCommand) (s : Catalog) : result CommandError Catalog :=
  match q with
  | ShowCatalog => Ok s
  | SaveEntry e =>
      if negb (valid (validate_environment_value e)) then Err (invalid_environment (issues (validate_environment_value e)))
      else
        _ ← map_err (fun m => command_error "MALFORMED_MESSAGE" m false) (validate_launch_target e);
        map_err from_store (spec_step (Save e) s)
  | ActivateEntry version i =>
      if negb (version =? 1)%N || negb (is_valid_id i)
      then Err (command_unavailable "Environment activation request is malformed." false)
      else map_err from_store (spec_step (Activate i) s)
  | RemoveEntry i =>
      if negb (is_valid_id i) then Err (command_unavailable "Environment removal request is malformed." false)
      else map_err from_store (spec_step (Remove i) s)
  end.

Section CatalogCommands.
Context {Value D : Type} {G : Git} `{fs : Fs} `{eb : ExecutableBit} {machine : Machine} {json : CatalogJson} {laws : CatalogJsonLaws}.
Abbreviation Bench := (Bench (D := D)).
Abbreviation Desktop := (Desktop (Value := Value) (D := D)).

Definition run_catalog_command (w : Desktop) (q : CatalogCommand) : M Bench Ending EnvironmentCatalog :=
  match q with
  | ShowCatalog => get_environment_catalog w
  | SaveEntry e => save_environment_command w e
  | ActivateEntry version i => set_active_environment_command w version i
  | RemoveEntry i => remove_environment_command w i
  end.

(** The rest of the bench. *)
Definition only_disk (b b' : Bench) : Prop := b' = set_disk (disk b') b.

Context (works : forall i, fault i = Works) (w : Desktop) (dir : FilePath).
Context (found : app_data_dir w = Some dir) (placed : dir <> []).
Abbreviation Shows := (Represents dir CATALOG_FILE_NAME).

Definition agrees (b : Bench) (s : Catalog) (spec : result CommandError Catalog)
    (out : result Ending EnvironmentCatalog * Bench) : Prop :=
  match spec, out with
  | Ok s', (Ok c, b') => abstract c = s' /\ Shows s' (disk b') /\ only_disk b b'
  | Err e, (Err (Told e'), b') => e' = e /\ Shows s (disk b') /\ only_disk b b'
  | _, _ => False
  end.

Lemma on_store_agrees (op : StoreOp) b s :
  Shows s (disk b) -> agrees b s (map_err from_store (spec_step op s)) (on_store w (fun p => run_op p op) b).
Proof.
  intros Hs. unfold on_store, told, catalog_path. rewrite found. unfold_monad. cbn [map_err]. unfold map_err_m, zoom.
  pose proof (run_op_matches works dir CATALOG_FILE_NAME op s (disk b) placed Hs) as Hm.
  destruct (run_op _ op (disk b)) as [[c|[e|]] d'], (spec_step op s) as [s'|e']; cbn in Hm |- *; try done.
  - by destruct Hm.
  - by destruct Hm as [-> ?].
Qed.

Lemma show_agrees b s : Shows s (disk b) -> agrees b s (Ok s) (get_environment_catalog w b).
Proof.
  intros (Hr & c & Hv & <- & Hf). unfold get_environment_catalog, on_store, told, catalog_path. rewrite found.
  unfold_monad. cbn [map_err]. unfold map_err_m, zoom.
  destruct (load_works works dir CATALOG_FILE_NAME c (disk b)) as (d' & -> & Hs); [done |]. cbn.
  split_and!; [done | by apply stored_represents | done].
Qed.

Lemma refused_agrees b s e : Shows s (disk b) -> agrees b s (Err e) (Err (Told e), b).
Proof. intros Hs. split_and!; [done.. |]. by destruct b. Qed.

Lemma catalog_command_agrees q b s : Shows s (disk b) -> agrees b s (spec_command q s) (run_catalog_command w q b).
Proof.
  intros Hs. destruct q as [|e|version i|i]; cbn [run_catalog_command spec_command].
  - by apply show_agrees.
  - unfold save_environment_command, throw_if, told, lift. unfold_monad.
    destruct (negb _); [by apply refused_agrees |].
    destruct (validate_launch_target e) as [[]|m]; cbn [map_err mbind result_bind]; [| by apply refused_agrees].
    by apply (on_store_agrees (Save e)).
  - unfold set_active_environment_command, throw_if. unfold_monad.
    destruct (negb _ || _); [by apply refused_agrees | by apply (on_store_agrees (Activate i))].
  - unfold remove_environment_command, throw_if. unfold_monad.
    destruct (negb _); [by apply refused_agrees | by apply (on_store_agrees (Remove i))].
Qed.
End CatalogCommands.

(** The catalog commands implement the map behind its checks: on a machine whose
    calls work, every command ends as [spec_command] says, with its error or with
    the new catalog, returned and on the disk, and touches nothing else. *)
Theorem catalog_commands_refine_map {Value D : Type} {G : Git} `{fs : Fs} `{eb : ExecutableBit} {machine : Machine} {json : CatalogJson}
    {laws : CatalogJsonLaws} (w : Desktop (Value := Value) (D := D)) (dir : FilePath) (q : CatalogCommand) (s : Catalog)
    (b : Bench (D := D)) :
  (forall i, fault i = Works) -> app_data_dir w = Some dir -> dir <> [] -> Represents dir CATALOG_FILE_NAME s (disk b) ->
  match spec_command q s, run_catalog_command w q b with
  | Ok s', (Ok c, b') => abstract c = s' /\ Represents dir CATALOG_FILE_NAME s' (disk b') /\ only_disk b b'
  | Err e, (Err (Told e'), b') => e' = e /\ Represents dir CATALOG_FILE_NAME s (disk b') /\ only_disk b b'
  | _, _ => False
  end.
Proof. intros Hw Hf Hne Hs. by apply (catalog_command_agrees Hw w dir Hf Hne q b s). Qed.

(** ** Which entries the catalog can have *)

Section Entries.
Context `{fs : Fs} `{eb : ExecutableBit}.

(** The checks a save makes of an environment. *)
Definition checked (e : DshEnvironment) : Prop :=
  valid (validate_environment_value e) = true /\ validate_launch_target e = Ok tt.

(** Every entry passed the checks under its id, and the selected id is an entry. *)
Definition checked_catalog (s : Catalog) : Prop :=
  map_Forall (fun i e => i = Environment.id e /\ checked e) (CatalogSpec.entries s) /\ forall i, selected s = Some i -> is_Some (CatalogSpec.entries s !! i).

Lemma spec_step_checked op s s' :
  checked_catalog s -> match op with Save e => checked e | _ => True end -> spec_step op s = Ok s' -> checked_catalog s'.
Proof.
  intros [He Hsel] Hop. destruct op as [e|i|i]; cbn [spec_step].
  - destruct (negb _); [done |]. destruct (_ && _); [done |]. destruct (bump (rev_no s)) as [r|]; [| done]. intros [= <-]. split; cbn.
    + by apply map_Forall_insert_2.
    + intros i [= <-]. rewrite lookup_insert_eq. eauto.
  - case_bool_decide as Hn; [done |]. case_bool_decide; [by intros [= <-] |].
    destruct (bump (rev_no s)) as [r|]; [| done]. intros [= <-]. split; [done |]. cbn. intros j [= <-]. by apply not_eq_None_Some.
  - case_bool_decide as Hn; [done |]. destruct (bump (rev_no s)) as [r|]; [| done]. intros [= <-]. split; cbn.
    + by apply map_Forall_delete.
    + intros j. case_bool_decide as Hs; [done |]. intros Hj. rewrite lookup_delete_ne by congruence. by apply Hsel.
Qed.

Lemma spec_command_checked q s s' : checked_catalog s -> spec_command q s = Ok s' -> checked_catalog s'.
Proof.
  intros Hs. destruct q as [|e|version i|i]; cbn [spec_command]; [by intros [= <-] | | |].
  - destruct (valid _) eqn:Hv; cbn [negb]; [| done]. destruct (validate_launch_target e) as [[]|] eqn:Hl; [| done]. cbn [map_err mbind result_bind].
    destruct (spec_step (Save e) s) as [s1|] eqn:Hst; [| done]. intros [= <-]. by eapply (spec_step_checked (Save e)).
  - destruct (negb _ || _); [done |]. destruct (spec_step (Activate i) s) as [s1|] eqn:Hst; [| done]. intros [= <-].
    by eapply (spec_step_checked (Activate i)).
  - destruct (negb _); [done |]. destruct (spec_step (Remove i) s) as [s1|] eqn:Hst; [| done]. intros [= <-].
    by eapply (spec_step_checked (Remove i)).
Qed.
End Entries.

(** The commands one after the other, whatever each answers. *)
Definition run_commands {Value D : Type} {G : Git} `{fs : Fs} `{eb : ExecutableBit} {machine : Machine} {json : CatalogJson}
    (w : Desktop (Value := Value) (D := D)) (qs : list CatalogCommand) (b : Bench (D := D)) : Bench (D := D) :=
  foldl (fun b q => (run_catalog_command w q b).2) b qs.

(** Nothing unchecked gets into the catalog: after any sequence of catalog
    commands on a machine whose calls work, every entry has passed validation and
    the launch-target check and stands under its id, and the active environment is
    one of them. *)
Theorem catalog_entries_checked {Value D : Type} {G : Git} `{fs : Fs} `{eb : ExecutableBit} {machine : Machine} {json : CatalogJson}
    {laws : CatalogJsonLaws} (w : Desktop (Value := Value) (D := D)) (dir : FilePath) (qs : list CatalogCommand) (s : Catalog)
    (b : Bench (D := D)) :
  (forall i, fault i = Works) -> app_data_dir w = Some dir -> dir <> [] ->
  Represents dir CATALOG_FILE_NAME s (disk b) -> checked_catalog s ->
  exists s', Represents dir CATALOG_FILE_NAME s' (disk (run_commands w qs b)) /\ checked_catalog s'.
Proof.
  intros Hw Hf Hne. revert s b. induction qs as [|q qs IH]; intros s b Hr Hs; [by exists s |].
  pose proof (catalog_command_agrees Hw w dir Hf Hne q b s Hr) as Ha. unfold agrees in Ha. cbn [run_commands foldl].
  destruct (spec_command q s) as [s'|e] eqn:Hq, (run_catalog_command w q b) as [[c|[e'| |]] b']; try done; destruct Ha as (_ & Hr' & _).
  - apply (IH s'); [done | by eapply spec_command_checked].
  - by apply (IH s).
Qed.

(** ** The panels work on the active environment only *)

Section ActivePanels.
Context {Value D : Type} {G : Git} `{fs : Fs} {machine : Machine} {json : CatalogJson} (w : Desktop (Value := Value) (D := D)).
Abbreviation Bench := (Bench (D := D)).

Lemma get_catalog_frame (b b' : Bench) r : get_environment_catalog w b = (r, b') -> only_disk b b'.
Proof.
  unfold get_environment_catalog, on_store, told, map_err_m, zoom. unfold_monad.
  destruct (map_err Told (catalog_path w)) as [p|]; [| by intros [= _ <-]; destruct b].
  destruct (load_catalog p (disk b)) as [x d]. by intros [= _ <-].
Qed.

(** A command of a panel: either its request is malformed or the catalog cannot
    be read, and only the disk of the catalog saw it, or it runs its operation on
    the active environment of the catalog that was read. *)
Lemma with_active_cases {A} ok (k : option DshEnvironment -> M Bench Ending A) (b b' : Bench) out :
  with_active w ok k b = (out, b') ->
  (only_disk b b' /\ is_ok out = false) \/
  (ok = true /\ exists c b1, get_environment_catalog w b = (Ok c, b1) /\ only_disk b b1 /\ k (active_environment c) b1 = (out, b')).
Proof.
  unfold with_active, throw_if. unfold_monad. destruct ok; cbn [negb]; [| intros [= <- <-]; left; by destruct b].
  destruct (get_environment_catalog w b) as [[c|e] b1] eqn:Hg; pose proof (get_catalog_frame _ _ _ Hg) as Hf.
  - intros Hk. right. split; [done |]. by exists c, b1.
  - intros [= <- <-]. by left.
Qed.
End ActivePanels.

Lemma root_path_none i : is_ok (root_path None i) = false.
Proof. unfold root_path. cbn. by repeat case_bool_decide. Qed.

(** A file command writes only for the active environment: what a save of the
    panel changes lies in one root of the environment the stored catalog calls
    active, at the file the request names or at its temporary name beside it;
    no request changes anything but the files and the count of calls on the
    catalog's disk. *)
Theorem file_command_confined {Value D : Type} {G : Git} `{fs : Fs} {machine : Machine} {json : CatalogJson}
    (w : Desktop (Value := Value) (D := D)) (version : N) (i relative content : text) (size modified : option N) (force : bool)
    (b b' : Bench (D := D)) (out : result Ending FsStatReport) :
  dir_path (tree b) (working_dir w) -> (forall p, tree b !! temp_sibling p "dsh-write" (process_id w) = None) ->
  fs_write_file w version i relative content size modified force b = (out, b') ->
  b' = set_tree (tree b') (set_disk (disk b') b) /\
  (tree b' = tree b \/
   exists c e root r p,
     (get_environment_catalog w b).1 = Ok c /\ active_environment c = Some e /\ root_path (Some e) i = Ok root /\
     resolve_in (tree b) (working_dir w) root relative = Ok (r, p) /\
     forall q, tree b' !! q <> tree b !! q -> (q = p \/ q = temp_sibling p "dsh-write" (process_id w)) /\ r `prefix_of` q).
Proof.
  intros Hc Ht Hw. apply with_active_cases in Hw as [[-> _] | (_ & c & b1 & Hg & Hb1 & Hw)].
  { split; [by destruct b | by left]. }
  rewrite Hg. unfold map_err_m, zoom in Hw.
  destruct (write_file _ _ _ _ _ _ _ _ _ _ (tree b1)) as [x t'] eqn:Hf. injection Hw as <- <-. rewrite Hb1 in Hf |- *. cbn in Hf |- *.
  split; [done |]. unfold write_file in Hf. cbv [mbind M_bind lift] in Hf.
  destruct (root_path (active_environment c) i) as [root|] eqn:Hroot; [| injection Hf as _ <-; by left].
  destruct (active_environment c) as [e|] eqn:He; [| pose proof (root_path_none i) as Hn; by rewrite Hroot in Hn].
  destruct (resolve_in (tree b) (working_dir w) root relative) as [[r p]|] eqn:Hr.
  - right. exists c, e, root, r, p. split_and!; try done. eapply save_effect; [done | done | apply Ht | done].
  - left. unfold write_file_in in Hf. destruct (check_write _ _ _ _ _ _ _ _) as [q|] eqn:Ha; [| by injection Hf as _ <-].
    unfold check_write in Ha. destruct (_ <? _)%N; [done |]. destruct (resolve_with _ _ _ _ _) eqn:Ew; [| done].
    apply resolve_with_ok in Ew. congruence.
Qed.

(** A git command runs git only in the repository of the active environment: when
    the panel ran a command, the request was well formed and the stored catalog
    names an active environment whose source is a repository directory. *)
Theorem git_command_needs_repository {Value D : Type} {G : Git} `{fs : Fs} {machine : Machine} {json : CatalogJson}
    (w : Desktop (Value := Value) (D := D)) (version : N) (q : GitPanel.Request) (b b' : Bench (D := D)) out :
  git_command w version q b = (out, b') ->
  b' = set_panel (panel b') (set_disk (disk b') b) /\
  (panel b' = panel b \/
   version = 1%N /\ exists c e root,
     (get_environment_catalog w b).1 = Ok c /\ active_environment c = Some e /\
     harness_repository_path e = Some root /\ is_dir root = true).
Proof.
  intros Hw. apply with_active_cases in Hw as [[-> _] | (Hv & c & b1 & Hg & Hb1 & Hw)].
  { split; [by destruct b | by left]. }
  rewrite Hg. unfold map_err_m, zoom in Hw.
  destruct (GitPanel.handle _ _ q (panel b1)) as [x t'] eqn:Hf. injection Hw as <- <-. rewrite Hb1 in Hf |- *. cbn in Hf |- *.
  split; [done |]. unfold GitPanel.handle in Hf. cbv [mbind M_bind map_err_m lift] in Hf.
  destruct (GitPanel.repo_root is_dir (active_environment c)) as [root|] eqn:Hroot; [| injection Hf as _ <-; by left].
  right. split; [by apply N.eqb_eq |]. unfold GitPanel.repo_root in Hroot.
  destruct (active_environment c) as [e|] eqn:He; [| done]. cbn in Hroot.
  destruct (harness_repository_path e) as [r|] eqn:Hp; [| done]. cbn in Hroot. destruct (is_dir r) eqn:Hd; [| done]. by exists c, e, r.
Qed.

(** ** Usage beside the answers *)

(** A notification is counted when it was audited, once, and what becomes of the
    count does not show in the answer: the report is that of the registry, and the
    ledger is touched only for a report that was not folded into an earlier one. *)
Theorem notification_counted_once {Value D : Type} {G : Git} {note_codec : LineCodec NotificationRecord}
    {usage_codec : LineCodec UsageRecord} (w : Desktop (Value := Value) (D := D)) (q : NotificationRequest)
    (b : Bench (D := D)) :
  is_Some (app_data_dir w) ->
  let '(r, n) := notify (note_calls w) (note_clock w) q SOURCE_APP (notes b) in
  let '(out, b') := notify_application w 1 q b in
  out = map_err (fun x => Told (from_notification x)) r /\ notes b' = n /\
  (collector b' = collector b \/
   exists rep, r = Ok rep /\ deduplicated rep = false /\
     collector b' = (record_notification (usage_calls w) (usage_clock w) (collector b)).2).
Proof.
  intros [dir Hd]. unfold notify_application, audit_path, told, zoom, count_usage. unfold_monad. rewrite Hd. cbn.
  destruct (notify _ _ q SOURCE_APP (notes b)) as [[rep|e] n]; cbn; [| by split_and!; [..| left]].
  destruct (deduplicated rep) eqn:Hdup; cbn; split_and!; [done | done | by left | done | done |]. right. by exists rep.
Qed.

(** What the terminal proxy answers, the command answers: usage accounting neither
    fails a terminal command nor changes its answer, and the daemon sees the same
    calls. *)
Theorem terminal_answers_unaffected {Value D : Type} {G : Git} {usage_codec : LineCodec UsageRecord} {wire : TerminalProxyWire Value}
    (w : Desktop (Value := Value) (D := D)) (invoke : TerminalCall -> Value -> M D DaemonCommandError Value)
    (b : Bench (D := D)) (rc : TerminalCreateRequest) (rs : TerminalCloseRequest) :
  daemon_invoke w = Some invoke ->
  (let out := create_terminal_command w rc b in (out.1, peer out.2)) = create_terminal invoke rc (peer b) /\
  (let out := close_terminal_command w rs b in (out.1, peer out.2)) = close_terminal invoke rs (peer b).
Proof.
  intros Hi. unfold create_terminal_command, close_terminal_command, over_connector, count_usage, zoom. unfold_monad. rewrite Hi. cbn.
  split.
  - by destruct (create_terminal invoke rc (peer b)) as [[] d].
  - destruct (close_terminal invoke rs (peer b)) as [[[]|] d]; cbn; [| done]. by destruct (app_data_dir w).
Qed.

Section Sessions.
Context {Value D : Type} {G : Git} {wire : TerminalProxyWire Value}.
Context {usage_codec : LineCodec UsageRecord} {st : Storable UsageRecord} {usage_laws : LineCodecLaws UsageRecord}.
Hypothesis costless_storable : forall r : UsageRecord, cost r = None -> storable r.
Abbreviation Bench := (Bench (D := D)).
Abbreviation Desktop := (Desktop (Value := Value) (D := D)).
Abbreviation open_sessions b := (terminal_sessions (usage_core (collector b))).

Lemma create_opens (w : Desktop) rc (b b1 : Bench) report start :
  usage_clock w = Some start -> create_terminal_command w rc b = (Ok report, b1) ->
  open_sessions b1 = or_insert (chars (tr_session_id report)) start (open_sessions b) /\
  ledger (collector b1) = ledger (collector b).
Proof.
  intros Hc. unfold create_terminal_command, over_connector, zoom. unfold_monad.
  destruct (ok_or _ (daemon_invoke w)) as [invoke|]; [| done].
  destruct (create_terminal invoke rc (peer b)) as [[rep|] d]; [| done]. intros [= <- <-]. cbn. by rewrite Hc.
Qed.

Lemma close_records (w : Desktop) rq (b b1 : Bench) rs start finish :
  is_Some (app_data_dir w) -> usage_calls w = all_calls_work -> usage_clock w = Some finish -> usage_clock' w = Some finish ->
  open_sessions b !! chars (close_session_id rq) = Some start -> (start <= finish)%N -> holds rs (ledger (collector b)) ->
  close_terminal_command w rq b = (Ok tt, b1) ->
  open_sessions b1 = delete (chars (close_session_id rq)) (open_sessions b) /\
  holds (newest RECORDS_CAP (rs ++ [record_of (estimate UsageLedger.SOURCE_TERMINAL start finish) finish])) (ledger (collector b1)).
Proof.
  intros [dir Hd] Hu Hc Hc' Hopen Hle Hh. unfold close_terminal_command, over_connector, count_usage, zoom. unfold_monad. rewrite Hd.
  destruct (ok_or _ (daemon_invoke w)) as [invoke|]; [| done].
  destruct (close_terminal invoke rq (peer b)) as [[[]|] d]; [| done]. intros [= <-]. cbn. rewrite Hu, Hc, Hc'.
  unfold mark_terminal_session_end. unfold_monad. rewrite Hopen.
  set (s1 := set_usage _ (collector b)).
  destruct (close_ok costless_storable UsageLedger.SOURCE_TERMINAL start finish s1 rs) as (s2 & -> & _ & Ht & Hl); [by right | done | done |].
  cbn [snd]. by rewrite Ht.
Qed.

(** A terminal session is recorded once, from its creation to its close: when the
    calls of the ledger work, creating a session whose id is not open and closing
    it later appends one estimate over that time, and the open sessions are again
    those from before. *)
Theorem terminal_session_recorded (w w' : Desktop) rc rq (b b1 b2 : Bench) report rs start finish :
  is_Some (app_data_dir w') -> usage_calls w' = all_calls_work ->
  usage_clock w = Some start -> usage_clock w' = Some finish -> usage_clock' w' = Some finish -> (start <= finish)%N ->
  open_sessions b !! chars (tr_session_id report) = None -> holds rs (ledger (collector b)) ->
  create_terminal_command w rc b = (Ok report, b1) -> close_session_id rq = tr_session_id report ->
  close_terminal_command w' rq b1 = (Ok tt, b2) ->
  open_sessions b2 = open_sessions b /\
  holds (newest RECORDS_CAP (rs ++ [record_of (estimate UsageLedger.SOURCE_TERMINAL start finish) finish])) (ledger (collector b2)).
Proof.
  intros Hd Hu Hc Hf Hf' Hle Hnew Hh Hcreate Hid Hclose.
  destruct (create_opens w rc b b1 report start Hc Hcreate) as [Ho Hl]. unfold or_insert in Ho. rewrite Hnew in Ho.
  destruct (close_records w' rq b1 b2 rs start finish) as [Ho2 Hr]; try done.
  - by rewrite Ho, Hid, lookup_insert_eq.
  - by rewrite Hl.
  - split; [| done]. rewrite Ho2, Ho, Hid. by rewrite delete_insert_id.
Qed.
End Sessions.

(** ** A bench *)

Module LocalBench.
Import LocalShell LocalCatalog.

#[export] Instance bits : ExecutableBit := fun p => bool_decide (p = txt "/opt/dsh").
(** Git that counts its runs. *)
#[export] Instance counting_git : Git :=
  {| Repo := nat; git := fun _ n => (Ok {| success := true; stdout := []; stderr := [] |}, S n) |}.
#[export] Existing Instance sound.

Definition sees : LookCalls := {| root_ok := true; target_ok := true; metadata_ok := true; contents_ok := true |}.
Definition no_writes : WriteCalls :=
  {| before := sees; create_ok := false; written := None; FileManager.sync_ok := false; rename_ok := false; remove_ok := false;
     again := sees |}.
Definition desktop : Desktop (Value := N) (D := nat) :=
  {| app_data_dir := Some LocalCatalog.dir; note_calls := all_calls_work; usage_calls := all_calls_work;
     note_clock := Some 5%N; usage_clock := Some 5%N; usage_clock' := Some 5%N; cost_meter_file := fun _ => None;
     working_dir := []; process_id := 7; look_calls := sees; write_calls := no_writes; file_clock := 5; daemon_invoke := None |}.
Definition bench : Bench (D := nat) :=
  {| disk := LocalCatalog.empty; tree := ∅; panel := {| repo := 0%nat; ran := [] |}; notes := Notification.initial;
     collector := new_collector; peer := 0%nat |}.

Lemma empty_shown : Represents LocalCatalog.dir CATALOG_FILE_NAME (abstract default_catalog) (disk bench).
Proof.
  split.
  - split; [apply List.Forall_forall; intros a _; apply lookup_empty | by split_and!].
  - exists default_catalog. by split_and!.
Qed.

Lemma catalog_commands_refine_map_witness :
  match run_catalog_command desktop (SaveEntry env) bench with
  | (Ok c, b') => selected (abstract c) = Some (txt "local") /\ only_disk bench b'
  | _ => False
  end.
Proof.
  pose proof (catalog_commands_refine_map desktop LocalCatalog.dir (SaveEntry env) (abstract default_catalog) bench
    (fun _ => eq_refl) eq_refl ltac:(discriminate) empty_shown) as H.
  assert (Hs : spec_command (SaveEntry env) (abstract default_catalog) =
    Ok {| CatalogSpec.entries := {[Environment.id env := env]}; selected := Some (txt "local"); rev_no := 1 |}) by (by vm_compute).
  rewrite Hs in H. destruct (run_catalog_command desktop (SaveEntry env) bench) as [[c|[]] b']; try done.
  destruct H as (-> & _ & Hf). by split.
Defined.

Lemma catalog_entries_checked_witness :
  exists s', Represents LocalCatalog.dir CATALOG_FILE_NAME s'
    (disk (run_commands desktop [SaveEntry env; ActivateEntry 1 (txt "local"); RemoveEntry (txt "other")] bench)) /\ checked_catalog s'.
Proof.
  apply (catalog_entries_checked desktop LocalCatalog.dir _ (abstract default_catalog)); [done | done | discriminate | apply empty_shown |].
  split; [apply map_Forall_empty | done].
Defined.

(** The same mistake, an id that is not in the catalog, is told in two ways: a
    removal says that it was not found, an activation that the request was
    malformed because of an invalid environment. *)
Definition told_code {A} (r : result Ending A) : option string :=
  match r with Err (Told e) => Some (ce_code e) | _ => None end.
Example unknown_environment_told_twice :
  told_code (run_catalog_command desktop (RemoveEntry (txt "other")) bench).1 = Some "NOT_FOUND"%string /\
  told_code (run_catalog_command desktop (ActivateEntry 1 (txt "other")) bench).1 = Some "MALFORMED_MESSAGE"%string /\
  told_code (run_catalog_command desktop (ActivateEntry 2 (txt "other")) bench).1 = Some "UNAVAILABLE"%string.
Proof. vm_compute. split_and!; reflexivity. Qed.

(** Without an active environment no git runs. *)
Lemma git_command_needs_repository_witness :
  ran (panel (git_command desktop 1 GitPanel.GitStatus bench).2) = [].
Proof.
  destruct (git_command desktop 1 GitPanel.GitStatus bench) as [out b'] eqn:E.
  cbn [snd]. destruct (git_command_needs_repository desktop 1 GitPanel.GitStatus bench b' out E) as [_ [-> | (_ & c & e & r & Hc & He & _)]]; [done |].
  exfalso. assert (Hn : is_ok (get_environment_catalog desktop bench).1 && negb (bool_decide (is_Some (active_environment
    (match (get_environment_catalog desktop bench).1 with Ok c => c | Err _ => default_catalog end)))) = true) by (by vm_compute).
  rewrite Hc in Hn. cbn [is_ok andb] in Hn. rewrite He in Hn. rewrite bool_decide_true in Hn by eauto. discriminate Hn.
Defined.

(** A daemon that grants every terminal call, and a session from 5 to 9: its close
    is asked for twice and recorded once. *)
Definition granted_report : TerminalReport :=
  {| tr_schema_version := 1; tr_session_id := "pty-1"; tr_state := "running"; tr_mode := "human_surface"; tr_cols := 80;
     tr_rows := 24; tr_created_at := 5; tr_last_activity := None; tr_error := None |}.
#[export] Instance granting : TerminalProxyWire N :=
  {| create_to_value := fun _ => 0%N; write_to_value := fun _ => 0%N; resize_to_value := fun _ => 0%N; close_to_value := fun _ => 0%N;
     status_request := 0%N; report_from_value := fun _ => Some granted_report; sessions_from_value := fun _ => None |}.
Definition at_time (now : N) : Desktop (Value := N) (D := nat) :=
  {| app_data_dir := Some LocalCatalog.dir; note_calls := all_calls_work; usage_calls := all_calls_work;
     note_clock := Some now; usage_clock := Some now; usage_clock' := Some now; cost_meter_file := fun _ => None;
     working_dir := []; process_id := 7; look_calls := sees; write_calls := no_writes; file_clock := now;
     daemon_invoke := Some (fun _ v n => (Ok v, S n)) |}.
Definition new_terminal : TerminalCreateRequest :=
  {| create_schema_version := 1; create_mode := "human_surface"; create_cols := 80; create_rows := 24; create_shell := None;
     create_cwd := None; create_agent := None |}.
Definition that_terminal : TerminalCloseRequest := {| close_schema_version := 1; close_session_id := "pty-1" |}.
Definition opened : Bench (D := nat) := (create_terminal_command (at_time 5) new_terminal bench).2.
Definition closed : Bench (D := nat) := (close_terminal_command (usage_codec := LocalUsage.codec) (at_time 9) that_terminal opened).2.
Definition closed_again : Bench (D := nat) := (close_terminal_command (usage_codec := LocalUsage.codec) (at_time 11) that_terminal closed).2.

Lemma terminal_session_recorded_witness :
  terminal_sessions (usage_core (collector closed)) = ∅.
Proof.
  refine (proj1 (terminal_session_recorded (st := LocalUsage.costless) (usage_laws := LocalUsage.laws) (fun r (H : cost r = None) => H)
    (at_time 5) (at_time 9) new_terminal that_terminal bench opened closed granted_report [] 5 9 _ _ _ _ _ _ _ _ _ _ _));
    try reflexivity; [by eexists | lia | split; [constructor | by exists []]].
Defined.

Example double_close_recorded_once :
  map (fun r => (UsageLedger.source r, recorded_at_unix_ms r)) (read_records (R := UsageRecord) (codec := LocalUsage.codec) (ledger (collector closed_again)))
  = [(UsageLedger.SOURCE_TERMINAL, 9%N)].
Proof. vm_compute. reflexivity. Qed.
End LocalBench.
