(* ===== verification/AgentRegisters.v ===== *)
(** * The Shell's agent registers

    Model of [BrokerState] of [apps/desktop/src-tauri/src/agent_broker.rs]: the
    broker with the two registers the Shell keeps beside it, which agent holds an
    activation and which activations act on a session.  The locks are taken one
    after the other and never poisoned. *)
From Stdlib Require Import NArith ZArith Lia.
From stdpp Require Import base strings gmap list option relations.
From S2P Require Import Prelude Broker BrokerFacts AgentBridge BrokerInvariants BrokerProps.

Inductive BrokerSurfaceError := UnknownActivation | SurfaceBroker (e : BrokerError).

(** [protocol_code], [retryable], [message] *)
Definition surface_protocol_code (e : BrokerSurfaceError) : string :=
  match e with UnknownActivation => "UNAUTHORIZED" | SurfaceBroker e => protocol_code e end.
Definition surface_retryable (e : BrokerSurfaceError) : bool :=
  match e with UnknownActivation => false | SurfaceBroker e => retryable e end.
Definition surface_message (e : BrokerSurfaceError) : string :=
  match e with
  | UnknownActivation => "agent activation is unknown or taken over"
  | SurfaceBroker UnknownCapability => "browser capability is not granted"
  | SurfaceBroker UnknownProvider => "browser provider is not registered"
  | SurfaceBroker NotGranted => "not granted for this agent"
  | SurfaceBroker LeaseExpired => "agent lease expired"
  | SurfaceBroker LeaseRevoked => "agent lease revoked"
  | SurfaceBroker ScopeMismatch => "agent scope does not cover this session"
  | SurfaceBroker GenerationMismatch => "stale generation"
  | SurfaceBroker Conflict => "broker state conflict"
  end.

Section Registers.
Context {Value C : Type} `{!Clock C}.
Abbreviation Broker := (Broker Value C).

Record BrokerState := {
  inner : Broker;
  activation_owners : gmap string string;
  session_bindings : gmap string (list string)
}.

Definition set_inner (b : Broker) (s : BrokerState) : BrokerState :=
  {| inner := b; activation_owners := activation_owners s; session_bindings := session_bindings s |}.
Definition set_owners (f : gmap string string -> gmap string string) (s : BrokerState) : BrokerState :=
  {| inner := inner s; activation_owners := f (activation_owners s); session_bindings := session_bindings s |}.
Definition set_session_bindings (f : gmap string (list string) -> gmap string (list string)) (s : BrokerState) : BrokerState :=
  {| inner := inner s; activation_owners := activation_owners s; session_bindings := f (session_bindings s) |}.

(** [bindings.entry(session).or_default()], and the push of a new activation. *)
Definition bind_session (sid aid : string) : BrokerState -> BrokerState :=
  set_session_bindings (fun m =>
    let l := default [] (m !! sid) in <[sid := if bool_decide (aid ∈ l) then l else l ++ [aid]]> m).

(** [grant_from_negotiation] *)
Definition grant_from_negotiation (agent : string) (r : AgentNegotiationResult) : M BrokerState AgentBridgeError AgentGrant :=
  g ← zoom inner set_inner (broker_grant_from_negotiation agent r);
  modify (set_owners (insert (ag_activation_id g) agent));;
  match Broker.session_id (ag_scope g) with
  | Some sid => modify (bind_session sid (ag_activation_id g))
  | None => mret tt
  end;;
  mret g.

(** [enforce_mutation] *)
Definition session_scope (sid : string) : Scope :=
  {| Broker.session_id := Some sid; workspace := None; domains := []; resources := [] |}.
Definition enforce_mutation (aid : string) (cap : CapabilityId) (sid : string) : M BrokerState BrokerSurfaceError unit :=
  owner ← gets (fun s => activation_owners s !! aid);
  agent ← lift (ok_or UnknownActivation owner);
  current ← gets (fun s => agent_generation (inner s) agent aid);
  generation ← lift (ok_or UnknownActivation current);
  map_err_m SurfaceBroker (zoom inner set_inner (enforce_dispatch cap agent generation (session_scope sid)));;
  modify (bind_session sid aid).

(** The loop of [revoke_for_session]: the leases revoked so far. *)
Fixpoint revoke_each (revoked : nat) (aids : list string) (s : BrokerState) : nat * BrokerState :=
  match aids with
  | [] => (revoked, s)
  | aid :: aids =>
      let '(count, b) := revoke_agent_grants (E := Empty_set) aid HumanTakeover (inner s) in
      revoke_each (revoked + match count with Ok n => n | Err e => match e with end end) aids
        (set_owners (delete aid) (set_inner b s))
  end.

(** [revoke_for_session] *)
Definition revoke_for_session (sid : string) (s : BrokerState) : nat * BrokerState :=
  let '(revoked, s) := revoke_each 0 (default [] (session_bindings s !! sid)) s in
  (revoked, set_session_bindings (delete sid) s).

(** [activation_revoked] *)
Definition activation_revoked (s : BrokerState) (agent aid : string) : bool := agent_activation_revoked (inner s) agent aid.

(** ** Histories *)

Inductive register_op :=
| RGrant (agent : string) (r : AgentNegotiationResult)
| REnforce (aid : string) (cap : CapabilityId) (sid : string)
| RRevoke (sid : string)
| RClock (c : C).

Definition run_register (s : BrokerState) (o : register_op) : BrokerState :=
  match o with
  | RGrant agent r => (grant_from_negotiation agent r s).2
  | REnforce aid cap sid => (enforce_mutation aid cap sid s).2
  | RRevoke sid => (revoke_for_session sid s).2
  | RClock c => set_inner (set_clock c (inner s)) s
  end.
Definition run_registers (s : BrokerState) (os : list register_op) : BrokerState := fold_left run_register os s.

(** The state at the start. *)
Definition new_state (c : C) : BrokerState := {| inner := with_clock c; activation_owners := ∅; session_bindings := ∅ |}.
End Registers.

(** ** A takeover through the registers *)

Section Facts.
Context {Value C : Type} `{!Clock C}.
Abbreviation State := (BrokerState (Value := Value) (C := C)).
Implicit Types s : State.

Definition registered s : Prop :=
  forall aid agent, activation_owners s !! aid = Some agent -> is_Some (activations_of (inner s) agent !! aid).

(** The activation is out of the register and revoked for the agent. *)
Definition taken (aid agent : string) s : Prop :=
  activation_owners s !! aid = None /\
  exists st, activations_of (inner s) agent !! aid = Some st /\ act_revoked st = true.

Lemma negotiate_register_le agent r (b : Broker Value C) : register_le b (broker_grant_from_negotiation agent r b).2.
Proof. exact (run_op_register_le (OpNegotiate agent r) b). Qed.
Lemma agent_revoke_le aid why (b : Broker Value C) : register_le b (revoke_agent_grants (E := Empty_set) aid why b).2.
Proof. exact (run_op_register_le (OpRevokeAgent aid why) b). Qed.
Lemma enforce_register_le cap owner gen sc (b : Broker Value C) : register_le b (enforce_dispatch cap owner gen sc b).2.
Proof. exact (run_op_register_le (OpEnforce cap owner gen sc) b). Qed.

(** What a grant leaves. *)
Lemma grant_from_negotiation_run agent r s :
  exists res b, broker_grant_from_negotiation agent r (inner s) = (res, b) /\ register_le (inner s) b /\
    inner (grant_from_negotiation agent r s).2 = b /\
    match res with
    | Ok g => ag_activation_id g = neg_activation_id r /\
              activations_of b agent !! neg_activation_id r = Some {| act_generation := ag_generation g; act_revoked := false |} /\
              activation_owners (grant_from_negotiation agent r s).2 = <[neg_activation_id r := agent]> (activation_owners s)
    | Err _ => activation_owners (grant_from_negotiation agent r s).2 = activation_owners s
    end.
Proof.
  pose proof (negotiate_register_le agent r (inner s)) as Hle.
  destruct (broker_grant_from_negotiation agent r (inner s)) as [res b] eqn:Hb. exists res, b. split; [done |]. split; [done |].
  unfold grant_from_negotiation, zoom. cbv [mbind M_bind]. rewrite Hb. destruct res as [g|]; [| done].
  apply negotiate_established in Hb as [E _].
  assert (Ha : ag_activation_id g = neg_activation_id r) by (by destruct (est_constraints _ _ _ _ E) as (c & _ & _ & ->)).
  rewrite <- Ha. cbn. destruct (Broker.session_id (ag_scope g)); cbn; (split_and!; [done | done | | done]); rewrite Ha; apply E.
Qed.

Lemma enforce_mutation_frame aid cap sid s :
  activation_owners (enforce_mutation aid cap sid s).2 = activation_owners s /\
  register_le (inner s) (inner (enforce_mutation aid cap sid s).2).
Proof.
  unfold enforce_mutation, gets, lift, map_err_m, zoom. cbv [mbind M_bind].
  destruct (activation_owners s !! aid) as [agent|]; cbn; [| by split].
  destruct (agent_generation (inner s) agent aid) as [gen|]; cbn; [| by split].
  pose proof (enforce_register_le cap agent gen (session_scope sid) (inner s)) as Hle.
  by destruct (enforce_dispatch cap agent gen (session_scope sid) (inner s)) as [[]].
Qed.

(** What the loop of a takeover leaves. *)
Lemma revoke_each_spec aids n s :
  let s' := (revoke_each n aids s).2 in
  register_le (inner s) (inner s') /\
  (forall aid, activation_owners s' !! aid = if bool_decide (aid ∈ aids) then None else activation_owners s !! aid) /\
  (forall aid agent st, aid ∈ aids -> activations_of (inner s) agent !! aid = Some st ->
     exists st', activations_of (inner s') agent !! aid = Some st' /\ act_revoked st' = true).
Proof.
  revert n s. induction aids as [|a aids IH]; intros n s; cbn [revoke_each].
  { split_and!; [done | done | by intros aid agent st ?%elem_of_nil]. }
  pose proof (agent_revoke_le a HumanTakeover (inner s)) as Hle.
  destruct (revoke_agent_grants_run (E := Empty_set) a HumanTakeover (inner s)) as (t & c & Hrun).
  assert (Hmark : forall agent st, activations_of (inner s) agent !! a = Some st ->
    exists st', activations_of (revoke_agent_grants (E := Empty_set) a HumanTakeover (inner s)).2 agent !! a = Some st' /\
      act_revoked st' = true).
  { intros agent st Hst. rewrite Hrun. cbn [snd].
    destruct (revoke_targets_marks a {| reason := HumanTakeover; at_unix_ms := t |} (activation_targets (inner s) a)
                (set_clock c (inner s)) agent (act_generation st) st) as (st' & ? & _ & ?); [| done | eauto].
    by apply activation_targets_elem. }
  destruct (revoke_agent_grants a HumanTakeover (inner s)) as [count b]. cbn [snd] in *.
  cbn zeta. match goal with |- context [revoke_each ?m aids ?s1] => destruct (IH m s1) as (Hle' & Hown & Hrev) end.
  cbn [inner activation_owners set_owners set_inner] in *.
  split_and!; [by etrans | |].
  - intros aid. rewrite Hown. destruct (decide (aid = a)) as [->|Hne].
    + rewrite lookup_delete_eq, (bool_decide_eq_true_2 (a ∈ a :: aids)) by (by left). by case_bool_decide.
    + rewrite lookup_delete_ne by done. assert (Hiff : aid ∈ a :: aids <-> aid ∈ aids) by (rewrite elem_of_cons; naive_solver).
      by rewrite (bool_decide_ext _ _ Hiff).
  - intros aid agent st [-> | Hin]%elem_of_cons Hst; [| destruct (Hle agent aid st Hst) as (st1 & Hst1 & _); by eapply Hrev].
    destruct (Hmark agent st Hst) as (st1 & Hst1 & Hr1). destruct (Hle' agent a st1 Hst1) as (st2 & ? & _ & ?). eauto.
Qed.

Lemma revoke_for_session_frame sid s :
  inner (revoke_for_session sid s).2 = inner (revoke_each 0 (default [] (session_bindings s !! sid)) s).2 /\
  activation_owners (revoke_for_session sid s).2 = activation_owners (revoke_each 0 (default [] (session_bindings s !! sid)) s).2.
Proof. unfold revoke_for_session. by destruct (revoke_each _ _ _). Qed.

(** The broker's own register only grows, and revocations stay. *)
Lemma run_register_le s o : register_le (inner s) (inner (run_register s o)).
Proof.
  destruct o as [agent r | aid cap sid | sid | c]; cbn [run_register].
  - destruct (grant_from_negotiation_run agent r s) as (res & b & _ & Hle & -> & _). done.
  - apply enforce_mutation_frame.
  - destruct (revoke_for_session_frame sid s) as [-> _]. apply revoke_each_spec.
  - intros agent aid st Hst. by exists st.
Qed.

Lemma registered_step s o : registered s -> registered (run_register s o).
Proof.
  intros Hr aid agent Ho.
  assert (Hkeep : activation_owners s !! aid = Some agent -> is_Some (activations_of (inner (run_register s o)) agent !! aid)).
  { intros [st Hst]%Hr. destruct (run_register_le s o agent aid st Hst) as (st' & -> & _). done. }
  destruct o as [agent' r | aid' cap sid | sid | c]; cbn [run_register] in *; [| | | by apply Hkeep].
  - destruct (grant_from_negotiation_run agent' r s) as (res & b & _ & _ & Hi & Hres). rewrite Hi in *.
    destruct res as [g|]; [| rewrite Hres in Ho; by apply Hkeep]. destruct Hres as (_ & Hst & Hown). rewrite Hown in Ho.
    apply lookup_insert_Some in Ho as [[<- <-] | [_ Ho]]; [by rewrite Hst | by apply Hkeep].
  - destruct (enforce_mutation_frame aid' cap sid s) as [Hown _]. rewrite Hown in Ho. by apply Hkeep.
  - destruct (revoke_for_session_frame sid s) as [_ Hown]. rewrite Hown in Ho.
    destruct (revoke_each_spec (default [] (session_bindings s !! sid)) 0 s) as (_ & Ho' & _). rewrite Ho' in Ho.
    case_bool_decide; [done | by apply Hkeep].
Qed.

(** A revoked activation is not granted to its agent again. *)
Lemma revoked_not_granted agent r (b : Broker Value C) st :
  activations_of b agent !! neg_activation_id r = Some st -> act_revoked st = true ->
  is_ok (broker_grant_from_negotiation agent r b).1 = false.
Proof.
  intros Hst Hrev. pose proof (negotiate_register_le agent r b agent _ st Hst) as (st' & Hst' & _ & Hr').
  destruct (broker_grant_from_negotiation agent r b) as [[g|] b'] eqn:Hb; [| done]. exfalso.
  apply negotiate_established in Hb as [E _]. cbn in Hst'. pose proof (est_register _ _ _ _ E) as He.
  rewrite He in Hst'. injection Hst' as <-. by specialize (Hr' Hrev).
Qed.

(** No other agent is granted the same activation. *)
Definition same_holder (aid agent : string) (o : register_op (C := C)) : Prop :=
  match o with RGrant a r => neg_activation_id r = aid -> a = agent | _ => True end.

Lemma taken_step aid agent s o : same_holder aid agent o -> taken aid agent s -> taken aid agent (run_register s o).
Proof.
  intros Ho [Hnone (st & Hst & Hrev)]. split.
  2:{ destruct (run_register_le s o agent aid st Hst) as (st' & ? & _ & ?). eauto. }
  destruct o as [agent' r | aid' cap sid | sid | c]; cbn [run_register same_holder] in *; [| | | done].
  - destruct (grant_from_negotiation_run agent' r s) as (res & b & Hb & _ & _ & Hres).
    destruct res as [g|]; [| by rewrite Hres]. destruct Hres as (_ & _ & ->).
    destruct (decide (neg_activation_id r = aid)) as [Heq|Hne]; [| by rewrite lookup_insert_ne].
    exfalso. specialize (Ho Heq). subst aid agent'. pose proof (revoked_not_granted agent r (inner s) st Hst Hrev) as H.
    by rewrite Hb in H.
  - destruct (enforce_mutation_frame aid' cap sid s) as [-> _]. done.
  - destruct (revoke_for_session_frame sid s) as [_ ->].
    destruct (revoke_each_spec (default [] (session_bindings s !! sid)) 0 s) as (_ & -> & _). by case_bool_decide.
Qed.

Lemma runs_keep (P : State -> Prop) (ok : register_op (C := C) -> Prop) s os :
  (forall s o, ok o -> P s -> P (run_register s o)) -> Forall ok os -> P s -> P (run_registers s os).
Proof.
  intros Hstep. revert s. induction os as [|o os IH]; intros s Hf Hs; [done |].
  apply Forall_cons in Hf as [Ho Hf]. apply IH; [done |]. by apply Hstep.
Qed.

(** A human takeover through the Shell's registers is final: after it, none
    of the activations that acted on the session authorizes anything, on that
    session or another, whatever grants, mutations and takeovers follow, as long
    as the activation is not issued to a different agent. *)
Theorem register_takeover_final c before sid aid agent after cap sid' :
  let s : State := run_registers (new_state c) before in
  aid ∈ default [] (session_bindings s !! sid) -> activation_owners s !! aid = Some agent ->
  Forall (same_holder aid agent) after ->
  let s' := run_registers (revoke_for_session sid s).2 after in
  enforce_mutation aid cap sid' s' = (Err UnknownActivation, s') /\ activation_revoked s' agent aid = true.
Proof.
  intros s Hin Hown Hafter s'.
  assert (Hreg : registered s).
  { apply (runs_keep registered (fun _ => True)); [intros; by apply registered_step | by apply Forall_true | done]. }
  assert (Ht : taken aid agent s').
  { apply (runs_keep _ (same_holder aid agent)); [apply taken_step | done |].
    destruct (revoke_for_session_frame sid s) as [Hi Ho].
    destruct (revoke_each_spec (default [] (session_bindings s !! sid)) 0 s) as (_ & Hown' & Hrev).
    destruct (Hreg aid agent Hown) as [st Hst]. split; [rewrite Ho, Hown'; by rewrite bool_decide_eq_true_2 |].
    rewrite Hi. by eapply Hrev. }
  destruct Ht as [Hnone (st & Hst & Hr)]. split.
  - unfold enforce_mutation, gets, lift. cbv [mbind M_bind]. by rewrite Hnone.
  - unfold activation_revoked, agent_activation_revoked. unfold activations_of in Hst.
    destruct (agent_activations (inner s') !! agent) as [m|]; cbn in *; [by rewrite Hst |]. by rewrite lookup_empty in Hst.
Qed.
End Facts.

(** ** A desk with two agents *)

Module LocalRegisters.

Definition browser : CapabilityId := {| Broker.api_version := "browser.dsh-desktop.local/v1alpha1"; Broker.kind := "Browser" |}.
Definition terminal : CapabilityId := {| Broker.api_version := "terminal.dsh-desktop.local/v1alpha1"; Broker.kind := "Terminal" |}.
Definition offer_of (cap : CapabilityId) (aid sid : string) : AgentNegotiationResult :=
  {| neg_activation_id := aid; neg_agreed := true; neg_granted := [cap]; neg_conformance := Known;
     neg_lease_constraints := Some {| AgentBridge.max_seconds := 3600; AgentBridge.approval_required := None |};
     neg_scope := session_scope sid |}.
Definition offer : string -> string -> AgentNegotiationResult := offer_of browser.

Definition acting : list (register_op (C := N)) := [RGrant "agent-1" (offer "act-1" "brw-1"); REnforce "act-1" browser "brw-1"].
Definition working : BrokerState (Value := unit) (C := N) := run_registers (new_state 1000%N) acting.

Lemma register_takeover_final_witness :
  let s' := run_registers (revoke_for_session "brw-1" working).2 [RGrant "agent-1" (offer "act-1" "brw-1")] in
  enforce_mutation "act-1" browser "brw-1" working = (Ok tt, working) /\
  (enforce_mutation "act-1" browser "brw-1" s').1 = Err UnknownActivation.
Proof.
  split; [vm_compute; reflexivity |].
  exact (f_equal fst (proj1 (register_takeover_final (Value := unit) 1000%N acting "brw-1" "act-1" "agent-1" [RGrant "agent-1" (offer "act-1" "brw-1")]
                    browser "brw-1" ltac:(apply (bool_decide_unpack _); vm_compute; exact I) ltac:(vm_compute; reflexivity)
                    ltac:(by repeat constructor)))).
Defined.

(** The same activation id, issued to another agent after the takeover. *)
Example reissued_activation_acts :
  let s := run_registers (revoke_for_session "brw-1" working).2
             [RGrant "agent-2" (offer_of terminal "act-1" "brw-1")] in
  (enforce_mutation "act-1" terminal "brw-1" s).1 = Ok tt.
Proof. vm_compute. reflexivity. Qed.
End LocalRegisters.
