(* ===== verification/ExampleApi.v ===== *)
(** * The external API example

    Model of [crates/external-api-example]: the envelope server of [server.rs]
    (negotiation, authorization, dispatch, the serving loop) and the client of
    [client.rs], with the coordinates of [catalog.rs].  The crate's own
    [envelope.rs] has the text of the daemon's, so the wire types, the validation
    and [unique_token] are those of [Envelope] and [DaemonServer].

    A process has a counter of message ids and a clock ([Process]).  The server's
    functions run on an [Endpoint], a process and the session of one connection;
    the client's on an [ExampleClient], over a transport that is an interface.

    The server is then specified by a pure decision on each envelope ([reaction]),
    which [handle_envelope] is shown to carry out.  From that: a capability the
    policy does not grant is never served, whatever the peer sends; and the client
    over a link to the server gets exactly the answers the policy says. *)
From Stdlib Require Import NArith ZArith Ascii Lia Strings.Byte.
From S2P Require Import Prelude Text Json Civil Timestamps Framing Credential Broker Envelope EnvelopeFacts Dispatch.
From S2P Require Import DaemonServer ReplyFacts DaemonClientFacts.
From stdpp Require Import base strings gmap list option countable.

(** ** [catalog.rs] *)

Definition SYSTEM_API_VERSION : string := "system.dsh-desktop.local/v1alpha1".
Definition SYSTEM_KIND : string := "System".
Definition SYSTEM_PING_METHOD : string := "ping".
Definition BROWSER_API_VERSION : string := "browser.dsh-desktop.local/v1alpha1".
Definition BROWSER_KIND : string := "Browser".
Definition BROWSER_LIST_METHOD : string := "list_browsers".

Definition system : ProtocolCoordinate :=
  {| Envelope.api_version := SYSTEM_API_VERSION; coordinate_kind := SYSTEM_KIND |}.
Definition browser : ProtocolCoordinate :=
  {| Envelope.api_version := BROWSER_API_VERSION; coordinate_kind := BROWSER_KIND |}.

(** ** State *)

Definition SERVER_COMPONENT : string := "dsh-desktop-shell".
Definition SERVER_FACET : string := "external-api-example".

Record Activation := {
  act_id : string; act_granted : list ProtocolCoordinate; act_hello_id : string
}.

Record SessionState := {
  activations : gmap string Activation; seen_ids : gset string; next_generation : N
}.

(** [SessionState::new] *)
Definition new_session : SessionState := {| activations := ∅; seen_ids := ∅; next_generation := 0 |}.

Record GrantPolicy := { grantable : list ProtocolCoordinate }.

(** [GrantPolicy::default] *)
Definition default_policy : GrantPolicy := {| grantable := [system] |}.

(** What the code asks of [serde_json] besides [Serde] and [EnvelopeWire]: the
    serializers of the two negotiation payloads and of an envelope. *)
Class ExampleWire := {
  hello_value : HelloPayload -> Value;
  agreement_value : AgreementPayload -> Value;
  envelope_to_vec : Envelope Value -> list byte
}.

Abbreviation Env := (Envelope Value).

(** ** Stamps *)

(** What a process stamps its envelopes from. *)
Record Process (C : Type) := { id_counter : N; clock : C }.
Arguments id_counter {C} _.
Arguments clock {C} _.

Section Stamps.
Context {C E : Type} `{!Clock C}.

(** [SystemTime::now()], in nanoseconds since the epoch. *)
Definition stamp : M (Process C) E N := fun p =>
  let '(t, c) := clock_read (clock p) in (Ok t, {| id_counter := id_counter p; clock := c |}).

(** [unique_token] *)
Definition new_token (prefix : string) : M (Process C) E string :=
  nanos ← stamp;
  n ← update (fun p => (id_counter p, {| id_counter := u64_add (id_counter p) 1; clock := clock p |}));
  mret (unique_token prefix nanos n).

(** [new_message_id], [new_activation_id], [now_timestamp] *)
Definition new_message_id : M (Process C) E string := new_token "msg".
Definition new_activation_id : M (Process C) E string := new_token "act".
Definition now_timestamp : M (Process C) E string :=
  t ← stamp;
  mret (String.string_of_list_ascii (now_timestamp_like (Z.of_N (t / 1000000)))).
End Stamps.

(** ** The server *)

Record Endpoint (C : Type) := { process : Process C; session : SessionState }.
Arguments process {C} _.
Arguments session {C} _.

Section Server.
Context {C : Type} `{!Clock C} `{!Serde Value} `{wire : !ExampleWire} `{!EnvelopeWire Value}.

(** A computation of the server does not fail. *)
Definition Srv (A : Type) : Type := M (Endpoint C) Empty_set A.

Definition stamped {A} (x : M (Process C) Empty_set A) : Srv A :=
  zoom process (fun p s => {| process := p; session := session s |}) x.

Definition on_session {A} (f : SessionState -> A * SessionState) : Srv A :=
  update (fun s => let '(a, st) := f (session s) in (a, {| process := process s; session := st |})).

(** [state.next_generation] and its increment. *)
Definition take_generation : Srv N :=
  on_session (fun st => (next_generation st,
    {| activations := activations st; seen_ids := seen_ids st;
       next_generation := u64_add (next_generation st) 1 |})).

(** [self.participant] *)
Definition server_participant (a : option string) : Participant :=
  {| component := SERVER_COMPONENT; facet := SERVER_FACET; participant_activation := a |}.

(** [error_result] *)
Definition error_result (correlation reply : string) (cap : option ProtocolCoordinate) (m : option string)
    (c : ErrorCode) (message : string) (retry : bool) : Srv Env :=
  g ← take_generation;
  id ← stamped new_message_id;
  t ← stamped now_timestamp;
  mret {| protocol := PROTOCOL; env_id := id; Envelope.kind := Result; reply_to := Some reply;
          participant := server_participant None; timestamp := t; generation := g; capability := cap;
          method := m; payload := None;
          error := Some {| error_code := c;
                           error_message := String.string_of_list_ascii
                             (take_chars 512 (String.list_ascii_of_string message));
                           error_retryable := retry; correlation_id := correlation |} |}.

(** [vec![self.error_result(state, &envelope.id, &envelope.id, .., false)]] *)
Definition refuse (env : Env) (cap : option ProtocolCoordinate) (m : option string) (c : ErrorCode)
    (message : string) : Srv (list Env) :=
  r ← error_result (env_id env) (env_id env) cap m c message false;
  mret [r].

(** The loop of [handle_hello] over [hello.supports]. *)
Fixpoint sort_supports (p : GrantPolicy) (l : list ProtocolCoordinate) :
    list ProtocolCoordinate * list UnavailableCapability :=
  match l with
  | [] => ([], [])
  | c :: l =>
      let '(g, u) := sort_supports p l in
      if bool_decide (c ∈ grantable p) then (c :: g, u) else (g, policy_denied c :: u)
  end.

(** [handle_hello] *)
Definition handle_hello (p : GrantPolicy) (env : Env) : Srv (list Env) :=
  match v ← payload env; if hello_from_value v is Ok h then Some h else None with
  | None => mret []
  | Some hello =>
      aid ← stamped new_activation_id;
      let '(granted, unavailable) := sort_supports p (supports hello) in
      on_session (fun st => (tt,
        {| activations :=
             <[aid := {| act_id := aid; act_granted := granted; act_hello_id := env_id env |}]> (activations st);
           seen_ids := seen_ids st; next_generation := next_generation st |}));;
      g ← take_generation;
      id ← stamped new_message_id;
      t ← stamped now_timestamp;
      mret [{| protocol := PROTOCOL; env_id := id; Envelope.kind := Agreement; reply_to := Some (env_id env);
               participant := server_participant (Some aid); timestamp := t; generation := g;
               capability := None; method := None;
               payload := Some (agreement_value
                 {| activation_id := aid; granted := granted; unavailable := unavailable;
                    lease_constraints := None |});
               error := None |}]
  end.

(** The two handlers of [handle_invocation]. *)
Definition pong (echo : Value) : Value := obj [("pong", Bool true); ("echo", echo)]%string.
Definition browsers : Value :=
  obj [("browsers", Array
    [obj [("name", Str (txt "edge")); ("kind", Str (txt "webview2")); ("status", Str (txt "available"))];
     obj [("name", Str (txt "chrome")); ("kind", Str (txt "cdp")); ("status", Str (txt "not-configured"))]])]%string.

(** The [match] that dispatches. *)
Definition run_method (c : ProtocolCoordinate) (m : string) (v : option Value) : result string Value :=
  if bool_decide (Envelope.api_version c = SYSTEM_API_VERSION) && bool_decide (coordinate_kind c = SYSTEM_KIND)
     && bool_decide (m = SYSTEM_PING_METHOD)
  then Ok (pong (default (obj []) v))
  else if bool_decide (Envelope.api_version c = BROWSER_API_VERSION) && bool_decide (coordinate_kind c = BROWSER_KIND)
     && bool_decide (m = BROWSER_LIST_METHOD)
  then Ok browsers
  else Err ("method " +:+ dq +:+ m +:+ dq +:+ " is not implemented for " +:+ Envelope.api_version c +:+ "/"
              +:+ coordinate_kind c).

(** [handle_invocation]; validation has ensured a capability and a method. *)
Definition handle_invocation (env : Env) : Srv (list Env) :=
  match capability env, method env with
  | Some cap, Some m =>
      match participant_activation (participant env) with
      | None => refuse env (Some cap) (Some m) Unauthorized
                  "Invocation without an Agreement: participant.activationId is missing"
      | Some aid =>
          s ← gets session;
          match activations s !! aid with
          | None => refuse env (Some cap) (Some m) Unauthorized
                      ("no Agreement for activation " +:+ dq +:+ aid +:+ dq +:+ ": negotiate Hello → Agreement first")
          | Some x =>
              if negb (bool_decide (cap ∈ act_granted x)) then
                refuse env (Some cap) (Some m) Unauthorized
                  ("capability " +:+ Envelope.api_version cap +:+ "/" +:+ coordinate_kind cap
                     +:+ " is not granted by the Agreement for activation " +:+ dq +:+ aid +:+ dq)
              else
                match run_method cap m (payload env) with
                | Err message => refuse env (Some cap) (Some m) Unavailable message
                | Ok v =>
                    g ← take_generation;
                    id ← stamped new_message_id;
                    t ← stamped now_timestamp;
                    mret [{| protocol := PROTOCOL; env_id := id; Envelope.kind := Result;
                             reply_to := Some (env_id env); participant := server_participant (Some aid);
                             timestamp := t; generation := g; capability := Some cap; method := Some m;
                             payload := Some v; error := None |}]
                end
          end
      end
  | _, _ => mret []
  end.

(** [state.seen_ids.insert(envelope.id.clone())]: whether the id is new. *)
Definition see_id (id : string) : Srv bool :=
  on_session (fun st => (negb (bool_decide (id ∈ seen_ids st)),
    {| activations := activations st; seen_ids := {[id]} ∪ seen_ids st; next_generation := next_generation st |})).

(** [handle_envelope] *)
Definition handle_envelope (p : GrantPolicy) (env : Env) : Srv (list Env) :=
  is_new ← see_id (env_id env);
  if negb is_new then
    refuse env (capability env) (method env) MalformedMessage
      ("message id " +:+ dq +:+ env_id env +:+ dq +:+ " already used on this connection (replay)")
  else
    match validate_envelope env with
    | Err issues =>
        if len_within ID_MIN_LEN ID_MAX_LEN (env_id env) then
          refuse env (capability env) (method env) MalformedMessage
            ("envelope validation failed: " +:+ issues_text issues)
        else mret []
    | Ok _ =>
        match Envelope.kind env with
        | Hello => handle_hello p env
        | Invocation => handle_invocation env
        | _ => mret []
        end
    end.

(** The replies to one frame. *)
Definition handle_frame (p : GrantPolicy) (bytes : list byte) : Srv (list Env) :=
  match envelope_from_slice bytes with
  | Ok env => handle_envelope p env
  | Err e =>
      match id_from_slice bytes with
      | Some id =>
          if len_within ID_MIN_LEN ID_MAX_LEN id then
            r ← error_result id id None None MalformedMessage ("frame is not a valid envelope: " +:+ e) false;
            mret [r]
          else mret []
      | None => mret []
      end
  end.

(** The sends of the replies to one frame, of which [sends] says whether they
    succeed: the envelopes handed to the connection, and the rest of [sends]
    unless one failed. *)
Fixpoint send_each (replies : list Env) (sends : list bool) : list Env * option (list bool) :=
  match replies with
  | [] => ([], Some sends)
  | r :: replies =>
      if head sends is Some false then ([r], None)
      else let '(l, o) := send_each replies (tail sends) in (r :: l, o)
  end.

(** The loop of [serve_connection] over the frames that arrive before the peer
    closes; it returns on a failed send.  The result is what it hands to the
    connection. *)
Fixpoint serve_loop (p : GrantPolicy) (frames : list (list byte)) (sends : list bool) : Srv (list Env) :=
  match frames with
  | [] => mret []
  | bytes :: frames =>
      replies ← handle_frame p bytes;
      match send_each replies sends with
      | (l, None) => mret l
      | (l, Some sends) =>
          rest ← serve_loop p frames sends;
          mret (l ++ rest)
      end
  end.

(** [serve_connection], in a process *)
Definition serve_connection (p : GrantPolicy) (frames : list (list byte)) (sends : list bool)
    (proc : Process C) : result Empty_set (list Env) * Endpoint C :=
  serve_loop p frames sends {| process := proc; session := new_session |}.
End Server.

(** ** The client *)

Record AgreementInfo := {
  info_activation_id : string;
  info_granted : list ProtocolCoordinate;
  info_unavailable : list UnavailableCapability;
  agreement_id : string
}.

Inductive ClientError :=
| ClientTransport (e : TransportError)
| NotNegotiated
| InvalidPeerFrame (message : string)
| CorrelationMismatch (expected got : string)
| Remote (code : ErrorCode) (message : string) (retryable : bool)
| UnexpectedKind (k : EnvelopeKind).

(** [impl Display for ClientError], with the texts of a transport error and of a
    kind as arguments. *)
Definition client_error_display (transport_text : TransportError -> string) (kind_text : EnvelopeKind -> string)
    (e : ClientError) : string :=
  match e with
  | ClientTransport e => "transport: " +:+ transport_text e
  | NotNegotiated => "invoke before negotiate"
  | InvalidPeerFrame m => "invalid peer frame: " +:+ m
  | CorrelationMismatch x g =>
      "correlation mismatch: expected " +:+ dq +:+ x +:+ dq +:+ ", got " +:+ dq +:+ g +:+ dq
  | Remote c m r =>
      "remote error " +:+ error_code_display c +:+ " (retryable=" +:+ (if r then "true" else "false") +:+ "): " +:+ m
  | UnexpectedKind k => "unexpected envelope kind " +:+ kind_text k
  end.

(** [LocalClient::send_json] and [recv_json], for envelopes. *)
Class Transport (T : Type) := {
  send_json : Env -> M T TransportError unit;
  recv_json : M T TransportError (option Env)
}.

Record ExampleClient (C T : Type) := {
  transport : T;
  client_instance_id : string;
  client_participant : Participant;
  client_generation : N;
  activation : option AgreementInfo;
  client_process : Process C
}.
Arguments transport {C T} _.
Arguments client_instance_id {C T} _.
Arguments client_participant {C T} _.
Arguments client_generation {C T} _.
Arguments activation {C T} _.
Arguments client_process {C T} _.

Section Client.
Context {C T : Type} `{!Clock C} `{!Serde Value} `{wire : !ExampleWire} `{!Transport T}.
Abbreviation Client := (ExampleClient C T).
Abbreviation Cl := (M Client ClientError).

(** [connect], once [t] is authenticated; [nanos] is the time of the call. *)
Definition connect (nanos : N) (t : T) (p : Process C) : Client :=
  {| transport := t; client_instance_id := "ext-tool-" +:+ lower_hex 16 nanos;
     client_participant := {| component := "external-tool"; facet := "example-client";
                              participant_activation := None |};
     client_generation := 0; activation := None; client_process := p |}.

Definition client_stamped {A} (x : M (Process C) ClientError A) : Cl A :=
  zoom client_process
    (fun p c => {| transport := transport c; client_instance_id := client_instance_id c;
                   client_participant := client_participant c; client_generation := client_generation c;
                   activation := activation c; client_process := p |}) x.

(** [self.send], [self.recv] *)
Definition on_transport {A} (x : M T TransportError A) : Cl A :=
  map_err_m ClientTransport (zoom transport
    (fun t c => {| transport := t; client_instance_id := client_instance_id c;
                   client_participant := client_participant c; client_generation := client_generation c;
                   activation := activation c; client_process := client_process c |}) x).
Definition send (env : Env) : Cl unit := on_transport (send_json env).
Definition recv : Cl (option Env) := on_transport recv_json.

(** [outgoing] *)
Definition outgoing (k : EnvelopeKind) (cap : option ProtocolCoordinate) (m : option string)
    (v : option Value) (err : option ProtocolError) : Cl Env :=
  id ← client_stamped new_message_id;
  t ← client_stamped now_timestamp;
  update (fun c =>
    ({| protocol := PROTOCOL; env_id := id; Envelope.kind := k; reply_to := None;
        participant := client_participant c; timestamp := t; generation := client_generation c;
        capability := cap; method := m; payload := v; error := err |},
     {| transport := transport c; client_instance_id := client_instance_id c;
        client_participant := client_participant c; client_generation := u64_add (client_generation c) 1;
        activation := activation c; client_process := client_process c |})).

(** [self.participant.activation_id = ..; self.activation = ..] *)
Definition set_activation (info : AgreementInfo) (c : Client) : Client :=
  {| transport := transport c; client_instance_id := client_instance_id c;
     client_participant := {| component := component (client_participant c); facet := facet (client_participant c);
                              participant_activation := Some (info_activation_id info) |};
     client_generation := client_generation c; activation := Some info; client_process := client_process c |}.

(** The checks of [negotiate] on the reply. *)
Definition read_agreement (hello reply : Env) : result ClientError AgreementInfo :=
  if Envelope.kind reply is Agreement then
    match validate_envelope reply with
    | Err issues => Err (InvalidPeerFrame ("Agreement failed frame validation: " +:+ issues_text issues))
    | Ok _ =>
        if negb (bool_decide (reply_to reply = Some (env_id hello))) then
          Err (CorrelationMismatch (env_id hello) (default ""%string (reply_to reply)))
        else
          match v ← payload reply; if agreement_from_value v is Ok a then Some a else None with
          | None => Err (InvalidPeerFrame "Agreement payload is not a valid agreementPayload")
          | Some a => Ok {| info_activation_id := activation_id a; info_granted := granted a;
                            info_unavailable := unavailable a; agreement_id := env_id reply |}
          end
    end
  else Err (UnexpectedKind (Envelope.kind reply)).

(** [negotiate] *)
Definition negotiate (supported : list ProtocolCoordinate) : Cl AgreementInfo :=
  instance ← gets client_instance_id;
  hello ← outgoing Hello None None
    (Some (hello_value {| instance_id := instance; supports := supported; requires := [] |})) None;
  send hello;;
  o ← recv;
  match o with
  | None => throw (ClientTransport TClosed)
  | Some reply =>
      info ← lift (read_agreement hello reply);
      modify (set_activation info);;
      mret info
  end.

(** [verify_result] *)
Definition verify_result (invocation reply : Env) : result ClientError unit :=
  if negb (bool_decide (reply_to reply = Some (env_id invocation))) then
    Err (CorrelationMismatch (env_id invocation) (default ""%string (reply_to reply)))
  else
    match error reply with
    | Some e => if negb (bool_decide (correlation_id e = env_id invocation))
                then Err (CorrelationMismatch (env_id invocation) (correlation_id e)) else Ok tt
    | None => Ok tt
    end.

(** The checks of [invoke] on the reply. *)
Definition read_result (invocation reply : Env) : result ClientError Value :=
  if Envelope.kind reply is Result then
    match validate_envelope reply with
    | Err issues => Err (InvalidPeerFrame ("Result failed frame validation: " +:+ issues_text issues))
    | Ok _ =>
        _ ← verify_result invocation reply;
        match error reply with
        | Some e => Err (Remote (error_code e) (error_message e) (error_retryable e))
        | None => Ok (default (obj []) (payload reply))
        end
    end
  else Err (UnexpectedKind (Envelope.kind reply)).

(** [invoke] *)
Definition invoke (cap : ProtocolCoordinate) (m : string) (v : Value) : Cl Value :=
  a ← gets activation;
  if a is None then throw NotNegotiated
  else
    invocation ← outgoing Invocation (Some cap) (Some m) (Some v) None;
    send invocation;;
    o ← recv;
    match o with
    | None => throw (ClientTransport TClosed)
    | Some reply => lift (read_result invocation reply)
    end.
End Client.

(** ** Computations and their outcomes *)

(** The outcome of [x] in the state [s] satisfies [Q]. *)
Definition ends {S E A} (x : M S E A) (Q : result E A -> S -> Prop) (s : S) : Prop := Q (x s).1 (x s).2.

Lemma ends_bind {S E A B} (x : M S E A) (k : A -> M S E B) Q s :
  ends x (fun r s' => match r with Ok a => ends (k a) Q s' | Err e => Q (Err e) s' end) s -> ends (x ≫= k) Q s.
Proof. unfold ends, mbind, M_bind. by destruct (x s) as [[a|e] s']. Qed.

Lemma ends_mono {S E A} (x : M S E A) (Q Q' : result E A -> S -> Prop) s :
  ends x Q s -> (forall r s', Q r s' -> Q' r s') -> ends x Q' s.
Proof. unfold ends. auto. Qed.

Lemma ends_zoom {S T E A} (get : S -> T) (set : T -> S -> S) (x : M T E A) Q s :
  ends x (fun r t => Q r (set t s)) (get s) -> ends (zoom get set x) Q s.
Proof. unfold ends, zoom. by destruct (x (get s)). Qed.

(** ** Stamps *)

Section StampFacts.
Context {C E : Type} `{!Clock C} `{!ClockInRange C}.
Implicit Types p : Process C.

Lemma stamp_ends (Q : result E N -> Process C -> Prop) p :
  (forall t p', (t < STAMP_LIMIT)%N -> id_counter p' = id_counter p -> Q (Ok t) p') ->
  ends stamp Q p.
Proof.
  intros HQ. unfold ends, stamp. pose proof (clock_in_range (clock p)) as Ht.
  destruct (clock_read (clock p)) as [t c]. by apply HQ.
Qed.

Lemma token_ends prefix (Q : result E string -> Process C -> Prop) p :
  (forall t p', (t < STAMP_LIMIT)%N ->
     id_counter p' = u64_add (id_counter p) 1 ->
     Q (Ok (unique_token prefix t (id_counter p))) p') ->
  ends (new_token prefix) Q p.
Proof.
  intros HQ. apply ends_bind, stamp_ends. intros t p' Ht Hp. apply ends_bind. unfold ends. cbn.
  rewrite Hp. by apply HQ.
Qed.

Lemma timestamp_ends (Q : result E string -> Process C -> Prop) p :
  (forall t p', is_rfc3339_timestamp t = true -> id_counter p' = id_counter p -> Q (Ok t) p') ->
  ends now_timestamp Q p.
Proof.
  intros HQ. apply ends_bind, stamp_ends. intros t p' Ht Hp. unfold ends. cbn. apply HQ; [| done].
  apply stamped_accepted. unfold STAMP_LIMIT in Ht. split; [apply N2Z.is_nonneg |].
  change 253402300800000%Z with (Z.of_N 253402300800000). apply N2Z.inj_lt.
  apply N.Div0.div_lt_upper_bound. lia.
Qed.
End StampFacts.

(** ** What the server decides *)

Section Decisions.
Context {C : Type} `{!Clock C} `{!ClockInRange C} `{!Serde Value} `{wire : !ExampleWire} `{!EnvelopeWire Value}.
Implicit Types (env : Env) (p : GrantPolicy) (st : SessionState) (s : Endpoint C).

Inductive Reaction :=
| Silent
| Refuse (cap : option ProtocolCoordinate) (m : option string) (c : ErrorCode) (message : string)
| Agree (hello : HelloPayload)
| Serve (aid : string) (cap : ProtocolCoordinate) (m : string) (v : Value).

(** The reaction to a valid Invocation under the activations [acts]. *)
Definition invocation_reaction (acts : gmap string Activation) env : Reaction :=
  match capability env, method env with
  | Some cap, Some m =>
      match participant_activation (participant env) with
      | None => Refuse (Some cap) (Some m) Unauthorized
                  "Invocation without an Agreement: participant.activationId is missing"
      | Some aid =>
          match acts !! aid with
          | None => Refuse (Some cap) (Some m) Unauthorized
                      ("no Agreement for activation " +:+ dq +:+ aid +:+ dq +:+ ": negotiate Hello → Agreement first")
          | Some x =>
              if bool_decide (cap ∈ act_granted x) then
                match run_method cap m (payload env) with
                | Ok v => Serve aid cap m v
                | Err message => Refuse (Some cap) (Some m) Unavailable message
                end
              else Refuse (Some cap) (Some m) Unauthorized
                     ("capability " +:+ Envelope.api_version cap +:+ "/" +:+ coordinate_kind cap
                        +:+ " is not granted by the Agreement for activation " +:+ dq +:+ aid +:+ dq)
          end
      end
  | _, _ => Silent
  end.

Definition reaction env st : Reaction :=
  if bool_decide (env_id env ∈ seen_ids st) then
    Refuse (capability env) (method env) MalformedMessage
      ("message id " +:+ dq +:+ env_id env +:+ dq +:+ " already used on this connection (replay)")
  else
    match validate_envelope env with
    | Err issues =>
        if len_within ID_MIN_LEN ID_MAX_LEN (env_id env) then
          Refuse (capability env) (method env) MalformedMessage
            ("envelope validation failed: " +:+ issues_text issues)
        else Silent
    | Ok _ =>
        match Envelope.kind env with
        | Hello =>
            match v ← payload env; if hello_from_value v is Ok h then Some h else None with
            | Some h => Agree h
            | None => Silent
            end
        | Invocation => invocation_reaction (activations st) env
        | _ => Silent
        end
    end.

(** The reply of a reaction to the message [id], from its stamps. *)
Definition reply_to_message p (id : string) (R : Reaction) (aid : string) (g : N) (rid t : string) : list Env :=
  match R with
  | Silent => []
  | Refuse cap m c message =>
      [{| protocol := PROTOCOL; env_id := rid; Envelope.kind := Result; reply_to := Some id;
          participant := server_participant None; timestamp := t; generation := g; capability := cap;
          method := m; payload := None;
          error := Some {| error_code := c;
                           error_message := String.string_of_list_ascii
                             (take_chars 512 (String.list_ascii_of_string message));
                           error_retryable := false; correlation_id := id |} |}]
  | Agree h =>
      [{| protocol := PROTOCOL; env_id := rid; Envelope.kind := Agreement; reply_to := Some id;
          participant := server_participant (Some aid); timestamp := t; generation := g;
          capability := None; method := None;
          payload := Some (agreement_value
            {| activation_id := aid; granted := (sort_supports p (supports h)).1;
               unavailable := (sort_supports p (supports h)).2; lease_constraints := None |});
          error := None |}]
  | Serve aid cap m v =>
      [{| protocol := PROTOCOL; env_id := rid; Envelope.kind := Result; reply_to := Some id;
          participant := server_participant (Some aid); timestamp := t; generation := g;
          capability := Some cap; method := Some m; payload := Some v; error := None |}]
  end.

(** The activations after it. *)
Definition activate p (id : string) (R : Reaction) (aid : string) (acts : gmap string Activation) :
    gmap string Activation :=
  if R is Agree h then
    <[aid := {| act_id := aid; act_granted := (sort_supports p (supports h)).1; act_hello_id := id |}]> acts
  else acts.

Definition ep_counted s : Prop := (id_counter (process s) <= U64_MAX)%N.

(** What holds of the stamps of a reply, and of the state after them. *)
Record stamps_ok s (aid rid t : string) s' : Prop := {
  so_tokens : ep_counted s -> token_ok aid /\ token_ok rid /\ ep_counted s';
  so_time : is_rfc3339_timestamp t = true
}.

(** The three stamps every reply takes, after an activation id. *)
Lemma reply_ends {A} (k : N -> string -> string -> A) (Q : result Empty_set A -> Endpoint C -> Prop) s :
  (forall g rid t s', stamps_ok s (unique_token "act" 0 0) rid t s' ->
     activations (session s') = activations (session s) ->
     seen_ids (session s') = seen_ids (session s) ->
     Q (Ok (k g rid t)) s') ->
  ends (g ← take_generation; rid ← stamped new_message_id; t ← stamped now_timestamp;
        mret (k g rid t)) Q s.
Proof.
  intros HQ. apply ends_bind. unfold ends at 1. cbn.
  apply ends_bind, ends_zoom, token_ends. intros n p' Hn Hp.
  apply ends_bind, ends_zoom, timestamp_ends. intros t p'' Ht Hp'. unfold ends. cbn in *. apply HQ; [| done..].
  split; [| done]. intros Hc. unfold ep_counted in *. cbn. rewrite Hp', Hp. split_and!.
  - by apply unique_token_length.
  - by apply unique_token_length.
  - apply u64_add_max.
Qed.

(** The state in which the id of a message has been recorded. *)
Definition saw (id : string) s : Endpoint C :=
  {| process := process s;
     session := {| activations := activations (session s); seen_ids := {[id]} ∪ seen_ids (session s);
                   next_generation := next_generation (session s) |} |}.

(** [Q] holds whenever the message [id] gets the reaction [R] in [s]. *)
Definition carried p (id : string) (R : Reaction) (Q : result Empty_set (list Env) -> Endpoint C -> Prop) s : Prop :=
  forall aid g rid t s', stamps_ok s aid rid t s' ->
    activations (session s') = activate p id R aid (activations (session s)) ->
    seen_ids (session s') = {[id]} ∪ seen_ids (session s) ->
    Q (Ok (reply_to_message p id R aid g rid t)) s'.

Lemma saw_stamps id s aid rid t s' : stamps_ok (saw id s) aid rid t s' -> stamps_ok s aid rid t s'.
Proof. by intros [Ho Ht]. Qed.

Lemma refuse_ends p env cap m c message Q s :
  carried p (env_id env) (Refuse cap m c message) Q s ->
  ends (refuse env cap m c message) Q (saw (env_id env) s).
Proof.
  intros HQ. apply ends_bind, reply_ends. intros g rid t s' Hst%saw_stamps Ha Hs. unfold ends.
  by apply (HQ (unique_token "act" 0 0) g rid t).
Qed.

Lemma silent_ends p id Q s : carried p id Silent Q s -> ends (mret []) Q (saw id s).
Proof.
  intros HQ. unfold ends. cbn.
  apply (HQ (unique_token "act" 0 0) 0%N (unique_token "msg" 0 0)
           (String.string_of_list_ascii (now_timestamp_like 0)) (saw id s)); [| done..].
  split; [| apply stamped_accepted; lia]. intros Hc. split_and!; [by apply unique_token_length.. | done].
Qed.

Lemma hello_ends p env h Q s :
  (v ← payload env; if hello_from_value v is Ok h then Some h else None) = Some h ->
  carried p (env_id env) (Agree h) Q s -> ends (handle_hello p env) Q (saw (env_id env) s).
Proof.
  intros Hh HQ. unfold handle_hello. rewrite Hh. apply ends_bind, ends_zoom, token_ends. intros n p' Hn Hp.
  unfold carried in HQ. cbn [reply_to_message activate] in HQ.
  destruct (sort_supports p (supports h)) as [gr un]. apply ends_bind. unfold ends at 1. cbn.
  apply reply_ends. cbn. intros g rid t s' [Ho Ht] Ha Hs. apply HQ; [| done..].
  split; [| done]. intros Hc. unfold ep_counted in *. cbn in *. destruct Ho as (_ & ? & ?).
  { rewrite Hp. apply u64_add_max. }
  split_and!; [by apply unique_token_length | done | done].
Qed.

Lemma invocation_ends p env Q s :
  carried p (env_id env) (invocation_reaction (activations (session s)) env) Q s ->
  ends (handle_invocation env) Q (saw (env_id env) s).
Proof.
  unfold handle_invocation, invocation_reaction. intros HQ.
  destruct (capability env) as [cap|], (method env) as [m|]; try by apply silent_ends in HQ.
  destruct (participant_activation (participant env)) as [aid|]; [| by apply refuse_ends in HQ].
  apply ends_bind. unfold ends at 1. cbn.
  destruct (activations (session s) !! aid) as [x|]; [| by apply refuse_ends in HQ].
  case_bool_decide; cbn [negb]; [| by apply refuse_ends in HQ].
  destruct (run_method cap m (payload env)) as [v|message]; [| by apply refuse_ends in HQ].
  apply reply_ends. intros g rid t s' Hst%saw_stamps Ha Hs. by apply (HQ (unique_token "act" 0 0) g rid t).
Qed.

(** [handle_envelope] carries out the reaction. *)
Lemma handle_envelope_ends p env Q s :
  carried p (env_id env) (reaction env (session s)) Q s -> ends (handle_envelope p env) Q s.
Proof.
  intros HQ. apply ends_bind. unfold ends at 1. cbn. change (ends ?x Q _) with (ends x Q (saw (env_id env) s)).
  unfold reaction in HQ. case_bool_decide as Hin; cbn [negb]; [by apply refuse_ends in HQ |].
  destruct (validate_envelope env) as [[]|issues].
  2: { destruct (len_within _ _ _); [by apply refuse_ends in HQ | by apply silent_ends in HQ]. }
  destruct (Envelope.kind env); try by apply silent_ends in HQ.
  - destruct (v ← payload env; _) as [h|] eqn:Hh; [by eapply hello_ends |].
    unfold handle_hello. rewrite Hh. by apply silent_ends in HQ.
  - by apply invocation_ends in HQ.
Qed.
(** ** Only what the policy grants is served *)

Lemma sort_supports_granted p l c : c ∈ (sort_supports p l).1 <-> c ∈ l /\ c ∈ grantable p.
Proof.
  induction l as [|x l IH]; cbn; [set_solver |].
  destruct (sort_supports p l) as [g u]. cbn in IH. case_bool_decide; cbn; set_solver.
Qed.

(** An Agreement in the log grants [cap] to the activation [aid]. *)
Definition agreed_in (log : list Env) (aid : string) (cap : ProtocolCoordinate) : Prop :=
  exists a pl, a ∈ log /\ Envelope.kind a = Agreement /\ payload a = Some (agreement_value pl) /\
    activation_id pl = aid /\ cap ∈ granted pl.

(** Every Result without an error comes after an Agreement of a grantable
    capability. *)
Definition justified p (log : list Env) : Prop :=
  forall l1 r l2, log = l1 ++ r :: l2 -> Envelope.kind r = Result -> error r = None ->
    exists aid cap, participant_activation (participant r) = Some aid /\ capability r = Some cap /\
      cap ∈ grantable p /\ agreed_in l1 aid cap.

(** The activations hold grantable capabilities an Agreement in the log gives. *)
Definition announced p (log : list Env) (acts : gmap string Activation) : Prop :=
  forall aid x cap, acts !! aid = Some x -> cap ∈ act_granted x -> cap ∈ grantable p /\ agreed_in log aid cap.

Lemma agreed_in_app log l aid cap : agreed_in log aid cap -> agreed_in (log ++ l) aid cap.
Proof. intros (a & pl & Ha & H). exists a, pl. split; [set_solver | done]. Qed.

Lemma announced_app p log l acts : announced p log acts -> announced p (log ++ l) acts.
Proof. intros H aid x cap Hx Hc. destruct (H _ _ _ Hx Hc). by split; [| apply agreed_in_app]. Qed.

(** One more reply. *)
Lemma justified_snoc p log r :
  justified p log ->
  (Envelope.kind r = Result -> error r = None ->
    exists aid cap, participant_activation (participant r) = Some aid /\ capability r = Some cap /\
      cap ∈ grantable p /\ agreed_in log aid cap) ->
  justified p (log ++ [r]).
Proof.
  intros Hj Hr l1 r' l2 He. destruct l2 as [|y l2 _] using rev_ind.
  - apply app_inj_tail in He as [<- <-]. exact Hr.
  - rewrite app_comm_cons, app_assoc in He. apply app_inj_tail in He as [-> _]. by apply (Hj l1 r' l2).
Qed.

(** What the loop keeps, from the log of the replies before. *)
Definition logged p (log : list Env) (l : list Env) s : Prop :=
  length l <= 1 /\ justified p (log ++ l) /\ announced p (log ++ l) (activations (session s)).

Lemma refusal_logged p log r s :
  justified p log -> announced p log (activations (session s)) -> error r <> None -> logged p log [r] s.
Proof. intros Hj Ha He. split_and!; [done | by apply justified_snoc | by apply announced_app]. Qed.

Lemma silent_logged p log s :
  justified p log -> announced p log (activations (session s)) -> logged p log [] s.
Proof. intros Hj Ha. unfold logged. rewrite app_nil_r. split_and!; [cbn; lia | done | done]. Qed.

Lemma served_reaction env st aid cap m v :
  reaction env st = Serve aid cap m v -> exists x, activations st !! aid = Some x /\ cap ∈ act_granted x.
Proof.
  unfold reaction, invocation_reaction. intros H. repeat case_match; simplify_eq; try done.
  case_bool_decide; [| done]. eauto.
Qed.

Lemma envelope_logged p log env s :
  justified p log -> announced p log (activations (session s)) ->
  ends (handle_envelope p env) (fun r s' => exists l, r = Ok l /\ logged p log l s') s.
Proof.
  intros Hj Ha. apply handle_envelope_ends. intros aid g rid t s' _ Hact _. eexists. split; [done |].
  destruct (reaction env (session s)) as [| |h|aid' cap m v] eqn:HR; cbn [reply_to_message activate] in *.
  - apply silent_logged; [done |]. by rewrite Hact.
  - apply refusal_logged; [done | by rewrite Hact | done].
  - split_and!; [done | by apply justified_snoc |]. intros aid' x cap. rewrite Hact.
    destruct (decide (aid' = aid)) as [-> | Hne].
    + rewrite lookup_insert_eq. intros [= <-]. cbn. intros Hc.
      split; [by apply sort_supports_granted in Hc as [_ ?] |]. eexists _, _.
      split_and!; [apply elem_of_app; right; by apply list_elem_of_singleton | done | done | done | done].
    + rewrite lookup_insert_ne by done. by apply announced_app.
  - apply served_reaction in HR as (x & Hx & Hc). destruct (Ha _ _ _ Hx Hc) as [Hg Hag].
    split_and!; [done | | rewrite Hact; by apply announced_app].
    apply justified_snoc; [done |]. intros _ _. by exists aid', cap.
Qed.

Lemma frame_logged p log bytes s :
  justified p log -> announced p log (activations (session s)) ->
  ends (handle_frame p bytes) (fun r s' => exists l, r = Ok l /\ logged p log l s') s.
Proof.
  intros Hj Ha. unfold handle_frame. destruct (envelope_from_slice bytes) as [env|e]; [by apply envelope_logged |].
  assert (Hs : ends (mret [] : Srv (list Env)) (fun r s' => exists l, r = Ok l /\ logged p log l s') s).
  { eexists. split; [done |]. by apply silent_logged. }
  destruct (id_from_slice bytes) as [id|]; [| exact Hs]. destruct (len_within _ _ id); [| exact Hs].
  apply ends_bind, reply_ends. intros g rid t s' _ Hact _. unfold ends. cbn. eexists. split; [done |].
  apply refusal_logged; [done | by rewrite Hact | done].
Qed.

(** A single reply is handed over, whether or not its send succeeds. *)
Lemma send_each_short (l : list Env) sends : length l <= 1 -> (send_each l sends).1 = l.
Proof. destruct l as [|r [|]]; cbn; [done | by destruct sends as [|[]] | lia]. Qed.

Lemma loop_logged p frames sends log s :
  justified p log -> announced p log (activations (session s)) ->
  ends (serve_loop p frames sends) (fun r _ => exists l, r = Ok l /\ justified p (log ++ l)) s.
Proof.
  revert sends log s. induction frames as [|bytes frames IH]; intros sends log s Hj Ha; cbn [serve_loop].
  { exists []. by rewrite app_nil_r. }
  apply ends_bind. eapply ends_mono; [by apply (frame_logged p log) |]. intros r s' (l & -> & Hl & Hj' & Ha').
  pose proof (send_each_short l sends Hl) as Hsend. destruct (send_each l sends) as [l' [sends'|]]; cbn in Hsend; subst l'.
  - apply ends_bind. eapply ends_mono; [by apply (IH _ (log ++ l)) |]. intros r s'' (l' & -> & Hl').
    exists (l ++ l'). by rewrite app_assoc.
  - by exists l.
Qed.

(** The example server serves only what its policy grants: whatever frames a
    peer sends and whichever sends fail, a Result without an error is handed to
    the connection only for a capability the policy holds, under an activation
    that an Agreement handed over before on the same connection names, with the
    capability among the granted ones. *)
Theorem only_granted_served p frames sends (proc : Process C) :
  match (serve_connection p frames sends proc).1 with
  | Ok log =>
      forall l1 r l2, log = l1 ++ r :: l2 -> Envelope.kind r = Result -> error r = None ->
      exists aid cap, participant_activation (participant r) = Some aid /\ capability r = Some cap /\
        cap ∈ grantable p /\ agreed_in l1 aid cap
  | Err e => match e with end
  end.
Proof.
  destruct (loop_logged p frames sends [] {| process := proc; session := new_session |}) as (l & Hl & Hj).
  - intros [|]; discriminate.
  - intros aid x cap. cbn. by rewrite lookup_empty.
  - unfold serve_connection. rewrite Hl. exact Hj.
Qed.
End Decisions.

(** ** The client over a link to the server *)

(** The server at the other end of a connection, and the frames it has sent that
    the client has not read. *)
Record Link (C : Type) := { endpoint : Endpoint C; inbox : list (list byte) }.
Arguments endpoint {C} _.
Arguments inbox {C} _.

Section Carrier.
Context {C : Type} `{!Clock C} `{!Serde Value} `{wire : !ExampleWire} `{!EnvelopeWire Value}.

(** A carrier that delivers every frame in order, with a server that answers at
    once; a read with nothing to read runs into the deadline. *)
Definition link_send (p : GrantPolicy) (env : Env) : M (Link C) TransportError unit := fun l =>
  match handle_frame p (envelope_to_vec env) (endpoint l) with
  | (Ok replies, s) => (Ok tt, {| endpoint := s; inbox := inbox l ++ map envelope_to_vec replies |})
  | (Err e, _) => match e with end
  end.

Definition link_recv : M (Link C) TransportError (option Env) := fun l =>
  match inbox l with
  | [] => (Err (TIo TimedOut), l)
  | bytes :: rest =>
      (match envelope_from_slice bytes with Ok env => Ok (Some env) | Err _ => Err TSerialization end,
       {| endpoint := endpoint l; inbox := rest |})
  end.
End Carrier.

(** What the two sides rely on: [serde_json] reads an envelope back whose payload
    it reads back, which it does for what the server builds from such values;
    it reads the negotiation payloads back as values and as structures; an object
    is an object. *)
Class ExampleLaws `{!Serde Value} `{!ExampleWire} `{!EnvelopeWire Value} := {
  reads_back : Value -> Prop;
  el_envelope : forall env, (forall v, payload env = Some v -> reads_back v) ->
    envelope_from_slice (envelope_to_vec env) = Ok env;
  el_pong : forall v, reads_back v -> reads_back (pong v);
  el_browsers : reads_back browsers;
  el_hello_back : forall h, reads_back (hello_value h);
  el_agreement_back : forall a, reads_back (agreement_value a);
  el_hello : forall h, hello_from_value (hello_value h) = Ok h;
  el_agreement : forall a, agreement_from_value (agreement_value a) = Ok a;
  el_object : forall m, is_object (Object m) = true;
  el_unavailable : forall u u', unavailable_to_string u = unavailable_to_string u' ->
    coordinate_to_string (unavailable_coordinate u) = coordinate_to_string (unavailable_coordinate u')
}.

(** ** What the policy says *)

Inductive Verdict :=
| Answered (v : Value)
| Refused (c : ErrorCode)
| Unreadable.

(** A call names a coordinate and a method the schema accepts. *)
Definition well_named (cap : ProtocolCoordinate) (m : string) : bool :=
  valid_api_version (Envelope.api_version cap) && valid_coordinate_kind (coordinate_kind cap) && valid_method m.

(** The abstract server: what a client that asked for [supported] gets. *)
Definition verdict `{!Serde Value} (p : GrantPolicy) (supported : list ProtocolCoordinate)
    (cap : ProtocolCoordinate) (m : string) (v : Value) : Verdict :=
  if negb (well_named cap m) then Unreadable
  else if negb (is_object v) then Refused MalformedMessage
  else if negb (bool_decide (cap ∈ supported) && bool_decide (cap ∈ grantable p)) then Refused Unauthorized
  else if bool_decide (cap = system) && bool_decide (m = SYSTEM_PING_METHOD) then Answered (pong v)
  else if bool_decide (cap = browser) && bool_decide (m = BROWSER_LIST_METHOD) then Answered browsers
  else Refused Unavailable.

(** What a client makes of it. *)
Definition outcome (r : result ClientError Value) : option Verdict :=
  match r with
  | Ok v => Some (Answered v)
  | Err (Remote c _ false) => Some (Refused c)
  | Err (InvalidPeerFrame _) => Some Unreadable
  | Err _ => None
  end.

Section Linked.
Context {C : Type} `{!Clock C} `{!ClockInRange C} `{!Serde Value} `{wire : !ExampleWire} `{!EnvelopeWire Value}
  `{laws : !ExampleLaws} (p : GrantPolicy).
#[local] Instance link_transport : Transport (Link C) := {| send_json := link_send p; recv_json := link_recv |}.
Abbreviation Client := (ExampleClient C (Link C)).
Implicit Types (env : Env) (c : Client).

(** The session of the server a client is linked to. *)
Definition peer c : SessionState := session (endpoint (transport c)).
Definition counter c : N := id_counter (client_process c).

(** The client has read everything, the server has seen only ids the client has
    used, and the counters are [u64]. *)
Definition in_step c : Prop :=
  inbox (transport c) = [] /\ ep_counted (endpoint (transport c)) /\
  (forall id, id ∈ seen_ids (peer c) -> exists n k, id = unique_token "msg" n k /\ (k < counter c)%N) /\
  component (client_participant c) <> "" /\ facet (client_participant c) <> "" /\
  (forall a, participant_activation (client_participant c) = Some a -> len_ok 1 128 a).

(** Both sides hold the same activation, granted for [supported]. *)
Definition linked (supported : list ProtocolCoordinate) c : Prop :=
  exists aid x, activation c <> None /\ participant_activation (client_participant c) = Some aid /\
    activations (peer c) !! aid = Some x /\ act_granted x = (sort_supports p supported).1.

(** The envelope a client sends next, at the time [n]. *)
Definition next_env (k : EnvelopeKind) cap m v n t c : Env :=
  {| protocol := PROTOCOL; env_id := unique_token "msg" n (counter c); Envelope.kind := k; reply_to := None;
     participant := client_participant c; timestamp := t; generation := client_generation c;
     capability := cap; method := m; payload := v; error := None |}.

(** The client after sending: everything but its generation, its process and its
    transport is as before. *)
Record sent_by (l : Link C) c c' : Prop := {
  sb_transport : transport c' = l;
  sb_instance : client_instance_id c' = client_instance_id c;
  sb_participant : client_participant c' = client_participant c;
  sb_activation : activation c' = activation c;
  sb_counter : counter c' = u64_add (counter c) 1
}.

Lemma outgoing_ends k cap m v (Q : result ClientError Env -> Client -> Prop) c :
  (forall n t c', (n < STAMP_LIMIT)%N -> is_rfc3339_timestamp t = true -> sent_by (transport c) c c' ->
     Q (Ok (next_env k cap m v n t c)) c') ->
  ends (outgoing k cap m v None) Q c.
Proof.
  intros HQ. apply ends_bind, ends_zoom, token_ends. intros n p' Hn Hp.
  apply ends_bind, ends_zoom, timestamp_ends. intros t p'' Ht Hp'. unfold ends. cbn in *.
  apply HQ; [done | done |]. split; try done. unfold counter. cbn. by rewrite Hp'.
Qed.

(** One envelope sent and the reply read. *)
Definition exchange env : M Client ClientError (option Env) := send env;; recv.

Lemma exchange_ends env (Q : result ClientError (option Env) -> Client -> Prop) c :
  (forall v, payload env = Some v -> reads_back v) -> inbox (transport c) = [] ->
  (forall aid g rid t l r c', stamps_ok (endpoint (transport c)) aid rid t (endpoint l) ->
     activations (session (endpoint l)) =
       activate p (env_id env) (reaction env (peer c)) aid (activations (peer c)) ->
     seen_ids (session (endpoint l)) = {[env_id env]} ∪ seen_ids (peer c) -> inbox l = [] ->
     reply_to_message p (env_id env) (reaction env (peer c)) aid g rid t = [r] ->
     (forall v, payload r = Some v -> reads_back v) ->
     transport c' = l -> client_instance_id c' = client_instance_id c ->
     client_participant c' = client_participant c -> activation c' = activation c -> counter c' = counter c ->
     Q (Ok (Some r)) c') ->
  reaction env (peer c) <> Silent ->
  (forall aid cap m v, reaction env (peer c) = Serve aid cap m v -> reads_back v) ->
  ends (exchange env) Q c.
Proof.
  intros Hv Hin HQ Hloud Hserve. unfold exchange. apply ends_bind. unfold send, on_transport.
  unfold ends at 1, map_err_m, zoom. cbn [send_json link_transport]. unfold link_send, handle_frame.
  rewrite el_envelope by done.
  assert (He : ends (handle_envelope p env) (fun r s => exists aid g rid t, r = Ok
                 (reply_to_message p (env_id env) (reaction env (peer c)) aid g rid t) /\
                 stamps_ok (endpoint (transport c)) aid rid t s /\
                 activations (session s) = activate p (env_id env) (reaction env (peer c)) aid (activations (peer c)) /\
                 seen_ids (session s) = {[env_id env]} ∪ seen_ids (peer c)) (endpoint (transport c))).
  { apply handle_envelope_ends. intros aid g rid t s' Hst Ha Hs. by exists aid, g, rid, t. }
  destruct He as (aid & g & rid & t & Hr & Hst & Ha & Hs).
  destruct (handle_envelope p env (endpoint (transport c))) as [r s]. cbn in Hr, Hst, Ha, Hs. subst r. cbn [fst snd map_err].
  assert (Hone : exists r, reply_to_message p (env_id env) (reaction env (peer c)) aid g rid t = [r] /\
            forall v, payload r = Some v -> reads_back v).
  { destruct (reaction env (peer c)) as [| |h|] eqn:HR; [done | ..]; eexists; (split; [reflexivity |]); cbn.
    - done.
    - intros v [= <-]. apply el_agreement_back.
    - intros v' [= <-]. by eapply Hserve. }
  destruct Hone as (r & Hone & Hback). rewrite Hone, Hin. cbn [app map].
  unfold ends, recv, on_transport, map_err_m, zoom. cbn. unfold link_recv. cbn. rewrite el_envelope by done. cbn.
  by eapply (HQ aid g rid t {| endpoint := s; inbox := [] |}).
Qed.
Lemma ends_exchange {A} env (k : option Env -> M Client ClientError A) Q c :
  ends (exchange env) (fun r c' => match r with Ok o => ends (k o) Q c' | Err e => Q (Err e) c' end) c ->
  ends (send env;; o ← recv; k o) Q c.
Proof.
  intros H. apply ends_bind in H. revert H. unfold exchange, ends, mbind, M_bind.
  by destruct (send env c) as [[]].
Qed.

(** ** The names of a call *)

Lemma well_named_spec cap m : well_named cap m = true <-> coordinate_ok cap /\ text_matches METHOD m.
Proof.
  unfold well_named, coordinate_ok.
  by rewrite !andb_true_iff, valid_api_version_spec, valid_coordinate_kind_spec, valid_method_spec.
Qed.

Lemma named_ok env cap m :
  capability env = Some cap -> method env = Some m ->
  (capability_ok env /\ method_ok env) <-> well_named cap m = true.
Proof.
  intros Hc Hm. rewrite well_named_spec. unfold capability_ok, method_ok. rewrite Hc, Hm. naive_solver.
Qed.

Lemma fresh_id k cap m v n t c : in_step c -> (env_id (next_env k cap m v n t c) ∉ seen_ids (peer c)).
Proof. intros (_ & _ & Hs & _) (n' & k' & He & Hk)%Hs. cbn in He. apply unique_token_inj in He. lia. Qed.

Lemma next_id_ok k cap m v n t c :
  (n < STAMP_LIMIT)%N -> (counter c <= U64_MAX)%N ->
  len_ok ID_MIN_LEN ID_MAX_LEN (env_id (next_env k cap m v n t c)).
Proof. intros Hn Hc. by apply token_len_ok, unique_token_length. Qed.

(** A call is valid when its names are and its payload is an object. *)
Lemma call_valid cap m v n t c :
  in_step c -> (n < STAMP_LIMIT)%N -> (counter c <= U64_MAX)%N -> is_rfc3339_timestamp t = true ->
  validate_envelope (next_env Invocation (Some cap) (Some m) (Some v) n t c) = Ok tt <->
  well_named cap m = true /\ is_object v = true.
Proof.
  intros (_ & _ & _ & Hc1 & Hc2 & Ha) Hn Hcount Ht. rewrite validate_envelope_ok.
  set (env := next_env _ _ _ _ _ _ _). rewrite <- (named_ok env cap m eq_refl eq_refl).
  pose proof (next_id_ok Invocation (Some cap) (Some m) (Some v) n t c Hn Hcount) as Hid. fold env in Hid.
  unfold envelope_ok. split.
  - intros (_ & _ & _ & _ & _ & _ & _ & _ & Hcap & Hm & v' & [= <-] & Hv). by split_and!.
  - intros ((Hcap & Hm) & Hv). split_and!; try done. unfold invocation_ok. split_and!; try done. by exists v.
Qed.

(** ** Reading the reply *)

Lemma refusal_read env cap m code message aid g rid t r :
  len_ok ID_MIN_LEN ID_MAX_LEN (env_id env) -> token_ok rid -> is_rfc3339_timestamp t = true ->
  reply_to_message p (env_id env) (Refuse (Some cap) (Some m) code message) aid g rid t = [r] ->
  outcome (read_result env r) = Some (if well_named cap m then Refused code else Unreadable).
Proof.
  intros Hid Hrid Ht [= <-]. unfold read_result. cbn [Envelope.kind]. set (r := Build_Envelope _ _ _ _ _ _ _ _ _ _ _ _).
  assert (Hok : envelope_ok r <-> well_named cap m = true).
  { rewrite <- (named_ok r cap m eq_refl eq_refl). unfold envelope_ok, r; cbn [Envelope.kind]. split.
    - by intros (_ & _ & _ & _ & _ & _ & _ & Hc & Hm & _).
    - intros [Hc Hm]. destruct (token_len_ok _ Hrid) as [Hl _]. split_and!; try done.
      unfold result_ok. split_and!; [by exists (env_id env) | done | done |]. right. split; [done |]. eexists.
      split_and!; [done | apply truncated_message | done]. }
  destruct (validate_envelope r) as [[]|issues] eqn:Hv.
  - apply validate_envelope_ok, Hok in Hv. rewrite Hv. unfold verify_result. cbn. by rewrite !bool_decide_true by done.
  - destruct (well_named cap m) eqn:Hw; [| done]. assert (validate_envelope r = Ok tt) by (by apply validate_envelope_ok, Hok).
    congruence.
Qed.

Lemma served_read env aid cap m v aid' g rid t r :
  len_ok ID_MIN_LEN ID_MAX_LEN (env_id env) -> len_ok 1 128 aid -> well_named cap m = true -> is_object v = true ->
  token_ok rid -> is_rfc3339_timestamp t = true ->
  reply_to_message p (env_id env) (Serve aid cap m v) aid' g rid t = [r] ->
  read_result env r = Ok v.
Proof.
  intros Hid Ha [Hcap Hm]%well_named_spec Hv Hrid Ht [= <-]. unfold read_result. cbn [Envelope.kind].
  set (r := Build_Envelope _ _ _ _ _ _ _ _ _ _ _ _).
  assert (Hok : envelope_ok r).
  { destruct (token_len_ok _ Hrid) as [Hl _]. unfold envelope_ok, r; cbn [Envelope.kind]. split_and!; try done; [by intros a [= <-] |].
    unfold result_ok. split_and!; [by exists (env_id env) | by exists cap | by exists m |]. left. split; [done |]. by exists v. }
  rewrite (proj2 (validate_envelope_ok r) Hok). unfold verify_result. cbn. by rewrite bool_decide_true by done.
Qed.

(** ** A call gets the verdict *)

Lemma coordinate_is cap cap' :
  bool_decide (Envelope.api_version cap = Envelope.api_version cap') &&
  bool_decide (coordinate_kind cap = coordinate_kind cap') = bool_decide (cap = cap').
Proof.
  destruct cap as [a k], cap' as [a' k']. cbn. apply eq_true_iff_eq.
  rewrite andb_true_iff, !bool_decide_eq_true. naive_solver.
Qed.

(** The verdict of an authorized call. *)
Lemma run_method_verdict cap m v :
  match run_method cap m (Some v) with Ok w => Answered w | Err _ => Refused Unavailable end =
  if bool_decide (cap = system) && bool_decide (m = SYSTEM_PING_METHOD) then Answered (pong v)
  else if bool_decide (cap = browser) && bool_decide (m = BROWSER_LIST_METHOD) then Answered browsers
  else Refused Unavailable.
Proof.
  unfold run_method. rewrite <- (coordinate_is cap system), <- (coordinate_is cap browser). cbn.
  do 2 (destruct (_ && _ && _); [done |]). done.
Qed.

Lemma run_method_object cap m v w : run_method cap m v = Ok w -> is_object w = true.
Proof. unfold run_method. repeat case_match; try done; intros [= <-]; apply el_object. Qed.

Lemma run_method_back cap m v w : reads_back v -> run_method cap m (Some v) = Ok w -> reads_back w.
Proof. intros Hv. unfold run_method. repeat case_match; try done; intros [= <-]; [by apply el_pong | apply el_browsers]. Qed.

(** The reaction to a call, and the verdict a client that reads it comes to. *)
Definition verdict_of (cap : ProtocolCoordinate) (m : string) (R : Reaction) : option Verdict :=
  match R with
  | Refuse (Some _) (Some _) code _ => Some (if well_named cap m then Refused code else Unreadable)
  | Serve _ _ _ v => Some (Answered v)
  | _ => None
  end.

Lemma call_reaction supported cap m v n t c :
  in_step c -> linked supported c -> (n < STAMP_LIMIT)%N -> (counter c <= U64_MAX)%N -> is_rfc3339_timestamp t = true ->
  let R := reaction (next_env Invocation (Some cap) (Some m) (Some v) n t c) (peer c) in
  verdict_of cap m R = Some (verdict p supported cap m v) /\
  match R with
  | Refuse cap' m' _ _ => cap' = Some cap /\ m' = Some m
  | Serve aid cap' m' w => cap' = cap /\ m' = m /\ len_ok 1 128 aid /\ run_method cap m (Some v) = Ok w /\
                           well_named cap m = true
  | _ => False
  end.
Proof.
  intros Hin (aid & x & _ & Haid & Hx & Hg) Hn Hc Ht R. subst R. unfold reaction.
  rewrite bool_decide_false by (by apply fresh_id).
  pose proof (call_valid cap m v n t c Hin Hn Hc Ht) as Hval.
  destruct (validate_envelope _) as [[]|issues].
  - destruct (proj1 Hval eq_refl) as [Hw Hv]. cbn [Envelope.kind next_env]. unfold invocation_reaction, verdict.
    cbn [capability method participant payload next_env]. rewrite Haid, Hx, Hw, Hv, Hg. cbn [negb].
    rewrite <- bool_decide_and, (bool_decide_ext _ _ (sort_supports_granted p supported cap)).
    case_bool_decide; cbn [negb]; [| cbn [verdict_of]; by rewrite Hw].
    rewrite <- run_method_verdict. destruct (run_method cap m (Some v)) as [w|]; cbn [verdict_of]; [| by rewrite Hw].
    split_and!; try done. destruct Hin as (_ & _ & _ & _ & _ & Ha). by apply Ha.
  - rewrite (proj2 (len_within_spec _ _ _)) by (by apply next_id_ok). split; [| done].
    cbn [verdict_of capability method next_env]. unfold verdict. destruct (well_named cap m); [| done]. cbn [negb].
    destruct (is_object v); [| done]. discriminate (proj2 Hval (conj eq_refl eq_refl)).
Qed.
(** After an exchange the two sides are in step again. *)
Lemma in_step_after k cap m v n t c c1 c' aid rid t' :
  in_step c -> (counter c < U64_MAX)%N -> counter c1 = u64_add (counter c) 1 -> counter c' = counter c1 ->
  stamps_ok (endpoint (transport c)) aid rid t' (endpoint (transport c')) ->
  seen_ids (peer c') = {[env_id (next_env k cap m v n t c)]} ∪ seen_ids (peer c) ->
  inbox (transport c') = [] -> client_participant c' = client_participant c ->
  in_step c' /\ counter c' = (counter c + 1)%N.
Proof.
  intros (_ & He & Hs & Hcf) Hlt Hc1 Hc' [Ho _] Hseen Hin Hp.
  assert (Hcount : counter c' = (counter c + 1)%N) by (rewrite Hc', Hc1; apply u64_add_small; lia).
  split; [| done]. unfold in_step. rewrite Hp, Hseen, Hcount. split_and!; [done | by apply Ho | | apply Hcf..].
  intros id [->%elem_of_singleton | (n' & k' & -> & Hk)%Hs]%elem_of_union.
  - exists n, (counter c). split; [done | lia].
  - exists n', k'. split; [done | lia].
Qed.

Lemma invoke_ends supported cap m v c :
  in_step c -> linked supported c -> (counter c < U64_MAX)%N -> reads_back v ->
  ends (invoke cap m v)
    (fun r c' => outcome r = Some (verdict p supported cap m v) /\ in_step c' /\ linked supported c' /\
                 counter c' = (counter c + 1)%N) c.
Proof.
  intros Hin Hl Hlt Hv. pose proof Hl as (aid & x & Hact & Haid & Hx & Hg).
  unfold invoke. apply ends_bind. unfold ends at 1. cbn. destruct (activation c) as [info|] eqn:Hinfo; [| done].
  apply ends_bind, outgoing_ends. intros n t c1 Hn Ht [Htr Hi Hp1 Ha1 Hc1]. apply ends_exchange.
  set (env := next_env _ _ _ _ _ _ _).
  assert (Hpeer : peer c1 = peer c) by (unfold peer; by rewrite Htr).
  pose proof (call_reaction supported cap m v n t c Hin Hl Hn ltac:(lia) Ht) as [HR Hshape]. fold env in HR, Hshape.
  apply exchange_ends.
  - by intros w [= <-].
  - rewrite Htr. apply Hin.
  - intros aid' g rid t' l r c' Hst Hact' Hseen Hbox Hr Hback Hl' _ Hp' Ha' Hc'. rewrite Hpeer in *.
    assert (Hstep : in_step c' /\ counter c' = (counter c + 1)%N).
    { rewrite Htr in Hst. eapply in_step_after; [exact Hin | done | exact Hc1 | exact Hc' | rewrite Hl'; exact Hst | | |].
      - unfold peer at 1. rewrite Hl'. exact Hseen.
      - by rewrite Hl'.
      - congruence. }
    destruct Hstep as [Hstep Hcount]. unfold ends. cbn [fst snd lift].
    assert (Htok : token_ok rid). { rewrite Htr in Hst. destruct Hst as [Ho _]. destruct Hin as (_ & He & _). by apply Ho. }
    assert (Hid : len_ok ID_MIN_LEN ID_MAX_LEN (env_id env)) by (apply next_id_ok; [done | lia]).
    split_and!; [| exact Hstep | | exact Hcount].
    + rewrite <- HR. destruct (reaction env (peer c)) as [|cap' m' code message|h|a' cap' m' w]; try done.
      * destruct Hshape as [-> ->]. eapply refusal_read; [done | done | by apply Hst | exact Hr].
      * destruct Hshape as (-> & -> & Ha & Hrun & Hw). cbn [verdict_of].
        by rewrite (served_read env a' cap m w aid' g rid t' r Hid Ha Hw (run_method_object _ _ _ _ Hrun) Htok (so_time _ _ _ _ _ Hst) Hr).
    + exists aid, x. rewrite Ha', Ha1, Hp', Hp1. split_and!; [congruence | done | | done]. unfold peer. rewrite Hl', Hact'.
      destruct (reaction env (peer c)); done.
  - rewrite Hpeer. by destruct (reaction env (peer c)).
  - rewrite Hpeer. intros a' cap' m' w HS. rewrite HS in Hshape. destruct Hshape as (_ & _ & _ & Hrun & _).
    by eapply run_method_back.
Qed.

(** ** The negotiation *)

Lemma sort_supports_spec l :
  sort_supports p l = (List.filter (fun x => bool_decide (x ∈ grantable p)) l,
                       map policy_denied (List.filter (fun x => negb (bool_decide (x ∈ grantable p))) l)).
Proof. induction l as [|x l IH]; cbn; [done |]. rewrite IH. by case_bool_decide. Qed.

(** What a policy makes of valid coordinates is a valid agreement. *)
Lemma sorted_agreement_ok aid l :
  token_ok aid -> Forall coordinate_ok l -> NoDup (map coordinate_to_string l) ->
  agreement_payload_ok {| activation_id := aid; granted := (sort_supports p l).1;
                          unavailable := (sort_supports p l).2; lease_constraints := None |}.
Proof.
  intros Haid Hok Hnd. rewrite sort_supports_spec. unfold agreement_payload_ok. cbn.
  assert (Hsub : forall q, Forall coordinate_ok (List.filter q l)).
  { intros q. clear Hnd. induction Hok as [|y l' Hy _ IH]; cbn; [constructor |]. destruct (q y); [by constructor | apply IH]. }
  assert (Hfil : forall q, NoDup (map coordinate_to_string (List.filter q l))).
  { intros q. eapply sublist_NoDup; [exact Hnd | apply fmap_sublist, filter_sublist]. }
  split_and!; [by apply token_len_ok in Haid as [_ ?] | apply Hsub | apply Hfil | | | done].
  - apply Forall_fmap. eapply Forall_impl; eauto.
  - eapply NoDup_map_finer; [apply el_unavailable |]. rewrite map_map. apply Hfil.
Qed.

Lemma negotiate_ends supported c :
  in_step c -> (counter c < U64_MAX)%N -> len_ok 8 128 (client_instance_id c) ->
  participant_activation (client_participant c) = None ->
  Forall coordinate_ok supported -> NoDup (map coordinate_to_string supported) ->
  ends (negotiate supported)
    (fun r c' => exists info, r = Ok info /\ info_granted info = (sort_supports p supported).1 /\
       info_unavailable info = (sort_supports p supported).2 /\ in_step c' /\ linked supported c' /\
       counter c' = (counter c + 1)%N) c.
Proof.
  intros Hin Hlt Hinst Hnone Hok Hnd. unfold negotiate. apply ends_bind. unfold ends at 1. cbn.
  apply ends_bind, outgoing_ends. intros n t c1 Hn Ht [Htr Hi Hp1 Ha1 Hc1]. apply ends_exchange.
  set (h := Build_HelloPayload _ _ _). set (env := next_env _ _ _ _ _ _ _).
  assert (Hpeer : peer c1 = peer c) by (unfold peer; by rewrite Htr).
  assert (Hid : len_ok ID_MIN_LEN ID_MAX_LEN (env_id env)) by (apply next_id_ok; [done | lia]).
  assert (HR : reaction env (peer c) = Agree h).
  { unfold reaction. rewrite bool_decide_false by (by apply fresh_id).
    rewrite (proj2 (validate_envelope_ok env)); [cbn; by rewrite el_hello |].
    destruct Hin as (_ & _ & _ & Hf1 & Hf2 & Hf3). unfold envelope_ok. split_and!; try done. split_and!; try done.
    exists (hello_value h), h. split_and!; [done | apply el_hello |].
    split_and!; [exact Hinst | done | done | constructor | constructor]. }
  apply exchange_ends; rewrite ?Hpeer, ?HR, ?Htr; [| apply Hin | | done | done].
  { intros w [= <-]. apply el_hello_back. }
  intros aid g rid t' l r c' Hst Hact Hseen Hbox [= <-] Hback Hl' _ Hp' Ha' Hc'. unfold ends.
  pose proof Hin as (_ & He & _). destruct (so_tokens _ _ _ _ _ Hst He) as (Haid & Hrid & _).
  assert (Hstep : in_step c' /\ counter c' = (counter c + 1)%N).
  { eapply in_step_after; [exact Hin | done | exact Hc1 | exact Hc' | rewrite Hl'; exact Hst | | |].
    - unfold peer at 1. rewrite Hl'. exact Hseen.
    - by rewrite Hl'.
    - congruence. }
  destruct Hstep as [(Hbox' & He' & Hs' & Hf1 & Hf2 & _) Hcount].
  set (r := Build_Envelope _ _ _ _ _ _ _ _ _ _ _ _).
  assert (Hread : read_agreement env r = Ok {| info_activation_id := aid; info_granted := (sort_supports p supported).1;
            info_unavailable := (sort_supports p supported).2; agreement_id := rid |}).
  { unfold read_agreement. cbn [Envelope.kind r]. rewrite (proj2 (validate_envelope_ok r)).
    - rewrite bool_decide_true by done. cbn. by rewrite el_agreement.
    - destruct (token_len_ok _ Haid) as [_ Hal], (token_len_ok _ Hrid) as [Hrl _]. unfold envelope_ok.
      split_and!; try done; [by intros a [= <-] | apply Hst |].
      split_and!; try done; [by exists (env_id env) |]. eexists _, _. split_and!; [done | apply el_agreement |].
      by apply sorted_agreement_ok. }
  unfold mbind, M_bind, lift. rewrite Hread. cbn. eexists. split; [done |]. cbn. split_and!; [done | done | | | done].
  - unfold in_step. cbn. split_and!; try done. intros a [= <-]. by apply token_len_ok in Haid as [_ ?].
  - exists aid. eexists. cbn. split_and!; [done | done | unfold peer; cbn; rewrite Hl', Hact; apply lookup_insert_eq | done].
Qed.
(** ** A whole session *)

Definition Call : Type := ProtocolCoordinate * string * Value.

(** The results of calls made one after the other. *)
Fixpoint invoke_all (calls : list Call) c : list (result ClientError Value) :=
  match calls with
  | [] => []
  | (cap, m, v) :: calls => let '(r, c') := invoke cap m v c in r :: invoke_all calls c'
  end.

(** A connection just opened to a server process. *)
Definition opened (proc : Process C) : Link C :=
  {| endpoint := {| process := proc; session := new_session |}; inbox := [] |}.

Lemma invoke_all_verdicts supported calls c :
  in_step c -> linked supported c -> (counter c + N.of_nat (length calls) <= U64_MAX)%N ->
  Forall (fun '(_, _, v) => reads_back v) calls ->
  map outcome (invoke_all calls c) = map (fun '(cap, m, v) => Some (verdict p supported cap m v)) calls.
Proof.
  revert c. induction calls as [|[[cap m] v] calls IH]; intros c Hin Hl Hc Hv; [done |].
  inversion_clear Hv as [|? ? Hv' Hvs]. cbn [length] in Hc. cbn [invoke_all map].
  destruct (invoke_ends supported cap m v c Hin Hl ltac:(lia) Hv') as (Hr & Hin' & Hl' & Hc').
  destruct (invoke cap m v c) as [r c']. cbn in *. rewrite Hr. f_equal. apply IH; [done | done | lia | done].
Qed.

Lemma instance_id_ok nanos : (nanos < STAMP_LIMIT)%N -> len_ok 8 128 ("ext-tool-" +:+ lower_hex 16 nanos).
Proof.
  intros Hn. unfold len_ok. rewrite append_length. change (String.length "ext-tool-") with 9%nat.
  pose proof (lower_hex_length 16 nanos 16) as Hh.
  assert (nanos < 16 ^ N.of_nat 17)%N as ?%Hh by (eapply N.lt_trans; [exact Hn | reflexivity]). lia.
Qed.

(** C12.  The external API implements its policy: a client that connects and asks
    for coordinates the schema accepts gets an Agreement for exactly those the
    policy holds, in order, the others being denied by policy; and every call it
    then makes, however many and in whatever order, ends as the policy says.  A
    call of a capability that was not both asked for and grantable is refused as
    unauthorized, one of an unknown method as unavailable, one without an object
    as malformed; [ping] echoes and [list_browsers] lists.  A call whose names the
    schema rejects is refused by a reply that repeats them and that the client
    cannot read. *)
Theorem session_follows_policy nanos server client supported calls :
  (nanos < STAMP_LIMIT)%N -> (id_counter server <= U64_MAX)%N ->
  (id_counter client + N.of_nat (length calls) < U64_MAX)%N ->
  Forall coordinate_ok supported -> NoDup (map coordinate_to_string supported) ->
  Forall (fun '(_, _, v) => reads_back v) calls ->
  exists info c, negotiate supported (connect nanos (opened server) client) = (Ok info, c) /\
    info_granted info = List.filter (fun x => bool_decide (x ∈ grantable p)) supported /\
    info_unavailable info = map policy_denied (List.filter (fun x => negb (bool_decide (x ∈ grantable p))) supported) /\
    map outcome (invoke_all calls c) = map (fun '(cap, m, v) => Some (verdict p supported cap m v)) calls.
Proof.
  intros Hn Hs Hc Hok Hnd Hv. set (c0 := connect nanos (opened server) client).
  assert (Hin : in_step c0). { unfold in_step. by split_and!. }
  assert (Hlt : (counter c0 < U64_MAX)%N) by (change (counter c0) with (id_counter client); lia).
  destruct (negotiate_ends supported c0 Hin Hlt (instance_id_ok nanos Hn) eq_refl Hok Hnd)
    as (info & Hr & Hg & Hu & Hin' & Hl & Hcount).
  destruct (negotiate supported c0) as [r c]. cbn in Hr, Hin', Hl, Hcount. subst r. exists info, c.
  rewrite Hg, Hu, sort_supports_spec. split_and!; [done | done | done |].
  apply invoke_all_verdicts; [done | done | | done]. rewrite Hcount. change (counter c0) with (id_counter client). lia.
Qed.
End Linked.

(** ** The client on any transport *)

Section AnyTransport.
Context {C T : Type} `{!Clock C} `{!Serde Value} `{wire : !ExampleWire} `{!Transport T}.

Lemma outgoing_any k cap m v err (c : ExampleClient C T) :
  exists env c', outgoing k cap m v err c = (Ok env, c') /\ transport c' = transport c /\
    capability env = cap /\ method env = m /\ payload env = v.
Proof.
  unfold outgoing, client_stamped, zoom, new_message_id, now_timestamp, new_token, stamp, update. unfold_monad. cbn.
  destruct (clock_read _) as [n1 k1]. cbn. destruct (clock_read _) as [n2 k2]. by eexists _, _.
Qed.

Lemma read_result_correlates (env reply : Env) :
  match read_result env reply with
  | Ok w => Envelope.kind reply = Result /\ validate_envelope reply = Ok tt /\ reply_to reply = Some (env_id env) /\
      error reply = None /\ w = default (obj []) (payload reply)
  | Err (Remote code message retry) =>
      Envelope.kind reply = Result /\ validate_envelope reply = Ok tt /\ reply_to reply = Some (env_id env) /\
      error reply = Some {| error_code := code; error_message := message; error_retryable := retry;
                            correlation_id := env_id env |}
  | Err _ => True
  end.
Proof.
  unfold read_result, verify_result. destruct (Envelope.kind reply); try done.
  destruct (validate_envelope reply) as [[]|]; [| done]. case_bool_decide; [| done]. cbn.
  destruct (error reply) as [[code msg retry corr]|]; [| done]. cbn. case_bool_decide; [| done]. cbn. by subst.
Qed.

(** Whatever the peer sends, [invoke] returns a value only from a valid Result
    that names the invocation just sent, and reports a remote error only from one
    that names it twice. *)
Theorem accepted_answer_correlates cap m v (c : ExampleClient C T) :
  match (invoke cap m v c).1 with
  | Ok _ | Err (Remote _ _ _) =>
      exists env reply t t', send_json env (transport c) = (Ok tt, t) /\ recv_json t = (Ok (Some reply), t') /\
        capability env = Some cap /\ method env = Some m /\ payload env = Some v /\
        Envelope.kind reply = Result /\ validate_envelope reply = Ok tt /\ reply_to reply = Some (env_id env) /\
        (invoke cap m v c).1 =
          match error reply with
          | None => Ok (default (obj []) (payload reply))
          | Some e => Err (Remote (error_code e) (error_message e) (error_retryable e))
          end /\
        forall e, error reply = Some e -> correlation_id e = env_id env
  | Err _ => True
  end.
Proof.
  unfold invoke. unfold_monad. destruct (activation c); [| done].
  destruct (outgoing_any Invocation (Some cap) (Some m) (Some v) None c) as (env & c' & -> & Ht & Hc & Hm & Hv).
  unfold send, recv, on_transport, map_err_m, zoom. rewrite Ht.
  destruct (send_json env (transport c)) as [[[]|e] t] eqn:Hsend; [| done]. cbn.
  destruct (recv_json t) as [[[reply|]|e] t'] eqn:Hrecv; [| done | done]. cbn.
  pose proof (read_result_correlates env reply) as Hread.
  destruct (read_result env reply) as [w|[| | | |code msg retry|]]; try done.
  - destruct Hread as (? & ? & ? & He & ->). exists env, reply, t, t'. rewrite He. by split_and!.
  - destruct Hread as (? & ? & ? & He). exists env, reply, t, t'. rewrite He. split_and!; try done. by intros e [= <-].
Qed.
End AnyTransport.

(** ** The theorems at work *)
Module LocalExample.

(** Values as trees, for a codec that reads everything back. *)
Fixpoint to_tree (v : Value) : gen_tree (bool + (N + (Z + (N + text)))) :=
  match v with
  | Null => GenNode 0 []
  | Bool b => GenLeaf (inl b)
  | Num (PosInt n) => GenLeaf (inr (inl n))
  | Num (NegInt z) => GenLeaf (inr (inr (inl z)))
  | Num (Float n) => GenLeaf (inr (inr (inr (inl n))))
  | Str s => GenLeaf (inr (inr (inr (inr s))))
  | Array l => GenNode 1 (map to_tree l)
  | Object l => GenNode 2 (map (fun e => GenNode 3 [GenLeaf (inr (inr (inr (inr e.1)))); to_tree e.2]) l)
  end.

Fixpoint from_tree (t : gen_tree (bool + (N + (Z + (N + text))))) : Value :=
  match t with
  | GenLeaf (inl b) => Bool b
  | GenLeaf (inr (inl n)) => Num (PosInt n)
  | GenLeaf (inr (inr (inl z))) => Num (NegInt z)
  | GenLeaf (inr (inr (inr (inl n)))) => Num (Float n)
  | GenLeaf (inr (inr (inr (inr s)))) => Str s
  | GenNode 0 _ => Null
  | GenNode 1 l => Array (map from_tree l)
  | GenNode _ l =>
      Object (map (fun t => match t with
                            | GenNode _ [GenLeaf (inr (inr (inr (inr k)))); v] => (k, from_tree v)
                            | _ => ([], Null)
                            end) l)
  end.

Fixpoint from_to_tree (v : Value) : from_tree (to_tree v) = v.
Proof.
  destruct v as [|b|[]|s|l|l]; cbn; [reflexivity.. | |].
  - f_equal. induction l as [|v l IH]; cbn; [done |]. by rewrite from_to_tree, IH.
  - f_equal. induction l as [|[k v] l IH]; cbn; [done |]. by rewrite from_to_tree, IH.
Qed.

#[export] Instance Value_eq_dec : EqDecision Value.
Proof. intros v w. destruct (decide (to_tree v = to_tree w)) as [H | H]; [left | right; congruence].
  rewrite <- (from_to_tree v), <- (from_to_tree w). by f_equal. Defined.
#[export] Instance Value_countable : Countable Value := inj_countable' to_tree from_tree from_to_tree.

(** Records as tuples. *)
Definition coordinate_tuple (c : ProtocolCoordinate) := (Envelope.api_version c, coordinate_kind c).
#[export] Instance coordinate_countable : Countable ProtocolCoordinate.
Proof. by refine (inj_countable' coordinate_tuple (fun '(a, k) => {| Envelope.api_version := a; coordinate_kind := k |}) _); intros []. Defined.

#[export] Instance Requirement_eq_dec : EqDecision Requirement.
Proof. solve_decision. Defined.
#[export] Instance requirement_countable : Countable Requirement.
Proof.
  by refine (inj_countable' (fun r => (requirement_coordinate r, required r))
    (fun '(c, b) => {| requirement_coordinate := c; required := b |}) _); intros [].
Defined.

#[export] Instance HelloPayload_eq_dec : EqDecision HelloPayload.
Proof. solve_decision. Defined.
#[export] Instance hello_countable : Countable HelloPayload.
Proof.
  by refine (inj_countable' (fun h => (instance_id h, supports h, requires h))
    (fun '(i, s, r) => {| instance_id := i; supports := s; requires := r |}) _); intros [].
Defined.

Definition reason_number (r : UnavailableReason) : N :=
  match r with ReasonUnavailable => 0 | ReasonUnsupportedVersion => 1 | ReasonPolicyDenied => 2 | ReasonProviderFailed => 3 end.
Definition number_reason (n : N) : UnavailableReason :=
  match n with 0 => ReasonUnavailable | 1 => ReasonUnsupportedVersion | 2 => ReasonPolicyDenied | _ => ReasonProviderFailed end%N.
#[export] Instance UnavailableReason_eq_dec : EqDecision UnavailableReason.
Proof. solve_decision. Defined.
#[export] Instance reason_countable : Countable UnavailableReason.
Proof. by refine (inj_countable' reason_number number_reason _); intros []. Defined.

#[export] Instance UnavailableCapability_eq_dec : EqDecision UnavailableCapability.
Proof. solve_decision. Defined.
#[export] Instance unavailable_countable : Countable UnavailableCapability.
Proof.
  by refine (inj_countable' (fun u => (unavailable_coordinate u, unavailable_reason u))
    (fun '(c, r) => {| unavailable_coordinate := c; unavailable_reason := r |}) _); intros [].
Defined.

#[export] Instance LeaseConstraints_eq_dec : EqDecision LeaseConstraints.
Proof. solve_decision. Defined.
#[export] Instance constraints_countable : Countable LeaseConstraints.
Proof.
  by refine (inj_countable' (fun l => (max_seconds l, approval_required l))
    (fun '(m, a) => {| max_seconds := m; approval_required := a |}) _); intros [].
Defined.

#[export] Instance AgreementPayload_eq_dec : EqDecision AgreementPayload.
Proof. solve_decision. Defined.
#[export] Instance agreement_countable : Countable AgreementPayload.
Proof.
  by refine (inj_countable' (fun a => (activation_id a, granted a, unavailable a, lease_constraints a))
    (fun '(i, g, u, l) => {| activation_id := i; granted := g; unavailable := u; lease_constraints := l |}) _); intros [].
Defined.

#[export] Instance Participant_eq_dec : EqDecision Participant.
Proof. solve_decision. Defined.
#[export] Instance participant_countable : Countable Participant.
Proof.
  by refine (inj_countable' (fun a => (component a, facet a, participant_activation a))
    (fun '(c, f, a) => {| component := c; facet := f; participant_activation := a |}) _); intros [].
Defined.

Definition kind_number (k : EnvelopeKind) : N :=
  match k with Hello => 0 | Agreement => 1 | Invocation => 2 | Result => 3 | Event => 4 end.
Definition number_kind (n : N) : EnvelopeKind :=
  match n with 0 => Hello | 1 => Agreement | 2 => Invocation | 3 => Result | _ => Event end%N.
#[export] Instance EnvelopeKind_eq_dec : EqDecision EnvelopeKind.
Proof. solve_decision. Defined.
#[export] Instance kind_countable : Countable EnvelopeKind.
Proof. by refine (inj_countable' kind_number number_kind _); intros []. Defined.

Definition code_number (c : ErrorCode) : N :=
  match c with
  | Unavailable => 0 | Unauthorized => 1 | UnsupportedVersion => 2 | NotProcessOwner => 3 | UserGestureRequired => 4
  | UserDenied => 5 | StaleGeneration => 6 | MalformedMessage => 7 | Envelope.Conflict => 8 | Timeout => 9 | SafeStop => 10
  end.
Definition number_code (n : N) : ErrorCode :=
  match n with
  | 0 => Unavailable | 1 => Unauthorized | 2 => UnsupportedVersion | 3 => NotProcessOwner | 4 => UserGestureRequired
  | 5 => UserDenied | 6 => StaleGeneration | 7 => MalformedMessage | 8 => Envelope.Conflict | 9 => Timeout | _ => SafeStop
  end%N.
#[export] Instance ErrorCode_eq_dec : EqDecision ErrorCode.
Proof. solve_decision. Defined.
#[export] Instance code_countable : Countable ErrorCode.
Proof. by refine (inj_countable' code_number number_code _); intros []. Defined.

#[export] Instance ProtocolError_eq_dec : EqDecision ProtocolError.
Proof. solve_decision. Defined.
#[export] Instance error_countable : Countable ProtocolError.
Proof.
  by refine (inj_countable' (fun e => (error_code e, error_message e, error_retryable e, correlation_id e))
    (fun '(c, m, r, i) => {| error_code := c; error_message := m; error_retryable := r; correlation_id := i |}) _); intros [].
Defined.

#[export] Instance Envelope_eq_dec : EqDecision Env.
Proof. solve_decision. Defined.
#[export] Instance envelope_countable : Countable Env.
Proof.
  by refine (inj_countable'
    (fun e => (protocol e, env_id e, Envelope.kind e, reply_to e, participant e, timestamp e, generation e,
               capability e, method e, payload e, error e))
    (fun '(a, b, c, d, e, f, g, h, i, j, k) =>
       {| protocol := a; env_id := b; Envelope.kind := c; reply_to := d; participant := e; timestamp := f;
          generation := g; capability := h; method := i; payload := j; error := k |}) _); intros [].
Defined.

(** A number as bytes, one for each bit. *)
Fixpoint to_bits (n : positive) : list byte :=
  match n with xH => [] | xO n => x00 :: to_bits n | xI n => x01 :: to_bits n end.
Fixpoint of_bits (l : list byte) : positive :=
  match l with [] => xH | x00 :: l => xO (of_bits l) | _ :: l => xI (of_bits l) end.
Lemma of_to_bits n : of_bits (to_bits n) = n.
Proof. induction n as [n IH | n IH |]; cbn; by rewrite ?IH. Qed.

(** A payload is an object that holds its number under its name. *)
Definition numbered {A} `{Countable A} (name : string) (a : A) : Value := Object [(txt name, Num (PosInt (Npos (encode a))))].
Definition of_numbered {A} `{Countable A} (name : string) (v : Value) : result string A :=
  match v with
  | Object [(k, Num (PosInt (Npos n)))] =>
      if bool_decide (k = txt name) then ok_or "number"%string (decode n) else Err "name"%string
  | _ => Err "shape"%string
  end.
Lemma of_numbered_numbered {A} `{Countable A} name (a : A) : of_numbered name (numbered name a) = Ok a.
Proof. unfold of_numbered, numbered. rewrite bool_decide_true, decode_encode by done. reflexivity. Qed.

#[export] Instance serde : Serde Value := {|
  is_object := fun v => if v is Object _ then true else false;
  hello_from_value := of_numbered "hello"; agreement_from_value := of_numbered "agreement";
  coordinate_to_string := fun c => (Envelope.api_version c +:+ "/" +:+ coordinate_kind c)%string;
  requirement_to_string := fun r => coordinate_kind (requirement_coordinate r);
  unavailable_to_string := fun u => (Envelope.api_version (unavailable_coordinate u) +:+ "/" +:+
                                     coordinate_kind (unavailable_coordinate u))%string
|}.
#[export] Instance example_wire : ExampleWire := {|
  hello_value := numbered "hello"; agreement_value := numbered "agreement";
  envelope_to_vec := fun e => to_bits (encode e)
|}.
#[export] Instance envelope_wire : EnvelopeWire Value := {|
  envelope_from_slice := fun b => ok_or "bytes"%string (decode (of_bits b)); id_from_slice := fun _ => None
|}.
#[export] Instance laws : ExampleLaws.
Proof.
  refine {| reads_back := fun _ => True |}; try done.
  - intros env _. cbn. by rewrite of_to_bits, decode_encode.
  - intros h. apply of_numbered_numbered.
  - intros a. apply of_numbered_numbered.
Defined.

#[export] Instance still : Clock unit := fun _ => (1000%N, tt).
#[export] Instance still_range : ClockInRange unit.
Proof. intros c. reflexivity. Qed.

(** The demo of [main.rs]: [ping] is granted, [list_browsers] is not. *)
Definition hello_there : Value := obj [("message"%string, Str (txt "hello from an external tool"))].
Definition demo : list Call := [(system, SYSTEM_PING_METHOD, hello_there); (browser, BROWSER_LIST_METHOD, obj [])].
Definition started : Process unit := {| id_counter := 0; clock := tt |}.

Lemma session_follows_policy_witness :
  exists info c, negotiate (T := Link unit) (Transport0 := link_transport default_policy) [system; browser]
                   (connect 1000 (opened started) started) = (Ok info, c) /\
    info_granted info = [system] /\ info_unavailable info = [policy_denied browser] /\
    map outcome (invoke_all default_policy demo c) = [Some (Answered (pong hello_there)); Some (Refused Unauthorized)].
Proof.
  destruct (session_follows_policy default_policy 1000 started started [system; browser] demo)
    as (info & c & Hn & Hg & Hu & Hm).
  - reflexivity.
  - vm_compute. discriminate.
  - vm_compute. reflexivity.
  - repeat constructor; try (by apply valid_api_version_spec); by apply valid_coordinate_kind_spec.
  - apply (bool_decide_unpack _). vm_compute. exact I.
  - repeat constructor.
  - exists info, c. split; [exact Hn |]. split; [rewrite Hg; vm_compute; reflexivity |].
    split; [rewrite Hu; vm_compute; reflexivity |]. rewrite Hm. vm_compute. reflexivity.
Defined.
(** The frames of a peer that negotiates and pings. *)
Definition tool (a : option string) : Participant :=
  {| component := "external-tool"; facet := "example-client"; participant_activation := a |}.
Definition greeting : Env :=
  {| protocol := PROTOCOL; env_id := "hello-01"; Envelope.kind := Hello; reply_to := None; participant := tool None;
     timestamp := "2026-08-31T09:30:00Z"; generation := 0; capability := None; method := None;
     payload := Some (hello_value {| instance_id := "instance"; supports := [system; browser]; requires := [] |});
     error := None |}.
Definition ask (id : string) (cap : ProtocolCoordinate) (m : string) : Env :=
  {| protocol := PROTOCOL; env_id := id; Envelope.kind := Invocation; reply_to := None;
     participant := tool (Some (unique_token "act" 1000 0)); timestamp := "2026-08-31T09:30:00Z"; generation := 1;
     capability := Some cap; method := Some m; payload := Some hello_there; error := None |}.
Definition frames : list (list byte) :=
  map envelope_to_vec [greeting; ask "call-001" system SYSTEM_PING_METHOD; ask "call-002" browser BROWSER_LIST_METHOD].

Lemma only_granted_served_witness :
  exists a r refusal, (serve_connection default_policy frames [] started).1 = Ok [a; r; refusal] /\
    error r = None /\ error refusal <> None /\
    exists aid cap, participant_activation (participant r) = Some aid /\ capability r = Some cap /\
      cap ∈ grantable default_policy /\ agreed_in [a] aid cap.
Proof.
  assert (Hlog : exists a r refusal, (serve_connection default_policy frames [] started).1 = Ok [a; r; refusal] /\
            Envelope.kind r = Result /\ error r = None /\ error refusal <> None).
  { eexists _, _, _. split; [vm_compute; reflexivity |]. by split_and!. }
  destruct Hlog as (a & r & refusal & Hlog & Hk & He & Hr). exists a, r, refusal. split_and!; try assumption.
  pose proof (only_granted_served default_policy frames [] started) as H. rewrite Hlog in H.
  exact (H [a] r [refusal] eq_refl Hk He).
Defined.

(** A Hello with a coordinate the schema rejects is refused with a reason, which
    the client drops. *)
Example refused_hello_unexpected :
  (negotiate (T := Link unit) (Transport0 := link_transport default_policy)
     [{| Envelope.api_version := "system"; coordinate_kind := SYSTEM_KIND |}]
     (connect 1000 (opened started) started)).1 = Err (UnexpectedKind Result).
Proof. vm_compute. reflexivity. Qed.
End LocalExample.
